(* ===== verification/_CoqProject ===== *)
-Q . S2P
Prelude.v
Kern.v
LinkedList.v
LinkedListOps.v
LinkedListThms.v
Bitmap.v
Array.v
ThreadList.v
Sched.v
SchedFacts.v
SchedThms.v
Hangman.v
CopyInOut.v
Uio.v
Synch.v
SynchFacts.v
SynchThms.v
SharedBuffer.v
Semaphore.v
Os.v
OsFacts.v
Kprintf.v
Vfs.v
MemFs.v
VfsThms.v
FileTable.v
FileFacts.v
ProcTable.v
ProcFacts.v
Boot.v
FileThms.v
ProcThms.v
FileCalls.v
ProcCalls.v
CallFacts.v
CallThms.v
ExitThms.v
LibcMem.v
LibcStr.v
Menu.v
Lhd.v
Sfs.v
SfsFacts.v
SfsTrunc.v
SfsThms.v
Kmalloc.v
KmallocFacts.v
KmallocPages.v
KmallocBlocks.v
KmallocAlloc.v
KmallocFree.v
KmallocSpec.v
KmallocThms.v
Dumbvm.v
DumbvmFacts.v
DumbvmSpace.v
DumbvmTlb.v
DumbvmLoad.v
DumbvmThms.v
SfsDir.v
SfsNames.v
SfsDirThms.v
SfsIo.v
SfsIoFacts.v
SfsIoThms.v
SfsRwThms.v
SfsVnode.v
SfsVops.v
SfsCore.v
SfsLoad.v
SfsReclaim.v
SfsSpace.v
SfsNamespace.v
SfsFlat.v
SfsFlatThms.v
SfsFsops.v
SfsSync.v
SfsMount.v
SfsCrash.v
