(* ===== verification/Prelude.v ===== *)
(** * OS/161 kernel verification library

    A model of the kernels of this repository, two trees of the teaching system
    OS/161 with the work of a course on top (os161-dvz-main, "dvz" below, and
    os161-vud-proj1-proj2), and theorems about it.  Paths are relative to
    [src/os161-dvz-main/src/] unless the other tree is named.  Most kernel code
    is the same in both trees; where the two differ (the linked list, locks and
    condition variables, the shared buffer) both are modelled.


    ** How code is modelled

    C functions are translated statement by statement into the monad [M] of this
    file: a function from a state to an outcome, which is a result with a new
    state, or a stop ([Panic]: a failed KASSERT or a call of panic; [Fault]: a
    NULL or stale pointer, or an address that is not memory; [Blocked]: a lock
    somebody holds; [Asleep]; [Diverges]: a loop that used up its bound).
    [wp m Q s] says that [m] returns from [s], with a result and a state in [Q]:
    a theorem of this form excludes panics, faults, blocking and endless loops.
    Each component has a state of its own (a Record), and error numbers are
    results, as in the code.  Integers are [Z], truncated where the C type does
    ([u16], [u32], [s32], [u64], [s64]); pointers are [option positive] where only their
    identity matters and numbers where the code computes with them.

    Code that synchronises is modelled differently (Synch.v): a C function is a
    list of statements, and a machine interleaves the statements of any number
    of threads; the theorems hold in every reachable state.


    ** The parts, from the bottom up

    - Prelude.v: the monad, loops, proof rules, machine integers. Kern.v: what
      the rest of the kernel uses of kmalloc and of sleep locks, with the
      interface [HasBase] through which a component's state gives access to it.
    - Kernel heap. Kmalloc.v: kern/vm/kmalloc.c on the page allocator of
      kern/arch/mips/vm/dumbvm.c and ram.c. KmallocFacts.v: the invariant
      [heap]. KmallocPages.v, KmallocBlocks.v, KmallocAlloc.v, KmallocFree.v:
      one stage of an operation each. KmallocSpec.v: the abstract allocator;
      KmallocThms.v: [kmalloc] and [kfree] implement it. This is what Kern.v's
      [kmalloc], whose results an oracle chooses, takes for granted.
    - Data structures. LinkedList.v, LinkedListOps.v, LinkedListThms.v:
      kern/concurrent_list/linked_list.c of both trees (Modules [Dvz], [Proj1]),
      with the interface [SortedList] both implement. Bitmap.v:
      kern/lib/bitmap.c. Array.v: kern/lib/array.c. ThreadList.v:
      kern/thread/threadlist.c.
    - Threads. Sched.v, SchedFacts.v, SchedThms.v: kern/thread/thread.c,
      spinlock.c, spl.c on one CPU. Hangman.v: kern/thread/hangman.c.
    - Synchronisation. Synch.v, SynchFacts.v, SynchThms.v, Semaphore.v:
      kern/thread/synch.c of both trees. SharedBuffer.v:
      kern/shared_buffer/shared_buffer.c of both trees, a client of it.
    - Moving data. CopyInOut.v: kern/vm/copyinout.c. Uio.v: kern/lib/uio.c.
      LibcMem.v, LibcStr.v: common/libc/string. Menu.v: the command line of
      kern/main/menu.c, a client of LibcStr.v.
    - Files and processes. Os.v, OsFacts.v: the kernel objects the system calls
      work on, with the threads asleep on each wait channel. Kprintf.v: what the
      kernel prints, strerror of kern/lib/misc.c. Vfs.v, VfsThms.v:
      kern/vfs/vnode.c, vfspath.c, vfscwd.c, above the interface [FileSystem];
      MemFs.v: an instance of it, for the examples. FileTable.v, FileFacts.v,
      FileThms.v: kern/vfs/file.c. ProcTable.v, ProcFacts.v, ProcThms.v:
      kern/proc/proc.c. Boot.v: a booted system. FileCalls.v, ProcCalls.v,
      CallFacts.v, CallThms.v, ExitThms.v: kern/syscall and
      kern/arch/mips/syscall/syscall.c.
    - Disk and file system. Lhd.v: kern/dev/lamebus/lhd.c. Sfs.v, SfsFacts.v,
      SfsTrunc.v, SfsThms.v: the block layer of kern/fs/sfs, on Lhd.v and
      Bitmap.v. SfsDir.v: sfs_dir.c; SfsNames.v: entries on disk and the map
      they stand for, and what writing a file may change; SfsDirThms.v: the
      theorem. SfsIo.v: sfs_io.c, [sfs_read] and [sfs_write]; SfsIoFacts.v,
      SfsIoThms.v: one block and a region; SfsRwThms.v: the theorem. SfsVnode.v:
      inodes in memory, sfs_inode.c, with the reference counts of
      kern/vfs/vnode.c; SfsVops.v: sfs_vnops.c and the failing operations of
      kern/vfs/vfsfail.c. SfsCore.v: the invariant of a mounted volume,
      [sfs_ok]; SfsLoad.v, SfsReclaim.v: loading, making and dropping vnodes
      keep it. SfsSpace.v: an abstract file system, names, bytes and references;
      SfsNamespace.v, SfsFlat.v: the operations on names implement it;
      SfsFlatThms.v: the theorem. SfsFsops.v: sfs_fsops.c; SfsSync.v: syncing;
      SfsMount.v: mounting; SfsCrash.v: mounting what has been synced.
    - Address spaces. Dumbvm.v: the rest of kern/arch/mips/vm/dumbvm.c, on the
      kernel heap. DumbvmFacts.v: clearing, copying and taking frames.
      DumbvmSpace.v: well-formed address spaces and the invariant that nobody
      shares memory. DumbvmTlb.v: translation by the processor, [vm_fault].
      DumbvmLoad.v: frames for an address space; DumbvmThms.v: the theorems.

    ** What is shown

    - Synchronisation: locks exclude each other (C1) and lose no wakeup
      (C2), semaphores count (C20), the shared buffer is a bounded FIFO
      queue (C6); the deadlock detector reports exactly the cycles (C19, C38).
    - Memory: kmalloc and kfree refine an abstract allocator (C3) and never
      panic under any client that asks for at most 2 GB at once (C16); a process has memory of its own (C4),
      fork's copy is a copy (C15), a fresh image is zero (C32).
    - Processes: the exit status reaches the parent (C5), posted codes are got
      back (C23), the process table is a finite map (C21), and lseek,
      as a system call, computes exactly (C18).
    - Files: a process's table is a finite map (C22), a file is made completely
      or not at all (C37), path operations give back every reference (C24).
    - Disk: retries (C17), the block map (C9), truncation (C10),
      files as arrays of bytes (C11), directories as maps (C12),
      the operations on names as a flat file system (C7), and what has
      been synced is there after a crash (C8).
    - Moving data: copyin and copyout (C26), strings (C27), uiomove
      (C25), memmove and memcpy (C28), the command line (C29).
    - Scheduling: round robin (C30), wakeups in order (C31), thread lists
      (C33, C40).
    - Data structures: the linked list of both trees (C13, C39; C14 shows how the
      one of os161-dvz-main goes wrong), bitmaps (C36), arrays
      (C34, C35).

    ** Bounds and fuel

    A [for] loop runs as often as it says.  A [while] loop has a number of
    rounds after which it stops with [Diverges]; the theorems show that the
    bound is never reached.  Lists: one round more than there are nodes, a chain
    of nodes having no repetition.  Strings: one round more than there are
    mapped bytes, every round reading another one.  Block I/O: 12 attempts, the
    code gives up at the eleventh.  [uiomove]: a round per buffer and per byte
    asked for.  The command line: 18 words, the code gives up at 16.
    [array_preallocate] is the exception: its loop does not end for requests
    above 2^31, which C35 proves.


    ** Parameters and hypotheses

    Code that is not in the tree, or that the modelled part only calls, is an
    argument: the file systems and address spaces below the VFS layer
    ([FileSystem]: [VOP_] and [as_] functions, [vfs_lookup]), execv, sys_reboot,
    the clock; the disk ([Hardware]: what a failed write leaves on the sector;
    the status codes of the interrupts to come are a list in the state); what
    interrupts do while a CPU idles is a list of events.  The results of
    [kmalloc] in Kern.v are a list in the state, so that every theorem covers
    every pattern of failures.  The witnesses instantiate all of them.


    ** Not modelled

    In the modelled files: the boot path of thread.c, the TLB shootdown,
    [as_activate] at the end of a context switch (Dumbvm.v has it: it changes only
    the TLB), the creation and destruction of locks, condition variables, semaphores and
    shared buffers (they only allocate and free), the statistics of kmalloc.c.
    Whole parts: semfs and emufs, the table of devices and mounts (vfslookup.c,
    vfslist.c), runprogram.c, loadelf.c and execv.c, traps and context switches,
    the other device drivers, formatted printing, the 64-bit arithmetic library,
    the kernel tests, test161 and the user programs: assembly and hardware registers,
    variable arguments, or clients of what is modelled.  The synchronisation
    problems and kern/vm/addrspace.c have no bodies.

    PROJECT.json lists the parts with their files. *)

From stdpp Require Import base tactics list gmap option numbers ssreflect.
From Stdlib Require Import ZArith Lia.

#[global] Set Default Goal Selector "!".

Declare Scope kern_scope.
Delimit Scope kern_scope with K.

(** ** Outcomes of running kernel code

    Kernel code either returns, or stops: a failed [KASSERT] or [panic()], the
    use of a NULL or stale pointer, an attempt to take a sleep lock somebody
    holds, going to sleep on a wait channel, or (for a [while] loop given a
    bound) not terminating. *)

Abbreviation loc := positive (only parsing).
Abbreviation ptr := (option positive) (only parsing).

Inductive stop : Type :=
| Panic
| Fault
| Blocked (lk : positive)
| Asleep (wc : positive)
| Diverges.

#[export] Instance stop_eq_dec : EqDecision stop.
Proof. solve_decision. Defined.

Inductive outcome (St A : Type) : Type :=
| Ok (a : A) (s : St)
| Stop (e : stop) (s : St).
Arguments Ok {St A} a s.
Arguments Stop {St A} e s.

Definition M (St A : Type) : Type := St → outcome St A.

#[export] Instance M_ret {St} : MRet (M St) := λ A a s, Ok a s.
#[export] Instance M_bind {St} : MBind (M St) := λ A B k m s,
  match m s with
  | Ok a s' => k a s'
  | Stop e s' => Stop e s'
  end.

Definition stops {St A} (e : stop) : M St A := λ s, Stop e s.
Definition gets {St A} (f : St → A) : M St A := λ s, Ok (f s) s.
Definition modify {St} (f : St → St) : M St unit := λ s, Ok tt (f s).

(** [KASSERT(b)]. *)
Definition kassert {St} (b : bool) : M St unit := if b then mret tt else stops Panic.

(** A pointer that is dereferenced: [Fault] when it is NULL. *)
Definition nonnull {St} (p : ptr) : M St loc :=
  match p with Some l => mret l | None => stops Fault end.

(** A lookup whose failure is a memory fault. *)
Definition deref {St A} (f : St → option A) : M St A := λ s,
  match f s with Some a => Ok a s | None => Stop Fault s end.

(** ** Loops *)

(** [for (i = start; i < start + n; i++) body]; [Some r] leaves the loop
    (a [break] or a [return] inside it), [None] goes on. *)
Fixpoint for_up {St R} (start n : nat) (body : nat → M St (option R)) : M St (option R) :=
  match n with
  | O => mret None
  | S n' =>
      r ← body start;
      match r with
      | Some v => mret (Some v)
      | None => for_up (S start) n' body
      end
  end.

(** The same loop carrying local variables and without an early exit. *)
Fixpoint fold_up {St L} (start n : nat) (l : L) (body : nat → L → M St L) : M St L :=
  match n with
  | O => mret l
  | S n' => l' ← body start l; fold_up (S start) n' l' body
  end.

(** [while]: [body l] returns [inl l'] to go round again and [inr r] to leave.
    At most [fuel] rounds; [Diverges] when they are used up. *)
Fixpoint while {St L R} (fuel : nat) (l : L) (body : L → M St (L + R)) : M St R :=
  match fuel with
  | O => stops Diverges
  | S fuel' =>
      r ← body l;
      match r with
      | inl l' => while fuel' l' body
      | inr v => mret v
      end
  end.

(** ** Weakest preconditions

    [wp m Q s]: run from [s], [m] returns (no panic, fault, blocking or
    divergence) with a result and a state that satisfy [Q]. *)
Definition wp {St A} (m : M St A) (Q : A → St → Prop) (s : St) : Prop :=
  match m s with Ok a s' => Q a s' | Stop _ _ => False end.

Section wp.
Context {St : Type}.

Lemma wp_ret {A} (a : A) Q (s : St) : Q a s → wp (mret a) Q s.
Proof. done. Qed.

Lemma wp_bind {A B} (m : M St A) (k : A → M St B) Q s :
  wp m (λ a s', wp (k a) Q s') s → wp (m ≫= k) Q s.
Proof. rw /wp /mbind /M_bind. by destruct (m s). Qed.

Lemma wp_mono {A} (m : M St A) (P Q : A → St → Prop) s :
  wp m P s → (∀ a s', P a s' → Q a s') → wp m Q s.
Proof. rw /wp. destruct (m s); naive_solver. Qed.

Lemma wp_eq {A} (m : M St A) Q s : wp m Q s ↔ ∃ a s', m s = Ok a s' ∧ Q a s'.
Proof. rw /wp. destruct (m s); naive_solver. Qed.

Lemma wp_Ok {A} (m : M St A) a s s' Q : m s = Ok a s' → Q a s' → wp m Q s.
Proof. rw /wp. by intros ->. Qed.

Lemma wp_gets {A} (f : St → A) Q s : Q (f s) s → wp (gets f) Q s.
Proof. done. Qed.

Lemma wp_modify (f : St → St) (Q : unit → St → Prop) s : Q tt (f s) → wp (modify f) Q s.
Proof. done. Qed.

Lemma wp_kassert (b : bool) (Q : unit → St → Prop) s : b = true → Q tt s → wp (kassert b) Q s.
Proof. by intros ->. Qed.

Lemma wp_nonnull p l Q (s : St) : p = Some l → Q l s → wp (nonnull p) Q s.
Proof. by intros ->. Qed.

Lemma wp_deref {A} (f : St → option A) a Q s : f s = Some a → Q a s → wp (deref f) Q s.
Proof. rw /wp /deref. by intros ->. Qed.

(** The loop rules: an invariant indexed by the loop counter. *)
Lemma wp_for_up {R} (I : nat → St → Prop) (Q : option R → St → Prop) body n start s :
  I start s →
  (∀ i s, start ≤ i < start + n → I i s →
    wp (body i) (λ r s', match r with Some v => Q (Some v) s' | None => I (S i) s' end) s) →
  (∀ s, I (start + n) s → Q None s) →
  wp (for_up start n body) Q s.
Proof.
  revert start s. induction n as [|n IH]; intros start s HI Hb HQ; simpl.
  - apply wp_ret, HQ. by rw Nat.add_0_r.
  - apply wp_bind. eapply wp_mono; [apply Hb; [lia | done]|].
    intros [v|] s' H; [done|]. apply IH; [done | intros; apply Hb; [lia | done] |].
    intros s'' H'. apply HQ. by replace (start + S n) with (S start + n) by lia.
Qed.

Lemma wp_fold_up {L} (I : nat → L → St → Prop) (Q : L → St → Prop) body n start l s :
  I start l s →
  (∀ i l s, start ≤ i < start + n → I i l s → wp (body i l) (λ l' s', I (S i) l' s') s) →
  (∀ l s, I (start + n) l s → Q l s) →
  wp (fold_up start n l body) Q s.
Proof.
  revert start l s. induction n as [|n IH]; intros start l s HI Hb HQ; simpl.
  - apply wp_ret, HQ. by rw Nat.add_0_r.
  - apply wp_bind. eapply wp_mono; [apply Hb; [lia | done]|].
    intros l' s' H. apply IH; [done | intros; apply Hb; [lia | done] |].
    intros l'' s'' H'. apply HQ. by replace (start + S n) with (S start + n) by lia.
Qed.

(** A [while] loop with a variant [n] in its invariant: fuel above the variant
    is enough. *)
Lemma wp_while {L R} (I : nat → L → St → Prop) (Q : R → St → Prop) body n fuel l s :
  I n l s → n < fuel →
  (∀ n l s, I n l s → wp (body l) (λ r s', match r with
     | inl l' => ∃ n', n' < n ∧ I n' l' s' | inr v => Q v s' end) s) →
  wp (while fuel l body) Q s.
Proof.
  revert n l s. induction fuel as [|fuel IH]; intros n l s HI HV Hb; simpl; [lia|].
  apply wp_bind. eapply wp_mono; [by apply Hb|].
  intros [l'|v] s'; [|done]. intros (n' & Hn' & HI'). eapply IH; [done | lia | done].
Qed.
End wp.

#[global] Arguments while : simpl never.
#[global] Arguments for_up : simpl never.
#[global] Arguments fold_up : simpl never.
#[global] Arguments wp : simpl never.

(** The bind equations that compute one statement at a time. *)
Lemma bind_Ok {St A B} (m : M St A) (k : A → M St B) s a s' :
  m s = Ok a s' → (m ≫= k) s = k a s'.
Proof. rw /mbind /M_bind. by intros ->. Qed.

Lemma bind_Stop {St A B} (m : M St A) (k : A → M St B) s e s' :
  m s = Stop e s' → (m ≫= k) s = Stop e s'.
Proof. rw /mbind /M_bind. by intros ->. Qed.

Lemma bind_assoc {St A B C} (m : M St A) (k : A → M St B) (k' : B → M St C) s :
  ((m ≫= k) ≫= k') s = (m ≫= (λ a, k a ≫= k')) s.
Proof. rw /mbind /M_bind. by destruct (m s). Qed.

(** Two statements taken as one. *)
Lemma wp_group {St A B C} (m : M St A) (k : A → M St B) (k' : B → M St C) Q s :
  wp ((m ≫= k) ≫= k') Q s → wp (m ≫= (λ a, k a ≫= k')) Q s.
Proof. by rw /wp bind_assoc. Qed.

(** [by_steps H] and friends: run a handler statement by statement. *)
Ltac wp_step :=
  cbn beta iota;
  lazymatch goal with
  | |- wp (mret _) _ _ => apply wp_ret
  | |- wp (_ ≫= _) _ _ => apply wp_bind
  | |- wp (gets _) _ _ => apply wp_gets
  | |- wp (modify _) _ _ => apply wp_modify
  | |- wp (kassert _) _ _ => apply wp_kassert
  | |- wp (nonnull _) _ _ => eapply wp_nonnull
  | |- wp (deref _) _ _ => eapply wp_deref
  end.
Ltac wp_steps := repeat (wp_step; [|idtac..]; simpl).

(** ** Machine integers

    A C [int] or [unsigned] is a [Z]; arithmetic on it is followed by the
    truncation of its type. *)
Ltac zlia := Z.to_euclidean_division_equations; lia.

Definition u16 (z : Z) : Z := (z mod 2 ^ 16)%Z.
Definition u32 (z : Z) : Z := (z mod 2 ^ 32)%Z.
Definition s32 (z : Z) : Z := ((z + 2 ^ 31) mod 2 ^ 32 - 2 ^ 31)%Z.
Definition u64 (z : Z) : Z := (z mod 2 ^ 64)%Z.
Definition s64 (z : Z) : Z := ((z + 2 ^ 63) mod 2 ^ 64 - 2 ^ 63)%Z.

Lemma u16_small z : (0 ≤ z < 2 ^ 16)%Z → u16 z = z.
Proof. rw /u16. zlia. Qed.
Lemma u32_range z : (0 ≤ u32 z < 2 ^ 32)%Z.
Proof. rw /u32. zlia. Qed.
Lemma s32_range z : (- 2 ^ 31 ≤ s32 z < 2 ^ 31)%Z.
Proof. rw /s32. zlia. Qed.
Lemma u32_small z : (0 ≤ z < 2 ^ 32)%Z → u32 z = z.
Proof. rw /u32. zlia. Qed.
Lemma s32_small z : (- 2 ^ 31 ≤ z < 2 ^ 31)%Z → s32 z = z.
Proof. rw /s32. zlia. Qed.
Lemma u64_range z : (0 ≤ u64 z < 2 ^ 64)%Z.
Proof. rw /u64. zlia. Qed.
Lemma s64_range z : (- 2 ^ 63 ≤ s64 z < 2 ^ 63)%Z.
Proof. rw /s64. zlia. Qed.
Lemma u64_small z : (0 ≤ z < 2 ^ 64)%Z → u64 z = z.
Proof. rw /u64. zlia. Qed.
Lemma s64_small z : (- 2 ^ 63 ≤ z < 2 ^ 63)%Z → s64 z = z.
Proof. rw /s64. zlia. Qed.
Lemma s32_u32 z : s32 (u32 z) = s32 z.
Proof. rw /s32 /u32. zlia. Qed.
Lemma u32_s32 z : u32 (s32 z) = u32 z.
Proof. rw /s32 /u32. zlia. Qed.
Lemma s64_u64 z : s64 (u64 z) = s64 z.
Proof. rw /s64 /u64. zlia. Qed.
Lemma u64_s64 z : u64 (s64 z) = u64 z.
Proof. rw /s64 /u64. zlia. Qed.

(** Close a decidable goal about concrete data by evaluation. *)
Ltac by_decide := refine (bool_decide_unpack _ _); vm_compute; exact I.

(** Case analysis on the test [bool_decide P] of the goal. *)
Tactic Notation "bd_case" constr(P) "as" ident(H) :=
  destruct (decide P) as [H|H];
  [rewrite ?(bool_decide_eq_true_2 P H) | rewrite ?(bool_decide_eq_false_2 P H)].

(** In a list without repeated nonzero numbers, a number has one index. *)
Lemma NoDup_once (l : list Z) j k b :
  NoDup (filter (λ b, b ≠ 0%Z) l) → l !! j = Some b → l !! k = Some b → b ≠ 0%Z → j = k.
Proof.
  revert j k. induction l as [|a l IH]; intros j k Hd Hj Hk Hb; [done|].
  rw filter_cons in Hd. destruct (decide (a ≠ 0%Z)) as [Ha|Ha].
  - apply NoDup_cons in Hd as [Hn Hd].
    assert (∀ i, l !! i = Some a → False) as Hno.
    { intros i Hi. apply Hn, list_elem_of_filter. split; [done|]. by eapply list_elem_of_lookup_2. }
    destruct j as [|j], k as [|k]; simplify_eq/=; [done | by exfalso; eauto.. | f_equal; by apply IH].
  - destruct j as [|j], k as [|k]; simplify_eq/=; try done. f_equal. by apply IH.
Qed.
