(* ===== verification/Kern.v ===== *)
(** * Kernel services used by every component

    [kmalloc]/[kfree] (kern/vm/kmalloc.c) as the rest of the kernel sees them,
    and the sleep locks of kern/thread/synch.c as one running thread sees
    them.  The state these services act on is the [base] record; a component
    with a state of its own says where its [base] is ([HasBase]).  Error
    numbers and limits come from kern/include/kern/errno.h and limits.h. *)

From stdpp Require Import base tactics list gmap option numbers ssreflect.
From S2P Require Import Prelude.

(** ** Error numbers and limits *)

Definition ENOMEM : Z := 3.
Definition EFAULT : Z := 6.
Definition ENAMETOOLONG : Z := 7.
Definition EINVAL : Z := 8.
Definition ENPROC : Z := 12.
Definition E2BIG : Z := 14.
Definition ESRCH : Z := 15.
Definition ECHILD : Z := 16.
Definition EMFILE : Z := 28.
Definition ENFILE : Z := 29.
Definition EBADF : Z := 30.
Definition ESPIPE : Z := 33.
Definition ENOSPC : Z := 36.
Definition ENOENT : Z := 19.
Definition EEXIST : Z := 22.
Definition EFBIG : Z := 38.
Definition ENOSYS : Z := 1.
Definition ENOTDIR : Z := 17.
Definition EISDIR : Z := 18.
Definition EBUSY : Z := 27.

(** File types (kern/include/kern/stattypes.h) and modes of opening (fcntl.h). *)
Definition S_IFREG : Z := 4096.
Definition S_IFDIR : Z := 8192.
Definition O_RDONLY : Z := 0.
Definition O_ACCMODE : Z := 3.
Definition O_APPEND : Z := 32.

Definition OPEN_MAX : nat := 128.
Definition PROC_MAX : nat := 128.
Definition PROC_CHILD_MAX : nat := 32.
Definition PID_MIN : Z := 2.
Definition PID_MAX : Z := 32767.
Definition PATH_MAX : nat := 1024.

(** ** The base state *)

(** [struct lock]: the two blocks it owns and its holder ([lock_held] is
    [is_Some lk_holder]; [thread_holder] the thread). *)
Record lockst := Lockst { lk_name : loc; lk_wchan : loc; lk_holder : ptr }.

Record base := Base {
  live : gset loc;         (* allocated kernel heap blocks *)
  oracle : list ptr;       (* what the coming kmallocs return *)
  lks : gmap loc lockst;   (* the struct locks *)
  me : loc                 (* curthread *)
}.

Class HasBase (St : Type) := {
  base_of : St → base;
  with_base : base → St → St;
  base_with : ∀ b s, base_of (with_base b s) = b;
  with_base_twice : ∀ b b' s, with_base b (with_base b' s) = with_base b s;
  with_base_same : ∀ s, with_base (base_of s) s = s
}.

Create HintDb kern.

Section services.
Context {St : Type} `{!HasBase St}.
Implicit Types (s : St) (b : base).

Definition set_live (L : gset loc) b := Base L (oracle b) (lks b) (me b).
Definition set_oracle (o : list ptr) b := Base (live b) o (lks b) (me b).
Definition set_lks (k : gmap loc lockst) b := Base (live b) (oracle b) k (me b).
Definition upd_base (f : base → base) s : St := with_base (f (base_of s)) s.

Definition is_live (l : loc) s : bool := bool_decide (l ∈ live (base_of s)).

(** [kmalloc] returns NULL or the address of a block that was not allocated;
    which of the two, and which address, the [oracle] says.  (An oracle entry
    that names an allocated block counts as NULL: no allocator hands out a
    block twice.) *)
Definition kmalloc : M St ptr := λ s,
  let b := base_of s in
  match oracle b with
  | Some l :: o =>
      if decide (l ∈ live b) then Ok None (with_base (set_oracle o b) s)
      else Ok (Some l) (with_base (set_live ({[l]} ∪ live b) (set_oracle o b)) s)
  | None :: o => Ok None (with_base (set_oracle o b) s)
  | [] => Ok None s
  end.

(** [kfree(NULL)] does nothing; a block that is not allocated is a fault. *)
Definition kfree (p : ptr) : M St unit := λ s,
  match p with
  | None => Ok tt s
  | Some l =>
      if is_live l s then Ok tt (upd_base (λ b, set_live (live b ∖ {[l]}) b) s)
      else Stop Fault s
  end.

(** ** Sleep locks *)

Definition lock_at (p : ptr) : M St (loc * lockst) := λ s,
  match p with
  | None => Stop Panic s   (* KASSERT(lock != NULL) *)
  | Some l =>
      match (if is_live l s then lks (base_of s) !! l else None) with
      | Some k => Ok (l, k) s
      | None => Stop Fault s
      end
  end.

Definition set_holder (l : loc) (k : lockst) (h : ptr) : M St unit :=
  modify (upd_base (λ b, set_lks (<[l := Lockst (lk_name k) (lk_wchan k) h]> (lks b)) b)).

Definition lock_create : M St ptr :=
  lock ← kmalloc;
  match lock with
  | None => mret None
  | Some l =>
      name ← kmalloc;                 (* kstrdup *)
      match name with
      | None => kfree lock;; mret None
      | Some nm =>
          wchan ← kmalloc;            (* wchan_create *)
          match wchan with
          | None => kfree name;; kfree lock;; mret None
          | Some wc => set_holder l (Lockst nm wc None) None;; mret (Some l)
          end
      end
  end.

Definition lock_destroy (p : ptr) : M St unit :=
  lk ← lock_at p;
  let '(l, k) := lk in
  kassert (bool_decide (lk_holder k = None));;
  kfree (Some (lk_wchan k));;
  kfree (Some (lk_name k));;
  kfree (Some l).

Definition lock_do_i_hold (p : ptr) : M St bool :=
  lk ← lock_at p;
  let '(l, k) := lk in
  mine ← gets (λ s, me (base_of s));
  mret (bool_decide (lk_holder k = Some mine)).

(** The acquiring thread goes on only if the lock is free.  A held lock puts
    it to sleep: [Blocked], whoever the holder is, itself included. *)
Definition lock_acquire (p : ptr) : M St unit :=
  lk ← lock_at p;
  let '(l, k) := lk in
  match lk_holder k with
  | Some _ => stops (Blocked l)
  | None =>
      mine ← gets (λ s, me (base_of s));
      set_holder l k (Some mine)
  end.

Definition lock_release (p : ptr) : M St unit :=
  lk ← lock_at p;
  let '(l, k) := lk in
  kassert (bool_decide (lk_holder k ≠ None));;
  mine ← lock_do_i_hold p;
  kassert mine;;
  set_holder l k None.

(** ** Facts the components use *)

Definition lock_free (p : ptr) s : Prop :=
  ∃ l k, p = Some l ∧ l ∈ live (base_of s) ∧ lks (base_of s) !! l = Some k ∧ lk_holder k = None.

Definition holds (p : ptr) s : Prop :=
  ∃ l k, p = Some l ∧ l ∈ live (base_of s) ∧ lks (base_of s) !! l = Some k
         ∧ lk_holder k = Some (me (base_of s)).

(** The state after [lock_acquire(p)]. *)
Definition acquired (p : ptr) s : St :=
  match p with
  | None => s
  | Some l =>
      match lks (base_of s) !! l with
      | None => s
      | Some k => upd_base (λ b, set_lks (<[l := Lockst (lk_name k) (lk_wchan k) (Some (me b))]> (lks b)) b) s
      end
  end.

Lemma is_live_true l s : is_live l s = true ↔ l ∈ live (base_of s).
Proof. rw /is_live. apply bool_decide_eq_true. Qed.

Lemma lock_acquire_ok p s : lock_free p s → lock_acquire p s = Ok tt (acquired p s).
Proof.
  intros (l & k & -> & Hl & Hk & Hn). rw /lock_acquire /lock_at /mbind /M_bind.
  rw (proj2 (is_live_true l s) Hl) Hk Hn /= /acquired Hk. done.
Qed.

Lemma lock_acquire_held p s :
  holds p s → ∃ l, p = Some l ∧ lock_acquire p s = Stop (Blocked l) s.
Proof.
  intros (l & k & -> & Hl & Hk & Hn). exists l. split; [done|].
  rw /lock_acquire /lock_at /mbind /M_bind. by rw (proj2 (is_live_true l s) Hl) Hk /= Hn.
Qed.

Lemma acquired_holds p s : lock_free p s → holds p (acquired p s).
Proof.
  intros (l & k & -> & Hl & Hk & Hn). exists l, (Lockst (lk_name k) (lk_wchan k) (Some (me (base_of s)))).
  rw /acquired Hk /upd_base base_with /=. repeat split; [done|].
  by rw lookup_insert_eq.
Qed.

(** Releasing right after acquiring gives back the state, whatever happened to
    other parts of it in between. *)
Lemma lock_release_ok p s l k :
  p = Some l → l ∈ live (base_of s) → lks (base_of s) !! l = Some k →
  lk_holder k = Some (me (base_of s)) →
  lock_release p s =
    Ok tt (upd_base (λ b, set_lks (<[l := Lockst (lk_name k) (lk_wchan k) None]> (lks b)) b) s).
Proof.
  intros -> Hl Hk Hn. rw /lock_release /lock_at /mbind /M_bind.
  rw (proj2 (is_live_true l s) Hl) Hk /= Hn.
  rw bool_decide_eq_true_2; [|done]. rw /= /lock_do_i_hold /lock_at /mbind /M_bind.
  rw (proj2 (is_live_true l s) Hl) Hk /= Hn. by rw bool_decide_eq_true_2.
Qed.
End services.

(** ** Proof rules for the services *)

Section rules.
Context {St : Type} `{!HasBase St}.
Implicit Types (s : St) (b : base).

(** The state after [lock_release(p)]. *)
Definition released (p : ptr) s : St :=
  match p with
  | None => s
  | Some l =>
      match lks (base_of s) !! l with
      | None => s
      | Some k => upd_base (λ b, set_lks (<[l := Lockst (lk_name k) (lk_wchan k) None]> (lks b)) b) s
      end
  end.

Lemma wp_lock_acquire p (Q : unit → St → Prop) s :
  lock_free p s → Q tt (acquired p s) → wp (lock_acquire p) Q s.
Proof. intros. eapply wp_Ok; [by apply lock_acquire_ok | done]. Qed.

Lemma lock_release_holds p s : holds p s → lock_release p s = Ok tt (released p s).
Proof.
  intros (l & k & -> & Hl & Hk & Hn). rw /released Hk. by eapply lock_release_ok.
Qed.

Lemma wp_lock_release p (Q : unit → St → Prop) s :
  holds p s → Q tt (released p s) → wp (lock_release p) Q s.
Proof. intros. eapply wp_Ok; [by apply lock_release_holds | done]. Qed.

Lemma released_free p s : holds p s → lock_free p (released p s).
Proof.
  intros (l & k & -> & Hl & Hk & Hn). exists l, (Lockst (lk_name k) (lk_wchan k) None).
  rw /released Hk /upd_base base_with /=. by rw lookup_insert_eq.
Qed.

Lemma acquired_live p s : live (base_of (acquired p s)) = live (base_of s).
Proof. rw /acquired. destruct p as [l|]; [|done]. destruct (_ !! l); [|done]. by rw /upd_base base_with. Qed.
Lemma acquired_oracle p s : oracle (base_of (acquired p s)) = oracle (base_of s).
Proof. rw /acquired. destruct p as [l|]; [|done]. destruct (_ !! l); [|done]. by rw /upd_base base_with. Qed.
Lemma released_live p s : live (base_of (released p s)) = live (base_of s).
Proof. rw /released. destruct p as [l|]; [|done]. destruct (_ !! l); [|done]. by rw /upd_base base_with. Qed.
Lemma released_oracle p s : oracle (base_of (released p s)) = oracle (base_of s).
Proof. rw /released. destruct p as [l|]; [|done]. destruct (_ !! l); [|done]. by rw /upd_base base_with. Qed.

Lemma upd_base_same (f : base → base) (s : St) : f (base_of s) = base_of s → upd_base f s = s.
Proof. rw /upd_base. intros ->. apply with_base_same. Qed.

(** The two outcomes of [kmalloc]. *)
Lemma wp_kmalloc_any (Q : ptr → St → Prop) s :
  (∀ o, Q None (upd_base (set_oracle o) s)) →
  (∀ l o, l ∉ live (base_of s) → Q (Some l) (upd_base (λ b, set_live ({[l]} ∪ live b) (set_oracle o b)) s)) →
  wp kmalloc Q s.
Proof.
  intros HN HS. rw /wp /kmalloc. destruct (oracle (base_of s)) as [|[l|] o] eqn:Ho.
  - rw -(upd_base_same (set_oracle []) s); [done|]. destruct (base_of s). simpl in *. by subst.
  - destruct (decide _); [apply HN|by apply HS].
  - apply HN.
Qed.

Lemma wp_kmalloc l o (Q : ptr → St → Prop) s :
  oracle (base_of s) = Some l :: o → l ∉ live (base_of s) →
  Q (Some l) (upd_base (λ b, set_live ({[l]} ∪ live b) (set_oracle o b)) s) →
  wp kmalloc Q s.
Proof. intros Ho Hl HQ. rw /wp /kmalloc Ho. by destruct (decide _). Qed.

Lemma wp_kfree l (Q : unit → St → Prop) s :
  l ∈ live (base_of s) → Q tt (upd_base (λ b, set_live (live b ∖ {[l]}) b) s) →
  wp (kfree (Some l)) Q s.
Proof. intros Hl HQ. rw /wp /kfree. by rw (proj2 (is_live_true l s) Hl). Qed.

(** Holding a lock only depends on the base. *)
Lemma holds_alloc p l o s :
  holds p s → holds p (upd_base (λ b, set_live ({[l]} ∪ live b) (set_oracle o b)) s).
Proof.
  intros (q & k & -> & Hl & Hk & Hn). exists q, k. rw /upd_base base_with /=.
  repeat split; [set_solver | done | done].
Qed.

Lemma holds_free_other p l s :
  holds p s → p ≠ Some l → holds p (upd_base (λ b, set_live (live b ∖ {[l]}) b) s).
Proof.
  intros (q & k & -> & Hl & Hk & Hn) Hne. exists q, k. rw /upd_base base_with /=.
  repeat split; [set_solver | done | done].
Qed.
End rules.

#[export] Hint Resolve acquired_holds released_free holds_alloc holds_free_other : kern.
