(* ===== verification/LinkedList.v ===== *)
(** * The linked lists of kern/concurrent_list/linked_list.c

    Both copies of the doubly linked list are modelled: [Proj1] is
    os161-vud-proj1-proj2, [Dvz] is os161-dvz-main.  Nodes live in a heap of
    their own, pointers are locations, and every operation is translated
    statement by statement, with its lock, its [kmalloc]s and its loops.

    [dseg] describes a doubly linked segment and [lseg] what is left of it when
    the [prev] links are not trusted.  The theorems relate the operations to
    insertion into, and removal from, a list of keys with their data. *)

From stdpp Require Import base tactics list gmap option numbers sorting ssreflect.
From S2P Require Import Prelude Kern.

(** ** Data and state *)

(** [struct Linked_List_Node]; [data] is the client's pointer. *)
Record node := Node { prev : ptr; next : ptr; key : Z; data : Z }.

(** [struct Linked_List]. *)
Record llist := LList { first : ptr; last : ptr; list_lock : ptr; length_ : Z }.

Inductive event := PrintWhich (which : Z) | PrintNode (k c : Z) | PrintNewline | Yield.

Record state := State {
  sys : base;
  nodes : gmap loc node;
  lst : llist;
  client : gmap Z Z;        (* the ints the clients' data pointers point to *)
  testnum : Z;              (* the test switch of the file *)
  trace : list event        (* console output and yields, latest first *)
}.

#[export, refine] Instance state_base : HasBase state := {|
  base_of := sys;
  with_base b s := State b (nodes s) (lst s) (client s) (testnum s) (trace s)
|}.
Proof. all: intros; by repeat destruct select state. Defined.

Definition upd_nodes (f : gmap loc node → gmap loc node) s :=
  State (sys s) (f (nodes s)) (lst s) (client s) (testnum s) (trace s).
Definition upd_list (f : llist → llist) s :=
  State (sys s) (nodes s) (f (lst s)) (client s) (testnum s) (trace s).
Definition emit (e : event) s :=
  State (sys s) (nodes s) (lst s) (client s) (testnum s) (e :: trace s).

Definition set_first p := modify (upd_list (λ l, LList p (last l) (list_lock l) (length_ l))).
Definition set_last p := modify (upd_list (λ l, LList (first l) p (list_lock l) (length_ l))).
Definition set_length n := modify (upd_list (λ l, LList (first l) (last l) (list_lock l) n)).

(** [*p]: the node a pointer points to. *)
Definition load (p : ptr) : M state node :=
  l ← nonnull p; deref (λ s, if is_live l s then nodes s !! l else None).

Definition store (p : ptr) (f : node → node) : M state unit :=
  l ← nonnull p; n ← load p; modify (upd_nodes <[l := f n]>).

Definition set_prev p q := store p (λ n, Node q (next n) (key n) (data n)).
Definition set_next p q := store p (λ n, Node (prev n) q (key n) (data n)).

Definition linked_list_create_node (k d : Z) : M state ptr :=
  newnode ← kmalloc;
  l ← nonnull newnode;
  modify (upd_nodes <[l := Node None None k d]>);;
  mret newnode.

(** [thread_yield()] inside a critical section: no thread that wants the list
    can run, so it leaves a mark in the trace and nothing else. *)
Definition thread_yield : M state unit := modify (emit Yield).

(** A bound for the loops that follow [next] pointers: one more than there are
    nodes (a list without a cycle is shorter). *)
Definition node_bound (s : state) : nat := S (size (nodes s)).

(** The printing loop, which both files share. *)
Definition print_node (n : node) : M state unit :=
  c ← deref (λ s, client s !! data n);
  modify (emit (PrintNode (key n) c)).

(** ** os161-vud-proj1-proj2 *)

Module Proj1.

Definition linked_list_thread_yield (n : Z) : M state unit :=
  t ← gets testnum;
  if bool_decide (t = n) then thread_yield else mret tt.

Definition linked_list_create : M state ptr :=
  p ← kmalloc;
  _ ← nonnull p;                                   (* ptr->length = 0 *)
  modify (upd_list (λ l, LList None None (list_lock l) 0%Z));;
  _ ← kmalloc;                                     (* overwritten below *)
  lk ← lock_create;
  modify (upd_list (λ l, LList (first l) (last l) lk (length_ l)));;
  mret p.

(** The critical sections, without the length and the lock. *)
Definition prepend_node (d : Z) : M state unit :=
  f ← gets (λ s, first (lst s));
  match f with
  | None =>
      linked_list_thread_yield 0;;
      newnode ← linked_list_create_node 0 d;
      set_first newnode;;
      set_last newnode
  | Some _ =>
      fn ← load f;
      newnode ← linked_list_create_node (s32 (key fn - 1)) d;
      fst ← gets (λ s, first (lst s));
      set_next newnode fst;;
      linked_list_thread_yield 1;;
      set_prev f newnode;;
      set_first newnode
  end.

Definition linked_list_prepend (d : Z) : M state unit :=
  lk ← gets (λ s, list_lock (lst s));
  lock_acquire lk;;
  prepend_node d;;
  len ← gets (λ s, length_ (lst s));
  set_length (s32 (len + 1));;
  lock_release lk.

Definition linked_list_printlist (which : Z) : M state unit :=
  lk ← gets (λ s, list_lock (lst s));
  lock_acquire lk;;
  runner ← gets (λ s, first (lst s));
  modify (emit (PrintWhich which));;
  n ← gets node_bound;
  while n runner (λ runner,
    match runner with
    | None => mret (inr tt)
    | Some _ =>
        linked_list_thread_yield 4;;
        nd ← load runner;
        print_node nd;;
        mret (inl (next nd))
    end);;
  modify (emit PrintNewline);;
  lock_release lk.

(** The search loop of [linked_list_insert]. *)
Definition find_place (k : Z) (runner : ptr) : M state (ptr + ptr) :=
  match runner with
  | None => mret (inr None)
  | Some _ =>
      nd ← load runner;
      if bool_decide (key nd < k)%Z then mret (inl (next nd)) else mret (inr runner)
  end.

(** The two ways [linked_list_insert] links the new node in. *)
Definition link_at_end (newnode : ptr) : M state unit :=
  lst0 ← gets (λ s, last (lst s));
  set_prev newnode lst0;;
  (match lst0 with
   | Some _ => set_next lst0 newnode
   | None => set_first newnode
   end);;
  set_last newnode.

Definition link_before (newnode runner : ptr) : M state unit :=
  nd ← load runner;
  set_prev newnode (prev nd);;
  set_next newnode runner;;
  (match prev nd with
   | Some _ => set_next (prev nd) newnode
   | None => set_first newnode
   end);;
  set_prev runner newnode.

Definition insert_node (k d : Z) : M state unit :=
  start ← gets (λ s, first (lst s));
  n ← gets node_bound;
  runner ← while n start (find_place k);
  linked_list_thread_yield 3;;
  newnode ← linked_list_create_node k d;
  match runner with
  | None => link_at_end newnode
  | Some _ => link_before newnode runner
  end.

Definition linked_list_insert (k d : Z) : M state unit :=
  lk ← gets (λ s, list_lock (lst s));
  lock_acquire lk;;
  insert_node k d;;
  len ← gets (λ s, length_ (lst s));
  set_length (s32 (len + 1));;
  lock_release lk.

(** [None] is the NULL return of an empty list; [Some (data, key)] the data
    returned and the key stored through the pointer argument. *)
Definition unlink_head (head : ptr) : M state node :=
  tail ← gets (λ s, last (lst s));
  (if bool_decide (head = tail) then set_last None
   else nd ← load head; set_prev (next nd) None);;
  linked_list_thread_yield 5;;
  nd ← load head;
  set_first (next nd);;
  mret nd.

Definition linked_list_remove_head : M state (option (Z * Z)) :=
  lk ← gets (λ s, list_lock (lst s));
  lock_acquire lk;;
  head ← gets (λ s, first (lst s));
  linked_list_thread_yield 2;;
  match head with
  | None => lock_release lk;; mret None
  | Some _ =>
      nd ← unlink_head head;
      len ← gets (λ s, length_ (lst s));
      set_length (s32 (len - 1));;
      kfree head;;
      lock_release lk;;
      mret (Some (data nd, key nd))
  end.

End Proj1.

(** ** os161-dvz-main *)

Module Dvz.

Definition yield_if (n : Z) : M state unit :=
  t ← gets testnum;
  if bool_decide (t = n) then thread_yield else mret tt.

Definition linked_list_create : M state ptr :=
  p ← kmalloc;
  match p with
  | None => mret None
  | Some _ =>
      lk ← lock_create;
      modify (upd_list (λ l, LList (first l) (last l) lk (length_ l)));;
      match lk with
      | None => kfree p;; mret None
      | Some _ =>
          modify (upd_list (λ l, LList None None (list_lock l) 0%Z));;
          mret p
      end
  end.

Definition prepend_node (d : Z) : M state unit :=
  f ← gets (λ s, first (lst s));
  match f with
  | None =>
      yield_if 1;;
      newnode ← linked_list_create_node 0 d;
      set_first newnode;;
      set_last newnode
  | Some _ =>
      fn ← load f;
      newnode ← linked_list_create_node (s32 (key fn - 1)) d;
      fst ← gets (λ s, first (lst s));
      set_next newnode fst;;
      set_prev f newnode;;
      set_first newnode
  end.

Definition linked_list_prepend (d : Z) : M state unit :=
  lk ← gets (λ s, list_lock (lst s));
  lock_acquire lk;;
  prepend_node d;;
  len ← gets (λ s, length_ (lst s));
  set_length (s32 (len + 1));;
  lock_release lk.

Definition linked_list_printlist (which : Z) : M state unit :=
  lk ← gets (λ s, list_lock (lst s));
  lock_acquire lk;;
  runner ← gets (λ s, first (lst s));
  modify (emit (PrintWhich which));;
  n ← gets node_bound;
  while n runner (λ runner,
    match runner with
    | None => mret (inr tt)
    | Some _ =>
        nd ← load runner;
        print_node nd;;
        mret (inl (next nd))
    end);;
  modify (emit PrintNewline);;
  lock_release lk.

(** The loop: advance [f] while its successor's key is not above [k]. *)
Definition advance (k : Z) (f : ptr) : M state (ptr + ptr) :=
  nd ← load f;
  match next nd with
  | None => mret (inr f)
  | Some _ =>
      nn ← load (next nd);
      if bool_decide (key nn ≤ k)%Z then mret (inl (next nd)) else mret (inr f)
  end.

(** Linking in after [f]: the successor's [prev] is not touched. *)
Definition link_after (newnode f : ptr) : M state unit :=
  nd ← load f;
  set_next newnode (next nd);;
  set_prev newnode f;;
  set_next f newnode;;
  nn ← load newnode;
  match next nn with
  | None => set_last newnode
  | Some _ => mret tt
  end.

Definition insert_node (k d : Z) : M state unit :=
  f ← gets (λ s, first (lst s));
  yield_if 2;;
  match f with
  | None =>
      newnode ← linked_list_create_node k d;
      set_first newnode;;
      set_last newnode
  | Some _ =>
      newnode ← linked_list_create_node k d;
      fn ← load f;
      if bool_decide (k ≤ key fn)%Z then
        set_next newnode f;;
        set_prev f newnode;;
        yield_if 3;;
        set_first newnode
      else
        n ← gets node_bound;
        f' ← while n f (advance k);
        link_after newnode f'
  end.

Definition linked_list_insert (k d : Z) : M state unit :=
  lk ← gets (λ s, list_lock (lst s));
  lock_acquire lk;;
  insert_node k d;;
  len ← gets (λ s, length_ (lst s));
  set_length (s32 (len + 1));;
  lock_release lk.

Definition unlink_head (first_ptr : ptr) : M state node :=
  nd ← load first_ptr;
  yield_if 4;;
  set_first (next nd);;
  (match next nd with
   | Some _ => set_prev (next nd) None
   | None => mret tt
   end);;
  mret nd.

Definition linked_list_remove_head : M state (option (Z * Z)) :=
  lk ← gets (λ s, list_lock (lst s));
  lock_acquire lk;;
  first_ptr ← gets (λ s, first (lst s));
  match first_ptr with
  | None => lock_release lk;; mret None
  | Some _ =>
      nd ← unlink_head first_ptr;
      len ← gets (λ s, length_ (lst s));
      set_length (s32 (len - 1));;
      kfree first_ptr;;
      fst ← gets (λ s, first (lst s));
      (match fst with None => set_last None | Some _ => mret tt end);;
      lock_release lk;;
      mret (Some (data nd, key nd))
  end.

End Dvz.

(** * Shape of the heap *)

(** A cell of the list: where it is, its key and its data. *)
Abbreviation cell := (loc * (Z * Z))%type.

(** [dseg h pp p xs q qn]: from [p] (whose predecessor is [pp]) the heap holds
    the cells [xs], the last of them is [q] and its successor [qn]. *)
Fixpoint dseg (h : gmap loc node) (pp p : ptr) (xs : list cell) (q qn : ptr) : Prop :=
  match xs with
  | [] => p = qn ∧ pp = q
  | (l, (k, d)) :: xs' =>
      p = Some l ∧ ∃ nx, h !! l = Some (Node pp nx k d) ∧ dseg h (Some l) nx xs' q qn
  end.

(** The same, by [next] pointers only. *)
Fixpoint lseg (h : gmap loc node) (p : ptr) (xs : list cell) (qn : ptr) : Prop :=
  match xs with
  | [] => p = qn
  | (l, (k, d)) :: xs' =>
      p = Some l ∧ ∃ pp nx, h !! l = Some (Node pp nx k d) ∧ lseg h nx xs' qn
  end.

(** Contents, as a client sees them. *)
Definition contents (xs : list cell) : list (Z * Z) := xs.*2.

Definition last_loc (xs : list cell) : ptr := list.last (xs.*1).

Section segments.
Implicit Types (h : gmap loc node) (xs ys : list cell).

Lemma dseg_app h pp p xs ys q qn :
  dseg h pp p (xs ++ ys) q qn ↔ ∃ m mn, dseg h pp p xs m mn ∧ dseg h m mn ys q qn.
Proof.
  revert pp p. induction xs as [|[l [k d]] xs IH]; intros pp p; simpl.
  - split; [intros H; by exists pp, p | by intros (m & mn & [-> ->] & H)].
  - split.
    + intros [-> (nx & Hl & (m & mn & H1 & H2)%IH)]. naive_solver.
    + intros (m & mn & [-> (nx & Hl & H1)] & H2). split; [done|].
      exists nx. split; [done|]. apply IH. eauto.
Qed.

Lemma lseg_app h p xs ys qn :
  lseg h p (xs ++ ys) qn ↔ ∃ mn, lseg h p xs mn ∧ lseg h mn ys qn.
Proof.
  revert p. induction xs as [|[l [k d]] xs IH]; intros p; simpl.
  - split; [intros H; by exists p | by intros (mn & -> & H)].
  - split.
    + intros [-> (pp & nx & Hl & (mn & H1 & H2)%IH)]. naive_solver.
    + intros (mn & [-> (pp & nx & Hl & H1)] & H2). split; [done|].
      exists pp, nx. split; [done|]. apply IH. eauto.
Qed.

Lemma dseg_frame h pp p xs q qn l n :
  l ∉ xs.*1 → dseg h pp p xs q qn → dseg (<[l := n]> h) pp p xs q qn.
Proof.
  revert pp p. induction xs as [|[l' [k d]] xs IH]; intros pp p; [done|].
  cbn. intros [Hne Hl]%not_elem_of_cons [-> (nx & H & Hs)]. split; [done|].
  exists nx. rw lookup_insert_ne; eauto.
Qed.

Lemma lseg_frame h p xs qn l n :
  l ∉ xs.*1 → lseg h p xs qn → lseg (<[l := n]> h) p xs qn.
Proof.
  revert p. induction xs as [|[l' [k d]] xs IH]; intros p; [done|].
  cbn. intros [Hne Hl]%not_elem_of_cons [-> (pp & nx & H & Hs)]. split; [done|].
  exists pp, nx. rw lookup_insert_ne; eauto.
Qed.

(** Changing only the [prev] of a node leaves the forward chain alone. *)
Lemma lseg_set_prev h p xs qn l n pp :
  h !! l = Some n → lseg h p xs qn →
  lseg (<[l := Node pp (next n) (key n) (data n)]> h) p xs qn.
Proof.
  intros Hl. revert p. induction xs as [|[l' [k d]] xs IH]; intros p; [done|].
  cbn. intros [-> (pp' & nx & H & Hs)]. split; [done|].
  destruct (decide (l = l')) as [->|Hne].
  - exists pp, nx. rw lookup_insert_eq. simplify_eq/=. auto.
  - exists pp', nx. rw lookup_insert_ne; auto.
Qed.

Lemma dseg_lseg h pp p xs q qn : dseg h pp p xs q qn → lseg h p xs qn.
Proof.
  revert pp p. induction xs as [|[l [k d]] xs IH]; intros pp p; simpl; [naive_solver|].
  intros [-> (nx & Hl & H)]. eauto 6.
Qed.

Lemma dseg_last h pp p xs q qn :
  dseg h pp p xs q qn → q = match last_loc xs with Some l => Some l | None => pp end.
Proof.
  revert pp p. induction xs as [|[l [k d]] xs IH]; intros pp p.
  - by intros [_ <-].
  - intros [_ (nx & _ & H)]. rw (IH _ _ H) /last_loc fmap_cons last_cons /=.
    by destruct (list.last xs.*1).
Qed.

Lemma lseg_NoDup_bound h p xs qn :
  NoDup xs.*1 → lseg h p xs qn → length xs ≤ size h.
Proof.
  intros Hnd Hs. rw -(length_fmap fst) -(size_list_to_set (C := gset loc)); [|done].
  rw -(size_dom h). apply subseteq_size. intros l Hl%elem_of_list_to_set.
  clear Hnd. revert p Hs. induction xs as [|[l' [k d]] xs IH]; [set_solver|].
  intros p [-> (pp & nx & H & Hs)]. cbn in Hl. apply elem_of_cons in Hl as [->|Hl]; [|eauto].
  apply elem_of_dom. eauto.
Qed.
End segments.

(** ** Well-formed lists

    [shape L s xs]: the list of state [s] holds the cells [xs], linked as [L]
    says; [wf] adds that nobody holds the lock.  [dlinks] is a doubly linked
    list; [flinks] one whose [prev] pointers are not trusted. *)

Definition dlinks (h : gmap loc node) (f q : ptr) (xs : list cell) : Prop :=
  dseg h None f xs q None.
Definition flinks (h : gmap loc node) (f q : ptr) (xs : list cell) : Prop :=
  lseg h f xs None ∧ q = last_loc xs.

Abbreviation linkage := (gmap loc node → ptr → ptr → list cell → Prop).

Definition links (L : linkage) (s : state) (xs : list cell) : Prop :=
  L (nodes s) (first (lst s)) (last (lst s)) xs.

Record shape (L : linkage) (s : state) (xs : list cell) : Prop := Shape {
  shape_links : links L s xs;
  shape_nodup : NoDup xs.*1;
  shape_live : ∀ l, l ∈ xs.*1 → l ∈ live (sys s);
  shape_lock : ∀ l, list_lock (lst s) = Some l → l ∉ xs.*1;
  shape_length : length_ (lst s) = s32 (Z.of_nat (length xs))
}.

Definition wf (L : linkage) s xs := shape L s xs ∧ lock_free (list_lock (lst s)) s.

(** What an operation leaves alone, whatever it does to the list itself. *)
Definition same_rest (s s' : state) : Prop :=
  list_lock (lst s') = list_lock (lst s) ∧ client s' = client s ∧ testnum s' = testnum s.

(** What the statements between [kmalloc] and the update of the length leave
    alone. *)
Definition same_but_links (s s' : state) : Prop :=
  sys s' = sys s ∧ length_ (lst s') = length_ (lst s) ∧ same_rest s s'.

Lemma dlinks_flinks h f q xs : dlinks h f q xs → flinks h f q xs.
Proof.
  intros H. split; [by eapply dseg_lseg|].
  rw (dseg_last _ _ _ _ _ _ H). by destruct (last_loc xs).
Qed.

(** The lock operations touch nothing but the lock. *)
Lemma acquired_frame p (s : state) :
  nodes (acquired p s) = nodes s ∧ lst (acquired p s) = lst s ∧
  client (acquired p s) = client s ∧ testnum (acquired p s) = testnum s ∧
  live (sys (acquired p s)) = live (sys s) ∧ oracle (sys (acquired p s)) = oracle (sys s).
Proof. destruct p as [l|]; [|done]. rw /acquired /=. by destruct (_ !! _). Qed.

Lemma released_frame p (s : state) :
  nodes (released p s) = nodes s ∧ lst (released p s) = lst s ∧
  client (released p s) = client s ∧ testnum (released p s) = testnum s ∧
  live (sys (released p s)) = live (sys s) ∧ oracle (sys (released p s)) = oracle (sys s).
Proof. destruct p as [l|]; [|done]. rw /released /=. by destruct (_ !! _). Qed.

Lemma shape_acquired L p s xs : shape L s xs → shape L (acquired p s) xs.
Proof.
  destruct (acquired_frame p s) as (Hn & Hl & _ & _ & Hv & _).
  intros []. split; by rw /links ?Hn ?Hl ?Hv.
Qed.

(** ** Rules for the heap statements *)

Lemma wp_load p l n (Q : node → state → Prop) s :
  p = Some l → l ∈ live (sys s) → nodes s !! l = Some n → Q n s → wp (load p) Q s.
Proof.
  intros -> Hl Hn HQ. rw /load. wp_step. wp_step; [done|]. eapply wp_deref; [|done].
  assert (is_live l s = true) as -> by (by apply is_live_true). done.
Qed.

Lemma wp_store p l f n (Q : unit → state → Prop) s :
  p = Some l → l ∈ live (sys s) → nodes s !! l = Some n →
  Q tt (upd_nodes <[l := f n]> s) → wp (store p f) Q s.
Proof.
  intros -> Hl Hn HQ. rw /store. wp_step. wp_step; [done|]. apply wp_bind.
  by eapply wp_load.
Qed.

(** The state once [kmalloc] has returned [l], and with the new node in it. *)
Definition allocated (l : loc) (o : list ptr) (s : state) : state :=
  upd_base (λ b, set_live ({[l]} ∪ live b) (set_oracle o b)) s.
Definition with_node (l : loc) (k d : Z) (s : state) : state :=
  upd_nodes <[l := Node None None k d]> s.

Lemma wp_create_node k d l o (Q : ptr → state → Prop) s :
  oracle (sys s) = Some l :: o → l ∉ live (sys s) →
  Q (Some l) (with_node l k d (allocated l o s)) →
  wp (linked_list_create_node k d) Q s.
Proof.
  intros Ho Hl HQ. rw /linked_list_create_node. wp_step. eapply wp_kmalloc; [done | done |].
  wp_steps; done.
Qed.

Lemma s32_succ z : s32 (s32 z + 1) = s32 (z + 1).
Proof. rw /s32. zlia. Qed.
Lemma s32_pred z : s32 (s32 z - 1) = s32 (z - 1).
Proof. rw /s32. zlia. Qed.

Lemma lock_live p (s : state) l : lock_free p s → p = Some l → l ∈ live (sys s).
Proof. intros (l' & k & -> & Hl & _) [= ->]. done. Qed.

Lemma holds_sys p (s s' : state) : sys s' = sys s → holds p s → holds p s'.
Proof. intros Hs (l & k & ?). exists l, k. by rw /= Hs. Qed.

(** ** The operations that add a cell

    [prepend] and [insert] take the lock, link a new node in, update the
    length and release the lock.  The rule leaves the linking to be proved, from
    a state like the initial one but with the lock held. *)
Section grow.
Context (L : linkage) (s : state) (xs : list cell) (l : loc) (o : list ptr).
Context (Hwf : wf L s xs) (Ho : oracle (sys s) = Some l :: o) (Hl : l ∉ live (sys s)).

Definition locked_like (s1 : state) : Prop :=
  shape L s1 xs ∧ lst s1 = lst s ∧ client s1 = client s ∧ testnum s1 = testnum s ∧
  live (sys s1) = live (sys s) ∧ oracle (sys s1) = oracle (sys s) ∧
  holds (list_lock (lst s)) s1 ∧ nodes s1 = nodes s.

Definition grown (P : list cell → gmap loc node → Prop) (s' : state) : Prop :=
  ∃ xs', P xs' (nodes s') ∧ wf L s' xs' ∧ same_rest s s' ∧
    live (sys s') = {[l]} ∪ live (sys s) ∧ oracle (sys s') = o.

Lemma grow_side s' (xs' : list cell) :
  xs'.*1 ≡ₚ l :: xs.*1 → live (sys s') = {[l]} ∪ live (sys s) →
  list_lock (lst s') = list_lock (lst s) →
  NoDup xs'.*1 ∧ (∀ l, l ∈ xs'.*1 → l ∈ live (sys s')) ∧
  (∀ l, list_lock (lst s') = Some l → l ∉ xs'.*1) ∧ length xs' = S (length xs).
Proof.
  destruct Hwf as [[_ Hnd Hlive Hlock _] Hfree]. intros Hp Hv Hk. repeat split.
  - rw Hp. constructor; [by eauto | done].
  - intros q. rw Hp Hv. intros [->|Hq]%elem_of_cons; [set_solver|]. apply Hlive in Hq. set_solver.
  - intros q. rw Hp Hk. intros Hq [->|Hin]%elem_of_cons; [|by eapply Hlock].
    by apply Hl, (lock_live _ _ _ Hfree).
  - by rw -(length_fmap fst) Hp /= length_fmap.
Qed.

Lemma wp_grow (body : M state unit) (P : list cell → gmap loc node → Prop) :
  (∀ s1, locked_like s1 →
    wp body (λ _ s3, same_but_links (allocated l o s1) s3 ∧
      ∃ xs', P xs' (nodes s3) ∧ xs'.*1 ≡ₚ l :: xs.*1 ∧ links L s3 xs') s1) →
  wp (lk ← gets (λ s, list_lock (lst s));
      lock_acquire lk;; body;;
      len ← gets (λ s, length_ (lst s));
      set_length (s32 (len + 1));;
      lock_release lk) (λ _ s', grown P s') s.
Proof.
  intros Hbody. destruct Hwf as [Hs Hfree]. wp_steps. apply wp_lock_acquire; [done|].
  destruct (acquired_frame (list_lock (lst s)) s) as (Hn0 & Hlst & Hc & Ht & Hv & Horc).
  assert (locked_like (acquired (list_lock (lst s)) s)) as Hlike.
  { split; [by apply shape_acquired|]. do 5 (split; [done|]). split; [by apply acquired_holds | done]. }
  revert Hlike. generalize (acquired (list_lock (lst s)) s) as s1.
  clear Hn0 Hlst Hc Ht Hv Horc. intros s1 Hlike. wp_step.
  eapply wp_mono; [by apply Hbody|]. destruct Hlike as (Hs1 & Hlst & Hc & Ht & Hv & Horc & Hh & _).
  cbn beta. intros _ s3 [(Hsys & Hlen & Hk3 & Hc3 & Ht3) (xs' & HP & Hperm & Hlinks)].
  wp_steps. apply wp_modify. cbn beta.
  apply wp_lock_release.
  { eapply holds_sys; [exact Hsys|]. by apply holds_alloc. }
  set (s4 := upd_list _ s3).
  destruct (released_frame (list_lock (lst s)) s4) as (Hn5 & Hl5 & Hc5 & Ht5 & Hv5 & Ho5).
  assert (lock_free (list_lock (lst s)) (released (list_lock (lst s)) s4)) as Hf5.
  { apply released_free. eapply holds_sys; [exact Hsys|]. by apply holds_alloc. }
  revert Hf5 Hn5 Hl5 Hc5 Ht5 Hv5 Ho5. generalize (released (list_lock (lst s)) s4) as s5.
  intros s5 Hf5 Hn5 Hl5 Hc5 Ht5 Hv5 Ho5. exists xs'.
  assert (list_lock (lst s5) = list_lock (lst s)) as Hkk by (by rw Hl5 /= Hk3 /= Hlst).
  assert (live (sys s5) = {[l]} ∪ live (sys s)) as Hvv by (by rw Hv5 /= Hsys /= Hv).
  destruct (grow_side s5 xs') as (G1 & G2 & G3 & G4); [done..|].
  split; [by rw Hn5|]. split.
  - split; [|by rw Hkk]. split; [| done | done | done |].
    + by rw /links Hn5 Hl5.
    + rw Hl5 /= Hlen /= (shape_length _ _ _ Hs1) s32_succ G4. f_equal. lia.
  - split; [|by rw Ho5 /= Hsys]. split; [done|]. by rw Hc5 Ht5 /= Hc3 Ht3 /= Hc Ht.
Qed.
End grow.

(** ** Re-linking segments *)

Section relink.
Implicit Types (h : gmap loc node) (xs : list cell).

Lemma dseg_snoc h pp p xs l k d q qn :
  dseg h pp p (xs ++ [(l, (k, d))]) q qn ↔
  ∃ m, dseg h pp p xs m (Some l) ∧ q = Some l ∧ h !! l = Some (Node m qn k d).
Proof.
  rw dseg_app. split.
  - intros (m & mn & H & [-> (nx & Hl & <- & <-)]). by exists m.
  - intros (m & H & -> & Hl). exists m, (Some l). simpl. split; [done|]. split; [done|]. by exists qn.
Qed.

(** Redirect the end of a non-empty segment. *)
Lemma dseg_set_next h pp p xs l kd q qn qn' n :
  NoDup (xs ++ [(l, kd)]).*1 → h !! l = Some n →
  dseg h pp p (xs ++ [(l, kd)]) q qn →
  dseg (<[l := Node (prev n) qn' (key n) (data n)]> h) pp p (xs ++ [(l, kd)]) q qn'.
Proof.
  destruct kd as [k d]. rw !dseg_snoc. intros Hnd Hl (m & H & -> & Hl').
  simplify_eq/=. exists m. rw lookup_insert_eq. split; [|done].
  apply dseg_frame; [|done]. rw fmap_app in Hnd. apply NoDup_app in Hnd as (_ & Hd & _).
  intros Hin. apply (Hd _ Hin). simpl. set_solver.
Qed.

(** Redirect the back pointer of the first node of a segment. *)
Lemma dseg_set_prev h pp pp' p l k d nx xs q qn :
  l ∉ xs.*1 → h !! l = Some (Node pp nx k d) →
  dseg h pp p ((l, (k, d)) :: xs) q qn →
  dseg (<[l := Node pp' nx k d]> h) pp' p ((l, (k, d)) :: xs) q qn.
Proof.
  intros Hn Hl [-> (nx' & Hl' & H)]. simplify_eq/=.
  split; [done|]. exists nx. rw lookup_insert_eq. split; [done|]. by apply dseg_frame.
Qed.

Lemma last_loc_snoc xs l kd : last_loc (xs ++ [(l, kd)]) = Some l.
Proof. by rw /last_loc fmap_app last_snoc. Qed.

Lemma dseg_head h pp p l k d xs q qn :
  dseg h pp p ((l, (k, d)) :: xs) q qn →
  ∃ nx, p = Some l ∧ h !! l = Some (Node pp nx k d) ∧ dseg h (Some l) nx xs q qn.
Proof. simpl. naive_solver. Qed.

Lemma lseg_head h p l k d xs qn :
  lseg h p ((l, (k, d)) :: xs) qn →
  ∃ pp nx, p = Some l ∧ h !! l = Some (Node pp nx k d) ∧ lseg h nx xs qn.
Proof. simpl. naive_solver. Qed.

(** A new first node. *)
Lemma dseg_push h l k0 d0 nx xs q nk k d :
  h !! l = Some (Node None nx k0 d0) → l ∉ xs.*1 → nk ∉ l :: xs.*1 →
  dseg h None (Some l) ((l, (k0, d0)) :: xs) q None →
  dseg (<[l := Node (Some nk) nx k0 d0]> (<[nk := Node None (Some l) k d]> h))
    None (Some nk) ((nk, (k, d)) :: (l, (k0, d0)) :: xs) q None.
Proof.
  intros Hh Hl [Hne Hn]%not_elem_of_cons Hs.
  split; [done|]. exists (Some l). rw lookup_insert_ne // lookup_insert_eq. split; [done|].
  apply (dseg_set_prev _ None); [done | by rw lookup_insert_ne |].
  apply dseg_frame; [cbn; by apply not_elem_of_cons | done].
Qed.

Lemma lseg_push h l k0 d0 pp pp' nx xs nk k d :
  h !! l = Some (Node pp nx k0 d0) → nk ∉ l :: xs.*1 →
  lseg h (Some l) ((l, (k0, d0)) :: xs) None →
  lseg (<[l := Node pp' nx k0 d0]> (<[nk := Node None (Some l) k d]> h))
    (Some nk) ((nk, (k, d)) :: (l, (k0, d0)) :: xs) None.
Proof.
  intros Hh Hn Hs. pose proof Hn as [Hne _]%not_elem_of_cons.
  split; [done|]. exists None, (Some l). rw lookup_insert_ne // lookup_insert_eq. split; [done|].
  apply (lseg_set_prev _ _ _ _ _ (Node pp nx k0 d0)); [by rw lookup_insert_ne|].
  by apply lseg_frame.
Qed.
End relink.

(** ** Insertion into a list

    The functions are generic in the elements: they are used on cells and on
    their contents. *)

Section insertion.
Context {A : Type} (key : A → Z).
Implicit Types (c : A) (ys zs : list A).

(** Before the first element whose key is not smaller. *)
Fixpoint insert_before c ys : list A :=
  match ys with
  | [] => [c]
  | y :: ys' =>
      if bool_decide (key y < key c)%Z then y :: insert_before c ys' else c :: ys
  end.

(** After the leading elements whose keys are not greater. *)
Fixpoint insert_after c ys : list A :=
  match ys with
  | [] => [c]
  | y :: ys' =>
      if bool_decide (key y ≤ key c)%Z then y :: insert_after c ys' else c :: ys
  end.

(** [Dvz] compares with the first key the other way round. *)
Definition insert_dvz c ys : list A :=
  match ys with
  | [] => [c]
  | y :: ys' => if bool_decide (key c ≤ key y)%Z then c :: ys else y :: insert_after c ys'
  end.

Definition sorted_by ys : Prop := Sorted (λ a b, key a ≤ key b)%Z ys.

Lemma insert_before_split c ys zs :
  Forall (λ y, key y < key c)%Z ys →
  match zs with [] => True | z :: _ => ¬ (key z < key c)%Z end →
  insert_before c (ys ++ zs) = ys ++ c :: zs.
Proof.
  induction 1 as [|y ys Hk _ IH]; simpl.
  - destruct zs; [done|]. simpl. intros Hn. by rw bool_decide_eq_false_2.
  - intros Hz. rw bool_decide_eq_true_2; [|done]. by rw IH.
Qed.

Lemma insert_after_split c ys zs :
  Forall (λ y, key y ≤ key c)%Z ys →
  match zs with [] => True | z :: _ => ¬ (key z ≤ key c)%Z end →
  insert_after c (ys ++ zs) = ys ++ c :: zs.
Proof.
  induction 1 as [|y ys Hk _ IH]; simpl.
  - destruct zs; [done|]. simpl. intros Hn. by rw bool_decide_eq_false_2.
  - intros Hz. rw bool_decide_eq_true_2; [|done]. by rw IH.
Qed.

(** With a greater element in the list, something follows the new one. *)
Lemma insert_after_gap c ys :
  Exists (λ y, key c < key y)%Z ys →
  ∃ ys1 r ys2, ys = ys1 ++ r :: ys2 ∧ insert_after c ys = ys1 ++ c :: r :: ys2.
Proof.
  induction ys as [|y ys IH]; [by intros ?%Exists_nil|]. intros Hex. simpl.
  case_bool_decide as Hk.
  - apply Exists_cons in Hex as [?|Hex]; [lia|].
    destruct (IH Hex) as (ys1 & r & ys2 & -> & ->). by exists (y :: ys1), r, ys2.
  - by exists [], y, ys.
Qed.

Lemma insert_before_perm c ys : insert_before c ys ≡ₚ c :: ys.
Proof.
  induction ys as [|y ys IH]; simpl; [done|]. case_bool_decide; [|done].
  rw IH. apply Permutation_swap.
Qed.
Lemma insert_after_perm c ys : insert_after c ys ≡ₚ c :: ys.
Proof.
  induction ys as [|y ys IH]; simpl; [done|]. case_bool_decide; [|done].
  rw IH. apply Permutation_swap.
Qed.
Lemma insert_dvz_perm c ys : insert_dvz c ys ≡ₚ c :: ys.
Proof.
  destruct ys as [|y ys]; simpl; [done|]. case_bool_decide; [done|].
  rw insert_after_perm. apply Permutation_swap.
Qed.

(** An element goes on in front of a sorted rest it is below. *)
Lemma sorted_cons_after y c ys :
  sorted_by (y :: ys) → (key y ≤ key c)%Z → sorted_by (insert_after c ys) →
  sorted_by (y :: insert_after c ys).
Proof.
  intros [_ Hhd]%Sorted_inv Hk Hs. constructor; [done|].
  destruct ys as [|y2 ys]; simpl; [by constructor|].
  apply HdRel_inv in Hhd. case_bool_decide; by constructor.
Qed.
Lemma insert_before_sorted c ys : sorted_by ys → sorted_by (insert_before c ys).
Proof.
  rw /sorted_by. induction ys as [|y ys IH]; simpl; [by repeat constructor|].
  intros [Hs Hhd]%Sorted_inv. case_bool_decide as Hk.
  - constructor; [by apply IH|]. destruct ys as [|y2 ys]; simpl; [constructor; lia|].
    apply HdRel_inv in Hhd. case_bool_decide; constructor; lia.
  - constructor; [by constructor|]. constructor. lia.
Qed.
Lemma insert_after_sorted c ys : sorted_by ys → sorted_by (insert_after c ys).
Proof.
  rw /sorted_by. induction ys as [|y ys IH]; simpl; [by repeat constructor|].
  intros Hs. pose proof Hs as [Hs' _]%Sorted_inv. case_bool_decide as Hk.
  - apply sorted_cons_after; [done | done | by apply IH].
  - constructor; [done|]. constructor. lia.
Qed.
Lemma insert_dvz_sorted c ys : sorted_by ys → sorted_by (insert_dvz c ys).
Proof.
  destruct ys as [|y ys]; simpl; [by repeat constructor|]. intros Hs.
  pose proof Hs as [Hs' _]%Sorted_inv. case_bool_decide as Hk.
  - constructor; [done|]. by constructor.
  - apply sorted_cons_after; [done | lia | by apply insert_after_sorted].
Qed.
End insertion.

Section insertion_fmap.
Context {A B : Type} (f : A → B) (key : B → Z).

Lemma fmap_insert_before c (ys : list A) :
  f <$> insert_before (key ∘ f) c ys = insert_before key (f c) (f <$> ys).
Proof. induction ys as [|y ys IH]; simpl; [done|]. rw -IH {1}/compose. by case_bool_decide. Qed.
Lemma fmap_insert_after c (ys : list A) :
  f <$> insert_after (key ∘ f) c ys = insert_after key (f c) (f <$> ys).
Proof. induction ys as [|y ys IH]; simpl; [done|]. rw -IH {1}/compose. by case_bool_decide. Qed.
Lemma fmap_insert_dvz c (ys : list A) :
  f <$> insert_dvz (key ∘ f) c ys = insert_dvz key (f c) (f <$> ys).
Proof.
  destruct ys as [|y ys]; simpl; [done|]. rw -fmap_insert_after {1 2}/compose.
  by case_bool_decide.
Qed.
End insertion_fmap.

(** The key of a cell. *)
Definition ckey : cell → Z := fst ∘ snd.

(** The key [linked_list_prepend] gives the new node. *)
Definition prepend_key (ys : list (Z * Z)) : Z :=
  match ys with [] => 0%Z | (k, _) :: _ => s32 (k - 1) end.
