(* ===== verification/LinkedListOps.v ===== *)
(** * The operations of the linked lists are list insertion and removal

    For both versions: every operation, run from a well-formed list whose lock
    is free, returns, and its effect is that of a function on the list of
    cells.  The last part is the [SortedList] interface, its two instances and
    a client of it. *)

From stdpp Require Import base tactics list gmap option numbers sorting ssreflect.
From S2P Require Import Prelude Kern LinkedList.

(** ** [Proj1]: a doubly linked sorted list *)

Module Proj1Facts.
Import Proj1.

Lemma wp_yield n (Q : unit → state → Prop) s :
  (∀ t, Q tt (State (sys s) (nodes s) (lst s) (client s) (testnum s) t)) →
  wp (linked_list_thread_yield n) Q s.
Proof.
  intros HQ. rw /linked_list_thread_yield. wp_steps. case_bool_decide; wp_steps; [|destruct s]; apply HQ.
Qed.

(** What the search loop finds. *)
Definition place (s : state) (k : Z) (xs xs1 xs2 : list cell) (runner : ptr) : Prop :=
  xs = xs1 ++ xs2 ∧ Forall (λ y, ckey y < k)%Z xs1 ∧
  ∃ m, dseg (nodes s) None (first (lst s)) xs1 m runner ∧
       dseg (nodes s) m runner xs2 (last (lst s)) None.

Lemma find_place_spec s xs k :
  shape dlinks s xs →
  wp (while (node_bound s) (first (lst s)) (find_place k))
     (λ runner s', s' = s ∧ ∃ xs1 xs2, place s k xs xs1 xs2 runner ∧
        match xs2 with [] => True | z :: _ => ¬ (ckey z < k)%Z end) s.
Proof.
  intros Hs. eapply (wp_while (λ n runner s', s' = s ∧ ∃ xs1 xs2,
    length xs2 = n ∧ place s k xs xs1 xs2 runner)).
  - split; [done|]. exists [], xs. split; [done|]. split; [done|]. split; [constructor|].
    exists None. split; [done|]. apply Hs.
  - rw /node_bound. pose proof (lseg_NoDup_bound _ _ _ _ (shape_nodup _ _ _ Hs)
      (dseg_lseg _ _ _ _ _ _ (shape_links _ _ _ Hs))). lia.
  - intros n runner s' (-> & xs1 & xs2 & Hn & Hxs & Hall & m & H1 & H2).
    destruct xs2 as [|[l [k' d']] xs2].
    + destruct H2 as [-> ->]. apply wp_ret. split; [done|]. exists xs1, [].
      split; [|done]. split; [done|]. split; [done|]. by exists (last (lst s)).
    + destruct (dseg_head _ _ _ _ _ _ _ _ _ H2) as (nx & -> & Hl & H3).
      simpl. wp_step. eapply wp_load; [done | | done |].
      { apply (shape_live _ _ _ Hs). rw Hxs fmap_app. set_solver. }
      simpl. case_bool_decide as Hk; apply wp_ret.
      * exists (length xs2). split; [simpl in Hn; lia|]. split; [done|].
        exists (xs1 ++ [(l, (k', d'))]), xs2. split; [done|].
        split; [by rw -app_assoc|]. split.
        { rw Forall_app. split; [done|]. by repeat constructor. }
        exists (Some l). split; [|done]. apply dseg_snoc. eauto.
      * split; [done|]. exists xs1, ((l, (k', d')) :: xs2).
        split; [|done]. split; [done|]. eauto.
Qed.

Lemma link_at_end_spec s xs l k d :
  NoDup (xs.*1) → l ∉ xs.*1 → l ∈ live (sys s) → (∀ l, l ∈ xs.*1 → l ∈ live (sys s)) →
  links dlinks s xs →
  wp (link_at_end (Some l)) (λ _ s', same_but_links s s' ∧ links dlinks s' (xs ++ [(l, (k, d))]))
     (with_node l k d s).
Proof.
  intros Hnd Hl Hv Hlive Hs. rw /link_at_end. wp_step. wp_step. wp_step.
  eapply wp_store; [done | done | apply lookup_insert_eq |]. simpl.
  destruct xs as [|[q [kq dq]] xs _] using rev_ind.
  - destruct Hs as [Hf Hm]. rw -Hm. wp_step. do 2 apply wp_modify. split; [done|].
    rw /links /=. split; [done|]. exists None. split; [|done]. by rw lookup_insert_eq.
  - pose proof Hs as (m' & H1 & Hm & Hq)%dseg_snoc. rw Hm /=.
    assert (q ≠ l) as Hne by (intros ->; apply Hl; rw fmap_app; set_solver).
    wp_step. eapply wp_store;
      [done | apply Hlive; rw fmap_app; set_solver | rw /= lookup_insert_ne; [|done]; by rw lookup_insert_ne |].
    apply wp_modify. split; [done|]. rw /links /=. apply dseg_snoc. exists (Some q).
    split; [|split; [done|rw lookup_insert_ne; [|done]; by rw lookup_insert_eq]].
    rw insert_insert_eq insert_insert_ne; [|done]. apply dseg_frame; [done|].
    rw /links /dlinks Hm in Hs. by apply (dseg_set_next _ _ _ _ _ _ _ None _ (Node m' None kq dq)).
Qed.

Lemma link_before_spec s xs1 r kr dr xs2 l k d m :
  let xs := xs1 ++ (r, (kr, dr)) :: xs2 in
  NoDup (xs.*1) → l ∉ xs.*1 → l ∈ live (sys s) → (∀ l, l ∈ xs.*1 → l ∈ live (sys s)) →
  dseg (nodes s) None (first (lst s)) xs1 m (Some r) →
  dseg (nodes s) m (Some r) ((r, (kr, dr)) :: xs2) (last (lst s)) None →
  wp (link_before (Some l) (Some r))
     (λ _ s', same_but_links s s' ∧ links dlinks s' (xs1 ++ (l, (k, d)) :: (r, (kr, dr)) :: xs2))
     (with_node l k d s).
Proof.
  intros xs Hnd Hl Hv Hlive H1 H2.
  destruct (dseg_head _ _ _ _ _ _ _ _ _ H2) as (nx & _ & Hr & _).
  assert (r ≠ l) as Hrl by (intros ->; apply Hl; rw fmap_app; set_solver).
  assert (r ∈ live (sys s)) as Hrv by (apply Hlive; rw fmap_app; set_solver).
  rw /xs fmap_app fmap_cons /= in Hnd.
  pose proof Hnd as (Hnd1 & Hdis & [Hr2 Hnd2]%NoDup_cons)%NoDup_app.
  assert (r ∉ xs1.*1) as Hr1 by (intros Hin; apply (Hdis _ Hin); set_solver).
  assert (l ∉ xs1.*1 ∧ l ∉ xs2.*1) as [Hl1 Hl2] by (rw /xs fmap_app fmap_cons /= in Hl; set_solver).
  rw /link_before. wp_step. eapply wp_load; [done | done | by rw /= lookup_insert_ne |].
  wp_step. eapply wp_store; [done | done | apply lookup_insert_eq |].
  wp_step. eapply wp_store; [done | done | apply lookup_insert_eq |]. wp_step.
  destruct xs1 as [|[q [kq dq]] xs1 _] using rev_ind.
  - destruct H1 as [Hf <-]. apply wp_modify.
    eapply wp_store; [done | done | rw /= !lookup_insert_ne // |].
    split; [done|]. rw /links /= !insert_insert_eq.
    apply dseg_push; [done | done | by apply not_elem_of_cons | done].
  - pose proof H1 as (m' & H1' & -> & Hq)%dseg_snoc.
    assert (q ≠ l) as Hql by (intros ->; apply Hl1; rw fmap_app; set_solver).
    assert (q ≠ r) as Hqr by (intros ->; apply Hr1; rw fmap_app; set_solver).
    assert (q ∈ live (sys s)) as Hqv by (apply Hlive; rw !fmap_app; set_solver).
    eapply wp_store; [done | done | rw /= !lookup_insert_ne // |].
    eapply wp_store; [done | done | rw /= !lookup_insert_ne // |].
    split; [done|]. rw /links /=. apply dseg_app. exists (Some q), (Some l). split.
    + apply dseg_frame; [done|]. rw !insert_insert_eq.
      rw insert_insert_ne //. apply dseg_frame; [done|].
      by apply (dseg_set_next _ _ _ _ _ _ _ (Some r) _ (Node m' (Some r) kq dq)).
    + split; [done|]. exists (Some r). rw !insert_insert_eq. split.
      { rw lookup_insert_ne // lookup_insert_ne // lookup_insert_eq //. }
      apply (dseg_set_prev _ (Some q)); [done | rw !lookup_insert_ne // |].
      apply dseg_frame. { rw /= not_elem_of_cons. split; [done|].
        intros Hin. apply (Hdis q); [rw fmap_app|]; set_solver. }
      apply dseg_frame; [by apply not_elem_of_cons | done].
Qed.

(** Linking where the loop stopped. *)
Lemma link_spec s xs xs1 xs2 runner l k d :
  place s k xs xs1 xs2 runner →
  NoDup xs.*1 → l ∉ xs.*1 → l ∈ live (sys s) → (∀ l, l ∈ xs.*1 → l ∈ live (sys s)) →
  wp (match runner with Some _ => link_before (Some l) runner | None => link_at_end (Some l) end)
     (λ _ s', same_but_links s s' ∧ links dlinks s' (xs1 ++ (l, (k, d)) :: xs2)) (with_node l k d s).
Proof.
  intros (-> & _ & m & H1 & H2) Hnd Hl Hv Hlive. destruct xs2 as [|[r [kr dr]] xs2].
  - destruct H2 as [-> ->]. rw app_nil_r in Hnd Hl Hlive. by apply link_at_end_spec.
  - pose proof (dseg_head _ _ _ _ _ _ _ _ _ H2) as (nx & -> & _). by eapply link_before_spec.
Qed.

Lemma insert_node_spec s xs l o k d s1 :
  oracle (sys s) = Some l :: o → l ∉ live (sys s) → locked_like dlinks s xs s1 →
  wp (insert_node k d) (λ _ s3, same_but_links (allocated l o s1) s3 ∧
    ∃ xs', xs' = insert_before ckey (l, (k, d)) xs ∧ xs'.*1 ≡ₚ l :: xs.*1 ∧
      links dlinks s3 xs') s1.
Proof.
  intros Ho Hl (Hs1 & _ & _ & _ & Hv & Horc & _). rw /insert_node. wp_steps.
  eapply wp_mono; [by apply find_place_spec|].
  intros runner s1' (-> & xs1 & xs2 & (-> & Hall & m & H1 & H2) & Hstop).
  assert (l ∉ (xs1 ++ xs2).*1) as Hlx by (intros Hin%(shape_live _ _ _ Hs1); by rw Hv in Hin).
  wp_step. apply wp_yield. intros t. wp_step.
  eapply wp_create_node; [by rw /= Horc | by rw /= Hv|].
  set (s2 := allocated _ _ _).
  assert (place s2 k (xs1 ++ xs2) xs1 xs2 runner) as Hpl by (split; [done|]; split; eauto).
  eapply wp_mono; [eapply link_spec; [done | apply Hs1 | done | rw /=; set_solver |]|].
  { intros q Hq%(shape_live _ _ _ Hs1). rw /=. set_solver. }
  intros _ s3 [(? & ? & ?) Hlinks]. split; [done|]. exists (xs1 ++ (l, (k, d)) :: xs2).
  rw insert_before_split // !fmap_app /=. by rw Permutation_middle.
Qed.

(** (insertion, doubly linked) *)
Theorem linked_list_insert_spec s xs k d l o :
  wf dlinks s xs → oracle (sys s) = Some l :: o → l ∉ live (sys s) →
  wp (linked_list_insert k d)
     (λ _ s', grown dlinks s l o (λ xs' _, xs' = insert_before ckey (l, (k, d)) xs) s') s.
Proof. intros Hwf Ho Hl. eapply wp_grow; [done..|]. intros s1 Hlike. by eapply insert_node_spec. Qed.

Lemma prepend_node_spec s xs l o d s1 :
  oracle (sys s) = Some l :: o → l ∉ live (sys s) → locked_like dlinks s xs s1 →
  wp (prepend_node d) (λ _ s3, same_but_links (allocated l o s1) s3 ∧
    ∃ xs', xs' = (l, (prepend_key (contents xs), d)) :: xs ∧ xs'.*1 ≡ₚ l :: xs.*1 ∧
      links dlinks s3 xs') s1.
Proof.
  intros Ho Hl (Hs1 & _ & _ & _ & Hv & Horc & _). rw /prepend_node. wp_step. wp_step.
  assert (l ∉ xs.*1) as Hlx by (intros Hin%(shape_live _ _ _ Hs1); by rw Hv in Hin).
  pose proof (shape_links _ _ _ Hs1) as Hlinks. destruct xs as [|[f [k0 d0]] xs].
  - destruct Hlinks as [Hf Hm]. rw Hf. wp_step. apply wp_yield. intros t. wp_step.
    eapply wp_create_node; [by rw /= Horc | by rw /= Hv|]. wp_step. do 2 apply wp_modify.
    split; [done|]. exists [(l, (0, d))%Z]. split; [done|]. split; [done|]. split; [done|].
    exists None. split; [|done]. by rw lookup_insert_eq.
  - pose proof (dseg_head _ _ _ _ _ _ _ _ _ Hlinks) as (nx & Hf & Hfn & _). rw Hf.
    assert (f ≠ l) as Hne by (intros ->; apply Hlx; set_solver).
    assert (f ∈ live (sys s1)) as Hfl by (apply (shape_live _ _ _ Hs1); set_solver).
    wp_step. eapply wp_load; [done | done | done |]. wp_step.
    eapply wp_create_node; [by rw Horc | by rw Hv|]. wp_step. wp_step. wp_step.
    eapply wp_store; [done | rw /=; set_solver | apply lookup_insert_eq |]. wp_step.
    apply wp_yield. intros t. wp_step.
    eapply wp_store; [done | rw /=; set_solver | rw /= !lookup_insert_ne // |]. apply wp_modify.
    split; [done|]. exists ((l, (s32 (k0 - 1), d)) :: (f, (k0, d0)) :: xs).
    split; [done|]. split; [done|]. rw /links /= Hf insert_insert_eq.
    apply dseg_push; [done | | done | by rw -Hf].
    pose proof (shape_nodup _ _ _ Hs1) as Hnd. cbn in Hnd. by apply NoDup_cons in Hnd as [? _].
Qed.

(** (prepending, doubly linked) *)
Theorem linked_list_prepend_spec s xs d l o :
  wf dlinks s xs → oracle (sys s) = Some l :: o → l ∉ live (sys s) →
  wp (linked_list_prepend d)
     (λ _ s', grown dlinks s l o
        (λ xs' _, xs' = (l, (prepend_key (contents xs), d)) :: xs) s') s.
Proof. intros Hwf Ho Hl. eapply wp_grow; [done..|]. intros s1 Hlike. by eapply prepend_node_spec. Qed.

End Proj1Facts.

(** ** Removing the head *)

(** The state after the head [h] of a list has been removed. *)
Definition shrunk (L : linkage) (s : state) (h : loc) (xs' : list cell) (s' : state) : Prop :=
  wf L s' xs' ∧ same_rest s s' ∧ live (sys s') = live (sys s) ∖ {[h]} ∧
  oracle (sys s') = oracle (sys s).

Lemma shrink_wf L s h kd xs s' :
  shape L s ((h, kd) :: xs) → lock_free (list_lock (lst s)) s' → same_rest s s' →
  live (sys s') = live (sys s) ∖ {[h]} → oracle (sys s') = oracle (sys s) →
  links L s' xs → length_ (lst s') = s32 (length_ (lst s) - 1) →
  shrunk L s h xs s'.
Proof.
  intros [_ Hnd Hlive Hlock Hlen] Hfree (Hk & Hc & Ht) Hv Ho Hlinks Hlen'.
  cbn in Hnd. apply NoDup_cons in Hnd as [Hh Hnd].
  split; [|done]. split; [|by rw Hk]. split; [done | done | | |].
  - intros l Hl. rw Hv. assert (l ≠ h) by congruence. specialize (Hlive l). set_solver.
  - intros l. rw Hk. intros Hl. specialize (Hlock l Hl). set_solver.
  - rw Hlen' Hlen s32_pred /=. f_equal. lia.
Qed.

(** The length update and [kfree] at the end of both versions. *)
Lemma wp_drop {A} (s : state) h (k : M state A) Q :
  h ∈ live (sys s) →
  (∀ s', nodes s' = nodes s → sys s' = set_live (live (sys s) ∖ {[h]}) (sys s) →
     client s' = client s → testnum s' = testnum s →
     lst s' = LList (first (lst s)) (last (lst s)) (list_lock (lst s)) (s32 (length_ (lst s) - 1)) →
     wp k Q s') →
  wp (len ← gets (λ s, length_ (lst s)); set_length (s32 (len - 1));; kfree (Some h);; k) Q s.
Proof.
  intros Hl Hk. wp_steps. apply wp_modify. wp_step. apply wp_kfree; [done|]. by apply Hk.
Qed.

(** What a release does to the list. *)
Lemma wp_release_list lk (s : state) (Q : unit → state → Prop) :
  holds lk s →
  (∀ s', lock_free lk s' → nodes s' = nodes s → lst s' = lst s → live (sys s') = live (sys s) →
     oracle (sys s') = oracle (sys s) → client s' = client s → testnum s' = testnum s → Q tt s') →
  wp (lock_release lk) Q s.
Proof.
  intros Hh HQ. apply wp_lock_release; [done|].
  destruct (released_frame lk s) as (? & ? & ? & ? & ? & ?). apply HQ; try done.
  by apply released_free.
Qed.

Module Proj1Remove.
Import Proj1 Proj1Facts.

Lemma unlink_head_spec s h k d xs :
  shape dlinks s ((h, (k, d)) :: xs) →
  wp (unlink_head (Some h)) (λ nd s', data nd = d ∧ key nd = k ∧ same_but_links s s' ∧
        links dlinks s' xs) s.
Proof.
  intros Hs. pose proof (dseg_head _ _ _ _ _ _ _ _ _ (shape_links _ _ _ Hs)) as (nx & Hf & Hh & Htl).
  assert (h ∈ live (sys s)) as Hhl by (apply (shape_live _ _ _ Hs); set_solver).
  pose proof (shape_nodup _ _ _ Hs) as Hnd. cbn in Hnd. apply NoDup_cons in Hnd as [Hhn Hnd].
  rw /unlink_head. wp_step. wp_step. wp_step. case_bool_decide as Hlast.
  - destruct xs as [|[q [kq dq]] xs _] using rev_ind.
    + destruct Htl as [-> _]. apply wp_modify. wp_step. apply wp_yield. intros t.
      wp_step. eapply wp_load; [done | done | done |]. wp_step. apply wp_modify. by apply wp_ret.
    + apply dseg_snoc in Htl as (m & _ & Hq & _). rw -Hlast in Hq. simplify_eq.
      exfalso. apply Hhn. rw fmap_app. set_solver.
  - destruct xs as [|[q [kq dq]] xs].
    { destruct Htl as [_ Heq]. by rw Heq in Hlast. }
    pose proof (dseg_head _ _ _ _ _ _ _ _ _ Htl) as (nx' & -> & Hq & _).
    assert (q ∈ live (sys s)) as Hql by (apply (shape_live _ _ _ Hs); set_solver).
    assert (q ≠ h) as Hqh by (intros ->; apply Hhn; set_solver).
    wp_step. eapply wp_load; [done | done | done |]. eapply wp_store; [done | done | done |].
    wp_step. apply wp_yield. intros t. wp_step.
    eapply wp_load; [done | done | rw /= lookup_insert_ne // |]. wp_step. apply wp_modify.
    apply wp_ret. split; [done|]. split; [done|]. split; [done|].
    cbn in Hnd. apply NoDup_cons in Hnd as [? ?]. by apply (dseg_set_prev _ (Some h)).
Qed.

Theorem linked_list_remove_head_spec s xs :
  wf dlinks s xs →
  wp linked_list_remove_head (λ r s',
    match xs with
    | [] => r = None ∧ wf dlinks s' [] ∧ same_rest s s' ∧ live (sys s') = live (sys s)
            ∧ oracle (sys s') = oracle (sys s)
    | (h, (k, d)) :: xs' => r = Some (d, k) ∧ shrunk dlinks s h xs' s'
    end) s.
Proof.
  intros [Hs Hfree]. rw /linked_list_remove_head. wp_steps. apply wp_lock_acquire; [done|].
  pose proof (acquired_holds _ _ Hfree) as Hh.
  pose proof (shape_acquired _ (list_lock (lst s)) _ _ Hs) as Hs1.
  destruct (acquired_frame (list_lock (lst s)) s) as (_ & Hlst & Hc & Ht & Hv & Ho).
  revert Hh Hs1 Hlst Hc Ht Hv Ho. generalize (acquired (list_lock (lst s)) s) as s1.
  intros s1 Hh Hs1 Hlst Hc Ht Hv Ho. wp_steps. apply wp_yield. intros t.
  set (s2 := State _ _ _ _ _ t). assert (shape dlinks s2 xs) as Hs2 by (by destruct Hs1).
  destruct xs as [|[h [k d]] xs].
  - destruct (shape_links _ _ _ Hs1) as [Hf Hl]. rw Hf /=. wp_step.
    apply wp_release_list; [done|]. intros s' Hf' Hn' Hl' Hv' Ho' Hc' Ht'. apply wp_ret.
    split; [done|]. split; [|by rw /same_rest Hl' Hc' Ht' Hv' Ho' /= Hlst Hc Ht Hv Ho].
    split; [|by rw Hl' /= Hlst]. split; [by rw /links Hn' Hl' /= | constructor | set_solver.. |].
    by rw Hl' /= Hlst (shape_length _ _ _ Hs).
  - pose proof (dseg_head _ _ _ _ _ _ _ _ _ (shape_links _ _ _ Hs1)) as (nx & Hf & _).
    rw Hf /=. wp_step. eapply wp_mono; [by apply unlink_head_spec|].
    intros nd s3 (-> & -> & (Hsys & Hlen & Hk3 & Hc3 & Ht3) & Hlinks). cbn beta.
    apply wp_drop. { rw Hsys. apply (shape_live _ _ _ Hs2). set_solver. }
    intros s4 Hn4 Hsys4 Hc4 Ht4 Hl4. wp_step. apply wp_release_list.
    { eapply holds_sys; [|apply holds_free_other; [exact Hh|]]; [by rw Hsys4 Hsys|].
      intros Heq. apply (shape_lock _ _ _ Hs h); [done|set_solver]. }
    intros s5 Hf5 Hn5 Hl5 Hv5 Ho5 Hc5 Ht5. apply wp_ret. split; [done|].
    apply (shrink_wf _ _ _ (k, d)); [done | done | | | | |].
    + by rw /same_rest Hl5 Hl4 /= Hk3 /= Hlst Hc5 Hc4 Hc3 /= Hc Ht5 Ht4 Ht3 /= Ht.
    + by rw Hv5 Hsys4 /= Hsys /= Hv.
    + by rw Ho5 Hsys4 /= Hsys /= Ho.
    + by rw /links Hn5 Hl5 Hn4 Hl4.
    + by rw Hl5 Hl4 /= Hlen /= Hlst.
Qed.
End Proj1Remove.

(** ** [Dvz]: the list by its [next] pointers *)

Module DvzFacts.
Import Dvz.

Lemma wp_yield_if n (Q : unit → state → Prop) s :
  (∀ t, Q tt (State (sys s) (nodes s) (lst s) (client s) (testnum s) t)) →
  wp (yield_if n) Q s.
Proof.
  intros HQ. rw /yield_if. wp_steps. case_bool_decide; wp_steps; [|destruct s]; apply HQ.
Qed.

Lemma lseg_snoc h p xs l k d qn :
  lseg h p (xs ++ [(l, (k, d))]) qn ↔
  ∃ pp, lseg h p xs (Some l) ∧ h !! l = Some (Node pp qn k d).
Proof.
  rw lseg_app. split.
  - intros (mn & H & [-> (pp & nx & Hl & <-)]). eauto.
  - intros (pp & H & Hl). exists (Some l). split; [done|]. split; [done|]. by exists pp, qn.
Qed.

(** Outside [D], the [prev] links are as they were. *)
Definition keeps_prev (D : gset loc) (h h' : gmap loc node) : Prop :=
  ∀ q, q ∉ D → prev <$> h' !! q = prev <$> h !! q.

Lemma keeps_prev_insert D h h' q n :
  (q ∈ D ∨ prev <$> h !! q = Some (prev n)) → keeps_prev D h h' → keeps_prev D h (<[q := n]> h').
Proof.
  intros Hq HD r Hr. destruct (decide (q = r)) as [->|Hne].
  - rw lookup_insert_eq. destruct Hq as [?|Hq]; [done|by rw Hq].
  - rw lookup_insert_ne //. by apply HD.
Qed.

Lemma keeps_prev_mono D D' h h' : D ⊆ D' → keeps_prev D h h' → keeps_prev D' h h'.
Proof. intros HD H q Hq. apply H. set_solver. Qed.

(** The new node and the old first node. *)
Definition ends (l : loc) (xs : list cell) : gset loc := {[l]} ∪ list_to_set (take 1 xs.*1).

Lemma ends_new l xs : l ∈ ends l xs.
Proof. rw /ends. set_solver. Qed.
Lemma ends_first l f kd xs : f ∈ ends l ((f, kd) :: xs).
Proof. rw /ends /=. set_solver. Qed.

(** Where the loop of [linked_list_insert] is: at the last cell of [xs1]. *)
Definition place (s : state) (k : Z) (xs xs1 xs2 : list cell) (q : cell) : Prop :=
  xs = xs1 ++ q :: xs2 ∧ Forall (λ y, ckey y ≤ k)%Z (tail (xs1 ++ [q])) ∧
  ∃ mn, lseg (nodes s) (first (lst s)) (xs1 ++ [q]) mn ∧ lseg (nodes s) mn xs2 None.

Lemma tail_snoc {A} (xs : list A) x y : tail ((xs ++ [x]) ++ [y]) = tail (xs ++ [x]) ++ [y].
Proof. by destruct xs. Qed.

Lemma advance_spec s xs q0 k :
  lseg (nodes s) (first (lst s)) (q0 :: xs) None → NoDup (q0 :: xs).*1 →
  (∀ l, l ∈ (q0 :: xs).*1 → l ∈ live (sys s)) →
  wp (while (node_bound s) (first (lst s)) (advance k))
     (λ f s', s' = s ∧ ∃ xs1 xs2 q, f = Some q.1 ∧ place s k (q0 :: xs) xs1 xs2 q ∧
        match xs2 with [] => True | z :: _ => ¬ (ckey z ≤ k)%Z end) s.
Proof.
  intros Hs Hnd Hlive. eapply (wp_while (λ n f s', s' = s ∧ ∃ xs1 xs2 q,
    length xs2 = n ∧ f = Some q.1 ∧ place s k (q0 :: xs) xs1 xs2 q)).
  - split; [done|]. exists [], xs, q0. destruct q0 as [l0 [k0 d0]].
    pose proof (lseg_head _ _ _ _ _ _ _ Hs) as (pp & nx & Hf & Hl0 & Htl).
    split; [done|]. split; [done|]. split; [done|]. split; [constructor|].
    exists nx. split; [|done]. simpl. eauto 6.
  - rw /node_bound. pose proof (lseg_NoDup_bound _ _ _ _ Hnd Hs) as Hb. simpl in Hb. lia.
  - intros n f s' (-> & xs1 & xs2 & [l [k' d']] & Hn & -> & Hxs & Hall & mn & H1 & H2).
    pose proof H1 as (pp & H1' & Hl)%lseg_snoc. rw /advance. wp_step.
    eapply wp_load; [done | | done |]. { apply Hlive. rw Hxs fmap_app. set_solver. }
    simpl. destruct xs2 as [|[l2 [k2 d2]] xs2].
    + rw H2. apply wp_ret. split; [done|]. exists xs1, [], (l, (k', d')).
      split; [done|]. split; [|done]. split; [done|]. split; [done|]. by exists None; rw -H2.
    + pose proof (lseg_head _ _ _ _ _ _ _ H2) as (pp2 & nx2 & -> & Hl2 & H3).
      wp_step. eapply wp_load; [done | | done |]. { apply Hlive. rw Hxs fmap_app. set_solver. }
      simpl. case_bool_decide as Hk; apply wp_ret.
      * exists (length xs2). split; [simpl in Hn; lia|]. split; [done|].
        exists (xs1 ++ [(l, (k', d'))]), xs2, (l2, (k2, d2)). split; [done|]. split; [done|].
        split; [by rw -app_assoc|]. split.
        { rw tail_snoc Forall_app. split; [done|]. by repeat constructor. }
        exists nx2. split; [|done]. apply lseg_snoc. eauto.
      * split; [done|]. exists xs1, ((l2, (k2, d2)) :: xs2), (l, (k', d')).
        split; [done|]. split; [|done]. split; [done|]. split; [done|]. by exists (Some l2).
Qed.

Lemma link_after_spec s xs1 q kq dq xs2 mn l k d :
  let xs := xs1 ++ (q, (kq, dq)) :: xs2 in
  NoDup xs.*1 → l ∉ xs.*1 → l ∈ live (sys s) → (∀ l, l ∈ xs.*1 → l ∈ live (sys s)) →
  lseg (nodes s) (first (lst s)) (xs1 ++ [(q, (kq, dq))]) mn → lseg (nodes s) mn xs2 None →
  last (lst s) = last_loc xs → nodes s !! l = Some (Node None None k d) →
  wp (link_after (Some l) (Some q))
     (λ _ s', same_but_links s s' ∧
        links flinks s' (xs1 ++ (q, (kq, dq)) :: (l, (k, d)) :: xs2) ∧
        keeps_prev {[l]} (nodes s) (nodes s')) s.
Proof.
  intros xs Hnd Hl Hv Hlive H1 H2 Hlast Hnode.
  pose proof H1 as (pp & H1' & Hq)%lseg_snoc.
  assert (q ≠ l) as Hql by (intros ->; apply Hl; rw fmap_app; set_solver).
  assert (q ∈ live (sys s)) as Hqv by (apply Hlive; rw fmap_app; set_solver).
  rw /xs fmap_app fmap_cons /= in Hnd Hl.
  pose proof Hnd as (_ & Hdis & [Hq2 _]%NoDup_cons)%NoDup_app.
  assert (q ∉ xs1.*1) as Hq1 by (intros Hin; apply (Hdis _ Hin); set_solver).
  rw /link_after. wp_step. eapply wp_load; [done | done | done |].
  wp_step. eapply wp_store; [done | done | done |].
  wp_step. eapply wp_store; [done | done | apply lookup_insert_eq |].
  wp_step. eapply wp_store; [done | done | rw /= !lookup_insert_ne // |].
  wp_step. eapply wp_load; [done | done | rw /= lookup_insert_ne // lookup_insert_eq // |].
  set (s4 := upd_nodes _ (upd_nodes _ (upd_nodes _ s))). cbn beta. simpl next.
  assert (lseg (nodes s4) (first (lst s)) (xs1 ++ (q, (kq, dq)) :: (l, (k, d)) :: xs2) None) as Hfin.
  { replace (xs1 ++ _) with ((xs1 ++ [(q, (kq, dq))]) ++ (l, (k, d)) :: xs2) by (by rw -app_assoc).
    apply lseg_app. exists (Some l). rw /s4 /= insert_insert_eq. split.
    - apply lseg_snoc. exists pp. rw lookup_insert_eq. split; [|done].
      apply lseg_frame; [done|]. apply lseg_frame; [set_solver|done].
    - split; [done|]. exists (Some q), mn. rw lookup_insert_ne // lookup_insert_eq. split; [done|].
      apply lseg_frame; [done|]. apply lseg_frame; [set_solver|done]. }
  assert (keeps_prev {[l]} (nodes s) (nodes s4)) as Hkeep.
  { apply keeps_prev_insert; [right; by rw Hq|]. rw /= insert_insert_eq.
    apply keeps_prev_insert; [left; set_solver|]. done. }
  destruct mn as [l2|].
  - apply wp_ret. split; [done|]. split; [|done]. split; [done|].
    rw /= Hlast /xs /last_loc !fmap_app !last_app /=. by destruct xs2.
  - apply wp_modify. split; [done|]. split; [|done]. split; [done|]. destruct xs2 as [|[? [? ?]] xs2].
    + by rw /= /last_loc fmap_app last_app.
    + by destruct H2.
Qed.

Lemma dvz_insert_node_spec s xs l o k d s1 :
  oracle (sys s) = Some l :: o → l ∉ live (sys s) → locked_like flinks s xs s1 →
  wp (insert_node k d) (λ _ s3, same_but_links (allocated l o s1) s3 ∧
    ∃ xs', (xs' = insert_dvz ckey (l, (k, d)) xs ∧ keeps_prev (ends l xs) (nodes s) (nodes s3)) ∧
      xs'.*1 ≡ₚ l :: xs.*1 ∧ links flinks s3 xs') s1.
Proof.
  intros Ho Hl (Hs1 & _ & _ & _ & Hv & Horc & _ & Hn1). rw -Hn1 /insert_node. wp_step. wp_step. wp_step.
  apply wp_yield_if. intros t.
  assert (l ∉ xs.*1) as Hlx by (intros Hin%(shape_live _ _ _ Hs1); by rw Hv in Hin).
  pose proof (shape_links _ _ _ Hs1) as [Hlinks Hlast]. destruct xs as [|[f [k0 d0]] xs].
  - simpl in Hlinks. rw Hlinks. wp_step. eapply wp_create_node; [by rw /= Horc | by rw /= Hv|].
    wp_step. do 2 apply wp_modify. split; [done|]. exists [(l, (k, d))%Z].
    split. { split; [done|]. apply keeps_prev_insert; [left; apply ends_new|done]. }
    split; [done|]. split; [|done]. split; [done|]. exists None, None.
    split; [|done]. by rw lookup_insert_eq.
  - pose proof (lseg_head _ _ _ _ _ _ _ Hlinks) as (pp & nx & Hf & Hfn & Htl).
    pose proof (shape_nodup _ _ _ Hs1) as Hnd.
    assert (f ≠ l) as Hne by (intros ->; apply Hlx; set_solver).
    assert (f ∈ live (sys s1)) as Hfl by (apply (shape_live _ _ _ Hs1); set_solver).
    rw {1}Hf. wp_step. eapply wp_create_node; [by rw /= Horc | by rw /= Hv|].
    wp_step. eapply wp_load; [done | rw /=; set_solver | rw /= lookup_insert_ne // |].
    simpl. case_bool_decide as Hk.
    + wp_step. eapply wp_store; [done | rw /=; set_solver | apply lookup_insert_eq |]. wp_step.
      eapply wp_store; [done | rw /=; set_solver | rw /= !lookup_insert_ne // |]. wp_step.
      apply wp_yield_if. intros t'. apply wp_modify.
      split; [done|]. exists ((l, (k, d)) :: (f, (k0, d0)) :: xs).
      split.
      { split; [by rw /= bool_decide_eq_true_2|]. rw /= insert_insert_eq.
        apply keeps_prev_insert; [left; apply ends_first|].
        apply keeps_prev_insert; [left; apply ends_new|done]. }
      split; [done|]. rw /links /= Hf insert_insert_eq. split; [|by rw Hlast].
      rw Hf in Hlinks. by eapply lseg_push.
    + wp_step. wp_step. set (s2 := with_node l k d _). wp_step.
      change (first (lst s1)) with (first (lst s2)).
      eapply wp_mono; [apply (advance_spec s2 xs (f, (k0, d0)))|].
      { by apply lseg_frame. } { done. }
      { intros q Hq%(shape_live _ _ _ Hs1). rw /=. set_solver. }
      intros f' s2' (-> & xs1 & xs2 & [q [kq dq]] & -> & (Hxs & Hall & mn & H1 & H2) & Hstop).
      eapply wp_mono. { eapply (link_after_spec s2 xs1 q kq dq xs2 mn l k d); rw -?Hxs; try done.
        - rw /=. set_solver.
        - intros r Hr%(shape_live _ _ _ Hs1). rw /=. set_solver.
        - apply lookup_insert_eq. }
      intros _ s3 (Hsame & Hlk & Hkeep). split; [done|].
      exists (xs1 ++ (q, (kq, dq)) :: (l, (k, d)) :: xs2). split; [split|split; [|done]].
      * rw /= bool_decide_eq_false_2 //.
        destruct xs1 as [|f1 xs1]; simplify_eq/=; f_equal; symmetry.
        -- by apply (insert_after_split _ _ []).
        -- rw (cons_middle (q, (kq, dq))) app_assoc insert_after_split //. by rw -app_assoc.
      * intros r Hr. assert (r ≠ l) as Hrl by (intros ->; apply Hr, ends_new).
        rw Hkeep; [|by apply not_elem_of_singleton]. by rw /s2 /= lookup_insert_ne.
      * trans (l :: (xs1 ++ (q, (kq, dq)) :: xs2).*1); [|by rw -Hxs].
        by rw !fmap_app /= (Permutation_swap l q) Permutation_middle.
Qed.

Theorem dvz_insert_spec s xs k d l o :
  wf flinks s xs → oracle (sys s) = Some l :: o → l ∉ live (sys s) →
  wp (linked_list_insert k d)
     (λ _ s', grown flinks s l o (λ xs' h, xs' = insert_dvz ckey (l, (k, d)) xs ∧
        keeps_prev (ends l xs) (nodes s) h) s') s.
Proof. intros Hwf Ho Hl. eapply wp_grow; [done..|]. intros s1 Hlike. by eapply dvz_insert_node_spec. Qed.

Lemma dvz_unlink_head_spec s h k d xs :
  shape flinks s ((h, (k, d)) :: xs) →
  wp (unlink_head (Some h)) (λ nd s', data nd = d ∧ key nd = k ∧ same_but_links s s' ∧
        lseg (nodes s') (first (lst s')) xs None ∧ last (lst s') = last (lst s)) s.
Proof.
  intros Hs. pose proof (shape_links _ _ _ Hs) as [Hlinks _].
  pose proof (lseg_head _ _ _ _ _ _ _ Hlinks) as (pp & nx & Hf & Hh & Htl).
  assert (h ∈ live (sys s)) as Hhl by (apply (shape_live _ _ _ Hs); set_solver).
  rw /unlink_head. wp_step. eapply wp_load; [done | done | done |]. wp_step.
  apply wp_yield_if. intros t. wp_step. apply wp_modify. simpl. wp_step.
  destruct xs as [|[q [kq dq]] xs].
  - rw Htl. by do 2 apply wp_ret.
  - pose proof (lseg_head _ _ _ _ _ _ _ Htl) as (pp' & nx' & -> & Hq & _).
    eapply wp_store; [done | apply (shape_live _ _ _ Hs); set_solver | done |]. apply wp_ret.
    split; [done|]. split; [done|]. split; [done|]. split; [|done].
    by apply (lseg_set_prev _ _ _ _ _ (Node pp' nx' kq dq)).
Qed.

Theorem dvz_remove_head_spec s xs :
  wf flinks s xs →
  wp linked_list_remove_head (λ r s',
    match xs with
    | [] => r = None ∧ wf flinks s' [] ∧ same_rest s s' ∧ live (sys s') = live (sys s)
            ∧ oracle (sys s') = oracle (sys s)
    | (h, (k, d)) :: xs' => r = Some (d, k) ∧ shrunk flinks s h xs' s'
    end) s.
Proof.
  intros [Hs Hfree]. rw /linked_list_remove_head. wp_steps. apply wp_lock_acquire; [done|].
  pose proof (acquired_holds _ _ Hfree) as Hh.
  pose proof (shape_acquired _ (list_lock (lst s)) _ _ Hs) as Hs1.
  destruct (acquired_frame (list_lock (lst s)) s) as (_ & Hlst & Hc & Ht & Hv & Ho).
  revert Hh Hs1 Hlst Hc Ht Hv Ho. generalize (acquired (list_lock (lst s)) s) as s1.
  intros s1 Hh Hs1 Hlst Hc Ht Hv Ho. wp_steps.
  destruct xs as [|[h [k d]] xs].
  - destruct (shape_links _ _ _ Hs1) as [Hf Hl]. simpl in Hf. rw Hf /=. wp_step.
    apply wp_release_list; [done|]. intros s' Hf' Hn' Hl' Hv' Ho' Hc' Ht'. apply wp_ret.
    split; [done|]. split; [|by rw /same_rest Hl' Hc' Ht' Hv' Ho' /= Hlst Hc Ht Hv Ho].
    split; [|by rw Hl' /= Hlst]. split; [by rw /links Hn' Hl' /= | constructor | set_solver.. |].
    by rw Hl' /= Hlst (shape_length _ _ _ Hs).
  - pose proof (shape_links _ _ _ Hs1) as [Hlinks Hlast].
    pose proof (lseg_head _ _ _ _ _ _ _ Hlinks) as (pp & nx & Hf & _).
    rw Hf /=. wp_step. eapply wp_mono; [by apply dvz_unlink_head_spec|].
    intros nd s3 (-> & -> & (Hsys & Hlen & Hk3 & Hc3 & Ht3) & Hlk3 & Hlast3). cbn beta.
    apply wp_drop. { rw Hsys. apply (shape_live _ _ _ Hs1). set_solver. }
    intros s4 Hn4 Hsys4 Hc4 Ht4 Hl4. wp_step. wp_step. wp_step.
    assert (holds (list_lock (lst s)) s4) as Hh4.
    { eapply holds_sys; [|apply holds_free_other; [exact Hh|]]; [by rw Hsys4 Hsys|].
      intros Heq. apply (shape_lock _ _ _ Hs h); [done|set_solver]. }
    rw Hl4 /=. set (fix_last := match first (lst s3) with None => set_last None | Some _ => mret () end).
    assert (fix_last s4 = Ok tt (upd_list (λ l, LList (first l) (last_loc xs) (list_lock l) (length_ l)) s4)) as Hfix.
    { rw /fix_last. destruct s4 as [? ? lst4 ? ? ?]. simpl in Hl4. subst lst4.
      destruct xs as [|[q kd] xs]; simpl in Hlk3.
      - rw Hlk3. done.
      - destruct kd as [kq dq], Hlk3 as [-> _]. rw Hlast3 Hlast. done. }
    eapply wp_Ok; [exact Hfix|]. wp_step. apply wp_release_list; [done|].
    intros s5 Hf5 Hn5 Hl5 Hv5 Ho5 Hc5 Ht5. apply wp_ret. split; [done|].
    apply (shrink_wf _ _ _ (k, d)); [done | done | | | | |].
    + by rw /same_rest Hl5 /= Hl4 /= Hk3 /= Hlst Hc5 /= Hc4 Hc3 /= Hc Ht5 /= Ht4 Ht3 /= Ht.
    + by rw Hv5 /= Hsys4 /= Hsys /= Hv.
    + by rw Ho5 /= Hsys4 /= Hsys /= Ho.
    + rw /links Hn5 Hl5 /= Hn4 Hl4. by split.
    + by rw Hl5 /= Hl4 /= Hlen /= Hlst.
Qed.
End DvzFacts.

(** ** The interface of a sorted list

    What a client of the file relies on: an insertion that places the new cell
    somewhere that keeps the keys sorted, and a removal of the first cell. *)

Class SortedList := {
  sl_links : linkage;
  sl_insert : Z → Z → M state unit;
  sl_remove_head : M state (option (Z * Z));
  sl_place : cell → list cell → list cell;
  sl_place_perm : ∀ c xs, sl_place c xs ≡ₚ c :: xs;
  sl_place_sorted : ∀ c xs, sorted_by ckey xs → sorted_by ckey (sl_place c xs);
  sl_insert_spec : ∀ s xs k d l o,
    wf sl_links s xs → oracle (sys s) = Some l :: o → l ∉ live (sys s) →
    wp (sl_insert k d) (λ _ s', grown sl_links s l o (λ xs' _, xs' = sl_place (l, (k, d)) xs) s') s;
  sl_remove_head_spec : ∀ s xs,
    wf sl_links s xs →
    wp sl_remove_head (λ r s',
      match xs with
      | [] => r = None ∧ wf sl_links s' [] ∧ same_rest s s' ∧ live (sys s') = live (sys s)
              ∧ oracle (sys s') = oracle (sys s)
      | (h, (k, d)) :: xs' => r = Some (d, k) ∧ shrunk sl_links s h xs' s'
      end) s
}.

#[export, refine] Instance proj1_sorted_list : SortedList := {|
  sl_links := dlinks;
  sl_insert := Proj1.linked_list_insert;
  sl_remove_head := Proj1.linked_list_remove_head;
  sl_place := insert_before ckey
|}.
Proof.
  - apply insert_before_perm.
  - apply insert_before_sorted.
  - apply Proj1Facts.linked_list_insert_spec.
  - apply Proj1Remove.linked_list_remove_head_spec.
Defined.

#[export, refine] Instance dvz_sorted_list : SortedList := {|
  sl_links := flinks;
  sl_insert := Dvz.linked_list_insert;
  sl_remove_head := Dvz.linked_list_remove_head;
  sl_place := insert_dvz ckey
|}.
Proof.
  - apply insert_dvz_perm.
  - apply insert_dvz_sorted.
  - intros. eapply wp_mono; [by eapply DvzFacts.dvz_insert_spec|].
    intros _ s' (xs' & [-> _] & ?). by exists (insert_dvz ckey (l, (k, d)) xs).
  - apply DvzFacts.dvz_remove_head_spec.
Defined.

(** A client that inserts [kds] and then empties the list. *)
Section client.
Context {I : SortedList}.

Fixpoint fill (kds : list (Z * Z)) : M state unit :=
  match kds with
  | [] => mret tt
  | (k, d) :: kds' => sl_insert k d;; fill kds'
  end.

Fixpoint drain (n : nat) : M state (list (Z * Z)) :=
  match n with
  | O => mret []
  | S n' =>
      r ← sl_remove_head;
      match r with
      | None => mret []
      | Some (d, k) => rest ← drain n'; mret ((k, d) :: rest)
      end
  end.

Lemma fill_spec kds ls s xs o :
  wf sl_links s xs → sorted_by ckey xs → length ls = length kds → NoDup ls →
  (∀ l, l ∈ ls → l ∉ live (sys s)) → oracle (sys s) = (Some <$> ls) ++ o →
  wp (fill kds) (λ _ s', ∃ xs', wf sl_links s' xs' ∧ sorted_by ckey xs' ∧
    contents xs' ≡ₚ kds ++ contents xs ∧ xs'.*1 ≡ₚ ls ++ xs.*1 ∧
    live (sys s') = list_to_set ls ∪ live (sys s)) s.
Proof.
  revert ls s xs. induction kds as [|[k d] kds IH]; intros [|l ls] s xs Hwf Hsort Hlen Hnd Hfresh Ho;
    try done; simpl.
  - apply wp_ret. exists xs. do 4 (split; [done|]). set_solver.
  - apply NoDup_cons in Hnd as [Hl Hnd]. wp_step.
    eapply wp_mono. { eapply sl_insert_spec; [done | exact Ho | apply Hfresh; set_solver]. }
    intros _ s1 (xs1 & -> & Hwf1 & _ & Hv1 & Ho1).
    eapply wp_mono. { eapply (IH ls); [exact Hwf1 | by apply sl_place_sorted | naive_solver | done | | done].
      intros q Hq. rw Hv1. assert (q ≠ l) by congruence. specialize (Hfresh q). set_solver. }
    intros _ s2 (xs2 & Hwf2 & Hsort2 & Hc & Hp & Hv). exists xs2. do 2 (split; [done|]).
    split; [|split].
    + rw Hc /contents sl_place_perm /=. by rw -Permutation_middle.
    + rw Hp sl_place_perm /=. by rw -Permutation_middle.
    + rw Hv Hv1 /=. set_solver.
Qed.

Lemma drain_spec s xs :
  wf sl_links s xs →
  wp (drain (length xs)) (λ r s', r = contents xs ∧ wf sl_links s' [] ∧
    live (sys s') = live (sys s) ∖ list_to_set xs.*1) s.
Proof.
  revert s. induction xs as [|[h [k d]] xs IH]; intros s Hwf; simpl.
  - apply wp_ret. split; [done|]. split; [done|]. set_solver.
  - wp_step. eapply wp_mono; [by apply sl_remove_head_spec|].
    intros r s1 (-> & Hwf1 & _ & Hv1 & _). wp_step.
    eapply wp_mono; [by apply IH|]. intros r s2 (-> & Hwf2 & Hv2). apply wp_ret.
    split; [done|]. split; [done|]. rw Hv2 Hv1. set_solver.
Qed.

Lemma fill_drain kds ls s o :
  wf sl_links s [] → length ls = length kds → NoDup ls →
  (∀ l, l ∈ ls → l ∉ live (sys s)) → oracle (sys s) = (Some <$> ls) ++ o →
  wp (fill kds;; drain (length kds)) (λ r s', r ≡ₚ kds ∧ sorted_by fst r ∧
    wf sl_links s' [] ∧ live (sys s') = live (sys s)) s.
Proof.
  intros Hwf Hlen Hnd Hfresh Ho. wp_step.
  eapply wp_mono; [eapply fill_spec; [done | by constructor | done..]|].
  intros _ s1 (xs & Hwf1 & Hsort & Hc & Hp & Hv). rw app_nil_r in Hc.
  rw -(Permutation_length Hc) /contents length_fmap.
  eapply wp_mono; [by apply drain_spec|]. intros r s2 (-> & Hwf2 & Hv2).
  split; [done|]. split; [|split; [done|]].
  - rw /sorted_by /contents. clear -Hsort.
    induction Hsort as [|x xs Hs IH Hhd]; simpl; constructor; [done|].
    destruct Hhd; constructor; done.
  - rw Hv2 Hv Hp app_nil_r. apply set_eq. intros q. specialize (Hfresh q). set_solver.
Qed.
End client.
