(* ===== verification/LinkedListThms.v ===== *)
(** * What the linked lists guarantee

    The theorems about kern/concurrent_list/linked_list.c, with concrete lists
    they apply to. *)

From stdpp Require Import base tactics list gmap option numbers sorting ssreflect.
From S2P Require Import Prelude Kern LinkedList LinkedListOps.

(** ** The list theorems *)

(** C13: [linked_list_insert] of os161-vud-proj1-proj2, run on a well-formed
    sorted doubly linked list when memory is left, returns (its loop ends, no
    assertion or pointer faults, the lock is free again), and the list is again
    well formed in both directions, sorted, of the recorded length, and holds
    the old cells, unmoved, and the new one; no other block is allocated. *)
Theorem proj1_insert_keeps_sorted_dlist s xs k d l o :
  wf dlinks s xs → sorted_by ckey xs → oracle (sys s) = Some l :: o → l ∉ live (sys s) →
  wp (Proj1.linked_list_insert k d) (λ _ s', ∃ xs', wf dlinks s' xs' ∧ sorted_by ckey xs' ∧
    xs' ≡ₚ (l, (k, d)) :: xs ∧ same_rest s s' ∧ live (sys s') = {[l]} ∪ live (sys s)) s.
Proof.
  intros Hwf Hsort Ho Hl. eapply wp_mono; [by eapply Proj1Facts.linked_list_insert_spec|].
  intros _ s' (xs' & -> & Hwf' & Hr & Hv & _). eexists. split; [exact Hwf'|].
  split; [by apply insert_before_sorted|]. split; [apply insert_before_perm|done].
Qed.

(** C39: through the [SortedList] interface, and so for both versions of the
    file: with memory for all of them, inserting any keys into an empty list and
    removing the head as many times returns exactly the inserted pairs in key
    order, leaves an empty well-formed list, and frees every node (no block
    leaks). *)
Theorem list_fill_drain_sorts {I : SortedList} kds ls s o :
  wf sl_links s [] → length ls = length kds → NoDup ls →
  (∀ l, l ∈ ls → l ∉ live (sys s)) → oracle (sys s) = (Some <$> ls) ++ o →
  wp (fill kds;; drain (length kds)) (λ r s', r ≡ₚ kds ∧ sorted_by fst r ∧
    wf sl_links s' [] ∧ live (sys s') = live (sys s)) s.
Proof. intros. by eapply fill_drain. Qed.

(** C14: [linked_list_insert] of os161-dvz-main, run with memory left on a
    well-formed doubly linked list whose first key is below the new key and
    which holds some greater key, leaves a chain of [next] pointers in the right
    order that is not a doubly linked list: the successor of the new node still
    points back past it. *)
Theorem dvz_insert_breaks_back_links s q0 xs k d l o :
  wf dlinks s (q0 :: xs) → (ckey q0 < k)%Z → Exists (λ c, k < ckey c)%Z xs →
  oracle (sys s) = Some l :: o → l ∉ live (sys s) →
  wp (Dvz.linked_list_insert k d) (λ _ s', let xs' := insert_dvz ckey (l, (k, d)) (q0 :: xs) in
    links flinks s' xs' ∧ ¬ links dlinks s' xs') s.
Proof.
  intros Hwf Hk0 Hex Ho Hl.
  assert (wf flinks s (q0 :: xs)) as Hwf'.
  { destruct Hwf as [[Hlk ? ? ? ?] ?]. split; [|done]. split; [|done..]. by apply dlinks_flinks. }
  eapply wp_mono; [by eapply DvzFacts.dvz_insert_spec|].
  intros _ s' (xs' & [-> Hkeep] & [Hs' _] & _ & Hv & _). split; [apply Hs'|]. intros Hd.
  rw /links /= bool_decide_eq_false_2 in Hd; [|rw /ckey /= in Hk0 |- *; lia].
  destruct (insert_after_gap ckey (l, (k, d)) xs) as (xs1 & [r kd] & xs2 & -> & Hins); [done|].
  rw Hins in Hd. destruct Hwf as [[Hlk Hnd Hlive _ _] _]. destruct q0 as [q0 [k0 d0]], kd as [kr dr].
  assert (r ≠ q0 ∧ r ≠ l) as [Hr0 Hrl].
  { cbn in Hnd. rw fmap_app fmap_cons in Hnd. apply NoDup_cons in Hnd as [Hn _]. split; [set_solver|].
    intros ->. apply Hl, Hlive. cbn. rw fmap_app fmap_cons. set_solver. }
  pose proof Hlk as Hlk0. simpl in Hlk0. destruct Hlk0 as (_ & nx & _ & (m & mn & H1 & H2)%dseg_app).
  pose proof (dseg_head _ _ _ _ _ _ _ _ _ H2) as (nr & _ & Hr & _).
  simpl in Hd. destruct Hd as (_ & nx' & _ & (m' & mn' & _ & H2')%dseg_app).
  destruct (dseg_head _ _ _ _ _ _ _ _ _ H2') as (nl & _ & _ & H3').
  pose proof (dseg_head _ _ _ _ _ _ _ _ _ H3') as (nr' & _ & Hr' & _).
  assert (prev <$> nodes s' !! r = prev <$> nodes s !! r) as Hprev.
  { apply Hkeep. rw /DvzFacts.ends /=. set_solver. }
  rw Hr Hr' /= in Hprev. injection Hprev as Hm.
  apply dseg_last in H1. rw -Hm in H1. apply Hl, Hlive. clear -H1.
  destruct xs1 as [|[? ?] ? _] using rev_ind; simpl in H1; [set_solver|].
  rw last_loc_snoc in H1. simplify_eq. cbn. rw fmap_app fmap_app. set_solver.
Qed.

(** ** Concrete lists *)

(** A list with its lock (block 2) and the cells [xs] in the blocks given. *)
Definition example_state (xs : list (loc * node)) (f q : ptr) (o : list ptr) : state := State
  (Base ({[1; 2; 3; 4]}%positive ∪ list_to_set xs.*1) o {[2%positive := Lockst 3 4 None]} 100)
  (list_to_map xs) (LList f q (Some 2%positive) (Z.of_nat (length xs))) ∅ 0 [].

Definition two_cells : list (loc * node) :=
  [(10%positive, Node None (Some 11%positive) 1 70); (11%positive, Node (Some 10%positive) None 5 71)].

Lemma example_free xs f q o : lock_free (Some 2%positive) (example_state xs f q o).
Proof. exists 2%positive, (Lockst 3 4 None). split; [done|]. split; [|done]. cbn. set_solver. Qed.

Lemma wf_empty_example L o : links L (example_state [] None None o) [] → wf L (example_state [] None None o) [].
Proof.
  split; [|apply example_free]. split; [done | constructor | | | done]; intros l; set_solver.
Qed.

Lemma wf_two_cells o :
  wf dlinks (example_state two_cells (Some 10%positive) (Some 11%positive) o)
    [(10%positive, (1, 70)%Z); (11%positive, (5, 71)%Z)].
Proof.
  split; [|apply example_free]. split.
  - split; [done|]. exists (Some 11%positive). split; [done|]. split; [done|]. by exists None.
  - by_decide.
  - intros l. cbn. set_solver.
  - intros l [= <-]. by_decide.
  - done.
Qed.

Lemma proj1_insert_keeps_sorted_dlist_witness :
  ∃ s, wp (Proj1.linked_list_insert 3 99) (λ _ s', ∃ xs', wf dlinks s' xs' ∧ sorted_by ckey xs' ∧
    xs' ≡ₚ [(12%positive, (3, 99)%Z); (10%positive, (1, 70)%Z); (11%positive, (5, 71)%Z)] ∧
    same_rest s s' ∧ live (sys s') = {[12%positive]} ∪ live (sys s)) s.
Proof.
  exists (example_state two_cells (Some 10%positive) (Some 11%positive) [Some 12%positive]).
  eapply proj1_insert_keeps_sorted_dlist; [apply wf_two_cells | | done | by_decide].
  repeat constructor. done.
Defined.

Lemma list_fill_drain_sorts_witness :
  ∃ s, wp (fill (I := proj1_sorted_list) [(3, 7); (1, 8)]%Z;; drain (I := proj1_sorted_list) 2)
    (λ r s', r ≡ₚ [(3, 7); (1, 8)]%Z ∧ sorted_by fst r ∧ wf dlinks s' [] ∧
       live (sys s') = live (sys s)) s ∧
    wp (fill (I := dvz_sorted_list) [(3, 7); (1, 8)]%Z;; drain (I := dvz_sorted_list) 2)
    (λ r s', r ≡ₚ [(3, 7); (1, 8)]%Z ∧ sorted_by fst r ∧ wf flinks s' [] ∧
       live (sys s') = live (sys s)) s.
Proof.
  exists (example_state [] None None [Some 12%positive; Some 13%positive]).
  split.
  - apply (list_fill_drain_sorts (I := proj1_sorted_list) [(3, 7); (1, 8)]%Z
      [12%positive; 13%positive] _ []); [by apply wf_empty_example | done | by_decide | | done].
    intros l; rw !elem_of_cons elem_of_nil; intros [->|[->|[]]]; by_decide.
  - apply (list_fill_drain_sorts (I := dvz_sorted_list) [(3, 7); (1, 8)]%Z
      [12%positive; 13%positive] _ []); [by apply wf_empty_example | done | by_decide | | done].
    intros l; rw !elem_of_cons elem_of_nil; intros [->|[->|[]]]; by_decide.
Defined.

Lemma dvz_insert_breaks_back_links_witness :
  let s := example_state two_cells (Some 10%positive) (Some 11%positive) [Some 12%positive] in
  wp (Dvz.linked_list_insert 3 99) (λ _ s',
    let xs' := insert_dvz ckey (12%positive, (3, 99)%Z)
      [(10%positive, (1, 70)%Z); (11%positive, (5, 71)%Z)] in
    links flinks s' xs' ∧ ¬ links dlinks s' xs') s.
Proof.
  apply (dvz_insert_breaks_back_links (example_state two_cells (Some 10%positive)
    (Some 11%positive) [Some 12%positive]) (10%positive, (1, 70)%Z)
    [(11%positive, (5, 71)%Z)] 3 99 12%positive []);
    [apply wf_two_cells | done | | done | by_decide].
  by repeat constructor.
Defined.
