(* ===== verification/Bitmap.v ===== *)
(** * The bitmaps of kern/lib/bitmap.c

    A bitmap is a block of bytes; bits past [nbits] in the last byte are kept
    set so that [bitmap_alloc] never hands them out.  The theorems state each
    operation on the set of its bits. *)

From stdpp Require Import base tactics list gmap option numbers ssreflect.
From S2P Require Import Prelude Kern.

Open Scope Z_scope.

(** ** Data and state *)

(** [struct bitmap]. *)
Record bitmap := Bitmap { nbits : Z; v : loc }.

Record state := State {
  sys : base;
  maps : gmap loc bitmap;
  bytes : gmap loc (list Z)      (* the [WORD_TYPE] arrays *)
}.

#[export, refine] Instance state_base : HasBase state := {|
  base_of := sys;
  with_base b s := State b (maps s) (bytes s)
|}.
Proof. all: intros; by repeat destruct select state. Defined.

Definition BITS_PER_WORD : Z := 8.
Definition WORD_ALLBITS : Z := 255.

(** [DIVROUNDUP(a, b)] of lib.h on unsigned operands. *)
Definition DIVROUNDUP (a b : Z) : Z := u32 (u32 (a + b) - 1) / b.

(** [((WORD_TYPE)1) << offset], stored in a [WORD_TYPE]. *)
Definition bitmask (offset : Z) : Z := Z.land (Z.shiftl 1 offset) 255.

Definition set_maps (f : gmap loc bitmap → gmap loc bitmap) s := State (sys s) (f (maps s)) (bytes s).
Definition set_bytes (f : gmap loc (list Z) → gmap loc (list Z)) s := State (sys s) (maps s) (f (bytes s)).

(** [*b] *)
Definition load (b : loc) : M state bitmap :=
  deref (λ s, if is_live b s then maps s !! b else None).

(** [b->v[ix]], as a value and as the target of an assignment; outside the
    array it is a fault. *)
Definition word (p : loc) (ix : Z) : M state Z :=
  deref (λ s, if is_live p s then ws ← bytes s !! p; ws !! Z.to_nat ix else None).

Definition set_word (p : loc) (ix w : Z) : M state unit :=
  word p ix;; modify (set_bytes (alter <[Z.to_nat ix := w]> p)).

(** ** Operations *)

Definition bitmap_create (nb : Z) : M state ptr :=
  let words := DIVROUNDUP nb BITS_PER_WORD in
  b ← kmalloc;
  match b with
  | None => mret None
  | Some bl =>
      vp ← kmalloc;
      match vp with
      | None => kfree b;; mret None
      | Some vl =>
          modify (set_bytes <[vl := replicate (Z.to_nat words) 0]>);;     (* bzero *)
          modify (set_maps <[bl := Bitmap nb vl]>);;
          (if bool_decide (words > nb / BITS_PER_WORD) then
             let ix := u32 (words - 1) in
             let overbits := u32 (nb - u32 (ix * BITS_PER_WORD)) in
             kassert (bool_decide (nb / BITS_PER_WORD = words - 1));;
             kassert (bool_decide (0 < overbits ∧ overbits < BITS_PER_WORD));;
             for_up (Z.to_nat overbits) (Z.to_nat (BITS_PER_WORD - overbits)) (λ j,
               w ← word vl ix;
               set_word vl ix (Z.lor w (bitmask (Z.of_nat j)));;
               mret (@None unit));;
             mret tt
           else mret tt);;
          mret (Some bl)
      end
  end.

Definition bitmap_getdata (b : loc) : M state ptr :=
  m ← load b; mret (Some (v m)).

(** The scan of one byte, and of the bytes: [inr index] or [inl ENOSPC]. *)
Definition alloc_in_word (m : bitmap) (ix : Z) (offset : nat) : M state (option Z) :=
  let mask := bitmask (Z.of_nat offset) in
  w ← word (v m) ix;
  if bool_decide (Z.land w mask = 0) then
    set_word (v m) ix (Z.lor w mask);;
    let index := u32 (u32 (ix * BITS_PER_WORD) + Z.of_nat offset) in
    kassert (bool_decide (index < nbits m));;
    mret (Some index)
  else mret None.

Definition bitmap_alloc (b : loc) : M state (Z + Z) :=
  m ← load b;
  let maxix := DIVROUNDUP (nbits m) BITS_PER_WORD in
  r ← for_up 0 (Z.to_nat maxix) (λ ix,
    w ← word (v m) (Z.of_nat ix);
    if bool_decide (w ≠ WORD_ALLBITS) then
      r ← for_up 0 (Z.to_nat BITS_PER_WORD) (alloc_in_word m (Z.of_nat ix));
      match r with
      | Some index => mret (Some index)
      | None => stops Panic                     (* KASSERT(0) *)
      end
    else mret None);
  match r with
  | Some index => mret (inr index)
  | None => mret (inl ENOSPC)
  end.

Definition bitmap_translate (bitno : Z) : Z * Z :=
  (bitno / BITS_PER_WORD, bitmask (bitno mod BITS_PER_WORD)).

Definition bitmap_mark (b : loc) (index : Z) : M state unit :=
  m ← load b;
  kassert (bool_decide (index < nbits m));;
  let '(ix, mask) := bitmap_translate index in
  w ← word (v m) ix;
  kassert (bool_decide (Z.land w mask = 0));;
  set_word (v m) ix (Z.lor w mask).

Definition bitmap_unmark (b : loc) (index : Z) : M state unit :=
  m ← load b;
  kassert (bool_decide (index < nbits m));;
  let '(ix, mask) := bitmap_translate index in
  w ← word (v m) ix;
  kassert (bool_decide (Z.land w mask ≠ 0));;
  set_word (v m) ix (Z.land (Z.land w (Z.lnot mask)) 255).

Definition bitmap_isset (b : loc) (index : Z) : M state Z :=
  m ← load b;
  let '(ix, mask) := bitmap_translate index in
  w ← word (v m) ix;
  mret (Z.land w mask).

Definition bitmap_destroy (b : loc) : M state unit :=
  m ← load b;
  kfree (Some (v m));;
  kfree (Some b).

(** ** Bits of bytes *)

Definition byte (w : Z) : Prop := 0 ≤ w < 256.

Definition bit (ws : list Z) (i : Z) : bool :=
  match ws !! Z.to_nat (i / 8) with Some w => Z.testbit w (i mod 8) | None => false end.

Lemma bitmask_spec o : 0 ≤ o < 8 → bitmask o = 2 ^ o.
Proof.
  intros Ho. rw /bitmask Z.shiftl_1_l. change 255 with (Z.ones 8). rw Z.land_ones; [|lia].
  apply Z.mod_small. split; [lia|]. apply Z.pow_lt_mono_r; lia.
Qed.

Lemma bitmask_testbit o i : 0 ≤ o < 8 → 0 ≤ i → Z.testbit (bitmask o) i = bool_decide (o = i).
Proof. intros Ho Hi. rw bitmask_spec //. rw Z.pow2_bits_eqb; [|lia]. by case_bool_decide; lia. Qed.

Lemma land_mask w o : 0 ≤ o < 8 → Z.land w (bitmask o) = 0 ↔ Z.testbit w o = false.
Proof.
  intros Ho. split.
  - intros H. apply (f_equal (λ z, Z.testbit z o)) in H. rw Z.land_spec bitmask_testbit // in H; [|lia].
    rw Z.bits_0 bool_decide_eq_true_2 // andb_true_r in H. done.
  - intros H. apply Z.bits_inj'. intros i Hi. rw Z.land_spec bitmask_testbit // Z.bits_0.
    case_bool_decide; [subst; by rw H | apply andb_false_r].
Qed.

Lemma byte_bits w i : byte w → 8 ≤ i → Z.testbit w i = false.
Proof.
  intros Hw Hi. destruct (decide (w = 0)) as [->|]; [apply Z.bits_0|]. rw /byte in Hw.
  apply Z.bits_above_log2; [lia|]. apply Z.log2_lt_pow2; [lia|].
  apply (Z.lt_le_trans _ (2 ^ 8)); [lia|]. apply Z.pow_le_mono_r; lia.
Qed.

Lemma bits_byte w : 0 ≤ w → (∀ i, 8 ≤ i → Z.testbit w i = false) → byte w.
Proof.
  intros Hw Hb. rw /byte. split; [done|]. destruct (decide (w = 0)) as [->|Hne]; [lia|].
  change 256 with (2 ^ 8). apply Z.log2_lt_pow2; [lia|]. apply Z.nle_gt. intros Hle.
  specialize (Hb _ Hle). by rw Z.bit_log2 in Hb; [|lia].
Qed.

Lemma byte_lor w o : byte w → 0 ≤ o < 8 → byte (Z.lor w (bitmask o)).
Proof.
  intros Hw Ho. apply bits_byte.
  - apply Z.lor_nonneg. split; [apply Hw|]. rw bitmask_spec //. lia.
  - intros i Hi. rw Z.lor_spec byte_bits // bitmask_testbit //; [|lia].
    by rw bool_decide_eq_false_2; [|lia].
Qed.

Lemma clear_testbit w o i : byte w → 0 ≤ o < 8 → 0 ≤ i →
  Z.testbit (Z.land (Z.land w (Z.lnot (bitmask o))) 255) i = Z.testbit w i && bool_decide (o ≠ i).
Proof.
  intros Hw Ho Hi. rw !Z.land_spec Z.lnot_spec // bitmask_testbit //.
  change 255 with (Z.ones 8). destruct (decide (i < 8)) as [Hlt|Hge].
  - rw Z.ones_spec_low; [|lia]. rw andb_true_r. repeat case_bool_decide; done.
  - rw byte_bits //. lia.
Qed.

Lemma byte_clear w o : byte w → 0 ≤ o < 8 → byte (Z.land (Z.land w (Z.lnot (bitmask o))) 255).
Proof.
  intros Hw Ho. apply bits_byte; [apply Z.land_nonneg; by right|].
  intros i Hi. rw clear_testbit //; [|lia]. by rw byte_bits.
Qed.

Lemma byte_full w : byte w → (∀ i, 0 ≤ i < 8 → Z.testbit w i = true) → w = 255.
Proof.
  intros Hw Hb. apply Z.bits_inj'. intros i Hi. change 255 with (Z.ones 8).
  destruct (decide (i < 8)) as [Hlt|Hge].
  - rw Z.ones_spec_low; [|lia]. apply Hb. lia.
  - rw Z.ones_spec_high; [|lia]. apply byte_bits; [done|lia].
Qed.

(** Replacing one byte changes the bits of that byte only. *)
Lemma bit_insert ws ix w' i :
  0 ≤ ix → (Z.to_nat ix < length ws)%nat → 0 ≤ i →
  bit (<[Z.to_nat ix := w']> ws) i =
    if bool_decide (i / 8 = ix) then Z.testbit w' (i mod 8) else bit ws i.
Proof.
  intros Hx Hlen Hi. rw /bit. case_bool_decide as H.
  - subst. rw list_lookup_insert_eq; done.
  - rw list_lookup_insert_ne //. zlia.
Qed.

(** ** Well-formed bitmaps *)

Record repr (s : state) (b : loc) (m : bitmap) (ws : list Z) : Prop := {
  repr_live : b ∈ live (sys s);
  repr_map : maps s !! b = Some m;
  repr_vlive : v m ∈ live (sys s);
  repr_words : bytes s !! v m = Some ws;
  repr_nbits : 0 ≤ nbits m ≤ 2 ^ 32 - 8;
  repr_length : length ws = Z.to_nat ((nbits m + 7) / 8);
  repr_bytes : Forall byte ws;
  repr_rest : ∀ i, nbits m ≤ i < 8 * Z.of_nat (length ws) → bit ws i = true
}.

Lemma DIVROUNDUP_spec n : 0 ≤ n ≤ 2 ^ 32 - 8 → DIVROUNDUP n BITS_PER_WORD = (n + 7) / 8.
Proof.
  intros Hn. rw /DIVROUNDUP /BITS_PER_WORD /u32 Zminus_mod_idemp_l Z.mod_small; [f_equal; lia | lia].
Qed.

Section ops.
Context (s : state) (b : loc) (m : bitmap) (ws : list Z) (Hr : repr s b m ws).

Lemma wp_load_map Q : Q m s → wp (load b) Q s.
Proof.
  intros HQ. eapply wp_deref; [|done].
  assert (is_live b s = true) as -> by (by apply is_live_true, Hr). apply Hr.
Qed.

Lemma wp_word ix w Q : ws !! Z.to_nat ix = Some w → Q w s → wp (word (v m) ix) Q s.
Proof.
  intros Hw HQ. eapply wp_deref; [|done].
  assert (is_live (v m) s = true) as -> by (by apply is_live_true, Hr).
  by rw (repr_words _ _ _ _ Hr).
Qed.

Lemma wp_set_word ix w w' (Q : unit → state → Prop) :
  ws !! Z.to_nat ix = Some w → Q tt (set_bytes (alter <[Z.to_nat ix := w']> (v m)) s) →
  wp (set_word (v m) ix w') Q s.
Proof. intros Hw HQ. rw /set_word. wp_step. by eapply wp_word. Qed.

Lemma repr_set ix w' :
  byte w' → (Z.to_nat ix < length ws)%nat →
  (∀ i, nbits m ≤ i < 8 * Z.of_nat (length ws) → bit (<[Z.to_nat ix := w']> ws) i = true) →
  repr (set_bytes (alter <[Z.to_nat ix := w']> (v m)) s) b m (<[Z.to_nat ix := w']> ws).
Proof.
  destruct Hr as [? ? ? Hws ? Hlen Hb Hrest]. intros Hw' Hix Hr'. split; try done.
  - by rw /= lookup_alter_eq Hws.
  - by rw length_insert.
  - by apply Forall_insert.
  - rw length_insert. done.
Qed.

(** A bit below [nbits] lives in a word of the array. *)
Lemma bit_word i : 0 ≤ i < nbits m → ∃ w, ws !! Z.to_nat (i / 8) = Some w ∧ byte w ∧
  bit ws i = Z.testbit w (i mod 8) ∧ (Z.to_nat (i / 8) < length ws)%nat.
Proof.
  destruct Hr as [_ _ _ _ Hn Hlen Hb _]. intros Hi.
  assert (Z.to_nat (i / 8) < length ws)%nat as Hlt by (rw Hlen; zlia).
  destruct (lookup_lt_is_Some_2 ws _ Hlt) as [w Hw]. exists w. split; [done|].
  split; [by eapply Forall_lookup_1|]. split; [|done]. by rw /bit Hw.
Qed.

(** The state after bit [i] has been set. *)
Definition with_bit (i : Z) (w : Z) : state :=
  set_bytes (alter <[Z.to_nat (i / 8) := Z.lor w (bitmask (i mod 8))]> (v m)) s.

Lemma with_bit_repr i w :
  0 ≤ i < nbits m → ws !! Z.to_nat (i / 8) = Some w →
  ∃ ws', repr (with_bit i w) b m ws' ∧ ∀ j, 0 ≤ j → bit ws' j = bool_decide (i = j) || bit ws j.
Proof.
  intros Hi Hw. destruct (bit_word i Hi) as (w' & Hw' & Hby & _ & Hlt). simplify_eq.
  assert (∀ j, 0 ≤ j → bit (<[Z.to_nat (i / 8) := Z.lor w (bitmask (i mod 8))]> ws) j =
    bool_decide (i = j) || bit ws j) as Hbits.
  { intros j Hj. rw bit_insert //; [|zlia]. case_bool_decide as Hq.
    - rw Z.lor_spec bitmask_testbit; [|zlia..]. rw /bit Hq Hw orb_comm. f_equal.
      apply bool_decide_ext. zlia.
    - by rw (bool_decide_eq_false_2 (i = j)); [|intros ->]. }
  eexists. split; [|exact Hbits]. apply repr_set; [apply byte_lor; [done|zlia] | done |].
  intros j Hj. rw Hbits; [|lia]. rw (repr_rest _ _ _ _ Hr) //. apply orb_true_r.
Qed.
End ops.

(** ** The operations *)

Lemma translate_eq i : 0 ≤ i → bitmap_translate i = (i / 8, bitmask (i mod 8)).
Proof. done. Qed.

Lemma isset_spec s b m ws i :
  repr s b m ws → 0 ≤ i < nbits m →
  wp (bitmap_isset b i) (λ r s', s' = s ∧ bool_decide (r ≠ 0) = bit ws i) s.
Proof.
  intros Hr Hi. destruct (bit_word _ _ _ _ Hr i Hi) as (w & Hw & _ & Hbit & _).
  rw /bitmap_isset. wp_step. eapply wp_load_map; [done|]. cbn beta. rw translate_eq; [|lia].
  wp_step. eapply wp_word; [done..|]. apply wp_ret. split; [done|].
  pose proof (land_mask w (i mod 8) ltac:(zlia)). rw Hbit.
  destruct (Z.testbit w (i mod 8)); [apply bool_decide_eq_true_2|apply bool_decide_eq_false_2]; naive_solver.
Qed.

Lemma mark_spec s b m ws i :
  repr s b m ws → 0 ≤ i < nbits m → bit ws i = false →
  ∃ w, ws !! Z.to_nat (i / 8) = Some w ∧ bitmap_mark b i s = Ok tt (with_bit s m i w).
Proof.
  intros Hr Hi Hc. destruct (bit_word _ _ _ _ Hr i Hi) as (w & Hw & _ & Hbit & _).
  exists w. split; [done|]. cut (wp (bitmap_mark b i) (λ _ s', s' = with_bit s m i w) s).
  { by intros ([] & s' & -> & ->)%wp_eq. }
  rw /bitmap_mark. wp_step. eapply wp_load_map; [done|]. wp_step. apply wp_kassert.
  { apply bool_decide_eq_true_2. lia. }
  rw translate_eq; [|lia]. wp_step. eapply wp_word; [done..|]. wp_step. apply wp_kassert.
  { apply bool_decide_eq_true_2, land_mask; [zlia|]. by rw -Hbit. }
  by eapply wp_set_word.
Qed.

(** Clearing a set bit. *)
Lemma unmark_spec s b m ws i :
  repr s b m ws → 0 ≤ i < nbits m → bit ws i = true →
  wp (bitmap_unmark b i) (λ _ s', ∃ ws', repr s' b m ws' ∧ sys s' = sys s ∧ maps s' = maps s ∧
    ∀ j, 0 ≤ j → bit ws' j = negb (bool_decide (i = j)) && bit ws j) s.
Proof.
  intros Hr Hi Hc. destruct (bit_word _ _ _ _ Hr i Hi) as (w & Hw & Hby & Hbit & Hlt).
  rw /bitmap_unmark. wp_step. eapply wp_load_map; [done|]. wp_step. apply wp_kassert.
  { apply bool_decide_eq_true_2. lia. }
  rw translate_eq; [|lia]. wp_step. eapply wp_word; [done..|]. wp_step. apply wp_kassert.
  { apply bool_decide_eq_true_2. intros H%land_mask; [|zlia]. congruence. }
  eapply wp_set_word; [done..|].
  assert (∀ j, 0 ≤ j → bit (<[Z.to_nat (i / 8) := Z.land (Z.land w (Z.lnot (bitmask (i mod 8)))) 255]> ws) j =
    negb (bool_decide (i = j)) && bit ws j) as Hbits.
  { intros j Hj. rw bit_insert //; [|zlia]. case_bool_decide as Hq.
    - rw clear_testbit //; [|zlia..]. rw /bit Hq Hw andb_comm -bool_decide_not. f_equal.
      apply bool_decide_ext. zlia.
    - by rw (bool_decide_eq_false_2 (i = j)); [|intros ->]. }
  eexists. split; [|done].
  apply repr_set; [done | apply byte_clear; [done|zlia] | done |].
  intros j Hj. rw Hbits; [|lia]. rw (repr_rest _ _ _ _ Hr) // bool_decide_eq_false_2 //. lia.
Qed.

(** Clearing the bit just set gives back the byte. *)
Lemma lor_clear w o : byte w → 0 ≤ o < 8 → Z.testbit w o = false →
  Z.land (Z.land (Z.lor w (bitmask o)) (Z.lnot (bitmask o))) 255 = w.
Proof.
  intros Hw Ho Hc. apply Z.bits_inj'. intros i Hi.
  rw clear_testbit //; [|by apply byte_lor]. rw Z.lor_spec bitmask_testbit //.
  case_bool_decide; case_bool_decide; subst; simplify_eq; rw ?orb_true_r ?orb_false_r ?andb_true_r ?andb_false_r //.
Qed.

Lemma unmark_with_bit s b m ws i w :
  repr s b m ws → 0 ≤ i < nbits m → bit ws i = false → ws !! Z.to_nat (i / 8) = Some w →
  bitmap_unmark b i (with_bit s m i w) = Ok tt s.
Proof.
  intros Hr Hi Hc Hw. destruct (bit_word _ _ _ _ Hr i Hi) as (w' & Hw' & Hby & Hbit & Hlt).
  simplify_eq. destruct (with_bit_repr _ _ _ _ Hr i w Hi Hw) as (ws' & Hr' & Hbits).
  destruct (bit_word _ _ _ _ Hr' i Hi) as (w' & Hw2 & Hby' & Hbit' & _).
  assert (ws' = <[Z.to_nat (i / 8) := Z.lor w (bitmask (i mod 8))]> ws) as Hws'.
  { pose proof (repr_words _ _ _ _ Hr') as H. rw /= lookup_alter_eq (repr_words _ _ _ _ Hr) in H.
    by injection H. }
  assert (w' = Z.lor w (bitmask (i mod 8))) as ->.
  { rw Hws' list_lookup_insert_eq // in Hw2. by injection Hw2. }
  cut (wp (bitmap_unmark b i) (λ _ s', s' = s) (with_bit s m i w)).
  { by intros ([] & s' & -> & ->)%wp_eq. }
  rw /bitmap_unmark. wp_step. eapply wp_load_map; [done|]. wp_step. apply wp_kassert.
  { apply bool_decide_eq_true_2. lia. }
  rw translate_eq; [|lia]. wp_step. eapply wp_word; [done..|]. wp_step. apply wp_kassert.
  { apply bool_decide_eq_true_2. rw land_mask; [|zlia]. rw -Hbit' Hbits; [|lia].
    by rw bool_decide_eq_true_2. }
  eapply wp_set_word; [done..|]. rw lor_clear //; [|zlia|by rw -Hbit].
  destruct s as [sy mp by_]. rw /with_bit /set_bytes /=. f_equal.
  pose proof (repr_words _ _ _ _ Hr) as Hrw. simpl in Hrw. apply map_eq. intros p.
  destruct (decide (p = v m)) as [->|Hne].
  - rw !lookup_alter_eq Hrw /= list_insert_insert_eq list_insert_id //.
  - rw !lookup_alter_ne //.
Qed.

(** [i] is the lowest clear bit and [s'] has it set. *)
Definition allocates (s : state) (m : bitmap) (ws : list Z) (i : Z) (s' : state) : Prop :=
  0 ≤ i < nbits m ∧ bit ws i = false ∧ (∀ j, 0 ≤ j < i → bit ws j = true) ∧
  ∃ w, ws !! Z.to_nat (i / 8) = Some w ∧ s' = with_bit s m i w.

Lemma alloc_in_word_spec s b m ws ix w :
  repr s b m ws → ws !! ix = Some w → w ≠ 255 →
  (∀ j, 0 ≤ j < 8 * Z.of_nat ix → bit ws j = true) →
  wp (for_up 0 (Z.to_nat BITS_PER_WORD) (alloc_in_word m (Z.of_nat ix)))
     (λ r s', match r with Some i => allocates s m ws i s' | None => False end) s.
Proof.
  intros Hr Hw Hne Hlow. pose proof (Forall_lookup_1 _ _ _ _ (repr_bytes _ _ _ _ Hr) Hw) as Hby.
  pose proof (lookup_lt_Some _ _ _ Hw) as Hlt. rw (repr_length _ _ _ _ Hr) in Hlt.
  pose proof (repr_nbits _ _ _ _ Hr) as Hn.
  apply (wp_for_up (λ off s', s' = s ∧ ∀ j, 0 ≤ j < Z.of_nat off → Z.testbit w j = true)).
  - split; [done|]. lia.
  - intros off s' Hoff [-> Hset]. change (Z.to_nat BITS_PER_WORD) with 8%nat in Hoff.
    rw /alloc_in_word. wp_step. eapply wp_word; [done | by rw Nat2Z.id |].
    cbn beta. case_bool_decide as Hc.
    + apply land_mask in Hc; [|lia]. set (i := 8 * Z.of_nat ix + Z.of_nat off).
      assert (i / 8 = Z.of_nat ix ∧ i mod 8 = Z.of_nat off) as [Hq Hm] by zlia.
      assert (bit ws i = false) as Hbit by (by rw /bit Hq Hm Nat2Z.id Hw).
      assert (i < nbits m) as Hin.
      { destruct (decide (i < nbits m)) as [|Hge]; [done|]. exfalso.
        pose proof (repr_rest _ _ _ _ Hr i) as Hrest. rw Hbit in Hrest. discriminate Hrest.
        rw (repr_length _ _ _ _ Hr). zlia. }
      assert (u32 (u32 (Z.of_nat ix * BITS_PER_WORD) + Z.of_nat off) = i) as Hidx.
      { rw /BITS_PER_WORD (u32_small (Z.of_nat ix * 8)); [|zlia]. rw u32_small; zlia. }
      wp_step. eapply wp_set_word; [done | by rw Nat2Z.id |]. wp_step. rw Hidx. apply wp_kassert.
      { by apply bool_decide_eq_true_2. }
      apply wp_ret. split; [lia|]. split; [done|]. split.
      * intros j Hj. destruct (decide (j < 8 * Z.of_nat ix)); [apply Hlow; lia|].
        rw /bit. assert (j / 8 = Z.of_nat ix) as -> by zlia. rw Nat2Z.id Hw. apply Hset. zlia.
      * exists w. by rw /with_bit Hq Hm Nat2Z.id.
    + apply wp_ret. split; [done|]. intros j Hj. destruct (decide (j = Z.of_nat off)) as [->|].
      * apply not_false_iff_true. intros ?. by apply Hc, land_mask; [lia|].
      * apply Hset. lia.
  - intros s' [-> Hset]. apply Hne, byte_full; [done|]. exact Hset.
Qed.

Lemma alloc_spec s b m ws :
  repr s b m ws →
  wp (bitmap_alloc b) (λ r s', match r with
    | inl e => e = ENOSPC ∧ s' = s ∧ ∀ i, 0 ≤ i < nbits m → bit ws i = true
    | inr i => allocates s m ws i s'
    end) s.
Proof.
  intros Hr. rw /bitmap_alloc. wp_step. eapply wp_load_map; [done|]. cbn beta.
  pose proof (repr_nbits _ _ _ _ Hr) as Hn. rw DIVROUNDUP_spec // -(repr_length _ _ _ _ Hr). wp_step.
  apply (wp_for_up (λ ix s', s' = s ∧ ∀ j, 0 ≤ j < 8 * Z.of_nat ix → bit ws j = true)).
  - split; [done|]. lia.
  - intros ix s' Hix [-> Hlow]. destruct (lookup_lt_is_Some_2 ws ix) as [w Hw]; [lia|].
    wp_step. eapply wp_word; [done | by rw Nat2Z.id |]. cbn beta.
    case_bool_decide as Hc.
    + wp_step. eapply wp_mono; [by eapply alloc_in_word_spec|].
      intros [i|] s' H; [|done]. by do 2 apply wp_ret.
    + apply wp_ret. split; [done|]. intros j Hj.
      destruct (decide (j < 8 * Z.of_nat ix)); [apply Hlow; lia|]. rw /bit.
      assert (j / 8 = Z.of_nat ix) as -> by zlia. rw Nat2Z.id Hw Hc.
      change WORD_ALLBITS with (Z.ones 8). apply Z.ones_spec_low. zlia.
  - intros s' [-> Hall]. apply wp_ret. split; [done|]. split; [done|].
    intros i Hi. apply Hall. rw (repr_length _ _ _ _ Hr). zlia.
Qed.

(** [bitmap_create]: the loop that marks the bits past the end. *)
Definition fresh_bitmap (s : state) (b vl : loc) (nb : Z) (ws : list Z) (o : list ptr) : state :=
  State (set_live ({[vl]} ∪ ({[b]} ∪ live (sys s))) (set_oracle o (sys s)))
    (<[b := Bitmap nb vl]> (maps s)) (<[vl := ws]> (bytes s)).

Lemma mark_rest s b vl nb n ix over o (Q : option unit → state → Prop) :
  n = S ix → (over ≤ 8)%nat →
  (∀ w, byte w → (∀ i, 0 ≤ i → Z.testbit w i = bool_decide (Z.of_nat over ≤ i < 8)) →
     Q None (fresh_bitmap s b vl nb (<[ix := w]> (replicate n 0)) o)) →
  wp (for_up over (8 - over) (λ j,
        w ← word vl (Z.of_nat ix);
        set_word vl (Z.of_nat ix) (Z.lor w (bitmask (Z.of_nat j)));;
        mret (@None unit))) Q (fresh_bitmap s b vl nb (replicate n 0) o).
Proof.
  intros -> Hover HQ. set (st w := fresh_bitmap s b vl nb (<[ix := w]> (replicate (S ix) 0)) o).
  apply (wp_for_up (λ j s', ∃ w, byte w ∧
    (∀ i, 0 ≤ i → Z.testbit w i = bool_decide (Z.of_nat over ≤ i < Z.of_nat j)) ∧ s' = st w)).
  - exists 0. split; [done|]. split.
    + intros i Hi. rw Z.bits_0. symmetry. apply bool_decide_eq_false_2. lia.
    + rw /st list_insert_id //. apply lookup_replicate. split; [done|lia].
  - intros j s' Hj (w & Hw & Hbits & ->).
    assert (∀ Q, Q w (st w) → wp (word vl (Z.of_nat ix)) Q (st w)) as Hword.
    { intros Q' HQ'. eapply wp_deref; [|exact HQ'].
      assert (is_live vl (st w) = true) as -> by (apply is_live_true; rw /=; set_solver).
      rw /= lookup_insert_eq /= Nat2Z.id list_lookup_insert_eq //. rw /= length_replicate. lia. }
    wp_step. apply Hword. wp_step. rw /set_word. wp_step. apply Hword. apply wp_modify. apply wp_ret.
    exists (Z.lor w (bitmask (Z.of_nat j))). split; [apply byte_lor; [done|lia]|]. split.
    + intros i Hi. rw Z.lor_spec bitmask_testbit; [|lia..]. rw Hbits //. clear -Hj.
      repeat case_bool_decide; simpl; try done; lia.
    + rw /st /fresh_bitmap /set_bytes /=. f_equal. rw Nat2Z.id. apply map_eq. intros p.
      destruct (decide (p = vl)) as [->|Hne].
      * by rw lookup_alter_eq !lookup_insert_eq /= list_insert_insert_eq.
      * rw lookup_alter_ne // !lookup_insert_ne //.
  - intros s' (w & Hw & Hbits & ->). apply HQ; [done|]. intros i Hi. rw Hbits //.
    apply bool_decide_ext. lia.
Qed.

Lemma create_spec s nb b vl o :
  0 ≤ nb ≤ 2 ^ 32 - 8 → oracle (sys s) = Some b :: Some vl :: o →
  b ∉ live (sys s) → vl ∉ {[b]} ∪ live (sys s) →
  wp (bitmap_create nb) (λ r s', r = Some b ∧ ∃ ws, s' = fresh_bitmap s b vl nb ws o ∧
    repr s' b (Bitmap nb vl) ws ∧ ∀ i, 0 ≤ i < nb → bit ws i = false) s.
Proof.
  intros Hn Ho Hb Hvl. rw /bitmap_create. wp_step. eapply wp_kmalloc; [done..|]. wp_step.
  eapply wp_kmalloc; [done | exact Hvl |]. wp_steps. apply wp_modify. rw DIVROUNDUP_spec //.
  set (n := Z.to_nat ((nb + 7) / 8)).
  match goal with |- wp _ _ ?st => replace st with (fresh_bitmap s b vl nb (replicate n 0) o) by
    (rw /fresh_bitmap /upd_base /set_live /set_oracle /=; done) end.
  assert (∀ ws, length ws = n → Forall byte ws →
    (∀ i, nb ≤ i < 8 * Z.of_nat n → bit ws i = true) →
    repr (fresh_bitmap s b vl nb ws o) b (Bitmap nb vl) ws) as Hrepr.
  { intros ws Hlen Hby Hrest. split; rw /= ?lookup_insert_eq ?Hlen //; set_solver. }
  assert (∀ i, bit (replicate n 0) i = false) as Hzero.
  { intros i. rw /bit. destruct (replicate n 0 !! _) eqn:H; [|done].
    apply lookup_replicate in H as [-> _]. apply Z.bits_0. }
  rw /BITS_PER_WORD. case_bool_decide as Hw.
  - wp_step. assert (u32 ((nb + 7) / 8 - 1) = nb / 8) as Hix by (rw u32_small; zlia).
    rw !Hix. assert (u32 (nb / 8 * 8) = nb / 8 * 8) as -> by (rw u32_small; zlia).
    assert (u32 (nb - nb / 8 * 8) = nb mod 8) as -> by (rw u32_small; zlia).
    apply wp_kassert; [apply bool_decide_eq_true_2; zlia|]. wp_step.
    apply wp_kassert; [apply bool_decide_eq_true_2; zlia|]. wp_step.
    replace (Z.to_nat (8 - nb mod 8)) with (8 - Z.to_nat (nb mod 8))%nat by zlia.
    replace (nb / 8) with (Z.of_nat (Z.to_nat (nb / 8))) by zlia.
    apply mark_rest; [zlia..|]. intros w Hby Hbits. do 2 apply wp_ret. split; [done|].
    eexists. split; [done|]. assert (Z.to_nat (nb / 8) < n)%nat as Hlt by zlia.
    assert (∀ i, 0 ≤ i < 8 * Z.of_nat n → bit (<[Z.to_nat (nb / 8) := w]> (replicate n 0)) i =
      bool_decide (nb ≤ i)) as Hall.
    { intros i Hi. replace (Z.to_nat (nb / 8)) with (Z.to_nat (nb / 8)) by done.
      rw bit_insert; [|zlia|by rw length_replicate|lia]. case_bool_decide as Hq.
      - rw Hbits; [|zlia]. apply bool_decide_ext. zlia.
      - rw Hzero. symmetry. apply bool_decide_eq_false_2. zlia. }
    split.
    + apply Hrepr; [by rw length_insert length_replicate | |].
      * apply Forall_insert; [|done]. by apply Forall_replicate.
      * intros i Hi. rw Hall; [|lia]. apply bool_decide_eq_true_2. lia.
    + intros i Hi. rw Hall; [apply bool_decide_eq_false_2; lia | zlia].
  - wp_step. do 2 apply wp_ret. split; [done|]. eexists. split; [done|]. split.
    + apply Hrepr; [by rw length_replicate | by apply Forall_replicate |]. intros i Hi. zlia.
    + intros i Hi. apply Hzero.
Qed.

(** ** The bitmap theorems *)

(** [bitmap_create] with memory for both blocks returns a bitmap of the
    size asked for in which every index below it is clear, and the trailing bits
    of the last byte are already marked; its consistency assertions hold. *)
Theorem bitmap_create_all_clear s nb b vl o :
  0 ≤ nb ≤ 2 ^ 32 - 8 → oracle (sys s) = Some b :: Some vl :: o →
  b ∉ live (sys s) → vl ∉ {[b]} ∪ live (sys s) →
  wp (bitmap_create nb) (λ r s', r = Some b ∧ ∃ ws, repr s' b (Bitmap nb vl) ws ∧
    ∀ i, 0 ≤ i < nb → bit ws i = false) s.
Proof.
  intros. eapply wp_mono; [by eapply create_spec|]. intros r s' (-> & ws & -> & ? & ?). eauto.
Qed.

(** C36: [bitmap_alloc] returns the lowest clear index, below [nbits], and marks
    exactly that bit; it fails, with [ENOSPC] and without a change, only when
    every index is marked.  Neither of its assertions can fail. *)
Theorem bitmap_alloc_lowest_clear s b m ws :
  repr s b m ws →
  wp (bitmap_alloc b) (λ r s', match r with
    | inl e => e = ENOSPC ∧ s' = s ∧ ∀ i, 0 ≤ i < nbits m → bit ws i = true
    | inr i => 0 ≤ i < nbits m ∧ bit ws i = false ∧ (∀ j, 0 ≤ j < i → bit ws j = true) ∧
        ∃ ws', repr s' b m ws' ∧ ∀ j, 0 ≤ j → bit ws' j = bool_decide (i = j) || bit ws j
    end) s.
Proof.
  intros Hr. eapply wp_mono; [by eapply alloc_spec|]. intros [e|i] s'; [done|].
  intros (Hi & Hc & Hlow & w & Hw & ->). do 3 (split; [done|]). by apply with_bit_repr.
Qed.

(** [bitmap_mark] of a clear index sets exactly that bit, and
    [bitmap_unmark] right after it restores the bitmap bit for bit. *)
Theorem bitmap_mark_unmark s b m ws i :
  repr s b m ws → 0 ≤ i < nbits m → bit ws i = false →
  (∃ s1 ws1, bitmap_mark b i s = Ok tt s1 ∧ repr s1 b m ws1 ∧
     ∀ j, 0 ≤ j → bit ws1 j = bool_decide (i = j) || bit ws j) ∧
  (bitmap_mark b i;; bitmap_unmark b i) s = Ok tt s.
Proof.
  intros Hr Hi Hc. destruct (mark_spec _ _ _ _ i Hr Hi Hc) as (w & Hw & Hm). split.
  - exists (with_bit s m i w). destruct (with_bit_repr _ _ _ _ Hr i w Hi Hw) as (ws1 & ? & ?). eauto.
  - rw (bind_Ok _ _ _ _ _ Hm). by eapply unmark_with_bit.
Qed.

(** ** A bitmap of ten bits, the first eight marked *)
Definition ten_bits : state := State (Base {[1; 2]}%positive [Some 5%positive; Some 6%positive] ∅ 100)
  {[1%positive := Bitmap 10 2%positive]} {[2%positive := [255; 252]]}.

Lemma ten_bits_repr : repr ten_bits 1%positive (Bitmap 10 2%positive) [255; 252].
Proof.
  split; try done; [by_decide..| |].
  - rw /byte. by_decide.
  - intros i Hi. rw /= in Hi. rw /bit. assert (i / 8 = 1) as -> by zlia. simpl.
    assert (i = 10 ∨ i = 11 ∨ i = 12 ∨ i = 13 ∨ i = 14 ∨ i = 15) as H by lia.
    naive_solver.
Qed.

Lemma bitmap_create_all_clear_example :
  wp (bitmap_create 12) (λ r s', r = Some 5%positive ∧ ∃ ws,
    repr s' 5%positive (Bitmap 12 6%positive) ws ∧ ∀ i, 0 ≤ i < 12 → bit ws i = false) ten_bits.
Proof. apply (bitmap_create_all_clear _ _ _ _ []); [lia | done | by_decide | by_decide]. Defined.

Lemma bitmap_alloc_lowest_clear_witness :
  wp (bitmap_alloc 1%positive) (λ r s', match r with
    | inl e => e = ENOSPC ∧ s' = ten_bits ∧ ∀ i, 0 ≤ i < 10 → bit [255; 252] i = true
    | inr i => 0 ≤ i < 10 ∧ bit [255; 252] i = false ∧ (∀ j, 0 ≤ j < i → bit [255; 252] j = true) ∧
        ∃ ws', repr s' 1%positive (Bitmap 10 2%positive) ws' ∧
          ∀ j, 0 ≤ j → bit ws' j = bool_decide (i = j) || bit [255; 252] j
    end) ten_bits.
Proof. apply (bitmap_alloc_lowest_clear _ _ _ _ ten_bits_repr). Defined.

Lemma bitmap_mark_unmark_example :
  (bitmap_mark 1%positive 9;; bitmap_unmark 1%positive 9) ten_bits = Ok tt ten_bits.
Proof. apply (bitmap_mark_unmark _ _ _ _ 9 ten_bits_repr); [simpl; lia | done]. Defined.
