(* ===== verification/Array.v ===== *)
(** * The resizeable arrays of kern/lib/array.c and kern/include/array.h

    An array is a header with a count, a capacity and a block of pointers that
    is replaced by a larger one when it is full.  The theorems relate the
    operations to lists. *)

From stdpp Require Import base tactics list gmap option numbers ssreflect.
From S2P Require Import Prelude Kern.

Open Scope Z_scope.

(** ** Data and state *)

(** [struct array]. *)
Record array := Array { num : Z; max : Z; vec : ptr }.

(** The blocks of pointers; a cell nothing was stored in is [None]. *)
Record state := State {
  sys : base;
  arrays : gmap loc array;
  vecs : gmap loc (list (option ptr))
}.

#[export, refine] Instance state_base : HasBase state := {|
  base_of := sys;
  with_base b s := State b (arrays s) (vecs s)
|}.
Proof. all: intros; by repeat destruct select state. Defined.

Definition set_arrays (f : gmap loc array → gmap loc array) s := State (sys s) (f (arrays s)) (vecs s).
Definition set_vecs (f : gmap loc (list (option ptr)) → gmap loc (list (option ptr))) s :=
  State (sys s) (arrays s) (f (vecs s)).

Definition load (a : loc) : M state array :=
  deref (λ s, if is_live a s then arrays s !! a else None).
Definition store (a : loc) (x : array) : M state unit :=
  load a;; modify (set_arrays <[a := x]>).

(** The block [p], NULL counting as an empty one. *)
Definition block (p : ptr) : M state (list (option ptr)) :=
  deref (λ s, match p with
    | None => Some []
    | Some l => if is_live l s then vecs s !! l else None
    end).

(** [p[i] = c]. *)
Definition set_cell (p : ptr) (i : nat) (c : option ptr) : M state unit :=
  l ← nonnull p;
  cs ← block p;
  if bool_decide (i < length cs)%nat then modify (set_vecs <[l := <[i := c]> cs]>) else stops Fault.

(** [memcpy] and [memmove] of [n] cells: both ranges must be inside their
    blocks. *)
Definition move_cells (dst : ptr) (di : nat) (src : ptr) (si n : nat) : M state unit :=
  ss ← block src;
  ds ← block dst;
  if bool_decide (n = 0%nat) then mret tt
  else if bool_decide (si + n ≤ length ss ∧ di + n ≤ length ds)%nat then
    l ← nonnull dst;
    modify (set_vecs <[l := take di ds ++ take n (drop si ss) ++ drop (di + n) ds]>)
  else stops Fault.

(** ** Operations *)

Definition array_init (a : loc) : M state unit :=
  modify (set_arrays <[a := Array 0 0 None]>).

Definition array_create : M state ptr :=
  p ← kmalloc;
  match p with
  | None => mret None
  | Some a => array_init a;; mret p
  end.

Definition array_cleanup (a : loc) : M state unit :=
  x ← load a;
  kassert (bool_decide (num x = 0));;
  kfree (vec x);;
  store a (Array (num x) (max x) None).

Definition array_destroy (a : loc) : M state unit :=
  array_cleanup a;;
  kfree (Some a).

Definition array_num (a : loc) : M state Z := x ← load a; mret (num x).

Definition array_get (a : loc) (index : Z) : M state (option ptr) :=
  x ← load a;
  kassert (bool_decide (index < num x));;
  cs ← block (vec x);
  deref (λ _, cs !! Z.to_nat index).

Definition array_set (a : loc) (index : Z) (val : ptr) : M state unit :=
  x ← load a;
  kassert (bool_decide (index < num x));;
  set_cell (vec x) (Z.to_nat index) (Some val).

(** [while (num > newmax) newmax = newmax ? newmax*2 : 4;] *)
Definition grow (fuel : nat) (n newmax : Z) : M state Z :=
  while fuel newmax (λ newmax,
    if bool_decide (n > newmax) then
      mret (inl (if bool_decide (newmax = 0) then 4 else u32 (newmax * 2)))
    else mret (inr newmax)).

(** [kmalloc(n * sizeof(void * ))] for an [unsigned] size. *)
Definition alloc_cells (n : Z) : M state ptr :=
  p ← kmalloc;
  match p with
  | None => mret None
  | Some l => modify (set_vecs <[l := replicate (Z.to_nat (u32 (n * 4) / 4)) None]>);; mret p
  end.

Definition array_preallocate (a : loc) (n : Z) : M state Z :=
  x ← load a;
  if bool_decide (n > max x) then
    newmax ← grow 64 n (max x);
    newptr ← alloc_cells newmax;
    match newptr with
    | None => mret ENOMEM
    | Some _ =>
        move_cells newptr 0 (vec x) 0 (Z.to_nat (num x));;
        kfree (vec x);;
        store a (Array (num x) newmax newptr);;
        mret 0
    end
  else mret 0.

Definition array_setsize (a : loc) (n : Z) : M state Z :=
  result ← array_preallocate a n;
  if bool_decide (result ≠ 0) then mret result
  else
    x ← load a;
    store a (Array n (max x) (vec x));;
    mret 0.

(** The error, or the index stored through [index_ret]. *)
Definition array_add (a : loc) (val : ptr) : M state (Z + Z) :=
  x ← load a;
  let index := num x in
  ret ← array_setsize a (u32 (index + 1));
  if bool_decide (ret ≠ 0) then mret (inl ret)
  else
    x ← load a;
    set_cell (vec x) (Z.to_nat index) (Some val);;
    mret (inr index).

Definition array_remove (a : loc) (index : Z) : M state unit :=
  x ← load a;
  kassert (bool_decide (num x ≤ max x));;
  kassert (bool_decide (index < num x));;
  let num_to_move := u32 (num x - u32 (index + 1)) in
  move_cells (vec x) (Z.to_nat index) (vec x) (Z.to_nat (index + 1)) (Z.to_nat num_to_move);;
  store a (Array (u32 (num x - 1)) (max x) (vec x)).

(** ** The growth loop *)

(** The capacities the loop goes through. *)
Definition capacity (c : Z) : Prop := c = 0 ∨ ∃ k, 2 ≤ k ≤ 31 ∧ c = 2 ^ k.

Lemma u32_double k : 0 ≤ k ≤ 30 → u32 (2 ^ k * 2) = 2 ^ (k + 1).
Proof.
  intros Hk. assert (2 ^ k * 2 = 2 ^ (k + 1)) as -> by (rw Z.pow_add_r; lia).
  apply u32_small. split; [lia|]. apply Z.pow_lt_mono_r; lia.
Qed.

Lemma capacity_next c : capacity c → capacity (if bool_decide (c = 0) then 4 else u32 (c * 2)).
Proof.
  intros [->|(k & Hk & ->)]; case_bool_decide; try done.
  - right. exists 2. split; [lia|done].
  - lia.
  - destruct (decide (k = 31)) as [->|]; [by left|]. right. exists (k + 1). split; [lia|].
    apply u32_double. lia.
Qed.

Lemma capacity_small c : capacity c → 0 ≤ c ≤ 2 ^ 31.
Proof.
  intros [->|(k & Hk & ->)]; [lia|]. split; [lia|]. apply Z.pow_le_mono_r; lia.
Qed.

(** How many more rounds the loop can go. *)
Definition rounds (c : Z) : nat := if bool_decide (c = 0) then 32%nat else Z.to_nat (31 - Z.log2 c).

Lemma rounds_next c n :
  capacity c → n > c → n ≤ 2 ^ 31 →
  (rounds (if bool_decide (c = 0)%Z then 4 else u32 (c * 2))%Z < rounds c)%nat.
Proof.
  intros [->|(k & Hk & ->)] Hgt Hn; [vm_compute; lia|].
  assert (0 < 2 ^ k) as Hpos by lia. rw bool_decide_eq_false_2; [|lia].
  assert (k ≠ 31) as Hne by (intros ->; lia).
  rw u32_double; [|lia]. pose proof (Z.pow_pos_nonneg 2 (k + 1) ltac:(lia) ltac:(lia)).
  rw /rounds !bool_decide_eq_false_2; [|lia..]. rw !Z.log2_pow2; lia.
Qed.

Lemma grow_spec s fuel n c :
  capacity c → n ≤ 2 ^ 31 → (33 ≤ fuel)%nat →
  wp (grow fuel n c) (λ c' s', s' = s ∧ capacity c' ∧ n ≤ c' ∧ (c' ≠ c → c' ≤ Z.max 4 (2 * n))) s.
Proof.
  intros Hc Hn Hf. apply (wp_while (λ r c' s', r = rounds c' ∧ s' = s ∧ capacity c' ∧
    (c' ≠ c → c' ≤ Z.max 4 (2 * n))) _ _ (rounds c)).
  - done.
  - rw /rounds. case_bool_decide; [lia|]. pose proof (Z.log2_nonneg c). lia.
  - intros r c' s' (-> & -> & Hc' & Hle). case_bool_decide as H.
    + apply wp_ret. eexists. split; [by eapply rounds_next|]. split; [done|]. split; [done|].
      split; [by apply capacity_next|]. intros _. case_bool_decide; [lia|].
      pose proof (capacity_small _ Hc'). rw u32_small; lia.
    + apply wp_ret. split; [done|]. split; [done|]. split; [lia|done].
Qed.

Lemma grow_diverges s fuel n c :
  capacity c → n > 2 ^ 31 → grow fuel n c s = Stop Diverges s.
Proof.
  rw /grow. intros Hc Hn. revert c Hc. induction fuel as [|fuel IH]; intros c Hc; [done|].
  pose proof (capacity_small _ Hc). rw /while -/while /mbind /M_bind.
  rw (bool_decide_eq_true_2 (n > c)); [|lia]. by apply IH, capacity_next.
Qed.

(** ** Arrays and lists *)

Definition block_of (s : state) (p : ptr) : option (list (option ptr)) :=
  match p with
  | None => Some []
  | Some l => if is_live l s then vecs s !! l else None
  end.

(** [a] is the header [x] of an array that holds [xs]. *)
Record repr (s : state) (a : loc) (x : array) (xs : list ptr) : Prop := {
  repr_live : a ∈ live (sys s);
  repr_array : arrays s !! a = Some x;
  repr_num : num x = Z.of_nat (length xs);
  repr_max : num x ≤ max x ≤ 2 ^ 29;
  repr_capacity : capacity (max x);
  repr_vec : ∀ l, vec x = Some l → l ≠ a;
  repr_cells : ∃ cs, block_of s (vec x) = Some cs ∧ length cs = Z.to_nat (max x) ∧
    take (length xs) cs = Some <$> xs
}.

Lemma wp_array_load s a x Q : a ∈ live (sys s) → arrays s !! a = Some x → Q x s → wp (load a) Q s.
Proof.
  intros Hl Hx HQ. eapply wp_deref; [|done].
  assert (is_live a s = true) as -> by (by apply is_live_true). done.
Qed.

Lemma wp_array_store s a x y (Q : unit → state → Prop) :
  a ∈ live (sys s) → arrays s !! a = Some x → Q tt (set_arrays <[a := y]> s) →
  wp (store a y) Q s.
Proof. intros. rw /store. wp_step. eapply wp_array_load; [done..|]. by apply wp_modify. Qed.

Lemma wp_block s p cs Q : block_of s p = Some cs → Q cs s → wp (block p) Q s.
Proof. intros H HQ. by eapply wp_deref. Qed.

Lemma wp_move_cells s dst di src si n ss ds l (Q : unit → state → Prop) :
  block_of s src = Some ss → block_of s dst = Some ds → dst = Some l →
  (si + n ≤ length ss ∧ di + n ≤ length ds)%nat →
  Q tt (if bool_decide (n = 0%nat) then s
        else set_vecs <[l := take di ds ++ take n (drop si ss) ++ drop (di + n) ds]> s) →
  wp (move_cells dst di src si n) Q s.
Proof.
  intros Hs Hd -> Hle HQ. rw /move_cells. wp_step. eapply wp_block; [done|]. wp_step.
  eapply wp_block; [done|]. cbn beta. case_bool_decide; [by apply wp_ret|].
  rw bool_decide_eq_true_2 //.
Qed.

(** The state once a block of [c] cells is allocated at [l]. *)
Definition with_block (l : loc) (c : nat) (o : list ptr) (s : state) : state :=
  State (set_live ({[l]} ∪ live (sys s)) (set_oracle o (sys s))) (arrays s)
    (<[l := replicate c None]> (vecs s)).

Lemma wp_alloc_cells s c l o Q :
  oracle (sys s) = Some l :: o → l ∉ live (sys s) → 0 ≤ c ≤ 2 ^ 29 →
  Q (Some l) (with_block l (Z.to_nat c) o s) → wp (alloc_cells c) Q s.
Proof.
  intros Ho Hl Hc HQ. rw /alloc_cells. wp_step. eapply wp_kmalloc; [done..|]. wp_steps.
  rw u32_small; [|lia]. by replace (c * 4 / 4) with c by zlia.
Qed.

Lemma block_of_live s p l cs : block_of s p = Some cs → p = Some l → l ∈ live (sys s).
Proof. intros H ->. simpl in H. destruct (is_live l s) eqn:E; [by apply is_live_true in E|done]. Qed.

Lemma block_with_block s p l c o cs :
  block_of s p = Some cs → l ∉ live (sys s) → block_of (with_block l c o s) p = Some cs.
Proof.
  intros H Hl. destruct p as [q|]; [|done]. pose proof (block_of_live _ _ q _ H eq_refl) as Hq.
  simpl in H |- *. assert (is_live q s = true) as Hqs by (by apply is_live_true).
  assert (is_live q (with_block l c o s) = true) as -> by (apply is_live_true; rw /=; set_solver).
  rw Hqs in H. rw lookup_insert_ne //. congruence.
Qed.

Lemma block_new s l c o : block_of (with_block l c o s) (Some l) = Some (replicate c None).
Proof.
  simpl. assert (is_live l (with_block l c o s) = true) as -> by (apply is_live_true; rw /=; set_solver).
  apply lookup_insert_eq.
Qed.

(** The heap after [kfree(p)]. *)
Definition freed (p : ptr) (b : base) : base := match p with None => b | Some l => set_live (live b ∖ {[l]}) b end.

Lemma wp_free_block s p cs (Q : unit → state → Prop) :
  block_of s p = Some cs →
  (∀ s', sys s' = freed p (sys s) → (∀ q, q ∈ live (sys s) → p ≠ Some q → q ∈ live (sys s')) → arrays s' = arrays s →
     vecs s' = vecs s → Q tt s') →
  wp (kfree p) Q s.
Proof.
  intros H HQ. destruct p as [l|]; [|by apply HQ]. apply wp_kfree; [by eapply block_of_live|].
  apply HQ; [done| |done..]. intros q Hq Hne. rw /=. assert (q ≠ l) by congruence. set_solver.
Qed.

(** Moving the cells into a new block, freeing the old one and updating the
    header. *)
Lemma move_to_new_block s a x xs c l o :
  repr s a x xs → l ∉ live (sys s) → max x ≤ c ≤ 2 ^ 29 → capacity c →
  wp (move_cells (Some l) 0 (vec x) 0 (Z.to_nat (num x));; kfree (vec x);;
      store a (Array (num x) c (Some l));; mret 0)
     (λ r s', r = 0 ∧ repr s' a (Array (num x) c (Some l)) xs ∧ sys s' = freed (vec x) (sys (with_block l (Z.to_nat c) o s)))
     (with_block l (Z.to_nat c) o s).
Proof.
  intros [Hl Hx Hnum Hmax _ Hvec (cs & Hcs & Hlen & Htake)] Hfresh Hc Hcap.
  assert (l ≠ a) as Hla by congruence.
  assert (length xs ≤ length cs)%nat as Hxc by (rw -(length_fmap Some) -Htake length_take; lia).
  pose proof (block_with_block _ _ _ (Z.to_nat c) o _ Hcs Hfresh) as Hcs2. wp_step.
  eapply wp_move_cells; [exact Hcs2 | apply block_new | done | rw length_replicate; lia |].
  rw Hnum Nat2Z.id drop_0 Htake take_0 drop_replicate !app_nil_l Nat.add_0_l.
  set (fin := (Some <$> xs) ++ replicate (Z.to_nat c - length xs) None).
  set (s3 := if bool_decide _ then _ else _).
  assert (sys s3 = sys (with_block l (Z.to_nat c) o s) ∧ arrays s3 = arrays s ∧ vecs s3 !! l = Some fin ∧
    block_of s3 (vec x) = Some cs) as (Hs3 & Ha3 & Hv3 & Hb3).
  { rw /s3 /fin. case_bool_decide as Hz; repeat (split; [done|]).
    - rw (nil_length_inv xs) //= Nat.sub_0_r lookup_insert_eq //.
    - split; [apply lookup_insert_eq|]. destruct (vec x) as [q|]; [|done]. rw /= lookup_insert_ne //.
      intros ->. by eapply Hfresh, block_of_live. }
  wp_step. eapply wp_free_block; [exact Hb3|]. intros s4 Hsys4 Hlive4 Ha4 Hv4.
  assert (a ∈ live (sys s4)) as Ha4l.
  { apply Hlive4; [rw Hs3 /=; set_solver|]. intros Heq. by apply Hvec in Heq. }
  assert (l ∈ live (sys s4)) as Hl4.
  { apply Hlive4; [rw Hs3 /=; set_solver|]. intros Heq. by eapply Hfresh, block_of_live. }
  wp_step. eapply wp_array_store; [done | by rw Ha4 Ha3 |]. apply wp_ret. split; [done|]. split; [|by rw /= Hsys4 Hs3]. split; simpl; try done; [by rw lookup_insert_eq | lia | |].
  - by intros ? [= <-].
  - exists fin. assert (∀ y, is_live l (set_arrays <[a := y]> s4) = true) as ->.
    { intros y. by apply is_live_true. }
    rw Hv4 Hv3. split; [done|]. rw /fin. split.
    + rw length_app length_fmap length_replicate. lia.
    + rw take_app_length' //. by rw length_fmap.
Qed.

(** The heap [b] with the block [p] of an array, and what they are after the array
    has been given room: as before, or with a new block. *)
Definition resized (b : base) (p : ptr) (b' : base) (p' : ptr) : Prop :=
  b' = b ∧ p' = p ∨
  ∃ l o, l ∉ live b ∧ p' = Some l ∧ b' = freed p (set_live ({[l]} ∪ live b) (set_oracle o b)).

(** The outcome of [array_preallocate]. *)
Definition preallocated (s : state) (a : loc) (x : array) (xs : list ptr) (n r : Z) (s' : state) : Prop :=
  r = ENOMEM ∧ (∃ o, s' = upd_base (set_oracle o) s) ∨
  r = 0 ∧ ∃ x', repr s' a x' xs ∧ n ≤ max x' ∧ num x' = num x ∧ resized (sys s) (vec x) (sys s') (vec x').

Lemma preallocate_any s a x xs n :
  repr s a x xs → n ≤ 2 ^ 28 → wp (array_preallocate a n) (preallocated s a x xs n) s.
Proof.
  intros Hr Hn. pose proof Hr as [Hl Hx Hnum Hmax Hcap _ _].
  rw /array_preallocate. wp_step. eapply wp_array_load; [done..|]. cbn beta.
  case_bool_decide as Hgt.
  2: { apply wp_ret. right. split; [done|]. exists x. split; [done|]. split; [lia|]. split; [done|by left]. }
  wp_step. eapply wp_mono; [apply grow_spec; [done | lia | lia]|].
  intros c s' (-> & Hc & Hle & Hbound).
  assert (c ≤ 2 ^ 29) as Hc29 by (assert (c ≠ max x) as Hne by lia; specialize (Hbound Hne); lia).
  pose proof (capacity_small _ Hc). wp_step. rw /alloc_cells. wp_step. apply wp_kmalloc_any.
  { intros o. apply wp_ret. apply wp_ret. left. split; [done|by exists o]. }
  intros l o Hfresh. wp_step. apply wp_modify. apply wp_ret. rw u32_small; [|lia]. replace (c * 4 / 4) with c by zlia.
  eapply wp_mono; [by apply (move_to_new_block s a x xs c l o); [| |lia|]|].
  intros r s' (-> & Hr' & Hs'). right. split; [done|]. eexists. split; [exact Hr'|]. simpl.
  split; [lia|]. split; [done|]. right. by exists l, o.
Qed.

(** With memory at hand. *)
Lemma preallocate_spec s a x xs n l o :
  repr s a x xs → n ≤ 2 ^ 28 → oracle (sys s) = Some l :: o → l ∉ live (sys s) →
  wp (array_preallocate a n) (λ r s', r = 0 ∧ ∃ x', repr s' a x' xs ∧ n ≤ max x' ∧ num x' = num x) s.
Proof.
  intros Hr Hn Ho Hfresh. pose proof Hr as [Hl Hx Hnum Hmax Hcap _ _].
  rw /array_preallocate. wp_step. eapply wp_array_load; [done..|]. cbn beta.
  case_bool_decide as Hgt.
  2: { apply wp_ret. split; [done|]. exists x. split; [done|lia]. }
  wp_step. eapply wp_mono; [apply grow_spec; [done | lia | lia]|].
  intros c s' (-> & Hc & Hle & Hbound).
  assert (c ≤ 2 ^ 29) as Hc29 by (assert (c ≠ max x) as Hne by lia; specialize (Hbound Hne); lia).
  pose proof (capacity_small _ Hc). wp_step. eapply wp_alloc_cells; [done | done | lia |].
  cbn beta iota. eapply wp_mono; [by apply move_to_new_block; [| |lia|]|].
  intros r s' (-> & Hr' & _). split; [done|]. eexists. split; [exact Hr'|]. simpl. lia.
Qed.

(** Stores into an array: its header or one of its cells. *)
Lemma block_of_set_arrays s f p : block_of (set_arrays f s) p = block_of s p.
Proof. by destruct p. Qed.

Lemma block_of_set_vecs s l cs : l ∈ live (sys s) →
  block_of (set_vecs <[l := cs]> s) (Some l) = Some cs.
Proof.
  intros Hl. simpl. assert (is_live l (set_vecs <[l := cs]> s) = true) as -> by (by apply is_live_true).
  apply lookup_insert_eq.
Qed.

(** A non-empty array has a block. *)
Lemma repr_block s a x xs i :
  repr s a x xs → 0 ≤ i < max x → ∃ l cs, vec x = Some l ∧ l ∈ live (sys s) ∧
    block_of s (vec x) = Some cs ∧ (Z.to_nat i < length cs)%nat ∧
    length cs = Z.to_nat (max x) ∧ take (length xs) cs = Some <$> xs.
Proof.
  intros Hr Hi. destruct (repr_cells _ _ _ _ Hr) as (cs & Hcs & Hlen & Htake).
  destruct (vec x) as [l|] eqn:Hv.
  - exists l, cs. pose proof (block_of_live _ _ l _ Hcs eq_refl). repeat (split; [done|]). split; [lia|done].
  - simpl in Hcs. simplify_eq/=. lia.
Qed.

Lemma wp_set_cell s p l i c cs (Q : unit → state → Prop) :
  p = Some l → block_of s p = Some cs → (i < length cs)%nat →
  Q tt (set_vecs <[l := <[i := c]> cs]> s) → wp (set_cell p i c) Q s.
Proof.
  intros -> Hcs Hi HQ. rw /set_cell. wp_step. wp_step; [done|]. wp_step. eapply wp_block; [done|]. cbn beta.
  by rw bool_decide_eq_true_2.
Qed.

Lemma get_spec s a x xs i y :
  repr s a x xs → 0 ≤ i → xs !! Z.to_nat i = Some y →
  wp (array_get a i) (λ r s', s' = s ∧ r = Some y) s.
Proof.
  intros Hr Hi Hy. pose proof (lookup_lt_Some _ _ _ Hy) as Hlt.
  pose proof Hr as [Hl Hx Hnum Hmax _ _ _].
  destruct (repr_block _ _ _ _ i Hr) as (l & cs & _ & _ & Hcs & _ & _ & Htake); [lia|].
  rw /array_get. wp_step. eapply wp_array_load; [done..|]. wp_step. apply wp_kassert.
  { apply bool_decide_eq_true_2. lia. }
  wp_step. eapply wp_block; [done|]. eapply wp_deref; [|done].
  rw -(lookup_take_lt cs (length xs)); [|done]. by rw Htake list_lookup_fmap Hy.
Qed.

Lemma num_spec s a x xs (Q : Z → state → Prop) :
  repr s a x xs → Q (Z.of_nat (length xs)) s → wp (array_num a) Q s.
Proof.
  intros [Hl Hx Hnum _ _ _ _] HQ. rw /array_num. wp_step. eapply wp_array_load; [done..|]. apply wp_ret. by rw Hnum.
Qed.

(** Overwriting, appending and removing, on the cells. *)
Lemma take_insert_cells (cs : list (option ptr)) xs i y :
  take (length xs) cs = Some <$> xs → (i < length xs)%nat →
  take (length xs) (<[i := Some y]> cs) = Some <$> <[i := y]> xs.
Proof. intros Ht Hi. by rw take_insert_lt // Ht list_fmap_insert. Qed.

Lemma take_append_cells (cs : list (option ptr)) xs y :
  take (length xs) cs = Some <$> xs → (length xs < length cs)%nat →
  take (length (xs ++ [y])) (<[length xs := Some y]> cs) = Some <$> xs ++ [y].
Proof.
  intros Ht Hlt. rw length_app /= Nat.add_1_r. erewrite take_S_r; [|by apply list_lookup_insert_eq].
  by rw take_insert_ge // Ht fmap_app.
Qed.

Lemma take_remove_cells (cs : list (option ptr)) xs i :
  take (length xs) cs = Some <$> xs → (i < length xs)%nat →
  let n := (length xs - S i)%nat in
  take (length (delete i xs)) (take i cs ++ take n (drop (S i) cs) ++ drop (i + n) cs) =
    Some <$> delete i xs.
Proof.
  intros Ht Hi n. assert (length xs ≤ length cs)%nat as Hle.
  { rw -(length_fmap Some) -Ht length_take. lia. }
  rw (app_assoc (take i cs)) take_app_length'.
  - rw delete_take_drop fmap_app fmap_take fmap_drop -Ht take_take skipn_firstn_comm.
    by rw Nat.min_l; [|lia].
  - rw length_app !length_take length_drop length_delete; [lia|]. by apply lookup_lt_is_Some_2.
Qed.

Lemma set_spec s a x xs i y :
  repr s a x xs → 0 ≤ i < Z.of_nat (length xs) →
  wp (array_set a i y) (λ _ s', repr s' a x (<[Z.to_nat i := y]> xs)) s.
Proof.
  intros Hr Hi. pose proof Hr as [Hl Hx Hnum Hmax Hcap Hvec _].
  destruct (repr_block _ _ _ _ i Hr) as (l & cs & Hv & Hll & Hcs & Hlt & Hlen & Htake); [lia|].
  rw /array_set. wp_step. eapply wp_array_load; [done..|]. wp_step. apply wp_kassert.
  { apply bool_decide_eq_true_2. lia. }
  eapply wp_set_cell; [done..|]. split; try done; [by rw length_insert|].
  exists (<[Z.to_nat i := Some y]> cs). rw Hv block_of_set_vecs // !length_insert.
  split; [done|]. split; [done|]. apply take_insert_cells; [done|lia].
Qed.

Lemma array_remove_spec s a x xs i :
  repr s a x xs → 0 ≤ i < Z.of_nat (length xs) →
  wp (array_remove a i) (λ _ s', ∃ x', repr s' a x' (delete (Z.to_nat i) xs) ∧ vec x' = vec x ∧ sys s' = sys s) s.
Proof.
  intros Hr Hi. pose proof Hr as [Hl Hx Hnum Hmax Hcap Hvec _].
  destruct (repr_block _ _ _ _ i Hr) as (l & cs & Hv & Hll & Hcs & Hlt & Hlen & Htake); [lia|].
  rw /array_remove. wp_step. eapply wp_array_load; [done..|]. wp_step. apply wp_kassert.
  { apply bool_decide_eq_true_2. lia. }
  wp_step. apply wp_kassert. { apply bool_decide_eq_true_2. lia. }
  rw (u32_small (i + 1)); [|lia]. rw u32_small; [|lia]. rw u32_small; [|lia].
  set (n := (length xs - S (Z.to_nat i))%nat).
  replace (Z.to_nat (num x - (i + 1))) with n by lia.
  replace (Z.to_nat (i + 1)) with (S (Z.to_nat i)) by lia.
  wp_step. eapply wp_move_cells; [done | done | done | lia |].
  set (cs' := take _ cs ++ _). set (s1 := if bool_decide _ then _ else _).
  assert (block_of s1 (Some l) = Some cs' ∧ sys s1 = sys s ∧ arrays s1 = arrays s) as (Hb & Hs1 & Ha1).
  { rw /s1. case_bool_decide as Hz; [|split; [by apply block_of_set_vecs|done]].
    rw /cs' Hz take_0 Nat.add_0_r app_nil_l take_drop -Hv. done. }
  eapply wp_array_store; [by rw Hs1 | by rw Ha1 |]. exists (Array (num x - 1) (max x) (vec x)).
  split; [|by rw /= Hs1].
  assert (length (delete (Z.to_nat i) xs) = (length xs - 1)%nat) as Hdel.
  { apply length_delete, lookup_lt_is_Some_2. lia. }
  split; simpl; try done; [by rw Hs1 | by rw lookup_insert_eq | lia | lia |].
  exists cs'. rw Hv block_of_set_arrays. split; [done|]. split.
  - rw /cs' !length_app !length_take !length_drop. lia.
  - apply take_remove_cells; [done|lia].
Qed.

(** The rest of [array_add], once there is room. *)
Lemma append_spec s1 a x1 xs y (Q : Z + Z → state → Prop) :
  repr s1 a x1 xs → num x1 + 1 ≤ max x1 →
  (∀ s' x', repr s' a x' (xs ++ [y]) → vec x' = vec x1 → sys s' = sys s1 → Q (inr (Z.of_nat (length xs))) s') →
  wp (x ← load a; store a (Array (num x1 + 1) (max x) (vec x));; mret 0)
    (λ ret s', wp (if bool_decide (ret ≠ 0) then mret (inl ret)
                   else x ← load a; set_cell (vec x) (Z.to_nat (num x1)) (Some y);; mret (inr (num x1))) Q s') s1.
Proof.
  intros Hr1 Hle HQ. pose proof Hr1 as [Hl1 Hx1 Hnum1 Hmax1 Hcap1 Hvec1 _].
  destruct (repr_block _ _ _ _ (num x1) Hr1) as (q & cs & Hv & Hq & Hcs & Hlt & Hlc & Htake); [lia|].
  wp_step. eapply wp_array_load; [done..|]. wp_step. eapply wp_array_store; [done..|]. apply wp_ret.
  rw bool_decide_eq_false_2; [|lia]. wp_step. eapply wp_array_load; [done | by rw lookup_insert_eq |]. wp_step.
  eapply wp_set_cell; [done | by rw block_of_set_arrays | done |].
  apply wp_ret. rw Hnum1. apply (HQ _ (Array (num x1 + 1) (max x1) (vec x1))); [|done..].
  split; simpl; try done; [by rw Hnum1 lookup_insert_eq | rw length_app /=; lia | lia |].
  exists (<[Z.to_nat (num x1) := Some y]> cs). rw Hv. change (block_of ?s (Some q)) with (block_of s (Some q)).
  rw Hnum1 in Hlt |- *. rw block_of_set_vecs // length_insert. split; [done|]. split; [done|].
  rw Nat2Z.id. apply take_append_cells; [done|lia].
Qed.

(** The outcome of [array_add]. *)
Definition added (s : state) (a : loc) (x : array) (xs : list ptr) (y : ptr) (r : Z + Z) (s' : state) : Prop :=
  r = inl ENOMEM ∧ (∃ o, s' = upd_base (set_oracle o) s) ∨
  r = inr (Z.of_nat (length xs)) ∧ ∃ x', repr s' a x' (xs ++ [y]) ∧ resized (sys s) (vec x) (sys s') (vec x').

Lemma add_any s a x xs y :
  repr s a x xs → Z.of_nat (length xs) < 2 ^ 28 → wp (array_add a y) (added s a x xs y) s.
Proof.
  intros Hr Hlen. pose proof Hr as [Hl Hx Hnum Hmax _ _ _].
  rw /array_add. wp_step. eapply wp_array_load; [done..|]. rw u32_small; [|lia]. wp_step.
  rw /array_setsize. wp_step. eapply wp_mono; [eapply preallocate_any; [done | lia]|].
  intros r s1 [[-> Ho]|(-> & x1 & Hr1 & Hle & Hn1 & Hres)].
  { rw bool_decide_eq_true_2; [|done]. apply wp_ret. rw bool_decide_eq_true_2; [|done]. apply wp_ret. by left. }
  rw (bool_decide_eq_false_2 (0 ≠ 0)); [|lia]. rw -Hn1 in Hle |- *.
  apply (append_spec s1 a x1 xs y); [done..|]. intros s2 x2 Hr2 Hv2 Hs2. right. split; [done|]. exists x2.
  by rw Hv2 Hs2.
Qed.

Lemma add_spec s a x xs y l o :
  repr s a x xs → Z.of_nat (length xs) < 2 ^ 28 → oracle (sys s) = Some l :: o → l ∉ live (sys s) →
  wp (array_add a y) (λ r s', r = inr (Z.of_nat (length xs)) ∧ ∃ x', repr s' a x' (xs ++ [y])) s.
Proof.
  intros Hr Hlen Ho Hfresh. pose proof Hr as [Hl Hx Hnum Hmax _ _ _].
  rw /array_add. wp_step. eapply wp_array_load; [done..|]. rw u32_small; [|lia]. wp_step.
  rw /array_setsize. wp_step. eapply wp_mono; [eapply preallocate_spec; [done | lia | done | done]|].
  intros r s1 (-> & x1 & Hr1 & Hle & Hn1). rw (bool_decide_eq_false_2 (0 ≠ 0)); [|lia]. rw -Hn1 in Hle |- *.
  apply (append_spec s1 a x1 xs y); [done..|]. intros s2 x2 Hr2 _ _. split; [done|]. by exists x2.
Qed.

(** ** The array theorems *)

(** C34: an array is a list.  [array_get] and [array_set] read and replace the
    element at an index; [array_remove] closes the gap, the others keep their
    order; [array_add], with memory for a larger block at hand, puts the value
    behind the others and returns its index, whether or not the block had to be
    replaced. *)
Theorem array_refines_list s a x xs :
  repr s a x xs →
  (∀ i y, 0 ≤ i → xs !! Z.to_nat i = Some y → wp (array_get a i) (λ r s', s' = s ∧ r = Some y) s) ∧
  (∀ i y, 0 ≤ i < Z.of_nat (length xs) →
    wp (array_set a i y) (λ _ s', repr s' a x (<[Z.to_nat i := y]> xs)) s) ∧
  (∀ i, 0 ≤ i < Z.of_nat (length xs) →
    wp (array_remove a i) (λ _ s', ∃ x', repr s' a x' (delete (Z.to_nat i) xs)) s) ∧
  ∀ y l o, Z.of_nat (length xs) < 2 ^ 28 → oracle (sys s) = Some l :: o → l ∉ live (sys s) →
    wp (array_add a y) (λ r s', r = inr (Z.of_nat (length xs)) ∧ ∃ x', repr s' a x' (xs ++ [y])) s.
Proof.
  intros Hr. split; [|split; [|split]]; intros; [by eapply get_spec | by apply set_spec | | by eapply add_spec].
  eapply wp_mono; [by eapply array_remove_spec|]. intros _ s' (x' & ? & _). by exists x'.
Qed.

(** C35: the growth loop of [array_preallocate]: from any capacity it reaches it
    ends, within 33 rounds and at no more than twice the request (or 4), when
    the request is at most 2^31; above that no number of rounds is enough, since
    the doubling wraps to 0 and starts over. *)
Theorem array_growth_terminates_iff s n c :
  capacity c →
  (n ≤ 2 ^ 31 → wp (grow 33 n c) (λ c' s', s' = s ∧ capacity c' ∧ n ≤ c' ∧
     (c' ≠ c → c' ≤ Z.max 4 (2 * n))) s) ∧
  (n > 2 ^ 31 → ∀ fuel, grow fuel n c s = Stop Diverges s).
Proof. intros Hc. split; [intros; by apply grow_spec | intros; by apply grow_diverges]. Qed.

(** An empty array, and one that holds three pointers. *)
Definition empty_array : state :=
  State (Base {[1%positive]} [Some 2%positive] ∅ 100) {[1%positive := Array 0 0 None]} ∅.
Definition three : list ptr := [Some 10%positive; None; Some 11%positive].
Definition three_array : state :=
  State (Base {[1%positive; 2%positive]} [] ∅ 100) {[1%positive := Array 3 4 (Some 2%positive)]}
    {[2%positive := (Some <$> three) ++ [None]]}.

Lemma array_refines_list_witness :
  wp (array_add 1%positive (Some 7%positive)) (λ r s', r = inr 0 ∧ ∃ x', repr s' 1%positive x' [Some 7%positive]) empty_array ∧
  wp (array_remove 1%positive 0) (λ _ s', ∃ x', repr s' 1%positive x' [None; Some 11%positive]) three_array.
Proof.
  split.
  - destruct (array_refines_list empty_array 1%positive (Array 0 0 None) []) as (_ & _ & _ & Hadd).
    { split; try done; [by left|]. by exists []. }
    apply (Hadd _ 2%positive []); [done|done|by_decide].
  - destruct (array_refines_list three_array 1%positive (Array 3 4 (Some 2%positive)) three) as (_ & _ & Hrem & _).
    { split; try done; [| by intros ? [= <-] |]; [right; by exists 2 | by exists ((Some <$> three) ++ [None])]. }
    by apply (Hrem 0).
Defined.

Lemma array_growth_terminates_iff_witness :
  capacity 4 ∧ wp (grow 33 9 4) (λ c' s', s' = empty_array ∧ capacity c' ∧ 9 ≤ c' ∧ (c' ≠ 4 → c' ≤ 18)) empty_array
  ∧ grow 1000 (2 ^ 31 + 1) 4 empty_array = Stop Diverges empty_array.
Proof.
  assert (capacity 4) as Hc by (right; by exists 2). split; [exact Hc|]. split.
  - apply (array_growth_terminates_iff empty_array 9 4 Hc). lia.
  - apply (array_growth_terminates_iff empty_array (2 ^ 31 + 1) 4 Hc). lia.
Defined.
