(* ===== verification/ThreadList.v ===== *)
(** * The thread lists of kern/thread/threadlist.c

    A thread list is a chain of nodes between two sentinels that live inside
    the list itself; a thread's own node is embedded in the thread.  A node
    address says which of these it is.  The theorems relate the operations to
    lists of threads, and frame them: other lists are left alone. *)

From stdpp Require Import base tactics list gmap option numbers ssreflect.
From S2P Require Import Prelude.

Open Scope Z_scope.

(** ** Data and state *)

(** [&tl->tl_head], [&tl->tl_tail] and [&t->t_listnode]. *)
Inductive addr := Head (tl : loc) | Tail (tl : loc) | Of (t : loc).

#[export] Instance addr_eq_dec : EqDecision addr.
Proof. solve_decision. Defined.
#[export, refine] Instance addr_countable : Countable addr :=
  inj_countable' (λ a, match a with Head l => inl (inl l) | Tail l => inl (inr l) | Of l => inr l end)
    (λ x, match x with inl (inl l) => Head l | inl (inr l) => Tail l | inr l => Of l end) _.
Proof. by intros []. Defined.

#[export] Instance Of_inj : Inj (=) (=) Of.
Proof. by intros x y [= ->]. Qed.

(** [struct threadlistnode]. *)
Record node := Node { tln_prev : option addr; tln_next : option addr; tln_self : ptr }.

Record state := State {
  tnodes : gmap addr node;
  counts : gmap loc Z                (* [tl_count] of every list *)
}.

Definition set_node (a : addr) (n : node) (s : state) := State (<[a := n]> (tnodes s)) (counts s).

(** [*p]; a node pointer that is NULL or not a node is a fault. *)
Definition load (p : option addr) : M state node :=
  deref (λ s, a ← p; tnodes s !! a).
Definition store (p : option addr) (f : node → node) : M state unit :=
  n ← load p;
  match p with Some a => modify (set_node a (f n)) | None => stops Fault end.
Definition set_prev p q := store p (λ n, Node q (tln_next n) (tln_self n)).
Definition set_next p q := store p (λ n, Node (tln_prev n) q (tln_self n)).

Definition count (tl : loc) : M state Z := deref (λ s, counts s !! tl).
Definition set_count (tl : loc) (c : Z) : M state unit := modify (λ s, State (tnodes s) (<[tl := c]> (counts s))).

(** ** Operations

    [DEBUGASSERT] is compiled out (kern/include/lib.h). *)

Definition threadlistnode_init (tln : addr) (t : ptr) : M state unit :=
  kassert (bool_decide (t ≠ None));;
  modify (set_node tln (Node None None t)).

Definition threadlistnode_cleanup (tln : addr) : M state unit :=
  n ← load (Some tln);
  kassert (bool_decide (tln_next n = None));;
  kassert (bool_decide (tln_prev n = None));;
  kassert (bool_decide (tln_self n ≠ None)).

Definition threadlist_init (tl : loc) : M state unit :=
  modify (set_node (Head tl) (Node None (Some (Tail tl)) None));;
  modify (set_node (Tail tl) (Node (Some (Head tl)) None None));;
  set_count tl 0.

Definition threadlist_isempty (tl : loc) : M state bool :=
  c ← count tl; mret (bool_decide (c = 0)).

Definition threadlist_cleanup (tl : loc) : M state unit :=
  e ← threadlist_isempty tl;
  kassert e;;
  c ← count tl;
  kassert (bool_decide (c = 0)).

Definition threadlist_insertafternode (onlist : addr) (t : loc) : M state unit :=
  let addee := Some (Of t) in
  set_prev addee (Some onlist);;
  on ← load (Some onlist);
  set_next addee (tln_next on);;
  ad ← load addee;
  set_next (tln_prev ad) addee;;
  ad ← load addee;
  set_prev (tln_next ad) addee.

Definition threadlist_insertbeforenode (t : loc) (onlist : addr) : M state unit :=
  let addee := Some (Of t) in
  on ← load (Some onlist);
  set_prev addee (tln_prev on);;
  set_next addee (Some onlist);;
  ad ← load addee;
  set_next (tln_prev ad) addee;;
  ad ← load addee;
  set_prev (tln_next ad) addee.

Definition threadlist_removenode (tln : addr) : M state unit :=
  n ← load (Some tln);
  set_next (tln_prev n) (tln_next n);;
  n ← load (Some tln);
  set_prev (tln_next n) (tln_prev n);;
  set_prev (Some tln) None;;
  set_next (Some tln) None.

Definition incr_count (tl : loc) : M state unit := c ← count tl; set_count tl (u32 (c + 1)).
Definition decr_count (tl : loc) : M state unit := c ← count tl; set_count tl (u32 (c - 1)).

Definition threadlist_addhead (tl t : loc) : M state unit :=
  threadlist_insertafternode (Head tl) t;; incr_count tl.

Definition threadlist_addtail (tl t : loc) : M state unit :=
  threadlist_insertbeforenode t (Tail tl);; incr_count tl.

Definition threadlist_remhead (tl : loc) : M state ptr :=
  hd ← load (Some (Head tl));
  n ← load (tln_next hd);
  match tln_next n, tln_next hd with
  | Some _, Some tln =>
      threadlist_removenode tln;;
      decr_count tl;;
      n ← load (Some tln);
      mret (tln_self n)
  | _, _ => mret None
  end.

Definition threadlist_remtail (tl : loc) : M state ptr :=
  tail ← load (Some (Tail tl));
  n ← load (tln_prev tail);
  match tln_prev n, tln_prev tail with
  | Some _, Some tln =>
      threadlist_removenode tln;;
      decr_count tl;;
      n ← load (Some tln);
      mret (tln_self n)
  | _, _ => mret None
  end.

Definition threadlist_insertafter (tl onlist addee : loc) : M state unit :=
  threadlist_insertafternode (Of onlist) addee;; incr_count tl.

Definition threadlist_insertbefore (tl addee onlist : loc) : M state unit :=
  threadlist_insertbeforenode addee (Of onlist);; incr_count tl.

Definition threadlist_remove (tl t : loc) : M state unit :=
  threadlist_removenode (Of t);; decr_count tl.

(** ** Chains of nodes *)

Definition self_of (a : addr) : ptr := match a with Of t => Some t | _ => None end.

(** The nodes of [path] are linked to each other, the first to [pp] backwards
    and the last to [nx] forwards. *)
Fixpoint linked (h : gmap addr node) (pp : option addr) (path : list addr) (nx : option addr) : Prop :=
  match path with
  | [] => True
  | a :: rest =>
      h !! a = Some (Node pp (match rest with [] => nx | b :: _ => Some b end) (self_of a))
      ∧ linked h (Some a) rest nx
  end.

Definition head_or (path : list addr) (d : option addr) : option addr :=
  match path with [] => d | b :: _ => Some b end.
Definition last_or (path : list addr) (d : option addr) : option addr :=
  match last path with Some b => Some b | None => d end.

Lemma linked_app h pp p1 p2 nx :
  linked h pp (p1 ++ p2) nx ↔ linked h pp p1 (head_or p2 nx) ∧ linked h (last_or p1 pp) p2 nx.
Proof.
  revert pp. induction p1 as [|a p1 IH]; intros pp; simpl; [naive_solver|].
  rw IH. assert (last_or (a :: p1) pp = last_or p1 (Some a)) as ->.
  { rw /last_or last_cons. by destruct (last p1). }
  destruct p1; simpl; naive_solver.
Qed.

Lemma linked_frame h pp path nx a n : a ∉ path → linked h pp path nx → linked (<[a := n]> h) pp path nx.
Proof.
  revert pp. induction path as [|b path IH]; intros pp; [done|].
  intros [Hne Hn]%not_elem_of_cons [Hb Hs]. split; [by rw lookup_insert_ne|by apply IH].
Qed.

(** A detached node. *)
Definition detached (h : gmap addr node) (t : loc) : Prop := h !! Of t = Some (Node None None (Some t)).

Definition tpath (tl : loc) (ts : list loc) : list addr := Head tl :: (Of <$> ts) ++ [Tail tl].

(** [tl] is a list that holds the threads [ts]. *)
Record tlist (s : state) (tl : loc) (ts : list loc) : Prop := {
  tl_linked : linked (tnodes s) None (tpath tl ts) None;
  tl_nodup : NoDup ts;
  tl_counts : counts s !! tl = Some (u32 (Z.of_nat (length ts)))
}.

Lemma NoDup_tpath tl ts : NoDup ts → NoDup (tpath tl ts).
Proof.
  intros Hnd. rw /tpath. apply NoDup_cons. split.
  - rw elem_of_app list_elem_of_fmap. rw list_elem_of_singleton. naive_solver.
  - apply NoDup_app. split; [by apply (NoDup_fmap_2 _)|]. split; [|by apply NoDup_singleton].
    intros a. rw list_elem_of_fmap list_elem_of_singleton. naive_solver.
Qed.

(** Two neighbours in a chain. *)
Lemma linked_at h p1 a b p2 :
  linked h None (p1 ++ a :: b :: p2) None →
  h !! a = Some (Node (last_or p1 None) (Some b) (self_of a)) ∧
  h !! b = Some (Node (Some a) (head_or p2 None) (self_of b)) ∧
  linked h None p1 (Some a) ∧ linked h (Some b) p2 None.
Proof. rw linked_app /=. naive_solver. Qed.

(** Linking [x] in between them, and unlinking what is between them. *)
Definition inserted (h : gmap addr node) (p1 : list addr) (a : addr) (x : loc) (b : addr) (p2 : list addr) :=
  <[b := Node (Some (Of x)) (head_or p2 None) (self_of b)]>
    (<[a := Node (last_or p1 None) (Some (Of x)) (self_of a)]>
      (<[Of x := Node (Some a) (Some b) (Some x)]> h)).

Definition removed (h : gmap addr node) (p1 : list addr) (a : addr) (x : loc) (b : addr) (p2 : list addr) :=
  <[Of x := Node None None (Some x)]>
    (<[b := Node (Some a) (head_or p2 None) (self_of b)]>
      (<[a := Node (last_or p1 None) (Some b) (self_of a)]> h)).

Lemma NoDup_split3 (p1 : list addr) a b p2 :
  NoDup (p1 ++ a :: b :: p2) → a ≠ b ∧ a ∉ p1 ∧ b ∉ p1 ∧ a ∉ p2 ∧ b ∉ p2.
Proof.
  intros (_ & Hd & [Ha [Hb _]%NoDup_cons]%NoDup_cons)%NoDup_app.
  rw not_elem_of_cons in Ha. destruct Ha as [? ?]. do 2 (split; [intros ?; set_solver|]). 
  split; [intros ?; eapply Hd; [done|set_solver]|]. done.
Qed.

Lemma linked_inserted h p1 a x b p2 :
  linked h None (p1 ++ a :: b :: p2) None → NoDup (p1 ++ a :: b :: p2) → Of x ∉ p1 ++ a :: b :: p2 →
  linked (inserted h p1 a x b p2) None (p1 ++ a :: Of x :: b :: p2) None.
Proof.
  intros Hl (Hab & Ha1 & Hb1 & Ha2 & Hb2)%NoDup_split3 Hx.
  destruct (linked_at _ _ _ _ _ Hl) as (Ha & Hb & H1 & H2).
  assert (Of x ≠ a ∧ Of x ≠ b ∧ Of x ∉ p1 ∧ Of x ∉ p2) as (? & ? & ? & ?) by set_solver.
  rw linked_app /= /inserted. split; [by do 3 (apply linked_frame; [done|])|].
  do 3 (split; [by simplify_map_eq|]).
  by do 3 (apply linked_frame; [done|]).
Qed.

Lemma linked_removed h p1 a x b p2 :
  linked h None (p1 ++ a :: Of x :: b :: p2) None → NoDup (p1 ++ a :: Of x :: b :: p2) →
  linked (removed h p1 a x b p2) None (p1 ++ a :: b :: p2) None ∧ detached (removed h p1 a x b p2) x.
Proof.
  intros Hl Hnd. pose proof (NoDup_split3 _ _ _ _ Hnd) as (Hax & Ha1 & Hx1 & Ha2 & Hx2).
  destruct (linked_at _ _ _ _ _ Hl) as (Ha & _ & H1 & H2). simpl in H2. destruct H2 as [Hb H2].
  rw (cons_middle a) app_assoc in Hnd. apply NoDup_split3 in Hnd as (Hxb & _ & Hb1 & _ & Hb2).
  apply not_elem_of_app in Hb1 as [Hb1 Hba]. rw list_elem_of_singleton in Hba.
  rw not_elem_of_cons in Ha2. destruct Ha2 as [_ Ha2]. rw not_elem_of_cons in Hx2. destruct Hx2 as [_ Hx2].
  rw /removed. split; [|apply lookup_insert_eq]. rw linked_app /=.
  split; [by do 3 (apply linked_frame; [done|])|].
  do 2 (split; [by simplify_map_eq|]).
  by do 3 (apply linked_frame; [done|]).
Qed.

(** ** The node operations *)

Lemma wp_tln_load s a n Q : tnodes s !! a = Some n → Q n s → wp (load (Some a)) Q s.
Proof. intros H HQ. by eapply wp_deref. Qed.

Lemma wp_tln_store s a n f (Q : unit → state → Prop) :
  tnodes s !! a = Some n → Q tt (set_node a (f n) s) → wp (store (Some a) f) Q s.
Proof. intros H HQ. rw /store. wp_step. eapply wp_tln_load; [done|]. by apply wp_modify. Qed.

Definition with_nodes (s : state) (h : gmap addr node) : state := State h (counts s).

Section node_ops.
Context (s : state) (p1 : list addr) (a : addr) (x : loc) (b : addr) (p2 : list addr).

Lemma insertafternode_spec :
  linked (tnodes s) None (p1 ++ a :: b :: p2) None → NoDup (p1 ++ a :: b :: p2) →
  Of x ∉ p1 ++ a :: b :: p2 → detached (tnodes s) x →
  wp (threadlist_insertafternode a x)
     (λ _ s', s' = with_nodes s (inserted (tnodes s) p1 a x b p2)) s.
Proof.
  intros Hl (Hab & _)%NoDup_split3 Hx Hd. destruct (linked_at _ _ _ _ _ Hl) as (Ha & Hb & _).
  assert (Of x ≠ a ∧ Of x ≠ b) as [Hxa Hxb] by set_solver. rw /threadlist_insertafternode.
  wp_step. eapply wp_tln_store; [exact Hd|]. wp_step. eapply wp_tln_load; [by rw /= lookup_insert_ne|].
  wp_step. eapply wp_tln_store; [apply lookup_insert_eq|].
  wp_step. eapply wp_tln_load; [apply lookup_insert_eq|].
  wp_step. eapply wp_tln_store; [by rw /= !lookup_insert_ne|].
  wp_step. eapply wp_tln_load; [rw /= lookup_insert_ne //; apply lookup_insert_eq|].
  eapply wp_tln_store; [by rw /= !lookup_insert_ne|]. 
  by rw /set_node /with_nodes /inserted /= insert_insert_eq.
Qed.

Lemma insertbeforenode_spec :
  linked (tnodes s) None (p1 ++ a :: b :: p2) None → NoDup (p1 ++ a :: b :: p2) →
  Of x ∉ p1 ++ a :: b :: p2 → detached (tnodes s) x →
  wp (threadlist_insertbeforenode x b)
     (λ _ s', s' = with_nodes s (inserted (tnodes s) p1 a x b p2)) s.
Proof.
  intros Hl (Hab & _)%NoDup_split3 Hx Hd. destruct (linked_at _ _ _ _ _ Hl) as (Ha & Hb & _).
  assert (Of x ≠ a ∧ Of x ≠ b) as [Hxa Hxb] by set_solver. rw /threadlist_insertbeforenode.
  wp_step. eapply wp_tln_load; [exact Hb|]. wp_step. eapply wp_tln_store; [exact Hd|].
  wp_step. eapply wp_tln_store; [apply lookup_insert_eq|].
  wp_step. eapply wp_tln_load; [apply lookup_insert_eq|].
  wp_step. eapply wp_tln_store; [by rw /= !lookup_insert_ne|].
  wp_step. eapply wp_tln_load; [rw /= lookup_insert_ne //; apply lookup_insert_eq|].
  eapply wp_tln_store; [by rw /= !lookup_insert_ne|].
  by rw /set_node /with_nodes /inserted /= insert_insert_eq.
Qed.

Lemma removenode_spec :
  linked (tnodes s) None (p1 ++ a :: Of x :: b :: p2) None → NoDup (p1 ++ a :: Of x :: b :: p2) →
  wp (threadlist_removenode (Of x))
     (λ _ s', s' = with_nodes s (removed (tnodes s) p1 a x b p2)) s.
Proof.
  intros Hl Hnd. pose proof (NoDup_split3 _ _ _ _ Hnd) as (Hax & _).
  destruct (linked_at _ _ _ _ _ Hl) as (Ha & Hx & _ & Hb & _). simpl in Hx.
  rw (cons_middle a) app_assoc in Hnd. apply NoDup_split3 in Hnd as (Hxb & _ & Hb1 & _).
  assert (a ≠ b) as Hab by set_solver. rw /threadlist_removenode.
  wp_step. eapply wp_tln_load; [exact Hx|]. wp_step. eapply wp_tln_store; [exact Ha|].
  wp_step. eapply wp_tln_load; [by rw /= lookup_insert_ne|].
  wp_step. eapply wp_tln_store; [by rw /= lookup_insert_ne|].
  wp_step. eapply wp_tln_store; [by rw /= !lookup_insert_ne|].
  eapply wp_tln_store; [apply lookup_insert_eq|].
  by rw /set_node /with_nodes /removed /= insert_insert_eq.
Qed.
End node_ops.

(** ** The list operations *)

(** The neighbours of a position in a list. *)
Definition left_of (tl : loc) (us : list loc) : addr :=
  match last us with Some t => Of t | None => Head tl end.
Definition right_of (tl : loc) (vs : list loc) : addr :=
  match vs with [] => Tail tl | t :: _ => Of t end.

Lemma tpath_split tl us vs : ∃ p1 p2, ∀ ws,
  tpath tl (us ++ ws ++ vs) = p1 ++ left_of tl us :: (Of <$> ws) ++ right_of tl vs :: p2.
Proof.
  exists (match last us with None => [] | Some _ => Head tl :: (Of <$> removelast us) end),
    (match vs with [] => [] | _ :: vs' => (Of <$> vs') ++ [Tail tl] end).
  intros ws. rw /tpath !fmap_app /left_of /right_of.
  destruct us as [|t us _] using rev_ind; destruct vs as [|u vs];
    by rw ?last_snoc ?removelast_last ?fmap_app /= ?app_nil_r -?app_assoc.
Qed.

(** What an operation on [tl] may have changed: the nodes of [tl] and of the
    threads [ts], and the count of [tl]. *)
Definition frame (s s' : state) (tl : loc) (ts : list loc) : Prop :=
  (∀ a, a ∉ tpath tl ts → tnodes s' !! a = tnodes s !! a) ∧
  (∀ tl', tl' ≠ tl → counts s' !! tl' = counts s !! tl').

Lemma linked_agree h h' pp path nx :
  (∀ a, a ∈ path → h' !! a = h !! a) → linked h pp path nx → linked h' pp path nx.
Proof.
  revert pp. induction path as [|a path IH]; intros pp Heq; [done|]. intros [Ha Hl].
  split; [rw Heq //; set_solver|]. apply IH; [|done]. intros b Hb. apply Heq. set_solver.
Qed.

Lemma elem_of_tpath a tl ts : a ∈ tpath tl ts ↔ a = Head tl ∨ a = Tail tl ∨ ∃ t, a = Of t ∧ t ∈ ts.
Proof.
  rw /tpath elem_of_cons elem_of_app list_elem_of_singleton list_elem_of_fmap. naive_solver.
Qed.

Lemma frame_tlist s s' tl ts tl' us :
  frame s s' tl ts → tl' ≠ tl → (∀ t, t ∈ us → t ∉ ts) → tlist s tl' us → tlist s' tl' us.
Proof.
  intros [Hn Hc] Hne Hdis [Hl Hnd Hct]. split; [|done|by rw Hc].
  eapply linked_agree; [|done]. intros a Ha. apply Hn. rw !elem_of_tpath in Ha |- *. naive_solver.
Qed.

Lemma frame_detached s s' tl ts t :
  frame s s' tl ts → t ∉ ts → detached (tnodes s) t → detached (tnodes s') t.
Proof. intros [Hn _] Ht Hd. rw /detached Hn // elem_of_tpath. naive_solver. Qed.

Lemma wp_count s tl c Q : counts s !! tl = Some c → Q c s → wp (count tl) Q s.
Proof. intros. by eapply wp_deref. Qed.

Lemma u32_succ z : u32 (u32 z + 1) = u32 (z + 1).
Proof. rw /u32. zlia. Qed.
Lemma u32_pred z : u32 (u32 z - 1) = u32 (z - 1).
Proof. rw /u32. zlia. Qed.

Section list_ops.
Context (s : state) (tl : loc) (us vs : list loc) (x : loc).

(** Adding [x] between [us] and [vs], by either node operation. *)
Lemma add_between (op : M state unit) :
  tlist s tl (us ++ vs) → x ∉ us ++ vs → detached (tnodes s) x →
  (op = threadlist_insertafternode (left_of tl us) x ∨
   op = threadlist_insertbeforenode x (right_of tl vs)) →
  wp (op;; incr_count tl)
     (λ _ s', tlist s' tl (us ++ x :: vs) ∧ frame s s' tl (us ++ x :: vs)) s.
Proof.
  intros [Hl Hnd Hc] Hx Hd Hop. destruct (tpath_split tl us vs) as (p1 & p2 & Hp).
  pose proof (Hp []) as Hp0. simpl in Hp0. rw Hp0 in Hl.
  pose proof (NoDup_tpath tl _ Hnd) as Hndp. rw Hp0 in Hndp.
  assert (Of x ∉ p1 ++ left_of tl us :: right_of tl vs :: p2) as Hxp.
  { rw -Hp0 elem_of_tpath. naive_solver. }
  wp_step. apply (wp_mono _ (λ _ s', s' =
    with_nodes s (inserted (tnodes s) p1 (left_of tl us) x (right_of tl vs) p2))).
  { destruct Hop as [-> | ->]; [by apply insertafternode_spec | by apply insertbeforenode_spec]. }
  intros _ s' ->. rw /incr_count. wp_step. eapply wp_count; [done|]. apply wp_modify.
  pose proof (Hp [x]) as Hp1. simpl in Hp1. split; [split|split].
  - rw Hp1. by apply linked_inserted.
  - rw -Permutation_middle. by constructor.
  - rw /= lookup_insert_eq u32_succ. do 2 f_equal. rw !length_app /=. lia.
  - intros a Ha. rw Hp1 in Ha. rw /= /inserted !lookup_insert_ne //; set_solver.
  - intros tl' Hne. by rw /= lookup_insert_ne.
Qed.

Lemma remove_between :
  tlist s tl (us ++ x :: vs) →
  wp (threadlist_removenode (Of x);; decr_count tl)
     (λ _ s', tlist s' tl (us ++ vs) ∧ detached (tnodes s') x ∧ frame s s' tl (us ++ x :: vs)) s.
Proof.
  intros [Hl Hnd Hc]. destruct (tpath_split tl us vs) as (p1 & p2 & Hp).
  pose proof (Hp [x]) as Hp1. simpl in Hp1. rw Hp1 in Hl.
  pose proof (NoDup_tpath tl _ Hnd) as Hndp. rw Hp1 in Hndp.
  destruct (linked_removed _ _ _ _ _ _ Hl Hndp) as [Hl' Hd'].
  wp_step. eapply wp_mono; [by eapply removenode_spec|].
  intros _ s' ->. rw /decr_count. wp_step. eapply wp_count; [done|]. apply wp_modify.
  pose proof (Hp []) as Hp0. simpl in Hp0. split; [split|split; [exact Hd'|split]].
  - rw Hp0. exact Hl'.
  - rw -Permutation_middle in Hnd. by apply NoDup_cons in Hnd as [_ ?].
  - rw /= lookup_insert_eq u32_pred. do 2 f_equal. rw !length_app /=. lia.
  - intros a Ha. rw Hp1 in Ha. rw /= /removed !lookup_insert_ne //; set_solver.
  - intros tl' Hne. by rw /= lookup_insert_ne.
Qed.
End list_ops.

Lemma addhead_spec s tl ts x :
  tlist s tl ts → x ∉ ts → detached (tnodes s) x →
  wp (threadlist_addhead tl x) (λ _ s', tlist s' tl (x :: ts) ∧ frame s s' tl (x :: ts)) s.
Proof. intros. apply (add_between _ _ [] ts); auto. Qed.

Lemma addtail_spec s tl ts x :
  tlist s tl ts → x ∉ ts → detached (tnodes s) x →
  wp (threadlist_addtail tl x) (λ _ s', tlist s' tl (ts ++ [x]) ∧ frame s s' tl (ts ++ [x])) s.
Proof. intros. apply (add_between _ _ ts []); rw ?app_nil_r; auto. Qed.

Lemma insertafter_spec s tl us y vs x :
  tlist s tl (us ++ y :: vs) → x ∉ us ++ y :: vs → detached (tnodes s) x →
  wp (threadlist_insertafter tl y x)
     (λ _ s', tlist s' tl (us ++ y :: x :: vs) ∧ frame s s' tl (us ++ y :: x :: vs)) s.
Proof.
  intros Ht Hx Hd. rw !(cons_middle y) !app_assoc in Ht Hx |- *.
  apply add_between; [done..|]. left. by rw /left_of last_snoc.
Qed.

Lemma insertbefore_spec s tl us y vs x :
  tlist s tl (us ++ y :: vs) → x ∉ us ++ y :: vs → detached (tnodes s) x →
  wp (threadlist_insertbefore tl x y)
     (λ _ s', tlist s' tl (us ++ x :: y :: vs) ∧ frame s s' tl (us ++ x :: y :: vs)) s.
Proof. intros. apply add_between; auto. Qed.

Lemma remove_spec s tl us x vs :
  tlist s tl (us ++ x :: vs) →
  wp (threadlist_remove tl x)
     (λ _ s', tlist s' tl (us ++ vs) ∧ detached (tnodes s') x ∧ frame s s' tl (us ++ x :: vs)) s.
Proof. apply remove_between. Qed.

Lemma remhead_spec s tl ts :
  tlist s tl ts →
  wp (threadlist_remhead tl) (λ r s', r = head ts ∧ tlist s' tl (tail ts) ∧
    match ts with [] => s' = s | x :: _ => detached (tnodes s') x end ∧ frame s s' tl ts) s.
Proof.
  intros Ht. pose proof Ht as [Hl _ _]. destruct ts as [|x ts].
  - destruct Hl as (Hh & Htl & _). rw /threadlist_remhead. wp_step. eapply wp_tln_load; [done|].
    wp_step. eapply wp_tln_load; [done|]. by apply wp_ret.
  - pose proof Hl as (Hh & Hx & _). rw /threadlist_remhead. wp_step. eapply wp_tln_load; [done|].
    wp_step. eapply wp_tln_load; [done|]. cbn beta iota.
    assert (∃ nx, match (Of <$> ts) ++ [Tail tl] with [] => None | b :: _ => Some b end = Some nx) as [nx Hnx].
    { destruct ts; simpl; eauto. }
    rw /= Hnx. apply wp_group. wp_step.
    eapply wp_mono; [apply (remove_between _ _ [] ts); done|]. intros _ s' (Ht' & Hd & Hf).
    wp_step. eapply wp_tln_load; [done|]. by apply wp_ret.
Qed.

Lemma remtail_spec s tl ts :
  tlist s tl ts →
  wp (threadlist_remtail tl) (λ r s', r = last ts ∧ tlist s' tl (removelast ts) ∧
    match last ts with None => s' = s | Some x => detached (tnodes s') x end ∧ frame s s' tl ts) s.
Proof.
  intros Ht. destruct ts as [|x ts _] using rev_ind.
  - pose proof Ht as [(Hh & Htl & _) _ _]. rw /threadlist_remtail. wp_step. eapply wp_tln_load; [done|].
    wp_step. eapply wp_tln_load; [done|]. by apply wp_ret.
  - destruct (tpath_split tl ts []) as (p1 & p2 & Hp). specialize (Hp [x]). simpl in Hp.
    pose proof Ht as [Hl _ _]. rw Hp in Hl. pose proof Hl as (_ & Hx & _ & Htl & _)%linked_at.
    rw /threadlist_remtail. wp_step. eapply wp_tln_load; [done|].
    wp_step. eapply wp_tln_load; [exact Hx|]. cbn beta iota. apply wp_group. wp_step.
    eapply wp_mono; [by apply (remove_between _ _ ts [])|]. intros _ s' (Ht' & Hd & Hf).
    wp_step. eapply wp_tln_load; [done|]. apply wp_ret. rw last_snoc removelast_last.
    by rw app_nil_r in Ht'.
Qed.

Lemma init_spec s tl :
  wp (threadlist_init tl) (λ _ s', tlist s' tl [] ∧ frame s s' tl []) s.
Proof.
  rw /threadlist_init. wp_steps. rw /set_count. apply wp_modify. split; split; simpl; try done.
  - rw /linked /= lookup_insert_ne // !lookup_insert_eq. done.
  - constructor.
  - by rw lookup_insert_eq.
  - intros a Ha. rw !lookup_insert_ne //; set_solver.
  - intros tl' Hne. by rw lookup_insert_ne.
Qed.

(** ** The thread-list theorems *)

(** C33: the four operations at the ends make a thread list a double-ended
    queue: adding puts the thread at the end named, removing returns the thread
    there (NULL when the list is empty) and detaches its node, the count is
    right, and no node of another list is touched. *)
Theorem threadlist_is_deque s tl ts x :
  tlist s tl ts → x ∉ ts → detached (tnodes s) x →
  wp (threadlist_addhead tl x) (λ _ s', tlist s' tl (x :: ts) ∧ frame s s' tl (x :: ts)) s ∧
  wp (threadlist_addtail tl x) (λ _ s', tlist s' tl (ts ++ [x]) ∧ frame s s' tl (ts ++ [x])) s ∧
  wp (threadlist_remhead tl) (λ r s', r = head ts ∧ tlist s' tl (tail ts) ∧ frame s s' tl ts ∧
    ∀ t, r = Some t → detached (tnodes s') t) s ∧
  wp (threadlist_remtail tl) (λ r s', r = last ts ∧ tlist s' tl (removelast ts) ∧ frame s s' tl ts ∧
    ∀ t, r = Some t → detached (tnodes s') t) s.
Proof.
  intros Ht Hx Hd. split; [by apply addhead_spec|]. split; [by apply addtail_spec|]. split.
  - eapply wp_mono; [by apply remhead_spec|]. intros r s' (-> & ? & Hdt & ?). do 3 (split; [done|]).
    intros t. by destruct ts; intros [= ->].
  - eapply wp_mono; [by apply remtail_spec|]. intros r s' (-> & ? & Hdt & ?). do 3 (split; [done|]).
    intros t Hlast. by rw Hlast in Hdt.
Qed.

(** C40: insertion next to a thread of the list and removal from its middle:
    a detached thread goes exactly there; removing it again restores the list. *)
Theorem threadlist_insert_remove s tl us y vs x :
  tlist s tl (us ++ y :: vs) → x ∉ us ++ y :: vs → detached (tnodes s) x →
  wp (threadlist_insertafter tl y x) (λ _ s', tlist s' tl (us ++ y :: x :: vs)) s ∧
  wp (threadlist_insertbefore tl x y) (λ _ s', tlist s' tl (us ++ x :: y :: vs)) s ∧
  wp (threadlist_insertafter tl y x;; threadlist_remove tl x)
     (λ _ s', tlist s' tl (us ++ y :: vs) ∧ detached (tnodes s') x) s.
Proof.
  intros Ht Hx Hd. split; [eapply wp_mono; [by apply insertafter_spec|naive_solver]|].
  split; [eapply wp_mono; [by apply insertbefore_spec|naive_solver]|].
  wp_step. eapply wp_mono; [by apply insertafter_spec|]. intros [] s' [Ht' _].
  rw (cons_middle y) app_assoc in Ht'. eapply wp_mono; [by apply remove_spec|].
  intros _ s'' (Ht'' & ? & _). by rw -app_assoc in Ht''.
Qed.

(** A list (1) of two threads (10 and 11), and a detached thread (12). *)
Definition two_threads : state := State
  {[Head 1 := Node None (Some (Of 10)) None;
    Of 10%positive := Node (Some (Head 1)) (Some (Of 11)) (Some 10%positive);
    Of 11%positive := Node (Some (Of 10)) (Some (Tail 1)) (Some 11%positive);
    Tail 1 := Node (Some (Of 11)) None None;
    Of 12%positive := Node None None (Some 12%positive)]}
  {[1%positive := 2]}.

Lemma two_threads_tlist : tlist two_threads 1 [10; 11]%positive.
Proof. split; [by repeat (split; [reflexivity|]) | by_decide | done]. Qed.

Lemma threadlist_is_deque_witness :
  wp (threadlist_remhead 1) (λ r s', r = Some 10%positive ∧ tlist s' 1 [11%positive] ∧
    frame two_threads s' 1 [10; 11]%positive ∧ ∀ t, r = Some t → detached (tnodes s') t) two_threads.
Proof.
  apply (threadlist_is_deque two_threads 1 [10; 11]%positive 12 two_threads_tlist); [by_decide|done].
Defined.

Lemma threadlist_insert_remove_witness :
  wp (threadlist_insertafter 1 10 12;; threadlist_remove 1 12)
     (λ _ s', tlist s' 1 [10; 11]%positive ∧ detached (tnodes s') 12) two_threads.
Proof.
  apply (threadlist_insert_remove two_threads 1 [] 10 [11]%positive 12 two_threads_tlist); [by_decide|done].
Defined.
