(* ===== verification/Sched.v ===== *)
(** * Threads, run queues and wait channels

    kern/thread/thread.c (creation, context switch, exit, migration, wait
    channels, interprocessor interrupts), kern/thread/spinlock.c and
    kern/thread/spl.c, as executed by one CPU.  Run queues, wait channels and
    zombie lists are thread lists ([ThreadList]).  A spinlock another CPU holds
    makes the code spin: [Blocked].  What happens while the CPU idles (the
    interrupts that put threads on its run queue) is a list of events in the
    state.

    [thread_switch] changes the thread that runs: its model goes on in the
    thread switched to, up to the point where that thread leaves the context
    it had been suspended in ([t_context]). *)

From stdpp Require Import base tactics list gmap option numbers ssreflect.
From S2P Require Import Prelude Kern.
From S2P Require ThreadList.

Open Scope Z_scope.

(** ** Data *)

Inductive threadstate := S_RUN | S_READY | S_SLEEP | S_ZOMBIE.
#[export] Instance threadstate_eq_dec : EqDecision threadstate.
Proof. solve_decision. Defined.

(** The values of [t_wchan_name]. *)
Inductive wname := NEW | ZOMBIE | DESTROYED | Name (n : loc).

(** Where a thread that does not run will go on: at the start of its entry
    point, or in [thread_switch], with the saved interrupt level and, below a
    [wchan_sleep], the spinlock to take again. *)
Inductive context := Startup | Switched (spl : Z) (relock : ptr).

(** [struct thread]; [t_listnode] is the node [Of t] of the thread lists, and
    [t_checked] says that the guard words of the stack are in place. *)
Record thread := Thread {
  t_wchan_name : option wname; t_state : threadstate; t_stack : ptr; t_checked : bool;
  t_context : context; t_cpu : ptr; t_proc : ptr; t_in_interrupt : bool;
  t_curspl : Z; t_iplhigh_count : Z
}.

(** [struct cpu]: what changes, and the addresses of its lists and spinlocks;
    [c_irq] says whether interrupts are on. *)
Record cpu := Cpu {
  c_curthread : loc; c_isidle : bool; c_spinlocks : Z; c_ipi_pending : Z; c_irq : bool;
  c_runqueue : loc; c_zombies : loc; c_runqueue_lock : loc; c_ipi_lock : loc
}.

Record wchan := Wchan { wc_name : loc; wc_threads : loc }.
Record spinlock := Spinlock { splk_lock : bool; splk_holder : ptr }.

Record state := State {
  sys : base;
  lists : ThreadList.state;
  threads : gmap loc thread;
  cpus : gmap loc cpu;
  allcpus : list loc;
  curcpu : loc;
  wchans : gmap loc wchan;
  splks : gmap loc spinlock;
  thread_count : Z;
  events : list (list loc)      (* per wake-up from idle: the threads woken *)
}.

#[export, refine] Instance state_base : HasBase state := {|
  base_of := sys;
  with_base b s := State b (lists s) (threads s) (cpus s) (allcpus s) (curcpu s) (wchans s) (splks s)
    (thread_count s) (events s)
|}.
Proof. all: intros; by repeat destruct select state. Defined.

Definition set_lists l s := State (sys s) l (threads s) (cpus s) (allcpus s) (curcpu s) (wchans s)
  (splks s) (thread_count s) (events s).
Definition upd_threads f s := State (sys s) (lists s) (f (threads s)) (cpus s) (allcpus s) (curcpu s)
  (wchans s) (splks s) (thread_count s) (events s).
Definition upd_cpus f s := State (sys s) (lists s) (threads s) (f (cpus s)) (allcpus s) (curcpu s)
  (wchans s) (splks s) (thread_count s) (events s).
Definition upd_wchans f s := State (sys s) (lists s) (threads s) (cpus s) (allcpus s) (curcpu s)
  (f (wchans s)) (splks s) (thread_count s) (events s).
Definition upd_splks f s := State (sys s) (lists s) (threads s) (cpus s) (allcpus s) (curcpu s)
  (wchans s) (f (splks s)) (thread_count s) (events s).
Definition set_thread_count n s := State (sys s) (lists s) (threads s) (cpus s) (allcpus s) (curcpu s)
  (wchans s) (splks s) n (events s).
Definition set_events e s := State (sys s) (lists s) (threads s) (cpus s) (allcpus s) (curcpu s)
  (wchans s) (splks s) (thread_count s) e.

(** A thread-list operation on the lists of the state. *)
Definition on_lists {A} (m : M ThreadList.state A) : M state A := λ s,
  match m (lists s) with
  | Ok a l => Ok a (set_lists l s)
  | Stop e l => Stop e (set_lists l s)
  end.

Definition get_thread (t : loc) : M state thread := deref (λ s, threads s !! t).
Definition get_cpu (c : loc) : M state cpu := deref (λ s, cpus s !! c).
Definition upd_thread (t : loc) (f : thread → thread) : M state unit :=
  th ← get_thread t; modify (upd_threads <[t := f th]>).
Definition upd_cpu (c : loc) (f : cpu → cpu) : M state unit :=
  cp ← get_cpu c; modify (upd_cpus <[c := f cp]>).

Definition get_curcpu : M state cpu := c ← gets curcpu; get_cpu c.
Definition upd_curcpu (f : cpu → cpu) : M state unit := c ← gets curcpu; upd_cpu c f.
(** [curthread]. *)
Definition curthread : M state loc := c ← get_curcpu; mret (c_curthread c).

Definition with_state st t := Thread (t_wchan_name t) st (t_stack t) (t_checked t) (t_context t) (t_cpu t)
  (t_proc t) (t_in_interrupt t) (t_curspl t) (t_iplhigh_count t).
Definition with_wchan w t := Thread w (t_state t) (t_stack t) (t_checked t) (t_context t) (t_cpu t)
  (t_proc t) (t_in_interrupt t) (t_curspl t) (t_iplhigh_count t).
Definition with_context c t := Thread (t_wchan_name t) (t_state t) (t_stack t) (t_checked t) c (t_cpu t)
  (t_proc t) (t_in_interrupt t) (t_curspl t) (t_iplhigh_count t).
Definition with_cpu c t := Thread (t_wchan_name t) (t_state t) (t_stack t) (t_checked t) (t_context t) c
  (t_proc t) (t_in_interrupt t) (t_curspl t) (t_iplhigh_count t).
Definition with_stack p b t := Thread (t_wchan_name t) (t_state t) p b (t_context t) (t_cpu t)
  (t_proc t) (t_in_interrupt t) (t_curspl t) (t_iplhigh_count t).
Definition with_proc p t := Thread (t_wchan_name t) (t_state t) (t_stack t) (t_checked t) (t_context t)
  (t_cpu t) p (t_in_interrupt t) (t_curspl t) (t_iplhigh_count t).
Definition with_spl l n t := Thread (t_wchan_name t) (t_state t) (t_stack t) (t_checked t) (t_context t)
  (t_cpu t) (t_proc t) (t_in_interrupt t) l n.

Definition cpu_with_spinlocks n c := Cpu (c_curthread c) (c_isidle c) n (c_ipi_pending c) (c_irq c)
  (c_runqueue c) (c_zombies c) (c_runqueue_lock c) (c_ipi_lock c).
Definition cpu_with_irq b c := Cpu (c_curthread c) (c_isidle c) (c_spinlocks c) (c_ipi_pending c) b
  (c_runqueue c) (c_zombies c) (c_runqueue_lock c) (c_ipi_lock c).
Definition cpu_with_idle b c := Cpu (c_curthread c) b (c_spinlocks c) (c_ipi_pending c) (c_irq c)
  (c_runqueue c) (c_zombies c) (c_runqueue_lock c) (c_ipi_lock c).
Definition cpu_with_pending p c := Cpu (c_curthread c) (c_isidle c) (c_spinlocks c) p (c_irq c)
  (c_runqueue c) (c_zombies c) (c_runqueue_lock c) (c_ipi_lock c).
Definition cpu_with_thread t c := Cpu t (c_isidle c) (c_spinlocks c) (c_ipi_pending c) (c_irq c)
  (c_runqueue c) (c_zombies c) (c_runqueue_lock c) (c_ipi_lock c).

(** ** Interrupt levels (spl.c), once [curcpu] exists *)

Definition IPL_NONE : Z := 0.
Definition IPL_HIGH : Z := 1.

Definition splraise (oldspl newspl : Z) : M state unit :=
  cur ← curthread;
  kassert (bool_decide (oldspl = IPL_NONE));;
  kassert (bool_decide (newspl = IPL_HIGH));;
  th ← get_thread cur;
  (if bool_decide (t_iplhigh_count th = 0) then upd_curcpu (cpu_with_irq false) else mret tt);;
  upd_thread cur (λ t, with_spl (t_curspl t) (s32 (t_iplhigh_count t + 1)) t).

Definition spllower (oldspl newspl : Z) : M state unit :=
  cur ← curthread;
  kassert (bool_decide (oldspl = IPL_HIGH));;
  kassert (bool_decide (newspl = IPL_NONE));;
  upd_thread cur (λ t, with_spl (t_curspl t) (s32 (t_iplhigh_count t - 1)) t);;
  th ← get_thread cur;
  if bool_decide (t_iplhigh_count th = 0) then upd_curcpu (cpu_with_irq true) else mret tt.

Definition splx (spl : Z) : M state Z :=
  cur ← curthread;
  th ← get_thread cur;
  if bool_decide (t_curspl th < spl) then
    splraise (t_curspl th) spl;;
    upd_thread cur (λ t, with_spl spl (t_iplhigh_count t) t);;
    mret (t_curspl th)
  else if bool_decide (t_curspl th > spl) then
    upd_thread cur (λ t, with_spl spl (t_iplhigh_count t) t);;
    spllower (t_curspl th) spl;;
    mret (t_curspl th)
  else mret spl.

Definition spl0 : M state Z := splx IPL_NONE.
Definition splhigh : M state Z := splx IPL_HIGH.

(** ** Spinlocks (spinlock.c) *)

Definition get_splk (p : loc) : M state spinlock := deref (λ s, splks s !! p).
Definition set_splk (p : loc) (k : spinlock) : M state unit := modify (upd_splks <[p := k]>).

Definition spinlock_init (p : loc) : M state unit := set_splk p (Spinlock false None).

Definition spinlock_cleanup (p : loc) : M state unit :=
  k ← get_splk p;
  kassert (bool_decide (splk_holder k = None));;
  kassert (negb (splk_lock k)).

(** The test-and-set loop goes on at once when the lock word is clear. *)
Definition spinlock_acquire (p : loc) : M state unit :=
  splraise IPL_NONE IPL_HIGH;;
  mycpu ← gets curcpu;
  k ← get_splk p;
  (if bool_decide (splk_holder k = Some mycpu) then stops Panic else mret tt);;
  upd_cpu mycpu (λ c, cpu_with_spinlocks (u32 (c_spinlocks c + 1)) c);;
  if splk_lock k then stops (Blocked p)
  else set_splk p (Spinlock true (Some mycpu)).

Definition spinlock_release (p : loc) : M state unit :=
  mycpu ← gets curcpu;
  k ← get_splk p;
  kassert (bool_decide (splk_holder k = Some mycpu));;
  c ← get_cpu mycpu;
  kassert (bool_decide (c_spinlocks c > 0));;
  upd_cpu mycpu (λ c, cpu_with_spinlocks (u32 (c_spinlocks c - 1)) c);;
  set_splk p (Spinlock false None);;
  spllower IPL_HIGH IPL_NONE.

Definition spinlock_do_i_hold (p : loc) : M state bool :=
  mycpu ← gets curcpu;
  k ← get_splk p;
  mret (bool_decide (splk_holder k = Some mycpu)).

(** ** Interprocessor interrupts *)

Definition IPI_PANIC : Z := 0.
Definition IPI_OFFLINE : Z := 1.
Definition IPI_UNIDLE : Z := 2.

(** The mainbus only delivers what [c_ipi_pending] says. *)
Definition ipi_send (target : loc) (code : Z) : M state unit :=
  kassert (bool_decide (0 ≤ code < 32));;
  c ← get_cpu target;
  spinlock_acquire (c_ipi_lock c);;
  upd_cpu target (λ c, cpu_with_pending (Z.lor (c_ipi_pending c) (Z.shiftl 1 code)) c);;
  spinlock_release (c_ipi_lock c).

Definition ipi_broadcast (code : Z) : M state unit :=
  cs ← gets allcpus;
  for_up 0 (length cs) (λ i,
    c ← deref (λ s, allcpus s !! i);
    me ← gets curcpu;
    (if bool_decide (c ≠ me) then ipi_send c code else mret tt);;
    mret (@None unit));;
  mret tt.

(** ** Making threads, and making them runnable *)

(** [thread_checkstack] *)
Definition thread_checkstack (t : loc) : M state unit :=
  th ← get_thread t;
  match t_stack th with
  | None => mret tt
  | Some _ => kassert (t_checked th)
  end.

(** [namelen] is [strlen(name)]. *)
Definition thread_create (namelen : nat) : M state ptr :=
  if bool_decide (64 < namelen)%nat then mret None
  else
    thread ← kmalloc;
    match thread with
    | None => mret None
    | Some t =>
        modify (upd_threads <[t := Thread (Some NEW) S_READY None false Startup None None false IPL_HIGH 1]>);;
        on_lists (ThreadList.threadlistnode_init (ThreadList.Of t) (Some t));;
        mret thread
    end.

Definition thread_destroy (t : loc) : M state unit :=
  cur ← curthread;
  kassert (bool_decide (t ≠ cur));;
  th ← get_thread t;
  kassert (bool_decide (t_state th ≠ S_RUN));;
  kassert (bool_decide (t_proc th = None));;
  (match t_stack th with Some _ => kfree (t_stack th) | None => mret tt end);;
  on_lists (ThreadList.threadlistnode_cleanup (ThreadList.Of t));;
  upd_thread t (with_wchan (Some DESTROYED));;
  kfree (Some t).

(** The zombies are no more than the nodes there are. *)
Definition node_bound (s : state) : nat := S (size (ThreadList.tnodes (lists s))).

Definition exorcise : M state unit :=
  n ← gets node_bound;
  while n tt (λ _,
    c ← get_curcpu;
    z ← on_lists (ThreadList.threadlist_remhead (c_zombies c));
    match z with
    | None => mret (inr tt)
    | Some t =>
        cur ← curthread;
        kassert (bool_decide (t ≠ cur));;
        th ← get_thread t;
        kassert (bool_decide (t_state th = S_ZOMBIE));;
        thread_destroy t;;
        mret (inl tt)
    end).

Definition thread_make_runnable (target : loc) (already_have_lock : bool) : M state unit :=
  th ← get_thread target;
  targetcpu ← nonnull (t_cpu th);
  tc ← get_cpu targetcpu;
  (if already_have_lock then
     held ← spinlock_do_i_hold (c_runqueue_lock tc);
     kassert held
   else spinlock_acquire (c_runqueue_lock tc));;
  upd_thread target (with_state S_READY);;
  on_lists (ThreadList.threadlist_addtail (c_runqueue tc) target);;
  tc ← get_cpu targetcpu;
  me ← gets curcpu;
  (if c_isidle tc && bool_decide (targetcpu ≠ me) then ipi_send targetcpu IPI_UNIDLE else mret tt);;
  (if already_have_lock then mret tt else spinlock_release (c_runqueue_lock tc)).

(** ** Wait channels *)

Definition get_wchan (wc : loc) : M state wchan := deref (λ s, if is_live wc s then wchans s !! wc else None).

(** [wc_threads] is inside the wait channel: the list has its address. *)
Definition wchan_create (name : loc) : M state ptr :=
  wc ← kmalloc;
  match wc with
  | None => mret None
  | Some w =>
      on_lists (ThreadList.threadlist_init w);;
      modify (upd_wchans <[w := Wchan name w]>);;
      mret wc
  end.

Definition wchan_destroy (wc : loc) : M state unit :=
  w ← get_wchan wc;
  on_lists (ThreadList.threadlist_cleanup (wc_threads w));;
  kfree (Some wc).

Definition wchan_wakeone (wc lk : loc) : M state unit :=
  held ← spinlock_do_i_hold lk;
  kassert held;;
  w ← get_wchan wc;
  target ← on_lists (ThreadList.threadlist_remhead (wc_threads w));
  match target with
  | None => mret tt
  | Some t => thread_make_runnable t false
  end.

(** [list] is the address of the private list, on the caller's stack. *)
Definition wchan_wakeall (list wc lk : loc) : M state unit :=
  held ← spinlock_do_i_hold lk;
  kassert held;;
  on_lists (ThreadList.threadlist_init list);;
  w ← get_wchan wc;
  n ← gets node_bound;
  while n tt (λ _,
    target ← on_lists (ThreadList.threadlist_remhead (wc_threads w));
    match target with
    | None => mret (inr tt)
    | Some t => on_lists (ThreadList.threadlist_addtail list t);; mret (inl tt)
    end);;
  while n tt (λ _,
    target ← on_lists (ThreadList.threadlist_remhead list);
    match target with
    | None => mret (inr tt)
    | Some t => thread_make_runnable t false;; mret (inl tt)
    end);;
  on_lists (ThreadList.threadlist_cleanup list).

Definition wchan_isempty (wc lk : loc) : M state bool :=
  held ← spinlock_do_i_hold lk;
  kassert held;;
  w ← get_wchan wc;
  on_lists (ThreadList.threadlist_isempty (wc_threads w)).

(** ** The context switch *)

(** Idling until the next event: the threads it wakes go on the run queue.
    Without another event the CPU idles for ever. *)
Definition cpu_idle : M state unit :=
  evs ← gets events;
  match evs with
  | [] => stops (Asleep 1)
  | ts :: evs' =>
      modify (set_events evs');;
      for_up 0 (length ts) (λ i,
        t ← deref (λ _, ts !! i); thread_make_runnable t false;; mret (@None unit));;
      mret tt
  end.

(** The loop that takes the next thread off the run queue. *)
Definition pick_next : M state loc :=
  evs ← gets events;
  while (S (S (length evs))) tt (λ _,
    c ← get_curcpu;
    next ← on_lists (ThreadList.threadlist_remhead (c_runqueue c));
    match next with
    | None =>
        spinlock_release (c_runqueue_lock c);;
        cpu_idle;;
        spinlock_acquire (c_runqueue_lock c);;
        mret (inl tt)
    | Some t => mret (inr t)
    end).

(** The part of [thread_switch] after [switchframe_switch], and the beginning
    of [thread_startup]: run by the thread switched to.  Between the two last steps
    the code calls [as_activate], which changes only the TLB of the CPU: that is no
    part of this state, Dumbvm.v has it. *)
Definition switch_tail : M state unit :=
  cur ← curthread;
  upd_thread cur (with_wchan None);;
  upd_thread cur (with_state S_RUN);;
  c ← get_curcpu;
  spinlock_release (c_runqueue_lock c);;
  exorcise.

Definition switch_in : M state unit :=
  cur ← curthread;
  th ← get_thread cur;
  switch_tail;;
  match t_context th with
  | Startup => spl0;; mret tt
  | Switched spl relock =>
      splx spl;;
      match relock with Some lk => spinlock_acquire lk | None => mret tt end
  end.

(** Where the current thread is put. *)
Definition switch_out (newstate : threadstate) (wc lk : ptr) (cur : loc) : M state unit :=
  match newstate with
  | S_RUN => stops Panic
  | S_READY => thread_make_runnable cur true
  | S_SLEEP =>
      wl ← nonnull wc;
      w ← get_wchan wl;
      upd_thread cur (with_wchan (Some (Name (wc_name w))));;
      on_lists (ThreadList.threadlist_addtail (wc_threads w) cur);;
      lkl ← nonnull lk;
      spinlock_release lkl
  | S_ZOMBIE =>
      upd_thread cur (with_wchan (Some ZOMBIE));;
      c ← get_curcpu;
      on_lists (ThreadList.threadlist_addtail (c_zombies c) cur)
  end.

Definition thread_switch (newstate : threadstate) (wc lk : ptr) : M state unit :=
  spl ← splhigh;
  cur ← curthread;
  c ← get_curcpu;
  if c_isidle c then splx spl;; mret tt
  else
    thread_checkstack cur;;
    spinlock_acquire (c_runqueue_lock c);;
    e ← on_lists (ThreadList.threadlist_isempty (c_runqueue c));
    if bool_decide (newstate = S_READY) && e then
      spinlock_release (c_runqueue_lock c);;
      splx spl;; mret tt
    else
      switch_out newstate wc lk cur;;
      upd_thread cur (with_state newstate);;
      upd_curcpu (cpu_with_idle true);;
      next ← pick_next;
      upd_curcpu (cpu_with_idle false);;
      upd_thread cur (with_context (Switched spl lk));;
      upd_curcpu (cpu_with_thread next);;
      switch_in.

Definition thread_yield : M state unit := thread_switch S_READY None None.

(** [wchan_sleep]; the lock is taken again in [switch_in], when the thread that
    went to sleep runs. *)
Definition wchan_sleep (wc lk : loc) : M state unit :=
  cur ← curthread;
  th ← get_thread cur;
  kassert (negb (t_in_interrupt th));;
  held ← spinlock_do_i_hold lk;
  kassert held;;
  c ← get_curcpu;
  kassert (bool_decide (c_spinlocks c = 1));;
  thread_switch S_SLEEP (Some wc) (Some lk).

(** [proc_remthread] of kern/proc/proc.c is the caller's. *)
Definition thread_exit (proc_remthread : loc → M state unit) (count_wchan count_lock list : loc) : M state unit :=
  cur ← curthread;
  proc_remthread cur;;
  th ← get_thread cur;
  kassert (bool_decide (t_proc th = None));;
  thread_checkstack cur;;
  n ← gets thread_count;
  (if bool_decide (n ≠ 0) then
     spinlock_acquire count_lock;;
     n ← gets thread_count;
     modify (set_thread_count (u32 (n - 1)));;
     wchan_wakeall list count_wchan count_lock;;
     spinlock_release count_lock
   else mret tt);;
  splhigh;;
  thread_switch S_ZOMBIE None None.

(** [thread_fork] of a thread in process [proc], NULL for the caller's;
    [proc_addthread] of kern/proc/proc.c is the caller's. *)
Definition thread_fork (proc_addthread : ptr → loc → M state Z) (count_wchan count_lock list : loc)
    (namelen : nat) (proc : ptr) : M state Z :=
  newthread ← thread_create namelen;
  match newthread with
  | None => mret ENOMEM
  | Some t =>
      stack ← kmalloc;
      upd_thread t (with_stack stack false);;
      match stack with
      | None => thread_destroy t;; mret ENOMEM
      | Some _ =>
          upd_thread t (with_stack stack true);;
          cur ← curthread;
          cth ← get_thread cur;
          upd_thread t (with_cpu (t_cpu cth));;
          let proc := match proc with None => t_proc cth | Some _ => proc end in
          result ← proc_addthread proc t;
          if bool_decide (result ≠ 0) then thread_destroy t;; mret result
          else
            upd_thread t (λ th, with_spl (t_curspl th) (s32 (t_iplhigh_count th + 1)) th);;
            spinlock_acquire count_lock;;
            n ← gets thread_count;
            modify (set_thread_count (u32 (n + 1)));;
            wchan_wakeall list count_wchan count_lock;;
            spinlock_release count_lock;;
            thread_make_runnable t false;;
            mret 0
      end
  end.

(** ** Migration *)

(** The counts of the run queues: the total and this CPU's. *)
Definition count_threads (cs : list loc) : M state (Z * Z) :=
  fold_up 0 (length cs) (0, 0) (λ i acc,
    let '(total, mine) := acc in
    c ← deref (λ _, cs !! i);
    cp ← get_cpu c;
    spinlock_acquire (c_runqueue_lock cp);;
    n ← on_lists (ThreadList.count (c_runqueue cp));
    me ← gets curcpu;
    spinlock_release (c_runqueue_lock cp);;
    mret (u32 (total + n), if bool_decide (c = me) then n else mine)).

(** Taking [to_send] victims off this CPU's run queue. *)
Definition take_victims (victims : loc) (to_send : Z) : M state unit :=
  c ← get_curcpu;
  spinlock_acquire (c_runqueue_lock c);;
  for_up 0 (Z.to_nat to_send) (λ _,
    t ← on_lists (ThreadList.threadlist_remtail (c_runqueue c));
    t ← nonnull t;
    on_lists (ThreadList.threadlist_addhead victims t);;
    mret (@None unit));;
  spinlock_release (c_runqueue_lock c).

(** The inner loop, filling up the run queue of [c]; the result is what is
    still to be sent. *)
Definition fill_cpu (victims c : loc) (one_share to_send : Z) : M state Z :=
  while (S (Z.to_nat to_send)) to_send (λ to_send,
    cp ← get_cpu c;
    n ← on_lists (ThreadList.count (c_runqueue cp));
    if bool_decide (n < one_share ∧ to_send > 0) then
      t ← on_lists (ThreadList.threadlist_remhead victims);
      t ← nonnull t;
      cur ← curthread;
      if bool_decide (t = cur) then
        on_lists (ThreadList.threadlist_addtail victims t);;
        mret (inl (u32 (to_send - 1)))
      else
        upd_thread t (with_cpu (Some c));;
        on_lists (ThreadList.threadlist_addtail (c_runqueue cp) t);;
        cp ← get_cpu c;
        (if c_isidle cp then ipi_send c IPI_UNIDLE else mret tt);;
        mret (inl (u32 (to_send - 1)))
    else mret (inr to_send)).

Definition send_victims (victims : loc) (cs : list loc) (one_share to_send : Z) : M state Z :=
  fold_up 0 (length cs) to_send (λ i to_send,
    if bool_decide (to_send > 0) then
      c ← deref (λ _, cs !! i);
      me ← gets curcpu;
      if bool_decide (c = me) then mret to_send
      else
        cp ← get_cpu c;
        spinlock_acquire (c_runqueue_lock cp);;
        to_send ← fill_cpu victims c one_share to_send;
        spinlock_release (c_runqueue_lock cp);;
        mret to_send
    else mret to_send).

(** Putting the leftovers back. *)
Definition return_victims (victims : loc) : M state unit :=
  e ← on_lists (ThreadList.threadlist_isempty victims);
  if (e : bool) then mret tt
  else
    c ← get_curcpu;
    spinlock_acquire (c_runqueue_lock c);;
    n ← gets node_bound;
    while n tt (λ _,
      t ← on_lists (ThreadList.threadlist_remhead victims);
      match t with
      | None => mret (inr tt)
      | Some t => on_lists (ThreadList.threadlist_addtail (c_runqueue c) t);; mret (inl tt)
      end);;
    spinlock_release (c_runqueue_lock c).

Definition thread_consider_migration (victims : loc) : M state unit :=
  cs ← gets allcpus;
  counts ← count_threads cs;
  let '(total_count, my_count) := counts in
  let numcpus := Z.of_nat (length cs) in
  (if bool_decide (numcpus = 0) then stops Fault else mret tt);;
  let one_share := u32 (u32 (total_count + numcpus) - 1) / numcpus in
  if bool_decide (my_count < one_share) then mret tt
  else
    let to_send := u32 (my_count - one_share) in
    on_lists (ThreadList.threadlist_init victims);;
    take_victims victims to_send;;
    send_victims victims cs one_share to_send;;
    return_victims victims;;
    e ← on_lists (ThreadList.threadlist_isempty victims);
    kassert e;;
    on_lists (ThreadList.threadlist_cleanup victims).
