(* ===== verification/SchedFacts.v ===== *)
(** * Spinlock sections and queues

    Two views of the scheduler's state that its theorems are stated on: [core],
    which forgets the nesting counters that spinlocks and interrupt levels
    keep, with [spin] for those counters; and [queues], the contents of all the
    thread lists at once. *)

From stdpp Require Import base tactics list gmap option numbers ssreflect.
From S2P Require Import Prelude Kern.
From S2P Require Import ThreadList.
From S2P Require Import Sched.

Open Scope Z_scope.

(** ** Everything but the nesting counters *)

Definition strip_thread (t : thread) : thread := with_spl (t_curspl t) 0 t.
Definition strip_cpu (c : cpu) : cpu := cpu_with_spinlocks 0 (cpu_with_irq false c).

Definition core (s : Sched.state) : Sched.state :=
  upd_splks (λ _, ∅) (upd_threads (λ m, strip_thread <$> m) (upd_cpus (λ m, strip_cpu <$> m) s)).

(** The counters: [k] spinlocks held by this CPU, and the running thread's
    interrupts off [i] times over. *)
Definition spin (s : Sched.state) (k i : Z) : Prop := ∃ cp th,
  cpus s !! curcpu s = Some cp ∧ threads s !! c_curthread cp = Some th ∧
  c_spinlocks cp = k ∧ t_iplhigh_count th = i ∧ c_irq cp = bool_decide (i = 0).

Lemma core_fields s s' : core s' = core s →
  lists s' = lists s ∧ sys s' = sys s ∧ allcpus s' = allcpus s ∧ curcpu s' = curcpu s ∧
  wchans s' = wchans s ∧ thread_count s' = thread_count s ∧ events s' = events s ∧
  strip_thread <$> threads s' = strip_thread <$> threads s ∧
  strip_cpu <$> cpus s' = strip_cpu <$> cpus s.
Proof. destruct s, s'. rw /core /=. intros [=]. by repeat split. Qed.

Lemma core_thread s s' t th : core s' = core s → threads s !! t = Some th →
  ∃ th', threads s' !! t = Some th' ∧ strip_thread th' = strip_thread th.
Proof.
  intros (_ & _ & _ & _ & _ & _ & _ & Ht & _)%core_fields Hth.
  apply (f_equal (λ m, m !! t)) in Ht. rw !lookup_fmap Hth /= in Ht.
  destruct (threads s' !! t) as [th'|]; [|done]. exists th'. by apply (inj Some) in Ht.
Qed.

Lemma core_cpu s s' c cp : core s' = core s → cpus s !! c = Some cp →
  ∃ cp', cpus s' !! c = Some cp' ∧ strip_cpu cp' = strip_cpu cp.
Proof.
  intros (_ & _ & _ & _ & _ & _ & _ & _ & Hc)%core_fields Hcp.
  apply (f_equal (λ m, m !! c)) in Hc. rw !lookup_fmap Hcp /= in Hc.
  destruct (cpus s' !! c) as [cp'|]; [|done]. exists cp'. by apply (inj Some) in Hc.
Qed.

Lemma strip_cpu_fields cp cp' : strip_cpu cp' = strip_cpu cp →
  c_curthread cp' = c_curthread cp ∧ c_isidle cp' = c_isidle cp ∧ c_ipi_pending cp' = c_ipi_pending cp ∧
  c_runqueue cp' = c_runqueue cp ∧ c_zombies cp' = c_zombies cp ∧
  c_runqueue_lock cp' = c_runqueue_lock cp ∧ c_ipi_lock cp' = c_ipi_lock cp.
Proof. destruct cp, cp'. rw /strip_cpu /=. intros [=]. by repeat split. Qed.

Lemma wp_deref' {A} (f : Sched.state → option A) a (Q : A → Sched.state → Prop) s :
  f s = Some a → Q a s → wp (deref f) Q s.
Proof. apply wp_deref. Qed.

Lemma wp_curthread s cp Q : cpus s !! curcpu s = Some cp → Q (c_curthread cp) s → wp curthread Q s.
Proof.
  intros Hc HQ. rw /curthread /get_curcpu /get_cpu. do 3 wp_step. eapply wp_deref; [done|]. by apply wp_ret.
Qed.

Lemma wp_upd_thread s t th f (Q : unit → Sched.state → Prop) :
  threads s !! t = Some th → Q tt (upd_threads <[t := f th]> s) → wp (upd_thread t f) Q s.
Proof. intros. rw /upd_thread /get_thread. wp_step. eapply wp_deref; [done|]. by apply wp_modify. Qed.

Lemma wp_upd_cpu s c cp f (Q : unit → Sched.state → Prop) :
  cpus s !! c = Some cp → Q tt (upd_cpus <[c := f cp]> s) → wp (upd_cpu c f) Q s.
Proof. intros. rw /upd_cpu /get_cpu. wp_step. eapply wp_deref; [done|]. by apply wp_modify. Qed.

(** Updates that only move the counters leave the core alone. *)
Lemma core_upd_thread s t th th' :
  threads s !! t = Some th → strip_thread th' = strip_thread th → core (upd_threads <[t := th']> s) = core s.
Proof.
  intros Ht Hs. rw /core /upd_threads /upd_splks /upd_cpus /=. f_equal. rw fmap_insert Hs.
  apply insert_id. by rw lookup_fmap Ht.
Qed.

Lemma core_upd_cpu s c cp cp' :
  cpus s !! c = Some cp → strip_cpu cp' = strip_cpu cp → core (upd_cpus <[c := cp']> s) = core s.
Proof.
  intros Hc Hs. rw /core /upd_threads /upd_splks /upd_cpus /=. f_equal. rw fmap_insert Hs.
  apply insert_id. by rw lookup_fmap Hc.
Qed.

Lemma core_splks s f : core (upd_splks f s) = core s.
Proof. done. Qed.

(** ** Spinlock sections *)

Definition free_splk : spinlock := Spinlock false None.
Definition held_splk (c : loc) : spinlock := Spinlock true (Some c).

(** Only the counters of this CPU and its current thread moved. *)
Definition quiet (s s' : Sched.state) : Prop :=
  core s' = core s ∧
  ∀ cp t, cpus s !! curcpu s = Some cp → t ≠ c_curthread cp → threads s' !! t = threads s !! t.

Lemma quiet_core s s' : quiet s s' → core s' = core s.
Proof. by intros [? _]. Qed.

(** The counters stay clear of the ends of their types. *)
Definition shallow (k i : Z) : Prop := 0 ≤ k < 2 ^ 31 ∧ 0 ≤ i < 2 ^ 31 - 1.

Lemma wp_splraise s k i (Q : unit → Sched.state → Prop) :
  spin s k i → shallow k i →
  (∀ s', quiet s s' → splks s' = splks s → spin s' k (i + 1) → Q tt s') →
  wp (splraise IPL_NONE IPL_HIGH) Q s.
Proof.
  intros (cp & th & Hc & Ht & Hk & Hi & Hq) [_ Hb] HQ. rw /splraise. wp_step.
  eapply wp_curthread; [done|]. wp_step. apply wp_kassert; [done|]. wp_step. apply wp_kassert; [done|].
  rw /get_thread. wp_step. eapply wp_deref; [done|]. wp_step. cbn beta.
  set (cp' := if bool_decide (t_iplhigh_count th = 0) then cpu_with_irq false cp else cp).
  assert (wp (if bool_decide (t_iplhigh_count th = 0) then upd_curcpu (cpu_with_irq false) else mret tt)
    (λ _ s1, s1 = upd_cpus <[curcpu s := cp']> s) s) as Hirq.
  { rw /cp'. bd_case (t_iplhigh_count th = 0) as H.
    - rw /upd_curcpu. do 2 wp_step. by eapply wp_upd_cpu.
    - apply wp_ret. rw /upd_cpus insert_id //. by destruct s. }
  eapply wp_mono; [exact Hirq|]. intros _ s1 ->.
  assert (c_curthread cp' = c_curthread cp ∧ c_spinlocks cp' = c_spinlocks cp ∧ strip_cpu cp' = strip_cpu cp ∧
    c_irq cp' = false) as (Hct & Hcs & Hst & Hirq').
  { rw /cp'. bd_case (t_iplhigh_count th = 0) as H; repeat (split; [done|]); [done|]. rw Hq. subst i.
    by apply bool_decide_eq_false_2. }
  eapply wp_upd_thread; [done|]. apply HQ; [split|done|].
  - erewrite core_upd_thread; [|done|done]. by eapply core_upd_cpu.
  - intros cc t Hcc Hne. simplify_eq. by rw /= lookup_insert_ne.
  - exists cp', (with_spl (t_curspl th) (s32 (t_iplhigh_count th + 1)) th).
    rw /= lookup_insert_eq Hct lookup_insert_eq Hcs Hirq'. rw s32_small; [|lia].
    do 3 (split; [done|]). split; [lia|]. symmetry. apply bool_decide_eq_false_2. lia.
Qed.

Lemma wp_spllower s k i (Q : unit → Sched.state → Prop) :
  spin s k i → shallow k i → 0 < i →
  (∀ s', quiet s s' → splks s' = splks s → spin s' k (i - 1) → Q tt s') →
  wp (spllower IPL_HIGH IPL_NONE) Q s.
Proof.
  intros (cp & th & Hc & Ht & Hk & Hi & Hq) [_ Hb] Hpos HQ. rw /spllower. wp_step.
  eapply wp_curthread; [done|]. wp_step. apply wp_kassert; [done|]. wp_step. apply wp_kassert; [done|].
  wp_step. eapply wp_upd_thread; [done|]. rw s32_small; [|lia]. rw /get_thread. wp_step.
  eapply wp_deref; [by rw /= lookup_insert_eq|]. cbn beta. simpl t_iplhigh_count.
  bd_case (t_iplhigh_count th - 1 = 0) as H0.
  - rw /upd_curcpu. do 2 wp_step. eapply wp_upd_cpu; [done|]. apply HQ; [split|done|].
    + erewrite core_upd_cpu; [|done|done]. by eapply core_upd_thread.
    + intros cc t Hcc Hne. simplify_eq. by rw /= lookup_insert_ne.
    + eexists (cpu_with_irq true cp), _. rw /= !lookup_insert_eq. do 3 (split; [done|]).
      split; [simpl; lia|]. symmetry. apply bool_decide_eq_true_2. lia.
  - apply wp_ret. apply HQ; [split; [by eapply core_upd_thread|]|done|].
    { intros cc t Hcc Hne. simplify_eq. by rw /= lookup_insert_ne. }
    eexists cp, _. rw /= !lookup_insert_eq. do 3 (split; [done|]). split; [simpl; lia|].
    rw Hq !bool_decide_eq_false_2 //; lia.
Qed.

Lemma wp_acquire p s k i (Q : unit → Sched.state → Prop) :
  spin s k i → shallow k i → splks s !! p = Some free_splk →
  (∀ s', quiet s s' → splks s' = <[p := held_splk (curcpu s)]> (splks s) →
     spin s' (k + 1) (i + 1) → Q tt s') →
  wp (spinlock_acquire p) Q s.
Proof.
  intros Hs Hb Hp HQ. rw /spinlock_acquire. wp_step. eapply wp_splraise; [done..|].
  intros s1 [Hcore Hoth] Hsp (cp & th & Hc & Ht & Hk & Hi & Hq). wp_step. wp_step. rw /get_splk. wp_step.
  eapply wp_deref; [by rw Hsp|]. wp_step. rw bool_decide_eq_false_2; [|done]. apply wp_ret. wp_step. eapply wp_upd_cpu; [done|]. cbn beta iota.
  rw u32_small; [|rw /shallow in Hb; lia]. apply wp_modify.
  apply core_fields in Hcore as Hf. destruct Hf as (_ & _ & _ & Hcur & _). apply HQ; [split| |].
  - rw core_splks. erewrite core_upd_cpu; [done|done|done].
  - exact Hoth.
  - by rw /= Hsp Hcur.
  - eexists (cpu_with_spinlocks (k + 1) cp), th. rw /= Hk lookup_insert_eq. done.
Qed.

Lemma wp_release p s k i (Q : unit → Sched.state → Prop) :
  spin s k i → shallow k i → 0 < k → 0 < i → splks s !! p = Some (held_splk (curcpu s)) →
  (∀ s', quiet s s' → splks s' = <[p := free_splk]> (splks s) → spin s' (k - 1) (i - 1) → Q tt s') →
  wp (spinlock_release p) Q s.
Proof.
  intros (cp & th & Hc & Ht & Hk & Hi & Hq) Hb Hk0 Hi0 Hp HQ. rw /spinlock_release. wp_step. wp_step.
  rw /get_splk. wp_step. eapply wp_deref; [done|]. wp_step. apply wp_kassert; [by apply bool_decide_eq_true_2|].
  rw /get_cpu. wp_step. eapply wp_deref; [done|]. wp_step. apply wp_kassert; [apply bool_decide_eq_true_2; lia|].
  wp_step. eapply wp_upd_cpu; [done|]. rw u32_small; [|rw /shallow in Hb; lia]. wp_step. apply wp_modify.
  set (s1 := upd_splks _ _).
  assert (core s1 = core s) as Hcore by (rw /s1 core_splks; by eapply core_upd_cpu).
  eapply (wp_spllower _ (k - 1) i); [| rw /shallow in Hb |- *; lia | done |].
  - eexists (cpu_with_spinlocks (k - 1) cp), th. rw /= Hk lookup_insert_eq. done.
  - intros s' [Hc' Hoth] Hsp' Hspin'. apply HQ; [split; [by rw Hc' Hcore|] | by rw Hsp' | done].
    intros cc t Hcc Hne. simplify_eq. eapply Hoth; [by rw /= lookup_insert_eq|done].
Qed.

(** ** All the lists at once *)

(** [Q] gives the contents of every list, [D] the threads on none. *)
Record queues (l : ThreadList.state) (Q : gmap loc (list loc)) (D : gset loc) : Prop := {
  q_list : ∀ tl ts, Q !! tl = Some ts → tlist l tl ts;
  q_disjoint : ∀ tl tl' ts ts' t, Q !! tl = Some ts → Q !! tl' = Some ts' → t ∈ ts → t ∈ ts' → tl = tl';
  q_detached : ∀ t, t ∈ D → detached (tnodes l) t;
  q_free : ∀ t tl ts, t ∈ D → Q !! tl = Some ts → t ∉ ts
}.

(** An operation that takes [x] off [tl], and one that puts it on. *)
Lemma queues_removed l l' Q D tl ts ts' x :
  queues l Q D → Q !! tl = Some ts → ts ≡ₚ x :: ts' →
  tlist l' tl ts' → detached (tnodes l') x → frame l l' tl ts →
  queues l' (<[tl := ts']> Q) ({[x]} ∪ D).
Proof.
  intros [Hl Hd Hdet Hfree] Htl Hp Ht' Hx Hf. pose proof (tl_nodup _ _ _ (Hl _ _ Htl)) as Hnd.
  rw Hp in Hnd. apply NoDup_cons in Hnd as [Hxn _].
  assert (∀ t, t ∈ ts' → t ∈ ts) as Hsub by (intros t Ht; rw Hp; set_solver).
  assert (x ∈ ts) as Hxts by (rw Hp; set_solver).
  split.
  - intros tl2 us [[<- <-]|[Hne Hus]]%lookup_insert_Some; [done|].
    eapply frame_tlist; [done|done| |by apply Hl]. intros t Htu Htt. apply Hne. by eapply Hd.
  - intros tl1 tl2 us vs t [[<- <-]|[Hne1 Hus]]%lookup_insert_Some [[<- <-]|[Hne2 Hvs]]%lookup_insert_Some
      Htu Htv; [done|..].
    + eapply Hd; [exact Htl | exact Hvs | by apply Hsub | done].
    + eapply Hd; [exact Hus | exact Htl | done | by apply Hsub].
    + eapply Hd; [exact Hus | exact Hvs | done | done].
  - intros t [->%elem_of_singleton|Ht]%elem_of_union; [done|].
    eapply frame_detached; [done|by eapply Hfree|by apply Hdet].
  - intros t tl2 us [->%elem_of_singleton|Ht]%elem_of_union [[<- <-]|[Hne Hus]]%lookup_insert_Some.
    + done.
    + intros Hin. apply Hne. by eapply Hd.
    + intros Hin. by eapply Hfree; [done|done|apply Hsub].
    + by eapply Hfree.
Qed.

Lemma queues_added l l' Q D tl ts ts' x :
  queues l Q D → Q !! tl = Some ts → x ∈ D → ts' ≡ₚ x :: ts →
  tlist l' tl ts' → frame l l' tl ts' →
  queues l' (<[tl := ts']> Q) (D ∖ {[x]}).
Proof.
  intros [Hl Hd Hdet Hfree] Htl Hx Hp Ht' Hf.
  assert (∀ t, t ∈ ts' ↔ t = x ∨ t ∈ ts) as Hin by (intros t; rw Hp elem_of_cons; done).
  split.
  - intros tl2 us [[<- <-]|[Hne Hus]]%lookup_insert_Some; [done|].
    eapply frame_tlist; [done|done| |by apply Hl]. intros t Htu [->|Htt]%Hin; [by eapply Hfree|].
    apply Hne. by eapply Hd.
  - intros tl1 tl2 us vs t [[<- <-]|[Hne1 Hus]]%lookup_insert_Some [[<- <-]|[Hne2 Hvs]]%lookup_insert_Some
      Htu Htv; [done|..].
    + apply Hin in Htu as [->|Htu]; [exfalso; by eapply Hfree|].
      eapply Hd; [exact Htl | exact Hvs | done | done].
    + apply Hin in Htv as [->|Htv]; [exfalso; by eapply Hfree|].
      eapply Hd; [exact Hus | exact Htl | done | done].
    + eapply Hd; [exact Hus | exact Hvs | done | done].
  - intros t [Ht Hne%not_elem_of_singleton]%elem_of_difference.
    eapply frame_detached; [done| |by apply Hdet]. intros [->|Htt]%Hin; [done|]. by eapply Hfree.
  - intros t tl2 us [Ht Hne%not_elem_of_singleton]%elem_of_difference [[<- <-]|[Hne' Hus]]%lookup_insert_Some.
    + intros [->|Htt]%Hin; [done|]. by eapply Hfree.
    + by eapply Hfree.
Qed.

(** List operations on the whole state. *)
Lemma wp_on_lists {A} (m : M ThreadList.state A) (Q : A → Sched.state → Prop) s :
  wp m (λ a l, Q a (set_lists l s)) (lists s) → wp (on_lists m) Q s.
Proof. rw /wp /on_lists. by destruct (m (lists s)). Qed.

Lemma wp_remhead s Q D tl ts (P : ptr → Sched.state → Prop) :
  queues (lists s) Q D → Q !! tl = Some ts →
  (∀ l', match ts with
     | [] => l' = lists s
     | x :: ts' => queues l' (<[tl := ts']> Q) ({[x]} ∪ D)
     end → P (head ts) (set_lists l' s)) →
  wp (on_lists (threadlist_remhead tl)) P s.
Proof.
  intros Hq Htl HP. apply wp_on_lists. eapply wp_mono; [apply remhead_spec; by eapply q_list|].
  intros r l' (-> & Ht' & Hx & Hf). apply HP. destruct ts as [|x ts]; [done|].
  by eapply queues_removed.
Qed.

Lemma wp_addtail s Q D tl ts x (P : unit → Sched.state → Prop) :
  queues (lists s) Q D → Q !! tl = Some ts → x ∈ D →
  (∀ l', queues l' (<[tl := ts ++ [x]]> Q) (D ∖ {[x]}) → P tt (set_lists l' s)) →
  wp (on_lists (threadlist_addtail tl x)) P s.
Proof.
  intros Hq Htl Hx HP. apply wp_on_lists. eapply wp_mono.
  { apply addtail_spec; [by eapply q_list | by eapply q_free | by eapply q_detached]. }
  intros [] l' (Ht' & Hf). apply HP. eapply queues_added; [done..| |done|done].
  by rw Permutation_app_comm.
Qed.

(** ** Making a thread runnable *)

(** What [thread_make_runnable x] does to the rest of the state: [x] is ready,
    and an idle CPU other than this one has an interrupt pending. *)
Definition readied (x c : loc) (s : Sched.state) : Sched.state :=
  let s1 := upd_threads (alter (with_state S_READY) x) s in
  match cpus s !! c with
  | Some cp =>
      if c_isidle cp && bool_decide (c ≠ curcpu s) then
        upd_cpus (alter (λ cp, cpu_with_pending (Z.lor (c_ipi_pending cp) 4) cp) c) s1
      else s1
  | None => s1
  end.

(** The spinlocks of CPU [c] that the operation takes are free. *)
Definition locks_free (s : Sched.state) (cp : cpu) : Prop :=
  splks s !! c_runqueue_lock cp = Some free_splk ∧ splks s !! c_ipi_lock cp = Some free_splk ∧
  c_runqueue_lock cp ≠ c_ipi_lock cp.

Lemma spin_upd_thread s k i t th th' :
  spin s k i → threads s !! t = Some th → t_iplhigh_count th' = t_iplhigh_count th →
  spin (upd_threads <[t := th']> s) k i.
Proof.
  intros (cp & tc & Hc & Ht & Hk & Hi & Hq) Hth Heq. destruct (decide (c_curthread cp = t)) as [<-|Hne].
  - exists cp, th'. rw /= lookup_insert_eq. simplify_eq. by rw Heq.
  - exists cp, tc. rw /= lookup_insert_ne; done.
Qed.

Lemma spin_upd_cpu s k i c cp cp' :
  spin s k i → cpus s !! c = Some cp → c_curthread cp' = c_curthread cp →
  c_spinlocks cp' = c_spinlocks cp → c_irq cp' = c_irq cp → spin (upd_cpus <[c := cp']> s) k i.
Proof.
  intros (cc & tc & Hc & Ht & Hk & Hi & Hq) Hcp H1 H2 H3. destruct (decide (curcpu s = c)) as [<-|Hne].
  - exists cp', tc. rw /= lookup_insert_eq. simplify_eq. by rw H1 H2 H3.
  - exists cc, tc. rw /= lookup_insert_ne; done.
Qed.

(** [core] of an update is the update of [core]. *)
Lemma core_set_lists l s : core (set_lists l s) = set_lists l (core s).
Proof. done. Qed.

Lemma core_eq_upd_thread s s' t th th' f :
  core s' = core s → threads s' !! t = Some th' → threads s !! t = Some th →
  (∀ t, strip_thread (f t) = f (strip_thread t)) →
  core (upd_threads <[t := f th']> s') = core (upd_threads (alter f t) s).
Proof.
  intros Hcore Ht' Ht Hf. apply core_fields in Hcore as (Hl & Hsys & Ha & Hcur & Hw & Hn & He & Hth & Hcp).
  rw /core /upd_splks /upd_threads /upd_cpus /= Hl Hsys Ha Hcur Hw Hn He Hcp. f_equal.
  apply map_eq. intros t'. apply (f_equal (λ m, m !! t')) in Hth. rw !lookup_fmap in Hth |- *.
  destruct (decide (t = t')) as [<-|Hne].
  - rw lookup_insert_eq lookup_alter_eq Ht /=. rw Ht Ht' /= in Hth. apply (inj Some) in Hth.
    by rw !Hf Hth.
  - rw lookup_insert_ne // lookup_alter_ne //.
Qed.

Lemma core_eq_upd_cpu s s' c cp cp' f :
  core s' = core s → cpus s' !! c = Some cp' → cpus s !! c = Some cp →
  (∀ c, strip_cpu (f c) = f (strip_cpu c)) →
  core (upd_cpus <[c := f cp']> s') = core (upd_cpus (alter f c) s).
Proof.
  intros Hcore Ht' Ht Hf. apply core_fields in Hcore as (Hl & Hsys & Ha & Hcur & Hw & Hn & He & Hth & Hcp).
  rw /core /upd_splks /upd_threads /upd_cpus /= Hl Hsys Ha Hcur Hw Hn He Hth. f_equal.
  apply map_eq. intros t'. apply (f_equal (λ m, m !! t')) in Hcp. rw !lookup_fmap in Hcp |- *.
  destruct (decide (c = t')) as [<-|Hne].
  - rw lookup_insert_eq lookup_alter_eq Ht /=. rw Ht Ht' /= in Hcp. apply (inj Some) in Hcp.
    by rw !Hf Hcp.
  - rw lookup_insert_ne // lookup_alter_ne //.
Qed.

Definition modest (k i : Z) : Prop := 0 ≤ k < 2 ^ 30 ∧ 0 ≤ i < 2 ^ 30.

Lemma modest_shallow k i : modest k i →
  shallow k i ∧ shallow (k + 1) (i + 1) ∧ shallow (k + 2) (i + 2).
Proof. rw /modest /shallow. lia. Qed.

(** Restoring a spinlock that was free. *)
Lemma splks_restore (m : gmap loc spinlock) p k :
  m !! p = Some free_splk → <[p := free_splk]> (<[p := k]> m) = m.
Proof. intros Hp. by rw insert_insert_eq insert_id. Qed.

(** [ipi_send] to a CPU whose interrupt lock is free. *)
Lemma ipi_send_spec s T c cp k i (Q : unit → Sched.state → Prop) :
  core s = core T → cpus T !! c = Some cp → splks s !! c_ipi_lock cp = Some free_splk →
  spin s k i → shallow k i → shallow (k + 1) (i + 1) →
  (∀ s', core s' = core (upd_cpus (alter (λ cp, cpu_with_pending (Z.lor (c_ipi_pending cp) 4) cp) c) T) →
     splks s' = splks s → spin s' k i → Q tt s') →
  wp (ipi_send c IPI_UNIDLE) Q s.
Proof.
  intros Hcore Hc Hfree Hs Hb1 Hb2 HQ. destruct (core_cpu T s c cp Hcore Hc) as (cp1 & Hc1 & Hst).
  apply strip_cpu_fields in Hst as Hf. destruct Hf as (_ & _ & _ & _ & _ & _ & Hil).
  rw /ipi_send. wp_step. apply wp_kassert; [done|]. rw /get_cpu. wp_step.
  eapply wp_deref; [done|]. rw Hil. wp_step. eapply wp_acquire; [done..|].
  intros s1 [Hcore1 _] Hsp1 Hs1. destruct (core_cpu s s1 c cp1 Hcore1 Hc1) as (cp2 & Hc2 & Hst2).
  wp_step. eapply wp_upd_cpu; [done|]. cbn beta.
  assert (0 ≤ k ∧ 0 ≤ i) as [? ?] by (rw /shallow in Hb1; lia).
  eapply (wp_release _ _ (k + 1) (i + 1)); [by eapply spin_upd_cpu | done | lia | lia | |].
  - rw /= Hsp1. apply core_fields in Hcore1 as (_ & _ & _ & -> & _). by rw lookup_insert_eq.
  - intros s' [Hcore' _] Hsp' Hs'. apply HQ.
    + rw Hcore'. apply (core_eq_upd_cpu T s1 c cp cp2 (λ cp, cpu_with_pending (Z.lor (c_ipi_pending cp) 4) cp));
        [by rw Hcore1|done|done|done].
    + by rw Hsp' /= Hsp1 splks_restore.
    + by rw !Z.add_simpl_r in Hs'.
Qed.

Lemma make_runnable_spec s Q D x thx c cp R k i (P : unit → Sched.state → Prop) :
  queues (lists s) Q D → x ∈ D → threads s !! x = Some thx → t_cpu thx = Some c →
  cpus s !! c = Some cp → Q !! c_runqueue cp = Some R → locks_free s cp →
  spin s k i → modest k i →
  (∀ s' l', queues l' (<[c_runqueue cp := R ++ [x]]> Q) (D ∖ {[x]}) →
     core s' = core (set_lists l' (readied x c s)) → splks s' = splks s → spin s' k i → P tt s') →
  wp (thread_make_runnable x false) P s.
Proof.
  intros Hq Hx Hth Hcpu Hcp HR (Hrf & Hif & Hne) Hs Hm HP.
  destruct (modest_shallow _ _ Hm) as (Hb0 & Hb1 & Hb2).
  rw /thread_make_runnable /get_thread /get_cpu. wp_step. eapply wp_deref; [done|].
  wp_step. eapply wp_nonnull; [done|]. wp_step. eapply wp_deref; [done|]. wp_step.
  eapply wp_acquire; [done..|]. intros s1 [Hcore1 _] Hsp1 Hs1.
  destruct (core_thread s s1 x thx Hcore1 Hth) as (thx1 & Hth1 & _).
  wp_step. eapply wp_upd_thread; [done|]. set (s2 := upd_threads _ s1).
  set (T2 := upd_threads (alter (with_state S_READY) x) s).
  assert (core s2 = core T2) as Hcore2 by (by eapply core_eq_upd_thread).
  assert (spin s2 (k + 1) (i + 1)) as Hs2 by (by eapply spin_upd_thread).
  apply core_fields in Hcore1 as Hf1. destruct Hf1 as (Hl1 & _ & _ & Hcur1 & _).
  wp_step. eapply (wp_addtail _ Q D); [by rw /= Hl1 | done | done |]. intros l' Hq'.
  set (s3 := set_lists l' s2). set (T3 := set_lists l' T2).
  assert (core s3 = core T3) as Hcore3 by (by rw /s3 /T3 !core_set_lists Hcore2).
  destruct (core_cpu T3 s3 c cp Hcore3 Hcp) as (cp3 & Hcp3 & Hst).
  apply strip_cpu_fields in Hst as (_ & Hidle & _ & _ & _ & Hrl & _).
  assert (splks s3 = <[c_runqueue_lock cp := held_splk (curcpu s)]> (splks s)) as Hsp3 by done.
  wp_step. eapply wp_deref; [done|]. wp_step. wp_step. rw Hidle Hrl. wp_step.
  apply (wp_mono _ (λ _ s4, core s4 = core (set_lists l' (readied x c s)) ∧ splks s4 = splks s3 ∧
    spin s4 (k + 1) (i + 1))).
  { rw /readied Hcp. replace (curcpu s3) with (curcpu s) by done.
    destruct (c_isidle cp && bool_decide (c ≠ curcpu s)).
    - eapply (ipi_send_spec s3 T3); [done | done | by rw Hsp3 lookup_insert_ne | done | done | by rw -!Z.add_assoc |].
      by intros s4 ? ? ?.
    - by apply wp_ret. }
  intros [] s4 (Hcore4 & Hsp4 & Hs4).
  assert (0 ≤ k ∧ 0 ≤ i) as [? ?] by (rw /modest in Hm; lia).
  assert (curcpu s4 = curcpu s) as Hcur4.
  { apply core_fields in Hcore4 as (_ & _ & _ & -> & _). rw /readied Hcp. by destruct (_ && _). }
  eapply (wp_release _ _ (k + 1) (i + 1)); [done | done | lia | lia | |].
  - rw Hsp4 Hsp3 Hcur4. apply lookup_insert_eq.
  - intros s5 [Hcore5 _] Hsp5 Hs5. apply (HP s5 l'); [done | by rw Hcore5 | | by rw !Z.add_simpl_r in Hs5].
    by rw Hsp5 Hsp4 Hsp3 splks_restore.
Qed.

(** ** Wake-ups *)

(** The CPU a thread belongs to. *)
Definition home (s : Sched.state) (t : loc) : option (loc * cpu) :=
  th ← threads s !! t; c ← t_cpu th; cp ← cpus s !! c; Some (c, cp).

(** A thread that can be put on its run queue. *)
Definition wakeable (s : Sched.state) (Q : gmap loc (list loc)) (t : loc) : Prop :=
  ∃ c cp R, home s t = Some (c, cp) ∧ Q !! c_runqueue cp = Some R ∧ locks_free s cp.

(** The lists with [t] at the end of its run queue. *)
Definition enqueue (s : Sched.state) (Q : gmap loc (list loc)) (t : loc) : gmap loc (list loc) :=
  match home s t with
  | Some (_, cp) => alter (λ R, R ++ [t]) (c_runqueue cp) Q
  | None => Q
  end.

(** The state with [t] ready. *)
Definition ready (s : Sched.state) (t : loc) : Sched.state :=
  match home s t with Some (c, _) => readied t c s | None => s end.

Lemma home_spec s t c cp : home s t = Some (c, cp) →
  ∃ th, threads s !! t = Some th ∧ t_cpu th = Some c ∧ cpus s !! c = Some cp.
Proof.
  rw /home. destruct (threads s !! t) as [th|]; [|done]. simpl. destruct (t_cpu th) as [c'|] eqn:Hc; [|done].
  simpl. destruct (cpus s !! c') as [cp'|] eqn:Hcp; [|done]. simpl. intros [= <- <-]. by exists th.
Qed.

Lemma readied_set_lists t c l s : readied t c (set_lists l s) = set_lists l (readied t c s).
Proof.
  rw /readied /=. destruct (cpus s !! c) as [cp|]; [|done].
  by destruct (c_isidle cp && bool_decide (c ≠ curcpu s)).
Qed.

Lemma ready_set_lists t l s : ready (set_lists l s) t = set_lists l (ready s t).
Proof. rw /ready. change (home (set_lists l s) t) with (home s t). destruct (home s t) as [[c cp]|]; [apply readied_set_lists|done]. Qed.

Lemma alter_insert_Some (Q : gmap loc (list loc)) k R f :
  Q !! k = Some R → alter f k Q = <[k := f R]> Q.
Proof.
  intros HR. apply map_eq. intros j. destruct (decide (k = j)) as [<-|Hne].
  - by rw lookup_alter_eq lookup_insert_eq HR.
  - by rw lookup_alter_ne // lookup_insert_ne.
Qed.

Lemma wp_wake s Q D x k i (P : unit → Sched.state → Prop) :
  queues (lists s) Q D → x ∈ D → wakeable s Q x → spin s k i → modest k i →
  (∀ s' l', queues l' (enqueue s Q x) (D ∖ {[x]}) →
     core s' = core (set_lists l' (ready s x)) → splks s' = splks s → spin s' k i → P tt s') →
  wp (thread_make_runnable x false) P s.
Proof.
  intros Hq Hx (c & cp & R & Hh & HR & Hf) Hs Hm HP.
  destruct (home_spec _ _ _ _ Hh) as (th & Hth & Hc & Hcp).
  rw /enqueue /ready Hh (alter_insert_Some _ _ _ _ HR) in HP. by eapply make_runnable_spec.
Qed.

Lemma wp_do_i_hold s lk (Q : bool → Sched.state → Prop) :
  splks s !! lk = Some (held_splk (curcpu s)) → Q true s → wp (spinlock_do_i_hold lk) Q s.
Proof.
  intros H HQ. rw /spinlock_do_i_hold /get_splk. wp_step. wp_step. wp_step. eapply wp_deref; [done|].
  apply wp_ret. by rw bool_decide_eq_true_2.
Qed.

Lemma wp_get_wchan s wc w Q :
  wc ∈ live (sys s) → wchans s !! wc = Some w → Q w s → wp (get_wchan wc) Q s.
Proof.
  intros Hl Hw HQ. eapply wp_deref; [|done]. assert (is_live wc s = true) as -> by (by apply is_live_true). done.
Qed.

Lemma wakeone_spec s Q D wc w lk ts k i :
  queues (lists s) Q D → wc ∈ live (sys s) → wchans s !! wc = Some w → Q !! wc_threads w = Some ts →
  splks s !! lk = Some (held_splk (curcpu s)) → spin s k i → modest k i →
  (∀ x, head ts = Some x → x ∉ D ∧ wakeable s (<[wc_threads w := tail ts]> Q) x) →
  wp (wchan_wakeone wc lk) (λ _ s', match ts with
    | [] => s' = s
    | x :: ts' => ∃ l', queues l' (enqueue s (<[wc_threads w := ts']> Q) x) D ∧
        core s' = core (set_lists l' (ready s x)) ∧ splks s' = splks s ∧ spin s' k i
    end) s.
Proof.
  intros Hq Hl Hw Hts Hlk Hs Hm Hx. rw /wchan_wakeone. wp_step. eapply wp_do_i_hold; [done|].
  wp_step. apply wp_kassert; [done|]. wp_step. eapply wp_get_wchan; [done..|]. wp_step.
  eapply wp_remhead; [done..|]. intros l1 Hl1. destruct ts as [|x ts]; simpl.
  - apply wp_ret. rw Hl1. by destruct s.
  - destruct (Hx x eq_refl) as [HxD Hwk].
    eapply (wp_wake (set_lists l1 s) _ ({[x]} ∪ D)); [exact Hl1 | set_solver | exact Hwk | exact Hs | done |].
    intros s' l' Hq' Hcore Hsp Hs'. exists l'.
    assert (({[x]} ∪ D) ∖ {[x]} = D) as HD by set_solver. rw HD in Hq'.
    split; [exact Hq'|]. split; [|done]. by rw Hcore ready_set_lists.
Qed.

(** *** Waking all: [ready] and [enqueue] over a list of threads *)

Lemma core_ready s t : core (ready s t) = ready (core s) t.
Proof.
  rw /ready /home /=. rw lookup_fmap. destruct (threads s !! t) as [th|]; [|done]. simpl.
  destruct (t_cpu th) as [c|]; [|done]. simpl. rw lookup_fmap. destruct (cpus s !! c) as [cp|] eqn:Hcp; [|done].
  simpl. rw /readied /= lookup_fmap Hcp /=.
  destruct (c_isidle cp && bool_decide (c ≠ curcpu s));
    rw /core /upd_splks /upd_threads /upd_cpus /=; f_equal;
    apply map_eq; intros j; rw !lookup_fmap.
  - destruct (decide (t = j)) as [<-|Hne]; [rw !lookup_alter_eq lookup_fmap|rw !lookup_alter_ne // lookup_fmap //].
    by destruct (threads s !! t).
  - destruct (decide (c = j)) as [<-|Hne]; [rw !lookup_alter_eq lookup_fmap|rw !lookup_alter_ne // lookup_fmap //].
    by rw Hcp.
  - destruct (decide (t = j)) as [<-|Hne]; [rw !lookup_alter_eq lookup_fmap|rw !lookup_alter_ne // lookup_fmap //].
    by destruct (threads s !! t).
Qed.

Lemma core_foldl_ready ts s : core (foldl ready s ts) = foldl ready (core s) ts.
Proof. revert s. induction ts as [|t ts IH]; intros s; [done|]. by rw /= IH core_ready. Qed.

(** The part of [home] that never changes. *)
Definition site (p : loc * cpu) : loc * loc * loc * loc :=
  (p.1, c_runqueue p.2, c_runqueue_lock p.2, c_ipi_lock p.2).
Definition same_sites (s s' : Sched.state) : Prop := ∀ t, site <$> home s' t = site <$> home s t.

Lemma same_sites_core s s' : core s' = core s → same_sites s s'.
Proof.
  intros Hcore t. assert (∀ s, site <$> home s t = site <$> home (core s) t) as H.
  { intros s0. rw /home /= lookup_fmap. destruct (threads s0 !! t) as [th|]; [|done]. simpl.
    destruct (t_cpu th) as [c|]; [|done]. simpl. rw lookup_fmap. by destruct (cpus s0 !! c). }
  by rw H Hcore -H.
Qed.

Lemma same_sites_ready s t : same_sites s (ready s t).
Proof.
  intros x. rw {1}/ready. destruct (home s t) as [[c cp]|] eqn:Hh; [|done].
  destruct (home_spec _ _ _ _ Hh) as (th & Hth & Hc & Hcp). rw /readied Hcp.
  assert (∀ f, site <$> home (upd_threads (alter (with_state S_READY) t) (upd_cpus f s)) x =
    site <$> home (upd_cpus f s) x) as H1.
  { intros f. rw /home /=. destruct (decide (t = x)) as [<-|Hne]; [|by rw lookup_alter_ne].
    by rw lookup_alter_eq Hth. }
  assert (∀ n, site <$> home (upd_cpus (alter (λ cp, cpu_with_pending (n cp) cp) c) s) x = site <$> home s x) as H2.
  { intros n. rw /home /=. destruct (threads s !! x) as [tx|]; [|done]. simpl.
    destruct (t_cpu tx) as [c'|]; [|done]. simpl. destruct (decide (c = c')) as [<-|Hne];
      [|by rw lookup_alter_ne]. by rw lookup_alter_eq Hcp. }
  destruct (c_isidle cp && bool_decide (c ≠ curcpu s)).
  - rw -(H2 (λ cp, Z.lor (c_ipi_pending cp) 4)) -H1. done.
  - specialize (H1 id). rw /upd_cpus /= in H1. destruct s. exact H1.
Qed.

Lemma same_sites_foldl s ts : same_sites s (foldl ready s ts).
Proof.
  revert s. induction ts as [|t ts IH]; intros s; [done|]. intros x. rw /= IH. apply same_sites_ready.
Qed.

Lemma enqueue_same s s' Q t : same_sites s s' → enqueue s' Q t = enqueue s Q t.
Proof.
  intros H. specialize (H t). rw /enqueue. destruct (home s t) as [[c cp]|], (home s' t) as [[c' cp']|]; try done.
  rw /site /= in H. apply (inj Some) in H. by injection H as _ -> _ _.
Qed.

Lemma wakeable_same s s' Q Q' t :
  same_sites s s' → splks s' = splks s → (∀ j, is_Some (Q !! j) → is_Some (Q' !! j)) →
  wakeable s Q t → wakeable s' Q' t.
Proof.
  intros H Hsp HQ (c & cp & R & Hh & HR & Hf). specialize (H t). rw Hh /= in H.
  destruct (home s' t) as [[c' cp']|] eqn:Hh'; [|done]. rw /site /= in H. apply (inj Some) in H.
  injection H as H1 H2 H3 H4. destruct (HQ (c_runqueue cp)) as [R' HR']; [by exists R|].
  exists c', cp', R'. rw H2 /locks_free Hsp H3 H4. done.
Qed.

Lemma enqueue_lookup_Some s Q t j : is_Some (enqueue s Q t !! j) ↔ is_Some (Q !! j).
Proof. rw /enqueue. destruct (home s t) as [[c cp]|]; [|done]. by rw lookup_alter_is_Some. Qed.

Lemma foldl_enqueue_Some s Q ts j : is_Some (foldl (enqueue s) Q ts !! j) ↔ is_Some (Q !! j).
Proof. revert Q. induction ts as [|t ts IH]; intros Q; [done|]. by rw /= IH enqueue_lookup_Some. Qed.

Lemma tlist_bound l tl ts : tlist l tl ts → (length ts < S (size (ThreadList.tnodes l)))%nat.
Proof.
  intros [Hl Hnd _]. rw -size_dom. assert (list_to_set (Of <$> ts) ⊆ dom (ThreadList.tnodes l)) as Hsub.
  { intros a. rw elem_of_list_to_set. intros Ha. apply elem_of_dom.
    assert (a ∈ tpath tl ts) as Hp by (rw /tpath; set_solver).
    apply list_elem_of_split in Hp as (p1 & p2 & Hp). rw Hp linked_app /= in Hl.
    destruct Hl as (_ & Ha' & _). by eexists. }
  apply subseteq_size in Hsub. rw size_list_to_set in Hsub; [|by apply (NoDup_fmap_2 _)].
  rw length_fmap in Hsub. lia.
Qed.

(** The first loop of [wchan_wakeall]: the whole channel goes on the list. *)
Lemma drain_list_spec s Q D W L ts us n :
  queues (lists s) Q D → Q !! W = Some ts → Q !! L = Some us → W ≠ L → (length ts < n)%nat →
  wp (while n tt (λ _,
    target ← on_lists (threadlist_remhead W);
    match target with
    | None => mret (inr tt)
    | Some t => on_lists (threadlist_addtail L t);; mret (inl tt)
    end)) (λ _ s', ∃ l', s' = set_lists l' s ∧ queues l' (<[W := []]> (<[L := us ++ ts]> Q)) D) s.
Proof.
  intros Hq HW HL Hne Hn. apply (wp_while (λ n _ s', ∃ l' ts1 ts2, ts = ts1 ++ ts2 ∧ length ts2 = n ∧
    s' = set_lists l' s ∧ queues l' (<[W := ts2]> (<[L := us ++ ts1]> Q)) D) _ _ (length ts)); [|done|].
  - exists (lists s), [], ts. do 2 (split; [done|]). split; [by destruct s|].
    rw app_nil_r !insert_id //; by rw ?insert_id.
  - intros m [] s' (l' & ts1 & ts2 & -> & Hm & -> & Hq'). wp_step.
    eapply wp_remhead; [exact Hq' | by rw lookup_insert_eq |]. intros l1 Hl1.
    destruct ts2 as [|t ts2]; simpl.
    + apply wp_ret. exists l'. rw app_nil_r Hl1. done.
    + rw insert_insert_eq in Hl1.
      assert (t ∉ D) as HtD.
      { intros Ht. eapply (q_free _ _ _ Hq' _ W); [done | by rw lookup_insert_eq | set_solver]. }
      wp_step. eapply wp_addtail; [exact Hl1 | by rw lookup_insert_ne // lookup_insert_eq | set_solver |].
      intros l2 Hl2. apply wp_ret. exists (length ts2). split; [simpl in Hm; lia|].
      exists l2, (ts1 ++ [t]), ts2. split; [by rw -app_assoc|]. do 2 (split; [done|]).
      assert (({[t]} ∪ D) ∖ {[t]} = D) as HD by set_solver. rw HD in Hl2.
      by rw insert_insert_ne // insert_insert_eq -app_assoc in Hl2.
Qed.

(** The second loop: every thread of the list is made runnable. *)
Lemma ready_all_spec s Q D L ts k i n :
  queues (lists s) (<[L := ts]> Q) D → Q !! L = None → spin s k i → modest k i →
  (∀ t, t ∈ ts → wakeable s Q t) → (length ts < n)%nat →
  wp (while n tt (λ _,
    target ← on_lists (threadlist_remhead L);
    match target with
    | None => mret (inr tt)
    | Some t => thread_make_runnable t false;; mret (inl tt)
    end)) (λ _ s', queues (lists s') (<[L := []]> (foldl (enqueue s) Q ts)) D ∧
      core s' = core (set_lists (lists s') (foldl ready s ts)) ∧ splks s' = splks s ∧ spin s' k i) s.
Proof.
  intros Hq HL Hs Hm Hwk Hn. apply (wp_while (λ n _ s', ∃ ts1 ts2, ts = ts1 ++ ts2 ∧ length ts2 = n ∧
    queues (lists s') (<[L := ts2]> (foldl (enqueue s) Q ts1)) D ∧
    core s' = core (set_lists (lists s') (foldl ready s ts1)) ∧ splks s' = splks s ∧ spin s' k i)
    _ _ (length ts)); [|done|].
  - exists [], ts. do 3 (split; [done|]). split; [by destruct s|done].
  - intros m [] s' (ts1 & ts2 & -> & Hm' & Hq' & Hcore & Hsp & Hs'). wp_step.
    eapply wp_remhead; [exact Hq' | by rw lookup_insert_eq |]. intros l1 Hl1.
    destruct ts2 as [|t ts2]; simpl.
    + apply wp_ret. rw app_nil_r Hl1. destruct s'. done.
    + rw insert_insert_eq in Hl1. set (s1 := set_lists l1 s').
      assert (same_sites s s1) as Hsame.
      { intros x. change (home s1 x) with (home s' x). rw (same_sites_core _ _ Hcore).
        change (home (set_lists (lists s') (foldl ready s ts1)) x) with (home (foldl ready s ts1) x).
        apply same_sites_foldl. }
      assert (wakeable s Q t) as Ht by (apply Hwk; set_solver).
      assert (t ∉ D) as HtD.
      { intros Hin. eapply (q_free _ _ _ Hq' _ L); [done | by rw lookup_insert_eq | set_solver]. }
      wp_step. eapply (wp_wake s1 _ ({[t]} ∪ D)); [exact Hl1 | set_solver | | exact Hs' | done |].
      { eapply wakeable_same; [exact Hsame | done | | exact Ht]. intros j Hj.
        destruct (decide (j = L)) as [->|Hne]; [by rw HL in Hj; destruct Hj|].
        rw lookup_insert_ne //. by apply foldl_enqueue_Some. }
      intros s2 l2 Hq2 Hcore2 Hsp2 Hs2. apply wp_ret. exists (length ts2). split; [simpl in Hm'; lia|].
      exists (ts1 ++ [t]), ts2. split; [by rw -app_assoc|]. split; [done|].
      assert (lists s2 = l2) as Hl2 by (apply core_fields in Hcore2 as [-> _]; done).
      assert (({[t]} ∪ D) ∖ {[t]} = D) as HD by set_solver.
      rw Hl2 !foldl_snoc. split; [|split; [|by rw Hsp2]].
      * rw (enqueue_same _ _ _ _ Hsame) HD in Hq2. destruct Ht as (c & cp & R & Hh & HR & _).
        rw /enqueue Hh in Hq2 |- *. rw alter_insert_ne in Hq2; [exact Hq2|congruence].
      * rw Hcore2 !core_set_lists !core_ready core_set_lists Hcore core_set_lists. 
        by rw !ready_set_lists.
Qed.

Lemma queues_weaken l Q Q' D : Q' ⊆ Q → queues l Q D → queues l Q' D.
Proof.
  intros Hsub [Hl Hd Hdet Hfree]. split; [| | done |].
  - intros tl ts H. by apply Hl, (lookup_weaken _ _ _ _ H).
  - intros tl tl' ts ts' t H H'. eapply Hd; by eapply lookup_weaken.
  - intros t tl ts Ht H. by eapply Hfree, lookup_weaken.
Qed.

Lemma queues_init l l' Q D L :
  queues l Q D → tlist l' L [] → frame l l' L [] → Q !! L = None → queues l' (<[L := []]> Q) D.
Proof.
  intros [Hl Hd Hdet Hfree] HL Hf Hn. split.
  - intros tl ts [[<- <-]|[Hne H]]%lookup_insert_Some; [done|].
    eapply frame_tlist; [done | done | set_solver | by apply Hl].
  - intros tl tl' ts ts' t [[<- <-]|[Hne H]]%lookup_insert_Some [[<- <-]|[Hne' H']]%lookup_insert_Some;
      [done | set_solver | set_solver | by eapply Hd].
  - intros t Ht. eapply frame_detached; [done | set_solver | by apply Hdet].
  - intros t tl ts Ht [[<- <-]|[Hne H]]%lookup_insert_Some; [set_solver | by eapply Hfree].
Qed.

Lemma wp_list_count s Q D tl ts (P : Z → Sched.state → Prop) :
  queues (lists s) Q D → Q !! tl = Some ts → P (u32 (Z.of_nat (length ts))) s →
  wp (on_lists (count tl)) P s.
Proof.
  intros Hq Htl HP. apply wp_on_lists. eapply wp_deref; [by eapply tl_counts, q_list|].
  by destruct s.
Qed.

Lemma wp_cleanup s Q D tl (P : unit → Sched.state → Prop) :
  queues (lists s) Q D → Q !! tl = Some [] → P tt s → wp (on_lists (threadlist_cleanup tl)) P s.
Proof.
  intros Hq Htl HP. pose proof (tl_counts _ _ _ (q_list _ _ _ Hq _ _ Htl)) as Hc.
  apply wp_on_lists. rw /threadlist_cleanup /threadlist_isempty. wp_step. wp_step.
  eapply wp_deref; [exact Hc|]. apply wp_ret. wp_step. apply wp_kassert; [done|]. wp_step.
  eapply wp_deref; [exact Hc|]. apply wp_kassert; [done|]. by destruct s.
Qed.

Lemma wakeall_spec s Q D list wc w lk ts k i :
  queues (lists s) Q D → Q !! list = None → wc ∈ live (sys s) → wchans s !! wc = Some w →
  Q !! wc_threads w = Some ts → splks s !! lk = Some (held_splk (curcpu s)) → spin s k i → modest k i →
  (∀ t, t ∈ ts → wakeable s Q t) →
  wp (wchan_wakeall list wc lk) (λ _ s', ∃ l',
    queues l' (foldl (enqueue s) (<[wc_threads w := []]> Q) ts) D ∧
    core s' = core (set_lists l' (foldl ready s ts)) ∧ splks s' = splks s ∧ spin s' k i) s.
Proof.
  intros Hq HL Hl Hw Hts Hlk Hs Hm Hwk. rw /wchan_wakeall. wp_step. eapply wp_do_i_hold; [done|].
  wp_step. apply wp_kassert; [done|]. wp_step. apply wp_on_lists.
  eapply wp_mono; [apply init_spec|]. intros [] l1 [Hl1 Hf1].
  pose proof (queues_init _ _ _ _ _ Hq Hl1 Hf1 HL) as Hq1. set (s1 := set_lists l1 s).
  wp_step. eapply wp_get_wchan; [done..|]. wp_step. wp_step. wp_step.
  assert (wc_threads w ≠ list) as Hne by (intros Heq; by rw Heq HL in Hts).
  assert (length ts < node_bound s1)%nat as Hb.
  { eapply tlist_bound, (q_list _ _ _ Hq1). by rw lookup_insert_ne. }
  eapply wp_mono; [eapply drain_list_spec; [exact Hq1 | by rw lookup_insert_ne | by rw lookup_insert_eq | done | done]|].
  intros [] s2 (l2 & -> & Hq2). rw insert_insert_eq app_nil_l insert_insert_ne // in Hq2. wp_step.
  eapply wp_mono.
  { eapply (ready_all_spec (set_lists l2 s1)); [exact Hq2 | by rw lookup_insert_ne | exact Hs | done | | done].
    intros t Ht. eapply (wakeable_same s); [intros x; done | done | | by apply Hwk].
    intros j Hj. destruct (decide (wc_threads w = j)) as [<-|Hj']; [by rw lookup_insert_eq|by rw lookup_insert_ne]. }
  intros [] s3 (Hq3 & Hcore3 & Hsp3 & Hs3). eapply wp_cleanup; [exact Hq3 | by rw lookup_insert_eq |].
  exists (lists s3). split; [|split; [|done]].
  - eapply queues_weaken; [|exact Hq3]. apply insert_subseteq.
    destruct (foldl _ _ _ !! list) eqn:Hx; [|done].
    assert (is_Some (Q !! list)) as [? ?]; [|by rw HL in H].
    assert (is_Some (<[wc_threads w:=[]]> Q !! list)) as Hy by (apply (foldl_enqueue_Some (set_lists l2 s1) _ ts); by rw Hx).
    by rw lookup_insert_ne in Hy.
  - rw Hcore3 !core_set_lists !core_foldl_ready core_set_lists /s1 core_set_lists.
    assert (∀ us c l, set_lists (lists s3) (foldl ready (set_lists l c) us) =
      set_lists (lists s3) (foldl ready c us)) as H.
    { intros us. induction us as [|t us IH]; intros c' l; [done|]. simpl. rw ready_set_lists. apply IH. }
    by rw !H.
Qed.
