(* ===== verification/SchedThms.v ===== *)
(** * What the scheduler guarantees

    The theorems about wait channels and the context switch, with a small
    machine they apply to. *)

From stdpp Require Import base tactics list gmap option numbers ssreflect.
From S2P Require Import Prelude Kern.
From S2P Require Import ThreadList.
From S2P Require Import Sched SchedFacts.

Open Scope Z_scope.

(** ** The context switch *)

(** A running thread outside critical sections, and one that has been switched
    out of [thread_switch]: by [thread_yield] or [wchan_sleep], or it has just
    been forked. *)
Definition at_rest (th : thread) : Prop := t_curspl th = IPL_NONE ∧ t_iplhigh_count th = 0.
Definition parked (th : thread) : Prop :=
  t_curspl th = IPL_HIGH ∧ t_iplhigh_count th = 2 ∧
  (t_context th = Startup ∨ ∃ relock, t_context th = Switched IPL_NONE relock).

(** The spinlock that a thread woken from [wchan_sleep] takes again. *)
Definition relock_of (th : thread) : ptr := match t_context th with Switched _ lk => lk | Startup => None end.

(** The state with the current CPU's spinlock count [k] and its thread's
    interrupt nesting [i]. *)
Definition nest_thread (i : Z) (th : thread) : thread := with_spl (t_curspl th) i th.
Definition nest_cpu (k i : Z) (c : cpu) : cpu := cpu_with_irq (bool_decide (i = 0)) (cpu_with_spinlocks k c).
Definition nest (c x : loc) (cp : cpu) (th : thread) (k i : Z) (s : Sched.state) : Sched.state :=
  upd_threads <[x := nest_thread i th]> (upd_cpus <[c := nest_cpu k i cp]> s).

(** The current CPU and thread, with interrupts off [i] times over. *)
Definition current (s : Sched.state) (cp : cpu) (th : thread) (i : Z) : Prop :=
  cpus s !! curcpu s = Some cp ∧ threads s !! c_curthread cp = Some th ∧
  t_iplhigh_count th = i ∧ c_irq cp = bool_decide (i = 0) ∧ 0 ≤ i < 2 ^ 30.

Lemma wp_splraise_exact s cp th i (Q : unit → Sched.state → Prop) :
  current s cp th i →
  Q tt (nest (curcpu s) (c_curthread cp) cp th (c_spinlocks cp) (i + 1) s) →
  wp (splraise IPL_NONE IPL_HIGH) Q s.
Proof.
  intros (Hc & Ht & Hi & Hq & Hb) HQ. rw /splraise. wp_step. eapply wp_curthread; [done|].
  wp_step. apply wp_kassert; [done|].
  wp_step. apply wp_kassert; [done|]. rw /get_thread. wp_step. eapply wp_deref; [done|]. wp_step.
  apply (wp_mono _ (λ _ s1, s1 = upd_cpus <[curcpu s := nest_cpu (c_spinlocks cp) (i + 1) cp]> s)).
  { rw Hi /nest_cpu (bool_decide_eq_false_2 (i + 1 = 0)); [|lia]. bd_case (i = 0) as H0.
    - rw /upd_curcpu. do 2 wp_step. eapply wp_upd_cpu; [done|]. by destruct cp.
    - apply wp_ret. rw bool_decide_eq_false_2 // in Hq. rw /upd_cpus insert_id; [by destruct s|].
      destruct cp; simpl in *. by subst. }
  intros [] s1 ->. eapply wp_upd_thread; [done|]. rw Hi s32_small; [done|lia].
Qed.

Lemma wp_spllower_exact s cp th i (Q : unit → Sched.state → Prop) :
  current s cp th i → 0 < i →
  Q tt (nest (curcpu s) (c_curthread cp) cp th (c_spinlocks cp) (i - 1) s) →
  wp (spllower IPL_HIGH IPL_NONE) Q s.
Proof.
  intros (Hc & Ht & Hi & Hq & Hb) Hp HQ. rw /spllower. wp_step. eapply wp_curthread; [done|].
  wp_step. apply wp_kassert; [done|].
  wp_step. apply wp_kassert; [done|]. wp_step. eapply wp_upd_thread; [done|].
  rw Hi s32_small; [|lia]. rw /get_thread. wp_step.
  eapply wp_deref; [by rw /= lookup_insert_eq|]. cbn beta. simpl t_iplhigh_count.
  rw /nest /nest_cpu in HQ. bd_case (i - 1 = 0) as H0.
  - rw /upd_curcpu. do 2 wp_step. eapply wp_upd_cpu; [done|].
    by rw bool_decide_eq_true_2 in HQ.
  - apply wp_ret. rw bool_decide_eq_false_2 // in HQ. rw bool_decide_eq_false_2 in Hq; [|lia].
    rw /upd_cpus insert_id in HQ; [by destruct s|].
    destruct cp; simpl in *. by subst.
Qed.

Lemma wp_acquire_exact s cp th i p (Q : unit → Sched.state → Prop) :
  current s cp th i → 0 ≤ c_spinlocks cp < 2 ^ 30 → splks s !! p = Some free_splk →
  Q tt (upd_splks <[p := held_splk (curcpu s)]>
    (nest (curcpu s) (c_curthread cp) cp th (c_spinlocks cp + 1) (i + 1) s)) →
  wp (spinlock_acquire p) Q s.
Proof.
  intros Hcur Hk Hp HQ. rw /spinlock_acquire. wp_step. eapply wp_splraise_exact; [done|]. wp_step. wp_step.
  rw /get_splk. wp_step. eapply wp_deref; [done|]. wp_step. rw bool_decide_eq_false_2; [|done].
  apply wp_ret. wp_step. eapply wp_upd_cpu; [apply lookup_insert_eq|]. simpl.
  rw u32_small; [|lia]. apply wp_modify. rw /nest /upd_cpus /upd_threads /upd_splks /= insert_insert_eq.
  exact HQ.
Qed.

Lemma wp_release_exact s cp th i p (Q : unit → Sched.state → Prop) :
  current s cp th i → 0 < c_spinlocks cp < 2 ^ 30 → 0 < i →
  splks s !! p = Some (held_splk (curcpu s)) →
  Q tt (upd_splks <[p := free_splk]>
    (nest (curcpu s) (c_curthread cp) cp th (c_spinlocks cp - 1) (i - 1) s)) →
  wp (spinlock_release p) Q s.
Proof.
  intros (Hc & Ht & Hi & Hq & Hb) Hk Hp Hsp HQ. rw /spinlock_release. wp_step. wp_step.
  rw /get_splk. wp_step. eapply wp_deref; [done|]. wp_step. apply wp_kassert; [by apply bool_decide_eq_true_2|].
  rw /get_cpu. wp_step. eapply wp_deref; [done|]. wp_step. apply wp_kassert; [apply bool_decide_eq_true_2; lia|].
  wp_step. eapply wp_upd_cpu; [done|]. rw u32_small; [|lia]. wp_step. apply wp_modify.
  eapply (wp_spllower_exact _ (cpu_with_spinlocks (c_spinlocks cp - 1) cp) th i); [|done|].
  - split; [by rw /= lookup_insert_eq|]. done.
  - rw /nest /upd_cpus /upd_threads /upd_splks /= insert_insert_eq. exact HQ.
Qed.

(** What the switch does to the two threads. *)
Definition switched_out (th : thread) : thread :=
  with_context (Switched IPL_NONE None) (with_state S_READY (with_spl IPL_HIGH 2 th)).
Definition relocks (th : thread) : Z := if relock_of th is Some _ then 1 else 0.
Definition switched_in (th : thread) : thread :=
  with_spl IPL_NONE (relocks th) (with_state S_RUN (with_wchan None th)).
Definition taken_again (s : Sched.state) (th : thread) : gmap loc spinlock :=
  match relock_of th with Some lk => <[lk := held_splk (curcpu s)]> (splks s) | None => splks s end.

(** A CPU about to yield from its thread [x], with run queue [q]. *)
Record yielding (s : Sched.state) (Q : gmap loc (list loc)) (D : gset loc)
    (cp : cpu) (thx : thread) (q : list loc) : Prop := {
  y_queues : queues (lists s) Q D;
  y_cpu : cpus s !! curcpu s = Some cp;
  y_idle : c_isidle cp = false;
  y_spinlocks : c_spinlocks cp = 0;
  y_irq : c_irq cp = true;
  y_cur : threads s !! c_curthread cp = Some thx;
  y_cur_rest : at_rest thx;
  y_cur_cpu : t_cpu thx = Some (curcpu s);
  y_cur_stack : t_checked thx = true;
  y_cur_free : c_curthread cp ∈ D;
  y_runqueue : Q !! c_runqueue cp = Some q;
  y_short : Z.of_nat (length q) < 2 ^ 32;
  y_zombies : Q !! c_zombies cp = Some [];
  y_apart : c_runqueue cp ≠ c_zombies cp;
  y_lock : splks s !! c_runqueue_lock cp = Some free_splk
}.

(** The thread [th] can go on on the CPU [cp]: the lock it wants is free. *)
Definition can_go_on (s : Sched.state) (cp : cpu) (th : thread) : Prop :=
  parked th ∧ ∀ lk, relock_of th = Some lk → lk ≠ c_runqueue_lock cp ∧ splks s !! lk = Some free_splk.

Lemma wp_splhigh_rest s cp th (Q : Z → Sched.state → Prop) :
  current s cp th 0 → t_curspl th = IPL_NONE →
  Q 0 (upd_threads <[c_curthread cp := with_spl IPL_HIGH 1 th]>
        (upd_cpus <[curcpu s := nest_cpu (c_spinlocks cp) 1 cp]> s)) →
  wp splhigh Q s.
Proof.
  intros Hcur Hspl HQ. pose proof Hcur as (Hc & Ht & _). rw /splhigh /splx. wp_step.
  eapply wp_curthread; [done|]. rw /get_thread. wp_step. eapply wp_deref; [done|]. cbn beta.
  rw Hspl (bool_decide_eq_true_2 (IPL_NONE < IPL_HIGH)) //. wp_step. eapply wp_splraise_exact; [done|].
  wp_step. eapply wp_upd_thread; [by rw /= lookup_insert_eq|]. apply wp_ret.
  by rw /nest /upd_threads /= insert_insert_eq.
Qed.

(** Leaving the switch in the thread that was parked. *)
Lemma wp_splx_rest s cp th spl (Q : Z → Sched.state → Prop) :
  current s cp th 1 → t_curspl th = IPL_HIGH → spl = IPL_NONE →
  Q 1 (upd_threads <[c_curthread cp := with_spl IPL_NONE 0 th]>
        (upd_cpus <[curcpu s := nest_cpu (c_spinlocks cp) 0 cp]> s)) →
  wp (splx spl) Q s.
Proof.
  intros (Hc & Ht & Hi & Hq & Hb) Hspl -> HQ. rw /splx. wp_step.
  eapply wp_curthread; [done|]. rw /get_thread. wp_step. eapply wp_deref; [done|]. cbn beta.
  rw Hspl (bool_decide_eq_false_2 (IPL_HIGH < IPL_NONE)) // (bool_decide_eq_true_2 (IPL_HIGH > IPL_NONE)) //.
  wp_step. eapply wp_upd_thread; [done|]. wp_step.
  eapply (wp_spllower_exact _ cp (with_spl IPL_NONE 1 th) 1); [|lia|].
  - split; [done|]. split; [by rw /= lookup_insert_eq Hi|]. done.
  - apply wp_ret. by rw /nest /upd_threads /= insert_insert_eq.
Qed.

Lemma exorcise_none s Q D cp (P : unit → Sched.state → Prop) :
  queues (lists s) Q D → cpus s !! curcpu s = Some cp → Q !! c_zombies cp = Some [] →
  P tt s → wp exorcise P s.
Proof.
  intros Hq Hc Hz HP. rw /exorcise. wp_step. wp_step.
  apply (wp_while (λ _ _ s', s' = s) _ _ 0%nat); [done | rw /node_bound; lia |].
  intros n [] s' ->. wp_step. rw /get_curcpu /get_cpu. wp_step. wp_step. eapply wp_deref; [done|].
  wp_step. eapply wp_remhead; [done..|]. intros l' ->. apply wp_ret. by destruct s.
Qed.

(** [thread_make_runnable] with the run queue locked already. *)
Lemma requeue_self s Q D x thx cp R (P : unit → Sched.state → Prop) :
  queues (lists s) Q D → x ∈ D → threads s !! x = Some thx → t_cpu thx = Some (curcpu s) →
  cpus s !! curcpu s = Some cp → Q !! c_runqueue cp = Some R →
  splks s !! c_runqueue_lock cp = Some (held_splk (curcpu s)) →
  (∀ l', queues l' (<[c_runqueue cp := R ++ [x]]> Q) (D ∖ {[x]}) →
     P tt (set_lists l' (upd_threads <[x := with_state S_READY thx]> s))) →
  wp (thread_make_runnable x true) P s.
Proof.
  intros Hq Hx Ht Hc Hcp HR Hl HP. rw /thread_make_runnable /get_thread /get_cpu. wp_step.
  eapply wp_deref; [done|]. wp_step. eapply wp_nonnull; [done|]. wp_step. eapply wp_deref; [done|].
  wp_step. cbn iota. wp_step. eapply wp_do_i_hold; [done|]. apply wp_kassert; [done|].
  wp_step. eapply wp_upd_thread; [done|]. wp_step. eapply (wp_addtail _ Q D); [done..|]. intros l' Hl'.
  wp_step. eapply wp_deref; [done|]. wp_step. wp_step. wp_step. cbn iota.
  rw (bool_decide_eq_false_2 (curcpu s ≠ curcpu s)); [|by intros H; apply H].
  rw andb_false_r. apply wp_ret. apply wp_ret. by apply HP.
Qed.

(** The next thread goes on, and takes the lock it slept with. *)
Lemma switch_in_spec s Q D cp th (P : unit → Sched.state → Prop) :
  queues (lists s) Q D → cpus s !! curcpu s = Some cp → threads s !! c_curthread cp = Some th →
  can_go_on s cp th → c_irq cp = false → c_spinlocks cp = 1 → Q !! c_zombies cp = Some [] →
  splks s !! c_runqueue_lock cp = Some (held_splk (curcpu s)) →
  (∀ s', lists s' = lists s → curcpu s' = curcpu s →
     splks s' = taken_again (upd_splks <[c_runqueue_lock cp := free_splk]> s) th →
     cpus s' = <[curcpu s := nest_cpu (relocks th) (relocks th) cp]> (cpus s) →
     threads s' = <[c_curthread cp := switched_in th]> (threads s) → P tt s') →
  wp switch_in P s.
Proof.
  intros Hq Hc Ht [(Hspl & Hn & Hctx) Hlk] Hirq Hk Hz Hl HP. rw /switch_in. wp_step.
  eapply wp_curthread; [done|]. rw /get_thread. wp_step. eapply wp_deref; [done|].
  wp_step. rw /switch_tail. wp_step. eapply wp_curthread; [done|].
  wp_step. eapply wp_upd_thread; [done|]. wp_step. eapply wp_upd_thread; [apply lookup_insert_eq|].
  wp_step. rw /get_curcpu /get_cpu. wp_step. wp_step. eapply wp_deref; [done|].
  wp_step. eapply (wp_release_exact _ cp (with_state S_RUN (with_wchan None th)) 2);
    [| rw Hk; lia | lia | done |].
  { split; [done|]. split; [by rw /= lookup_insert_eq|]. split; [done|]. by rw Hirq. }
  rw Hk /=. eapply exorcise_none; [done | by rw /= lookup_insert_eq | done |].
  set (s4 := upd_splks _ _). set (cp4 := nest_cpu 0 1 cp). set (th4 := nest_thread 1 (with_state S_RUN (with_wchan None th))).
  assert (current s4 cp4 th4 1) as Hcur4.
  { rw /s4 /nest. split; [by rw /= lookup_insert_eq|]. split; [by rw /= lookup_insert_eq|]. done. }
  set (s5 := upd_threads <[c_curthread cp := with_spl IPL_NONE 0 th4]> (upd_cpus <[curcpu s4 := nest_cpu 0 0 cp4]> s4)).
  assert (relock_of th = None → P tt s5) as Hend.
  { intros Hr. apply HP; rw /taken_again /switched_in /relocks ?Hr; [done..| |]; by rw /= !insert_insert_eq. }
  destruct Hctx as [Hctx|[relock Hctx]]; rw Hctx; wp_step.
  { eapply wp_splx_rest; [exact Hcur4 | done | done |]. wp_step. apply Hend. by rw /relock_of Hctx. }
  eapply wp_splx_rest; [exact Hcur4 | done | done |]. destruct relock as [lk|]; [|apply wp_ret, Hend; by rw /relock_of Hctx].
  assert (relock_of th = Some lk) as Hr by (by rw /relock_of Hctx). destruct (Hlk lk Hr) as [Hne Hfree].
  apply (wp_acquire_exact s5 (nest_cpu 0 0 cp4) (with_spl IPL_NONE 0 th4) 0 lk); [|done|by rw /= lookup_insert_ne|].
  { split; [by rw /= lookup_insert_eq|]. split; [by rw /= lookup_insert_eq|]. done. }
  apply HP; rw /taken_again /switched_in /relocks ?Hr; [done..| |]; by rw /= !insert_insert_eq.
Qed.

(** Taking the head of a run queue that is not empty. *)
Lemma pick_next_spec s Q D cp t R (P : loc → Sched.state → Prop) :
  queues (lists s) Q D → cpus s !! curcpu s = Some cp → Q !! c_runqueue cp = Some (t :: R) →
  (∀ l', queues l' (<[c_runqueue cp := R]> Q) ({[t]} ∪ D) → P t (set_lists l' s)) →
  wp pick_next P s.
Proof.
  intros Hq Hc HR HP. rw /pick_next. wp_step. wp_step.
  apply (wp_while (λ _ _ s', s' = s) _ _ 0%nat); [done | lia |]. intros n [] s' ->.
  rw /get_curcpu /get_cpu. do 3 wp_step. eapply wp_deref; [done|]. wp_step.
  eapply wp_remhead; [done..|]. intros l' Hl'. apply wp_ret. by apply HP.
Qed.

(** From the locked run queue to the next thread: the current one goes to the
    end of the queue, and the head of the queue goes on. *)
Lemma swap_spec s Q D cp x thx t tht R (P : unit → Sched.state → Prop) :
  queues (lists s) Q D → cpus s !! curcpu s = Some cp → c_curthread cp = x →
  c_irq cp = false → c_spinlocks cp = 1 → threads s !! x = Some thx → t_cpu thx = Some (curcpu s) → x ∈ D →
  Q !! c_runqueue cp = Some (t :: R) → Q !! c_zombies cp = Some [] → c_runqueue cp ≠ c_zombies cp →
  threads s !! t = Some tht → can_go_on s cp tht → splks s !! c_runqueue_lock cp = Some (held_splk (curcpu s)) →
  (∀ s', queues (lists s') (<[c_runqueue cp := R ++ [x]]> Q) ({[t]} ∪ (D ∖ {[x]})) → curcpu s' = curcpu s →
     splks s' = taken_again (upd_splks <[c_runqueue_lock cp := free_splk]> s) tht →
     cpus s' !! curcpu s = Some (cpu_with_thread t (nest_cpu (relocks tht) (relocks tht) (cpu_with_idle false cp))) →
     threads s' = <[t := switched_in tht]> (<[x := with_context (Switched IPL_NONE None) (with_state S_READY thx)]> (threads s)) →
     P tt s') →
  wp (thread_make_runnable x true;; upd_thread x (with_state S_READY);; upd_curcpu (cpu_with_idle true);;
      next ← pick_next; upd_curcpu (cpu_with_idle false);; upd_thread x (with_context (Switched IPL_NONE None));;
      upd_curcpu (cpu_with_thread next);; switch_in) P s.
Proof.
  intros Hq Hc Hcx Hirq Hk Hx Hxc HxD HR Hz Hap Ht Hgo Hl HP.
  assert (t ≠ x) as Htx by (intros ->; eapply (q_free _ _ _ Hq x); [done | exact HR | set_solver]).
  wp_step. eapply requeue_self; [done..|]. intros l1 Hl1. wp_step.
  eapply wp_upd_thread; [by rw /= lookup_insert_eq|]. wp_step. rw /upd_curcpu. do 2 wp_step.
  eapply wp_upd_cpu; [done|]. wp_step.
  eapply pick_next_spec; [exact Hl1 | by rw /= lookup_insert_eq | by rw /= lookup_insert_eq |].
  intros l2 Hl2. rw /= insert_insert_eq in Hl2. do 3 wp_step.
  eapply wp_upd_cpu; [by rw /= lookup_insert_eq|]. wp_step.
  eapply wp_upd_thread; [by rw /= lookup_insert_eq|]. do 3 wp_step.
  eapply wp_upd_cpu; [by rw /= lookup_insert_eq|].
  eapply (switch_in_spec _ _ _ (cpu_with_thread t (cpu_with_idle false cp)) tht);
    [exact Hl2 | by rw /= !insert_insert_eq lookup_insert_eq | by rw /= !lookup_insert_ne | done | done | done
    | by rw /= lookup_insert_ne | done |].
  intros s' Hls Hcs Hsp Hcps Hths. apply HP; [by rw Hls | by rw Hcs | by rw Hsp | |].
  - by rw Hcps /= !insert_insert_eq lookup_insert_eq.
  - by rw Hths /= !insert_insert_eq.
Qed.

(** [thread_yield] up to the locked run queue. *)
Definition in_switch (s : Sched.state) (cp : cpu) (thx : thread) : Sched.state :=
  upd_splks <[c_runqueue_lock cp := held_splk (curcpu s)]>
    (upd_threads <[c_curthread cp := with_spl IPL_HIGH 2 thx]> (upd_cpus <[curcpu s := nest_cpu 1 2 cp]> s)).

Lemma in_switch_current s cp thx :
  t_curspl thx = IPL_NONE → current (in_switch s cp thx) (nest_cpu 1 2 cp) (with_spl IPL_HIGH 2 thx) 2.
Proof. intros Hs. split; [by rw /= lookup_insert_eq|]. split; [by rw /= lookup_insert_eq|]. done. Qed.

Lemma yield_begins s Q D cp thx q (P : unit → Sched.state → Prop) :
  yielding s Q D cp thx q →
  (let cur := c_curthread cp in
   wp (if bool_decide (q = []) then spinlock_release (c_runqueue_lock cp);; splx IPL_NONE;; mret tt
       else thread_make_runnable cur true;; upd_thread cur (with_state S_READY);; upd_curcpu (cpu_with_idle true);;
         next ← pick_next; upd_curcpu (cpu_with_idle false);; upd_thread cur (with_context (Switched IPL_NONE None));;
         upd_curcpu (cpu_with_thread next);; switch_in) P (in_switch s cp thx)) →
  wp thread_yield P s.
Proof.
  intros [Hq Hc Hidle Hk Hirq Hx [Hxs Hxi] Hxc Hxst HxD HR Hshort Hz Hap Hl] HP.
  set (x := c_curthread cp) in *. cbn zeta in HP.
  assert (current s cp thx 0) as Hcur by (rw /current Hirq; done).
  rw /thread_yield /thread_switch. wp_step. eapply wp_splhigh_rest; [done..|]. fold x.
  set (cp1 := nest_cpu (c_spinlocks cp) 1 cp). set (th1 := with_spl IPL_HIGH 1 thx).
  set (s1 := upd_threads _ _).
  assert (current s1 cp1 th1 1) as Hcur1.
  { split; [by rw /s1 /= lookup_insert_eq|]. split; [by rw /s1 /= lookup_insert_eq|]. done. }
  pose proof Hcur1 as (Hc1 & Hx1 & _).
  wp_step. eapply wp_curthread; [done|]. wp_step. rw /get_curcpu /get_cpu. wp_step. wp_step.
  eapply wp_deref; [done|]. cbn beta. change (c_isidle cp1) with (c_isidle cp). rw Hidle.
  wp_step. rw /thread_checkstack /get_thread. wp_step. eapply wp_deref; [done|].
  apply (wp_mono _ (λ _ s', s' = s1)).
  { change (t_checked th1) with (t_checked thx). rw Hxst. cbn beta. by destruct (t_stack th1). }
  intros [] s' ->. wp_step. eapply wp_acquire_exact; [exact Hcur1 | rw /= Hk; lia | done |].
  change (curcpu s1) with (curcpu s).
  match goal with |- wp _ _ ?s2 => assert (s2 = in_switch s cp thx) as -> end.
  { by rw /in_switch /s1 /nest /upd_splks /upd_threads /upd_cpus /= !insert_insert_eq Hk. }
  wp_step. apply wp_on_lists. rw /threadlist_isempty. wp_step.
  eapply wp_deref; [by eapply tl_counts, q_list|]. apply wp_ret. cbn beta.
  rw u32_small; [|lia]. rw /= (bool_decide_ext (Z.of_nat (length q) = 0) (q = [])); [exact HP|].
  destruct q; [done|]. split; [simpl; lia|done].
Qed.

(** ** The scheduler theorems *)

(** C30: [thread_yield] is round robin, called by a thread at rest (interrupts on,
    no spinlock held, its stack intact) on a CPU that is not idle, with its run
    queue unlocked and no zombies to clean up.  With an empty run queue nothing
    changes.  Otherwise the current thread goes to the end of the queue, the head
    of the queue runs, and no other thread or list changes.  The head is a thread
    that is new, or has itself come out of [thread_yield] or [wchan_sleep]; in
    the last case the spinlock it slept with is free.  The interrupt nesting is
    handed over exactly: the run queue lock the old thread took is released by
    the new one, which comes back with its own saved level restored, interrupts
    on and no spinlock held, or, out of [wchan_sleep], holding the spinlock it
    slept with; no other spinlock changes.  The old thread is left as such heads
    are found. *)
Theorem thread_yield_round_robin s Q D cp thx q :
  yielding s Q D cp thx q →
  match q with
  | [] => wp thread_yield (λ _ s', s' = s) s
  | t :: R => ∀ tht, threads s !! t = Some tht → can_go_on s cp tht →
      wp thread_yield (λ _ s',
        queues (lists s') (<[c_runqueue cp := R ++ [c_curthread cp]]> Q) ({[t]} ∪ (D ∖ {[c_curthread cp]})) ∧
        cpus s' !! curcpu s' = Some (cpu_with_thread t (nest_cpu (relocks tht) (relocks tht) cp)) ∧
        threads s' = <[t := switched_in tht]> (<[c_curthread cp := switched_out thx]> (threads s)) ∧
        (relock_of tht = None → at_rest (switched_in tht)) ∧ parked (switched_out thx) ∧
        splks s' = taken_again s tht) s
  end.
Proof.
  intros Hy. pose proof Hy as [Hq Hc Hidle Hk Hirq Hx [Hxs Hxi] Hxc Hxst HxD HR Hshort Hz Hap Hl].
  set (x := c_curthread cp) in *. set (s2 := in_switch s cp thx). pose proof (in_switch_current s cp thx Hxs) as Hcur2.
  destruct q as [|t R].
  - eapply yield_begins; [exact Hy|]. cbn zeta. rw bool_decide_eq_true_2 //. fold s2. wp_step.
    eapply wp_release_exact; [exact Hcur2 | simpl; lia | lia | apply lookup_insert_eq|]. wp_step.
    eapply (wp_splx_rest _ (nest_cpu 0 1 cp) (with_spl IPL_HIGH 1 thx)); [|done|done|].
    { split; [by rw /= lookup_insert_eq|]. split; [by rw /= lookup_insert_eq|]. done. }
    apply wp_ret. rw /nest /upd_splks /upd_threads /upd_cpus /= !insert_insert_eq.
    destruct s as [? ? ths cps ? cc ? spl ? ?]; simpl in *. f_equal; apply insert_id; [rw Hx | rw Hc | done].
    + f_equal. destruct thx; simpl in *. by subst.
    + f_equal. destruct cp; simpl in *. by subst.
  - intros tht Ht [Hpark Hlk]. assert (t ≠ x) as Htx by (intros ->; eapply (q_free _ _ _ Hq x); [done | exact HR | set_solver]).
    eapply yield_begins; [exact Hy|]. cbn zeta. rw bool_decide_eq_false_2 //. fold s2 x.
    eapply (swap_spec s2 Q D (nest_cpu 1 2 cp) x (with_spl IPL_HIGH 2 thx) t tht R); try done.
    + by rw /= lookup_insert_eq.
    + by rw /= lookup_insert_eq.
    + by rw /= lookup_insert_ne.
    + split; [done|]. intros lk Hr. destruct (Hlk lk Hr). split; [done|]. by rw /= lookup_insert_ne.
    + apply lookup_insert_eq.
    + intros s' Hq' Hcur' Hsp Hcps Hths. split; [exact Hq'|]. split; [|split; [|split; [|split]]].
      * rw Hcur' Hcps. destruct cp; simpl in *. by subst.
      * by rw Hths /= insert_insert_eq.
      * intros Hr. by rw /at_rest /switched_in /relocks Hr.
      * split; [done|]. split; [done|]. by right; eexists.
      * rw Hsp /taken_again /= splks_restore //.
Qed.

(** C31: waking is first in, first out. With the channel's spinlock held by this
    CPU, and the run queue and interrupt locks of the sleepers' CPUs free,
    [wchan_wakeone] moves the thread that has slept longest to the end of its
    own CPU's run queue, ready to run (and an idle CPU other than this one is
    interrupted); with nobody asleep nothing changes. [wchan_wakeall] empties
    the channel: every sleeper, in the order they went to sleep, is put on its
    own CPU's run queue; both of its loops end, and its private list is empty at
    the end. The spinlocks and the interrupt nesting come back as they were. *)
Theorem wchan_wakes_fifo s Q D wc w lk ts k i :
  queues (lists s) Q D → wc ∈ live (sys s) → wchans s !! wc = Some w → Q !! wc_threads w = Some ts →
  splks s !! lk = Some (held_splk (curcpu s)) → spin s k i → modest k i →
  ((∀ x, head ts = Some x → x ∉ D ∧ wakeable s (<[wc_threads w := tail ts]> Q) x) →
    wp (wchan_wakeone wc lk) (λ _ s', match ts with
      | [] => s' = s
      | x :: ts' => ∃ l', queues l' (enqueue s (<[wc_threads w := ts']> Q) x) D ∧
          core s' = core (set_lists l' (ready s x)) ∧ splks s' = splks s ∧ spin s' k i
      end) s) ∧
  ∀ list, Q !! list = None → (∀ t, t ∈ ts → wakeable s Q t) →
    wp (wchan_wakeall list wc lk) (λ _ s', ∃ l',
      queues l' (foldl (enqueue s) (<[wc_threads w := []]> Q) ts) D ∧
      core s' = core (set_lists l' (foldl ready s ts)) ∧ splks s' = splks s ∧ spin s' k i) s.
Proof. intros. split; [intros; by apply wakeone_spec | intros; by apply wakeall_spec]. Qed.

(** Taking a free spinlock and releasing it gives back the state exactly:
    the lock, the CPU's count of spinlocks, the thread's interrupt nesting, and
    the interrupt flag, at any nesting depth; in between, interrupts are off
    and the lock is held by this CPU. *)
Theorem spinlock_acquire_release s cp th i p :
  current s cp th i → 0 ≤ c_spinlocks cp < 2 ^ 29 → i < 2 ^ 29 → splks s !! p = Some free_splk →
  wp (spinlock_acquire p) (λ _ s', splks s' !! p = Some (held_splk (curcpu s)) ∧
    ∃ cp', cpus s' !! curcpu s = Some cp' ∧ c_irq cp' = false) s ∧
  (spinlock_acquire p;; spinlock_release p) s = Ok tt s.
Proof.
  intros Hcur Hk Hi Hp. pose proof Hcur as (Hc & Ht & Hin & Hq & Hb). split.
  - eapply wp_acquire_exact; [done | lia | done |]. split; [apply lookup_insert_eq|].
    eexists. rw /= lookup_insert_eq. split; [done|]. apply bool_decide_eq_false_2. lia.
  - cut (wp (spinlock_acquire p;; spinlock_release p) (λ _ s', s' = s) s).
    { by intros ([] & s' & -> & ->)%wp_eq. }
    wp_step. eapply wp_acquire_exact; [done | lia | done |].
    eapply (wp_release_exact _ (nest_cpu (c_spinlocks cp + 1) (i + 1) cp) (nest_thread (i + 1) th) (i + 1));
      [| simpl; lia | lia | apply lookup_insert_eq |].
    { split; [by rw /= lookup_insert_eq|]. split; [by rw /= lookup_insert_eq|].
      split; [done|]. split; [done|]. lia. }
    rw /nest /upd_splks /upd_threads /upd_cpus /= !insert_insert_eq !Z.add_simpl_r.
    destruct s as [? ? ths cps ? cc ? spl ? ?]; simpl in *. f_equal.
    + apply insert_id. rw Ht. destruct th; simpl in *. by subst.
    + apply insert_id. rw Hc. destruct cp; simpl in *. by subst.
    + by apply insert_id.
Qed.

(** ** A small machine

    CPU 1 runs thread 10; thread 11 is on its run queue (2); threads 12 and 13
    sleep on the wait channel 20; the zombie list is 3; the spinlocks are 4
    (run queue), 5 (interrupts) and 6 (the channel's). *)
Definition a_thread (st : threadstate) (spl n : Z) : thread :=
  Thread None st (Some 50%positive) true (Switched IPL_NONE None) (Some 1%positive) None false spl n.

Definition small_lists : ThreadList.state := ThreadList.State
  {[Head 2 := Node None (Some (Of 11)) None; Of 11%positive := Node (Some (Head 2)) (Some (Tail 2)) (Some 11%positive);
    Tail 2 := Node (Some (Of 11)) None None;
    Head 3 := Node None (Some (Tail 3)) None; Tail 3 := Node (Some (Head 3)) None None;
    Head 20 := Node None (Some (Of 12)) None; Of 12%positive := Node (Some (Head 20)) (Some (Of 13)) (Some 12%positive);
    Of 13%positive := Node (Some (Of 12)) (Some (Tail 20)) (Some 13%positive); Tail 20 := Node (Some (Of 13)) None None;
    Of 10%positive := Node None None (Some 10%positive)]}
  {[2%positive := 1; 3%positive := 0; 20%positive := 2]}.

Definition small_machine (k i : Z) (lk : spinlock) : Sched.state := Sched.State
  (Base {[20%positive]} [] ∅ 10) small_lists
  {[10%positive := a_thread S_RUN i i; 11%positive := a_thread S_READY 1 2;
    12%positive := a_thread S_SLEEP 1 2; 13%positive := a_thread S_SLEEP 1 2]}
  {[1%positive := Cpu 10 false k 0 (bool_decide (i = 0)) 2 3 4 5]} [1%positive] 1
  {[20%positive := Wchan 60 20]}
  {[4%positive := free_splk; 5%positive := free_splk; 6%positive := lk]} 1 [].

Definition small_queues : gmap loc (list loc) :=
  {[2%positive := [11%positive]; 3%positive := []; 20%positive := [12; 13]%positive]}.

Lemma small_queues_lookup tl ts : small_queues !! tl = Some ts →
  (tl = 2%positive ∧ ts = [11%positive]) ∨ (tl = 3%positive ∧ ts = []) ∨
  (tl = 20%positive ∧ ts = [12; 13]%positive).
Proof.
  rw /small_queues. intros [[<- <-]|[_ [[<- <-]|[_ [<- <-]%lookup_singleton_Some]]%lookup_insert_Some]]%lookup_insert_Some; auto.
Qed.

Lemma small_queues_ok : queues small_lists small_queues {[10%positive]}.
Proof.
  split.
  - intros tl ts [[-> ->]|[[-> ->]|[-> ->]]]%small_queues_lookup;
      (split; [by repeat (split; [reflexivity|]) | by_decide | done]).
  - intros tl tl' ts ts' t [[-> ->]|[[-> ->]|[-> ->]]]%small_queues_lookup
      [[-> ->]|[[-> ->]|[-> ->]]]%small_queues_lookup; try done; rw !elem_of_cons !elem_of_nil; naive_solver.
  - by intros t ->%elem_of_singleton.
  - intros t tl ts ->%elem_of_singleton [[-> ->]|[[-> ->]|[-> ->]]]%small_queues_lookup; by_decide.
Qed.

Lemma small_wakeable (x : loc) Q :
  x = 12%positive ∨ x = 13%positive → is_Some (Q !! 2%positive) →
  wakeable (small_machine 1 1 (held_splk 1)) Q x.
Proof.
  intros Hx [R HR]. exists 1%positive, (Cpu 10 false 1 0 false 2 3 4 5), R.
  split; [by destruct Hx as [-> | ->]|]. split; [done|]. split; [done|]. split; [done|]. done.
Qed.

(** Thread 11 has been woken on a channel whose spinlock is 6. *)
Definition woken_thread : thread := with_context (Switched IPL_NONE (Some 6%positive)) (a_thread S_READY 1 2).
Definition woken_machine : Sched.state := upd_threads <[11%positive := woken_thread]> (small_machine 0 0 free_splk).

Lemma small_yielding ths :
  ths !! 10%positive = Some (a_thread S_RUN 0 0) →
  yielding (upd_threads (λ _, ths) (small_machine 0 0 free_splk)) small_queues {[10%positive]}
    (Cpu 10 false 0 0 true 2 3 4 5) (a_thread S_RUN 0 0) [11%positive].
Proof. intros Hths. split; try done. apply small_queues_ok. Qed.

Lemma thread_yield_round_robin_witness :
  let s := woken_machine in
  wp thread_yield (λ _ s',
    queues (lists s') (<[2%positive := [10%positive]]> small_queues) ({[11%positive]} ∪ ({[10%positive]} ∖ {[10%positive]})) ∧
    cpus s' !! curcpu s' = Some (Cpu 11 false 1 0 false 2 3 4 5) ∧
    threads s' = <[11%positive := switched_in woken_thread]>
      (<[10%positive := switched_out (a_thread S_RUN 0 0)]> (threads s)) ∧
    (relock_of woken_thread = None → at_rest (switched_in woken_thread)) ∧ parked (switched_out (a_thread S_RUN 0 0)) ∧
    splks s' = <[6%positive := held_splk 1]> (splks s)) s.
Proof.
  assert (yielding woken_machine small_queues {[10%positive]} (Cpu 10 false 0 0 true 2 3 4 5) (a_thread S_RUN 0 0) [11%positive]) as Hy.
  { by apply (small_yielding (threads woken_machine)). }
  apply (thread_yield_round_robin _ _ _ _ _ _ Hy woken_thread); [done|].
  split; [split; [done|]; split; [done|]; right; by eexists|]. by intros lk [= <-].
Defined.

Lemma wchan_wakes_fifo_witness :
  let s := small_machine 1 1 (held_splk 1) in
  wp (wchan_wakeone 20 6) (λ _ s', ∃ l',
    queues l' (enqueue s (<[20%positive := [13%positive]]> small_queues) 12) {[10%positive]} ∧
    core s' = core (set_lists l' (ready s 12)) ∧ splks s' = splks s ∧ spin s' 1 1) s ∧
  wp (wchan_wakeall 70 20 6) (λ _ s', ∃ l',
    queues l' (foldl (enqueue s) (<[20%positive := []]> small_queues) [12; 13]%positive) {[10%positive]} ∧
    core s' = core (set_lists l' (foldl ready s [12; 13]%positive)) ∧ splks s' = splks s ∧ spin s' 1 1) s.
Proof.
  destruct (wchan_wakes_fifo (small_machine 1 1 (held_splk 1)) small_queues {[10%positive]} 20
    (Wchan 60 20) 6 [12; 13]%positive 1 1) as [Hone Hall];
    [apply small_queues_ok | done | done | done | done | | done | split].
  - by exists (Cpu 10 false 1 0 false 2 3 4 5), (a_thread S_RUN 1 1).
  - apply Hone. intros x [= <-]. split; [by_decide|]. apply small_wakeable; [by left | by eexists].
  - apply (Hall 70%positive); [done|]. intros t Ht. apply small_wakeable; [set_solver | by eexists].
Defined.

Lemma spinlock_example :
  let s := small_machine 0 0 free_splk in
  (spinlock_acquire 6;; spinlock_release 6) s = Ok tt s.
Proof.
  apply (spinlock_acquire_release (small_machine 0 0 free_splk) (Cpu 10 false 0 0 true 2 3 4 5)
    (a_thread S_RUN 0 0) 0 6); done.
Defined.
