(* ===== verification/Hangman.v ===== *)
(** * The deadlock detector of kern/thread/hangman.c

    Actors (threads and CPUs) wait for at most one lockable at a time, and a
    lockable is held by at most one actor, so the waits-for graph is a partial
    function on actors ([waits_on]).  The detector keeps it acyclic: a wait that
    would close a cycle panics, and only such a wait does. *)

From stdpp Require Import base tactics list gmap option numbers ssreflect.
From S2P Require Import Prelude.

(** ** Data and state *)

(** [struct hangman_actor] and [struct hangman_lockable], with [a_name] and
    [l_name] as the addresses of the strings. *)
Record actor := Actor { a_name : loc; a_waiting : ptr }.
Record lockable := Lockable { l_name : loc; l_holding : ptr }.

Inductive line :=
| DetectedCycle
| InActor (name a : loc)
| WaitingFor (name l : loc)
| LockableLine (name l : loc)
| HeldBy (name a : loc)
| AlsoWaitingFor (name l : loc).

Record state := State {
  actors : gmap loc actor;
  lockables : gmap loc lockable;
  hangman_lock : bool;               (* held or not *)
  own_lockable : loc;                (* &hangman_lock.splk_hangman *)
  printed : list line                (* latest first *)
}.

Definition upd_actors f s := State (f (actors s)) (lockables s) (hangman_lock s) (own_lockable s) (printed s).
Definition upd_lockables f s := State (actors s) (f (lockables s)) (hangman_lock s) (own_lockable s) (printed s).
Definition set_lock b s := State (actors s) (lockables s) b (own_lockable s) (printed s).
Definition print (l : line) : M state unit :=
  modify (λ s, State (actors s) (lockables s) (hangman_lock s) (own_lockable s) (l :: printed s)).

Definition get_actor (a : loc) : M state actor := deref (λ s, actors s !! a).
Definition get_lockable (l : loc) : M state lockable := deref (λ s, lockables s !! l).
Definition set_waiting (a : loc) (w : ptr) : M state unit :=
  x ← get_actor a; modify (upd_actors <[a := Actor (a_name x) w]>).
Definition set_holding (l : loc) (h : ptr) : M state unit :=
  x ← get_lockable l; modify (upd_lockables <[l := Lockable (l_name x) h]>).

Definition spinlock_acquire : M state unit :=
  h ← gets hangman_lock;
  if (h : bool) then stops (Blocked 1) else modify (set_lock true).
Definition spinlock_release : M state unit := modify (set_lock false).

(** ** Operations *)

(** A bound for the loops along the graph. *)
Definition actor_bound (s : state) : nat := S (S (size (actors s))).

(** The report of a cycle, from the label [found] on; it ends in [panic]. *)
Definition report_cycle (start target : loc) : M state unit :=
  spinlock_release;;
  print DetectedCycle;;
  t ← get_actor target;
  print (InActor (a_name t) target);;
  st ← get_lockable start;
  print (WaitingFor (l_name st) start);;
  print (LockableLine (l_name st) start);;
  n ← gets actor_bound;
  cur ← while n (l_holding st) (λ cur,
    if bool_decide (cur = Some target) then mret (inr cur)
    else
      c ← nonnull cur;
      ac ← get_actor c;
      print (HeldBy (a_name ac) c);;
      w ← nonnull (a_waiting ac);
      lk ← get_lockable w;
      print (AlsoWaitingFor (l_name lk) w);;
      mret (inl (l_holding lk)));
  c ← nonnull cur;
  ac ← get_actor c;
  print (HeldBy (a_name ac) c);;
  stops Panic.

(** One round of the search in [hangman_check]. *)
Definition search (target : loc) (cur : ptr) : M state (ptr + bool) :=
  match cur with
  | None => mret (inr false)
  | Some c =>
      if bool_decide (c = target) then mret (inr true)
      else
        ac ← get_actor c;
        match a_waiting ac with
        | None => mret (inr false)
        | Some w => lk ← get_lockable w; mret (inl (l_holding lk))
        end
  end.

Definition hangman_check (start target : loc) : M state unit :=
  st ← get_lockable start;
  n ← gets actor_bound;
  found ← while n (l_holding st) (search target);
  if (found : bool) then report_cycle start target else mret tt.

Definition hangman_wait (a l : loc) : M state unit :=
  own ← gets own_lockable;
  if bool_decide (l = own) then mret tt
  else
    spinlock_acquire;;
    ac ← get_actor a;
    (if bool_decide (a_waiting ac ≠ None) then spinlock_release;; stops Panic else mret tt);;
    hangman_check l a;;
    set_waiting a (Some l);;
    spinlock_release.

Definition hangman_acquire (a l : loc) : M state unit :=
  own ← gets own_lockable;
  if bool_decide (l = own) then mret tt
  else
    spinlock_acquire;;
    ac ← get_actor a;
    (if bool_decide (a_waiting ac ≠ Some l) then spinlock_release;; stops Panic else mret tt);;
    lk ← get_lockable l;
    (if bool_decide (l_holding lk ≠ None) then spinlock_release;; stops Panic else mret tt);;
    set_holding l (Some a);;
    set_waiting a None;;
    spinlock_release.

Definition hangman_release (a l : loc) : M state unit :=
  own ← gets own_lockable;
  if bool_decide (l = own) then mret tt
  else
    spinlock_acquire;;
    ac ← get_actor a;
    (if bool_decide (a_waiting ac ≠ None) then spinlock_release;; stops Panic else mret tt);;
    lk ← get_lockable l;
    (if bool_decide (l_holding lk ≠ Some a) then spinlock_release;; stops Panic else mret tt);;
    set_holding l None;;
    spinlock_release.

(** ** The waits-for graph *)

(** The actor that holds what [a] waits for. *)
Definition waits_on (s : state) (a : loc) : ptr :=
  x ← actors s !! a; w ← a_waiting x; k ← lockables s !! w; l_holding k.

Fixpoint walk (s : state) (n : nat) (a : loc) : ptr :=
  match n with
  | O => Some a
  | S n' => b ← waits_on s a; walk s n' b
  end.

(** Nobody waits, directly or through others, for itself: no deadlock. *)
Definition acyclic (s : state) : Prop := ∀ a n, walk s (S n) a ≠ Some a.

(** Pointers lead to actors and lockables. *)
Definition closed (s : state) : Prop :=
  (∀ a x w, actors s !! a = Some x → a_waiting x = Some w → is_Some (lockables s !! w)) ∧
  (∀ l k h, lockables s !! l = Some k → l_holding k = Some h → is_Some (actors s !! h)).

Lemma walk_add s m n a : walk s (m + n) a = (b ← walk s m a; walk s n b).
Proof.
  revert a. induction m as [|m IH]; intros a; [done|]. simpl. destruct (waits_on s a); [|done]. apply IH.
Qed.

Lemma walk_S_end s n a : walk s (S n) a = (b ← walk s n a; waits_on s b).
Proof.
  replace (S n) with (n + 1)%nat by lia. rw walk_add. destruct (walk s n a) as [b|]; [|done].
  simpl. by destruct (waits_on s b).
Qed.

Lemma waits_on_actor s a b : closed s → waits_on s a = Some b → is_Some (actors s !! a) ∧ is_Some (actors s !! b).
Proof.
  intros [_ Hc]. rw /waits_on. destruct (actors s !! a) as [x|]; [|done]. simpl.
  destruct (a_waiting x) as [w|]; [|done]. simpl. destruct (lockables s !! w) as [k|] eqn:Hk; [|done].
  simpl. intros Hb. split; [by eexists|]. by eapply Hc.
Qed.

Lemma walk_prefix s m n a b : walk s n a = Some b → m ≤ n → ∃ c, walk s m a = Some c.
Proof.
  intros Hn Hle. replace n with (m + (n - m))%nat in Hn by lia. rw walk_add in Hn.
  destruct (walk s m a) as [c|]; [by exists c|done].
Qed.

(** In an acyclic graph the walk from an actor visits each actor once, so it
    is no longer than there are actors. *)
Lemma walk_short s n a b : closed s → acyclic s → is_Some (actors s !! a) → walk s n a = Some b →
  n < size (actors s).
Proof.
  intros Hcl Hac Ha Hn.
  set (vs := (λ i, default a (walk s i a)) <$> seq 0 (S n)).
  assert (∀ i, i ≤ n → ∃ c, walk s i a = Some c ∧ is_Some (actors s !! c)) as Hvis.
  { intros i Hi. destruct (walk_prefix _ i _ _ _ Hn Hi) as [c Hc]. exists c. split; [done|].
    destruct i as [|i]; [by simplify_eq/=|]. rw walk_S_end in Hc.
    destruct (walk s i a) as [d|]; [|done]. by eapply waits_on_actor. }
  assert (NoDup vs) as Hnd.
  { apply NoDup_alt. intros i j x Hi Hj. apply list_lookup_fmap_Some in Hi as (i' & -> & [-> Hi]%lookup_seq).
    apply list_lookup_fmap_Some in Hj as (j' & Heq & [-> Hj]%lookup_seq). simpl in *.
    destruct (Hvis i ltac:(lia)) as (c & Hc & _), (Hvis j ltac:(lia)) as (d & Hd & _).
    rw Hc Hd /= in Heq. subst d.
    assert (∀ i j, i < j → walk s i a = Some c → walk s j a = Some c → False) as Hlt.
    { intros i' j' Hlt Hi' Hj'. replace j' with (i' + S (j' - i' - 1))%nat in Hj' by lia.
      rw walk_add Hi' in Hj'. by apply (Hac c (j' - i' - 1)). }
    destruct (decide (i = j)) as [|Hne]; [done|]. exfalso.
    destruct (decide (i < j)); [by eapply Hlt|]. eapply (Hlt j i); [lia|done|done]. }
  assert (list_to_set vs ⊆ dom (actors s)) as Hsub.
  { intros x. rw elem_of_list_to_set. intros (i & -> & Hi%elem_of_seq)%list_elem_of_fmap.
    destruct (Hvis i ltac:(lia)) as (c & -> & Hc). by apply elem_of_dom. }
  apply subseteq_size in Hsub. rw size_list_to_set // size_dom length_fmap length_seq in Hsub. lia.
Qed.

(** So every walk ends. *)
Lemma walk_ends s a : closed s → acyclic s → is_Some (actors s !! a) →
  ∃ n b, walk s n a = Some b ∧ waits_on s b = None ∧ n < size (actors s).
Proof.
  intros Hcl Hac Ha.
  assert (∀ n, walk s n a = None →
    ∃ n b, walk s n a = Some b ∧ waits_on s b = None ∧ n < size (actors s)) as H.
  { intros n. induction n as [|n IH]; [done|]. intros Hnone.
    destruct (walk s n a) as [b|] eqn:Hb; [|by apply IH].
    exists n, b. split; [done|]. split; [by rw walk_S_end Hb in Hnone|]. by eapply walk_short. }
  apply (H (size (actors s))). destruct (walk s _ a) as [b|] eqn:Hb; [|done].
  apply walk_short in Hb; [lia|done..].
Qed.

(** ** The check *)

(** Waiting for [l] would close a cycle at [a]. *)
Definition closes (s : state) (a l : loc) : Prop :=
  ∃ k h n, lockables s !! l = Some k ∧ l_holding k = Some h ∧ walk s n h = Some a.

Definition panics {A} (m : M state A) (s : state) : Prop := ∃ s', m s = Stop Panic s'.

Lemma panics_bind {A B} (m : M state A) (k : A → M state B) (Q : A → state → Prop) s :
  wp m Q s → (∀ a s', Q a s' → panics (k a) s') → panics (m ≫= k) s.
Proof. intros (a & s' & Hm & HQ)%wp_eq Hk. rw /panics (bind_Ok _ _ _ _ _ Hm). by apply Hk. Qed.

Lemma waits_on_None s a x : waits_on s a = None → actors s !! a = Some x → closed s →
  a_waiting x = None ∨ ∃ w k, a_waiting x = Some w ∧ lockables s !! w = Some k ∧ l_holding k = None.
Proof.
  intros Hw Ha [Hc _]. rw /waits_on Ha /= in Hw. destruct (a_waiting x) as [w|] eqn:Hx; [|by left].
  right. destruct (Hc _ _ _ Ha Hx) as [k Hk].
  simpl in Hw. rw Hk /= in Hw. eauto 6.
Qed.

Lemma waits_on_Some s a b : waits_on s a = Some b →
  ∃ x w k, actors s !! a = Some x ∧ a_waiting x = Some w ∧ lockables s !! w = Some k ∧ l_holding k = Some b.
Proof.
  rw /waits_on. destruct (actors s !! a) as [x|]; [|done]. simpl.
  destruct (a_waiting x) as [w|] eqn:Hx; [|done]. simpl. destruct (lockables s !! w) as [k|] eqn:Hk; [|done].
  simpl. eauto 8.
Qed.

(** The point [cur] of the search leads to [target]; what is left of the walk. *)
Definition leads (s : state) (cur : ptr) (target : loc) : Prop :=
  ∃ c n, cur = Some c ∧ walk s n c = Some target.
Definition rest (s : state) (r : nat) (cur : ptr) : Prop :=
  match cur with
  | None => r = 0
  | Some c => is_Some (actors s !! c) ∧ ∃ m b, r = S m ∧ walk s m c = Some b ∧ waits_on s b = None
  end.

Lemma search_step s target cur r :
  closed s → rest s r cur →
  wp (search target cur) (λ x s', s' = s ∧ match x with
    | inl cur' => (leads s cur target ↔ leads s cur' target) ∧ ∃ r', r' < r ∧ rest s r' cur'
    | inr found => found = true ↔ leads s cur target
    end) s.
Proof.
  intros Hcl Hcur. rw /search /leads.
  destruct cur as [c|]; [|by apply wp_ret; naive_solver].
  destruct Hcur as ([ac Hac'] & r' & b & -> & Hw & Hb). bd_case (c = target) as Hct.
  { apply wp_ret. split; [done|]. split; [|done]. intros _. exists c, 0. by rw Hct. }
  wp_step. eapply wp_deref; [done|]. destruct (waits_on s c) as [d|] eqn:Hd.
  - destruct (waits_on_Some _ _ _ Hd) as (x & w & k & Hx & Hxw & Hk & Hkd). simplify_eq. rw Hxw.
    wp_step. eapply wp_deref; [done|]. apply wp_ret. rw Hkd.
    destruct r' as [|r]; [simpl in Hw; simplify_eq|]. simpl in Hw. rw Hd /= in Hw.
    split; [done|]. split; [split|].
    + intros (c' & n & [= <-] & Hn). destruct n as [|n]; [by simplify_eq/=|]. exists d, n.
      split; [done|]. simpl in Hn. by rw Hd in Hn.
    + intros (d' & n & [= <-] & Hn). exists c, (S n). split; [done|]. by rw /= Hd.
    + exists (S r). split; [lia|]. split; [by eapply waits_on_actor|]. eauto.
  - assert (¬ ∃ c0 n, Some c = Some c0 ∧ walk s n c0 = Some target) as Hno.
    { intros (c' & n & [= <-] & Hn). destruct n as [|n]; [by simplify_eq/=|]. simpl in Hn. by rw Hd in Hn. }
    destruct (waits_on_None _ _ _ Hd Hac' Hcl) as [Hnone|(w & k & Hxw & Hk & Hkn)].
    + rw Hnone. apply wp_ret. split; [done|]. naive_solver.
    + rw Hxw. wp_step. eapply wp_deref; [done|]. apply wp_ret. rw Hkn. split; [done|]. split.
      * split; [done|]. by intros (? & ? & ? & ?).
      * exists 0. split; [lia|done].
Qed.

(** The search loop, from any point of the graph, ends, and finds the target
    exactly when it is on the way. *)
Lemma search_spec s start target :
  closed s → acyclic s → (∀ h, start = Some h → is_Some (actors s !! h)) →
  wp (while (actor_bound s) start (search target)) (λ found s', s' = s ∧ (found = true ↔ leads s start target)) s.
Proof.
  intros Hcl Hac Hst.
  assert (∃ r, r < actor_bound s ∧ rest s r start) as (r0 & Hr0 & Hstart).
  { rw /actor_bound. destruct start as [h|]; [|exists 0; split; [lia|done]].
    destruct (walk_ends s h Hcl Hac (Hst _ eq_refl)) as (n & b & Hn & Hb & Hlt).
    exists (S n). split; [lia|]. split; [by apply Hst|]. eauto. }
  apply (wp_while (λ r cur s', s' = s ∧ (leads s start target ↔ leads s cur target) ∧ rest s r cur)
    _ _ r0); [done|done|].
  intros r cur s' (-> & Hiff & Hcur). eapply wp_mono; [by apply search_step|].
  intros [cur'|found] s' [-> H]; [|naive_solver]. destruct H as [Hiff' (r' & Hr' & Hrest)].
  exists r'. split; [done|]. split; [done|]. naive_solver.
Qed.

(** ** The report ends in a panic *)

Definition same_graph (s s' : state) : Prop := actors s' = actors s ∧ lockables s' = lockables s.

Lemma walk_same s s' n a : same_graph s s' → walk s' n a = walk s n a.
Proof.
  intros [Ha Hl]. revert a. induction n as [|n IH]; intros a; [done|]. simpl.
  assert (waits_on s' a = waits_on s a) as -> by (by rw /waits_on Ha Hl).
  destruct (waits_on s a) as [b|]; [apply IH|done].
Qed.

Lemma acyclic_same s s' : same_graph s s' → acyclic s → acyclic s'.
Proof. intros Hs Hac a n. rw (walk_same s) //. Qed.

Lemma report_panics s l a :
  closed s → acyclic s → is_Some (actors s !! a) → closes s a l → panics (report_cycle l a) s.
Proof.
  intros Hcl Hac [x Hx] (k & h & n & Hk & Hh & Hw). rw /report_cycle.
  eapply (panics_bind _ _ (λ _ s', same_graph s s')); [by apply wp_modify|]. intros _ s1 [Ha1 Hl1].
  eapply (panics_bind _ _ (λ _ s', same_graph s s')); [by apply wp_modify|]. intros _ s2 [Ha2 Hl2].
  eapply (panics_bind _ _ (λ t s', t = x ∧ same_graph s s')); [by eapply wp_deref; [by rw Ha2|]|].
  intros t s3 (-> & Ha3 & Hl3).
  eapply (panics_bind _ _ (λ _ s', same_graph s s')); [by apply wp_modify|]. intros _ s4 [Ha4 Hl4].
  eapply (panics_bind _ _ (λ t s', t = k ∧ same_graph s s')); [by eapply wp_deref; [by rw Hl4|]|].
  intros t s5 (-> & Ha5 & Hl5).
  eapply (panics_bind _ _ (λ _ s', same_graph s s')); [by apply wp_modify|]. intros _ s6 [Ha6 Hl6].
  eapply (panics_bind _ _ (λ _ s', same_graph s s')); [by apply wp_modify|]. intros _ s7 [Ha7 Hl7].
  eapply (panics_bind _ _ (λ t s', t = actor_bound s ∧ same_graph s s')).
  { apply wp_gets. split; [by rw /actor_bound Ha7|done]. }
  intros t s8 (-> & Ha8 & Hl8).
  assert (is_Some (actors s !! h)) as Hhs by (by eapply Hcl).
  pose proof (walk_short _ _ _ _ Hcl Hac Hhs Hw) as Hlt.
  eapply (panics_bind _ _ (λ cur s', cur = Some a ∧ same_graph s s')).
  { apply (wp_while (λ m cur s', same_graph s s' ∧ ∃ c, cur = Some c ∧ walk s m c = Some a) _ _ n).
    - split; [done|]. rw Hh. eauto.
    - rw /actor_bound. lia.
    - intros m cur s' ([Ha' Hl'] & c & -> & Hm). bd_case (Some c = Some a) as Hca; [by apply wp_ret|].
      destruct m as [|m]; [by simplify_eq/=|]. simpl in Hm.
      destruct (waits_on s c) as [d|] eqn:Hd; [|done].
      destruct (waits_on_Some _ _ _ Hd) as (ac & w & lk & Hac' & Hw' & Hlk & Hld).
      wp_step. wp_step; [done|]. wp_step. eapply wp_deref; [by rw Ha'|]. wp_step. apply wp_modify. wp_step.
      rw Hw'. wp_step; [done|]. wp_step. eapply wp_deref; [by rw /= Hl'|]. wp_step. apply wp_modify.
      apply wp_ret. exists m. split; [lia|]. split; [done|]. rw Hld. eauto. }
  intros cur s9 (-> & Ha9 & Hl9).
  eapply (panics_bind _ _ (λ t s', t = a ∧ same_graph s s')); [by apply wp_ret|]. intros t s10 (-> & Ha10 & Hl10).
  eapply (panics_bind _ _ (λ t s', t = x ∧ same_graph s s')); [by eapply wp_deref; [by rw Ha10|]|].
  intros t s11 (-> & Ha11 & Hl11).
  eapply (panics_bind _ _ (λ _ s', True)); [by apply wp_modify|]. intros _ s12 _. by eexists.
Qed.

(** ** Keeping the graph acyclic *)

(** A graph some of whose edges are gone. *)
Lemma acyclic_sub s s' : (∀ a b, waits_on s' a = Some b → waits_on s a = Some b) → acyclic s → acyclic s'.
Proof.
  intros Hsub Hac a n Hn. apply (Hac a n).
  assert (∀ n a b, walk s' n a = Some b → walk s n a = Some b) as Hw; [|by apply Hw].
  clear a n Hn. intros n. induction n as [|n IH]; intros a b; [done|]. simpl.
  destruct (waits_on s' a) as [c|] eqn:Hc; [|done]. rw (Hsub _ _ Hc) /=. apply IH.
Qed.

(** A graph that differs at [a] only: its walks, until they reach [a]. *)
Lemma walk_avoid s s' a n b c :
  (∀ d, d ≠ a → waits_on s' d = waits_on s d) → walk s' n b = Some c →
  walk s n b = Some c ∨ ∃ m, m ≤ n ∧ walk s m b = Some a ∧ walk s' m b = Some a.
Proof.
  intros Heq. revert b. induction n as [|n IH]; intros b; [by left|]. simpl.
  destruct (decide (b = a)) as [->|Hne]; [by right; exists 0; split; [lia|]|].
  rw Heq //. destruct (waits_on s b) as [d|] eqn:Hd; [|done]. simpl. intros Hw.
  destruct (IH d Hw) as [?|(m & Hm & Hma & Hma')]; [by left|]. right. exists (S m).
  split; [lia|]. by rw /= Heq // Hd.
Qed.

(** Giving [a], which waited for nobody, an edge that closes no cycle. *)
Lemma acyclic_edge s s' a :
  acyclic s → (∀ d, d ≠ a → waits_on s' d = waits_on s d) → waits_on s a = None →
  (∀ h n, waits_on s' a = Some h → walk s n h ≠ Some a) → acyclic s'.
Proof.
  intros Hac Heq Hnone Hno b n Hn.
  assert (∀ n, walk s' (S n) a ≠ Some a) as Ha.
  { intros m Hm. simpl in Hm. destruct (waits_on s' a) as [h|] eqn:Hh; [|done]. simpl in Hm.
    destruct (walk_avoid _ _ _ _ _ _ Heq Hm) as [H|(m' & _ & H & _)]; by eapply Hno. }
  destruct (walk_avoid s s' a (S n) b b Heq Hn) as [H|(m & Hle & _ & Hm)]; [by eapply Hac|].
  replace (S n) with (m + (S n - m)) in Hn by lia. rw walk_add Hm /= in Hn.
  apply (Ha n). replace (S n) with ((S n - m) + m) by lia. by rw walk_add Hn.
Qed.

Lemma waits_on_upd_actor s a x d : d ≠ a → waits_on (upd_actors <[a := x]> s) d = waits_on s d.
Proof. intros Hne. by rw /waits_on /= lookup_insert_ne. Qed.

(** ** The operations *)

(** The state of the detector between calls, with [a] waiting for [w]. *)
Record detector (s : state) (a l : loc) (x : actor) (k : lockable) : Prop := {
  det_free : hangman_lock s = false;
  det_other : l ≠ own_lockable s;
  det_actor : actors s !! a = Some x;
  det_lockable : lockables s !! l = Some k;
  det_closed : closed s;
  det_acyclic : acyclic s
}.

Lemma wp_lock (s : state) (Q : unit → state → Prop) :
  hangman_lock s = false → Q tt (set_lock true s) → wp spinlock_acquire Q s.
Proof. intros Hf HQ. rw /spinlock_acquire. wp_step. wp_step. rw Hf. by apply wp_modify. Qed.

Definition unlocked (s s' : state) : Prop :=
  hangman_lock s' = false ∧ own_lockable s' = own_lockable s ∧ closed s' ∧ acyclic s'.

Lemma closed_upd_actor s a x x' : closed s → actors s !! a = Some x →
  (∀ w, a_waiting x' = Some w → is_Some (lockables s !! w)) → closed (upd_actors <[a := x']> s).
Proof.
  intros [H1 H2] Hx Hw. split; simpl.
  - intros b y w [[<- <-]|[_ Hy]]%lookup_insert_Some; [apply Hw|by eapply H1].
  - intros l k h Hk Hh. destruct (decide (a = h)) as [<-|Hne]; [by rw lookup_insert_eq|].
    rw lookup_insert_ne //. by eapply H2.
Qed.

Lemma wait_ok s a l x k :
  detector s a l x k → a_waiting x = None → ¬ closes s a l →
  wp (hangman_wait a l) (λ _ s', unlocked s s' ∧ actors s' = <[a := Actor (a_name x) (Some l)]> (actors s) ∧
    lockables s' = lockables s) s.
Proof.
  intros [Hf Hne Hx Hk Hcl Hac] Hw Hno. rw /hangman_wait. wp_step. wp_step.
  rw bool_decide_eq_false_2 //. wp_step. apply wp_lock; [done|]. wp_step. eapply wp_deref; [done|].
  wp_step. rw Hw bool_decide_eq_false_2; [|by intros H; apply H]. apply wp_ret. wp_step.
  rw /hangman_check. wp_step. eapply wp_deref; [done|]. wp_step. wp_step. wp_step.
  eapply wp_mono; [apply (search_spec (set_lock true s)); [done|by apply (acyclic_same s)|]|].
  { intros h Hh. by eapply Hcl. }
  intros found s' [-> Hiff]. destruct found.
  { exfalso. apply Hno. destruct (proj1 Hiff eq_refl) as (h & n & Hh & Hn). exists k, h, n.
    split; [done|]. split; [done|]. by rw -(walk_same _ (set_lock true s)). }
  apply wp_ret. rw /set_waiting. wp_step. wp_step. eapply wp_deref; [done|]. apply wp_modify. apply wp_modify.
  split; [|done]. split; [done|]. split; [done|]. split.
  { apply (closed_upd_actor s a x); [done|done|]. intros w [= <-]. by eexists. }
  eapply (acyclic_edge s _ a); [done| | |].
  - intros d Hd. apply (waits_on_upd_actor s a _ d Hd).
  - by rw /waits_on Hx /= Hw.
  - intros h n Hh Hn. apply Hno. exists k, h, n. rw /waits_on /= lookup_insert_eq /= Hk in Hh. done.
Qed.

Lemma wait_panics s a l x k :
  detector s a l x k → a_waiting x = None → closes s a l → panics (hangman_wait a l) s.
Proof.
  intros [Hf Hne Hx Hk Hcl Hac] Hw Hcloses. rw /hangman_wait.
  eapply (panics_bind _ _ (λ o s', o = own_lockable s ∧ s' = s)); [by apply wp_gets|]. intros o s1 [-> ->].
  rw bool_decide_eq_false_2 //.
  eapply (panics_bind _ _ (λ _ s', s' = set_lock true s)); [by apply wp_lock|]. intros _ s1 ->.
  eapply (panics_bind _ _ (λ y s', y = x ∧ s' = set_lock true s)); [by eapply wp_deref|]. intros y s1 [-> ->].
  rw Hw bool_decide_eq_false_2; [|by intros H; apply H].
  eapply (panics_bind _ _ (λ _ s', s' = set_lock true s)); [by apply wp_ret|]. intros _ s1 ->.
  set (s1 := set_lock true s). assert (panics (hangman_check l a) s1) as (s2 & Hs2).
  { rw /hangman_check. eapply (panics_bind _ _ (λ y s', y = k ∧ s' = s1)); [by eapply wp_deref|]. intros y s2 [-> ->].
    eapply (panics_bind _ _ (λ n s', n = actor_bound s1 ∧ s' = s1)); [by apply wp_gets|]. intros n s2 [-> ->].
    assert (acyclic s1) as Hac1 by (by apply (acyclic_same s)).
    eapply panics_bind; [apply (search_spec s1); [done|done|]; intros h Hh; by eapply Hcl|].
    intros found s2 [-> Hiff]. assert (found = true) as ->.
    { apply Hiff. destruct Hcloses as (k' & h & n & Hk' & Hh & Hn). simplify_eq. exists h, n.
      split; [done|]. by rw (walk_same s). }
    apply report_panics; [done|done|by eexists|].
    destruct Hcloses as (k' & h & n & Hk' & Hh & Hn). exists k', h, n. by rw (walk_same s). }
  exists s2. by rw (bind_Stop _ _ _ _ _ Hs2).
Qed.

Lemma wait_twice_panics s a l x k :
  detector s a l x k → a_waiting x ≠ None → panics (hangman_wait a l) s.
Proof.
  intros [Hf Hne Hx _ _ _] Hw. rw /hangman_wait.
  eapply (panics_bind _ _ (λ o s', o = own_lockable s ∧ s' = s)); [by apply wp_gets|]. intros o s1 [-> ->].
  rw bool_decide_eq_false_2 //.
  eapply (panics_bind _ _ (λ _ s', s' = set_lock true s)); [by apply wp_lock|]. intros _ s1 ->.
  eapply (panics_bind _ _ (λ y s', y = x ∧ s' = set_lock true s)); [by eapply wp_deref|]. intros y s1 [-> ->].
  rw bool_decide_eq_true_2 //. by eexists.
Qed.

Lemma acquire_ok s a l x k :
  detector s a l x k → a_waiting x = Some l → l_holding k = None →
  wp (hangman_acquire a l) (λ _ s', unlocked s s' ∧ actors s' = <[a := Actor (a_name x) None]> (actors s) ∧
    lockables s' = <[l := Lockable (l_name k) (Some a)]> (lockables s)) s.
Proof.
  intros [Hf Hne Hx Hk Hcl Hac] Hw Hh. rw /hangman_acquire. wp_step. wp_step.
  rw bool_decide_eq_false_2 //. wp_step. apply wp_lock; [done|]. wp_step. eapply wp_deref; [done|].
  wp_step. rw Hw bool_decide_eq_false_2; [|by intros H; apply H]. apply wp_ret. wp_step.
  eapply wp_deref; [done|]. wp_step. rw Hh bool_decide_eq_false_2; [|by intros H; apply H]. apply wp_ret.
  rw /set_holding /set_waiting. wp_step. wp_step. eapply wp_deref; [done|]. apply wp_modify.
  wp_step. wp_step. eapply wp_deref; [done|]. apply wp_modify. apply wp_modify.
  split; [|done]. split; [done|]. split; [done|]. split.
  - destruct Hcl as [H1 H2]. split; simpl.
    + intros b y w [[<- <-]|[_ Hy]]%lookup_insert_Some; [done|]. intros Hyw.
      destruct (decide (l = w)) as [<-|?]; [by rw lookup_insert_eq|]. rw lookup_insert_ne //. by eapply H1.
    + intros l' k' h [[<- <-]|[_ Hk']]%lookup_insert_Some Hh'.
      * simpl in Hh'. simplify_eq. by rw lookup_insert_eq.
      * destruct (decide (a = h)) as [<-|?]; [by rw lookup_insert_eq|]. rw lookup_insert_ne //. by eapply H2.
  - set (s' := set_lock false _). intros b n Hn.
    assert (waits_on s' a = None) as Ha by (by rw /waits_on /= lookup_insert_eq).
    assert (∀ d e, waits_on s' d = Some e → e = a ∨ waits_on s d = Some e) as Hsub.
    { intros d e. destruct (decide (d = a)) as [->|Hd]; [by rw Ha|].
      rw /waits_on /= lookup_insert_ne //. destruct (actors s !! d) as [y|]; [|done]. simpl.
      destruct (a_waiting y) as [w|]; [|done]. simpl. destruct (decide (l = w)) as [<-|?].
      - rw lookup_insert_eq /=. intros [= <-]. by left.
      - rw lookup_insert_ne //. by right. }
    assert (∀ n d e, walk s' n d = Some e → e ≠ a → walk s n d = Some e) as Hwalk.
    { clear n Hn. intros n. induction n as [|n IH]; intros d e; [done|]. simpl.
      destruct (waits_on s' d) as [f|] eqn:Hf'; [|done]. simpl. intros Hn He.
      destruct (Hsub _ _ Hf') as [->|Hf2].
      - destruct n as [|n]; [by simplify_eq/=|]. simpl in Hn. by rw Ha in Hn.
      - rw Hf2 /=. by apply IH. }
    destruct (decide (b = a)) as [->|Hb]; [by rw /= Ha in Hn|]. by eapply Hac, Hwalk.
Qed.

Lemma release_ok s a l x k :
  detector s a l x k → a_waiting x = None → l_holding k = Some a →
  wp (hangman_release a l) (λ _ s', unlocked s s' ∧ actors s' = actors s ∧
    lockables s' = <[l := Lockable (l_name k) None]> (lockables s)) s.
Proof.
  intros [Hf Hne Hx Hk Hcl Hac] Hw Hh. rw /hangman_release. wp_step. wp_step.
  rw bool_decide_eq_false_2 //. wp_step. apply wp_lock; [done|]. wp_step. eapply wp_deref; [done|].
  wp_step. rw Hw bool_decide_eq_false_2; [|by intros H; apply H]. apply wp_ret. wp_step.
  eapply wp_deref; [done|]. wp_step. rw Hh bool_decide_eq_false_2; [|by intros H; apply H]. apply wp_ret.
  rw /set_holding. wp_step. wp_step. eapply wp_deref; [done|]. apply wp_modify. apply wp_modify.
  split; [|done]. split; [done|]. split; [done|]. split.
  - destruct Hcl as [H1 H2]. split; simpl.
    + intros b y w Hy Hyw. destruct (decide (l = w)) as [<-|?]; [by rw lookup_insert_eq|].
      rw lookup_insert_ne //. by eapply H1.
    + intros l' k' h [[<- <-]|[_ Hk']]%lookup_insert_Some Hh'; [done|by eapply H2].
  - eapply acyclic_sub; [|exact Hac]. intros d e. rw /waits_on /=.
    destruct (actors s !! d) as [y|]; [|done]. simpl. destruct (a_waiting y) as [w|]; [|done]. simpl.
    destruct (decide (l = w)) as [<-|?]; [by rw lookup_insert_eq|]. by rw lookup_insert_ne.
Qed.

(** ** The detector's theorems *)

(** C19: [hangman_wait] on a lockable other than the detector's own lock panics
    exactly when the actor is waiting already or its waiting would complete a
    cycle of actors waiting for each other; the search and the report both end.
    Otherwise it records the wait, and the waits-for graph stays acyclic. *)
Theorem hangman_wait_detects_exactly s a l x k :
  detector s a l x k →
  (a_waiting x ≠ None ∨ closes s a l → panics (hangman_wait a l) s) ∧
  (a_waiting x = None → ¬ closes s a l → wp (hangman_wait a l) (λ _ s', unlocked s s' ∧
     actors s' = <[a := Actor (a_name x) (Some l)]> (actors s) ∧ lockables s' = lockables s) s).
Proof.
  intros Hd. split; [|intros; by eapply wait_ok]. intros [Hw|Hc]; [by eapply wait_twice_panics|].
  destruct (decide (a_waiting x = None)) as [Hw|Hw]; [by eapply wait_panics | by eapply wait_twice_panics].
Qed.

(** C38: in a detector whose waits-for graph is acyclic and whose lock is free,
    taking the lockable the actor waits for, when nobody holds it, and releasing
    one the actor holds while it does not wait, never panic, change that edge
    only and keep the graph acyclic. *)
Theorem hangman_acquire_release_acyclic s a l x k :
  detector s a l x k →
  (a_waiting x = Some l → l_holding k = None →
     wp (hangman_acquire a l) (λ _ s', unlocked s s' ∧ actors s' = <[a := Actor (a_name x) None]> (actors s) ∧
       lockables s' = <[l := Lockable (l_name k) (Some a)]> (lockables s)) s) ∧
  (a_waiting x = None → l_holding k = Some a →
     wp (hangman_release a l) (λ _ s', unlocked s s' ∧ actors s' = actors s ∧
       lockables s' = <[l := Lockable (l_name k) None]> (lockables s)) s).
Proof. intros Hd. split; intros; [by eapply acquire_ok | by eapply release_ok]. Qed.

(** Two actors (1 and 2) and two lockables (3 and 4): 1 holds 3, 2 holds 4 and
    waits for 3. *)
Definition two_actors : state := State
  {[1%positive := Actor 11 None; 2%positive := Actor 12 (Some 3%positive)]}
  {[3%positive := Lockable 13 (Some 1%positive); 4%positive := Lockable 14 (Some 2%positive)]} false 9 [].

Lemma two_actors_detector l k : lockables two_actors !! l = Some k → l ≠ 9%positive →
  detector two_actors 1 l (Actor 11 None) k.
Proof.
  intros Hk Hl. split; try done.
  - split; simpl.
    + intros a x w [[<- <-]|[_ [<- <-]%lookup_singleton_Some]]%lookup_insert_Some; [done|].
      intros [= <-]. by eexists.
    + intros l' k' h [[<- <-]|[_ [<- <-]%lookup_singleton_Some]]%lookup_insert_Some [= <-]; by eexists.
  - intros a n Hn. destruct (decide (a = 2%positive)) as [->|Ha].
    + assert (waits_on two_actors 2 = Some 1%positive) as H2 by done. simpl in Hn. rw H2 /= in Hn.
      destruct n as [|n]; [done|]. simpl in Hn. done.
    + assert (waits_on two_actors a = None) as H; [|by rw /= H in Hn].
      rw /waits_on. destruct (decide (a = 1%positive)) as [->|Ha1]; [done|].
      by rw /= !lookup_insert_ne // lookup_empty.
Qed.

Lemma hangman_wait_detects_exactly_witness : panics (hangman_wait 1 4) two_actors.
Proof.
  apply (hangman_wait_detects_exactly two_actors 1 4 (Actor 11 None) (Lockable 14 (Some 2%positive)));
    [by apply two_actors_detector | right].
  by exists (Lockable 14 (Some 2%positive)), 2%positive, 1.
Defined.

Lemma hangman_acquire_release_acyclic_witness :
  wp (hangman_release 1 3) (λ _ s', unlocked two_actors s' ∧ actors s' = actors two_actors ∧
    lockables s' = <[3%positive := Lockable 13 None]> (lockables two_actors)) two_actors.
Proof.
  apply (hangman_acquire_release_acyclic two_actors 1 3 (Actor 11 None) (Lockable 13 (Some 1%positive)));
    [by apply two_actors_detector | done | done].
Defined.
