(* ===== verification/CopyInOut.v ===== *)
(** * Copying between user and kernel memory: kern/vm/copyinout.c

    User memory is the mapped part of the addresses below [USERSPACETOP]: an
    access to an unmapped user address faults, and with [copyfail] installed
    the fault comes back through [setjmp].  Kernel memory is a map as well, a
    miss in it is a kernel fault.  Bytes are copied upwards, one at a time. *)

From stdpp Require Import base tactics list gmap option numbers ssreflect.
From S2P Require Import Prelude Kern.

Open Scope Z_scope.

(** ** State *)

Definition USERSPACETOP : Z := 2147483648.   (* 0x80000000, MIPS_KSEG0 *)

Record state := State {
  umem : gmap Z Z;            (* the mapped user bytes *)
  kmem : gmap Z Z;            (* kernel bytes *)
  tm_badfaultfunc : bool      (* copyfail installed *)
}.

Definition set_umem m s := State m (kmem s) (tm_badfaultfunc s).
Definition set_kmem m s := State (umem s) m (tm_badfaultfunc s).
Definition set_badfault b s := State (umem s) (kmem s) b.

(** An access to a user address: [None] when it faults and execution resumes at
    [setjmp]; without [copyfail] the fault is fatal, and an address that is not
    in user space is not translated at all. *)
Definition user_fault {A} : M state (option A) :=
  b ← gets tm_badfaultfunc; if (b : bool) then mret None else stops Fault.

Definition uload (a : Z) : M state (option Z) :=
  r ← gets (λ s, if bool_decide (0 ≤ a < USERSPACETOP) then umem s !! a else None);
  match r with Some b => mret (Some b) | None => user_fault end.

Definition ustore (a b : Z) : M state (option unit) :=
  r ← gets (λ s, if bool_decide (0 ≤ a < USERSPACETOP) then umem s !! a else None);
  match r with
  | Some _ => modify (λ s, set_umem (<[a := b]> (umem s)) s);; mret (Some tt)
  | None => user_fault
  end.

Definition kload (a : Z) : M state Z := deref (λ s, kmem s !! a).
Definition kstore (a b : Z) : M state unit :=
  kload a;; modify (λ s, set_kmem (<[a := b]> (kmem s)) s).

(** Loads and stores of the copying loops, either way round. *)
Inductive space := User | Kernel.
Definition load_from (sp : space) (a : Z) : M state (option Z) :=
  match sp with User => uload a | Kernel => b ← kload a; mret (Some b) end.
Definition store_to (sp : space) (a b : Z) : M state (option unit) :=
  match sp with User => ustore a b | Kernel => kstore a b;; mret (Some tt) end.

(** [memcpy(dest, src, len)] between the spaces; [Some true] when an access
    faulted. *)
Definition memcpy (dsp : space) (dest : Z) (ssp : space) (src : Z) (len : Z) : M state bool :=
  r ← for_up 0 (Z.to_nat len) (λ i,
    b ← load_from ssp (src + Z.of_nat i);
    match b with
    | None => mret (Some true)
    | Some b =>
        w ← store_to dsp (dest + Z.of_nat i) b;
        match w with Some _ => mret None | None => mret (Some true) end
    end);
  mret (match r with Some _ => true | None => false end).

(** ** The functions of the file *)

(** The error, or the length that can be copied. *)
Definition copycheck (userptr len : Z) : Z + Z :=
  let bot := userptr in
  let top := u32 (u32 (bot + len) - 1) in
  if bool_decide (top < bot) then inl EFAULT
  else if bool_decide (bot >= USERSPACETOP) then inl EFAULT
  else if bool_decide (top >= USERSPACETOP) then inr (u32 (USERSPACETOP - bot))
  else inr len.

Definition copyin (usersrc dest len : Z) : M state Z :=
  match copycheck usersrc len with
  | inl result => mret result
  | inr stoplen =>
      if bool_decide (stoplen ≠ len) then mret EFAULT
      else
        modify (set_badfault true);;
        faulted ← memcpy Kernel dest User usersrc len;
        modify (set_badfault false);;
        mret (if (faulted : bool) then EFAULT else 0)
  end.

Definition copyout (src userdest len : Z) : M state Z :=
  match copycheck userdest len with
  | inl result => mret result
  | inr stoplen =>
      if bool_decide (stoplen ≠ len) then mret EFAULT
      else
        modify (set_badfault true);;
        faulted ← memcpy User userdest Kernel src len;
        modify (set_badfault false);;
        mret (if (faulted : bool) then EFAULT else 0)
  end.

(** [copystr]: [None] when an access faulted, else the error number, and the
    length with the terminator when it is 0. *)
Definition copystr (dsp : space) (dest : Z) (ssp : space) (src maxlen stoplen : Z) : M state (option (Z * Z)) :=
  r ← for_up 0 (Z.to_nat (Z.min maxlen stoplen)) (λ i,
    b ← load_from ssp (src + Z.of_nat i);
    match b with
    | None => mret (Some None)
    | Some b =>
        w ← store_to dsp (dest + Z.of_nat i) b;
        match w with
        | None => mret (Some None)
        | Some _ =>
            if bool_decide (b = 0) then mret (Some (Some (0, Z.of_nat i + 1))) else mret None
        end
    end);
  match r with
  | Some res => mret res
  | None =>
      if bool_decide (stoplen < maxlen) then mret (Some (EFAULT, 0))
      else mret (Some (ENAMETOOLONG, 0))
  end.

Definition copyinstr (usersrc dest len : Z) : M state (Z * Z) :=
  match copycheck usersrc len with
  | inl result => mret (result, 0)
  | inr stoplen =>
      modify (set_badfault true);;
      r ← copystr Kernel dest User usersrc len stoplen;
      modify (set_badfault false);;
      mret (default (EFAULT, 0) r)
  end.

Definition copyoutstr (src userdest len : Z) : M state (Z * Z) :=
  match copycheck userdest len with
  | inl result => mret (result, 0)
  | inr stoplen =>
      modify (set_badfault true);;
      r ← copystr User userdest Kernel src len stoplen;
      modify (set_badfault false);;
      mret (default (EFAULT, 0) r)
  end.

(** ** The address check *)

Definition is_addr (a : Z) : Prop := 0 ≤ a < 2 ^ 32.

Lemma copycheck_spec bot len : is_addr bot → is_addr len →
  match copycheck bot len with
  | inl e => e = EFAULT ∧ (len = 0 ∨ 2 ^ 32 < bot + len ∨ USERSPACETOP ≤ bot)
  | inr stop => bot < USERSPACETOP ∧
      (0 < len → bot + len ≤ 2 ^ 32 ∧ 0 < stop ≤ len ∧ bot + stop ≤ USERSPACETOP ∧
         (stop = len ∨ bot + stop = USERSPACETOP)) ∧
      (len = 0 → stop ≠ len)
  end.
Proof.
  rw /is_addr /copycheck /USERSPACETOP. intros Hb Hl.
  assert (u32 (u32 (bot + len) - 1) = (bot + len - 1) mod 2 ^ 32) as ->.
  { by rw /u32 Zminus_mod_idemp_l. }
  destruct (decide (len = 0)) as [->|Hn].
  - rw Z.add_0_r. destruct (decide (bot = 0)) as [->|Hb0].
    + done.
    + rw Z.mod_small; [|lia]. rw bool_decide_eq_true_2; [|lia]. split; [done|by left].
  - destruct (decide (bot + len - 1 < 2 ^ 32)) as [Hlt|Hge].
    + rw Z.mod_small; [|lia]. rw bool_decide_eq_false_2; [|lia].
      case_bool_decide as H1; [split; [done|lia]|]. case_bool_decide as H2; [|lia].
      rw u32_small; lia.
    + assert ((bot + len - 1) mod 2 ^ 32 = bot + len - 1 - 2 ^ 32) as -> by zlia.
      rw bool_decide_eq_true_2; [|lia]. split; [done|lia].
Qed.

(** ** The copying loops *)

(** The bytes [l] are at [a], and [m] is [m0] with them there. *)
Fixpoint bytes_at (m : gmap Z Z) (a : Z) (l : list Z) : Prop :=
  match l with
  | [] => True
  | b :: l' => m !! a = Some b ∧ bytes_at m (a + 1) l'
  end.

Fixpoint write_bytes (m : gmap Z Z) (a : Z) (l : list Z) : gmap Z Z :=
  match l with
  | [] => m
  | b :: l' => write_bytes (<[a := b]> m) (a + 1) l'
  end.

Definition mapped (m : gmap Z Z) (a len : Z) : Prop := ∀ i, 0 ≤ i < len → is_Some (m !! (a + i)).

Lemma write_bytes_snoc m a l b : write_bytes m a (l ++ [b]) = <[a + Z.of_nat (length l) := b]> (write_bytes m a l).
Proof.
  revert m a. induction l as [|c l IH]; intros m a; simpl; [by rw Z.add_0_r|].
  rw IH. f_equal. lia.
Qed.

Lemma write_bytes_app m a l1 l2 :
  write_bytes m a (l1 ++ l2) = write_bytes (write_bytes m a l1) (a + Z.of_nat (length l1)) l2.
Proof.
  revert m a. induction l1 as [|b l1 IH]; intros m a; simpl; [by rw Z.add_0_r|]. rw IH. f_equal. lia.
Qed.

Lemma write_bytes_other m a l i : ¬ (a ≤ i < a + Z.of_nat (length l)) → write_bytes m a l !! i = m !! i.
Proof.
  revert m a. induction l as [|c l IH]; intros m a Hi; simpl in *; [done|].
  rw IH; [|lia]. rw lookup_insert_ne //. lia.
Qed.

Lemma write_bytes_at m a l : bytes_at (write_bytes m a l) a l.
Proof.
  revert m a. induction l as [|c l IH]; intros m a; simpl; [done|]. split; [|apply IH].
  rw write_bytes_other; [|lia]. apply lookup_insert_eq.
Qed.

Lemma write_bytes_mapped m a l b len : mapped m b len → mapped (write_bytes m a l) b len.
Proof.
  intros Hm. revert m a Hm. induction l as [|c l IH]; intros m a Hm; simpl; [done|]. apply IH.
  intros i Hi. destruct (decide (a = b + i)) as [->|Hne]; [by rw lookup_insert_eq|].
  rw lookup_insert_ne //. by apply Hm.
Qed.

Lemma bytes_at_inj m a l1 l2 : length l1 = length l2 → bytes_at m a l1 → bytes_at m a l2 → l1 = l2.
Proof.
  revert a l2. induction l1 as [|b l1 IH]; intros a [|c l2] Hl; try done; simpl in *.
  intros [Hb H1] [Hc H2]. rw Hb in Hc. injection Hc as ->. f_equal. eapply IH; [lia|done|done].
Qed.

Lemma bytes_at_lookup m a l : bytes_at m a l ↔ ∀ i b, l !! i = Some b → m !! (a + Z.of_nat i) = Some b.
Proof.
  revert a. induction l as [|c l IH]; intros a; simpl; [done|]. rw IH. split.
  - intros [Hc Hl] [|i] b; simpl; [intros [= <-]; by rw Z.add_0_r|]. intros Hi.
    replace (a + Z.of_nat (S i)) with (a + 1 + Z.of_nat i) by lia. by apply Hl.
  - intros H. split; [rw -(Z.add_0_r a); by apply (H O)|]. intros i b Hi.
    replace (a + 1 + Z.of_nat i) with (a + Z.of_nat (S i)) by lia. by apply (H (S i)).
Qed.

Lemma bytes_at_snoc m a l b : bytes_at m a (l ++ [b]) ↔ bytes_at m a l ∧ m !! (a + Z.of_nat (length l)) = Some b.
Proof.
  revert a. induction l as [|c l IH]; intros a; simpl; [rw Z.add_0_r; naive_solver|].
  rw IH. replace (a + 1 + Z.of_nat (length l)) with (a + Z.of_nat (S (length l))) by lia. naive_solver.
Qed.

Lemma bytes_at_length_mapped m a l : bytes_at m a l → mapped m a (Z.of_nat (length l)).
Proof.
  revert a. induction l as [|c l IH]; intros a; simpl; [intros _ i; lia|]. intros [Ha Hl] i Hi.
  destruct (decide (i = 0)) as [->|]; [rw Z.add_0_r Ha; by eexists|].
  replace (a + i) with (a + 1 + (i - 1)) by lia. apply (IH _ Hl). lia.
Qed.

(** The two spaces alike. *)
Definition mem (sp : space) (s : state) : gmap Z Z := match sp with User => umem s | Kernel => kmem s end.
Definition set_mem (sp : space) (m : gmap Z Z) (s : state) : state :=
  match sp with User => set_umem m s | Kernel => set_kmem m s end.

(** Where the copying code may look: user addresses in user space, kernel bytes
    that are there. *)
Definition accessible (sp : space) (s : state) (a len : Z) : Prop :=
  match sp with
  | User => 0 ≤ a ∧ a + len ≤ USERSPACETOP
  | Kernel => mapped (kmem s) a len
  end.

(** The state with the bytes [l] written at [a]. *)
Definition wrote (sp : space) (s : state) (a : Z) (l : list Z) : state :=
  set_mem sp (write_bytes (mem sp s) a l) s.

Lemma mem_wrote_other sp sp' s a l : sp ≠ sp' → mem sp' (wrote sp s a l) = mem sp' s.
Proof. by destruct sp, sp'. Qed.
Lemma mem_wrote sp s a l : mem sp (wrote sp s a l) = write_bytes (mem sp s) a l.
Proof. by destruct sp. Qed.
Lemma badfault_wrote sp s a l : tm_badfaultfunc (wrote sp s a l) = tm_badfaultfunc s.
Proof. by destruct sp. Qed.
Lemma wrote_nil sp s a : wrote sp s a [] = s.
Proof. by destruct sp, s. Qed.
Lemma wrote_snoc sp s a l b :
  set_mem sp (<[a + Z.of_nat (length l) := b]> (mem sp (wrote sp s a l))) (wrote sp s a l) = wrote sp s a (l ++ [b]).
Proof. rw mem_wrote -write_bytes_snoc. by destruct sp. Qed.

Lemma wp_load_from sp s a len i (Q : option Z → state → Prop) :
  tm_badfaultfunc s = true → accessible sp s a len → 0 ≤ i < len →
  Q (mem sp s !! (a + i)) s → wp (load_from sp (a + i)) Q s.
Proof.
  intros Hb Ha Hi HQ. destruct sp; simpl in *.
  - rw /uload. wp_step. wp_step. rw bool_decide_eq_true_2; [|lia].
    destruct (umem s !! (a + i)) as [b|]; [by apply wp_ret|]. rw /user_fault. wp_step. wp_step. rw Hb. by apply wp_ret.
  - destruct (Ha i Hi) as [b Hb']. rw Hb' in HQ. wp_step. eapply wp_deref; [done|]. by apply wp_ret.
Qed.

Lemma wp_store_to sp s a len i b (Q : option unit → state → Prop) :
  tm_badfaultfunc s = true → accessible sp s a len → 0 ≤ i < len →
  (is_Some (mem sp s !! (a + i)) → Q (Some tt) (set_mem sp (<[a + i := b]> (mem sp s)) s)) →
  (sp = User → mem sp s !! (a + i) = None → Q None s) →
  wp (store_to sp (a + i) b) Q s.
Proof.
  intros Hb Ha Hi HQ1 HQ2. destruct sp; simpl in *.
  - rw /ustore. wp_step. wp_step. rw bool_decide_eq_true_2; [|lia].
    destruct (umem s !! (a + i)) as [c|].
    + wp_step. wp_step. apply wp_ret. apply HQ1. by eexists.
    + rw /user_fault. wp_step. wp_step. rw Hb. apply wp_ret. by apply HQ2.
  - destruct (Ha i Hi) as [c Hc]. rw /kstore. wp_step. wp_step. eapply wp_deref; [done|]. wp_step.
    apply wp_ret. apply HQ1. by eexists.
Qed.

Lemma accessible_wrote sp sp' s a l b len : accessible sp s b len → accessible sp (wrote sp' s a l) b len.
Proof. destruct sp, sp'; try done. apply write_bytes_mapped. Qed.

Section copy.
Context (s : state) (dsp ssp : space) (dest src : Z) (Hne : dsp ≠ ssp) (Hbf : tm_badfaultfunc s = true).

(** After [i] rounds that did not fault. *)
Definition copied (i : Z) (l : list Z) (s' : state) : Prop :=
  Z.of_nat (length l) = i ∧ bytes_at (mem ssp s) src l ∧ mapped (mem dsp s) dest i ∧ s' = wrote dsp s dest l.

(** An access in the round after [i] faulted. *)
Definition fault_at (i : Z) : Prop := mem ssp s !! (src + i) = None ∨ mem dsp s !! (dest + i) = None.

(** One round of a copying loop. *)
Lemma copy_round {R} i l len s' (k : Z → M state R) (kf : M state R) (Q : R → state → Prop) :
  copied i l s' → accessible ssp s src len → accessible dsp s dest len → 0 ≤ i < len →
  (∀ b s'', copied (i + 1) (l ++ [b]) s'' → wp (k b) Q s'') → (fault_at i → wp kf Q s') →
  wp (b ← load_from ssp (src + i);
      match b with
      | None => kf
      | Some b =>
          w ← store_to dsp (dest + i) b;
          match w with Some _ => k b | None => kf end
      end) Q s'.
Proof.
  intros (Hl & Hat & Hmap & ->) Hs Hd Hi Hk Hf. wp_step.
  eapply (wp_load_from _ _ src len); [by rw badfault_wrote | by apply accessible_wrote | done |].
  rw mem_wrote_other //. destruct (mem ssp s !! (src + i)) as [b|] eqn:Hb; [|apply Hf; by left].
  cbn iota. wp_step. eapply (wp_store_to _ _ dest len);
    [by rw badfault_wrote | by apply accessible_wrote | done | |].
  - intros Hm. cbn iota. apply Hk. split; [rw length_app /=; lia|]. split; [apply bytes_at_snoc; by rw Hl|].
    split.
    + intros j Hj. destruct (decide (j = i)) as [->|]; [|apply Hmap; lia].
      rw mem_wrote write_bytes_other in Hm; [exact Hm|lia].
    + by rw -wrote_snoc Hl.
  - intros _ Hn. apply Hf. right. rw mem_wrote write_bytes_other in Hn; [exact Hn|lia].
Qed.

Lemma memcpy_spec len :
  0 ≤ len → accessible ssp s src len → accessible dsp s dest len →
  wp (memcpy dsp dest ssp src len) (λ f s', ∃ i l, copied i l s' ∧
    if f then 0 ≤ i < len ∧ fault_at i else i = len) s.
Proof.
  intros Hlen Hs Hd. rw /memcpy. wp_step.
  apply (wp_for_up (λ i s', ∃ l, copied (Z.of_nat i) l s')).
  - exists []. split; [done|]. split; [done|]. split; [intros j; simpl; lia|]. by rw wrote_nil.
  - intros i s' Hi (l & Hc). eapply (copy_round _ l len); [done..|lia| |].
    + intros b s'' Hc'. apply wp_ret. exists (l ++ [b]).
      by replace (Z.of_nat (S i)) with (Z.of_nat i + 1) by lia.
    + intros Hf. apply wp_ret. apply wp_ret. exists (Z.of_nat i), l. split; [done|]. split; [lia|done].
  - intros s' (l & Hc). apply wp_ret. exists len, l. split; [|done].
    by replace (Z.of_nat (0 + Z.to_nat len)) with len in Hc by lia.
Qed.

(** [copystr] stops at the first zero byte. *)
Lemma copystr_spec maxlen stop :
  0 ≤ maxlen → 0 ≤ stop → accessible ssp s src (Z.min maxlen stop) →
  accessible dsp s dest (Z.min maxlen stop) →
  wp (copystr dsp dest ssp src maxlen stop) (λ r s', ∃ i l, copied i l s' ∧ match r with
    | None => 0 ≤ i < Z.min maxlen stop ∧ 0 ∉ l ∧ fault_at i
    | Some (e, n) =>
        (e = 0 ∧ n = i ∧ i ≤ Z.min maxlen stop ∧ ∃ l', l = l' ++ [0] ∧ 0 ∉ l') ∨
        (i = Z.min maxlen stop ∧ 0 ∉ l ∧ e = if bool_decide (stop < maxlen) then EFAULT else ENAMETOOLONG)
    end) s.
Proof.
  intros Hlen Hstop Hs Hd. rw /copystr. wp_step.
  apply (wp_for_up (λ i s', ∃ l, copied (Z.of_nat i) l s' ∧ 0 ∉ l)).
  - exists []. split; [|set_solver]. split; [done|]. split; [done|]. split; [intros j; simpl; lia|].
    by rw wrote_nil.
  - intros i s' Hi (l & Hc & H0). eapply (copy_round _ l (Z.min maxlen stop)); [done..|lia| |].
    + intros b s'' Hc'. bd_case (b = 0) as Hb.
      * subst b. do 2 apply wp_ret. exists (Z.of_nat i + 1), (l ++ [0]). split; [done|]. left.
        split; [done|]. split; [done|]. split; [lia|]. by exists l.
      * apply wp_ret. exists (l ++ [b]). split; [by replace (Z.of_nat (S i)) with (Z.of_nat i + 1) by lia|].
        rw elem_of_app list_elem_of_singleton. naive_solver.
    + intros Hf. do 2 apply wp_ret. exists (Z.of_nat i), l. split; [done|]. split; [lia|done].
  - intros s' (l & Hc & H0).
    replace (Z.of_nat (0 + Z.to_nat (Z.min maxlen stop))) with (Z.min maxlen stop) in Hc by lia.
    cbn iota. bd_case (stop < maxlen) as Hlt; apply wp_ret; exists (Z.min maxlen stop), l;
      (split; [done|]; right; by rw ?bool_decide_eq_true_2 ?bool_decide_eq_false_2).
Qed.
End copy.

(** ** Block copies *)

(** What a block copy from [src] in [ssp] to [dest] in [dsp] promises, [user]
    being the user end. *)
Definition block_copy (s : state) (dsp ssp : space) (dest src user len r : Z) (s' : state) : Prop :=
  (r = 0 ∧ 0 < len ∧ user + len ≤ USERSPACETOP ∧ ∃ l, Z.of_nat (length l) = len ∧
     bytes_at (mem ssp s) src l ∧ mapped (mem dsp s) dest len ∧ mem ssp s' = mem ssp s ∧
     mem dsp s' = write_bytes (mem dsp s) dest l) ∨
  (r = EFAULT ∧ (len = 0 ∨ USERSPACETOP < user + len ∨
      ∃ i, 0 ≤ i < len ∧ (mem ssp s !! (src + i) = None ∨ mem dsp s !! (dest + i) = None)) ∧
   mem ssp s' = mem ssp s ∧ ∀ a, ¬ (dest ≤ a < dest + len) → mem dsp s' !! a = mem dsp s !! a).

(** The two functions are this one. *)
Definition guarded_copy (dsp ssp : space) (dest src user len : Z) : M state Z :=
  match copycheck user len with
  | inl result => mret result
  | inr stoplen =>
      if bool_decide (stoplen ≠ len) then mret EFAULT
      else
        modify (set_badfault true);;
        faulted ← memcpy dsp dest ssp src len;
        modify (set_badfault false);;
        mret (if (faulted : bool) then EFAULT else 0)
  end.

Lemma mem_badfault sp b s : mem sp (set_badfault b s) = mem sp s.
Proof. by destruct sp. Qed.

Lemma guarded_copy_spec s dsp ssp dest src user len :
  dsp ≠ ssp → is_addr user → is_addr len →
  (user + len ≤ USERSPACETOP → accessible ssp s src len ∧ accessible dsp s dest len) →
  wp (guarded_copy dsp ssp dest src user len) (block_copy s dsp ssp dest src user len) s.
Proof.
  intros Hne Hu Hl Hacc. pose proof (copycheck_spec user len Hu Hl) as Hcheck.
  rw /guarded_copy. destruct (copycheck user len) as [e|stop].
  { destruct Hcheck as [-> Hwhy]. apply wp_ret. right. split; [done|]. split; [|done].
    rw /is_addr in Hu Hl. destruct (decide (len = 0)) as [|Hn0]; [by left|]. right. left.
    rw /USERSPACETOP in Hwhy |- *. lia. }
  destruct Hcheck as (Hlow & Hpos & Hzero). bd_case (stop ≠ len) as Hstop.
  { apply wp_ret. right. split; [done|]. split; [|done]. rw /is_addr in Hl.
    destruct (decide (len = 0)) as [|Hn0]; [by left|]. right. left.
    destruct (Hpos ltac:(lia)) as (_ & ? & ? & [?|?]); lia. }
  apply dec_stable in Hstop. subst stop.
  assert (0 < len) as Hlen by (destruct (decide (len = 0)); [by exfalso; apply Hzero|rw /is_addr in Hl; lia]).
  destruct (Hpos Hlen) as (_ & _ & Htop & _). destruct (Hacc Htop) as [Hs Hd].
  wp_step. apply wp_modify. wp_step.
  eapply wp_mono; [apply (memcpy_spec (set_badfault true s)); [done|done|lia| |]|].
  { by destruct ssp. } { by destruct dsp. }
  intros f s' (i & l & (Hll & Hat & Hmap & ->) & Hf). rw !mem_badfault in Hat Hmap.
  wp_step. apply wp_modify. apply wp_ret. rw /block_copy !mem_badfault.
  rw (mem_wrote_other dsp ssp) // mem_wrote !mem_badfault. destruct f.
  - destruct Hf as [Hi Hfa]. right. split; [done|]. split; [|split; [done|]].
    + right. right. exists i. rw /fault_at !mem_badfault in Hfa. done.
    + intros a Ha. apply write_bytes_other. lia.
  - left. subst i. split; [done|]. split; [done|]. split; [done|]. exists l. by rw Hf in Hmap.
Qed.

(** ** The theorems on copies *)

Lemma copyin_spec s usersrc dest len :
  is_addr usersrc → is_addr len → mapped (kmem s) dest len →
  wp (copyin usersrc dest len) (block_copy s Kernel User dest usersrc usersrc len) s.
Proof.
  intros Hu Hl Hd. apply (guarded_copy_spec s Kernel User); [done|done|done|]. intros Htop.
  split; [|done]. rw /is_addr in Hu. split; lia.
Qed.

Lemma copyout_spec s src userdest len :
  is_addr userdest → is_addr len → mapped (kmem s) src len →
  wp (copyout src userdest len) (block_copy s User Kernel userdest src userdest len) s.
Proof.
  intros Hu Hl Hd. apply (guarded_copy_spec s User Kernel); [done|done|done|]. intros Htop.
  split; [done|]. rw /is_addr in Hu. split; lia.
Qed.

(** C26: [copyin] succeeds only for a non-empty block that lies in user space
    and is mapped throughout, and has then copied exactly its bytes to the kernel
    buffer; otherwise it returns [EFAULT], for one of the reasons listed, and no
    kernel byte outside the buffer has changed.  It never faults, user memory
    never changes, and a kernel address is never read as a user one.  The same
    holds for [copyout] with user and kernel exchanged. *)
Theorem copyin_copyout_safe s user kernel len :
  is_addr user → is_addr len → mapped (kmem s) kernel len →
  wp (copyin user kernel len) (block_copy s Kernel User kernel user user len) s ∧
  wp (copyout kernel user len) (block_copy s User Kernel user kernel user len) s.
Proof. intros. split; [by apply copyin_spec | by apply copyout_spec]. Qed.

(** What [copyinstr] and [copyoutstr] return for the bytes [l] copied from
    [src]: the user end is at [user]. *)
Definition string_result (s : state) (dsp ssp : space) (dest src user len : Z) (l : list Z) (e n : Z) : Prop :=
  (e = 0 ∧ n = Z.of_nat (length l) ∧ ∃ l', l = l' ++ [0] ∧ 0 ∉ l') ∨
  (e = ENAMETOOLONG ∧ Z.of_nat (length l) = len ∧ 0 ∉ l) ∨
  (e = EFAULT ∧ 0 ∉ l ∧ (2 ^ 32 < user + len ∨ USERSPACETOP ≤ user + Z.of_nat (length l) ∨
     mem ssp s !! (src + Z.of_nat (length l)) = None ∨ mem dsp s !! (dest + Z.of_nat (length l)) = None)).

Definition string_copy (s : state) (dsp ssp : space) (dest src user len : Z) (r : Z * Z) (s' : state) : Prop :=
  mem ssp s' = mem ssp s ∧ ∃ l, Z.of_nat (length l) ≤ len ∧ bytes_at (mem ssp s) src l ∧
    mem dsp s' = write_bytes (mem dsp s) dest l ∧ string_result s dsp ssp dest src user len l r.1 r.2.

Definition guarded_copystr (dsp ssp : space) (dest src user len : Z) : M state (Z * Z) :=
  match copycheck user len with
  | inl result => mret (result, 0)
  | inr stoplen =>
      modify (set_badfault true);;
      r ← copystr dsp dest ssp src len stoplen;
      modify (set_badfault false);;
      mret (default (EFAULT, 0) r)
  end.

Lemma guarded_copystr_spec s dsp ssp dest src user len :
  dsp ≠ ssp → is_addr user → is_addr len → 0 < len →
  (∀ stop, 0 < stop ≤ len → user + stop ≤ USERSPACETOP → accessible ssp s src stop ∧ accessible dsp s dest stop) →
  wp (guarded_copystr dsp ssp dest src user len) (string_copy s dsp ssp dest src user len) s.
Proof.
  intros Hne Hu Hl Hlen Hacc. pose proof (copycheck_spec user len Hu Hl) as Hcheck.
  rw /guarded_copystr. destruct (copycheck user len) as [e|stop].
  { destruct Hcheck as [-> Hwhy]. apply wp_ret. split; [done|]. exists [].
    split; [simpl; lia|]. split; [done|]. split; [done|]. right. right.
    split; [done|]. split; [set_solver|]. simpl. lia. }
  destruct Hcheck as (Hlow & Hpos & _). destruct (Hpos Hlen) as (_ & Hstop & Htop & Hor).
  assert (Z.min len stop = stop) as Hmin by lia.
  destruct (Hacc stop Hstop Htop) as [Hs Hd]. wp_step. apply wp_modify. wp_step.
  eapply wp_mono; [apply (copystr_spec (set_badfault true s)); [done|done|lia|lia| |]|].
  { rw Hmin. by destruct ssp. } { rw Hmin. by destruct dsp. }
  intros r s' (i & l & (Hll & Hat & Hmap & ->) & Hr). rw Hmin in Hr. rw mem_badfault in Hat.
  wp_step. apply wp_modify. apply wp_ret. rw /string_copy !mem_badfault.
  rw (mem_wrote_other dsp ssp) // mem_wrote !mem_badfault. split; [done|]. exists l. rw /string_result Hll.
  destruct r as [[e n]|]; simpl.
  - destruct Hr as [(-> & -> & Hi & l' & -> & H0)|(-> & H0 & ->)].
    + split; [lia|]. split; [done|]. split; [done|]. left. split; [done|]. split; [done|]. by exists l'.
    + split; [lia|]. split; [done|]. split; [done|]. bd_case (stop < len) as Hlt.
      * right. right. split; [done|]. split; [done|]. right. left. lia.
      * right. left. split; [done|]. split; [lia|done].
  - destruct Hr as (Hi & H0 & Hf). rw /fault_at !mem_badfault in Hf.
    split; [lia|]. split; [done|]. split; [done|]. right. right. split; [done|]. split; [done|].
    right. right. done.
Qed.

(** C27: [copyinstr] and [copyoutstr] of a non-empty buffer: [0] means that a
    terminated string was copied, terminator included, and its length returned;
    [ENAMETOOLONG] that the whole length was readable and holds no terminator;
    anything else is [EFAULT], and then the user end runs out of user space, or
    an access faulted, before any terminator.  What is written is a prefix of
    the source no longer than the buffer, and the source is never changed. *)
Theorem copystr_cases s (out : bool) kaddr uaddr len :
  is_addr uaddr → is_addr len → 0 < len → mapped (kmem s) kaddr len →
  if out then wp (copyoutstr kaddr uaddr len) (string_copy s User Kernel uaddr kaddr uaddr len) s
  else wp (copyinstr uaddr kaddr len) (string_copy s Kernel User kaddr uaddr uaddr len) s.
Proof.
  intros Hu Hl Hlen Hd.
  assert (∀ stop, 0 < stop ≤ len → mapped (kmem s) kaddr stop) as Hk by (intros stop ? i ?; apply Hd; lia).
  rw /is_addr in Hu. destruct out.
  - apply (guarded_copystr_spec s User Kernel); [done|done|done|done|]. intros stop Hs Htop.
    split; [by apply Hk|]. split; lia.
  - apply (guarded_copystr_spec s Kernel User); [done|done|done|done|]. intros stop Hs Htop.
    split; [|by apply Hk]. split; lia.
Qed.

(** ** Witnesses *)

(** A page of user memory that ends where user space does, holding a string,
    and a few kernel bytes. *)
Definition demo : state :=
  State (list_to_map [(2147483644, 104); (2147483645, 105); (2147483646, 0); (2147483647, 7)])
        (list_to_map [(2147487744, 1); (2147487745, 2); (2147487746, 3); (2147487747, 0)]) false.

Lemma demo_mapped : mapped (kmem demo) 2147487744 4.
Proof.
  intros i Hi. assert (i = 0 ∨ i = 1 ∨ i = 2 ∨ i = 3) as Hi4 by lia. destruct Hi4 as [->|[->|[->| ->]]]; by eexists.
Qed.

Lemma copyin_copyout_safe_witness :
  wp (copyin 2147483644 2147487744 4) (block_copy demo Kernel User 2147487744 2147483644 2147483644 4) demo ∧
  wp (copyout 2147487744 2147483644 4) (block_copy demo User Kernel 2147483644 2147487744 2147483644 4) demo ∧
  (λ o, match o with Ok r s' => r = 0 ∧ kmem s' !! 2147487745 = Some 105 | _ => False end)
    (copyin 2147483644 2147487744 4 demo) ∧
  (λ o, match o with Ok r s' => r = EFAULT | _ => False end) (copyout 2147487744 2147483642 4 demo).
Proof.
  destruct (copyin_copyout_safe demo 2147483644 2147487744 4) as [Hin Hout]; [by rw /is_addr|by rw /is_addr|apply demo_mapped|].
  split; [exact Hin|]. split; [exact Hout|]. split; by vm_compute.
Defined.

Lemma copystr_cases_witness :
  wp (copyinstr 2147483644 2147487744 4) (string_copy demo Kernel User 2147487744 2147483644 2147483644 4) demo ∧
  (λ o, match o with Ok r s' => r = (0, 3) | _ => False end) (copyinstr 2147483644 2147487744 4 demo).
Proof.
  split; [|by vm_compute].
  apply (copystr_cases demo false 2147487744 2147483644 4);
    [by rw /is_addr|by rw /is_addr|done|apply demo_mapped].
Defined.
