(* ===== verification/Uio.v ===== *)
(** * Moving data through [uio] structures: kern/lib/uio.c

    A [uio] points into an array of [iovec]s, each a block of user or kernel
    memory; [uiomove] moves bytes between a kernel buffer and these blocks in
    order, keeping the offset and the residual count.  The copies are those of
    CopyInOut.v; [memmove] between kernel addresses is taken by its effect. *)

From stdpp Require Import base tactics list gmap option numbers ssreflect.
From S2P Require Import Prelude Kern CopyInOut.

Open Scope Z_scope.

(** ** State *)

Inductive uio_rw := UIO_READ | UIO_WRITE.
Inductive uio_seg := UIO_USERISPACE | UIO_USERSPACE | UIO_SYSSPACE.
#[export] Instance uio_rw_eq_dec : EqDecision uio_rw.
Proof. solve_decision. Defined.
#[export] Instance uio_seg_eq_dec : EqDecision uio_seg.
Proof. solve_decision. Defined.

(** [iov_ubase] and [iov_kbase] are one union. *)
Record iovec := Iovec { iov_base : Z; iov_len : Z }.

(** [uio_iov] is the index of the current entry of the array. *)
Record uio := Uio {
  uio_iov : nat;
  uio_iovcnt : Z;
  uio_offset : Z;
  uio_resid : Z;
  uio_segflg : uio_seg;
  uio_dir : uio_rw;
  uio_space : ptr
}.

Record state := State {
  ms : CopyInOut.state;   (* user and kernel memory *)
  iovs : list iovec;      (* the array of iovecs *)
  the_uio : uio;
  curas : ptr             (* the current address space, [proc_getas()] *)
}.

Definition set_ms m s := State m (iovs s) (the_uio s) (curas s).
Definition set_iovs v s := State (ms s) v (the_uio s) (curas s).
Definition upd_uio (f : uio → uio) s := State (ms s) (iovs s) (f (the_uio s)) (curas s).

Definition on_mem {A} (m : M CopyInOut.state A) : M state A := λ s,
  match m (ms s) with
  | Ok a m' => Ok a (set_ms m' s)
  | Stop e m' => Stop e (set_ms m' s)
  end.

(** [memmove] within kernel memory. *)
Definition read_bytes (m : gmap Z Z) (a len : Z) : option (list Z) := mapM (λ i, m !! i) (seqZ a len).

Definition memmove (dest src len : Z) : M CopyInOut.state unit :=
  l ← deref (λ s, read_bytes (kmem s) src len);
  deref (λ s, read_bytes (kmem s) dest len);;
  modify (λ s, set_kmem (write_bytes (kmem s) dest l) s).

(** ** The functions of the file *)

(** The current iovec. *)
Definition cur_iov : M state iovec := deref (λ s, iovs s !! uio_iov (the_uio s)).
Definition set_cur_iov (v : iovec) : M state unit :=
  modify (λ s, set_iovs (<[uio_iov (the_uio s) := v]> (iovs s)) s).

Definition next_iovec (u : uio) : uio :=
  Uio (S (uio_iov u)) (u32 (uio_iovcnt u - 1)) (uio_offset u) (uio_resid u) (uio_segflg u) (uio_dir u) (uio_space u).

Definition account (size : Z) (u : uio) : uio :=
  Uio (uio_iov u) (uio_iovcnt u) (s64 (uio_offset u + size)) (u32 (uio_resid u - size)) (uio_segflg u) (uio_dir u)
      (uio_space u).

(** The copy of one chunk; the result is the error number. *)
Definition move_chunk (p size : Z) (iov : iovec) : M state Z :=
  u ← gets the_uio;
  match uio_segflg u with
  | UIO_SYSSPACE =>
      (if bool_decide (uio_dir u = UIO_READ) then on_mem (memmove (iov_base iov) p size)
       else on_mem (memmove p (iov_base iov) size));;
      mret 0
  | _ =>
      if bool_decide (uio_dir u = UIO_READ) then on_mem (copyout p (iov_base iov) size)
      else on_mem (copyin (iov_base iov) p size)
  end.

(** One round of the loop of [uiomove]. *)
Definition uiomove_round (pn : Z * Z) : M state (Z * Z + Z) :=
  let '(p, n) := pn in
  u ← gets the_uio;
  if negb (bool_decide (n > 0 ∧ uio_resid u > 0)) then mret (inr 0)
  else
    iov ← cur_iov;
    let size := if bool_decide (iov_len iov > n) then n else iov_len iov in
    if bool_decide (size = 0) then
      modify (upd_uio next_iovec);;
      u ← gets the_uio;
      if bool_decide (uio_iovcnt u = 0) then stops Panic else mret (inl (p, n))
    else
      result ← move_chunk p size iov;
      if bool_decide (result ≠ 0) then mret (inr result)
      else
        set_cur_iov (Iovec (u32 (iov_base iov + size)) (u32 (iov_len iov - size)));;
        modify (upd_uio (account size));;
        mret (inl (u32 (p + size), u32 (n - size))).

Definition uiomove (p n : Z) : M state Z :=
  u ← gets the_uio;
  (if bool_decide (uio_segflg u = UIO_SYSSPACE) then kassert (bool_decide (uio_space u = None))
   else a ← gets curas; kassert (bool_decide (uio_space u = a)));;
  vs ← gets iovs;
  while (S (Z.to_nat n + length vs)) (p, n) uiomove_round.

(** [zeros] is the address of the static buffer of 16 zero bytes. *)
Definition uiomovezeros (zeros n : Z) : M state Z :=
  u ← gets the_uio;
  kassert (bool_decide (uio_dir u = UIO_READ));;
  while (S (Z.to_nat n)) n (λ n,
    if negb (bool_decide (n > 0)) then mret (inr 0)
    else
      let amt := if bool_decide (16 > n) then n else 16 in
      result ← uiomove zeros amt;
      if bool_decide (result ≠ 0) then mret (inr result) else mret (inl (u32 (n - amt)))).

(** [uio_kinit]; the iovec it is given is the only one of the array. *)
Definition uio_kinit (kbuf len pos : Z) (rw : uio_rw) : M state unit :=
  modify (set_iovs [Iovec kbuf len]);;
  modify (upd_uio (λ _, Uio 0 1 pos len UIO_SYSSPACE rw None)).

(** ** The bytes a [uio] stands for *)

Definition addrs (vs : list iovec) : list Z := vs ≫= (λ v, seqZ (iov_base v) (iov_len v)).

(** The addresses still to be moved. *)
Definition todo (s : state) : list Z := addrs (drop (uio_iov (the_uio s)) (iovs s)).

(** Writing [l] at the addresses [A], in order. *)
Fixpoint scatter (m : gmap Z Z) (A l : list Z) : gmap Z Z :=
  match A, l with
  | a :: A', b :: l' => scatter (<[a := b]> m) A' l'
  | _, _ => m
  end.

(** What uio.h asks of a caller: the count of iovecs and the residual count are
    those of the array. *)
Record consistent (s : state) : Prop := {
  c_cnt : uio_iovcnt (the_uio s) = Z.of_nat (length (drop (uio_iov (the_uio s)) (iovs s)));
  c_iov : uio_iovcnt (the_uio s) < 2 ^ 32;
  c_ranges : Forall (λ v, is_addr (iov_base v) ∧ is_addr (iov_len v)) (iovs s);
  c_resid : uio_resid (the_uio s) = Z.of_nat (length (todo s));
  c_resid_range : uio_resid (the_uio s) < 2 ^ 32;
  c_offset : 0 ≤ uio_offset (the_uio s) ∧ uio_offset (the_uio s) + uio_resid (the_uio s) < 2 ^ 63
}.

Lemma scatter_app m A1 A2 l1 l2 : length A1 = length l1 →
  scatter m (A1 ++ A2) (l1 ++ l2) = scatter (scatter m A1 l1) A2 l2.
Proof.
  revert m l1. induction A1 as [|a A1 IH]; intros m [|b l1] Hl; simpl in *; try done. apply IH. lia.
Qed.

Lemma write_bytes_scatter m a l : write_bytes m a l = scatter m (seqZ a (Z.of_nat (length l))) l.
Proof.
  revert m a. induction l as [|b l IH]; intros m a; [done|].
  simpl length. rw seqZ_cons; [|lia]. simpl. rw IH. f_equal. f_equal; lia.
Qed.

Lemma bytes_at_app m a l1 l2 :
  bytes_at m a (l1 ++ l2) ↔ bytes_at m a l1 ∧ bytes_at m (a + Z.of_nat (length l1)) l2.
Proof.
  revert a. induction l1 as [|b l1 IH]; intros a; simpl; [rw Z.add_0_r; naive_solver|].
  rw IH. replace (a + 1 + Z.of_nat (length l1)) with (a + Z.of_nat (S (length l1))) by lia. naive_solver.
Qed.

Lemma bytes_at_Forall2 m a l : bytes_at m a l ↔ Forall2 (λ i b, m !! i = Some b) (seqZ a (Z.of_nat (length l))) l.
Proof.
  revert a. induction l as [|b l IH]; intros a; simpl bytes_at; [split; [constructor|done]|].
  simpl length. rw seqZ_cons; [|lia]. rw Forall2_cons IH. by replace (Z.pred (Z.of_nat (S (length l)))) with (Z.of_nat (length l)) by lia.
Qed.

Lemma wp_on_mem {A} (m : M CopyInOut.state A) (Q : A → state → Prop) s :
  wp m (λ a m', Q a (set_ms m' s)) (ms s) → wp (on_mem m) Q s.
Proof. rw /wp /on_mem. by destruct (m (ms s)). Qed.

(** ** Moving to and from user space *)

Lemma todo_cur s v : iovs s !! uio_iov (the_uio s) = Some v →
  todo s = seqZ (iov_base v) (iov_len v) ++ addrs (drop (S (uio_iov (the_uio s))) (iovs s)).
Proof. intros Hv. rw /todo. by rw (drop_S _ _ _ Hv). Qed.

Lemma todo_nonempty s : consistent s → 0 < uio_resid (the_uio s) →
  ∃ v, iovs s !! uio_iov (the_uio s) = Some v.
Proof.
  intros [_ _ _ Hr _ _] Hpos. rw /todo in Hr. destruct (iovs s !! _) as [v|] eqn:Hv; [by eexists|].
  apply lookup_ge_None_1 in Hv. rw drop_ge in Hr; [|done]. simpl in Hr. lia.
Qed.

Lemma seqZ_split a i len : 0 ≤ i ≤ len → seqZ a len = seqZ a i ++ seqZ (a + i) (len - i).
Proof. intros Hi. rw -seqZ_app; [|lia|lia]. f_equal. lia. Qed.

(** What a transfer does to memory: the addresses [A] of one side, the bytes
    [l], and the kernel buffer at [p]. *)
Definition transferred (rw : uio_rw) (m m' : CopyInOut.state) (p : Z) (A l : list Z) : Prop :=
  match rw with
  | UIO_READ => bytes_at (kmem m) p l ∧ Forall (λ a, is_Some (umem m !! a)) A ∧
                umem m' = scatter (umem m) A l ∧ kmem m' = kmem m
  | UIO_WRITE => Forall2 (λ a b, umem m !! a = Some b) A l ∧ kmem m' = write_bytes (kmem m) p l ∧ umem m' = umem m
  end.

(** After [j] bytes. *)
Record moved (s0 : state) (j : Z) (s : state) : Prop := {
  m_cons : consistent s;
  m_off : uio_offset (the_uio s) = uio_offset (the_uio s0) + j;
  m_resid : uio_resid (the_uio s) = uio_resid (the_uio s0) - j;
  m_todo : todo s = drop (Z.to_nat j) (todo s0);
  m_same : uio_segflg (the_uio s) = uio_segflg (the_uio s0) ∧ uio_dir (the_uio s) = uio_dir (the_uio s0) ∧
           uio_space (the_uio s) = uio_space (the_uio s0) ∧ curas s = curas s0
}.

Definition moved_bytes (s0 : state) (p j : Z) (s : state) : Prop :=
  moved s0 j s ∧
  ∃ l, Z.of_nat (length l) = j ∧
    transferred (uio_dir (the_uio s0)) (ms s0) (ms s) p (take (Z.to_nat j) (todo s0)) l.

(** A copy that failed after [j] bytes may have written part of its
    destination, and nothing else. *)
Definition failed_after (s0 : state) (p n j : Z) (s : state) : Prop :=
  moved s0 j s ∧
  match uio_dir (the_uio s0) with
  | UIO_READ => kmem (ms s) = kmem (ms s0) ∧ ∀ a, a ∉ todo s0 → umem (ms s) !! a = umem (ms s0) !! a
  | UIO_WRITE => umem (ms s) = umem (ms s0) ∧ ∀ a, ¬ (p ≤ a < p + n) → kmem (ms s) !! a = kmem (ms s0) !! a
  end.

Lemma moved_next s0 j s v :
  moved s0 j s → iovs s !! uio_iov (the_uio s) = Some v → iov_len v = 0 → 0 < uio_resid (the_uio s) →
  moved s0 j (upd_uio next_iovec s) ∧ uio_iovcnt (next_iovec (the_uio s)) ≠ 0.
Proof.
  intros [[Hcnt Hiov Hrg Hr Hrr Ho] Hoff Hres Htd Hsame] Hv Hl Hpos.
  assert (todo s = todo (upd_uio next_iovec s)) as Hto.
  { rw (todo_cur s v) // Hl. by rw /todo /=. }
  assert (uio_iovcnt (next_iovec (the_uio s)) =
          Z.of_nat (length (drop (S (uio_iov (the_uio s))) (iovs s)))) as Hc.
  { rw /= Hcnt (drop_S _ _ _ Hv). simpl length. rw (drop_S _ _ _ Hv) in Hcnt. simpl in Hcnt. rw u32_small; lia. }
  assert (uio_iovcnt (next_iovec (the_uio s)) ≠ 0) as Hn.
  { intros H0. rw Hc in H0. rw Hto /todo /= in Hr. destruct (drop (S _) (iovs s)); simpl in *; lia. }
  split; [|done]. split; try done.
  - split; try done; [simpl|by rw -Hto].
    rw /= Hcnt. rw (drop_S _ _ _ Hv) in Hcnt. simpl in Hcnt. rw (drop_S _ _ _ Hv) /= u32_small; lia.
  - by rw -Hto.
Qed.

(** The state after a chunk of [size] bytes, memory aside. *)
Definition advanced (size : Z) (v : iovec) (s : state) : state :=
  upd_uio (account size)
    (set_iovs (<[uio_iov (the_uio s) := Iovec (u32 (iov_base v + size)) (u32 (iov_len v - size))]> (iovs s)) s).

Lemma moved_chunk s0 j s v size m' :
  moved s0 j s → iovs s !! uio_iov (the_uio s) = Some v → 0 ≤ j → 0 < size ≤ iov_len v →
  iov_base v + size < 2 ^ 32 →
  moved s0 (j + size) (advanced size v (set_ms m' s)).
Proof.
  intros [[Hcnt Hiov Hrg Hr Hrr Ho] Hoff Hres Htd Hsame] Hv Hj Hs Hb.
  pose proof (Forall_lookup_1 _ _ _ _ Hrg Hv) as [Hvb Hvl]. rw /is_addr in Hvb Hvl.
  assert (u32 (iov_base v + size) = iov_base v + size) as Hu1 by (apply u32_small; lia).
  assert (u32 (iov_len v - size) = iov_len v - size) as Hu2 by (apply u32_small; lia).
  assert (size ≤ uio_resid (the_uio s)) as Hsr.
  { rw Hr (todo_cur s v) // length_app length_seqZ. lia. }
  assert (todo (advanced size v (set_ms m' s)) = drop (Z.to_nat size) (todo s)) as Hto.
  { rw (todo_cur s v) // /todo /=. rw (drop_S _ (Iovec (u32 (iov_base v + size)) (u32 (iov_len v - size)))).
    - simpl. rw Hu1 Hu2 drop_insert_lt; [|lia]. rw (seqZ_split (iov_base v) size (iov_len v)); [|lia].
      rw -app_assoc drop_app_length' //. rw length_seqZ. lia.
    - rw list_lookup_insert_eq; [done|]. by eapply lookup_lt_Some. }
  assert (u32 (uio_resid (the_uio s) - size) = uio_resid (the_uio s) - size) as Hu3 by (apply u32_small; lia).
  assert (s64 (uio_offset (the_uio s) + size) = uio_offset (the_uio s) + size) as Hu4 by (apply s64_small; lia).
  split.
  - split; [| done | | | |].
    + rw /= Hcnt !length_drop length_insert //.
    + simpl. apply Forall_insert; [done|]. rw /is_addr /= Hu1 Hu2. lia.
    + rw Hto length_drop /= Hu3. lia.
    + rw /= Hu3. lia.
    + rw /= Hu3 Hu4. lia.
  - rw /= Hu4. lia.
  - rw /= Hu3. lia.
  - rw Hto Htd drop_drop. f_equal. lia.
  - done.
Qed.

Lemma scatter_dom m A l a :
  Forall (λ a, is_Some (m !! a)) A → is_Some (scatter m A l !! a) → is_Some (m !! a).
Proof.
  revert m l. induction A as [|b A IH]; intros m [|c l] HA Ha; try done. simpl in Ha.
  apply Forall_cons in HA as [Hb HA]. apply IH in Ha.
  - destruct (decide (a = b)) as [->|Hne]; [done|]. by rw lookup_insert_ne in Ha.
  - eapply Forall_impl; [done|]. intros d Hd. destruct (decide (d = b)) as [->|Hne].
    + rw lookup_insert_eq. by eexists.
    + by rw lookup_insert_ne.
Qed.

Lemma scatter_other m A l a : a ∉ A → scatter m A l !! a = m !! a.
Proof.
  revert m l. induction A as [|b A IH]; intros m [|c l] Ha; try done. simpl.
  apply not_elem_of_cons in Ha as [Hne Ha]. rw IH // lookup_insert_ne //.
Qed.

(** The memory side of one chunk, at [base] in user space and at [p + j] in the
    kernel buffer. *)
Lemma transferred_read m0 m m' p j A l base size :
  transferred UIO_READ m0 m p A l → Z.of_nat (length l) = j → length A = length l → 0 ≤ size →
  block_copy m User Kernel base (p + j) base size 0 m' →
  ∃ l', Z.of_nat (length l') = size ∧ transferred UIO_READ m0 m' p (A ++ seqZ base size) (l ++ l').
Proof.
  intros (Hat & HA & Hu & Hk) Hl HAl Hs [(_ & _ & _ & l' & Hl' & Hat' & Hmap & Hk' & Hu')|[Hn _]]; [|done].
  simpl in *. exists l'. split; [done|]. split; [|split; [|split]].
  - apply bytes_at_app. rw Hl. split; [done|]. by rw -Hk.
  - apply Forall_app. split; [done|]. apply Forall_forall. intros a Ha%elem_of_seqZ.
    apply (scatter_dom _ A l); [done|]. rw -Hu. replace a with (base + (a - base)) by lia. apply Hmap. lia.
  - rw Hu' Hu write_bytes_scatter Hl' scatter_app //.
  - by rw Hk'.
Qed.

Lemma transferred_write m0 m m' p j A l base size :
  transferred UIO_WRITE m0 m p A l → Z.of_nat (length l) = j → length A = length l → 0 ≤ size →
  block_copy m Kernel User (p + j) base base size 0 m' →
  ∃ l', Z.of_nat (length l') = size ∧ transferred UIO_WRITE m0 m' p (A ++ seqZ base size) (l ++ l').
Proof.
  intros (HA & Hk & Hu) Hl HAl Hs [(_ & _ & _ & l' & Hl' & Hat' & Hmap & Hu' & Hk')|[Hn _]]; [|done].
  simpl in *. exists l'. split; [done|]. split; [|split].
  - apply Forall2_app; [done|]. rw -Hl'. apply bytes_at_Forall2. by rw -Hu.
  - by rw Hk' Hk write_bytes_app Hl.
  - by rw Hu'.
Qed.

Lemma moved_ms s0 j s m : moved s0 j s → moved s0 j (set_ms m s).
Proof. intros [[] ? ? ? ?]. by split. Qed.

Lemma wp_move_chunk_user p size v (Q : Z → state → Prop) s :
  uio_segflg (the_uio s) ≠ UIO_SYSSPACE →
  wp (on_mem (match uio_dir (the_uio s) with
              | UIO_READ => copyout p (iov_base v) size
              | UIO_WRITE => copyin (iov_base v) p size end)) Q s →
  wp (move_chunk p size v) Q s.
Proof.
  intros Hs HQ. rw /move_chunk. wp_step. wp_step.
  destruct (uio_segflg (the_uio s)); [..|done]; by destruct (uio_dir (the_uio s)).
Qed.

(** A chunk that fails. *)
Lemma failed_read s0 p n j s base size m' :
  uio_dir (the_uio s0) = UIO_READ → moved_bytes s0 p j s → seqZ base size ⊆ todo s0 →
  block_copy (ms s) User Kernel base (p + j) base size EFAULT m' → failed_after s0 p n j (set_ms m' s).
Proof.
  intros Hd [Hm (l & Hl & Ht)] Hsub [[Hr _]|(_ & _ & Hk & Hu)]; [done|].
  split; [by apply moved_ms|]. rw Hd in Ht |- *. destruct Ht as (_ & _ & Hu' & Hk'). simpl in *.
  split; [by rw Hk Hk'|]. intros a Ha. rw Hu.
  - rw Hu' scatter_other //. intros Ht. apply Ha. rw -(take_drop (Z.to_nat j) (todo s0)). apply elem_of_app. by left.
  - intros Hin. apply Ha, Hsub, elem_of_seqZ. lia.
Qed.

Lemma failed_write s0 p n j s base size m' :
  uio_dir (the_uio s0) = UIO_WRITE → moved_bytes s0 p j s → 0 ≤ j → 0 ≤ size → j + size ≤ n →
  block_copy (ms s) Kernel User (p + j) base base size EFAULT m' → failed_after s0 p n j (set_ms m' s).
Proof.
  intros Hd [Hm (l & Hl & Ht)] Hj Hs Hjn [[Hr _]|(_ & _ & Hu & Hk)]; [done|].
  split; [by apply moved_ms|]. rw Hd in Ht |- *. destruct Ht as (_ & Hk' & Hu'). simpl in *.
  split; [by rw Hu Hu'|]. intros a Ha. rw Hk; [|lia]. rw Hk' write_bytes_other //.
  intros Hin. lia.
Qed.

Lemma block_copy_result m dsp ssp dest src user len r m' :
  block_copy m dsp ssp dest src user len r m' → (r = 0 ∧ user + len ≤ USERSPACETOP) ∨ r = EFAULT.
Proof. intros [(? & ? & ? & ?)|(? & ?)]; [left|right]; done. Qed.

Section user.
Context (s0 : state) (p n : Z).
Context (Hc0 : consistent s0) (Hseg : uio_segflg (the_uio s0) ≠ UIO_SYSSPACE).
Context (Hn : 0 ≤ n) (Hp : 0 ≤ p ∧ p + n < 2 ^ 32) (Hbuf : mapped (kmem (ms s0)) p n).

Lemma buffer_stays s j i size :
  moved_bytes s0 p j s → 0 ≤ i → i + size ≤ n → mapped (kmem (ms s)) (p + i) size.
Proof.
  intros (_ & l & _ & Ht) Hi His x Hx.
  assert (mapped (kmem (ms s)) p n) as Hm.
  { destruct (uio_dir (the_uio s0)); [by destruct Ht as (_ & _ & _ & ->)|].
    destruct Ht as (_ & -> & _). by apply write_bytes_mapped. }
  replace (p + i + x) with (p + (i + x)) by lia. apply Hm. lia.
Qed.

Lemma move_chunk_spec s j v size :
  moved_bytes s0 p j s → iovs s !! uio_iov (the_uio s) = Some v → 0 ≤ j → 0 < size ≤ iov_len v → j + size ≤ n →
  wp (move_chunk (p + j) size v) (λ r s',
    (r = 0 ∧ iov_base v + size < 2 ^ 32 ∧ moved_bytes s0 p (j + size) (advanced size v s') ∧ ∃ m', s' = set_ms m' s) ∨
    (r = EFAULT ∧ failed_after s0 p n j s')) s.
Proof.
  intros Hm Hv Hj Hs Hjn. destruct (Hm) as [Hmv (l & Hl & Ht)].
  destruct (m_same _ _ _ Hmv) as (Hsg & Hdr & _).
  pose proof (Forall_lookup_1 _ _ _ _ (c_ranges _ (m_cons _ _ _ Hmv)) Hv) as [Hvb Hvl].
  assert (take (Z.to_nat (j + size)) (todo s0) = take (Z.to_nat j) (todo s0) ++ seqZ (iov_base v) size) as HA.
  { rw Z2Nat.inj_add; [|lia..]. rw -take_take_drop -(m_todo _ _ _ Hmv) (todo_cur _ _ Hv).
    rw (seqZ_split _ size) // -?app_assoc; [|lia]. rw take_app_length' //. rw length_seqZ. lia. }
  assert (length (take (Z.to_nat j) (todo s0)) = length l) as Hlen.
  { rw length_take. pose proof (f_equal length HA) as Hlen. rw length_app !length_take length_seqZ in Hlen. lia. }
  apply wp_move_chunk_user; [by rw Hsg|]. rw Hdr. apply wp_on_mem. destruct (uio_dir (the_uio s0)) eqn:Hd.
  - eapply wp_mono; [apply copyout_spec|]; [done|rw /is_addr in Hvl |- *; lia|by eapply buffer_stays|].
    intros r m' Hb. destruct (block_copy_result _ _ _ _ _ _ _ _ _ Hb) as [[-> Htop]| ->].
    + left. split; [done|]. rw /USERSPACETOP in Htop. split; [lia|]. split; [|by eexists].
      split; [apply moved_chunk; try done; lia|]. rw Hd.
      destruct (transferred_read _ _ _ _ _ _ _ _ size Ht Hl Hlen ltac:(lia) Hb) as (l' & Hl' & Ht').
      exists (l ++ l'). rw length_app HA. split; [lia|done].
    + right. split; [done|]. eapply failed_read; [done|done| |done]. intros a Ha.
      rw -(take_drop (Z.to_nat (j + size)) (todo s0)) HA. set_solver.
  - eapply wp_mono; [apply copyin_spec|]; [done|rw /is_addr in Hvl |- *; lia|by eapply buffer_stays|].
    intros r m' Hb. destruct (block_copy_result _ _ _ _ _ _ _ _ _ Hb) as [[-> Htop]| ->].
    + left. split; [done|]. rw /USERSPACETOP in Htop. split; [lia|]. split; [|by eexists].
      split; [apply moved_chunk; try done; lia|]. rw Hd.
      destruct (transferred_write _ _ _ _ _ _ _ _ size Ht Hl Hlen ltac:(lia) Hb) as (l' & Hl' & Ht').
      exists (l ++ l'). rw length_app HA. split; [lia|done].
    + right. split; [done|]. eapply failed_write; [done|done|lia| | |done]; lia.
Qed.

(** What [uiomove] promises. *)
Definition uio_result (r : Z) (s' : state) : Prop :=
  (r = 0 ∧ moved_bytes s0 p (Z.min n (uio_resid (the_uio s0))) s') ∨
  (r = EFAULT ∧ ∃ j, 0 ≤ j < Z.min n (uio_resid (the_uio s0)) ∧ failed_after s0 p n j s').

Definition uio_inv (k : nat) (pn : Z * Z) (s : state) : Prop :=
  ∃ j, 0 ≤ j ≤ Z.min n (uio_resid (the_uio s0)) ∧ pn = (p + j, n - j) ∧ moved_bytes s0 p j s ∧
    k = (Z.to_nat (n - j) + length (drop (uio_iov (the_uio s)) (iovs s)))%nat.

Lemma uio_inv_chunk s j v size m' :
  moved_bytes s0 p (j + size) (advanced size v (set_ms m' s)) → 0 ≤ j → 0 < size →
  j + size ≤ Z.min n (uio_resid (the_uio s0)) →
  ∃ k', (k' < Z.to_nat (n - j) + length (drop (uio_iov (the_uio s)) (iovs s)))%nat ∧
    uio_inv k' (u32 (p + j + size), u32 (n - j - size)) (advanced size v (set_ms m' s)).
Proof.
  intros Hm Hj Hs Hle. eexists. split; [|exists (j + size); split; [lia|]; split; [|split; [done|reflexivity]]].
  - rw /= !length_drop length_insert. lia.
  - rw !u32_small; [|lia..]. f_equal; lia.
Qed.

Lemma uiomove_round_spec k pn s :
  n < 2 ^ 32 → uio_inv k pn s →
  wp (uiomove_round pn) (λ r s', match r with
    | inl l' => ∃ k', (k' < k)%nat ∧ uio_inv k' l' s' | inr r => uio_result r s' end) s.
Proof.
  intros Hn32 (j & Hj & -> & Hm & ->). rw /uiomove_round. wp_step. wp_step.
  destruct (Hm) as [Hmv _]. pose proof (m_resid _ _ _ Hmv) as Hres.
  bd_case (n - j > 0 ∧ uio_resid (the_uio s) > 0) as Hgo; cbn iota.
  2: { apply wp_ret. left. split; [done|]. by replace (Z.min n (uio_resid (the_uio s0))) with j by lia. }
  simpl negb. cbn iota. destruct (todo_nonempty s (m_cons _ _ _ Hmv) ltac:(lia)) as [v Hv].
  wp_step. eapply wp_deref; [done|].
  pose proof (Forall_lookup_1 _ _ _ _ (c_ranges _ (m_cons _ _ _ Hmv)) Hv) as [_ Hvl]. rw /is_addr in Hvl.
  set (size := if bool_decide (iov_len v > n - j) then n - j else iov_len v).
  assert (0 ≤ size ≤ iov_len v ∧ size ≤ n - j ∧ (size = 0 → iov_len v = 0)) as (Hs1 & Hs2 & Hs3).
  { rw /size. case_bool_decide; lia. }
  bd_case (size = 0) as Hsz.
  - destruct (moved_next _ _ _ _ Hmv Hv (Hs3 Hsz) ltac:(lia)) as [Hmv' Hcnt].
    wp_step. wp_step. wp_step. wp_step. rw bool_decide_eq_false_2; [|done]. apply wp_ret. eexists.
    split; [|exists j; split; [lia|]; split; [done|]; split; [|reflexivity]].
    + rw /= (drop_S _ _ _ Hv) /=. lia.
    + destruct Hm as [_ Hl]. done.
  - wp_step. eapply wp_mono; [by apply (move_chunk_spec s j v size); [done|done|lia|lia|lia]|].
    intros r s' [(-> & _ & Hm' & m' & ->)|(-> & Hf)].
    + rw bool_decide_eq_false_2; [|lia]. wp_step. apply wp_modify. wp_step. wp_step. apply wp_ret.
      apply uio_inv_chunk; [done|lia|lia|].
      pose proof (c_resid_range _ (m_cons _ _ _ (proj1 Hm'))). pose proof (m_resid _ _ _ (proj1 Hm')) as Hr'.
      pose proof (c_resid _ (m_cons _ _ _ (proj1 Hm'))). lia.
    + rw bool_decide_eq_true_2; [|done]. apply wp_ret. right. split; [done|]. exists j. split; [lia|done].
Qed.
End user.

(** The state a fresh transfer starts from. *)
Lemma moved_refl s : consistent s → moved s 0 s.
Proof. intros Hc. split; [done|lia|lia|by rw drop_0|done]. Qed.

Lemma moved_bytes_refl s p : consistent s → moved_bytes s p 0 s.
Proof.
  intros Hc. split; [by apply moved_refl|]. exists []. split; [done|].
  rw take_0. destruct (uio_dir (the_uio s)); simpl; by repeat constructor.
Qed.

Lemma uiomove_spec s p n :
  consistent s → uio_segflg (the_uio s) ≠ UIO_SYSSPACE → uio_space (the_uio s) = curas s →
  0 ≤ n < 2 ^ 32 → 0 ≤ p ∧ p + n < 2 ^ 32 → mapped (kmem (ms s)) p n →
  wp (uiomove p n) (uio_result s p n) s.
Proof.
  intros Hc Hseg Has Hn Hp Hbuf. rw /uiomove. wp_step. wp_step. rw (bool_decide_eq_false_2 _ Hseg).
  wp_step. wp_step. wp_step. apply wp_kassert; [by apply bool_decide_eq_true|]. wp_step. wp_step.
  apply (wp_while (uio_inv s p n) _ _ (Z.to_nat (n - 0) + length (drop (uio_iov (the_uio s)) (iovs s)))%nat).
  - exists 0. split; [rw (c_resid _ Hc); lia|]. split; [f_equal; lia|]. split; [by apply moved_bytes_refl|done].
  - rw length_drop. lia.
  - intros k pn s' Hinv. apply uiomove_round_spec; try done; lia.
Qed.

(** C25: [uiomove] between a kernel buffer and user blocks returns: its loop
    ends and the panic for running out of buffers is not reached.  On success
    it has moved exactly as many bytes as asked for, or as are left: byte [i]
    of the kernel buffer corresponds to the [i]-th address of the blocks taken
    one after the other, and offset, residual count and blocks have advanced by
    that number.  On [EFAULT] the accounting stops at a chunk that was moved
    completely, and nothing outside the destination has changed. *)
Theorem uiomove_flattens s p n :
  consistent s → uio_segflg (the_uio s) ≠ UIO_SYSSPACE → uio_space (the_uio s) = curas s →
  0 ≤ n < 2 ^ 32 → 0 ≤ p ∧ p + n < 2 ^ 32 → mapped (kmem (ms s)) p n →
  wp (uiomove p n) (uio_result s p n) s.
Proof. apply uiomove_spec. Qed.

Lemma moved_trans s0 s s' i j : 0 ≤ i → 0 ≤ j → moved s0 i s → moved s j s' → moved s0 (i + j) s'.
Proof.
  intros Hi Hj [Hc Ho Hr Ht Hs] [Hc' Ho' Hr' Ht' Hs']. split; [done|lia|lia| |].
  - rw Ht' Ht drop_drop. f_equal. lia.
  - destruct Hs as (? & ? & ? & ?), Hs' as (? & ? & ? & ?). repeat split; congruence.
Qed.

(** What [uiomovezeros] promises of its first [j] bytes. *)
Definition zeroed (s0 : state) (j : Z) (s : state) : Prop :=
  moved s0 j s ∧ kmem (ms s) = kmem (ms s0) ∧
  umem (ms s) = scatter (umem (ms s0)) (take (Z.to_nat j) (todo s0)) (replicate (Z.to_nat j) 0).

Lemma zeroed_step s0 s s' z i j :
  uio_dir (the_uio s0) = UIO_READ → bytes_at (kmem (ms s0)) z (replicate (Z.to_nat j) 0) →
  0 ≤ i → 0 ≤ j → i + j ≤ Z.of_nat (length (todo s0)) →
  zeroed s0 i s → moved_bytes s z j s' → zeroed s0 (i + j) s'.
Proof.
  intros Hd Hz Hi Hj Hle (Hm & Hk & Hu) (Hm' & l & Hl & Ht). rw (proj1 (proj2 (m_same _ _ _ Hm))) Hd in Ht.
  destruct Ht as (Hat & _ & Hu' & Hk'). rw Hk in Hat Hk'.
  assert (l = replicate (Z.to_nat j) 0) as ->.
  { eapply bytes_at_inj; [|done|done]. rw length_replicate. lia. }
  split; [by eapply moved_trans|]. split; [done|].
  rw Hu' Hu (m_todo _ _ _ Hm) Z2Nat.inj_add // -take_take_drop replicate_add scatter_app //.
  rw length_take length_replicate. lia.
Qed.

(** [uiomovezeros] to user blocks returns; on success it has cleared
    exactly the first bytes of the blocks, as many as asked for or as are left,
    and accounted for them; it otherwise returns [EFAULT].  Kernel memory is
    never written. *)
Theorem uiomovezeros_clears s z n :
  consistent s → uio_segflg (the_uio s) ≠ UIO_SYSSPACE → uio_space (the_uio s) = curas s →
  uio_dir (the_uio s) = UIO_READ → 0 ≤ n < 2 ^ 32 → 0 ≤ z ∧ z + 16 < 2 ^ 32 →
  bytes_at (kmem (ms s)) z (replicate 16 0) →
  wp (uiomovezeros z n) (λ r s',
    (r = 0 ∧ zeroed s (Z.min n (uio_resid (the_uio s))) s') ∨
    (r = EFAULT ∧ kmem (ms s') = kmem (ms s) ∧ ∃ j, j < Z.min n (uio_resid (the_uio s)) ∧ moved s j s')) s.
Proof.
  intros Hc Hseg Has Hd Hn Hz Hb. rw /uiomovezeros. wp_step. wp_step. wp_step.
  apply wp_kassert; [by apply bool_decide_eq_true|]. set (R := uio_resid (the_uio s)).
  assert (R = Z.of_nat (length (todo s))) as HR by exact (c_resid _ Hc).
  apply (wp_while (λ k n' s', 0 ≤ n' ≤ n ∧ k = Z.to_nat n' ∧ zeroed s (Z.min (n - n') R) s') _ _ (Z.to_nat n)).
  - split; [lia|]. split; [done|]. rw Z.sub_diag Z.min_l; [|lia]. split; [by apply moved_refl|].
    by rw take_0.
  - lia.
  - intros k n' s' (Hn' & -> & Hzs). bd_case (n' > 0) as Hgo; cbn iota.
    2: { apply wp_ret. left. split; [done|]. by replace (Z.min n R) with (Z.min (n - n') R) by lia. }
    simpl negb. cbn iota. set (amt := if bool_decide (16 > n') then n' else 16).
    assert (0 < amt ≤ 16 ∧ amt ≤ n') as [Hamt Hle] by (rw /amt; case_bool_decide; lia).
    destruct Hzs as (Hmv & Hk & Hu). destruct (m_same _ _ _ Hmv) as (Hsg & Hdr & Hsp & Hca).
    pose proof (m_resid _ _ _ Hmv) as Hres. fold R in Hres.
    assert (∀ j, 0 ≤ j ≤ 16 → bytes_at (kmem (ms s)) z (replicate (Z.to_nat j) 0)) as Hb'.
    { intros j Hj. replace 16%nat with (Z.to_nat j + (16 - Z.to_nat j))%nat in Hb by lia.
      rw replicate_add in Hb. by apply bytes_at_app in Hb as [Hb _]. }
    wp_step. eapply wp_mono.
    + apply uiomove_spec; [by apply Hmv|by rw Hsg|by rw Hsp Hca|lia|lia|]. rw Hk.
      pose proof (bytes_at_length_mapped _ _ _ (Hb' amt ltac:(lia))) as Hm. rw length_replicate Z2Nat.id in Hm; [done|lia].
    + rw /uio_result Hres. intros r s'' [(-> & Hm')|(-> & j & Hj & Hf)].
      * rw bool_decide_eq_false_2; [|lia]. apply wp_ret. exists (Z.to_nat (n' - amt)).
        rw u32_small; [|lia]. split; [lia|]. split; [lia|]. split; [done|].
        replace (Z.min (n - (n' - amt)) R) with (Z.min (n - n') R + Z.min amt (R - Z.min (n - n') R)) by lia.
        eapply zeroed_step; [done|apply Hb'; lia|lia|lia|lia|by split|done].
      * rw bool_decide_eq_true_2; [|done]. apply wp_ret. right. split; [done|]. destruct Hf as [Hmf Hf].
        rw Hdr Hd in Hf. split; [destruct Hf as [-> _]; by rw Hk|].
        exists (Z.min (n - n') R + j). split; [lia|]. eapply moved_trans; [| |done|done]; lia.
Qed.

(** ** Kernel transfers *)

(** A [uio] set up by [uio_kinit] for a kernel buffer of [len] bytes: one
    [uiomove] of as many bytes copies the block, in the direction asked for,
    overlap allowed, and leaves nothing to be moved and the offset behind the
    block. *)
Theorem uio_kinit_uiomove s kbuf len pos rw p bs :
  0 < len < 2 ^ 32 → 0 ≤ pos → pos + len < 2 ^ 63 →
  let dest := if bool_decide (rw = UIO_READ) then kbuf else p in
  let src := if bool_decide (rw = UIO_READ) then p else kbuf in
  read_bytes (kmem (ms s)) src len = Some bs → is_Some (read_bytes (kmem (ms s)) dest len) →
  wp (uio_kinit kbuf len pos rw;; uiomove p len) (λ r s', r = 0 ∧
    kmem (ms s') = write_bytes (kmem (ms s)) dest bs ∧ umem (ms s') = umem (ms s) ∧
    uio_resid (the_uio s') = 0 ∧ uio_offset (the_uio s') = pos + len) s.
Proof.
  intros Hlen Hpos Hmax dest src Hsrc [ds Hdest]. rw /uio_kinit. wp_step. wp_step. apply wp_modify. wp_step.
  set (u0 := upd_uio _ _). rw /uiomove. wp_step. wp_step. wp_step. apply wp_kassert; [done|]. wp_step. wp_step.
  set (done_at := λ s' : state, kmem (ms s') = write_bytes (kmem (ms s)) dest bs ∧ umem (ms s') = umem (ms s) ∧
    uio_resid (the_uio s') = 0 ∧ uio_offset (the_uio s') = pos + len).
  apply (wp_while (λ k pn s', (k = 1%nat ∧ pn = (p, len) ∧ s' = u0) ∨ (k = 0%nat ∧ pn.2 = 0 ∧ done_at s')) _ _ 1%nat).
  - left. done.
  - simpl. lia.
  - intros k pn s' [(-> & -> & ->)|(-> & Hp0 & Hd)].
    2: { destruct pn as [q m]. simpl in Hp0. subst m. rw /uiomove_round. wp_step. wp_step.
         rw bool_decide_eq_false_2; [|lia]. by apply wp_ret. }
    rw /uiomove_round. wp_step. wp_step. rw bool_decide_eq_true_2; [|simpl; lia].
    simpl negb. cbn iota. wp_step. eapply wp_deref; [done|]. simpl iov_len. simpl iov_base.
    rw (bool_decide_eq_false_2 (len > len)); [|lia]. rw bool_decide_eq_false_2; [|lia].
    wp_step. rw /move_chunk. wp_step. wp_step. simpl uio_segflg. cbn iota. simpl uio_dir. wp_step.
    assert (wp (on_mem (memmove dest src len)) (λ _ s', s' = set_ms (set_kmem (write_bytes (kmem (ms s)) dest bs) (ms s)) u0) u0)
      as Hcopy.
    { apply wp_on_mem. rw /memmove. wp_step. eapply wp_deref; [done|]. wp_step. by eapply wp_deref. }
    assert (wp (if bool_decide (rw = UIO_READ) then on_mem (memmove kbuf p len) else on_mem (memmove p kbuf len))
      (λ _ s', s' = set_ms (set_kmem (write_bytes (kmem (ms s)) dest bs) (ms s)) u0) u0) as Hcopy'.
    { rw /dest /src in Hcopy |- *. by case_bool_decide. }
    eapply wp_mono; [exact Hcopy'|]. intros _ s' ->. apply wp_ret. rw bool_decide_eq_false_2; [|lia].
    wp_step. apply wp_modify. wp_step. apply wp_modify. apply wp_ret. exists 0%nat. split; [lia|]. right.
    split; [done|]. split; [by rw /= Z.sub_diag|]. split; [done|]. split; [done|]. split.
    + by rw /= Z.sub_diag.
    + rw /= s64_small //. lia.
Qed.

(** ** Witnesses *)

(** Three blocks at the end of user space, the first one empty. *)
Definition demo_uio (rw : uio_rw) : state :=
  State CopyInOut.demo [Iovec 2147483640 0; Iovec 2147483644 1; Iovec 2147483645 3]
    (Uio 0 3 100 4 UIO_USERSPACE rw (Some 9%positive)) (Some 9%positive).

Lemma demo_uio_consistent rw : consistent (demo_uio rw).
Proof.
  split; [done|done| |by destruct rw|done|done].
  repeat constructor; by rw /is_addr /=.
Qed.

Lemma uiomove_flattens_witness :
  wp (uiomove 2147487744 3) (uio_result (demo_uio UIO_READ) 2147487744 3) (demo_uio UIO_READ) ∧
  (λ o, match o with
        | Ok r s' => r = 0 ∧ umem (ms s') !! 2147483646 = Some 3 ∧ uio_resid (the_uio s') = 1
        | _ => False end) (uiomove 2147487744 3 (demo_uio UIO_READ)).
Proof.
  split; [|by vm_compute].
  apply (uiomove_flattens (demo_uio UIO_READ) 2147487744 3);
    [apply demo_uio_consistent|done|done|done|done|].
  intros i Hi. apply demo_mapped. lia.
Defined.

(** The same blocks, and a zero buffer in kernel memory. *)
Definition demo_zeros : state :=
  set_ms (CopyInOut.State (umem CopyInOut.demo) (list_to_map ((λ a, (a, 0)) <$> seqZ 2147487744 16)) false) (demo_uio UIO_READ).

Lemma uiomovezeros_example :
  wp (uiomovezeros 2147487744 20) (λ r s',
    (r = 0 ∧ zeroed demo_zeros (Z.min 20 4) s') ∨
    (r = EFAULT ∧ kmem (ms s') = kmem (ms demo_zeros) ∧ ∃ j, j < Z.min 20 4 ∧ moved demo_zeros j s')) demo_zeros ∧
  (λ o, match o with
        | Ok r s' => r = 0 ∧ umem (ms s') !! 2147483644 = Some 0 ∧ uio_resid (the_uio s') = 0
        | _ => False end) (uiomovezeros 2147487744 20 demo_zeros).
Proof.
  split; [|by vm_compute].
  apply (uiomovezeros_clears demo_zeros 2147487744 20); try done.
  destruct (demo_uio_consistent UIO_READ). by split.
Defined.

Lemma uio_kinit_uiomove_example :
  wp (uio_kinit 2147487744 2 7 UIO_WRITE;; uiomove 2147487745 2) (λ r s', r = 0 ∧
    kmem (ms s') = write_bytes (kmem CopyInOut.demo) 2147487745 [1; 2] ∧ umem (ms s') = umem CopyInOut.demo ∧
    uio_resid (the_uio s') = 0 ∧ uio_offset (the_uio s') = 9) (demo_uio UIO_READ).
Proof.
  apply (uio_kinit_uiomove (demo_uio UIO_READ) 2147487744 2 7 UIO_WRITE 2147487745 [1; 2]);
    [done|done|done|by vm_compute|by eexists; vm_compute].
Defined.
