(* ===== verification/Synch.v ===== *)
(** * Threads that synchronise: kern/thread/synch.c

    Semaphores, locks and condition variables as the code has them, statement
    by statement, run by any number of threads in any interleaving: a machine
    whose steps are the statements of the C functions ([spinlock_acquire],
    [wchan_sleep], assignments, assertions, loops), and [P], [V],
    [lock_acquire] and the others as lists of such statements, for both
    kernels.  The deadlock detector's hooks are the subject of Hangman.v; a
    thread is never in an interrupt handler here. *)

From stdpp Require Import base tactics list gmap option numbers ssreflect.
From S2P Require Import Prelude Kern.

Open Scope Z_scope.

(** ** The machine *)

Section machine.
Context {O : Type} `{Countable O} {Mem : Type}.

(** An object has a spinlock and a wait channel.  Expressions and assignments
    are functions of the memory and of [curthread]. *)
Inductive stm : Type :=
| SpinAcquire (o : O)
| SpinRelease (o : O)
| Sleep (o : O)
| WakeOne (o : O)
| WakeAll (o : O)
| Kassert (b : loc → Mem → bool)
| Assign (f : loc → Mem → Mem)
| While (b : loc → Mem → bool) (body : list stm).

Inductive tstate : Type := Ready | Sleeps (o : O).

Record thread := Thread { t_state : tstate; todo : list stm }.

Record mach := Mach {
  mem : Mem;
  spins : gmap O loc;          (* the holders of the spinlocks *)
  queues : gmap O (list loc);  (* the threads on the wait channels *)
  threads : gmap loc thread
}.

Inductive effect : Type := Next (m : mach) | Waits | Panics.

Definition queue (o : O) (m : mach) : list loc := default [] (queues m !! o).

Definition go (t : loc) (k : list stm) (m : mach) : mach :=
  Mach (mem m) (spins m) (queues m) (<[t := Thread Ready k]> (threads m)).
Definition set_mem (x : Mem) (m : mach) : mach := Mach x (spins m) (queues m) (threads m).
Definition set_spins (s : gmap O loc) (m : mach) : mach := Mach (mem m) s (queues m) (threads m).

(** [wchan_sleep]: on the channel's list and out of the spinlock in one step
    ([thread_switch] holds the spinlock until the thread is on the list); the
    thread takes the spinlock again when it runs. *)
Definition sleep (t : loc) (o : O) (k : list stm) (m : mach) : mach :=
  Mach (mem m) (delete o (spins m)) (<[o := queue o m ++ [t]]> (queues m))
    (<[t := Thread (Sleeps o) (SpinAcquire o :: k)]> (threads m)).

Definition ready (th : thread) : thread := Thread Ready (todo th).

Definition wake_one (o : O) (m : mach) : mach :=
  match queue o m with
  | [] => m
  | t :: q => Mach (mem m) (spins m) (<[o := q]> (queues m)) (alter ready t (threads m))
  end.
Definition wake_all (o : O) (m : mach) : mach :=
  Mach (mem m) (spins m) (<[o := []]> (queues m)) (foldr (alter ready) (threads m) (queue o m)).

Definition holds_spin (o : O) (t : loc) (m : mach) : bool := bool_decide (spins m !! o = Some t).
(** [spinlock_do_i_hold(lk)] and [curcpu->c_spinlocks == 1]. *)
Definition holds_only (o : O) (t : loc) (m : mach) : bool :=
  holds_spin o t m && bool_decide (map_Forall (λ o' t', t' = t → o' = o) (spins m)).

Definition step (t : loc) (m : mach) : effect :=
  match threads m !! t with
  | Some (Thread Ready (c :: k)) =>
      match c with
      | SpinAcquire o =>
          match spins m !! o with
          | None => Next (set_spins (<[o := t]> (spins m)) (go t k m))
          | Some t' => if bool_decide (t' = t) then Panics else Waits
          end
      | SpinRelease o =>
          if holds_spin o t m then Next (set_spins (delete o (spins m)) (go t k m)) else Panics
      | Sleep o => if holds_only o t m then Next (sleep t o k m) else Panics
      | WakeOne o => if holds_spin o t m then Next (wake_one o (go t k m)) else Panics
      | WakeAll o => if holds_spin o t m then Next (wake_all o (go t k m)) else Panics
      | Kassert b => if b t (mem m) then Next (go t k m) else Panics
      | Assign f => Next (set_mem (f t (mem m)) (go t k m))
      | While b body => Next (go t (if b t (mem m) then body ++ c :: k else k) m)
      end
  | _ => Waits
  end.

(** The states the threads can get to. *)
Inductive reach (m0 : mach) : mach → Prop :=
| reach_refl : reach m0 m0
| reach_step m t m' : reach m0 m → step t m = Next m' → reach m0 m'.

(** A run along a schedule, for examples; a thread that cannot go on is passed
    over. *)
Fixpoint run (sched : list loc) (m : mach) : effect :=
  match sched with
  | [] => Next m
  | t :: sched' =>
      match step t m with Next m' => run sched' m' | Waits => run sched' m | Panics => Panics end
  end.
End machine.

Arguments stm : clear implicits.
Arguments mach O {_ _} Mem.
Arguments thread : clear implicits.
Arguments tstate : clear implicits.
Arguments effect O {_ _} Mem.

(** ** Semaphores *)

(** The one object is the semaphore; its count is an [unsigned].  How often it
    has gone down and up is recorded and never read. *)
Record semmem := SemMem { sem_count : Z; downs : Z; ups : Z }.
Abbreviation sem_stm := (stm unit semmem).

Definition decrement (_ : loc) (m : semmem) : semmem := SemMem (u32 (sem_count m - 1)) (downs m + 1) (ups m).
Definition increment (_ : loc) (m : semmem) : semmem := SemMem (u32 (sem_count m + 1)) (downs m) (ups m + 1).
Definition count_zero (_ : loc) (m : semmem) : bool := bool_decide (sem_count m = 0).
Definition count_positive (_ : loc) (m : semmem) : bool := bool_decide (sem_count m > 0).

Definition P : list sem_stm :=
  [SpinAcquire tt;
   While count_zero [Sleep tt];
   Kassert count_positive;
   Assign decrement;
   SpinRelease tt].

Definition V : list sem_stm :=
  [SpinAcquire tt;
   Assign increment;
   Kassert count_positive;
   WakeOne tt;
   SpinRelease tt].

(** ** Locks and condition variables *)

(** A lock, and the condition variables used with it. *)
Inductive object : Type := TheLock | Cond (c : loc).
#[export] Instance object_eq_dec : EqDecision object.
Proof. solve_decision. Defined.
#[export] Program Instance object_countable : Countable object :=
  inj_countable' (λ o, match o with TheLock => None | Cond c => Some c end)
    (λ p, match p with None => TheLock | Some c => Cond c end) _.
Next Obligation. by intros []. Qed.

(** The lock's fields, and what the lock protects. *)
Record lockmem (D : Type) := LockMem { lock_held : bool; thread_holder : option loc; data : D }.
Arguments LockMem {D}.
Arguments lock_held {D}.
Arguments thread_holder {D}.
Arguments data {D}.

Section locks.
Context {D : Type}.
Abbreviation lock_stm := (stm object (lockmem D)).

(** Assignments to the fields. *)
Definition hold (_ : loc) (m : lockmem D) := LockMem true (thread_holder m) (data m).
Definition hold_by (t : loc) (m : lockmem D) := LockMem (lock_held m) (Some t) (data m).
Definition unhold (_ : loc) (m : lockmem D) := LockMem false (thread_holder m) (data m).
Definition unhold_by (_ : loc) (m : lockmem D) := LockMem (lock_held m) None (data m).

Definition is_held (_ : loc) (m : lockmem D) : bool := lock_held m.
Definition not_held (_ : loc) (m : lockmem D) : bool := negb (lock_held m).
Definition held_by_cur (t : loc) (m : lockmem D) : bool := bool_decide (thread_holder m = Some t).
Definition not_by_cur (t : loc) (m : lockmem D) : bool := bool_decide (thread_holder m ≠ Some t).
Definition some_holder (_ : loc) (m : lockmem D) : bool := bool_decide (thread_holder m ≠ None).

(** An assignment to what the lock protects. *)
Definition on_data (f : loc → D → D) (t : loc) (m : lockmem D) : lockmem D :=
  LockMem (lock_held m) (thread_holder m) (f t (data m)).
Definition data_test (b : D → bool) (_ : loc) (m : lockmem D) : bool := b (data m).
End locks.
Abbreviation lock_stm D := (stm object (lockmem D)).

(** What the users of a monitor call. *)
Record monitor (D : Type) := Monitor {
  m_acquire : list (lock_stm D);
  m_release : list (lock_stm D);
  m_wait : loc → list (lock_stm D);
  m_signal : loc → list (lock_stm D);
  m_broadcast : loc → list (lock_stm D)
}.
Arguments Monitor {D}.
Arguments m_acquire {D}.
Arguments m_release {D}.
Arguments m_wait {D}.
Arguments m_signal {D}.
Arguments m_broadcast {D}.

(** os161-dvz-main. *)
Module Dvz.
Section code.
Context {D : Type}.

Definition lock_do_i_hold : loc → lockmem D → bool := held_by_cur.

Definition lock_acquire : list (lock_stm D) :=
  [SpinAcquire TheLock;
   While is_held [Sleep TheLock];
   Assign hold;
   Kassert is_held;
   Assign hold_by;
   Kassert some_holder;
   SpinRelease TheLock].

Definition lock_release : list (lock_stm D) :=
  [Kassert is_held;
   Kassert lock_do_i_hold;
   SpinAcquire TheLock;
   Assign unhold;
   Assign unhold_by;
   WakeOne TheLock;
   SpinRelease TheLock].

Definition cv_wait (cv : loc) : list (lock_stm D) :=
  [Kassert lock_do_i_hold; SpinAcquire (Cond cv)] ++ lock_release ++
  [Sleep (Cond cv); SpinRelease (Cond cv)] ++ lock_acquire.

Definition cv_signal (cv : loc) : list (lock_stm D) :=
  [Kassert lock_do_i_hold; SpinAcquire (Cond cv); WakeOne (Cond cv); SpinRelease (Cond cv)].

Definition cv_broadcast (cv : loc) : list (lock_stm D) :=
  [Kassert lock_do_i_hold; SpinAcquire (Cond cv); WakeAll (Cond cv); SpinRelease (Cond cv)].

Definition synch : monitor D := Monitor lock_acquire lock_release cv_wait cv_signal cv_broadcast.
End code.
End Dvz.

(** os161-vud-proj1-proj2. *)
Module Proj2.
Section code.
Context {D : Type}.

Definition lock_do_i_hold (t : loc) (m : lockmem D) : bool := lock_held m && held_by_cur t m.
Definition not_do_i_hold (t : loc) (m : lockmem D) : bool := negb (lock_do_i_hold t m).

Definition lock_acquire : list (lock_stm D) :=
  [Kassert not_do_i_hold;
   Kassert not_by_cur;
   SpinAcquire TheLock;
   While is_held [Sleep TheLock];
   Kassert not_held;
   Assign hold;
   Assign hold_by;
   SpinRelease TheLock].

Definition lock_release : list (lock_stm D) :=
  [Kassert is_held;
   Kassert held_by_cur;
   SpinAcquire TheLock;
   Assign unhold;
   Kassert not_held;
   Assign unhold_by;
   WakeOne TheLock;
   SpinRelease TheLock].

Definition cv_wait (cv : loc) : list (lock_stm D) :=
  [Kassert lock_do_i_hold; SpinAcquire (Cond cv)] ++ lock_release ++
  [Sleep (Cond cv); SpinRelease (Cond cv)] ++ lock_acquire ++ [Kassert lock_do_i_hold].

Definition cv_signal (cv : loc) : list (lock_stm D) :=
  [Kassert lock_do_i_hold; SpinAcquire (Cond cv); WakeOne (Cond cv); SpinRelease (Cond cv)].

Definition cv_broadcast (cv : loc) : list (lock_stm D) :=
  [Kassert lock_do_i_hold; SpinAcquire (Cond cv); WakeAll (Cond cv); SpinRelease (Cond cv)].

Definition synch : monitor D := Monitor lock_acquire lock_release cv_wait cv_signal cv_broadcast.
End code.
End Proj2.
