(* ===== verification/SynchFacts.v ===== *)
(** * Wait channels and thread states

    Whatever code the threads run: the wait channels hold exactly the threads
    that are asleep on them, each once. *)

From stdpp Require Import base tactics list gmap option numbers ssreflect.
From S2P Require Import Prelude Kern Synch.

Section queues.
Context {O : Type} `{Countable O} {Mem : Type}.
Implicit Types (m : mach O Mem) (t : loc) (o : O).

Definition asleep_on o t m : Prop := ∃ th, threads m !! t = Some th ∧ t_state th = Sleeps o.

Record consistent m : Prop := {
  q_nodup : ∀ o, NoDup (queue o m);
  q_state : ∀ o t, t ∈ queue o m ↔ asleep_on o t m;
  q_spins : ∀ o t, spins m !! o = Some t → is_Some (threads m !! t)
}.

Lemma queue_insert o o' q m s (ms : Mem) (ths : gmap loc (thread O Mem)) :
  queue o' (Mach ms s (<[o := q]> (queues m)) ths) = if decide (o = o') then q else queue o' m.
Proof.
  rw /queue /=. destruct (decide (o = o')) as [<-|]; [by rw lookup_insert_eq|by rw lookup_insert_ne].
Qed.

(** A thread that is not asleep goes on. *)
Lemma asleep_go o t2 t c k m :
  threads m !! t = Some (Thread Ready c) → asleep_on o t2 (go t k m) ↔ asleep_on o t2 m.
Proof.
  intros Ht. rw /asleep_on /go /=. destruct (decide (t = t2)) as [<-|Hne]; [|by rw lookup_insert_ne].
  rw lookup_insert_eq Ht. split; intros (th & [= <-] & Hs); done.
Qed.

Lemma consistent_go t c k m : threads m !! t = Some (Thread Ready c) → consistent m → consistent (go t k m).
Proof.
  intros Ht [H1 H2 H3]. split; [done| |].
  - intros o t2. rw (asleep_go _ _ _ c) //. apply H2.
  - intros o t2 Ho. simpl. destruct (decide (t = t2)) as [<-|]; [by rw lookup_insert_eq|]. rw lookup_insert_ne //. by eapply H3.
Qed.

Lemma consistent_spins s m :
  (∀ o t, s !! o = Some t → is_Some (threads m !! t)) → consistent m → consistent (set_spins s m).
Proof. intros Hs [H1 H2 H3]. by split. Qed.
Lemma consistent_mem x m : consistent m → consistent (set_mem x m).
Proof. intros [H1 H2 H3]. by split. Qed.

Lemma consistent_sleep t c o k m : threads m !! t = Some (Thread Ready c) → consistent m → consistent (sleep t o k m).
Proof.
  intros Ht [H1 H2 H3]. assert (∀ o', t ∉ queue o' m) as Hno.
  { intros o' (th & Hth & Hs)%H2. by rw Ht in Hth; injection Hth as <-. }
  split.
  - intros o'. rw /sleep queue_insert. destruct (decide (o = o')) as [<-|]; [|done].
    apply NoDup_app. split; [done|]. split; [|apply NoDup_singleton]. intros x Hx ->%list_elem_of_singleton. by eapply Hno.
  - intros o' t2. rw /sleep queue_insert /asleep_on /=. destruct (decide (t = t2)) as [<-|Hne].
    + rw lookup_insert_eq. destruct (decide (o = o')) as [<-|Hne].
      * split; [intros _; by eexists|intros _; apply elem_of_app; right; by apply list_elem_of_singleton].
      * split; [by intros ?%Hno|intros (th & [= <-] & Hs)]. simpl in Hs. congruence.
    + rw lookup_insert_ne //. destruct (decide (o = o')) as [<-|]; [|apply H2]. rw elem_of_app list_elem_of_singleton.
      rw H2. split; [|by left]. intros [Hx|Hx]; [done|by subst].
  - intros o' t2 Ho. simpl in *. apply lookup_delete_Some in Ho as [_ Ho]. destruct (decide (t = t2)) as [<-|].
    + by rw lookup_insert_eq.
    + rw lookup_insert_ne //. by eapply H3.
Qed.

(** Waking the threads of [q]. *)
Lemma foldr_ready (q : list loc) (ths : gmap loc (thread O Mem)) t :
  foldr (alter ready) ths q !! t = if decide (t ∈ q) then ready <$> ths !! t else ths !! t.
Proof.
  induction q as [|t1 q IH]; simpl; [done|]. destruct (decide (t1 = t)) as [<-|Hne].
  - rw lookup_alter_eq IH. rw (decide_True _ _ (list_elem_of_here _ _)). destruct (decide (t1 ∈ q)); [|done].
    by destruct (ths !! t1).
  - rw lookup_alter_ne // IH. destruct (decide (t ∈ q)) as [Hq|Hq].
    + rw decide_True //. by apply list_elem_of_further.
    + rw decide_False //. rw elem_of_cons. intros [Hx|Hx]; [by subst|done].
Qed.

Lemma consistent_wake o woken q m :
  queue o m = woken ++ q → consistent m →
  consistent (Mach (mem m) (spins m) (<[o := q]> (queues m)) (foldr (alter ready) (threads m) woken)).
Proof.
  intros Hq [H1 H2 H3]. split.
  - intros o'. rw queue_insert. destruct (decide (o = o')) as [<-|]; [|done]. specialize (H1 o). rw Hq in H1.
    by apply NoDup_app in H1 as (_ & _ & ?).
  - intros o' t. rw queue_insert /asleep_on /= foldr_ready. specialize (H1 o). rw Hq in H1. apply NoDup_app in H1 as (_ & H1 & _).
    destruct (decide (t ∈ woken)) as [Hw|Hw].
    + assert (t ∈ queue o m) as Ho by by rw Hq; apply elem_of_app; left.
      split; [|by intros (th & (th' & _ & ->)%fmap_Some & ?)]. destruct (decide (o = o')) as [<-|Hne]; [by intros ?%(H1 _ Hw)|].
      intros (th & Hth & Hs)%H2. apply H2 in Ho as (th' & Hth' & Hs'). congruence.
    + destruct (decide (o = o')) as [<-|Hne]; [|apply H2]. trans (t ∈ queue o m); [|apply H2]. rw Hq elem_of_app.
      split; [by right|by intros [?|?]].
  - intros o' t Ho. simpl in *. rw foldr_ready. destruct (decide (t ∈ woken)); [|by eapply H3].
    destruct (H3 _ _ Ho) as [x ->]. by eexists.
Qed.

Lemma consistent_wake_one o m : consistent m → consistent (wake_one o m).
Proof.
  intros Hm. rw /wake_one. destruct (queue o m) as [|t q] eqn:Hq; [done|].
  by apply (consistent_wake o [t] q m).
Qed.
Lemma consistent_wake_all o m : consistent m → consistent (wake_all o m).
Proof. intros Hm. apply (consistent_wake o (queue o m) [] m); [by rw app_nil_r|done]. Qed.

Lemma step_consistent t m m' : consistent m → step t m = Next m' → consistent m'.
Proof.
  intros Hm. rw /step. destruct (threads m !! t) as [[[|] [|c k]]|] eqn:Ht; [done| |done..].
  pose proof (consistent_go _ _ k _ Ht Hm) as Hgo. destruct c as [o|o|o|o|o|b|f|b body].
  - destruct (spins m !! o) as [t'|]; [by case_bool_decide|]. intros [= <-]. apply consistent_spins; [|done].
    intros o' t2. simpl. rw lookup_insert_Some. intros [[_ <-]|[_ Ho]]; [by rw lookup_insert_eq|by apply Hgo in Ho].
  - destruct (holds_spin o t m); [|done]. intros [= <-]. apply consistent_spins; [|done].
    intros o' t2 [_ Ho]%lookup_delete_Some. by apply Hgo in Ho.
  - destruct (holds_only o t m); [|done]. intros [= <-]. by eapply consistent_sleep.
  - destruct (holds_spin o t m); [|done]. intros [= <-]. by apply consistent_wake_one.
  - destruct (holds_spin o t m); [|done]. intros [= <-]. by apply consistent_wake_all.
  - destruct (b t (mem m)); [|done]. by intros [= <-].
  - intros [= <-]. by apply consistent_mem.
  - intros [= <-]. by eapply consistent_go.
Qed.

Lemma reach_consistent m0 m : consistent m0 → reach m0 m → consistent m.
Proof. intros Hm0. induction 1 as [|m t m' _ IH Hs]; [done|]. by eapply step_consistent. Qed.
End queues.

(** ** A type system for the users of a lock

    A thread's state with respect to the lock is a [status]; every statement of
    the code takes a thread from one status to another, when it is used where
    the code uses it.  [typed] collects these rules, for statements of the lock
    operations and for what is done between them under an assertion on the
    protected data.  The invariant at the end holds in every state that typed
    threads can reach, however they interleave. *)

Section typing.
Context {D : Type} (Inv : D → Prop).
Implicit Types (P Q : D → Prop) (h : option loc) (t : loc).
Abbreviation stms := (list (lock_stm D)).
Abbreviation lmach := (mach object (lockmem D)).

(** Outside; in [lock_acquire]: testing the flag, about to sleep, found it
    free, flag taken, holder set; inside the critical section; in
    [lock_release]: flag cleared, holder cleared, a sleeper woken. *)
Inductive status : Type :=
| Out
| Testing
| Sleeping
| Free
| Taken (P : D → Prop)
| Locked (P : D → Prop)
| In (P : D → Prop)
| Clearing
| Unlocked
| Woken.

(** Whether the thread has the lock's spinlock. *)
Definition spinning (st : status) : bool := match st with Out | In _ => false | _ => true end.

(** The assertion on the data of the thread that has the lock. *)
Definition owning (st : status) : option (D → Prop) :=
  match st with Taken P | Locked P | In P => Some P | _ => None end.

(** What the fields of the lock are for it. *)
Definition fields (st : status) (t : loc) (m : lockmem D) : Prop :=
  match st with
  | Out => thread_holder m ≠ Some t
  | Testing => thread_holder m ≠ Some t ∧ (lock_held m = true ↔ thread_holder m ≠ None)
  | Sleeping => lock_held m = true ∧ thread_holder m ≠ Some t ∧ thread_holder m ≠ None
  | Free | Unlocked | Woken => lock_held m = false ∧ thread_holder m = None
  | Taken _ => lock_held m = true ∧ thread_holder m = None
  | Locked _ | In _ => lock_held m = true ∧ thread_holder m = Some t
  | Clearing => lock_held m = false ∧ thread_holder m = Some t
  end.

(** [typed t st h k st' h']: thread [t], in status [st] and with the spinlock
    of the condition variable [h], may run [k], after which it is in [st'],
    with [h']. *)
Inductive typed (t : loc) : status → option loc → stms → status → option loc → Prop :=
| ty_nil st h : typed t st h [] st h
| ty_weaken P Q h k st' h' : (∀ d, P d → Q d) → typed t (In Q) h k st' h' → typed t (In P) h k st' h'
| ty_assert st h b k st' h' :
    (∀ m, fields st t m → b t m = true) → typed t st h k st' h' → typed t st h (Kassert b :: k) st' h'
| ty_assert_data P h b k st' h' :
    (∀ d, P d → b d = true) → typed t (In P) h k st' h' → typed t (In P) h (Kassert (data_test b) :: k) st' h'
| ty_data P Q h f k st' h' :
    (∀ d, P d → Q (f t d)) → typed t (In Q) h k st' h' → typed t (In P) h (Assign (on_data f) :: k) st' h'
| ty_while P b body h k st' h' :
    typed t (In (λ d, P d ∧ b d = true)) h body (In P) h →
    typed t (In (λ d, P d ∧ b d = false)) h k st' h' →
    typed t (In P) h (While (data_test b) body :: k) st' h'
(* lock_acquire *)
| ty_spin h k st' h' : typed t Testing h k st' h' → typed t Out h (SpinAcquire TheLock :: k) st' h'
| ty_test k st' h' :
    typed t Free None k st' h' → typed t Testing None (While is_held [Sleep TheLock] :: k) st' h'
| ty_sleep k st' h' : typed t Testing None k st' h' → typed t Sleeping None (Sleep TheLock :: k) st' h'
| ty_hold h k st' h' : typed t (Taken Inv) h k st' h' → typed t Free h (Assign hold :: k) st' h'
| ty_hold_by P h k st' h' : typed t (Locked P) h k st' h' → typed t (Taken P) h (Assign hold_by :: k) st' h'
| ty_enter P h k st' h' : typed t (In P) h k st' h' → typed t (Locked P) h (SpinRelease TheLock :: k) st' h'
(* lock_release *)
| ty_spin_in P h k st' h' : typed t (Locked P) h k st' h' → typed t (In P) h (SpinAcquire TheLock :: k) st' h'
| ty_unhold P h k st' h' :
    (∀ d, P d → Inv d) → typed t Clearing h k st' h' → typed t (Locked P) h (Assign unhold :: k) st' h'
| ty_unhold_by h k st' h' : typed t Unlocked h k st' h' → typed t Clearing h (Assign unhold_by :: k) st' h'
| ty_wake h k st' h' : typed t Woken h k st' h' → typed t Unlocked h (WakeOne TheLock :: k) st' h'
| ty_leave h k st' h' : typed t Out h k st' h' → typed t Woken h (SpinRelease TheLock :: k) st' h'
(* condition variables *)
| ty_cv_spin st c k st' h' :
    spinning st = false → typed t st (Some c) k st' h' → typed t st None (SpinAcquire (Cond c) :: k) st' h'
| ty_cv_unspin st c k st' h' :
    spinning st = false → typed t st None k st' h' → typed t st (Some c) (SpinRelease (Cond c) :: k) st' h'
| ty_cv_sleep c k st' h' : typed t Out (Some c) k st' h' → typed t Out (Some c) (Sleep (Cond c) :: k) st' h'
| ty_cv_wake st c k st' h' :
    spinning st = false → typed t st (Some c) k st' h' → typed t st (Some c) (WakeOne (Cond c) :: k) st' h'
| ty_cv_wake_all st c k st' h' :
    spinning st = false → typed t st (Some c) k st' h' → typed t st (Some c) (WakeAll (Cond c) :: k) st' h'.

Lemma typed_app t st h k st1 h1 k' st' h' :
  typed t st h k st1 h1 → typed t st1 h1 k' st' h' → typed t st h (k ++ k') st' h'.
Proof.
  intros H. revert k' st' h'. induction H; intros k2 st2 h2 Hk; simpl; [done|..];
    try (econstructor; eauto; fail).
Qed.

(** ** The invariant *)

(** A thread is where its status says. *)
Record local (t : loc) (st : status) (h : option loc) (m : lmach) : Prop := {
  l_fields : fields st t (mem m);
  l_spin : spins m !! TheLock = Some t ↔ spinning st = true;
  l_cv : ∀ c, spins m !! Cond c = Some t ↔ h = Some c;
  l_data : ∀ P, owning st = Some P → P (data (mem m))
}.

(** A thread that will test the flag again, or that has cleared it and not yet
    woken a sleeper. *)
Definition hot (st : status) (k : stms) : Prop :=
  match st with
  | Testing | Free | Clearing | Unlocked => True
  | Out => ∃ k', k = SpinAcquire TheLock :: k'
  | _ => False
  end.

(** The statuses of all threads. *)
Abbreviation statuses := (loc → status * option loc).
Implicit Types (S : statuses).

Record placed S (t : loc) (th : thread object (lockmem D)) (m : lmach) : Prop := {
  pl_typed : typed t (S t).1 (S t).2 (todo th) Out None;
  pl_local : local t (S t).1 (S t).2 m;
  pl_asleep : ∀ o, t_state th = Sleeps o → S t = (Out, None) ∧ ∃ k, todo th = SpinAcquire o :: k
}.

Record mutex S (m : lmach) : Prop := {
  mx_threads : ∀ t th, threads m !! t = Some th → placed S t th m;
  mx_free : lock_held (mem m) = false → Inv (data (mem m));
  mx_idle : spins m !! TheLock = None → lock_held (mem m) = true ↔ thread_holder (mem m) ≠ None;
  mx_holder : ∀ t, thread_holder (mem m) = Some t → is_Some (threads m !! t);
  mx_hot : queue TheLock m = [] ∨ lock_held (mem m) = true ∨
    ∃ t th, threads m !! t = Some th ∧ t_state th = Ready ∧ hot (S t).1 (todo th)
}.

(** ** Preservation *)

Lemma local_same t st h m m' : mem m' = mem m → spins m' = spins m → local t st h m → local t st h m'.
Proof. intros Hm Hs [H1 H2 H3 H4]. by split; rw ?Hm ?Hs. Qed.

(** What another thread does with the spinlocks does not move a thread. *)
Lemma local_spins t st h m m' :
  mem m' = mem m → (∀ o, spins m' !! o = Some t ↔ spins m !! o = Some t) →
  local t st h m → local t st h m'.
Proof. intros Hm Hs [H1 H2 H3 H4]. split; rw ?Hm //; [by rw Hs|intros c; by rw Hs]. Qed.

(** Nor does the owner's work on the data, *)
Lemma local_data t2 t st h m m' :
  t2 ≠ t → lock_held (mem m) = true → thread_holder (mem m) = Some t →
  lock_held (mem m') = lock_held (mem m) → thread_holder (mem m') = thread_holder (mem m) → spins m' = spins m →
  local t2 st h m → local t2 st h m'.
Proof.
  intros Hne Hh Ht Hh' Ht' Hs [H1 H2 H3 H4]. split; rw ?Hs //.
  - destruct st; simpl in *; rw ?Hh' ?Ht'; done.
  - destruct st; simpl in *; intros ? [= <-]; destruct H1; congruence.
Qed.

(** nor an assignment to the fields under the spinlock. *)
Lemma local_fields t2 t st h m m' :
  t2 ≠ t → spins m !! TheLock = Some t → thread_holder (mem m) ≠ Some t2 → thread_holder (mem m') ≠ Some t2 →
  spins m' = spins m → local t2 st h m → local t2 st h m'.
Proof.
  intros Hne Hspin Hn Hn' Hs [H1 H2 H3 H4]. rw Hspin in H2.
  assert (spinning st = false) as Hst by by destruct (spinning st); [destruct H2 as [_ H2]; specialize (H2 eq_refl); congruence|].
  destruct st; simpl in *; try done; [|by destruct H1]. split; simpl; rw ?Hs //. by rw Hspin.
Qed.

(** [t] goes on with [k], in state [s]; the others are as before, or woken. *)
Definition moves (t : loc) (s : tstate object) (k : stms) (m m' : lmach) : Prop :=
  threads m' !! t = Some (Thread s k) ∧
  ∀ t2, t2 ≠ t → threads m' !! t2 = threads m !! t2 ∨ threads m' !! t2 = ready <$> threads m !! t2.

Lemma moves_insert t s k m m' : threads m' = <[t := Thread s k]> (threads m) → moves t s k m m'.
Proof.
  intros Hm. split; rw Hm; [by rw lookup_insert_eq|]. intros t2 Hne. rw lookup_insert_ne //. by left.
Qed.

Lemma moves_ready t k m m1 m' :
  moves t Ready k m m1 →
  (∀ t2, threads m' !! t2 = threads m1 !! t2 ∨ threads m' !! t2 = ready <$> threads m1 !! t2) →
  moves t Ready k m m'.
Proof.
  intros [H1 H2] Hm. split.
  - destruct (Hm t) as [E|E]; by rw E H1.
  - intros t2 Hne. destruct (H2 t2 Hne) as [E|E]; destruct (Hm t2) as [E'|E']; rw E' E; try (by left); try (by right).
    right. by destruct (threads m !! t2).
Qed.

Lemma moves_wake t k o q m m1 :
  moves t Ready k m m1 →
  moves t Ready k m (Mach (mem m1) (spins m1) (<[o := q]> (queues m1)) (foldr (alter ready) (threads m1) (queue o m1))).
Proof. intros Hm. eapply moves_ready; [done|]. intros t2. simpl. rw foldr_ready. destruct (decide _); [by right|by left]. Qed.
Lemma moves_wake_one t k o m m1 : moves t Ready k m m1 → moves t Ready k m (wake_one o m1).
Proof.
  intros Hm. eapply moves_ready; [done|]. intros t2. rw /wake_one. destruct (queue o m1) as [|t1 q]; [by left|].
  simpl. destruct (decide (t1 = t2)) as [<-|Hne]; [rw lookup_alter_eq; by right|rw lookup_alter_ne //; by left].
Qed.

Lemma wake_one_mem o (m : lmach) : mem (wake_one o m) = mem m ∧ spins (wake_one o m) = spins m.
Proof. rw /wake_one. by destruct (queue o m). Qed.

Definition set_status (t : loc) (x : status * option loc) S : statuses := λ t2, if decide (t2 = t) then x else S t2.
Lemma set_status_eq t x S : set_status t x S t = x.
Proof. by rw /set_status decide_True. Qed.
Lemma set_status_ne t t2 x S : t2 ≠ t → set_status t x S t2 = S t2.
Proof. intros. by rw /set_status decide_False. Qed.

(** After the step somebody will look at the flag, if there are sleepers. *)
Definition heats S (t : loc) (s : tstate object) (k : stms) (st : status) (m m' : lmach) : Prop :=
  queue TheLock m' = [] ∨ lock_held (mem m') = true ∨ s = Ready ∧ hot st k ∨
  (∃ t1 k1, t1 ≠ t ∧ threads m' !! t1 = Some (Thread Ready (SpinAcquire TheLock :: k1)) ∧ (S t1).1 = Out) ∨
  queue TheLock m' = queue TheLock m ∧ lock_held (mem m') = lock_held (mem m) ∧
  ∀ th, threads m !! t = Some th → ¬ hot (S t).1 (todo th).

(** One step of thread [t], now in status [st] before [k]. *)
Lemma mutex_step S t m m' s k st h :
  mutex S m → typed t st h k Out None → local t st h m' → moves t s k m m' →
  (∀ o, s = Sleeps o → (st, h) = (Out, None) ∧ ∃ k', k = SpinAcquire o :: k') →
  (∀ t2 st2 h2, t2 ≠ t → local t2 st2 h2 m → local t2 st2 h2 m') →
  (lock_held (mem m') = false → Inv (data (mem m'))) →
  (spins m' !! TheLock = None → lock_held (mem m') = true ↔ thread_holder (mem m') ≠ None) →
  (∀ t2, thread_holder (mem m') = Some t2 → t2 = t ∨ thread_holder (mem m) = Some t2) →
  heats S t s k st m m' → mutex (set_status t (st, h) S) m'.
Proof.
  intros [Hth Hfree _ Hho Hhot] Hty Hloc [Hk Hrest] Hs Hothers Hinv Hidle Hholder Hheats. split; [|done|done| |].
  - intros t2 th2 Ht2. destruct (decide (t2 = t)) as [->|Hne].
    + rw Hk in Ht2. injection Ht2 as <-. by split; rw set_status_eq.
    + destruct (threads m !! t2) as [th|] eqn:E; destruct (Hrest _ Hne) as [E'|E']; rw E' E in Ht2; try done; injection Ht2 as <-.
      * destruct (Hth _ _ E) as [P1 P2 P3]. split; rw set_status_ne //. by apply Hothers.
      * destruct (Hth _ _ E) as [P1 P2 P3]. split; rw set_status_ne //. by apply Hothers.
  - intros t2 Ht2. destruct (decide (t2 = t)) as [->|Hne]; [by rw Hk|]. destruct (Hholder _ Ht2) as [|Ht]; [done|].
    destruct (Hho _ Ht) as [x Hx]. destruct (Hrest _ Hne) as [E|E]; rw E; rw Hx; by eexists.
  - destruct Hheats as [?|[?|[(-> & ?)|[(t1 & k1 & Hne & H1 & H2)|(E1 & E2 & Hcold)]]]]; [by left|by right; left|..].
    + right; right. exists t, (Thread Ready k). by rw set_status_eq.
    + right; right. exists t1, (Thread Ready (SpinAcquire TheLock :: k1)). rw set_status_ne // H2. split; [done|].
      split; [done|]. by exists k1.
    + rw E1 E2. destruct Hhot as [?|[?|(t0 & th0 & H1 & H2 & H3)]]; [by left|by right; left|]. right; right.
      destruct (decide (t0 = t)) as [->|Hne]; [by apply Hcold in H3|]. exists t0, th0. rw set_status_ne //.
      split; [|done]. destruct th0 as [s0 k0]. simpl in H2. subst s0. destruct (Hrest _ Hne) as [E|E]; by rw E H1.
Qed.

(** ** The kinds of steps *)

(** What changes nothing for the sleepers. *)
Definition calm S (t : loc) (l k : stms) (st : status) (m : lmach) : Prop :=
  lock_held (mem m) = true ∨ hot st k ∨ ¬ hot (S t).1 l.

Lemma calm_heats S t l k st m m' :
  threads m !! t = Some (Thread Ready l) → calm S t l k st m →
  queue TheLock m' = queue TheLock m → lock_held (mem m') = lock_held (mem m) → heats S t Ready k st m m'.
Proof.
  intros Ht [Hh|[Hh|Hh]] Hq Hl; [right; left; by rw Hl|by right; right; left|]. do 4 right. split; [done|]. split; [done|].
  intros th. rw Ht. by intros [= <-].
Qed.

Section kinds.
Context (S : statuses) (t : loc) (l : stms) (m : lmach) (Hm : mutex S m) (Ht : threads m !! t = Some (Thread Ready l)).

Lemma mutex_go st h k :
  typed t st h k Out None → local t st h m → calm S t l k st m → mutex (set_status t (st, h) S) (go t k m).
Proof.
  intros Hty Hloc Hc. eapply mutex_step; [done|done|by eapply (local_same _ _ _ m)|by eapply moves_insert|done| | | |by right|
    by eapply calm_heats]; [|by apply Hm..]. intros. by eapply (local_same _ _ _ m).
Qed.

Lemma mutex_spins st h k s :
  typed t st h k Out None → local t st h (set_spins s m) →
  (∀ o t2, t2 ≠ t → s !! o = Some t2 ↔ spins m !! o = Some t2) →
  (s !! TheLock = None → lock_held (mem m) = true ↔ thread_holder (mem m) ≠ None) → calm S t l k st m →
  mutex (set_status t (st, h) S) (set_spins s (go t k m)).
Proof.
  intros Hty Hloc Hs Hidle Hc. eapply mutex_step; [done|done|by eapply (local_same _ _ _ (set_spins s m))|by eapply moves_insert|done| |
    by apply Hm|done|by right|by eapply calm_heats].
  intros t2 st2 h2 Hne Hl2. eapply (local_spins t2 _ _ m); [done| |done]. intros o. by apply Hs.
Qed.

Lemma mutex_fields st h k x :
  typed t st h k Out None → local t st h (set_mem x m) → spins m !! TheLock = Some t →
  (∀ t2, t2 ≠ t → thread_holder (mem m) ≠ Some t2 ∧ thread_holder x ≠ Some t2) →
  (lock_held x = false → Inv (data x)) → (lock_held x = true ∨ hot st k) →
  mutex (set_status t (st, h) S) (set_mem x (go t k m)).
Proof.
  intros Hty Hloc Hspin Hx Hinv Hh.
  eapply mutex_step; [done|done|by eapply (local_same _ _ _ (set_mem x m))|by eapply moves_insert|done| |done| | |].
  - intros t2 st2 h2 Hne Hl2. destruct (Hx _ Hne). by eapply (local_fields t2 t _ _ m).
  - simpl. by rw Hspin.
  - intros t2 Ht2. destruct (decide (t2 = t)) as [|Hne]; [by left|]. by destruct (Hx _ Hne).
  - destruct Hh; [by right; left|by right; right; left].
Qed.

Lemma mutex_data P Q h f k :
  typed t (In Q) h k Out None → local t (In P) h m → (∀ d, P d → Q (f t d)) →
  mutex (set_status t (In Q, h) S) (set_mem (on_data f t (mem m)) (go t k m)).
Proof.
  intros Hty [[Hh Hb] H2 H3 H4] Hf. eapply mutex_step; [done|done| |by eapply moves_insert|done| | | | |].
  - split; [done|done|done|]. intros ? [= <-]. apply Hf. by apply H4.
  - intros t2 st2 h2 Hne Hl2. by eapply (local_data t2 t _ _ m).
  - simpl. by rw Hh.
  - intros Hs. by apply Hm.
  - by right.
  - by right; left.
Qed.

Lemma mutex_sleep o k h :
  typed t Out None (SpinAcquire o :: k) Out None →
  (o ≠ TheLock ∧ local t Out h m ∧ ¬ hot (S t).1 l) ∨ local t Sleeping h m →
  holds_only o t m = true → mutex (set_status t (Out, None) S) (sleep t o k m).
Proof.
  intros Hty Hloc Ho. apply andb_true_iff in Ho as [Ho Honly].
  apply bool_decide_eq_true in Ho, Honly.
  assert (∀ o', delete o (spins m) !! o' ≠ Some t) as Hnone.
  { intros o'. rw lookup_delete_Some. intros [Hne Ho']. by apply Hne, (eq_sym (Honly _ _ Ho' eq_refl)). }
  eapply mutex_step; [done|done| |by eapply moves_insert| | |by apply Hm| |by right|].
  - split; simpl; [by destruct Hloc as [(_ & [H _ _ _] & _)|[(_ & H & _) _ _ _]]| | |done].
    + split; [|done]. by intros ?%Hnone.
    + intros c. split; [by intros ?%Hnone|done].
  - intros o' [= <-]. split; [done|by eexists].
  - intros t2 st2 h2 Hne Hl2. eapply (local_spins t2 _ _ m); [done| |done]. intros o'. simpl. destruct (decide (o = o')) as [<-|].
    + rw lookup_delete_eq Ho. split; congruence.
    + by rw lookup_delete_ne.
  - simpl. destruct Hloc as [[Hne _]|[(Hh & _ & Hn) _ _ _]]; [|by rw Hh]. rw lookup_delete_ne //. by apply Hm.
  - destruct Hloc as [(Hne & _ & Hcold)|[[Hh _] _ _ _]]; [|by right; left]. do 4 right.
    split; [by rw /sleep queue_insert decide_False|]. split; [done|]. intros th. rw Ht. by intros [= <-].
Qed.

Lemma mutex_wake st h k m' :
  typed t st h k Out None → local t st h m → mem m' = mem m → spins m' = spins m → moves t Ready k m m' →
  heats S t Ready k st m m' → mutex (set_status t (st, h) S) m'.
Proof.
  intros Hty Hloc Hmem Hs Hmv. eapply mutex_step; [done|done|by eapply (local_same _ _ _ m)|done|done| | | |].
  - intros. by eapply (local_same _ _ _ m).
  - rw Hmem. by apply Hm.
  - rw Hs Hmem. by apply Hm.
  - rw Hmem. by right.
Qed.

(** Waking a sleeper of the lock. *)
Lemma heats_wake_one k st :
  consistent m → heats S t Ready k st m (wake_one TheLock (go t k m)).
Proof.
  intros Hcon. rw /heats /wake_one. change (queue TheLock (go t k m)) with (queue TheLock m).
  destruct (queue TheLock m) as [|t1 q] eqn:Hq; [by left|]. do 3 right. left.
  assert (t1 ∈ queue TheLock m) as (th1 & Hth1 & Hs1)%(q_state _ Hcon) by by rw Hq; apply list_elem_of_here.
  assert (t1 ≠ t) as Hne by by intros ->; rw Ht in Hth1; injection Hth1 as <-.
  destruct (mx_threads _ _ Hm _ _ Hth1) as [_ _ Hpl]. destruct (Hpl _ Hs1) as [Hout [k1 Hk1]].
  exists t1, k1. split; [done|]. split; [|by rw Hout]. rw /= lookup_alter_eq lookup_insert_ne // Hth1 /=. by rw /ready Hk1.
Qed.

(** Taking and giving up a spinlock. *)
Definition good (e : effect object (lockmem D)) : Prop :=
  match e with Next m' => ∃ S', mutex S' m' | Waits => True | Panics => False end.

Lemma good_acquire st h st' h' o k :
  typed t st' h' k Out None → local t st h m → spins m !! o ≠ Some t →
  (spins m !! o = None → local t st' h' (set_spins (<[o := t]> (spins m)) m)) → calm S t l k st' m →
  good match spins m !! o with
       | None => Next (set_spins (<[o := t]> (spins m)) (go t k m))
       | Some t' => if bool_decide (t' = t) then Panics else Waits
       end.
Proof.
  intros Hty Hloc Hno Hloc' Hc. destruct (spins m !! o) as [t'|] eqn:Ho.
  - rw bool_decide_eq_false_2; [done|]. intros ->. by apply Hno.
  - simpl. eexists. eapply mutex_spins; [done|by apply Hloc'| | |done].
    + intros o' t2 Hne. destruct (decide (o = o')) as [<-|]; [rw lookup_insert_eq Ho; split; congruence|by rw lookup_insert_ne].
    + destruct (decide (o = TheLock)) as [->|]; [by rw lookup_insert_eq|]. rw lookup_insert_ne //. by apply Hm.
Qed.

Lemma good_release st' h' o k :
  typed t st' h' k Out None → spins m !! o = Some t → local t st' h' (set_spins (delete o (spins m)) m) →
  (o = TheLock → lock_held (mem m) = true ↔ thread_holder (mem m) ≠ None) → calm S t l k st' m →
  good (if holds_spin o t m then Next (set_spins (delete o (spins m)) (go t k m)) else Panics).
Proof.
  intros Hty Ho Hloc Hidle Hc. rw /holds_spin bool_decide_eq_true_2 //=. eexists. eapply mutex_spins; [done|done| | |done].
  - intros o' t2 Hne. destruct (decide (o = o')) as [<-|]; [rw lookup_delete_eq Ho; split; congruence|by rw lookup_delete_ne].
  - destruct (decide (o = TheLock)) as [->|]; [by intros _; apply Hidle|]. rw lookup_delete_ne //. by apply Hm.
Qed.
End kinds.

(** The thread's own place after that. *)
Lemma local_lock_spin t st st' h m :
  local t st h m → spinning st = false → spinning st' = true → fields st' t (mem m) →
  (∀ P, owning st' = Some P → P (data (mem m))) → local t st' h (set_spins (<[TheLock := t]> (spins m)) m).
Proof.
  intros [H1 H2 H3 H4] Hs Hs' Hf Hd. split; simpl; [done| | |done].
  - by rw lookup_insert_eq.
  - intros c. by rw lookup_insert_ne.
Qed.

Lemma local_lock_unspin t st st' h m :
  local t st h m → spinning st' = false → fields st' t (mem m) →
  (∀ P, owning st' = Some P → P (data (mem m))) → local t st' h (set_spins (delete TheLock (spins m)) m).
Proof.
  intros [H1 H2 H3 H4] Hs' Hf Hd. split; simpl; [done| | |done].
  - rw lookup_delete_eq Hs'. done.
  - intros c. by rw lookup_delete_ne.
Qed.

Lemma local_cv_spin t st c m :
  local t st None m → local t st (Some c) (set_spins (<[Cond c := t]> (spins m)) m).
Proof.
  intros [H1 H2 H3 H4]. split; simpl; [done|by rw lookup_insert_ne| |done]. intros c'.
  destruct (decide (c = c')) as [<-|Hne]; [by rw lookup_insert_eq|]. rw lookup_insert_ne; [rw H3; split; congruence|congruence].
Qed.

Lemma local_cv_unspin t st c m :
  local t st (Some c) m → local t st None (set_spins (delete (Cond c) (spins m)) m).
Proof.
  intros [H1 H2 H3 H4]. split; simpl; [done|by rw lookup_delete_ne| |done]. intros c'.
  destruct (decide (c = c')) as [<-|Hne]; [by rw lookup_delete_eq|]. rw lookup_delete_ne; [rw H3; split; congruence|congruence].
Qed.

(** Another assignment to the fields, or none. *)
Lemma local_set t st st' h x m :
  local t st h m → spinning st' = spinning st → fields st' t x →
  (∀ P, owning st' = Some P → P (data x)) → local t st' h (set_mem x m).
Proof. intros [H1 H2 H3 H4] Hs Hf Hd. split; simpl; [done|by rw Hs|done|done]. Qed.
Lemma local_as t st st' h m :
  local t st h m → spinning st' = spinning st → fields st' t (mem m) →
  (∀ P, owning st' = Some P → P (data (mem m))) → local t st' h m.
Proof. intros [H1 H2 H3 H4] Hs Hf Hd. split; [done|by rw Hs|done|done]. Qed.

Lemma mutex_weaken S t P Q h k m :
  (∀ d, P d → Q d) → S t = (In P, h) → typed t (In Q) h k Out None → mutex S m →
  threads m !! t = Some (Thread Ready k) → mutex (set_status t (In Q, h) S) m.
Proof.
  intros HPQ HS Hty Hm Ht. destruct (mx_threads _ _ Hm _ _ Ht) as [_ Hloc _]. rw HS /= in Hloc.
  eapply mutex_step; [done|done| |split; [done|by intros; left]|done|done|by apply Hm|by apply Hm|by right|].
  - eapply local_as; [done|done|by apply Hloc|]. intros ? [= <-]. by apply HPQ, Hloc.
  - do 4 right. split; [done|]. split; [done|]. intros th _. rw HS. by intros [].
Qed.

(** A statement other than taking the lock's spinlock, in the same status. *)
Lemma calm_same S t l k st h m :
  S t = (st, h) → (∀ k', l ≠ SpinAcquire TheLock :: k') → calm S t l k st m.
Proof.
  intros HS Hl. rw /calm HS /=. destruct st; simpl; try (by right; left); right; right; try (by intros []). intros [k' ->].
  by eapply Hl.
Qed.

Lemma calm_in S t P l k st h m : S t = (In P, h) → calm S t l k st m.
Proof. intros HS. right; right. rw HS. by intros []. Qed.

(** A step of a typed thread keeps the invariant and fails no assertion. *)
Lemma typed_step t st h l st' h' m :
  typed t st h l st' h' → st' = Out → h' = None → ∀ S, S t = (st, h) → consistent m →
  mutex S m → threads m !! t = Some (Thread Ready l) → good (step t m).
Proof.
  intros Hty. induction Hty; intros Hst' Hh' S HS Hcon Hm Ht; subst; [|
    eapply (IHHty eq_refl eq_refl (set_status t (In Q, h) S)); [by rw set_status_eq|done|by eapply mutex_weaken|done]|..];
    rw /step Ht /=; destruct (mx_threads _ _ Hm _ _ Ht) as [_ Hloc _]; rw HS /= in Hloc; pose proof Hloc as [Hf Hs Hc Hd].
  - done.
  - rw H; [|done]. eexists. eapply mutex_go; [done..|]. by eapply calm_same.
  - rw /data_test H; [|by apply Hd]. eexists. eapply mutex_go; [done..|]. by eapply calm_same.
  - eexists. by eapply mutex_data.
  - rw /data_test. destruct (b (data (mem m))) eqn:Hb.
    + eexists. eapply mutex_go; [done|done|eapply typed_app; [done|by apply ty_while]| |by eapply calm_in].
      eapply local_as; [done|done|done|]. intros ? [= <-]. split; [by apply Hd|done].
    + eexists. eapply mutex_go; [done|done|exact Hty2| |by eapply calm_in]. eapply local_as; [done|done|done|]. intros ? [= <-]. split; [by apply Hd|done].
  - eapply good_acquire; [done|done|done|done|by intros ?%Hs| |by right; left]. intros Hn. eapply local_lock_spin; [done..| |done].
    split; [done|]. by apply Hm.
  - rw /is_held. destruct (lock_held (mem m)) eqn:Hh.
    + eexists. eapply mutex_go; [done|done|by eapply ty_sleep, ty_test| |by left]. eapply local_as; [done|done| |done].
      destruct Hf as [Hf1 Hf2]. split; [done|]. split; [done|by apply Hf2].
    + eexists. eapply mutex_go; [done|done|done| |by right; left]. eapply local_as; [done|done| |done]. destruct Hf as [_ Hf].
      split; [done|]. destruct (thread_holder (mem m)); [|done]. rw Hh in Hf. by destruct Hf as [_ Hf]; discriminate Hf.
  - assert (holds_only TheLock t m = true) as Ho.
    { apply andb_true_iff. split; apply bool_decide_eq_true; [by apply Hs|]. intros [|c] t' Ho ->; [done|by apply Hc in Ho]. }
    rw Ho. eexists. eapply mutex_sleep; [done|done|by apply ty_spin|by right|done].
  - destruct Hf as [Hf1 Hf2]. eexists. eapply mutex_fields; [done|done| |by apply Hs| |done|by left].
    + eapply local_set; [done|done|done|]. intros ? [= <-]. by apply Hm.
    + intros t2 _. by rw /= Hf2.
  - destruct Hf as [Hf1 Hf2]. eexists. eapply mutex_fields; [done|done| |by apply Hs| | |by left].
    + by eapply local_set.
    + intros t2 Hne. rw /= Hf2. split; congruence.
    + simpl. by rw Hf1.
  - destruct Hf as [Hf1 Hf2]. eapply good_release; [done|done|done|by apply Hs|by eapply local_lock_unspin| |by left]. by rw Hf1 Hf2.
  - destruct Hf as [Hf1 Hf2]. eapply good_acquire; [done|done|done|done|by intros ?%Hs| |by left]. intros Hn. by eapply local_lock_spin.
  - destruct Hf as [Hf1 Hf2]. eexists. eapply mutex_fields; [done|done| |by apply Hs| | |by right].
    + by eapply local_set.
    + intros t2 Hne. rw /= Hf2. split; congruence.
    + intros _. exact (H _ (Hd _ eq_refl)).
  - destruct Hf as [Hf1 Hf2]. eexists. eapply mutex_fields; [done|done| |by apply Hs| | |by right].
    + by eapply local_set.
    + intros t2 Hne. rw /= Hf2. split; congruence.
    + intros _. by apply Hm.
  - rw /holds_spin bool_decide_eq_true_2; [|by apply Hs]. destruct (wake_one_mem TheLock (go t k m)) as [E1 E2].
    eexists. eapply mutex_wake; [done|done|by eapply local_as|done|done|by eapply moves_wake_one, moves_insert|].
    by eapply heats_wake_one.
  - destruct Hf as [Hf1 Hf2]. eapply good_release; [done|done|done|by apply Hs|eapply local_lock_unspin; [done|done| |done]| |].
    + simpl. by rw Hf2.
    + rw Hf1 Hf2. by split.
    + right; right. rw HS. by intros [].
  - eapply good_acquire; [done|done|done|done|by intros ?%Hc| |by eapply calm_same]. intros Hn. by apply local_cv_spin.
  - eapply good_release; [done|done|done|by apply Hc|by apply local_cv_unspin|done|by eapply calm_same].
  - assert (holds_only (Cond c) t m = true) as Ho.
    { apply andb_true_iff. split; apply bool_decide_eq_true; [by apply Hc|]. intros [|c'] t' Ho ->; [by apply Hs in Ho|].
      apply Hc in Ho. congruence. }
    rw Ho. eexists. eapply mutex_sleep; [done|done|by apply ty_cv_spin| |done]. left. split; [done|]. split; [done|]. rw HS /=. by intros [].
  - rw /holds_spin bool_decide_eq_true_2; [|by apply Hc]. destruct (wake_one_mem (Cond c) (go t k m)) as [E1 E2].
    eexists. eapply mutex_wake; [done|done|done|done|done|by eapply moves_wake_one, moves_insert|].
    eapply calm_heats; [done|by eapply calm_same| |by rw E1]. rw /wake_one. change (queue (Cond c) (go t k m)) with (queue (Cond c) m).
    destruct (queue (Cond c) m) as [|t1 q]; [done|]. by rw queue_insert.
  - rw /holds_spin bool_decide_eq_true_2; [|by apply Hc].
    eexists. eapply mutex_wake; [done|done|done|done|done|by eapply moves_wake, moves_insert|].
    eapply calm_heats; [done|by eapply calm_same| |done]. by rw /wake_all queue_insert.
Qed.

(** ** What the statuses say about the code *)

Lemma typed_spinning t st h k :
  typed t st h k Out None → spinning st = true → ∃ c k', k = c :: k' ∧ ∀ o, c ≠ SpinAcquire o.
Proof.
  intros Hty. remember Out as st' eqn:Est. remember None as h' eqn:Eh.
  induction Hty; subst; intros Hs; simpl in *; try done; try (by eexists _, _); congruence.
Qed.

Lemma typed_in_cv t st c k :
  typed t st (Some c) k Out None → ∃ s k', k = s :: k' ∧ ∀ c', s ≠ SpinAcquire (Cond c').
Proof.
  intros Hty. remember Out as st' eqn:Est. remember None as h' eqn:Eh. remember (Some c) as h eqn:Eh0.
  induction Hty; subst; try done; try (by eexists _, _); try (by eapply IHHty).
Qed.

Lemma typed_in t P h k : typed t (In P) h k Out None → k ≠ [].
Proof.
  intros Hty. remember Out as st' eqn:Est. remember (In P) as st eqn:Es. revert P Es.
  induction Hty; intros P' Es; subst; try done; by eapply IHHty.
Qed.

(** Code about to use the protected data. *)
Definition touches (k : stms) : Prop :=
  (∃ f k', k = Assign (on_data f) :: k') ∨ ∃ b body k', k = While (data_test b) body :: k'.

(** The assignments to the lock's fields are none to the data. *)
Lemma field_assignments (d : D) (f : loc → D → D) : hold ≠ on_data f ∧ hold_by ≠ on_data f ∧ unhold ≠ on_data f ∧ unhold_by ≠ on_data f.
Proof.
  repeat split; intros E.
  - by apply (f_equal (λ g, lock_held (g 1%positive (LockMem false None d)))) in E.
  - by apply (f_equal (λ g, thread_holder (g 1%positive (LockMem false None d)))) in E.
  - by apply (f_equal (λ g, lock_held (g 1%positive (LockMem true None d)))) in E.
  - by apply (f_equal (λ g, thread_holder (g 1%positive (LockMem true (Some 1%positive) d)))) in E.
Qed.
Lemma is_held_not_data (d : D) (b : D → bool) : is_held ≠ data_test b.
Proof.
  intros E. pose proof (f_equal (λ g, g 1%positive (LockMem true None d)) E) as E1.
  pose proof (f_equal (λ g, g 1%positive (LockMem false None d)) E) as E2. rw /is_held /data_test /= in E1 E2. congruence.
Qed.

Lemma typed_touches (d : D) t st h k st' h' : typed t st h k st' h' → touches k → ∃ P, st = In P.
Proof.
  intros Hty. induction Hty; intros [(g & k2 & E)|(g & bd & k2 & E)]; try discriminate E; try (by eexists);
    injection E; intros; subst; exfalso.
  all: match goal with
       | H : is_held = _ |- _ => exact (is_held_not_data d _ H)
       | H : _ = on_data ?g |- _ => destruct (field_assignments d g) as (?&?&?&?); done
       end.
Qed.
End typing.
