(* ===== verification/SynchThms.v ===== *)
(** * Theorems on locks and condition variables

    What threads that use one lock and its condition variables can rely on,
    whatever they do and however they interleave, in both kernels. *)

From stdpp Require Import base tactics list gmap option numbers ssreflect.
From S2P Require Import Prelude Kern Synch SynchFacts.

Open Scope Z_scope.

(** ** The interface the lock operations promise *)

Class MonitorLaws {D} (mon : monitor D) := {
  law_acquire Inv t : typed Inv t Out None (m_acquire mon) (In Inv) None;
  law_release Inv t P : (∀ d, P d → Inv d) → typed Inv t (In P) None (m_release mon) Out None;
  law_wait Inv t P c : (∀ d, P d → Inv d) → typed Inv t (In P) None (m_wait mon c) (In Inv) None;
  law_signal Inv t P c : typed Inv t (In P) None (m_signal mon c) (In P) None;
  law_broadcast Inv t P c : typed Inv t (In P) None (m_broadcast mon c) (In P) None
}.

(** A typing derivation follows the statements. *)
Ltac solve_assert :=
  let x := fresh in
  intros x; rw /= /is_held /not_held /held_by_cur /not_by_cur /some_holder ?/Dvz.lock_do_i_hold ?/Proj2.not_do_i_hold
    ?/Proj2.lock_do_i_hold /held_by_cur; intros;
  repeat match goal with H : _ ∧ _ |- _ => destruct H end;
  repeat match goal with H : lock_held x = _ |- _ => rw H | H : thread_holder x = _ |- _ => rw H end;
  rewrite ?bool_decide_eq_true; try done; rewrite bool_decide_eq_false_2 ?andb_false_r; done.

Ltac type_code :=
  lazymatch goal with
  | |- typed _ _ _ _ [] _ _ => apply ty_nil
  | |- typed _ _ _ _ (Kassert _ :: _) _ _ => apply ty_assert; [solve_assert|type_code]
  | |- typed _ _ Out _ (SpinAcquire TheLock :: _) _ _ => apply ty_spin; type_code
  | |- typed _ _ (In _) _ (SpinAcquire TheLock :: _) _ _ => apply ty_spin_in; type_code
  | |- typed _ _ _ _ (While is_held _ :: _) _ _ => apply ty_test; type_code
  | |- typed _ _ _ _ (Assign hold :: _) _ _ => apply ty_hold; type_code
  | |- typed _ _ _ _ (Assign hold_by :: _) _ _ => apply ty_hold_by; type_code
  | |- typed _ _ (Locked _) _ (SpinRelease TheLock :: _) _ _ => apply ty_enter; type_code
  | |- typed _ _ _ _ (Assign unhold :: _) _ _ => apply ty_unhold; [done|type_code]
  | |- typed _ _ _ _ (Assign unhold_by :: _) _ _ => apply ty_unhold_by; type_code
  | |- typed _ _ _ _ (WakeOne TheLock :: _) _ _ => apply ty_wake; type_code
  | |- typed _ _ Woken _ (SpinRelease TheLock :: _) _ _ => apply ty_leave; type_code
  | |- typed _ _ _ _ (SpinAcquire (Cond _) :: _) _ _ => apply ty_cv_spin; [done|type_code]
  | |- typed _ _ _ _ (SpinRelease (Cond _) :: _) _ _ => apply ty_cv_unspin; [done|type_code]
  | |- typed _ _ _ _ (Sleep (Cond _) :: _) _ _ => apply ty_cv_sleep; type_code
  | |- typed _ _ _ _ (WakeOne (Cond _) :: _) _ _ => apply ty_cv_wake; [done|type_code]
  | |- typed _ _ _ _ (WakeAll (Cond _) :: _) _ _ => apply ty_cv_wake_all; [done|type_code]
  end.

#[export] Instance dvz_laws {D} : MonitorLaws (Dvz.synch (D := D)).
Proof. split; intros; rw /= ?/Dvz.cv_wait ?/Dvz.lock_release ?/Dvz.lock_acquire ?/Dvz.cv_signal ?/Dvz.cv_broadcast /=; type_code. Qed.

#[export] Instance proj2_laws {D} : MonitorLaws (Proj2.synch (D := D)).
Proof.
  split; intros; rw /= ?/Proj2.cv_wait ?/Proj2.lock_release ?/Proj2.lock_acquire ?/Proj2.cv_signal ?/Proj2.cv_broadcast /=; type_code.
Qed.

(** ** Clients *)

(** What a thread does while it holds the lock, and a thread: a list of
    critical sections. *)
Inductive act (D : Type) : Type :=
| Do (f : loc → D → D)
| WaitWhile (b : D → bool) (cv : loc)
| Signal (cv : loc)
| Broadcast (cv : loc).
Arguments Do {D}.
Arguments WaitWhile {D}.
Arguments Signal {D}.
Arguments Broadcast {D}.

Section clients.
Context {D : Type} (mon : monitor D).

Definition act_code (a : act D) : list (lock_stm D) :=
  match a with
  | Do f => [Assign (on_data f)]
  | WaitWhile b cv => [While (data_test b) (m_wait mon cv)]
  | Signal cv => m_signal mon cv
  | Broadcast cv => m_broadcast mon cv
  end.

Fixpoint acts_code (acts : list (act D)) : list (lock_stm D) :=
  match acts with [] => [] | a :: acts' => act_code a ++ acts_code acts' end.

Fixpoint client_code (secs : list (list (act D))) : list (lock_stm D) :=
  match secs with
  | [] => []
  | acts :: secs' => m_acquire mon ++ acts_code acts ++ m_release mon ++ client_code secs'
  end.
End clients.

(** The threads at their start, the lock free. *)
Definition start {D} (d : D) (codes : gmap loc (list (lock_stm D))) : mach object (lockmem D) :=
  Mach (LockMem false None d) ∅ ∅ (Thread Ready <$> codes).

Section facts.
Context {D : Type} (Inv : D → Prop).

Lemma start_consistent (d : D) codes : consistent (start d codes).
Proof.
  split.
  - intros o. rw /queue lookup_empty. apply NoDup_nil_2.
  - intros o t. rw /queue lookup_empty. split; [by intros ?%not_elem_of_nil|].
    intros (th & Hth & Hs). simpl in Hth. apply lookup_fmap_Some in Hth as (k & <- & _). done.
  - done.
Qed.

Lemma start_mutex (d : D) codes :
  Inv d → (∀ t k, codes !! t = Some k → typed Inv t Out None k Out None) → mutex Inv (λ _, (Out, None)) (start d codes).
Proof.
  intros Hd Hc. split; simpl; [|done|by split|done|by left].
  intros t th Hth. apply lookup_fmap_Some in Hth as (k & <- & Hk). split; [by apply Hc| |done]. by split.
Qed.

(** In every state they can reach. *)
Lemma reach_mutex (d : D) codes m :
  Inv d → (∀ t k, codes !! t = Some k → typed Inv t Out None k Out None) → reach (start d codes) m →
  consistent m ∧ ∃ S, mutex Inv S m.
Proof.
  intros Hd Hc. induction 1 as [|m t m' _ [Hcon [S Hm]] Hs].
  - split; [apply start_consistent|]. eexists. by apply start_mutex.
  - split; [by eapply step_consistent|]. rw /step in Hs. destruct (threads m !! t) as [[[|] k]|] eqn:Ht; [|done..].
    destruct (mx_threads _ _ _ Hm _ _ Ht) as [Hty _ _]. destruct (S t) as [st h] eqn:HS.
    pose proof (typed_step _ _ _ _ _ _ _ _ Hty eq_refl eq_refl S HS Hcon Hm Ht) as Hgood.
    rw /step Ht in Hgood. by rw Hs in Hgood.
Qed.

Lemma mutex_no_panic S m t : consistent m → mutex Inv S m → step t m ≠ Panics.
Proof.
  intros Hcon Hm Hs. destruct (threads m !! t) as [[[|] k]|] eqn:Ht; [|by rw /step Ht in Hs..].
  destruct (mx_threads _ _ _ Hm _ _ Ht) as [Hty _ _]. destruct (S t) as [st h] eqn:HS.
  pose proof (typed_step _ _ _ _ _ _ _ _ Hty eq_refl eq_refl S HS Hcon Hm Ht) as Hgood. by rw Hs in Hgood.
Qed.
End facts.

(** ** No thread is left behind *)

Section progress.
Context {D : Type} (Inv : D → Prop).

Lemma waits_spin {O Mem} `{Countable O} (m : mach O Mem) t c k :
  threads m !! t = Some (Thread Ready (c :: k)) → step t m = Waits →
  ∃ o t', c = SpinAcquire o ∧ spins m !! o = Some t'.
Proof.
  intros Ht. rw /step Ht. destruct c as [o|o|o|o|o|b|f|b body]; [|by try case_match..].
  destruct (spins m !! o) as [t'|] eqn:Ho; [|done]. intros _. by exists o, t'.
Qed.

Context (S : loc → status (D := D) * option loc) (m : mach object (lockmem D)).
Context (Hcon : consistent m) (Hm : mutex Inv S m) (Hstuck : ∀ t, step t m = Waits).

(** Without spinlocks taken only finished threads are stuck. *)
Lemma stuck_spin t th c k :
  threads m !! t = Some th → t_state th = Ready → todo th = c :: k → ∃ o t', c = SpinAcquire o ∧ spins m !! o = Some t'.
Proof. intros Ht Hr Hk. destruct th as [s l]. simpl in *. subst. by eapply waits_spin. Qed.

Lemma asleep_status t th o : threads m !! t = Some th → t_state th = Sleeps o → S t = (Out, None).
Proof. intros Ht Hs. by destruct (pl_asleep _ _ _ _ _ (mx_threads _ _ _ Hm _ _ Ht) _ Hs). Qed.

Lemma no_lock_spin : spins m !! TheLock = None.
Proof.
  destruct (spins m !! TheLock) as [t|] eqn:Ho; [exfalso|done]. destruct (q_spins _ Hcon _ _ Ho) as [th Ht].
  destruct (mx_threads _ _ _ Hm _ _ Ht) as [Hty Hloc _]. pose proof (proj1 (l_spin _ _ _ _ Hloc) Ho) as Hs.
  destruct (typed_spinning _ _ _ _ _ Hty Hs) as (c & k & Hk & Hc).
  destruct (t_state th) as [|o] eqn:Hr; [|by rw (asleep_status _ _ _ Ht Hr) in Hs].
  destruct (stuck_spin _ _ _ _ Ht Hr Hk) as (o & t' & -> & _). by apply (Hc o).
Qed.

Lemma no_cv_spin c : spins m !! Cond c = None.
Proof.
  destruct (spins m !! Cond c) as [t|] eqn:Ho; [exfalso|done]. destruct (q_spins _ Hcon _ _ Ho) as [th Ht].
  destruct (mx_threads _ _ _ Hm _ _ Ht) as [Hty Hloc _]. pose proof (proj1 (l_cv _ _ _ _ Hloc c) Ho) as Hs.
  destruct (t_state th) as [|o] eqn:Hr; [|by rw (asleep_status _ _ _ Ht Hr) in Hs].
  rw Hs in Hty. destruct (typed_in_cv _ _ _ _ _ Hty) as (s & k & Hk & Hc).
  destruct (stuck_spin _ _ _ _ Ht Hr Hk) as ([|c'] & t' & -> & Hspin); [by rw no_lock_spin in Hspin|]. by apply (Hc c').
Qed.

Lemma stuck_done t th : threads m !! t = Some th → t_state th = Ready → todo th = [].
Proof.
  intros Ht Hr. destruct (todo th) as [|c k] eqn:Hk; [done|exfalso].
  destruct (stuck_spin _ _ _ _ Ht Hr Hk) as ([|o] & t' & _ & Hs); [by rw no_lock_spin in Hs|by rw no_cv_spin in Hs].
Qed.

(** Nobody sleeps on the lock. *)
Lemma stuck_no_sleeper t th : threads m !! t = Some th → t_state th ≠ Sleeps TheLock.
Proof.
  intros Ht Hs. assert (t ∈ queue TheLock m) as Hq by by apply (q_state _ Hcon); exists th.
  destruct (mx_hot _ _ _ Hm) as [E|[Hh|(t0 & th0 & Ht0 & Hr0 & Hhot)]]; [by rw E in Hq; apply not_elem_of_nil in Hq|..].
  - apply (mx_idle _ _ _ Hm no_lock_spin) in Hh. destruct (thread_holder (mem m)) as [t0|] eqn:Hho; [|done].
    destruct (mx_holder _ _ _ Hm _ Hho) as [th0 Ht0].
    destruct (mx_threads _ _ _ Hm _ _ Ht0) as [Hty [Hf Hsp _ _] _]. destruct (t_state th0) as [|o] eqn:Hr0.
    + rw no_lock_spin in Hsp. pose proof (stuck_done _ _ Ht0 Hr0) as Hk. rw Hk in Hty.
      destruct (S t0) as [[] h] eqn:HS; simpl in *; try (by destruct Hsp as [_ Hsp]; discriminate (Hsp eq_refl)).
      * by rw Hho in Hf.
      * by apply typed_in in Hty.
    + rw (asleep_status _ _ _ Ht0 Hr0) /= in Hf. by rw Hho in Hf.
  - destruct (mx_threads _ _ _ Hm _ _ Ht0) as [_ [_ Hsp _ _] _]. rw no_lock_spin in Hsp.
    rw (stuck_done _ _ Ht0 Hr0) in Hhot. destruct (S t0) as [[] h] eqn:HS; simpl in *;
      try (by destruct Hsp as [_ Hsp]; discriminate (Hsp eq_refl)); [by destruct Hhot|done].
Qed.
End progress.

(** ** The two kernels *)

Inductive kernel : Type := Main | Proj12.
Definition kernel_synch {D} (k : kernel) : monitor D := match k with Main => Dvz.synch | Proj12 => Proj2.synch end.
#[export] Instance kernel_laws {D} k : MonitorLaws (kernel_synch (D := D) k).
Proof. destruct k; apply _. Qed.

Lemma acts_typed {D} (mon : monitor D) `{!MonitorLaws mon} t acts :
  typed (λ _, True) t (In (λ _, True)) None (acts_code mon acts) (In (λ _, True)) None.
Proof.
  induction acts as [|a acts IH]; simpl; [apply ty_nil|]. eapply typed_app; [|exact IH]. destruct a as [f|b c|c|c]; simpl.
  - by eapply ty_data; [|apply ty_nil].
  - eapply ty_while; [by apply law_wait|]. by eapply ty_weaken; [|apply ty_nil].
  - apply law_signal.
  - apply law_broadcast.
Qed.

Lemma client_typed {D} (mon : monitor D) `{!MonitorLaws mon} t secs :
  typed (λ _, True) t Out None (client_code mon secs) Out None.
Proof.
  induction secs as [|acts secs IH]; simpl; [apply ty_nil|]. eapply typed_app; [apply law_acquire|].
  eapply typed_app; [by apply acts_typed|]. eapply typed_app; [by apply law_release|done].
Qed.

(** Any number of threads, each with its critical sections. *)
Definition clients {D} (k : kernel) (d : D) (cls : gmap loc (list (list (act D)))) : mach object (lockmem D) :=
  start d (client_code (kernel_synch k) <$> cls).

Lemma clients_mutex {D} k (d : D) cls m :
  reach (clients k d cls) m → consistent m ∧ ∃ S, mutex (λ _, True) S m.
Proof.
  apply reach_mutex; [done|]. intros t c Hc. apply lookup_fmap_Some in Hc as (secs & <- & _). apply client_typed, _.
Qed.

(** C1: mutual exclusion.  Whatever critical sections any number of threads
    run, in either kernel and under any interleaving: no assertion of the lock
    and condition variable code ever fails (none releases a lock that is not
    its own, none sleeps without its spinlock, ...), and a thread that is about
    to use the protected data has the lock, which records it as its holder; so
    no two threads ever are. *)
Theorem synch_mutual_exclusion {D} k (d : D) cls m t th :
  reach (clients k d cls) m → threads m !! t = Some th →
  step t m ≠ Panics ∧
  (touches (todo th) → lock_held (mem m) = true ∧ thread_holder (mem m) = Some t).
Proof.
  intros [Hcon [S Hm]]%clients_mutex Ht. split; [by eapply mutex_no_panic|]. intros Htouch.
  destruct (mx_threads _ _ _ Hm _ _ Ht) as [Hty [Hf _ _ _] _].
  destruct (typed_touches _ (data (mem m)) _ _ _ _ _ _ Hty Htouch) as [P HP]. by rw HP in Hf.
Qed.

(** C2: no wakeup is lost.  A state in which no thread can make a step is one
    in which every thread has finished or sleeps on a condition variable: the
    lock is never left free, nor held by a thread that is gone, while threads
    wait for it.  Threads that use no condition variable are never stuck. *)
Theorem synch_no_lost_wakeup {D} k (d : D) cls m t th :
  reach (clients k d cls) m → (∀ t', step t' m = Waits) → threads m !! t = Some th →
  todo th = [] ∨ ∃ c, t_state th = Sleeps (Cond c).
Proof.
  intros [Hcon [S Hm]]%clients_mutex Hstuck Ht. destruct (t_state th) as [|[|c]] eqn:Hs.
  - left. by eapply stuck_done.
  - by destruct (stuck_no_sleeper _ _ _ Hcon Hm Hstuck _ _ Ht).
  - right. by exists c.
Qed.

(** ** Witnesses *)

Lemma run_reach {O Mem} `{Countable O} (m0 : mach O Mem) sched m m' :
  reach m0 m → run sched m = Next m' → reach m0 m'.
Proof.
  revert m. induction sched as [|t sched IH]; simpl; intros m Hr; [by intros [= <-]|].
  destruct (step t m) as [m1| |] eqn:Hs; [|by apply IH|done]. apply IH. by eapply reach_step.
Qed.

(** Where a schedule leads. *)
Definition run_to {O Mem} `{Countable O} (sched : list loc) (m : mach O Mem) : mach O Mem :=
  match run sched m with Next m' => m' | _ => m end.
Definition runs {O Mem} `{Countable O} (sched : list loc) (m : mach O Mem) : bool :=
  match run sched m with Next _ => true | _ => false end.
Lemma run_to_reach {O Mem} `{Countable O} (m : mach O Mem) sched : runs sched m = true → reach m (run_to sched m).
Proof.
  rw /runs /run_to. destruct (run sched m) as [m'| |] eqn:Hr; [|done..]. intros _. eapply run_reach; [apply reach_refl|done].
Qed.

(** All threads finished or asleep. *)
Definition idle {O Mem} `{Countable O} (m : mach O Mem) : bool :=
  forallb (λ x, match x.2 with Thread Ready (_ :: _) => false | _ => true end) (map_to_list (threads m)).
Lemma idle_waits {O Mem} `{Countable O} (m : mach O Mem) : idle m = true → ∀ t, step t m = Waits.
Proof.
  rw /idle -Is_true_true forallb_True Forall_forall. intros Hi t. rw /step.
  destruct (threads m !! t) as [[[|] [|c k]]|] eqn:Ht; try done.
  apply elem_of_map_to_list in Ht. by specialize (Hi _ Ht).
Qed.

(** Two threads that count; the first is about to add one, the second waits. *)
Definition counters : mach object (lockmem Z) :=
  clients Main 0 {[1%positive := [[Do (λ _, Z.add 1)]]; 2%positive := [[Do (λ _, Z.add 1)]]]}.
Definition counting : mach object (lockmem Z) :=
  run_to [1; 1; 1; 1; 1; 1; 1; 2; 2; 2]%positive counters.
Definition todo_of (t : loc) (m : mach object (lockmem Z)) : list (lock_stm Z) :=
  match threads m !! t with Some th => todo th | None => [] end.
Definition thread_of (t : loc) (m : mach object (lockmem Z)) : thread object (lockmem Z) :=
  default (Thread Ready []) (threads m !! t).

Lemma synch_mutual_exclusion_witness :
  touches (todo (thread_of 1 counting)) ∧ thread_holder (mem counting) = Some 1%positive ∧
  t_state (thread_of 2 counting) = Sleeps TheLock.
Proof.
  assert (touches (todo (thread_of 1 counting))) as Ht by (left; exists (λ _, Z.add 1); eexists; vm_compute; reflexivity).
  split; [done|]. split; [|by vm_compute].
  assert (reach counters counting) as Hr by (apply run_to_reach; by vm_compute).
  assert (threads counting !! 1%positive = Some (thread_of 1 counting)) as E by by vm_compute.
  exact (proj2 (proj2 (synch_mutual_exclusion Main 0 _ counting 1 _ Hr E) Ht)).
Defined.

(** One thread waits for a sign that nobody gives; the other is finished. *)
Definition waiters : mach object (lockmem Z) :=
  clients Proj12 0 {[1%positive := [[WaitWhile (Z.eqb 0) 7]]; 2%positive := [[Do (λ _, Z.add 0)]]]}.
Definition waiting : mach object (lockmem Z) :=
  run_to (replicate 20 1%positive ++ replicate 17 2%positive) waiters.

Lemma synch_no_lost_wakeup_witness :
  todo (thread_of 1 waiting) = [] ∨ ∃ c, t_state (thread_of 1 waiting) = Sleeps (Cond c).
Proof.
  assert (reach waiters waiting) as Hr by (apply run_to_reach; by vm_compute).
  assert (threads waiting !! 1%positive = Some (thread_of 1 waiting)) as E by by vm_compute.
  assert (∀ t, step t waiting = Waits) as Hw by (apply idle_waits; by vm_compute).
  exact (synch_no_lost_wakeup Proj12 0 _ waiting 1 _ Hr Hw E).
Defined.
