(* ===== verification/SharedBuffer.v ===== *)
(** * The shared buffer: kern/shared_buffer/shared_buffer.c

    The bounded buffer of both kernels, a monitor on the lock and the condition
    variables of Synch.v, and the theorem that it is a FIFO queue for any number
    of producers and consumers. *)

From stdpp Require Import base tactics list gmap option numbers ssreflect.
From S2P Require Import Prelude Kern Synch SynchFacts SynchThms.

Open Scope Z_scope.

(** ** The buffer *)

(** The fields of the structure that change, the local variable each consumer
    returns, and what no code reads: the items put and taken so far, and whether
    an index has left the array. *)
Record Shared_Buffer := SharedBuffer {
  counter : Z;
  buffer : list Z;
  BUFF_SIZE : Z;
  in_ : Z;
  out : Z;
  ret : gmap loc Z;
  puts : list Z;
  gots : list Z;
  stray : bool
}.

Definition shared_buffer (size : nat) (junk : list Z) : Shared_Buffer :=
  SharedBuffer 0 junk (Z.of_nat size) 0 0 ∅ [] [] false.

(** An index outside the array. *)
Definition off (i : Z) (d : Shared_Buffer) : bool := bool_decide (i < 0 ∨ i >= Z.of_nat (length (buffer d))).

(** [sb->buffer[sb->in] = c]. *)
Definition store (c : Z) (_ : loc) (d : Shared_Buffer) : Shared_Buffer :=
  SharedBuffer (counter d) (<[Z.to_nat (in_ d) := c]> (buffer d)) (BUFF_SIZE d) (in_ d) (out d) (ret d)
    (puts d ++ [c]) (gots d) (stray d || off (in_ d) d).
(** [ret = sb->buffer[sb->out]]. *)
Definition fetch (t : loc) (d : Shared_Buffer) : Shared_Buffer :=
  let c := default 0 (buffer d !! Z.to_nat (out d)) in
  SharedBuffer (counter d) (buffer d) (BUFF_SIZE d) (in_ d) (out d) (<[t := c]> (ret d))
    (puts d) (gots d ++ [c]) (stray d || off (out d) d).
(** [(i + 1) % sb->BUFF_SIZE]. *)
Definition next_index (i : Z) (d : Shared_Buffer) : Z := Z.rem (s32 (i + 1)) (BUFF_SIZE d).
Definition next_in (_ : loc) (d : Shared_Buffer) : Shared_Buffer :=
  SharedBuffer (counter d) (buffer d) (BUFF_SIZE d) (next_index (in_ d) d) (out d) (ret d) (puts d) (gots d) (stray d).
Definition next_out (_ : loc) (d : Shared_Buffer) : Shared_Buffer :=
  SharedBuffer (counter d) (buffer d) (BUFF_SIZE d) (in_ d) (next_index (out d) d) (ret d) (puts d) (gots d) (stray d).
Definition count (n : Z) (_ : loc) (d : Shared_Buffer) : Shared_Buffer :=
  SharedBuffer (s32 (counter d + n)) (buffer d) (BUFF_SIZE d) (in_ d) (out d) (ret d) (puts d) (gots d) (stray d).

Definition is_full (d : Shared_Buffer) : bool := bool_decide (counter d = BUFF_SIZE d).
Definition is_empty (d : Shared_Buffer) : bool := bool_decide (counter d = 0).

Definition prod_cv : loc := 1%positive.
Definition cons_cv : loc := 2%positive.

Section code.
Context (mon : monitor Shared_Buffer).

(** [thread_yield] is a step of the other threads. *)
Definition produce_code (c : Z) : list (lock_stm Shared_Buffer) :=
  m_acquire mon ++
  [While (data_test is_full) (m_wait mon prod_cv);
   Assign (on_data (store c));
   Assign (on_data next_in);
   Assign (on_data (count 1))] ++
  m_signal mon cons_cv ++
  m_release mon.

Definition consume_code : list (lock_stm Shared_Buffer) :=
  m_acquire mon ++
  [While (data_test is_empty) (m_wait mon cons_cv);
   Assign (on_data fetch);
   Assign (on_data next_out);
   Assign (on_data (count (-1)))] ++
  m_signal mon prod_cv ++
  m_release mon.
End code.

(** os161-dvz-main. *)
Definition put_char_to_buff (c : Z) : list (lock_stm Shared_Buffer) := produce_code Dvz.synch c.
Definition get_char_from_buff : list (lock_stm Shared_Buffer) := consume_code Dvz.synch.

(** os161-vud-proj1-proj2: items are pointers; what is printed is left out. *)
Definition shared_buffer_produce (data : Z) : list (lock_stm Shared_Buffer) := produce_code Proj2.synch data.
Definition shared_buffer_consume : list (lock_stm Shared_Buffer) := consume_code Proj2.synch.

(** A thread that produces or consumes. *)
Inductive request : Type := Put (c : Z) | Get.
Definition request_code (k : kernel) (r : request) : list (lock_stm Shared_Buffer) :=
  match k, r with
  | Main, Put c => put_char_to_buff c
  | Main, Get => get_char_from_buff
  | Proj12, Put c => shared_buffer_produce c
  | Proj12, Get => shared_buffer_consume
  end.
Fixpoint requests_code (k : kernel) (rs : list request) : list (lock_stm Shared_Buffer) :=
  match rs with [] => [] | r :: rs' => request_code k r ++ requests_code k rs' end.

(** ** A bounded FIFO queue *)

(** The items in the buffer, oldest first. *)
Definition items (d : Shared_Buffer) : list Z :=
  (λ i, default 0 (buffer d !! Z.to_nat ((out d + Z.of_nat i) mod BUFF_SIZE d))) <$> seq 0 (Z.to_nat (counter d)).

Record bounded_queue (size : nat) (d : Shared_Buffer) : Prop := {
  bq_size : BUFF_SIZE d = Z.of_nat size;
  bq_length : length (buffer d) = size;
  bq_counter : 0 ≤ counter d ≤ Z.of_nat size;
  bq_out : 0 ≤ out d < Z.of_nat size;
  bq_in : in_ d = (out d + counter d) mod Z.of_nat size;
  bq_fifo : puts d = gots d ++ items d;
  bq_stray : stray d = false
}.

Section queue.
Context (size : nat) (Hsize : 0 < Z.of_nat size < 2 ^ 31).

Lemma next_index_mod i d : BUFF_SIZE d = Z.of_nat size → 0 ≤ i < Z.of_nat size → next_index i d = (i + 1) mod Z.of_nat size.
Proof. intros Hb Hi. rw /next_index Hb s32_small; [|lia]. apply Z.rem_mod_nonneg; lia. Qed.

Lemma mod_wrap x : 0 ≤ x < 2 * Z.of_nat size → x mod Z.of_nat size = if decide (x < Z.of_nat size) then x else x - Z.of_nat size.
Proof.
  intros Hx. destruct (decide _); [by apply Z.mod_small; lia|].
  symmetry. apply (Z.mod_unique_pos _ _ 1); lia.
Qed.

Lemma mod_succ a b : (a mod Z.of_nat size + b) mod Z.of_nat size = (a + b) mod Z.of_nat size.
Proof. apply Z.add_mod_idemp_l. lia. Qed.

(** A put appends an item, *)
Lemma items_store c t d :
  bounded_queue size d → counter d < Z.of_nat size → items (count 1 t (next_in t (store c t d))) = items d ++ [c].
Proof.
  intros [Hs Hl Hc Ho Hi Hf Hst] Hlt. rw /items /= s32_small; [|lia].
  replace (Z.to_nat (counter d + 1)) with (S (Z.to_nat (counter d))) by lia.
  rw seq_S fmap_app /= Hs Hi. f_equal.
  - apply list_fmap_ext. intros j i Hj. apply lookup_seq in Hj as [-> Hj]. simpl.
    rw list_lookup_insert_ne; [done|]. rw !mod_wrap; try lia. repeat destruct (decide _); lia.
  - replace (0 + Z.to_nat (counter d))%nat with (Z.to_nat (counter d)) by lia. rw Z2Nat.id; [|lia].
    rw list_lookup_insert_eq; [done|]. pose proof (Z.mod_pos_bound (out d + counter d) (Z.of_nat size)). lia.
Qed.

Lemma produce_keeps c t d :
  bounded_queue size d → is_full d = false → bounded_queue size (count 1 t (next_in t (store c t d))).
Proof.
  intros Hd Hfull. pose proof Hd as [Hs Hl Hc Ho Hi Hf Hst]. apply bool_decide_eq_false in Hfull. rw Hs in Hfull.
  assert (0 ≤ in_ d < Z.of_nat size) as Hin by by rw Hi; apply Z.mod_pos_bound; lia.
  assert (s32 (counter d + 1) = counter d + 1) as Hc1 by by apply s32_small; lia.
  split; [done|by rw /= length_insert|rw /= Hc1; lia|done| | |].
  - rw /= next_index_mod // Hc1 Hi mod_succ. f_equal. lia.
  - rw items_store // /=; [|lia]. by rw Hf app_assoc.
  - rw /= Hst /= /off bool_decide_eq_false. lia.
Qed.

(** a get takes the first one. *)
Lemma items_fetch t d :
  bounded_queue size d → 0 < counter d →
  items d = default 0 (buffer d !! Z.to_nat (out d)) :: items (count (-1) t (next_out t (fetch t d))).
Proof.
  intros [Hs Hl Hc Ho Hi Hf Hst] Hlt. rw /items /= s32_small; [|lia].
  replace (Z.to_nat (counter d)) with (S (Z.to_nat (counter d + -1))) by lia.
  rw /= next_index_mod // Hs Z.add_0_r Z.mod_small //. f_equal.
  match goal with |- list_fmap _ _ ?f ?l = _ => change (list_fmap _ _ f l) with (f <$> l) end.
  rw -fmap_S_seq -list_fmap_compose. apply list_fmap_ext. intros j i Hj. simpl. do 3 f_equal. rw mod_succ. f_equal. lia.
Qed.

Lemma consume_keeps t d :
  bounded_queue size d → is_empty d = false → bounded_queue size (count (-1) t (next_out t (fetch t d))).
Proof.
  intros Hd Hempty. pose proof Hd as [Hs Hl Hc Ho Hi Hf Hst]. apply bool_decide_eq_false in Hempty.
  assert (s32 (counter d + -1) = counter d + -1) as Hc1 by by apply s32_small; lia.
  split; [done|done|rw /= Hc1; lia|rw /= next_index_mod //; apply Z.mod_pos_bound; lia| | |].
  - rw /= next_index_mod // Hc1 Hi mod_succ. f_equal. lia.
  - rw Hf (items_fetch t) //; [|lia]. simpl. by rw -app_assoc.
  - rw /= Hst /= /off bool_decide_eq_false. lia.
Qed.

(** ** The code is typed *)

Lemma produce_typed (mon : monitor Shared_Buffer) `{!MonitorLaws mon} t c :
  typed (bounded_queue size) t Out None (produce_code mon c) Out None.
Proof.
  rw /produce_code. eapply typed_app; [apply law_acquire|]. simpl. apply ty_while; [by apply law_wait; intros d [? _]|].
  eapply (ty_data _ _ _ (λ d, bounded_queue size (count 1 t (next_in t d)))); [intros d [Hd Hf]; by apply produce_keeps|].
  eapply (ty_data _ _ _ (λ d, bounded_queue size (count 1 t d))); [done|].
  eapply (ty_data _ _ _ (bounded_queue size)); [done|]. eapply typed_app; [apply law_signal|by apply law_release].
Qed.

Lemma consume_typed (mon : monitor Shared_Buffer) `{!MonitorLaws mon} t :
  typed (bounded_queue size) t Out None (consume_code mon) Out None.
Proof.
  rw /consume_code. eapply typed_app; [apply law_acquire|]. simpl. apply ty_while; [by apply law_wait; intros d [? _]|].
  eapply (ty_data _ _ _ (λ d, bounded_queue size (count (-1) t (next_out t d)))); [intros d [Hd Hf]; by apply consume_keeps|].
  eapply (ty_data _ _ _ (λ d, bounded_queue size (count (-1) t d))); [done|].
  eapply (ty_data _ _ _ (bounded_queue size)); [done|]. eapply typed_app; [apply law_signal|by apply law_release].
Qed.

Lemma requests_typed k t rs : typed (bounded_queue size) t Out None (requests_code k rs) Out None.
Proof.
  induction rs as [|r rs IH]; simpl; [apply ty_nil|]. eapply typed_app; [|exact IH].
  destruct k, r; by first [apply produce_typed, _|apply consume_typed, _].
Qed.

Lemma fresh_buffer junk : length junk = size → bounded_queue size (shared_buffer size junk).
Proof. intros Hj. split; simpl; try done; try lia. Qed.
End queue.

(** What the users can see. *)
Definition fifo (size : nat) (d : Shared_Buffer) : Prop :=
  puts d = gots d ++ items d ∧ Z.of_nat (length (items d)) = counter d ∧ 0 ≤ counter d ≤ Z.of_nat size ∧ stray d = false.

(** C6: the buffer is a bounded FIFO queue, whoever uses it.  With any number
    of producers and consumers, in either kernel and under any interleaving, no
    assertion fails and, whenever the lock is free: what the consumers have
    taken, followed by what is in the buffer, is what the producers have put,
    in order; the buffer holds [counter] items, at most its size; and no access
    has been outside the array. *)
Theorem shared_buffer_fifo k size junk (reqs : gmap loc (list request)) m :
  0 < Z.of_nat size < 2 ^ 31 → length junk = size →
  reach (start (shared_buffer size junk) (requests_code k <$> reqs)) m →
  (∀ t, step t m ≠ Panics) ∧
  (lock_held (mem m) = false → fifo size (data (mem m))).
Proof.
  intros Hsize Hj Hr. apply (reach_mutex (bounded_queue size)) in Hr as [Hcon [S Hm]].
  - split; [intros t; by eapply mutex_no_panic|]. intros [Hs Hl Hc Ho Hi Hf Hst]%(mx_free _ _ _ Hm).
    split; [done|]. split; [|done]. rw /items length_fmap length_seq. lia.
  - by apply fresh_buffer.
  - intros t c Hc. apply lookup_fmap_Some in Hc as (rs & <- & _). by apply requests_typed.
Qed.

(** Two producers and a consumer on a buffer of one place. *)
Definition buffer_users : mach object (lockmem Shared_Buffer) :=
  start (shared_buffer 1 [0]) (requests_code Main <$>
    {[1%positive := [Put 97]; 2%positive := [Put 98]; 3%positive := [Get; Get]]}).
Definition buffer_used : mach object (lockmem Shared_Buffer) :=
  run_to (replicate 50 1%positive ++ replicate 50 2%positive ++ replicate 99 3%positive ++ replicate 50 2%positive) buffer_users.

Lemma shared_buffer_fifo_witness : fifo 1 (data (mem buffer_used)) ∧ gots (data (mem buffer_used)) = [97].
Proof.
  assert (reach buffer_users buffer_used) as Hr by (apply run_to_reach; by vm_compute).
  assert (lock_held (mem buffer_used) = false) as Hh by by vm_compute.
  assert (0 < Z.of_nat 1 < 2 ^ 31) as Hsize by lia.
  split; [|by vm_compute]. exact (proj2 (shared_buffer_fifo Main 1 [0] _ buffer_used Hsize eq_refl Hr) Hh).
Defined.
