(* ===== verification/Semaphore.v ===== *)
(** * Theorems on semaphores

    The count of a semaphore under any number of threads that run [P] and [V]
    of Synch.v in any interleaving. *)

From stdpp Require Import base tactics list gmap option numbers ssreflect.
From S2P Require Import Prelude Kern Synch SynchFacts SynchThms.

Open Scope Z_scope.

(** A thread's calls. *)
Inductive semop : Type := Down | Up.
Definition op_code (o : semop) : list sem_stm := match o with Down => P | Up => V end.
Fixpoint ops_code (ops : list semop) : list sem_stm :=
  match ops with [] => [] | o :: ops' => op_code o ++ ops_code ops' end.

(** The threads at their start. *)
Definition sem_start (n : Z) (progs : gmap loc (list semop)) : mach unit semmem :=
  Mach (SemMem n 0 0) ∅ ∅ ((λ ops, Thread Ready (ops_code ops)) <$> progs).

Section sem.
Context (init : Z) (Hinit : 0 ≤ init < 2 ^ 32).
Abbreviation smach := (mach unit semmem).

(** What the count should be. *)
Definition level (m : semmem) : Z := init + ups m - downs m.

Definition exact (m : semmem) : Prop := sem_count m = level m ∧ 0 ≤ level m < 2 ^ 32.

(** How far the code left is from the start of a call, and what holds of the
    memory there; the spinlock is taken in between. *)
Inductive at_ (m : semmem) : bool → list sem_stm → Prop :=
| at_start ops : at_ m false (ops_code ops)
| at_test ops : exact m → at_ m true (drop 1 P ++ ops_code ops)
| at_sleep ops : exact m → at_ m true (Sleep tt :: drop 1 P ++ ops_code ops)
| at_assert ops : exact m → 0 < level m → at_ m true (drop 2 P ++ ops_code ops)
| at_down ops : exact m → 0 < level m → at_ m true (drop 3 P ++ ops_code ops)
| at_release ops : exact m → at_ m true (drop 4 P ++ ops_code ops)
| at_up ops : exact m → at_ m true (drop 1 V ++ ops_code ops)
| at_check ops : sem_count m = u32 (level m) → 0 < level m ≤ 2 ^ 32 → at_ m true (drop 2 V ++ ops_code ops)
| at_wake ops : exact m → at_ m true (drop 3 V ++ ops_code ops).

Record sem_inv (m : smach) : Prop := {
  si_threads : ∀ t th, threads m !! t = Some th →
    ∃ b, (spins m !! tt = Some t ↔ b = true) ∧ at_ (mem m) b (todo th);
  si_free : spins m !! tt = None → exact (mem m)
}.

Lemma at_false m m' k : at_ m false k → at_ m' false k.
Proof. inversion 1. apply at_start. Qed.

(** A step of [t], which has the spinlock or takes it. *)
Lemma sem_step m m' t s k b :
  sem_inv m → threads m' !! t = Some (Thread s k) → (spins m' !! tt = Some t ↔ b = true) → at_ (mem m') b k →
  (∀ t2, t2 ≠ t → threads m' !! t2 = threads m !! t2 ∨ threads m' !! t2 = ready <$> threads m !! t2) →
  (∀ t2, t2 ≠ t → spins m !! tt ≠ Some t2 ∧ spins m' !! tt ≠ Some t2) →
  (spins m' !! tt = None → exact (mem m')) → sem_inv m'.
Proof.
  intros [Hth _] Ht Hs Hat Hrest Hspin Hfree. split; [|done]. intros t2 th2 Ht2. destruct (decide (t2 = t)) as [->|Hne].
  - rw Ht in Ht2. injection Ht2 as <-. by exists b.
  - assert (∃ th, threads m !! t2 = Some th ∧ todo th = todo th2) as (th & Hth2 & Htodo).
    { destruct (Hrest _ Hne) as [E|E]; rw E in Ht2; [by exists th2|]. apply fmap_Some in Ht2 as (th & -> & ->). by exists th. }
    destruct (Hth _ _ Hth2) as (b2 & Hb2 & Hat2). destruct (Hspin _ Hne) as [H1 H2]. exists false.
    destruct b2; [by destruct H1; apply Hb2|]. split; [by split|]. rewrite -Htodo. by eapply at_false.
Qed.

(** The count wraps around. *)
Definition overflown (m : semmem) : Prop := level m = 2 ^ 32.

Definition sem_good (m : smach) (e : effect unit semmem) : Prop :=
  match e with Next m' => sem_inv m' | Waits => True | Panics => overflown (mem m) end.

(** Going on with the spinlock held. *)
Lemma sem_go m t k : sem_inv m → spins m !! tt = Some t → at_ (mem m) true k → sem_inv (go t k m).
Proof.
  intros Hm Hs Hat. eapply (sem_step m _ t Ready k true); [done|by rw /= lookup_insert_eq|done|done| | |].
  - intros t2 Hne. left. by rw /= lookup_insert_ne.
  - intros t2 Hne. rw /= Hs. split; congruence.
  - by rw /= Hs.
Qed.

Lemma sem_assign m t x k : sem_inv m → spins m !! tt = Some t → at_ x true k → sem_inv (set_mem x (go t k m)).
Proof.
  intros Hm Hs Hat. eapply (sem_step m _ t Ready k true); [done|by rw /= lookup_insert_eq|done|done| | |].
  - intros t2 Hne. left. by rw /= lookup_insert_ne.
  - intros t2 Hne. rw /= Hs. split; congruence.
  - by rw /= Hs.
Qed.

Lemma sem_release m t k :
  sem_inv m → spins m !! tt = Some t → at_ (mem m) false k → exact (mem m) →
  sem_inv (set_spins (delete tt (spins m)) (go t k m)).
Proof.
  intros Hm Hs Hat He. eapply (sem_step m _ t Ready k false); [done|by rw /= lookup_insert_eq| |done| | |done].
  - by rw /= lookup_delete_eq.
  - intros t2 Hne. left. by rw /= lookup_insert_ne.
  - intros t2 Hne. rw /= Hs lookup_delete_eq. split; congruence.
Qed.

Lemma sem_acquire m t l k :
  sem_inv m → threads m !! t = Some (Thread Ready l) → spins m !! tt ≠ Some t → (exact (mem m) → at_ (mem m) true k) →
  sem_good m match spins m !! tt with
             | None => Next (set_spins (<[tt := t]> (spins m)) (go t k m))
             | Some t' => if bool_decide (t' = t) then Panics else Waits
             end.
Proof.
  intros Hm Ht Hno Hat. destruct (spins m !! tt) as [t'|] eqn:Hs.
  - rw bool_decide_eq_false_2; [done|]. intros ->. by apply Hno.
  - eapply (sem_step m _ t Ready k true); [done|by rw /= lookup_insert_eq| |by apply Hat, Hm| | |].
    + by rw /= lookup_insert_eq.
    + intros t2 Hne. left. by rw /= lookup_insert_ne.
    + intros t2 Hne. rw Hs /= lookup_insert_eq. split; congruence.
    + by rw /= lookup_insert_eq.
Qed.

Lemma sem_sleep m t k :
  sem_inv m → spins m !! tt = Some t → at_ (mem m) false (SpinAcquire tt :: k) → exact (mem m) →
  sem_good m (if holds_only tt t m then Next (sleep t tt k m) else Panics).
Proof.
  intros Hm Hs Hat He. assert (holds_only tt t m = true) as ->.
  { apply andb_true_iff. split; apply bool_decide_eq_true; [done|]. by intros [] ? ? ?. }
  eapply (sem_step m _ t _ _ false); [done|by rw /= lookup_insert_eq| |done| | |done].
  - by rw /= lookup_delete_eq.
  - intros t2 Hne. left. by rw /= lookup_insert_ne.
  - intros t2 Hne. rw /= Hs lookup_delete_eq. split; congruence.
Qed.

Lemma sem_wake m t k :
  sem_inv m → spins m !! tt = Some t → at_ (mem m) true k →
  sem_good m (if holds_spin tt t m then Next (wake_one tt (go t k m)) else Panics).
Proof.
  intros Hm Hs Hat. rw /holds_spin bool_decide_eq_true_2 //=. pose proof (sem_go _ _ _ Hm Hs Hat) as Hgo.
  rw /wake_one. destruct (queue tt (go t k m)) as [|t1 q]; [done|]. split; [|by rw /= Hs]. simpl.
  intros t2 th2 Ht2. destruct (decide (t1 = t2)) as [->|Hne].
  - rw lookup_alter_eq in Ht2. apply fmap_Some in Ht2 as (th & Hth & ->). by apply (si_threads _ Hgo) in Hth.
  - rw lookup_alter_ne // in Ht2. by apply (si_threads _ Hgo) in Ht2.
Qed.

Lemma step_good m t : sem_inv m → sem_good m (step t m).
Proof.
  intros Hm. destruct (threads m !! t) as [[[|] k]|] eqn:Ht; [|by rw /step Ht..].
  destruct (si_threads _ Hm _ _ Ht) as (b & Hb & Hat). rw /step Ht /=. simpl in Hat.
  inversion Hat as [ops Hk|ops He Hk|ops He Hk|ops He Hl Hk|ops He Hl Hk|ops He Hk|ops He Hk|ops He Hl Hk|ops He Hk];
    subst b; try (assert (spins m !! tt = Some t) as Hs by by apply Hb); simpl.
  - destruct ops as [|[] ops]; [done|..]; simpl;
      (eapply sem_acquire; [done|done|by intros ?%Hb|]; intros He).
    + by apply at_test.
    + by apply at_up.
  - rw /count_zero. destruct He as [Hc He]. bd_case (sem_count (mem m) = 0) as Hz.
    + apply sem_go; [done..|]. by apply at_sleep.
    + apply sem_go; [done..|]. apply at_assert; [done|lia].
  - apply sem_sleep; [done..| |done]. apply (at_start _ (Down :: ops)).
  - rw /count_positive bool_decide_eq_true_2; [|by destruct He; lia]. apply sem_go; [done..|]. by apply at_down.
  - apply sem_assign; [done..|]. apply at_release. destruct He as [Hc He]. rw /exact /level /= in Hc He Hl |- *.
    rw Hc u32_small; lia.
  - rw /holds_spin bool_decide_eq_true_2 //=. apply sem_release; [done..|apply at_start|done].
  - apply sem_assign; [done..|]. destruct He as [Hc He]. apply at_check; rw /level /= in Hc He |- *; [|lia].
    rw Hc. f_equal. lia.
  - rw /count_positive. bd_case (sem_count (mem m) > 0) as Hp.
    + apply sem_go; [done..|]. apply at_wake. rw /exact He. rw He /u32 in Hp.
      assert (level (mem m) ≠ 2 ^ 32) by by intros E; rw E in Hp. rw u32_small; lia.
    + rw /= /overflown. destruct (decide (level (mem m) = 2 ^ 32)); [done|]. rw He u32_small in Hp; lia.
  - apply sem_wake; [done..|]. by apply at_release.
Qed.
End sem.

(** C20: the count of a semaphore.  Threads run any calls of [P] and [V] in any
    interleaving on a semaphore created with [n]: whenever its spinlock is free
    its count is [n] plus the [V]s less the [P]s that have passed, an [unsigned]
    and never negative, so no more [P]s pass than [n] and the [V]s allow; and an
    assertion can only fail when that number has reached 2^32, in a [V]. *)
Theorem semaphore_count n progs m :
  0 ≤ n < 2 ^ 32 → reach (sem_start n progs) m →
  (spins m !! tt = None →
    sem_count (mem m) = n + ups (mem m) - downs (mem m) ∧ 0 ≤ n + ups (mem m) - downs (mem m) < 2 ^ 32) ∧
  ∀ t, step t m = Panics → n + ups (mem m) - downs (mem m) = 2 ^ 32.
Proof.
  intros Hn Hr. assert (sem_inv n m) as Hm.
  { induction Hr as [|m t m' _ IH Hs].
    - split; [|by intros _; split; rw /level /=; lia]. intros t th Hth. simpl in Hth.
      apply lookup_fmap_Some in Hth as (ops & <- & _). exists false. split; [done|apply at_start].
    - pose proof (step_good n m t IH) as Hg. by rw Hs in Hg. }
  split; [by apply Hm|]. intros t Hs. pose proof (step_good n m t Hm) as Hg. by rw Hs in Hg.
Qed.

(** Two threads on a semaphore of count 0: the first sleeps until the second has
    called [V]. *)
Definition sem_users : mach unit semmem := sem_start 0 {[1%positive := [Down]; 2%positive := [Up; Up]]}.
Definition sem_used : mach unit semmem := run_to (replicate 9 1%positive ++ replicate 10 2%positive ++ replicate 9 1%positive) sem_users.

Lemma semaphore_count_witness :
  sem_count (mem sem_used) = 0 + ups (mem sem_used) - downs (mem sem_used) ∧ ups (mem sem_used) = 2 ∧ downs (mem sem_used) = 1.
Proof.
  assert (reach sem_users sem_used) as Hr by (apply run_to_reach; by vm_compute).
  assert (spins sem_used !! tt = None) as Hs by by vm_compute.
  assert (0 ≤ 0 < 2 ^ 32) as H0 by lia.
  split; [|by vm_compute]. exact (proj1 (proj1 (semaphore_count 0 _ sem_used H0 Hr) Hs)).
Defined.
