(* ===== verification/Os.v ===== *)
(** * The kernel state behind the system calls

    The heap objects of kern/vfs/file.c and kern/proc/proc.c ([struct file],
    the file tables, [struct proc], the process table, exit codes), each in a
    map from addresses to contents, with arrays of pointers and byte buffers as
    objects of their own; user memory; the console.  An object is accessible
    while its block is allocated.  What file systems and address spaces keep is [ext_], for them
    alone (Vfs.v). *)

From stdpp Require Import base tactics list gmap option numbers ssreflect.
From S2P Require Import Prelude Kern CopyInOut.

Open Scope Z_scope.

(** ** Data *)

Record file := File {
  refcount : Z;
  seek_pos : ptr;
  file_lock : ptr;
  file_vnode : ptr;
  file_path : ptr;
  global_fd : Z;
  local_fd : Z;
  can_read : bool;
  can_write : bool;
  is_dupe : bool;
  std_file_status : Z
}.

Record p_filetable := PFileTable {
  proc_ft_lock : ptr;
  pf_files : ptr;
  stdin_open : bool;
  stdout_open : bool;
  stderr_open : bool;
  pf_size : Z
}.

Record g_filetable := GFileTable {
  next_fd : Z;
  global_file_lk : ptr;
  open_files : ptr;
  open_files_name : ptr;
  gf_size : Z
}.

Record proc := Proc {
  p_name : ptr;
  p_lock : bool;
  p_numthreads : Z;
  ops_lock : ptr;
  p_addrspace : ptr;
  p_cwd : ptr;
  pid : Z;
  ppid : Z;
  p_filetable_of : ptr;
  children : ptr;
  waitpid_cv : ptr;
  waitpid_lock : ptr
}.

Record pidxcode := Pidxcode { xc_ppid : Z; xc_pid : Z; exit_code : Z }.

Record proctable := ProcTable {
  next_pid : Z;
  num_of_procs : Z;
  proc_array : ptr;
  proctable_lk : ptr;
  pt_waitpid_cv : ptr;
  active_exit_codes : ptr
}.

(** [struct cv]: its name and its wait channel. *)
Record cv := Cv { cv_name : loc; cv_wchan : loc }.

(** The global variables. *)
Record globals := Globals {
  global_ftable : ptr;
  fileops_lock : ptr;
  global_ptable : ptr;
  kproc : ptr
}.

Record fsdata := FsData {
  files_ : gmap loc file;
  offs_ : gmap loc Z;
  bufs_ : gmap loc (list Z);
  arrs_ : gmap loc (list ptr);
  pfts_ : gmap loc p_filetable;
  gfts_ : gmap loc g_filetable;
  vns_ : gmap loc Z;
  ext_ : gmap loc (list Z)
}.

(** [threads_] maps a thread to its [t_proc]; [started_] lists the threads made
    runnable, with the argument of their entry point; [sleepers_] has the threads
    asleep on a wait channel, the one that has slept longest first. *)
Record psdata := PsData {
  procs_ : gmap loc proc;
  threads_ : gmap loc ptr;
  ptabs_ : gmap loc proctable;
  codes_ : gmap loc pidxcode;
  cvs_ : gmap loc cv;
  started_ : list (loc * ptr);
  sleepers_ : gmap loc (list loc)
}.

(** [junk_] is what fresh memory holds; [stdin_] what will be typed. *)
Record iodata := IoData {
  umem_ : gmap Z Z;
  junk_ : nat → Z;
  stdin_ : list Z;
  console_ : list Z
}.

Record state := State {
  sys : base;
  fsd : fsdata;
  psd : psdata;
  iod : iodata;
  glb : globals
}.

#[export, refine] Instance state_base : HasBase state := {|
  base_of := sys;
  with_base b s := State b (fsd s) (psd s) (iod s) (glb s)
|}.
Proof. all: by intros; repeat match goal with x : state |- _ => destruct x end. Defined.

(** Field updates. *)
Definition set_refcount v x := File v (seek_pos x) (file_lock x) (file_vnode x) (file_path x) (global_fd x)
  (local_fd x) (can_read x) (can_write x) (is_dupe x) (std_file_status x).
Definition set_seek_pos v x := File (refcount x) v (file_lock x) (file_vnode x) (file_path x) (global_fd x)
  (local_fd x) (can_read x) (can_write x) (is_dupe x) (std_file_status x).
Definition set_file_lock v x := File (refcount x) (seek_pos x) v (file_vnode x) (file_path x) (global_fd x)
  (local_fd x) (can_read x) (can_write x) (is_dupe x) (std_file_status x).
Definition set_file_vnode v x := File (refcount x) (seek_pos x) (file_lock x) v (file_path x) (global_fd x)
  (local_fd x) (can_read x) (can_write x) (is_dupe x) (std_file_status x).
Definition set_file_path v x := File (refcount x) (seek_pos x) (file_lock x) (file_vnode x) v (global_fd x)
  (local_fd x) (can_read x) (can_write x) (is_dupe x) (std_file_status x).
Definition set_global_fd v x := File (refcount x) (seek_pos x) (file_lock x) (file_vnode x) (file_path x) v
  (local_fd x) (can_read x) (can_write x) (is_dupe x) (std_file_status x).
Definition set_local_fd v x := File (refcount x) (seek_pos x) (file_lock x) (file_vnode x) (file_path x) (global_fd
  x) v (can_read x) (can_write x) (is_dupe x) (std_file_status x).
Definition set_can_read v x := File (refcount x) (seek_pos x) (file_lock x) (file_vnode x) (file_path x) (global_fd
  x) (local_fd x) v (can_write x) (is_dupe x) (std_file_status x).
Definition set_can_write v x := File (refcount x) (seek_pos x) (file_lock x) (file_vnode x) (file_path x)
  (global_fd x) (local_fd x) (can_read x) v (is_dupe x) (std_file_status x).
Definition set_is_dupe v x := File (refcount x) (seek_pos x) (file_lock x) (file_vnode x) (file_path x) (global_fd
  x) (local_fd x) (can_read x) (can_write x) v (std_file_status x).
Definition set_std_file_status v x := File (refcount x) (seek_pos x) (file_lock x) (file_vnode x) (file_path x)
  (global_fd x) (local_fd x) (can_read x) (can_write x) (is_dupe x) v.
Definition set_proc_ft_lock v x := PFileTable v (pf_files x) (stdin_open x) (stdout_open x) (stderr_open x)
  (pf_size x).
Definition set_pf_files v x := PFileTable (proc_ft_lock x) v (stdin_open x) (stdout_open x) (stderr_open x)
  (pf_size x).
Definition set_stdin_open v x := PFileTable (proc_ft_lock x) (pf_files x) v (stdout_open x) (stderr_open x)
  (pf_size x).
Definition set_stdout_open v x := PFileTable (proc_ft_lock x) (pf_files x) (stdin_open x) v (stderr_open x)
  (pf_size x).
Definition set_stderr_open v x := PFileTable (proc_ft_lock x) (pf_files x) (stdin_open x) (stdout_open x) v
  (pf_size x).
Definition set_pf_size v x := PFileTable (proc_ft_lock x) (pf_files x) (stdin_open x) (stdout_open x) (stderr_open
  x) v.
Definition set_next_fd v x := GFileTable v (global_file_lk x) (open_files x) (open_files_name x) (gf_size x).
Definition set_global_file_lk v x := GFileTable (next_fd x) v (open_files x) (open_files_name x) (gf_size x).
Definition set_open_files v x := GFileTable (next_fd x) (global_file_lk x) v (open_files_name x) (gf_size x).
Definition set_open_files_name v x := GFileTable (next_fd x) (global_file_lk x) (open_files x) v (gf_size x).
Definition set_gf_size v x := GFileTable (next_fd x) (global_file_lk x) (open_files x) (open_files_name x) v.
Definition set_p_name v x := Proc v (p_lock x) (p_numthreads x) (ops_lock x) (p_addrspace x) (p_cwd x) (pid x)
  (ppid x) (p_filetable_of x) (children x) (waitpid_cv x) (waitpid_lock x).
Definition set_p_lock v x := Proc (p_name x) v (p_numthreads x) (ops_lock x) (p_addrspace x) (p_cwd x) (pid x)
  (ppid x) (p_filetable_of x) (children x) (waitpid_cv x) (waitpid_lock x).
Definition set_p_numthreads v x := Proc (p_name x) (p_lock x) v (ops_lock x) (p_addrspace x) (p_cwd x) (pid x)
  (ppid x) (p_filetable_of x) (children x) (waitpid_cv x) (waitpid_lock x).
Definition set_ops_lock v x := Proc (p_name x) (p_lock x) (p_numthreads x) v (p_addrspace x) (p_cwd x) (pid x)
  (ppid x) (p_filetable_of x) (children x) (waitpid_cv x) (waitpid_lock x).
Definition set_p_addrspace v x := Proc (p_name x) (p_lock x) (p_numthreads x) (ops_lock x) v (p_cwd x) (pid x)
  (ppid x) (p_filetable_of x) (children x) (waitpid_cv x) (waitpid_lock x).
Definition set_p_cwd v x := Proc (p_name x) (p_lock x) (p_numthreads x) (ops_lock x) (p_addrspace x) v (pid x)
  (ppid x) (p_filetable_of x) (children x) (waitpid_cv x) (waitpid_lock x).
Definition set_pid v x := Proc (p_name x) (p_lock x) (p_numthreads x) (ops_lock x) (p_addrspace x) (p_cwd x) v
  (ppid x) (p_filetable_of x) (children x) (waitpid_cv x) (waitpid_lock x).
Definition set_ppid v x := Proc (p_name x) (p_lock x) (p_numthreads x) (ops_lock x) (p_addrspace x) (p_cwd x) (pid
  x) v (p_filetable_of x) (children x) (waitpid_cv x) (waitpid_lock x).
Definition set_p_filetable_of v x := Proc (p_name x) (p_lock x) (p_numthreads x) (ops_lock x) (p_addrspace x)
  (p_cwd x) (pid x) (ppid x) v (children x) (waitpid_cv x) (waitpid_lock x).
Definition set_children v x := Proc (p_name x) (p_lock x) (p_numthreads x) (ops_lock x) (p_addrspace x) (p_cwd x)
  (pid x) (ppid x) (p_filetable_of x) v (waitpid_cv x) (waitpid_lock x).
Definition set_waitpid_cv v x := Proc (p_name x) (p_lock x) (p_numthreads x) (ops_lock x) (p_addrspace x) (p_cwd x)
  (pid x) (ppid x) (p_filetable_of x) (children x) v (waitpid_lock x).
Definition set_waitpid_lock v x := Proc (p_name x) (p_lock x) (p_numthreads x) (ops_lock x) (p_addrspace x) (p_cwd
  x) (pid x) (ppid x) (p_filetable_of x) (children x) (waitpid_cv x) v.
Definition set_next_pid v x := ProcTable v (num_of_procs x) (proc_array x) (proctable_lk x) (pt_waitpid_cv x)
  (active_exit_codes x).
Definition set_num_of_procs v x := ProcTable (next_pid x) v (proc_array x) (proctable_lk x) (pt_waitpid_cv x)
  (active_exit_codes x).
Definition set_proc_array v x := ProcTable (next_pid x) (num_of_procs x) v (proctable_lk x) (pt_waitpid_cv x)
  (active_exit_codes x).
Definition set_proctable_lk v x := ProcTable (next_pid x) (num_of_procs x) (proc_array x) v (pt_waitpid_cv x)
  (active_exit_codes x).
Definition set_pt_waitpid_cv v x := ProcTable (next_pid x) (num_of_procs x) (proc_array x) (proctable_lk x) v
  (active_exit_codes x).
Definition set_active_exit_codes v x := ProcTable (next_pid x) (num_of_procs x) (proc_array x) (proctable_lk x)
  (pt_waitpid_cv x) v.

Definition files (s : state) := files_ (fsd s).
Definition upd_files (f : (gmap loc file) → (gmap loc file)) (s : state) := State (sys s) (FsData (f (files_ (fsd
  s))) (offs_ (fsd s)) (bufs_ (fsd s)) (arrs_ (fsd s)) (pfts_ (fsd s)) (gfts_ (fsd s)) (vns_ (fsd s)) (ext_ (fsd
  s))) (psd s) (iod s) (glb s).
Definition offs (s : state) := offs_ (fsd s).
Definition upd_offs (f : (gmap loc Z) → (gmap loc Z)) (s : state) := State (sys s) (FsData (files_ (fsd s)) (f
  (offs_ (fsd s))) (bufs_ (fsd s)) (arrs_ (fsd s)) (pfts_ (fsd s)) (gfts_ (fsd s)) (vns_ (fsd s)) (ext_ (fsd s)))
  (psd s) (iod s) (glb s).
Definition bufs (s : state) := bufs_ (fsd s).
Definition upd_bufs (f : (gmap loc (list Z)) → (gmap loc (list Z))) (s : state) := State (sys s) (FsData (files_
  (fsd s)) (offs_ (fsd s)) (f (bufs_ (fsd s))) (arrs_ (fsd s)) (pfts_ (fsd s)) (gfts_ (fsd s)) (vns_ (fsd s)) (ext_
  (fsd s))) (psd s) (iod s) (glb s).
Definition arrs (s : state) := arrs_ (fsd s).
Definition upd_arrs (f : (gmap loc (list ptr)) → (gmap loc (list ptr))) (s : state) := State (sys s) (FsData
  (files_ (fsd s)) (offs_ (fsd s)) (bufs_ (fsd s)) (f (arrs_ (fsd s))) (pfts_ (fsd s)) (gfts_ (fsd s)) (vns_ (fsd
  s)) (ext_ (fsd s))) (psd s) (iod s) (glb s).
Definition pfts (s : state) := pfts_ (fsd s).
Definition upd_pfts (f : (gmap loc p_filetable) → (gmap loc p_filetable)) (s : state) := State (sys s) (FsData
  (files_ (fsd s)) (offs_ (fsd s)) (bufs_ (fsd s)) (arrs_ (fsd s)) (f (pfts_ (fsd s))) (gfts_ (fsd s)) (vns_ (fsd
  s)) (ext_ (fsd s))) (psd s) (iod s) (glb s).
Definition gfts (s : state) := gfts_ (fsd s).
Definition upd_gfts (f : (gmap loc g_filetable) → (gmap loc g_filetable)) (s : state) := State (sys s) (FsData
  (files_ (fsd s)) (offs_ (fsd s)) (bufs_ (fsd s)) (arrs_ (fsd s)) (pfts_ (fsd s)) (f (gfts_ (fsd s))) (vns_ (fsd
  s)) (ext_ (fsd s))) (psd s) (iod s) (glb s).
Definition vns (s : state) := vns_ (fsd s).
Definition upd_vns (f : (gmap loc Z) → (gmap loc Z)) (s : state) := State (sys s) (FsData (files_ (fsd s)) (offs_
  (fsd s)) (bufs_ (fsd s)) (arrs_ (fsd s)) (pfts_ (fsd s)) (gfts_ (fsd s)) (f (vns_ (fsd s))) (ext_ (fsd s))) (psd
  s) (iod s) (glb s).
Definition ext (s : state) := ext_ (fsd s).
Definition upd_ext (f : (gmap loc (list Z)) → (gmap loc (list Z))) (s : state) := State (sys s) (FsData (files_
  (fsd s)) (offs_ (fsd s)) (bufs_ (fsd s)) (arrs_ (fsd s)) (pfts_ (fsd s)) (gfts_ (fsd s)) (vns_ (fsd s)) (f (ext_
  (fsd s)))) (psd s) (iod s) (glb s).
Definition procs (s : state) := procs_ (psd s).
Definition upd_procs (f : (gmap loc proc) → (gmap loc proc)) (s : state) := State (sys s) (fsd s) (PsData (f
  (procs_ (psd s))) (threads_ (psd s)) (ptabs_ (psd s)) (codes_ (psd s)) (cvs_ (psd s)) (started_ (psd s))
  (sleepers_ (psd s))) (iod s) (glb s).
Definition threads (s : state) := threads_ (psd s).
Definition upd_threads (f : (gmap loc ptr) → (gmap loc ptr)) (s : state) := State (sys s) (fsd s) (PsData (procs_
  (psd s)) (f (threads_ (psd s))) (ptabs_ (psd s)) (codes_ (psd s)) (cvs_ (psd s)) (started_ (psd s)) (sleepers_
  (psd s))) (iod s) (glb s).
Definition ptabs (s : state) := ptabs_ (psd s).
Definition upd_ptabs (f : (gmap loc proctable) → (gmap loc proctable)) (s : state) := State (sys s) (fsd s) (PsData
  (procs_ (psd s)) (threads_ (psd s)) (f (ptabs_ (psd s))) (codes_ (psd s)) (cvs_ (psd s)) (started_ (psd s))
  (sleepers_ (psd s))) (iod s) (glb s).
Definition codes (s : state) := codes_ (psd s).
Definition upd_codes (f : (gmap loc pidxcode) → (gmap loc pidxcode)) (s : state) := State (sys s) (fsd s) (PsData
  (procs_ (psd s)) (threads_ (psd s)) (ptabs_ (psd s)) (f (codes_ (psd s))) (cvs_ (psd s)) (started_ (psd s))
  (sleepers_ (psd s))) (iod s) (glb s).
Definition cvs (s : state) := cvs_ (psd s).
Definition upd_cvs (f : (gmap loc cv) → (gmap loc cv)) (s : state) := State (sys s) (fsd s) (PsData (procs_ (psd
  s)) (threads_ (psd s)) (ptabs_ (psd s)) (codes_ (psd s)) (f (cvs_ (psd s))) (started_ (psd s)) (sleepers_ (psd
  s))) (iod s) (glb s).
Definition started (s : state) := started_ (psd s).
Definition upd_started (f : (list (loc * ptr)) → (list (loc * ptr))) (s : state) := State (sys s) (fsd s) (PsData
  (procs_ (psd s)) (threads_ (psd s)) (ptabs_ (psd s)) (codes_ (psd s)) (cvs_ (psd s)) (f (started_ (psd s)))
  (sleepers_ (psd s))) (iod s) (glb s).
Definition sleepers (s : state) := sleepers_ (psd s).
Definition upd_sleepers (f : (gmap loc (list loc)) → (gmap loc (list loc))) (s : state) := State (sys s) (fsd s)
  (PsData (procs_ (psd s)) (threads_ (psd s)) (ptabs_ (psd s)) (codes_ (psd s)) (cvs_ (psd s)) (started_ (psd s))
  (f (sleepers_ (psd s)))) (iod s) (glb s).
Definition umem (s : state) := umem_ (iod s).
Definition upd_umem (f : (gmap Z Z) → (gmap Z Z)) (s : state) := State (sys s) (fsd s) (psd s) (IoData (f (umem_
  (iod s))) (junk_ (iod s)) (stdin_ (iod s)) (console_ (iod s))) (glb s).
Definition junk (s : state) := junk_ (iod s).
Definition upd_junk (f : (nat → Z) → (nat → Z)) (s : state) := State (sys s) (fsd s) (psd s) (IoData (umem_ (iod
  s)) (f (junk_ (iod s))) (stdin_ (iod s)) (console_ (iod s))) (glb s).
Definition stdin (s : state) := stdin_ (iod s).
Definition upd_stdin (f : (list Z) → (list Z)) (s : state) := State (sys s) (fsd s) (psd s) (IoData (umem_ (iod s))
  (junk_ (iod s)) (f (stdin_ (iod s))) (console_ (iod s))) (glb s).
Definition console (s : state) := console_ (iod s).
Definition upd_console (f : (list Z) → (list Z)) (s : state) := State (sys s) (fsd s) (psd s) (IoData (umem_ (iod
  s)) (junk_ (iod s)) (stdin_ (iod s)) (f (console_ (iod s)))) (glb s).

(** Evaluating the fields of updated states. *)
Ltac os_fold := repeat match goal with
  | |- context [files_ (fsd ?s)] => change (files_ (fsd s)) with (files s)
  | |- context [offs_ (fsd ?s)] => change (offs_ (fsd s)) with (offs s)
  | |- context [bufs_ (fsd ?s)] => change (bufs_ (fsd s)) with (bufs s)
  | |- context [arrs_ (fsd ?s)] => change (arrs_ (fsd s)) with (arrs s)
  | |- context [pfts_ (fsd ?s)] => change (pfts_ (fsd s)) with (pfts s)
  | |- context [gfts_ (fsd ?s)] => change (gfts_ (fsd s)) with (gfts s)
  | |- context [vns_ (fsd ?s)] => change (vns_ (fsd s)) with (vns s)
  | |- context [ext_ (fsd ?s)] => change (ext_ (fsd s)) with (ext s)
  | |- context [procs_ (psd ?s)] => change (procs_ (psd s)) with (procs s)
  | |- context [threads_ (psd ?s)] => change (threads_ (psd s)) with (threads s)
  | |- context [ptabs_ (psd ?s)] => change (ptabs_ (psd s)) with (ptabs s)
  | |- context [codes_ (psd ?s)] => change (codes_ (psd s)) with (codes s)
  | |- context [cvs_ (psd ?s)] => change (cvs_ (psd s)) with (cvs s)
  | |- context [started_ (psd ?s)] => change (started_ (psd s)) with (started s)
  | |- context [sleepers_ (psd ?s)] => change (sleepers_ (psd s)) with (sleepers s)
  | |- context [umem_ (iod ?s)] => change (umem_ (iod s)) with (umem s)
  | |- context [junk_ (iod ?s)] => change (junk_ (iod s)) with (junk s)
  | |- context [stdin_ (iod ?s)] => change (stdin_ (iod s)) with (stdin s)
  | |- context [console_ (iod ?s)] => change (console_ (iod s)) with (console s)
  end.
Ltac os_fold_hyp H := repeat match type of H with
  | context [files_ (fsd ?s)] => change (files_ (fsd s)) with (files s) in H
  | context [offs_ (fsd ?s)] => change (offs_ (fsd s)) with (offs s) in H
  | context [bufs_ (fsd ?s)] => change (bufs_ (fsd s)) with (bufs s) in H
  | context [arrs_ (fsd ?s)] => change (arrs_ (fsd s)) with (arrs s) in H
  | context [pfts_ (fsd ?s)] => change (pfts_ (fsd s)) with (pfts s) in H
  | context [gfts_ (fsd ?s)] => change (gfts_ (fsd s)) with (gfts s) in H
  | context [vns_ (fsd ?s)] => change (vns_ (fsd s)) with (vns s) in H
  | context [ext_ (fsd ?s)] => change (ext_ (fsd s)) with (ext s) in H
  | context [procs_ (psd ?s)] => change (procs_ (psd s)) with (procs s) in H
  | context [threads_ (psd ?s)] => change (threads_ (psd s)) with (threads s) in H
  | context [ptabs_ (psd ?s)] => change (ptabs_ (psd s)) with (ptabs s) in H
  | context [codes_ (psd ?s)] => change (codes_ (psd s)) with (codes s) in H
  | context [cvs_ (psd ?s)] => change (cvs_ (psd s)) with (cvs s) in H
  | context [started_ (psd ?s)] => change (started_ (psd s)) with (started s) in H
  | context [sleepers_ (psd ?s)] => change (sleepers_ (psd s)) with (sleepers s) in H
  | context [umem_ (iod ?s)] => change (umem_ (iod s)) with (umem s) in H
  | context [junk_ (iod ?s)] => change (junk_ (iod s)) with (junk s) in H
  | context [stdin_ (iod ?s)] => change (stdin_ (iod s)) with (stdin s) in H
  | context [console_ (iod ?s)] => change (console_ (iod s)) with (console s) in H
  end.
Tactic Notation "os_simpl" :=
  cbn [files upd_files files_ offs upd_offs offs_ bufs upd_bufs bufs_ arrs upd_arrs arrs_ pfts upd_pfts pfts_ gfts
  upd_gfts gfts_ vns upd_vns vns_ ext upd_ext ext_ procs upd_procs procs_ threads upd_threads threads_ ptabs
  upd_ptabs ptabs_ codes upd_codes codes_ cvs upd_cvs cvs_ started upd_started started_ sleepers upd_sleepers
  sleepers_ umem upd_umem umem_ junk upd_junk junk_ stdin upd_stdin stdin_ console upd_console console_ fsd psd iod
  glb sys upd_base base_of with_base state_base]; os_fold.
Tactic Notation "os_simpl" "in" hyp(H) :=
  cbn [files upd_files files_ offs upd_offs offs_ bufs upd_bufs bufs_ arrs upd_arrs arrs_ pfts upd_pfts pfts_ gfts
  upd_gfts gfts_ vns upd_vns vns_ ext upd_ext ext_ procs upd_procs procs_ threads upd_threads threads_ ptabs
  upd_ptabs ptabs_ codes upd_codes codes_ cvs upd_cvs cvs_ started upd_started started_ sleepers upd_sleepers
  sleepers_ umem upd_umem umem_ junk upd_junk junk_ stdin upd_stdin stdin_ console upd_console console_ fsd psd iod
  glb sys upd_base base_of with_base state_base] in H; os_fold_hyp H.

(** ** Objects of the heap *)

(** Reading an object through a pointer, and changing it. *)
Definition get {A} (f : state → gmap loc A) (p : ptr) : M state A :=
  l ← nonnull p; deref (λ s, if is_live l s then f s !! l else None).

Definition put {A} (f : state → gmap loc A) (upd : (gmap loc A → gmap loc A) → state → state)
    (p : ptr) (g : A → A) : M state unit :=
  x ← get f p; l ← nonnull p; modify (upd <[l := g x]>).

Definition get_file := get files.
Definition put_file := put files upd_files.
Definition get_pft := get pfts.
Definition put_pft := put pfts upd_pfts.
Definition get_gft := get gfts.
Definition put_gft := put gfts upd_gfts.
Definition get_proc := get procs.
Definition put_proc := put procs upd_procs.
Definition get_ptab := get ptabs.
Definition put_ptab := put ptabs upd_ptabs.

(** An allocation that holds [x] at first. *)
Definition alloc {A} (upd : (gmap loc A → gmap loc A) → state → state) (x : A) : M state ptr :=
  p ← kmalloc;
  match p with
  | None => mret None
  | Some l => modify (upd <[l := x]>);; mret (Some l)
  end.

(** An array of [n] pointers set to NULL, and its cells. *)
Definition alloc_array (n : nat) : M state ptr := alloc upd_arrs (replicate n None).
Definition aget (a : ptr) (i : nat) : M state ptr := xs ← get arrs a; deref (λ _, xs !! i).
Definition aset (a : ptr) (i : nat) (p : ptr) : M state unit :=
  aget a i;; put arrs upd_arrs a <[i := p]>.

(** Byte buffers: fresh ones hold junk; a C string ends at its first 0. *)
Definition alloc_buf (n : nat) : M state ptr :=
  j ← gets (λ s, junk_ (iod s)); alloc upd_bufs (j <$> seq 0 n).

Fixpoint until_nul (bs : list Z) : option (list Z) :=
  match bs with
  | [] => None
  | b :: bs' => if bool_decide (b = 0) then Some [] else cons b <$> until_nul bs'
  end.

(** Running off the end of a string without terminator is a fault. *)
Definition cstring (p : ptr) : M state (list Z) := bs ← get bufs p; deref (λ _, until_nul bs).

Definition kstrdup (cs : list Z) : M state ptr := alloc upd_bufs (cs ++ [0]).

(** ** Condition variables, as their users see them *)

Definition cv_create : M state ptr :=
  c ← kmalloc;
  match c with
  | None => mret None
  | Some l =>
      name ← kmalloc;                (* kstrdup *)
      match name with
      | None => kfree c;; mret None
      | Some nm =>
          wchan ← kmalloc;           (* wchan_create *)
          match wchan with
          | None => kfree name;; kfree c;; mret None
          | Some wc => modify (upd_cvs <[l := Cv nm wc]>);; mret c
          end
      end
  end.

Definition get_cv (p : ptr) : M state cv :=
  match p with None => stops Panic | Some _ => get cvs p end.

(** [cv_destroy] of a condition variable nobody sleeps on. *)
Definition cv_destroy (p : ptr) : M state unit :=
  c ← get_cv p;
  kfree (Some (cv_wchan c));;
  kfree (Some (cv_name c));;
  kfree p.

(** The first half of [cv_wait]: the lock is given up and the thread sleeps.
    The caller's continuation starts with [lock_acquire(lock)]. *)
Definition cv_wait {A} (p lk : ptr) : M state A :=
  c ← get_cv p;
  held ← lock_do_i_hold lk;
  kassert held;;
  lock_release lk;;
  t ← gets (λ s, me (sys s));
  modify (upd_sleepers (λ m, <[cv_wchan c := default [] (m !! cv_wchan c) ++ [t]]> m));;
  stops (Asleep (cv_wchan c)).

(** The thread that has slept longest, if there is one, wakes up. *)
Definition cv_signal (p lk : ptr) : M state unit :=
  held ← lock_do_i_hold lk;
  kassert held;;
  c ← get cvs p;
  modify (upd_sleepers (alter tail (cv_wchan c))).

Abbreviation extdata := (gmap loc (list Z)).

(** ** The current process *)

Definition curthread : M state loc := gets (λ s, me (sys s)).
Definition curproc : M state ptr := t ← curthread; deref (λ s, threads s !! t).
Definition globals_of {A} (f : globals → A) : M state A := gets (λ s, f (glb s)).

(** [p_lock], taken and released by one CPU. *)
Definition p_lock_acquire (p : ptr) : M state unit :=
  x ← get_proc p;
  kassert (negb (p_lock x));;
  put_proc p (set_p_lock true).
Definition p_lock_release (p : ptr) : M state unit :=
  x ← get_proc p;
  kassert (p_lock x);;
  put_proc p (set_p_lock false).
