(* ===== verification/OsFacts.v ===== *)
(** * Proof rules for the heap objects of Os.v

    Reading and changing objects, critical sections, and [extends]: what an
    operation that allocates, or releases what it allocated, leaves alone. *)

From stdpp Require Import base tactics list gmap option numbers ssreflect.
From S2P Require Import Prelude Kern Os.

Open Scope Z_scope.

(** ** Objects *)

(** The pointer [p] leads to the object [x]. *)
Definition obj {A} (f : state → gmap loc A) (p : ptr) (x : A) (s : state) : Prop :=
  ∃ l, p = Some l ∧ l ∈ live (sys s) ∧ f s !! l = Some x.

Lemma wp_get {A} (f : state → gmap loc A) p x (Q : A → state → Prop) s :
  obj f p x s → Q x s → wp (get f p) Q s.
Proof.
  intros (l & -> & Hl & Hx) HQ. rw /get. wp_step. wp_step; [done|]. eapply wp_deref; [|done].
  by rw /is_live bool_decide_eq_true_2.
Qed.

Lemma wp_put {A} (f : state → gmap loc A) upd p g x (Q : unit → state → Prop) s :
  obj f p x s → (∀ l, p = Some l → Q tt (upd <[l := g x]> s)) → wp (put f upd p g) Q s.
Proof.
  intros Ho HQ. rw /put. wp_step. eapply wp_get; [done|]. destruct Ho as (l & -> & _).
  wp_step. wp_step; [done|]. apply wp_modify. by apply HQ.
Qed.

Lemma wp_aget a xs i p (Q : ptr → state → Prop) s :
  obj arrs a xs s → xs !! i = Some p → Q p s → wp (aget a i) Q s.
Proof. intros Ha Hi HQ. rw /aget. wp_step. eapply wp_get; [done|]. by eapply wp_deref. Qed.

Lemma wp_aset a xs i p (Q : unit → state → Prop) s :
  obj arrs a xs s → (i < length xs)%nat → (∀ l, a = Some l → Q tt (upd_arrs <[l := <[i := p]> xs]> s)) →
  wp (aset a i p) Q s.
Proof.
  intros Ha Hi HQ. rw /aset. wp_step. destruct (lookup_lt_is_Some_2 xs i Hi) as [q Hq].
  eapply wp_aget; [done|done|]. by eapply wp_put.
Qed.

(** ** Critical sections *)

Section locks.
Context {St : Type} `{!HasBase St}.

Lemma upd_base_twice (f g : base → base) (s : St) : upd_base f (upd_base g s) = upd_base (λ b, f (g b)) s.
Proof. by rw /upd_base base_with with_base_twice. Qed.

(** Releasing right after acquiring gives back the state. *)
Lemma released_acquired p (s : St) : lock_free p s → released p (acquired p s) = s.
Proof.
  intros (l & k & -> & Hl & Hk & Hn). rw /released /acquired Hk /upd_base base_with /=.
  rw lookup_insert_eq /= with_base_twice. destruct (base_of s) as [L o K m] eqn:Hb. simpl in *.
  rw /set_lks /= insert_insert_eq. rw -{2}(with_base_same s) Hb. f_equal. f_equal.
  apply insert_id. rw Hk. destruct k as [nm wc h]. simpl in *. by subst h.
Qed.

End locks.

(** ** Allocation *)

Section alloc.
Context {St : Type} `{!HasBase St}.

(** The block the next [kmalloc] gives, and the rule that says so. *)
Definition next_block (s : St) : ptr :=
  match oracle (base_of s) with
  | Some l :: _ => if decide (l ∈ live (base_of s)) then None else Some l
  | _ => None
  end.

Lemma wp_kmalloc_next (Q : ptr → St → Prop) s :
  match next_block s with
  | None => ∀ o, Q None (upd_base (set_oracle o) s)
  | Some l => l ∉ live (base_of s) → ∀ o, Q (Some l) (upd_base (λ b, set_live ({[l]} ∪ live b) (set_oracle o b)) s)
  end → wp kmalloc Q s.
Proof.
  rw /wp /kmalloc /next_block. destruct (oracle (base_of s)) as [|[l|] o] eqn:Ho.
  - intros HN. rw -(upd_base_same (set_oracle []) s); [done|]. destruct (base_of s). simpl in *. by subst.
  - destruct (decide _); intros HQ; [apply HQ|by apply HQ].
  - intros HN. apply HN.
Qed.

Lemma next_block_acquired p s : next_block (acquired p s) = next_block s.
Proof. by rw /next_block acquired_oracle acquired_live. Qed.
End alloc.

(** The contents of the block [l]. *)
Definition same_at (l : loc) (s s' : state) : Prop :=
  files s' !! l = files s !! l ∧ offs s' !! l = offs s !! l ∧ bufs s' !! l = bufs s !! l ∧
  arrs s' !! l = arrs s !! l ∧ pfts s' !! l = pfts s !! l ∧ gfts s' !! l = gfts s !! l ∧
  procs s' !! l = procs s !! l ∧ ptabs s' !! l = ptabs s !! l ∧ codes s' !! l = codes s !! l ∧
  cvs s' !! l = cvs s !! l ∧ lks (sys s') !! l = lks (sys s) !! l.

(** What is not on the heap. *)
Definition same_others (s s' : state) : Prop :=
  me (sys s') = me (sys s) ∧ vns s' = vns s ∧ ext s' = ext s ∧ threads s' = threads s ∧ started s' = started s ∧ sleepers s' = sleepers s ∧
  iod s' = iod s ∧ glb s' = glb s.

(** [s'] is [s] with the blocks [F] allocated on top. *)
Record extends (F : gset loc) (s s' : state) : Prop := {
  x_fresh : F ## live (sys s);
  x_live : live (sys s') = F ∪ live (sys s);
  x_objs : ∀ l, l ∈ live (sys s) → same_at l s s';
  x_rest : same_others s s'
}.

Lemma same_at_refl l s : same_at l s s.
Proof. done. Qed.
Lemma same_at_trans l s1 s2 s3 : same_at l s1 s2 → same_at l s2 s3 → same_at l s1 s3.
Proof. rw /same_at. intros; destruct_and!; repeat split; congruence. Qed.
Lemma same_others_trans s1 s2 s3 : same_others s1 s2 → same_others s2 s3 → same_others s1 s3.
Proof. rw /same_others. intros; destruct_and!; repeat split; congruence. Qed.

Lemma extends_refl s : extends ∅ s s.
Proof. split; [set_solver|by rw union_empty_l_L|done|done]. Qed.

Lemma extends_trans F G s1 s2 s3 : extends F s1 s2 → extends G s2 s3 → extends (G ∪ F) s1 s3.
Proof.
  intros [Hf Hl Ho Hr] [Hf' Hl' Ho' Hr']. split.
  - rw Hl in Hf'. set_solver.
  - rw Hl' Hl. by rw assoc_L.
  - intros l Hl1. eapply same_at_trans; [by apply Ho|]. apply Ho'. rw Hl. set_solver.
  - by eapply same_others_trans.
Qed.

(** Changing the contents of a new block. *)
Definition updates_heap (u : state → state) (F : gset loc) : Prop :=
  ∀ s, live (sys (u s)) = live (sys s) ∧ same_others s (u s) ∧ ∀ l, l ∉ F → same_at l s (u s).

Lemma extends_update F s s' u : extends F s s' → updates_heap u F → extends F s (u s').
Proof.
  intros [Hf Hl Ho Hr] Hu. destruct (Hu s') as (Hl' & Hr' & Ho'). split; [done|by rw Hl'| |by eapply same_others_trans].
  intros l Hin. eapply same_at_trans; [by apply Ho|]. apply Ho'. set_solver.
Qed.

Ltac solve_updates :=
  intros ?; split; [done|]; split; [done|]; intros ? ?; rw /same_at; os_simpl; rw ?lookup_insert_ne; try done;
  set_solver.

Lemma upd_files_heap l x (F : gset loc) : l ∈ F → updates_heap (upd_files <[l := x]>) F.
Proof. intros Hl. solve_updates. Qed.
Lemma upd_offs_heap l x (F : gset loc) : l ∈ F → updates_heap (upd_offs <[l := x]>) F.
Proof. intros Hl. solve_updates. Qed.
Lemma upd_bufs_heap l x (F : gset loc) : l ∈ F → updates_heap (upd_bufs <[l := x]>) F.
Proof. intros Hl. solve_updates. Qed.
Lemma upd_arrs_heap l x (F : gset loc) : l ∈ F → updates_heap (upd_arrs <[l := x]>) F.
Proof. intros Hl. solve_updates. Qed.
Lemma upd_pfts_heap l x (F : gset loc) : l ∈ F → updates_heap (upd_pfts <[l := x]>) F.
Proof. intros Hl. solve_updates. Qed.
Lemma upd_cvs_heap l x (F : gset loc) : l ∈ F → updates_heap (upd_cvs <[l := x]>) F.
Proof. intros Hl. solve_updates. Qed.
Lemma upd_ptabs_heap l x (F : gset loc) : l ∈ F → updates_heap (upd_ptabs <[l := x]>) F.
Proof. intros Hl. solve_updates. Qed.
Lemma upd_lks_heap l x (F : gset loc) :
  l ∈ F → updates_heap (upd_base (λ b, set_lks (<[l := x]> (lks b)) b)) F.
Proof. intros Hl. solve_updates. Qed.

(** Allocating and releasing on top of [F]. *)
Lemma extends_oracle F s s' o : extends F s s' → extends F s (upd_base (set_oracle o) s').
Proof. intros [Hf Hl Ho Hr]. by split. Qed.

Lemma extends_alloc F s s' l o :
  extends F s s' → l ∉ live (sys s') →
  extends ({[l]} ∪ F) s (upd_base (λ b, set_live ({[l]} ∪ live b) (set_oracle o b)) s').
Proof.
  intros [Hf Hl Ho Hr] Hn. split; [set_solver| |done|done]. os_simpl. simpl. rw Hl. by rw assoc_L.
Qed.

Lemma wp_kmalloc_extends F s0 s (Q : ptr → state → Prop) :
  extends F s0 s →
  (∀ s', extends F s0 s' → Q None s') →
  (∀ l s', l ∉ F → l ∉ live (sys s0) → extends {[l]} s s' → extends ({[l]} ∪ F) s0 s' → Q (Some l) s') →
  wp kmalloc Q s.
Proof.
  intros Hx HN HS. apply wp_kmalloc_any.
  - intros o. apply HN. by apply extends_oracle.
  - intros l o Hl. pose proof (x_live _ _ _ Hx) as HL. change (l ∉ live (sys s)) in Hl.
    apply HS; [set_solver|set_solver| |by apply extends_alloc].
    pose proof (extends_alloc ∅ s s l o (extends_refl s) Hl) as Hx'. by rw union_empty_r_L in Hx'.
Qed.

Lemma wp_kfree_extends F s0 s l (Q : unit → state → Prop) :
  extends F s0 s → l ∈ F → (∀ s', extends (F ∖ {[l]}) s0 s' → Q tt s') → wp (kfree (Some l)) Q s.
Proof.
  intros [Hf Hl Ho Hr] Hin HQ. apply wp_kfree; [change (l ∈ live (sys s)); rw Hl; set_solver|]. apply HQ.
  split; [set_solver| |done|done]. os_simpl. simpl. rw Hl. set_solver.
Qed.

(** ** Creation of locks and condition variables *)

Lemma extends_empty F s s' : extends F s s' → F = ∅ → extends ∅ s s'.
Proof. by intros ? ->. Qed.

(** Everything allocated is released again. *)
Ltac undone :=
  match goal with
  | H : extends _ ?s ?s' |- extends ∅ ?s ?s' => eapply extends_empty; [exact H|set_solver]
  end.

Ltac kfree_step := eapply wp_kfree_extends; [eassumption|set_solver|intros ??].

Lemma lock_create_spec s :
  wp lock_create (λ r s', match r with
    | None => extends ∅ s s'
    | Some l => ∃ nm wc, NoDup [l; nm; wc] ∧ extends {[l; nm; wc]} s s' ∧
        lks (sys s') !! l = Some (Lockst nm wc None)
    end) s.
Proof.
  rw /lock_create. wp_step.
  eapply wp_kmalloc_extends; [apply extends_refl|intros; by apply wp_ret|]. intros l s1 _ Hl _ Hs1. wp_step.
  eapply wp_kmalloc_extends; [exact Hs1| |].
  { intros s2 Hs2. wp_step. kfree_step. apply wp_ret. undone. }
  intros nm s2 Hnm Hnm' _ Hs2. wp_step. eapply wp_kmalloc_extends; [exact Hs2| |].
  { intros s3 Hs3. wp_step. kfree_step. wp_step. kfree_step. apply wp_ret. undone. }
  intros wc s3 Hwc Hwc' _ Hs3. wp_step. apply wp_modify. apply wp_ret. exists nm, wc.
  split; [|split].
  - repeat constructor; set_solver.
  - replace ({[l; nm; wc]} : gset loc) with ({[wc]} ∪ ({[nm]} ∪ ({[l]} ∪ ∅)) : gset loc) by set_solver.
    apply extends_update; [done|]. apply upd_lks_heap. set_solver.
  - os_simpl. apply lookup_insert_eq.
Qed.

Lemma cv_create_spec s :
  wp cv_create (λ r s', match r with
    | None => extends ∅ s s'
    | Some l => ∃ nm wc, NoDup [l; nm; wc] ∧ extends {[l; nm; wc]} s s' ∧ cvs s' !! l = Some (Cv nm wc)
    end) s.
Proof.
  rw /cv_create. wp_step.
  eapply wp_kmalloc_extends; [apply extends_refl|intros; by apply wp_ret|]. intros l s1 _ Hl _ Hs1. wp_step.
  eapply wp_kmalloc_extends; [exact Hs1| |].
  { intros s2 Hs2. wp_step. kfree_step. apply wp_ret. undone. }
  intros nm s2 Hnm Hnm' _ Hs2. wp_step. eapply wp_kmalloc_extends; [exact Hs2| |].
  { intros s3 Hs3. wp_step. kfree_step. wp_step. kfree_step. apply wp_ret. undone. }
  intros wc s3 Hwc Hwc' _ Hs3. wp_step. apply wp_modify. apply wp_ret. exists nm, wc.
  split; [|split].
  - repeat constructor; set_solver.
  - replace ({[l; nm; wc]} : gset loc) with ({[wc]} ∪ ({[nm]} ∪ ({[l]} ∪ ∅)) : gset loc) by set_solver.
    apply extends_update; [done|]. apply upd_cvs_heap. set_solver.
  - os_simpl. apply lookup_insert_eq.
Qed.

(** Allocating an object. *)
Lemma new_obj_spec {A} (f : state → gmap loc A) upd x s :
  (∀ l (F : gset loc), l ∈ F → updates_heap (upd <[l := x]>) F) → (∀ g s, f (upd g s) = g (f s)) →
  wp (alloc upd x) (λ r s', match r with
    | None => extends ∅ s s'
    | Some l => l ∉ live (sys s) ∧ extends {[l]} s s' ∧ f s' !! l = Some x
    end) s.
Proof.
  intros Hu Hf. rw /alloc. wp_step.
  eapply wp_kmalloc_extends; [apply extends_refl|intros; by apply wp_ret|]. intros l s1 _ Hl Hs1 _. wp_step.
  apply wp_modify. apply wp_ret. split; [done|]. split; [|rw Hf; apply lookup_insert_eq].
  apply extends_update; [done|]. apply Hu; set_solver.
Qed.

(** ** Objects under locks *)

(** A field of the state that is no part of the services' state. *)
Class Field {A} (f : state → A) : Prop := field_base : ∀ b s, f (with_base b s) = f s.
#[export] Instance files_field : Field files. Proof. done. Qed.
#[export] Instance offs_field : Field offs. Proof. done. Qed.
#[export] Instance bufs_field : Field bufs. Proof. done. Qed.
#[export] Instance arrs_field : Field arrs. Proof. done. Qed.
#[export] Instance pfts_field : Field pfts. Proof. done. Qed.
#[export] Instance gfts_field : Field gfts. Proof. done. Qed.
#[export] Instance vns_field : Field vns. Proof. done. Qed.
#[export] Instance ext_field : Field ext. Proof. done. Qed.
#[export] Instance procs_field : Field procs. Proof. done. Qed.
#[export] Instance threads_field : Field threads. Proof. done. Qed.
#[export] Instance ptabs_field : Field ptabs. Proof. done. Qed.
#[export] Instance codes_field : Field codes. Proof. done. Qed.
#[export] Instance cvs_field : Field cvs. Proof. done. Qed.
#[export] Instance umem_field : Field umem. Proof. done. Qed.
#[export] Instance glb_field : Field glb. Proof. done. Qed.

Lemma field_upd_base {A} (f : state → A) `{!Field f} g s : f (upd_base g s) = f s.
Proof. apply field_base. Qed.

Lemma field_acquired {A} (f : state → A) `{!Field f} p s : f (acquired p s) = f s.
Proof. rw /acquired. destruct p as [l|]; [|done]. destruct (lks (base_of s) !! l); [by apply field_upd_base|done]. Qed.
Lemma field_released {A} (f : state → A) `{!Field f} p s : f (released p s) = f s.
Proof. rw /released. destruct p as [l|]; [|done]. destruct (lks (base_of s) !! l); [by apply field_upd_base|done]. Qed.

Lemma obj_acquired {A} (f : state → gmap loc A) `{!Field f} q x p s : obj f q x s → obj f q x (acquired p s).
Proof.
  intros (l & -> & Hl & Hx). exists l. rw field_acquired. split; [done|]. split; [|done].
  change (l ∈ live (base_of (acquired p s))). by rw acquired_live.
Qed.

Lemma obj_inj {A} (f : state → gmap loc A) q x y s : obj f q x s → obj f q y s → x = y.
Proof. intros (l & -> & _ & Hx) (l' & [= <-] & _ & Hy). congruence. Qed.

(** Reading under a lock leaves the state as it was. *)
Lemma wp_read_locked {A B} p (m : M state A) (k : A → M state B) (Q : B → state → Prop) s :
  lock_free p s → wp m (λ a s', s' = acquired p s ∧ wp (k a) Q s) (acquired p s) →
  wp (lock_acquire p;; a ← m; lock_release p;; k a) Q s.
Proof.
  intros Hf Hm. wp_step. apply wp_lock_acquire; [done|]. wp_step. eapply wp_mono; [done|]. intros a s' [-> Hk].
  wp_step. apply wp_lock_release; [by apply acquired_holds|]. by rw released_acquired.
Qed.

(** A change outside the services' state goes in or out of a critical section. *)
Class Outside (u : state → state) : Prop := outside : ∀ b s, u (with_base b s) = with_base b (u s) ∧ base_of (u s) = base_of s.
#[export] Instance outside_files f : Outside (upd_files f). Proof. done. Qed.
#[export] Instance outside_offs f : Outside (upd_offs f). Proof. done. Qed.
#[export] Instance outside_bufs f : Outside (upd_bufs f). Proof. done. Qed.
#[export] Instance outside_arrs f : Outside (upd_arrs f). Proof. done. Qed.
#[export] Instance outside_pfts f : Outside (upd_pfts f). Proof. done. Qed.
#[export] Instance outside_gfts f : Outside (upd_gfts f). Proof. done. Qed.
#[export] Instance outside_vns f : Outside (upd_vns f). Proof. done. Qed.
#[export] Instance outside_ext f : Outside (upd_ext f). Proof. done. Qed.
#[export] Instance outside_procs f : Outside (upd_procs f). Proof. done. Qed.
#[export] Instance outside_threads f : Outside (upd_threads f). Proof. done. Qed.
#[export] Instance outside_ptabs f : Outside (upd_ptabs f). Proof. done. Qed.
#[export] Instance outside_codes f : Outside (upd_codes f). Proof. done. Qed.
#[export] Instance outside_umem f : Outside (upd_umem f). Proof. done. Qed.
#[export] Instance outside_stdin f : Outside (upd_stdin f). Proof. done. Qed.
#[export] Instance outside_console f : Outside (upd_console f). Proof. done. Qed.

Lemma outside_base u s `{!Outside u} : base_of (u s) = base_of s.
Proof. apply (outside (base_of s)). Qed.

Lemma outside_released u p s `{!Outside u} : released p (u s) = u (released p s).
Proof.
  rw /released. destruct p as [l|]; [|done]. rw (outside_base u s). destruct (lks (base_of s) !! l); [|done].
  rw /upd_base (outside_base u s). symmetry. apply outside.
Qed.

Lemma outside_holds u p s `{!Outside u} : holds p (u s) ↔ holds p s.
Proof. rw /holds. by rw (outside_base u s). Qed.
Lemma outside_lock_free u p s `{!Outside u} : lock_free p (u s) ↔ lock_free p s.
Proof. rw /lock_free. by rw (outside_base u s). Qed.

(** A critical section that ends with changes outside. *)
Lemma released_outside u p s `{!Outside u} : lock_free p s → released p (u (acquired p s)) = u s.
Proof. intros. rw (outside_released u). by rw released_acquired. Qed.

(** The first empty slot of an array. *)
Definition free_slot (xs : list ptr) : option nat := fst <$> list_find (λ p, p = None) xs.

Lemma free_slot_Some xs i : free_slot xs = Some i →
  xs !! i = Some None ∧ ∀ j p, (j < i)%nat → xs !! j = Some p → p ≠ None.
Proof.
  rw /free_slot. destruct (list_find _ xs) as [[k p]|] eqn:Hf; [|done]. intros [= <-].
  apply list_find_Some in Hf as (Hk & -> & Hbefore). split; [done|]. intros j q Hj Hq. by eapply Hbefore.
Qed.
Lemma free_slot_None xs : free_slot xs = None → ∀ i p, xs !! i = Some p → p ≠ None.
Proof.
  rw /free_slot. destruct (list_find _ xs) as [[k p]|] eqn:Hf; [done|]. intros _ i p Hi.
  apply list_find_None in Hf. by eapply Forall_lookup_1 in Hf.
Qed.

(** A loop that works on it. *)
Lemma wp_first_slot {R} a xs (body : nat → M state (option R)) (Q : option R → state → Prop) s n :
  obj arrs a xs s → length xs = n →
  (∀ i, free_slot xs = Some i → wp (body i) (λ r s', r ≠ None ∧ Q r s') s) →
  (free_slot xs = None → Q None s) →
  wp (for_up 0 n (λ i, p ← aget a i; match p with None => body i | Some _ => mret None end)) Q s.
Proof.
  intros Ha Hlen HS HN.
  apply (wp_for_up (λ i s', s' = s ∧ ∀ j p, (j < i)%nat → xs !! j = Some p → p ≠ None)).
  - split; [done|]. intros; lia.
  - intros i s' Hi [-> Hb]. destruct (lookup_lt_is_Some_2 xs i) as [p Hp]; [lia|]. wp_step.
    eapply wp_aget; [done|done|]. destruct p as [l|].
    + apply wp_ret. split; [done|]. intros j q Hj Hq. destruct (decide (j = i)) as [->|]; [by rw Hp in Hq; simplify_eq|].
      eapply Hb; [|done]. lia.
    + eapply wp_mono; [apply HS|].
      * rw /free_slot. assert (list_find (λ p : ptr, p = None) xs = Some (i, None)) as ->; [|done].
        apply list_find_Some. split; [done|]. split; [done|]. intros j q Hq Hj. by eapply Hb.
      * intros [v|] s' [Hne HQ]; [done|by destruct Hne].
  - intros s' [-> Hb]. apply HN. rw /free_slot. assert (list_find (λ p : ptr, p = None) xs = None) as ->; [|done].
    apply list_find_None, Forall_lookup_2. intros i p Hp. eapply Hb; [|done].
    apply lookup_lt_Some in Hp. lia.
Qed.

(** Heap operations in or out of a critical section. *)
Definition freed (l : loc) (s : state) : state := upd_base (λ b, set_live (live b ∖ {[l]}) b) s.
Definition grabbed (l : loc) (o : list ptr) (s : state) : state :=
  upd_base (λ b, set_live ({[l]} ∪ live b) (set_oracle o b)) s.

Lemma released_upd_base p h s :
  (∀ b, lks (h b) = lks b) → (∀ b k, h (set_lks k b) = set_lks k (h b)) →
  released (St := state) p (upd_base h s) = upd_base h (released p s).
Proof.
  intros Hl Hk. rw /released. destruct p as [l|]; [|done]. rw {1}/upd_base base_with Hl.
  destruct (lks (base_of s) !! l) as [k|]; [|done]. rw !(upd_base_twice (St := state)).
  rw /upd_base. f_equal. by rw Hl Hk.
Qed.

Lemma released_freed p l s : released p (freed l s) = freed l (released p s).
Proof. by apply released_upd_base. Qed.
Lemma released_grabbed p l o s : released p (grabbed l o s) = grabbed l o (released p s).
Proof. by apply released_upd_base. Qed.

Lemma holds_freed p l s : holds p s → p ≠ Some l → holds p (freed l s).
Proof. intros. by apply holds_free_other. Qed.
Lemma holds_grabbed p l o s : holds p s → holds p (grabbed l o s).
Proof. intros. by apply holds_alloc. Qed.
Lemma lock_free_freed p l s : lock_free p s → p ≠ Some l → lock_free p (freed l s).
Proof.
  intros (q & k & -> & Hl & Hk & Hn) Hne. exists q, k. rw /freed /upd_base base_with /=.
  repeat split; [set_solver|done|done].
Qed.
Lemma lock_free_grabbed p l o s : lock_free p s → lock_free p (grabbed l o s).
Proof.
  intros (q & k & -> & Hl & Hk & Hn). exists q, k. rw /grabbed /upd_base base_with /=.
  repeat split; [set_solver|done|done].
Qed.

Lemma obj_freed {A} (f : state → gmap loc A) `{!Field f} q x l s : obj f q x s → q ≠ Some l → obj f q x (freed l s).
Proof.
  intros (k & -> & Hk & Hx) Hne. exists k. rw /freed field_upd_base. split; [done|]. split; [|done].
  os_simpl. simpl. set_solver.
Qed.
Lemma obj_grabbed {A} (f : state → gmap loc A) `{!Field f} q x l o s : obj f q x s → obj f q x (grabbed l o s).
Proof.
  intros (k & -> & Hk & Hx). exists k. rw /grabbed field_upd_base. split; [done|]. split; [|done].
  os_simpl. simpl. set_solver.
Qed.
Lemma obj_live {A} (f : state → gmap loc A) l x s : obj f (Some l) x s → l ∈ live (sys s).
Proof. by intros (k & [= <-] & Hk & _). Qed.

#[export] Hint Resolve obj_acquired obj_freed obj_grabbed holds_freed holds_grabbed lock_free_freed lock_free_grabbed : kern.
