(* ===== verification/Kprintf.v ===== *)
(** * Messages on the console

    The messages of the kernel the models of vnode.c and syscall.c print:
    [kprintf] with the text it formats, and [strerror] of kern/lib/misc.c with the
    table of kern/errmsg.h. *)

From stdpp Require Import base tactics list gmap option numbers strings ssreflect.
From S2P Require Import Prelude Kern Os.

Open Scope Z_scope.

(** The characters of a literal. *)
Definition text (s : string) : list Z := (λ c, Z.of_N (Ascii.N_of_ascii c)) <$> String.list_ascii_of_string s.

Definition newline : list Z := [10].

(** What "%d" prints: at most ten digits and a sign. *)
Fixpoint digits (fuel : nat) (n : Z) : list Z :=
  match fuel with
  | O => []
  | S fuel => if bool_decide (n < 10) then [48 + n] else digits fuel (n / 10) ++ [48 + n mod 10]
  end.
Definition decimal (n : Z) : list Z := if bool_decide (n < 0) then 45 :: digits 10 (- n) else digits 10 n.

Definition kprintf (message : list Z) : M state unit := modify (upd_console (λ out, out ++ message)).

Definition sys_errlist : list string :=
  ["Operation succeeded";
   "Function not implemented";
   "(undefined error 2)";
   "Out of memory";
   "Operation would block";
   "Interrupted system call";
   "Bad memory reference";
   "String too long";
   "Invalid argument";
   "Operation not permitted";
   "Permission denied";
   "Too many processes";
   "Too many processes in system";
   "File is not executable";
   "Argument list too long";
   "No such process";
   "No child processes";
   "Not a directory";
   "Is a directory";
   "No such file or directory";
   "Too many levels of symbolic links";
   "Directory not empty";
   "File or object exists";
   "Too many hard links";
   "Cross-device link";
   "No such device";
   "Device not available";
   "Device or resource busy";
   "Too many open files";
   "Too many open files in system";
   "Bad file number";
   "Invalid or inappropriate ioctl";
   "Input/output error";
   "Illegal seek";
   "Broken pipe";
   "Read-only file system";
   "No space left on device";
   "Disc quota exceeded";
   "File too large";
   "Invalid file type or format";
   "Argument out of range";
   "Result out of range";
   "Invalid multibyte character sequence";
   "Not a socket";
   "Is a socket";
   "Socket is already connected";
   "Socket is not connected";
   "Socket has been shut down";
   "Protocol family not supported";
   "Socket type not supported";
   "Protocol not supported";
   "Protocol wrong type for socket";
   "Address family not supported by protocol family";
   "Protocol option not available";
   "Address already in use";
   "Cannot assign requested address";
   "Network is down";
   "Network is unreachable";
   "Host is down";
   "Host is unreachable";
   "Connection refused";
   "Connection timed out";
   "Connection reset by peer";
   "Message too large";
   "Threads operation not supported"].

Definition sys_nerr : Z := Z.of_nat (length sys_errlist).

Definition strerror (errcode : Z) : M state (list Z) :=
  if bool_decide (errcode >= 0 ∧ errcode < sys_nerr) then mret (text (nth (Z.to_nat errcode) sys_errlist EmptyString))
  else stops Panic.

#[global] Arguments text : simpl never.
#[global] Arguments decimal : simpl never.
#[global] Arguments sys_nerr : simpl never.

Example decimal_of : decimal (-120) = text "-120" ∧ decimal 2147483647 = text "2147483647" ∧ decimal 0 = text "0".
Proof. done. Qed.
