(* ===== verification/Vfs.v ===== *)
(** * Vnodes and the VFS layer: kern/vfs/vnode.c, vfspath.c, vfscwd.c

    Reference counting of vnodes and the operations on paths.  The file systems
    below, reached through the vnode operations, and the address space code are
    the [FileSystem] interface: functions on the data they keep.  They change
    reference counts only by handing vnodes out and by reclaiming them. *)

From stdpp Require Import base tactics list gmap option numbers strings ssreflect.
From S2P Require Import Prelude Kern Os Kprintf.

Open Scope Z_scope.

(** ** The interface to file systems *)

(** The operations on a directory that only return an error number. *)
Inductive dirop :=
| Remove (dir : loc) (name : list Z)
| Rename (dir1 : loc) (name1 : list Z) (dir2 : loc) (name2 : list Z)
| Link (dir : loc) (name : list Z) (file : loc)
| Symlink (dir : loc) (name contents : list Z)
| Mkdir (dir : loc) (name : list Z) (mode : Z)
| Rmdir (dir : loc) (name : list Z).

(** An error number ([inl]), or the result.  A read gives the bytes it moved to
    the kernel buffer, a write the number of bytes it took from it. *)
Class FileSystem := {
  lookup_fn : list Z → extdata → (Z + loc) * extdata;
  lookparent_fn : list Z → extdata → (Z + loc * list Z) * extdata;
  creat_fn : loc → list Z → bool → Z → extdata → (Z + loc) * extdata;
  eachopen_fn : loc → Z → extdata → Z * extdata;
  truncate_fn : loc → Z → extdata → Z * extdata;
  dirop_fn : dirop → extdata → Z * extdata;
  read_fn : loc → Z → nat → extdata → (Z + list Z) * extdata;
  readlink_fn : loc → nat → extdata → (Z + list Z) * extdata;
  write_fn : loc → Z → list Z → extdata → (Z + nat) * extdata;
  stat_fn : loc → extdata → (Z + Z) * extdata;
  gettype_fn : loc → extdata → (Z + Z) * extdata;
  isseekable_fn : loc → extdata → bool * extdata;
  namefile_fn : loc → nat → extdata → (Z + list Z) * extdata;
  volname_fn : loc → extdata → list Z * extdata;
  vn_fs : loc → extdata → ptr * extdata;
  reclaim_fn : loc → extdata → Z * extdata;
  as_copy_fn : loc → extdata → (Z + loc) * extdata;
  as_destroy_fn : loc → extdata → extdata
}.

Definition EXDEV : Z := 24.
Definition O_CREAT : Z := 4.
Definition O_EXCL : Z := 8.
Definition O_TRUNC : Z := 16.

Section vfs.
Context `{!FileSystem}.

Definition ext_step {A} (f : extdata → A * extdata) : M state A := λ s,
  let '(a, e) := f (ext s) in Ok a (upd_ext (λ _, e) s).

(** ** vnode.c *)

(** The reference count of a vnode; NULL fails the assertion. *)
Definition vnode_count (vn : ptr) : M state (loc * Z) :=
  match vn with
  | None => stops Panic
  | Some v => n ← deref (λ s, vns s !! v); mret (v, n)
  end.

Definition vnode_incref (vn : ptr) : M state unit :=
  x ← vnode_count vn;
  let '(v, n) := x in
  modify (upd_vns <[v := s32 (n + 1)]>).

(** Called before every operation on a vnode, with the operation's name.  The
    operations table and the file system of a vnode are what [vnode_init] has put
    there: the tests for broken pointers cannot fail. *)
Definition vnode_check (vn : ptr) (opstr : string) : M state unit :=
  match vn with
  | None => stops Panic
  | Some v =>
      n ← deref (λ s, vns s !! v);
      if bool_decide (n < 0) then stops Panic
      else if bool_decide (n = 0) then stops Panic
      else if bool_decide (n > 0x100000) then
        kprintf (text "vnode_check: vop_" ++ text opstr ++ text ": warning: large refcount " ++ decimal n ++ newline)
      else mret tt
  end.

(** [__VOP]: an operation on a vnode, after [vnode_check]. *)
Definition vop {A} (opstr : string) (vn : ptr) (f : loc → extdata → A * extdata) : M state A :=
  vnode_check vn opstr;;
  v ← nonnull vn;
  ext_step (f v).

(** A field of a vnode, read without a check. *)
Definition vn_field {A} (vn : ptr) (f : loc → extdata → A * extdata) : M state A :=
  v ← nonnull vn;
  deref (λ s, vns s !! v);;
  ext_step (f v).

(** [VOP_RECLAIM] frees the vnode and returns 0, or returns an error and leaves the
    vnode with its last reference. *)
Definition VOP_RECLAIM (v : loc) : M state Z :=
  result ← vop "reclaim" (Some v) reclaim_fn;
  if bool_decide (result = 0) then modify (upd_vns (delete v));; mret 0 else mret result.

Definition vnode_decref (vn : ptr) : M state unit :=
  x ← vnode_count vn;
  let '(v, n) := x in
  kassert (bool_decide (n > 0));;
  if bool_decide (n > 1) then modify (upd_vns <[v := s32 (n - 1)]>)
  else
    result ← VOP_RECLAIM v;
    if bool_decide (result ≠ 0 ∧ result ≠ EBUSY) then
      reason ← strerror result;
      kprintf (text "vfs: Warning: VOP_RECLAIM: " ++ reason ++ newline)
    else mret tt.

(** A vnode that is handed back comes with a reference of its own. *)
Definition handed (v : loc) : M state unit :=
  n ← gets (λ s, default 0 (vns s !! v));
  modify (upd_vns <[v := s32 (n + 1)]>).

(** ** Lookup: the operations of kern/vfs/vfslookup.c *)

Definition vfs_lookup (path : list Z) : M state (Z + ptr) :=
  r ← ext_step (lookup_fn path);
  match r with inl e => mret (inl e) | inr v => handed v;; mret (inr (Some v)) end.

Definition vfs_lookparent (path : list Z) : M state (Z + ptr * list Z) :=
  r ← ext_step (lookparent_fn path);
  match r with inl e => mret (inl e) | inr (v, name) => handed v;; mret (inr (Some v, name)) end.

Definition VOP_CREAT (dir : ptr) (name : list Z) (excl : bool) (mode : Z) : M state (Z + ptr) :=
  r ← vop "creat" dir (λ d, creat_fn d name excl mode);
  match r with inl e => mret (inl e) | inr v => handed v;; mret (inr (Some v)) end.

(** ** vfspath.c *)

(** The vnode [vfs_open] goes on with. *)
Definition open_vnode (path : list Z) (openflags mode : Z) : M state (Z + ptr) :=
  if bool_decide (Z.land openflags O_CREAT ≠ 0) then
    let excl := bool_decide (Z.land openflags O_EXCL ≠ 0) in
    r ← vfs_lookparent path;
    match r with
    | inl result => mret (inl result)
    | inr (dir, name) =>
        r ← VOP_CREAT dir name excl mode;
        vnode_decref dir;;
        mret r
    end
  else vfs_lookup path.

Definition vfs_open (path : list Z) (openflags mode : Z) : M state (Z + ptr) :=
  let how := Z.land openflags O_ACCMODE in
  if bool_decide (how ≠ 0 ∧ how ≠ 1 ∧ how ≠ 2) then mret (inl EINVAL)
  else
    let canwrite := bool_decide (how ≠ 0) in
    r ← open_vnode path openflags mode;
    match r with
    | inl result => mret (inl result)
    | inr vn =>
        kassert (bool_decide (vn ≠ None));;
        result ← vop "eachopen" vn (λ v, eachopen_fn v openflags);
        if bool_decide (result ≠ 0) then vnode_decref vn;; mret (inl result)
        else if bool_decide (Z.land openflags O_TRUNC ≠ 0) then
          result ← (if canwrite then vop "truncate" vn (λ v, truncate_fn v 0) else mret EINVAL);
          if bool_decide (result ≠ 0) then vnode_decref vn;; mret (inl result) else mret (inr vn)
        else mret (inr vn)
    end.

Definition vfs_close (vn : ptr) : M state unit := vnode_decref vn.

(** An operation on the directory a path leads to. *)
Definition on_parent (opstr : string) (path : list Z) (op : loc → list Z → dirop) : M state Z :=
  r ← vfs_lookparent path;
  match r with
  | inl result => mret result
  | inr (dir, name) =>
      result ← vop opstr dir (λ d, dirop_fn (op d name));
      vnode_decref dir;;
      mret result
  end.

Definition vfs_remove (path : list Z) : M state Z := on_parent "remove" path Remove.
Definition vfs_symlink (contents path : list Z) : M state Z :=
  on_parent "symlink" path (λ d name, Symlink d name contents).
Definition vfs_mkdir (path : list Z) (mode : Z) : M state Z := on_parent "mkdir" path (λ d name, Mkdir d name mode).
Definition vfs_rmdir (path : list Z) : M state Z := on_parent "rmdir" path Rmdir.

(** Whether two vnodes are on the same file system. *)
Definition same_fs (vn1 vn2 : ptr) : M state bool :=
  fs1 ← vn_field vn1 vn_fs;
  fs2 ← vn_field vn2 vn_fs;
  mret (bool_decide (fs1 ≠ None ∧ fs2 ≠ None ∧ fs1 = fs2)).

Definition vfs_rename (oldpath newpath : list Z) : M state Z :=
  r ← vfs_lookparent oldpath;
  match r with
  | inl result => mret result
  | inr (olddir, oldname) =>
      r ← vfs_lookparent newpath;
      match r with
      | inl result => vnode_decref olddir;; mret result
      | inr (newdir, newname) =>
          same ← same_fs olddir newdir;
          if negb same then vnode_decref newdir;; vnode_decref olddir;; mret EXDEV
          else
            result ← vop "rename" olddir (λ d1 e, match newdir with
              | Some d2 => dirop_fn (Rename d1 oldname d2 newname) e | None => (0, e) end);
            vnode_decref newdir;;
            vnode_decref olddir;;
            mret result
      end
  end.

Definition vfs_link (oldpath newpath : list Z) : M state Z :=
  r ← vfs_lookup oldpath;
  match r with
  | inl result => mret result
  | inr oldfile =>
      r ← vfs_lookparent newpath;
      match r with
      | inl result => vnode_decref oldfile;; mret result
      | inr (newdir, newname) =>
          same ← same_fs oldfile newdir;
          if negb same then vnode_decref newdir;; vnode_decref oldfile;; mret EXDEV
          else
            result ← vop "link" newdir (λ d e, match oldfile with
              | Some f => dirop_fn (Link d newname f) e | None => (0, e) end);
            vnode_decref newdir;;
            vnode_decref oldfile;;
            mret result
      end
  end.

(** The bytes go to the kernel buffer of the caller's [uio], of [len] bytes. *)
Definition vfs_readlink (path : list Z) (len : nat) : M state (Z + list Z) :=
  r ← vfs_lookup path;
  match r with
  | inl result => mret (inl result)
  | inr vn => result ← vop "readlink" vn (λ v, readlink_fn v len); vnode_decref vn;; mret result
  end.

(** ** vfscwd.c *)

Definition vfs_getcurdir : M state (Z + ptr) :=
  cur ← curproc;
  p_lock_acquire cur;;
  x ← get_proc cur;
  rv ← (match p_cwd x with
        | Some _ => vnode_incref (p_cwd x);; mret (inr (p_cwd x))
        | None => mret (inl ENOENT)
        end);
  p_lock_release cur;;
  mret rv.

(** Exchanging the current directory. *)
Definition swap_cwd (dir : ptr) : M state unit :=
  cur ← curproc;
  p_lock_acquire cur;;
  x ← get_proc cur;
  put_proc cur (set_p_cwd dir);;
  p_lock_release cur;;
  match p_cwd x with Some _ => vnode_decref (p_cwd x) | None => mret tt end.

Definition vfs_setcurdir (dir : ptr) : M state Z :=
  r ← vop "gettype" dir gettype_fn;
  match r with
  | inl result => mret result
  | inr vtype =>
      if bool_decide (vtype ≠ S_IFDIR) then mret ENOTDIR
      else vnode_incref dir;; swap_cwd dir;; mret 0
  end.

Definition vfs_clearcurdir : M state Z := swap_cwd None;; mret 0.

Definition vfs_chdir (path : list Z) : M state Z :=
  r ← vfs_lookup path;
  match r with
  | inl result => mret result
  | inr vn => result ← vfs_setcurdir vn; vnode_decref vn;; mret result
  end.

(** The name of the volume, a colon, and the path within it, as far as they fit
    in the caller's kernel buffer of [len] bytes. *)
Definition vfs_getcwd (len : nat) : M state (Z + list Z) :=
  r ← vfs_getcurdir;
  match r with
  | inl result => mret (inl result)
  | inr cwd =>
      fs ← vn_field cwd vn_fs;
      kassert (bool_decide (fs ≠ None));;
      name ← vn_field cwd volname_fn;
      let front := take len (name ++ [58]) in
      r ← vop "namefile" cwd (λ v, namefile_fn v (len - length front));
      vnode_decref cwd;;
      mret (match r with inl e => inl e | inr rest => inr (front ++ rest) end)
  end.
End vfs.

(** ** What every operation on a vnode does to the state *)

(** The state after an operation: the file system's data are [e], and [out] may
    have been printed. *)
Definition stepped (e : extdata) (out : list Z) (s : state) : state :=
  upd_console (λ c, c ++ out) (upd_ext (λ _, e) s).

Lemma printed_nothing (s : state) : upd_console (λ c, c ++ []) s = s.
Proof. destruct s as [? ? ? [? ? ? out] ?]. rw /upd_console /=. by rw app_nil_r. Qed.

Lemma wp_vnode_check opstr v n (Q : unit → state → Prop) s :
  vns s !! v = Some n → 0 < n → (∀ out, Q tt (upd_console (λ c, c ++ out) s)) → wp (vnode_check (Some v) opstr) Q s.
Proof.
  intros Hn H0 HQ. rw /vnode_check. wp_step. eapply wp_deref; [done|]. rw (bool_decide_eq_false_2 (n < 0)); [|lia]. rw (bool_decide_eq_false_2 (n = 0)); [|lia].
  case_bool_decide; [apply wp_modify, HQ|]. apply wp_ret. rw -(printed_nothing s). apply HQ.
Qed.

(** An operation on a vnode that has references. *)
Lemma wp_vop `{!FileSystem} {A} opstr v (f : loc → extdata → A * extdata) (Q : A → state → Prop) s :
  (∃ n, vns s !! v = Some n ∧ 0 < n) → (∀ a e out, f v (ext s) = (a, e) → Q a (stepped e out s)) →
  wp (vop opstr (Some v) f) Q s.
Proof.
  intros (n & Hn & H0) HQ. rw /vop. wp_step. eapply wp_vnode_check; [done..|]. intros out. wp_step.
  eapply wp_nonnull; [done|]. rw /wp /ext_step. change (ext (upd_console _ s)) with (ext s).
  destruct (f v (ext s)) as [a e] eqn:Hf. by apply HQ.
Qed.
