(* ===== verification/MemFs.v ===== *)
(** * A small file system in memory

    An instance of the [FileSystem] interface on which handlers can be run: a
    flat directory, the vnode [rootv], of files named by one byte; the vnode of
    a file is its name plus one, its contents are [ext_]'s bytes. *)

From stdpp Require Import base tactics list gmap option numbers ssreflect.
From S2P Require Import Prelude Kern Os Vfs.

Open Scope Z_scope.

Definition rootv : loc := 1000%positive.

Definition name_vnode (name : list Z) : option loc :=
  match name with [c] => Some (Z.to_pos (c + 1)) | _ => None end.

Definition find_file (name : list Z) (e : extdata) : Z + loc :=
  match name_vnode name with
  | Some v => match e !! v with Some _ => inr v | None => inl ENOENT end
  | None => inl ENOENT
  end.

Definition do_dirop (op : dirop) (e : extdata) : Z * extdata :=
  match op with
  | Remove _ name => match find_file name e with inl r => (r, e) | inr v => (0, delete v e) end
  | Rename _ n1 _ n2 =>
      match find_file n1 e, name_vnode n2 with
      | inr v, Some w => (0, <[w := default [] (e !! v)]> (delete v e))
      | inl r, _ => (r, e)
      | _, None => (EINVAL, e)
      end
  | _ => (ENOSYS, e)
  end.

(** [data] over the bytes of a file from [pos] on. *)
Definition overwrite (bs : list Z) (pos : nat) (data : list Z) : list Z :=
  take pos (bs ++ replicate (pos - length bs) 0) ++ data ++ drop (pos + length data) bs.

#[export] Instance memfs : FileSystem := {|
  lookup_fn p e := (match p with [] => inr rootv | _ => find_file p e end, e);
  lookparent_fn p e := (match p with [] => inl EINVAL | _ => inr (rootv, p) end, e);
  creat_fn _ name excl _ e :=
    match find_file name e, name_vnode name with
    | inr v, _ => ((if excl then inl EEXIST else inr v), e)
    | inl _, Some v => (inr v, <[v := []]> e)
    | inl r, None => (inl r, e)
    end;
  eachopen_fn _ _ e := (0, e);
  truncate_fn v len e := (0, <[v := take (Z.to_nat len) (default [] (e !! v))]> e);
  dirop_fn := do_dirop;
  read_fn v pos len e := (inr (take len (drop (Z.to_nat pos) (default [] (e !! v)))), e);
  readlink_fn _ _ e := (inl ENOSYS, e);
  write_fn v pos data e := (inr (length data), <[v := overwrite (default [] (e !! v)) (Z.to_nat pos) data]> e);
  stat_fn v e := (inr (Z.of_nat (length (default [] (e !! v)))), e);
  gettype_fn v e := (inr (if decide (v = rootv) then S_IFDIR else 4096), e);
  isseekable_fn _ e := (true, e);
  namefile_fn _ _ e := (inr [], e);
  volname_fn _ e := ([109], e);
  vn_fs _ e := (Some 1001%positive, e);
  reclaim_fn _ e := (0, e);
  as_copy_fn a e := (inr (a + 5000)%positive, e);
  as_destroy_fn _ e := e
|}.
