(* ===== verification/VfsThms.v ===== *)
(** * The VFS layer keeps its reference counts

    Every operation on a path gives back each vnode reference it takes, on every
    branch; a vnode stays only when [VOP_RECLAIM] refuses to let it go. *)

From stdpp Require Import base tactics list gmap option numbers strings ssreflect.
From S2P Require Import Prelude Kern Os Kprintf Vfs MemFs.

Open Scope Z_scope.

Section balance.
Context `{!FileSystem}.

(** Live vnodes have between 1 and [k - 1] references. *)
Definition counts_below (k : Z) (s : state) : Prop := ∀ v n, vns s !! v = Some n → 1 ≤ n < k.

(** The state with one more reference. *)
Definition with_ref (v : loc) (s : state) : state := upd_vns <[v := default 0 (vns s !! v) + 1]> s.

Lemma stepped_same s : stepped (ext s) [] s = s.
Proof. rw /stepped printed_nothing. by destruct s as [? [] ? ? ?]. Qed.
Lemma stepped_twice e out e' out' s : stepped e out (stepped e' out' s) = stepped e (out' ++ out) s.
Proof. rw /stepped /upd_console. os_simpl. by rw assoc_L. Qed.

Lemma counts_ref k v s : 1 ≤ k → counts_below k s → counts_below (k + 1) (with_ref v s).
Proof.
  intros Hk Hc w n. rw /with_ref. os_simpl. intros [[<- <-]|[Hne Hw]]%lookup_insert_Some.
  - destruct (vns s !! v) as [n|] eqn:Hv; simpl; [apply Hc in Hv|]; lia.
  - apply Hc in Hw. lia.
Qed.

Lemma counts_mono k k' s : k ≤ k' → counts_below k s → counts_below k' s.
Proof. intros Hk Hc v n Hv. apply Hc in Hv. lia. Qed.

(** ** Rules for the primitives *)

Lemma wp_ext_step {A} (f : extdata → A * extdata) (Q : A → state → Prop) s :
  (∀ a e out, Q a (stepped e out s)) → wp (ext_step f) Q s.
Proof.
  intros HQ. rw /wp /ext_step. destruct (f (ext s)) as [a e] eqn:Hf. rw -(printed_nothing (upd_ext _ s)). apply HQ.
Qed.

Lemma wp_vop_counted {A} k opstr v (f : loc → extdata → A * extdata) (Q : A → state → Prop) s :
  counts_below k s → is_Some (vns s !! v) → (∀ a e out, Q a (stepped e out s)) → wp (vop opstr (Some v) f) Q s.
Proof. intros Hc [n Hn] HQ. apply wp_vop; [exists n; apply Hc in Hn as ?; split; [done|lia] | by intros]. Qed.

Lemma wp_vn_field {A} v (f : loc → extdata → A * extdata) (Q : A → state → Prop) s :
  is_Some (vns s !! v) → (∀ a e out, Q a (stepped e out s)) → wp (vn_field (Some v) f) Q s.
Proof.
  intros [n Hn] HQ. rw /vn_field. wp_step. eapply wp_nonnull; [done|]. wp_step. eapply wp_deref; [done|]. by apply wp_ext_step.
Qed.

Lemma wp_handed k v (Q : unit → state → Prop) s :
  counts_below k s → k < 2 ^ 31 → Q tt (with_ref v s) → wp (handed v) Q s.
Proof.
  intros Hc Hk HQ. rw /handed. wp_step. wp_step. apply wp_modify.
  rw s32_small; [done|]. destruct (vns s !! v) as [n|] eqn:Hv; simpl; [apply Hc in Hv|]; lia.
Qed.

Lemma wp_vnode_incref k v (Q : unit → state → Prop) s :
  counts_below k s → k < 2 ^ 31 → is_Some (vns s !! v) → Q tt (with_ref v s) → wp (vnode_incref (Some v)) Q s.
Proof.
  intros Hc Hk [n Hn] HQ. rw /vnode_incref /vnode_count. wp_step. wp_step. eapply wp_deref; [done|].
  wp_step. wp_step. rw /with_ref Hn in HQ. apply Hc in Hn. rw s32_small; [done|lia].
Qed.

Lemma with_ref_undo s m : m = vns s → upd_vns (λ _, m) s = s.
Proof. intros ->. by destruct s as [? [] ? ? ?]. Qed.

(** ** What the operations keep

    Only the file system's data and the console may have changed, and a vnode that
    had no reference may have kept one, because [VOP_RECLAIM] has refused to let it
    go. *)
Record kept (s s' : state) : Prop := {
  k_counts : ∀ v, vns s' !! v = vns s !! v ∨ vns s !! v = None ∧ vns s' !! v = Some 1;
  k_rest : ∃ out, s' = upd_vns (λ _, vns s') (stepped (ext s') out s);
  k_reclaimed : (∀ v e, (reclaim_fn v e).1 = 0) → vns s' = vns s
}.

Lemma kept_stepped s e out : kept s (stepped e out s).
Proof. split; [by left | exists out; by destruct s as [? [] ? [] ?] | done]. Qed.
Lemma kept_refl s : kept s s.
Proof. rw -{2}(stepped_same s). apply kept_stepped. Qed.

Lemma kept_then s1 s2 s3 : kept s1 s2 → kept s2 s3 → kept s1 s3.
Proof.
  intros [C1 [o1 R1] Q1] [C2 [o2 R2] Q2]. split.
  - intros v. destruct (C1 v) as [H1|[H1 H1']], (C2 v) as [H2|[H2 H2']]; first [left; congruence | right; split; congruence].
  - exists (o1 ++ o2). by rw {1}R2 {1}R1 -(stepped_twice _ _ (ext s2)).
  - intros Hz. by rw (Q2 Hz) (Q1 Hz).
Qed.

Lemma kept_counts k s s' : 2 ≤ k → kept s s' → counts_below k s → counts_below k s'.
Proof. intros Hk [C _ _] Hc v n Hv. destruct (C v) as [Hn|[_ Hn]]; rw Hn in Hv; [by eapply Hc|]. simplify_eq. lia. Qed.

(** A reference more, before or after. *)
Lemma kept_with_ref v s s' : kept (with_ref v s) s' → ∃ s1, kept s s1 ∧ s' = with_ref v s1.
Proof.
  intros [C R Q]. set (m := match vns s !! v with Some n => <[v := n]> (vns s') | None => delete v (vns s') end).
  assert (vns s' !! v = Some (default 0 (vns s !! v) + 1)) as Hv.
  { destruct (C v) as [Hn|[Hn _]]; rw /with_ref in Hn; os_simpl in Hn; rw lookup_insert_eq // in Hn. }
  assert (m !! v = vns s !! v) as Hm by (rw /m; destruct (vns s !! v); rw ?lookup_insert_eq ?lookup_delete_eq //).
  assert (∀ w, w ≠ v → m !! w = vns s' !! w) as Hw by (intros w Hne; rw /m; destruct (vns s !! v); rw ?lookup_insert_ne ?lookup_delete_ne //).
  assert (∀ w, w ≠ v → vns (with_ref v s) !! w = vns s !! w) as Hr by (intros w Hne; rw /with_ref; os_simpl; by rw lookup_insert_ne).
  exists (upd_vns (λ _, m) s'). split; [split|].
  - intros w. os_simpl. destruct (decide (w = v)) as [->|Hne]; [by left|]. rw Hw // -Hr //.
  - destruct R as [out R]. exists out. rw {1}R. by destruct s as [? [] ? [] ?].
  - intros Hz. os_simpl. apply map_eq. intros w. destruct (decide (w = v)) as [->|Hne]; [done|]. by rw Hw // (Q Hz) Hr.
  - rw /with_ref. os_simpl. rw Hm. assert (<[v := default 0 (vns s !! v) + 1]> m = vns s') as Heq.
    { apply map_eq. intros w. destruct (decide (w = v)) as [->|Hne]; [by rw lookup_insert_eq|]. by rw lookup_insert_ne // Hw. }
    rw (_ : upd_vns _ (upd_vns _ s') = upd_vns (λ _, <[v := default 0 (vns s !! v) + 1]> m) s'); [|done].
    by rw Heq (with_ref_undo s').
Qed.

(** ** Giving a reference back *)

Definition reclaim_errors : Prop := ∀ v e, 0 ≤ (reclaim_fn v e).1 < sys_nerr.

(** The counts are those of before; a vnode that had none is reclaimed, or the file
    system refuses. *)
Lemma wp_vnode_decref k v (Q : unit → state → Prop) s :
  reclaim_errors → counts_below k s → k < 2 ^ 31 → (∀ s', kept s s' → Q tt s') → wp (vnode_decref (Some v)) Q (with_ref v s).
Proof.
  intros He Hc Hk HQ. rw /vnode_decref /vnode_count. wp_step. wp_step.
  eapply wp_deref; [rw /with_ref; os_simpl; by rw lookup_insert_eq|]. wp_step.
  destruct (vns s !! v) as [n|] eqn:Hv; cbn [from_option id].
  - apply Hc in Hv as Hn. wp_step. apply wp_kassert; [apply bool_decide_eq_true; lia|].
    rw bool_decide_eq_true_2; [|lia]. apply wp_modify. rw s32_small; [|lia].
    replace (upd_vns _ (with_ref v s)) with s; [apply HQ, kept_refl|].
    rw /with_ref. symmetry. apply (with_ref_undo s). rw insert_insert_eq insert_id // Hv. f_equal. lia.
  - wp_step. apply wp_kassert; [done|]. rw bool_decide_eq_false_2; [|lia]. wp_step. rw /VOP_RECLAIM. wp_step.
    assert (vns (with_ref v s) !! v = Some 1) as H1 by (rw /with_ref; os_simpl; by rw lookup_insert_eq Hv).
    apply wp_vop; [by exists 1|]. intros result e out Hr.
    change (ext (with_ref v s)) with (ext s) in Hr. pose proof (He v (ext s)) as Hrange. rw Hr /= in Hrange. bd_case (result = 0) as H0.
    + wp_step. apply wp_modify, wp_ret. rw bool_decide_eq_false_2; [|lia]. apply wp_ret.
      replace (upd_vns _ _) with (stepped e out s); [apply HQ, kept_stepped|]. symmetry.
      apply (with_ref_undo (stepped e out s)). rw /with_ref. os_simpl. by rw delete_insert_id.
    + apply wp_ret. assert (∀ out, kept s (stepped e out (with_ref v s))) as Hkept.
      { intros out'. split.
        - intros w. rw /with_ref. os_simpl. destruct (decide (w = v)) as [->|Hne]; [right; by rw lookup_insert_eq Hv|].
          left. by rw lookup_insert_ne.
        - exists out'. by destruct s as [? [] ? [] ?].
        - intros Hz. pose proof (Hz v (ext s)) as Hz'. by rw Hr in Hz'. }
      case_bool_decide; [|by apply wp_ret, HQ].
      wp_step. rw /strerror bool_decide_eq_true_2; [|lia]. apply wp_ret. apply wp_modify. apply HQ.
      match goal with |- kept _ (upd_console (λ c, c ++ ?x) _) => change (kept s (stepped e x (stepped e out (with_ref v s)))) end.
      rw stepped_twice. apply Hkept.
Qed.

Hint Resolve kept_refl kept_stepped : kern.

Lemma with_ref_comm v w s : with_ref v (with_ref w s) = with_ref w (with_ref v s).
Proof.
  rw /with_ref. os_simpl. destruct (decide (v = w)) as [->|Hne]; [done|].
  rw !lookup_insert_ne //. destruct s as [? [] ? ? ?]. rw /upd_vns. os_simpl. f_equal. f_equal.
  rw insert_insert_ne //.
Qed.

Definition few (s : state) : Prop := counts_below (2 ^ 31 - 4) s.

Lemma few_kept s s' : kept s s' → few s → few s'.
Proof. intros Hk. apply kept_counts; [lia | exact Hk]. Qed.
Lemma few_ref v s : few s → counts_below (2 ^ 31 - 3) (with_ref v s).
Proof. intros Hc. apply (counts_ref (2 ^ 31 - 4)); [lia | exact Hc]. Qed.

(** A vnode is handed back with one more reference, or the operation fails. *)
Definition handed_back (s : state) (r : Z + ptr) (s' : state) : Prop :=
  match r with inl _ => kept s s' | inr vn => ∃ v s1, vn = Some v ∧ kept s s1 ∧ s' = with_ref v s1 end.

Lemma vfs_lookup_spec k path s :
  counts_below k s → k < 2 ^ 31 → wp (vfs_lookup path) (handed_back s) s.
Proof.
  intros Hc Hk. rw /vfs_lookup. wp_step. apply wp_ext_step. intros [e0|v] e out; cbn iota.
  - wp_step. apply kept_stepped.
  - wp_step. eapply wp_handed; [done|done|]. apply wp_ret. exists v, (stepped e out s). auto with kern.
Qed.

Lemma vfs_lookparent_spec k path s :
  counts_below k s → k < 2 ^ 31 →
  wp (vfs_lookparent path) (λ r s', match r with
    | inl _ => kept s s' | inr (vn, _) => ∃ v s1, vn = Some v ∧ kept s s1 ∧ s' = with_ref v s1 end) s.
Proof.
  intros Hc Hk. rw /vfs_lookparent. wp_step. apply wp_ext_step. intros [e0|[v name]] e out; cbn iota.
  - wp_step. apply kept_stepped.
  - wp_step. eapply wp_handed; [done|done|]. apply wp_ret. exists v, (stepped e out s). auto with kern.
Qed.

Lemma with_ref_some v s : is_Some (vns (with_ref v s) !! v).
Proof. rw /with_ref. os_simpl. rw lookup_insert_eq. by eexists. Qed.
Lemma with_ref_some_other v w s : is_Some (vns s !! w) → is_Some (vns (with_ref v s) !! w).
Proof. intros Hw. rw /with_ref. os_simpl. destruct (decide (v = w)) as [->|]; [rw lookup_insert_eq|rw lookup_insert_ne //]. by eexists. Qed.

Hypothesis errors : reclaim_errors.

(** While an operation holds a reference to [v]: it calls the file system, *)
Lemma wp_vop_held {A} k opstr u v (f : loc → extdata → A * extdata) (Q : A → state → Prop) s s1 :
  2 ≤ k → counts_below k s → kept s s1 → is_Some (vns (with_ref v s1) !! u) →
  (∀ a s2, kept s s2 → Q a (with_ref v s2)) → wp (vop opstr (Some u) f) Q (with_ref v s1).
Proof.
  intros H2 Hc Hk Hu HQ. eapply (wp_vop_counted (k + 1)); [|done|].
  - apply counts_ref; [lia|]. by apply (kept_counts k s s1).
  - intros a e out. apply (HQ a (stepped e out s1)). eapply kept_then; [exact Hk | apply kept_stepped].
Qed.

(** looks at the vnode, *)
Lemma wp_field_held {A} u v (f : loc → extdata → A * extdata) (Q : A → state → Prop) s s1 :
  kept s s1 → is_Some (vns (with_ref v s1) !! u) →
  (∀ a s2, kept s s2 → Q a (with_ref v s2)) → wp (vn_field (Some u) f) Q (with_ref v s1).
Proof.
  intros Hk Hu HQ. apply wp_vn_field; [done|]. intros a e out. apply (HQ a (stepped e out s1)).
  eapply kept_then; [exact Hk | apply kept_stepped].
Qed.

(** and gives the reference back. *)
Lemma give_back {A} v (r : A) s s1 (Q : A → state → Prop) :
  few s → kept s s1 → (∀ s', kept s s' → Q r s') → wp (vnode_decref (Some v);; mret r) Q (with_ref v s1).
Proof.
  intros Hc Hk HQ. wp_step. apply (wp_vnode_decref (2 ^ 31 - 4) v _ s1); [done | | lia |].
  - exact (few_kept _ _ Hk Hc).
  - intros s' Hk'. apply wp_ret, HQ. by eapply kept_then.
Qed.

Lemma on_parent_spec opstr path op s : few s → wp (on_parent opstr path op) (λ _ s', kept s s') s.
Proof.
  intros Hc. rw /on_parent. wp_step.
  eapply wp_mono; [eapply vfs_lookparent_spec; [done|lia]|]. intros [e0|[vn name]] s1.
  - intros Hs. by apply wp_ret.
  - intros (v & s0 & -> & Hk & ->). wp_step. eapply (wp_vop_held (2 ^ 31 - 4)); [lia | exact Hc | exact Hk | apply with_ref_some|].
    intros r s2 Hk2. by apply (give_back v r s s2).
Qed.

(** Two references given back, newest first. *)
Lemma decref_both v w r s s1 s2 (Q : Z → state → Prop) :
  few s → kept s s1 → kept (with_ref v s1) s2 → (∀ s', kept s s' → Q r s') →
  wp (vnode_decref (Some w);; vnode_decref (Some v);; mret r) Q (with_ref w s2).
Proof.
  intros Hc Hk1 Hk2 HQ. wp_step. pose proof (few_kept _ _ Hk1 Hc) as Hc1.
  apply (wp_vnode_decref (2 ^ 31 - 3) w _ s2); [done | | lia |].
  - exact (kept_counts (2 ^ 31 - 3) (with_ref v s1) s2 ltac:(lia) Hk2 (few_ref v s1 Hc1)).
  - intros s3 Hk3. destruct (kept_with_ref v s1 s3) as (s4 & Hk4 & ->); [by eapply kept_then|].
    apply (give_back v r s s4); [done | by eapply kept_then | done].
Qed.

(** [rename] and [link] once both vnodes are at hand. *)
Lemma two_vnodes_spec opstr v w s s1 s2 opv f :
  few s → kept s s1 → kept (with_ref v s1) s2 → opv = v ∨ opv = w →
  wp (same ← same_fs (Some v) (Some w);
      if negb same then vnode_decref (Some w);; vnode_decref (Some v);; mret EXDEV
      else result ← vop opstr (Some opv) f; vnode_decref (Some w);; vnode_decref (Some v);; mret result)
    (λ _ s', kept s s') (with_ref w s2).
Proof.
  intros Hc Hk1 Hk2 Hop. pose proof (few_ref v _ (few_kept _ _ Hk1 Hc)) as Hcv.
  assert (∀ s3, kept (with_ref v s1) s3 → is_Some (vns (with_ref w s3) !! v)) as Hv.
  { intros s3 Hk3. destruct (kept_with_ref _ _ _ Hk3) as (s4 & _ & ->). apply with_ref_some_other, with_ref_some. }
  wp_step. rw /same_fs. wp_step. apply (wp_field_held v w _ _ (with_ref v s1) s2); [done | by apply Hv|]. intros r1 s3 Hk3.
  wp_step. apply (wp_field_held w w _ _ (with_ref v s1) s3); [done | apply with_ref_some|]. intros r2 s4 Hk4.
  wp_step. destruct (bool_decide _); simpl negb; cbn iota.
  - wp_step. apply (wp_vop_held (2 ^ 31 - 3) opstr opv w _ _ (with_ref v s1) s4); [lia | done | done | |].
    { destruct Hop as [-> | ->]; [by apply Hv | apply with_ref_some]. }
    intros r s5 Hk5. by apply (decref_both v w r s s1 s5).
  - by apply (decref_both v w EXDEV s s1 s4).
Qed.

Lemma vfs_rename_spec oldpath newpath s : few s → wp (vfs_rename oldpath newpath) (λ _ s', kept s s') s.
Proof.
  intros Hc. rw /vfs_rename. wp_step.
  eapply wp_mono; [eapply vfs_lookparent_spec; [done|lia]|]. intros [e0|[vn name]] s1.
  { intros Hs. by apply wp_ret. }
  intros (v & s0 & -> & Hk & ->). wp_step. pose proof (few_ref v _ (few_kept _ _ Hk Hc)) as Hc1.
  eapply wp_mono; [eapply vfs_lookparent_spec; [exact Hc1|lia]|]. intros [e0|[vn name']] s2.
  - intros Hk2. destruct (kept_with_ref _ _ _ Hk2) as (s3 & Hk3 & ->).
    apply (give_back v e0 s s3); [done | by eapply kept_then | done].
  - intros (w & s3 & -> & Hk3 & ->). apply (two_vnodes_spec _ v w s s0 s3); [done | done | done | by left].
Qed.

Lemma vfs_link_spec oldpath newpath s : few s → wp (vfs_link oldpath newpath) (λ _ s', kept s s') s.
Proof.
  intros Hc. rw /vfs_link. wp_step.
  eapply wp_mono; [eapply vfs_lookup_spec; [done|lia]|]. intros [e0|vn] s1.
  { intros Hs. by apply wp_ret. }
  intros (v & s0 & -> & Hk & ->). wp_step. pose proof (few_ref v _ (few_kept _ _ Hk Hc)) as Hc1.
  eapply wp_mono; [eapply vfs_lookparent_spec; [exact Hc1|lia]|]. intros [e0|[vn name']] s2.
  - intros Hk2. destruct (kept_with_ref _ _ _ Hk2) as (s3 & Hk3 & ->).
    apply (give_back v e0 s s3); [done | by eapply kept_then | done].
  - intros (w & s3 & -> & Hk3 & ->). apply (two_vnodes_spec _ v w s s0 s3); [done | done | done | by right].
Qed.

Lemma vfs_readlink_spec path len s : few s → wp (vfs_readlink path len) (λ _ s', kept s s') s.
Proof.
  intros Hc. rw /vfs_readlink. wp_step.
  eapply wp_mono; [eapply vfs_lookup_spec; [done|lia]|]. intros [e0|vn] s1.
  { intros Hs. by apply wp_ret. }
  intros (v & s0 & -> & Hk & ->). wp_step. eapply (wp_vop_held (2 ^ 31 - 4)); [lia | exact Hc | exact Hk | apply with_ref_some|].
  intros r s2 Hk2. by apply (give_back v r s s2).
Qed.

Lemma vfs_close_spec v s : few s → wp (vfs_close (Some v)) (λ _ s', kept s s') (with_ref v s).
Proof. intros Hc. rw /vfs_close. by apply (wp_vnode_decref (2 ^ 31 - 4)). Qed.

Lemma open_vnode_spec path flags mode s : few s → wp (open_vnode path flags mode) (handed_back s) s.
Proof.
  intros Hc. rw /open_vnode. case_bool_decide as Hf; [|eapply vfs_lookup_spec; [done|lia]]. wp_step.
  eapply wp_mono; [eapply vfs_lookparent_spec; [done|lia]|]. intros [e0|[vn name]] s1.
  { intros Hs. by apply wp_ret. }
  intros (d & s0 & -> & Hk & ->). wp_step. rw /VOP_CREAT. wp_step.
  eapply (wp_vop_held (2 ^ 31 - 4)); [lia | exact Hc | exact Hk | apply with_ref_some|].
  intros [e1|v] s2 Hk2; cbn iota; pose proof (few_kept _ _ Hk2 Hc) as Hc2.
  - wp_step. by apply (give_back d _ s s2).
  - wp_step. eapply wp_handed; [by apply (few_ref d s2) | lia|]. wp_step. wp_step. rw with_ref_comm.
    eapply wp_vnode_decref; [done | by apply (few_ref v s2) | lia |].
    intros s3 Hk3. destruct (kept_with_ref _ _ _ Hk3) as (s4 & Hk4 & ->). apply wp_ret. exists v, s4. split; [done|]. split; [|done].
    by eapply kept_then.
Qed.

Lemma vfs_open_spec path flags mode s : few s → wp (vfs_open path flags mode) (handed_back s) s.
Proof.
  intros Hc. rw /vfs_open. case_bool_decide as Hhow; [apply wp_ret, kept_refl|].
  wp_step. eapply wp_mono; [by apply open_vnode_spec|]. intros [e0|vn] s1.
  { intros Hs. by apply wp_ret. }
  intros (v & s0 & -> & Hk & ->). wp_step. apply wp_kassert; [done|]. wp_step.
  eapply (wp_vop_held (2 ^ 31 - 4)); [lia | exact Hc | exact Hk | apply with_ref_some|]. intros r1 s2 Hk2.
  assert (∀ r s', kept s s' → wp (vnode_decref (Some v);; mret (inl r)) (handed_back s) (with_ref v s')) as Hfail.
  { intros r s' Hk'. by apply (give_back v _ s s'). }
  assert (∀ s', kept s s' → handed_back s (inr (Some v)) (with_ref v s')) as Hdone by (intros s' Hk'; by exists v, s').
  case_bool_decide; [by apply Hfail|]. case_bool_decide; [|by apply wp_ret, Hdone]. wp_step.
  assert (∀ r2 s', kept s s' → wp (if bool_decide (r2 ≠ 0) then vnode_decref (Some v);; mret (inl r2) else mret (inr (Some v)))
    (handed_back s) (with_ref v s')) as Hend.
  { intros r2 s' Hk'. case_bool_decide; [by apply Hfail|]. by apply wp_ret, Hdone. }
  case_bool_decide.
  - eapply (wp_vop_held (2 ^ 31 - 4)); [lia | exact Hc | exact Hk2 | apply with_ref_some|]. intros r2 s3 Hk3. by apply Hend.
  - apply wp_ret. by apply Hend.
Qed.
End balance.

(** C24: every operation of vfspath.c (path operations, and [vfs_close] of a vnode
    on which the caller has a reference) returns, and gives back each vnode
    reference it takes on every branch, errors included.  Afterwards the counts are
    what they were, and only the file systems' own data may have changed and
    warnings been printed; a successful [vfs_open] keeps exactly one reference, to
    the vnode it returns.  The exception is a vnode without other references that
    [VOP_RECLAIM] refuses to let go: it keeps one; when it never refuses, all counts
    are exactly what they were.  Assumed: the counts are at least 1 and start five
    below their maximum, and [VOP_RECLAIM] returns 0 or an error number. *)
Theorem vfs_paths_balance `{!FileSystem} s path path' flags mode len v :
  reclaim_errors → few s →
  wp (vfs_open path flags mode) (handed_back s) s ∧
  wp (vfs_close (Some v)) (λ _ s', kept s s') (with_ref v s) ∧
  wp (vfs_remove path) (λ _ s', kept s s') s ∧
  wp (vfs_mkdir path mode) (λ _ s', kept s s') s ∧
  wp (vfs_rmdir path) (λ _ s', kept s s') s ∧
  wp (vfs_symlink path' path) (λ _ s', kept s s') s ∧
  wp (vfs_readlink path len) (λ _ s', kept s s') s ∧
  wp (vfs_rename path path') (λ _ s', kept s s') s ∧
  wp (vfs_link path path') (λ _ s', kept s s') s.
Proof.
  intros He Hc. repeat split; first [by apply vfs_open_spec | by apply vfs_close_spec | by apply on_parent_spec
    | by apply vfs_readlink_spec | by apply vfs_rename_spec | by apply vfs_link_spec].
Qed.

(** ** Witness *)

(** Two files, the first one open. *)
Definition two_files : state :=
  State (Base ∅ [] ∅ 1%positive)
    (FsData ∅ ∅ ∅ ∅ ∅ ∅ {[98%positive := 1]} {[98%positive := [1; 2]; 99%positive := [3]]})
    (PsData ∅ ∅ ∅ ∅ ∅ [] ∅) (IoData ∅ (λ _, 0) [] []) (Globals None None None None).

(** The root directory is in use: its vnode stays. *)
#[local] Instance busy_root : FileSystem := {|
  lookup_fn := lookup_fn (FileSystem := memfs); lookparent_fn := lookparent_fn (FileSystem := memfs);
  creat_fn := creat_fn (FileSystem := memfs); eachopen_fn := eachopen_fn (FileSystem := memfs);
  truncate_fn := truncate_fn (FileSystem := memfs); dirop_fn := dirop_fn (FileSystem := memfs);
  read_fn := read_fn (FileSystem := memfs); readlink_fn := readlink_fn (FileSystem := memfs);
  write_fn := write_fn (FileSystem := memfs); stat_fn := stat_fn (FileSystem := memfs);
  gettype_fn := gettype_fn (FileSystem := memfs); isseekable_fn := isseekable_fn (FileSystem := memfs);
  namefile_fn := namefile_fn (FileSystem := memfs); volname_fn := volname_fn (FileSystem := memfs);
  vn_fs := vn_fs (FileSystem := memfs);
  reclaim_fn v e := (if decide (v = rootv) then 32 else 0, e);
  as_copy_fn := as_copy_fn (FileSystem := memfs); as_destroy_fn := as_destroy_fn (FileSystem := memfs)
|}.

(** In the run, "a" is opened; "b" is removed, and the directory stays, with a
    warning. *)
Lemma vfs_paths_balance_witness :
  (wp (vfs_open [97] 18 0) (handed_back two_files) two_files ∧
   wp (vfs_close (Some 98%positive)) (λ _ s', kept two_files s') (with_ref 98 two_files) ∧
   wp (vfs_remove [97]) (λ _ s', kept two_files s') two_files ∧
   wp (vfs_rename [97] [98]) (λ _ s', kept two_files s') two_files) ∧
  (λ o, match o with Ok (inr (Some v)) s' => v = 98%positive ∧ vns s' !! v = Some 2 ∧ ext s' !! v = Some [] | _ => False end)
    (vfs_open [97] 18 0 two_files) ∧
  (λ o, match o with
        | Ok r s' => r = 0 ∧ vns s' !! rootv = Some 1 ∧ console s' = text "vfs: Warning: VOP_RECLAIM: Input/output error" ++ newline
        | _ => False
        end) (vfs_remove [98] two_files).
Proof.
  split; [|split; by vm_compute].
  assert (few two_files) as Hc.
  { intros v n Hn. rw /vns /= in Hn. apply lookup_singleton_Some in Hn as [_ <-]. done. }
  assert (reclaim_errors) as He by (intros v e; rw /=; by case_decide).
  destruct (vfs_paths_balance two_files [97] [98] 18 0 0 98 He Hc) as (? & ? & ? & _ & _ & _ & _ & ? & _). done.
Defined.
