(* ===== verification/FileTable.v ===== *)
(** * Open files and file tables: kern/vfs/file.c

    [struct file], the global table of open files and the per-process tables,
    function by function, on the kernel state of Os.v. *)

From stdpp Require Import base tactics list gmap option numbers ssreflect.
From S2P Require Import Prelude Kern CopyInOut Os Vfs.

Open Scope Z_scope.

Section filetable.
Context `{!FileSystem}.

(** The fields [create_file] gives a new file. *)
Definition new_file (path seek lk : ptr) : file :=
  File 1 seek lk None path (-1) (-1) false false false (-1).

(** [path] is how the caller's string is read. *)
Definition create_file (path : M state (list Z)) : M state ptr :=
  toreturn ← kmalloc;
  match toreturn with
  | None => mret None
  | Some l =>
      cs ← path;
      fpath ← kstrdup cs;
      match fpath with
      | None => kfree toreturn;; mret None
      | Some _ =>
          seek ← kmalloc;
          match seek with
          | None => kfree fpath;; kfree toreturn;; mret None
          | Some sk =>
              lk ← lock_create;
              match lk with
              | None => kfree seek;; kfree fpath;; kfree toreturn;; mret None
              | Some _ =>
                  modify (upd_offs <[sk := 0]>);;
                  modify (upd_files <[l := new_file fpath seek lk]>);;
                  mret toreturn
              end
          end
      end
  end.

(** The names as bytes: STDIN, STDOUT, STDERR. *)
Definition std_name (stdfd : Z) : list Z :=
  if bool_decide (stdfd = 0) then [83; 84; 68; 73; 78]
  else if bool_decide (stdfd = 1) then [83; 84; 68; 79; 85; 84]
  else [83; 84; 68; 69; 82; 82].

Definition create_std_file (stdfd : Z) : M state ptr :=
  stdfile ← create_file (mret (std_name stdfd));
  match stdfile with
  | None => mret None
  | Some _ =>
      f ← get_file stdfile;
      kfree (seek_pos f);;
      put_file stdfile (λ f, set_std_file_status stdfd (set_seek_pos None (set_local_fd stdfd
        (set_can_write true (set_can_read true f)))));;
      mret stdfile
  end.

Definition destroy_file (f : ptr) : M state unit :=
  match f with
  | None => mret tt
  | Some _ =>
      x ← get_file f;
      vnode_decref (file_vnode x);;
      kfree (seek_pos x);;
      kfree (file_path x);;
      lock_destroy (file_lock x);;
      kfree f
  end.

Definition destroy_dup (f : ptr) : M state unit :=
  match f with
  | None => mret tt
  | Some _ =>
      x ← get_file f;
      kfree (file_path x);;
      lock_destroy (file_lock x);;
      kfree f
  end.

(** An [off_t] through its pointer. *)
Definition get_off (p : ptr) : M state Z := get offs p.
Definition put_off (p : ptr) (v : Z) : M state unit := put offs upd_offs p (λ _, v).

(** [copy_file] copies the path twice and uses [create_file]'s result
    unchecked. *)
Definition copy_file (f : ptr) : M state ptr :=
  x ← get_file f;
  lock_acquire (file_lock x);;
  path ← cstring (file_path x);
  copyname ← kstrdup path;
  toreturn ← create_file (cstring copyname);
  put_file toreturn (set_file_vnode (file_vnode x));;
  put_file f (λ x, set_refcount (s32 (refcount x + 1)) x);;
  x ← get_file f;
  put_file toreturn (set_refcount (refcount x));;
  (match file_vnode x with Some _ => vnode_incref (file_vnode x) | None => mret tt end);;
  (match seek_pos x with
   | Some _ => v ← get_off (seek_pos x); y ← get_file toreturn; put_off (seek_pos y) v
   | None => mret tt
   end);;
  put_file toreturn (λ y, set_std_file_status (std_file_status x) (set_can_read (can_read x)
    (set_can_write (can_write x) (set_global_fd (global_fd x) (set_local_fd (local_fd x) y)))));;
  lock_release (file_lock x);;
  mret toreturn.

(** ** The global table *)

Definition g_filetable_create : M state ptr :=
  g_ft ← kmalloc;
  match g_ft with
  | None => mret None
  | Some l =>
      fs ← alloc_array OPEN_MAX;
      match fs with
      | None => kfree g_ft;; mret None
      | Some _ =>
          names ← alloc_array OPEN_MAX;
          match names with
          | None => kfree fs;; kfree g_ft;; mret None
          | Some _ =>
              f0 ← create_std_file 0; aset fs 0 f0;;
              f1 ← create_std_file 1; aset fs 1 f1;;
              f2 ← create_std_file 2; aset fs 2 f2;;
              lk ← lock_create;
              match lk with
              | None => kfree fs;; kfree names;; kfree g_ft;; mret None
              | Some _ => modify (upd_gfts <[l := GFileTable 3 lk fs names 3]>);; mret g_ft
              end
          end
      end
  end.

Definition g_filetable_destroy (g_ft : ptr) : M state unit :=
  kassert (bool_decide (g_ft ≠ None));;
  g ← get_gft g_ft;
  kassert (bool_decide (open_files g ≠ None));;
  for_up 0 OPEN_MAX (λ i,
    f ← aget (open_files g) i; destroy_file f;;
    nm ← aget (open_files_name g) i; kfree nm;;
    mret (@None unit));;
  kfree (open_files g);;
  kfree (open_files_name g);;
  lock_destroy (global_file_lk g);;
  kfree g_ft.

(** The search loops keep the last index that matches; [-1] is [None]. *)
Definition last_index (a : ptr) (test : ptr → M state bool) : M state (option nat) :=
  fold_up 0 OPEN_MAX None (λ i found,
    p ← aget a i;
    match p with
    | None => mret found
    | Some _ => b ← test p; mret (if (b : bool) then Some i else found)
    end).

Definition g_filetable_lookup (g_ft : ptr) (file_name : ptr) : M state ptr :=
  g ← get_gft g_ft;
  lock_acquire (global_file_lk g);;
  match file_name with
  | None => lock_release (global_file_lk g);; mret None
  | Some _ =>
      if bool_decide (gf_size g = 0) then lock_release (global_file_lk g);; mret None
      else
        file_index ← last_index (open_files_name g) (λ nm,
          a ← cstring nm; b ← cstring file_name; mret (bool_decide (a = b)));
        toreturn ← (match file_index with Some i => aget (open_files g) i | None => mret None end);
        lock_release (global_file_lk g);;
        mret toreturn
  end.

Definition global_table_bootstrap : M state unit :=
  ft ← g_filetable_create;
  lk ← lock_create;
  modify (λ s, State (sys s) (fsd s) (psd s) (iod s) (Globals ft lk (global_ptable (glb s)) (kproc (glb s))));;
  kassert (bool_decide (ft ≠ None ∧ lk ≠ None)).

Definition get_next_fd : M state Z :=
  g_ft ← globals_of global_ftable;
  g ← get_gft g_ft;
  lock_acquire (global_file_lk g);;
  put_gft g_ft (λ g, set_next_fd (s32 (next_fd g + 1)) g);;
  lock_release (global_file_lk g);;
  mret (next_fd g).

(** The loop stops at the first empty slot. *)
Definition put_file_on_gtable (g_ft : ptr) (file_name f : ptr) : M state Z :=
  g ← get_gft g_ft;
  lock_acquire (global_file_lk g);;
  toreturn_fd ←
    (if bool_decide (gf_size g < Z.of_nat OPEN_MAX) then
       for_up 0 OPEN_MAX (λ i,
         p ← aget (open_files g) i;
         match p with
         | None =>
             aset (open_files g) i f;;
             aset (open_files_name g) i file_name;;
             put_gft g_ft (λ g, set_gf_size (s32 (gf_size g + 1)) g);;
             mret (Some tt)
         | Some _ => mret None
         end);;
       x ← get_file f; mret (global_fd x)
     else mret (-1));
  lock_release (global_file_lk g);;
  mret toreturn_fd.

(** The index of the open file with a given [global_fd]. *)
Definition find_global_fd (g : g_filetable) (fd : Z) : M state (option nat) :=
  last_index (open_files g) (λ p, x ← get_file p; mret (bool_decide (global_fd x = fd))).

(** [todestroy] is first given a block that is never used nor freed. *)
Definition clear_file_from_gtable (g_ft : ptr) (fd : Z) : M state Z :=
  g ← get_gft g_ft;
  lock_acquire (global_file_lk g);;
  kmalloc;;
  found ← find_global_fd g fd;
  match found with
  | None => lock_release (global_file_lk g);; mret (-1)
  | Some i =>
      todestroy ← aget (open_files g) i;
      x ← get_file todestroy;
      aset (open_files g) i None;;
      aset (open_files_name g) i None;;
      destroy_file todestroy;;
      put_gft g_ft (λ g, set_gf_size (s32 (gf_size g - 1)) g);;
      lock_release (global_file_lk g);;
      mret (global_fd x)
  end.

Definition close_file_on_gtable (g_ft : ptr) (fd : Z) : M state unit :=
  g ← get_gft g_ft;
  lock_acquire (global_file_lk g);;
  found ← find_global_fd g fd;
  (match found with
   | None => mret tt
   | Some i =>
       f ← aget (open_files g) i;
       x ← get_file f;
       if bool_decide (refcount x = 1) then
         aset (open_files g) i None;;
         aset (open_files_name g) i None;;
         destroy_file f;;
         put_gft g_ft (λ g, set_gf_size (s32 (gf_size g - 1)) g)
       else put_file f (λ x, set_refcount (s32 (refcount x - 1)) x)
   end);;
  lock_release (global_file_lk g).

Definition is_file_opened (g_ft f : ptr) : M state bool :=
  g ← get_gft g_ft;
  lock_acquire (global_file_lk g);;
  x ← get_file f;
  r ← g_filetable_lookup g_ft (file_path x);
  lock_release (global_file_lk g);;
  mret (bool_decide (r ≠ None)).

Definition assign_file_fd_gtable (g_ft f : ptr) (newfd : Z) : M state unit :=
  x ← get_file f;
  g_file ← g_filetable_lookup g_ft (file_path x);
  put_file g_file (set_global_fd newfd);;
  y ← get_file g_file;
  lock_acquire (file_lock y);;
  put_file g_file (λ y, set_refcount (s32 (refcount y + 1)) y);;
  vnode_incref (file_vnode y);;
  lock_release (file_lock y).

(** ** The per-process tables *)

(** The three standard files are those of the global table. *)
Definition p_filetable_create : M state ptr :=
  p_ft ← kmalloc;
  match p_ft with
  | None => mret None
  | Some l =>
      lk ← lock_create;
      match lk with
      | None => kfree p_ft;; mret None
      | Some _ =>
          fs ← alloc_array OPEN_MAX;
          match fs with
          | None => lock_destroy lk;; kfree p_ft;; mret None
          | Some _ =>
              g_ft ← globals_of global_ftable;
              g ← get_gft g_ft;
              f0 ← aget (open_files g) 0; aset fs 0 f0;;
              f1 ← aget (open_files g) 1; aset fs 1 f1;;
              f2 ← aget (open_files g) 2; aset fs 2 f2;;
              modify (upd_pfts <[l := PFileTable lk fs true true true 0]>);;
              mret p_ft
          end
      end
  end.

Definition p_filetable_lookup (p_ft : ptr) (file_desc : Z) : M state ptr :=
  t ← get_pft p_ft;
  lock_acquire (proc_ft_lock t);;
  r ← for_up 0 OPEN_MAX (λ i,
    p ← aget (pf_files t) i;
    match p with
    | None => mret None
    | Some _ => x ← get_file p; mret (if bool_decide (local_fd x = file_desc) then Some p else None)
    end);
  lock_release (proc_ft_lock t);;
  mret (match r with Some p => p | None => None end).

Definition put_file_on_ptable (p_ft f : ptr) : M state Z :=
  t ← get_pft p_ft;
  lock_acquire (proc_ft_lock t);;
  r ← for_up 0 OPEN_MAX (λ i,
    p ← aget (pf_files t) i;
    match p with
    | None =>
        aset (pf_files t) i f;;
        put_pft p_ft (λ t, set_pf_size (s32 (pf_size t + 1)) t);;
        mret (Some tt)
    | Some _ => mret None
    end);
  lock_release (proc_ft_lock t);;
  match r with
  | Some _ => x ← get_file f; mret (local_fd x)
  | None => mret (-1)
  end.

(** The loop goes on after a match; the table's lock is not taken. *)
Definition close_file_on_ptable (p_ft : ptr) (fd : Z) : M state unit :=
  t ← get_pft p_ft;
  for_up 0 OPEN_MAX (λ i,
    p ← aget (pf_files t) i;
    match p with
    | None => mret (@None unit)
    | Some _ =>
        x ← get_file p;
        if bool_decide (local_fd x = fd) then
          (if is_dupe x then destroy_dup p
           else g_ft ← globals_of global_ftable; close_file_on_gtable g_ft (global_fd x));;
          aset (pf_files t) i None;;
          mret None
        else mret None
    end);;
  put_pft p_ft (λ t, set_pf_size (s32 (pf_size t - 1)) t).

(** The duplicate shares the seek position; the one [copy_file] made is freed. *)
Definition dup_file (dupefrom : ptr) (oldfd newfd : Z) : M state ptr :=
  oldfile ← p_filetable_lookup dupefrom oldfd;
  toreturn ← copy_file oldfile;
  y ← get_file toreturn;
  kfree (seek_pos y);;
  x ← get_file oldfile;
  put_file toreturn (λ y, set_is_dupe true (set_local_fd newfd (set_seek_pos (seek_pos x) y)));;
  mret toreturn.

Definition assign_file_fd (p_ft f : ptr) (newfd : Z) : M state unit :=
  x ← get_file f;
  dup ← dup_file p_ft (local_fd x) newfd;
  d ← get_file dup;
  lock_acquire (file_lock d);;
  put_file dup (λ d, set_local_fd newfd (set_refcount (s32 (refcount d + 1)) d));;
  vnode_incref (file_vnode d);;
  lock_release (file_lock d).

Definition copy_p_filetable (copyfrom copyto : ptr) : M state unit :=
  t1 ← get_pft copyfrom;
  lock_acquire (proc_ft_lock t1);;
  t2 ← get_pft copyto;
  lock_acquire (proc_ft_lock t2);;
  for_up 0 OPEN_MAX (λ i,
    p ← aget (pf_files t1) i;
    match p with
    | None => mret (@None unit)
    | Some _ =>
        x ← get_file p;
        lock_acquire (file_lock x);;
        (match file_vnode x with Some _ => vnode_incref (file_vnode x) | None => mret tt end);;
        put_file p (λ x, set_refcount (s32 (refcount x + 1)) x);;
        lock_release (file_lock x);;
        aset (pf_files t2) i p;;
        mret None
    end);;
  lock_release (proc_ft_lock t2);;
  lock_release (proc_ft_lock t1).

(** One slot of [close_all_files_ptable]. *)
Definition close_slot (a : ptr) (i : nat) : M state unit :=
  p ← aget a i;
  match p with
  | None => mret tt
  | Some _ =>
      x ← get_file p;
      lock_acquire (file_lock x);;
      if bool_decide (std_file_status x = -1) then
        (if bool_decide (refcount x > 1) then
           (match file_vnode x with Some _ => vnode_decref (file_vnode x) | None => mret tt end);;
           put_file p (λ x, set_refcount (s32 (refcount x - 1)) x);;
           lock_release (file_lock x)
         else
           lock_release (file_lock x);;
           match file_vnode x with
           | Some _ => g_ft ← globals_of global_ftable; close_file_on_gtable g_ft (global_fd x)
           | None => destroy_dup p
           end);;
        aset a i None
      else lock_release (file_lock x)
  end.

Definition close_all_files_ptable (closeon : ptr) : M state unit :=
  t ← get_pft closeon;
  lock_acquire (proc_ft_lock t);;
  for_up 0 OPEN_MAX (λ i,
    close_slot (pf_files t) i;;
    put_pft closeon (set_pf_size 0);;
    mret (@None unit));;
  lock_release (proc_ft_lock t).

(** The array of files is not freed. *)
Definition p_filetable_destroy (p_ft : ptr) : M state unit :=
  close_all_files_ptable p_ft;;
  t ← get_pft p_ft;
  lock_destroy (proc_ft_lock t);;
  kfree p_ft.

End filetable.
