(* ===== verification/FileFacts.v ===== *)
(** * Facts about open files and file tables

    What the functions of FileTable.v do, as rules for the system calls. *)

From stdpp Require Import base tactics list gmap option numbers ssreflect.
From S2P Require Import Prelude Kern Os OsFacts Vfs FileTable.

Open Scope Z_scope.

(** ** Creation *)

Lemma kstrdup_spec cs s :
  wp (kstrdup cs) (λ r s', match r with
    | None => extends ∅ s s'
    | Some l => l ∉ live (sys s) ∧ extends {[l]} s s' ∧ bufs s' !! l = Some (cs ++ [0])
    end) s.
Proof. apply new_obj_spec; [intros; by apply upd_bufs_heap|done]. Qed.

Lemma extends_old F s s' l : extends F s s' → l ∈ live (sys s) → l ∈ live (sys s') ∧ l ∉ F.
Proof. intros [Hf Hl _ _] Hin. rw Hl. set_solver. Qed.

Lemma NoDup_disjoint_app {A} (l k : list A) : NoDup l → NoDup k → (∀ x, x ∈ l → x ∉ k) → NoDup (l ++ k).
Proof. intros. by apply NoDup_app. Qed.

(** The six blocks of a file, and what they hold. *)
Record file_blocks (s' : state) (l p sk lk nm wc : loc) (cs : list Z) : Prop := {
  fb_nodup : NoDup [l; p; sk; lk; nm; wc];
  fb_file : files s' !! l = Some (new_file (Some p) (Some sk) (Some lk));
  fb_path : bufs s' !! p = Some (cs ++ [0]);
  fb_seek : offs s' !! sk = Some 0;
  fb_lock : lks (sys s') !! lk = Some (Lockst nm wc None)
}.

Lemma create_file_spec (read : M state (list Z)) cs s :
  (∀ s' F, extends F s s' → read s' = Ok cs s') →
  wp (create_file read) (λ r s', match r with
    | None => extends ∅ s s'
    | Some l => ∃ p sk lk nm wc, extends {[l; p; sk; lk; nm; wc]} s s' ∧ file_blocks s' l p sk lk nm wc cs
    end) s.
Proof.
  intros Hread. rw /create_file. wp_step.
  eapply wp_kmalloc_extends; [apply extends_refl|intros; by apply wp_ret|]. intros l s1 _ Hl _ Hs1. wp_step.
  eapply wp_Ok; [by eapply Hread|]. wp_step. eapply wp_mono; [apply kstrdup_spec|]. intros [p|] s2.
  2: { intros Hs2. pose proof (extends_trans _ _ _ _ _ Hs1 Hs2). wp_step. kfree_step. apply wp_ret. undone. }
  intros (Hp & Hs2 & Hbp). rw (x_live _ _ _ Hs1) in Hp. pose proof (extends_trans _ _ _ _ _ Hs1 Hs2) as Hs2'. wp_step.
  eapply wp_kmalloc_extends; [exact Hs2'| |].
  { intros s3 Hs3. do 2 (wp_step; kfree_step). apply wp_ret. undone. }
  intros sk s3 Hsk Hsk' Hs3 Hs3'. wp_step. eapply wp_mono; [apply lock_create_spec|]. intros [lk|] s4.
  2: { intros Hs4. pose proof (extends_trans _ _ _ _ _ Hs3' Hs4). do 3 (wp_step; kfree_step). apply wp_ret. undone. }
  intros (nm & wc & Hnd & Hs4 & Hlk). wp_step. apply wp_modify. wp_step. apply wp_modify. apply wp_ret.
  pose proof (extends_trans _ _ _ _ _ Hs3' Hs4) as Hs4'.
  exists p, sk, lk, nm, wc. pose proof (x_fresh _ _ _ Hs4) as Hfr. rw (x_live _ _ _ Hs3') in Hfr.
  assert (p ∈ live (sys s2) ∧ p ∈ live (sys s3)) as [Hp2 Hp3].
  { rw (x_live _ _ _ Hs3') (x_live _ _ _ Hs2'). set_solver. }
  split.
  - replace ({[l; p; sk; lk; nm; wc]} : gset loc) with ({[lk; nm; wc]} ∪ ({[sk]} ∪ ({[p]} ∪ ({[l]} ∪ ∅))) : gset loc)
      by set_solver.
    do 2 (apply extends_update; [|first [apply upd_files_heap|apply upd_offs_heap]; set_solver]). done.
  - split; os_simpl.
    + apply (NoDup_disjoint_app [l; p; sk] [lk; nm; wc]); [|done|].
      * clear -Hp Hsk. repeat constructor; set_solver.
      * intros x Hx Hx'. apply (Hfr x); clear -Hx Hx'; set_solver.
    + apply lookup_insert_eq.
    + destruct (x_objs _ _ _ Hs4 _ Hp3) as (_ & _ & -> & _). by destruct (x_objs _ _ _ Hs3 _ Hp2) as (_ & _ & -> & _).
    + apply lookup_insert_eq.
    + done.
Qed.

(** ** Tables *)

(** The file a descriptor stands for: the first slot whose file has it. *)
Fixpoint first_fd (fs : gmap loc file) (xs : list ptr) (fd : Z) : ptr :=
  match xs with
  | [] => None
  | Some l :: xs' =>
      match fs !! l with
      | Some x => if bool_decide (local_fd x = fd) then Some l else first_fd fs xs' fd
      | None => first_fd fs xs' fd
      end
  | None :: xs' => first_fd fs xs' fd
  end.

(** Every pointer of an array leads to an object. *)
Definition all_objs {A} (f : state → gmap loc A) (xs : list ptr) (s : state) : Prop :=
  ∀ i l, xs !! i = Some (Some l) → ∃ x, obj f (Some l) x s.

(** A per-process table: its slots, all of them to open files, and its lock,
    which is free. *)
Record table (s : state) (p_ft : ptr) (t : p_filetable) (xs : list ptr) : Prop := {
  t_obj : obj pfts p_ft t s;
  t_slots : obj arrs (pf_files t) xs s;
  t_len : length xs = OPEN_MAX;
  t_lock : lock_free (proc_ft_lock t) s;
  t_files : all_objs files xs s
}.

Lemma p_filetable_lookup_spec p_ft t xs fd (Q : ptr → state → Prop) s :
  table s p_ft t xs → Q (first_fd (files s) xs fd) s → wp (p_filetable_lookup p_ft fd) Q s.
Proof.
  intros [Ht Ha Hlen Hk Hfs] HQ. rw /p_filetable_lookup. wp_step. eapply wp_get; [done|].
  apply wp_read_locked; [done|].
  apply (wp_for_up (λ i s', s' = acquired (proc_ft_lock t) s ∧
    first_fd (files s) xs fd = first_fd (files s) (drop i xs) fd)).
  - by rw drop_0.
  - intros i s' Hi [-> Heq]. destruct (lookup_lt_is_Some_2 xs i) as [p Hp]; [lia|]. wp_step.
    eapply wp_aget; [by apply obj_acquired|done|]. rw (drop_S _ _ _ Hp) /= in Heq.
    destruct p as [l|]; [|apply wp_ret; done]. destruct (Hfs _ _ Hp) as [x Hx]. wp_step.
    eapply wp_get; [by apply obj_acquired|]. apply wp_ret. destruct Hx as (l' & [= <-] & Hl & Hx).
    rw Hx in Heq. bd_case (local_fd x = fd) as Hfd; [|rw bool_decide_eq_false_2 // in Heq].
    rw bool_decide_eq_true_2 // in Heq. split; [done|]. apply wp_ret. by rw -Heq.
  - intros s' [-> Heq]. split; [done|]. apply wp_ret. rw drop_ge /= in Heq; [by rw -Heq|by rw Hlen].
Qed.

(** ** Putting a file on a table *)

(** The table with [f] in slot [i]. *)
Definition slot_filled (a p_ft : ptr) (t : p_filetable) (xs : list ptr) (i : nat) (f : ptr) (s : state) : state :=
  match a, p_ft with
  | Some al, Some tl =>
      upd_pfts <[tl := set_pf_size (s32 (pf_size t + 1)) t]> (upd_arrs <[al := <[i := f]> xs]> s)
  | _, _ => s
  end.

Lemma put_file_on_ptable_spec p_ft t xs l x (Q : Z → state → Prop) s :
  table s p_ft t xs → obj files (Some l) x s →
  match free_slot xs with
  | Some i => Q (local_fd x) (slot_filled (pf_files t) p_ft t xs i (Some l) s)
  | None => Q (-1) s
  end →
  wp (put_file_on_ptable p_ft (Some l)) Q s.
Proof.
  intros [Ht Ha Hlen Hk Hfs] Hx HQ. rw /put_file_on_ptable. wp_step. eapply wp_get; [done|]. wp_step.
  apply wp_lock_acquire; [done|]. wp_step. set (s1 := acquired (proc_ft_lock t) s).
  assert (holds (proc_ft_lock t) s1) as Hh by by apply acquired_holds.
  eapply wp_first_slot; [by apply obj_acquired|done| |].
  - intros i Hi. rw Hi in HQ. apply free_slot_Some in Hi as [Hi _]. wp_step.
    eapply wp_aset; [by apply obj_acquired|by eapply lookup_lt_Some|]. intros al Ha'. wp_step.
    eapply wp_put; [by apply (obj_acquired pfts _ _ (proc_ft_lock t))|]. intros tl Ht'. apply wp_ret. split; [done|].
    wp_step. apply wp_lock_release; [done|]. wp_step.
    rw (outside_released (upd_pfts _)) (outside_released (upd_arrs _)) released_acquired //.
    eapply wp_get; [exact Hx|]. apply wp_ret. by rw /slot_filled Ha' Ht' in HQ.
  - intros Hn. rw Hn in HQ. wp_step. apply wp_lock_release; [done|]. by rw released_acquired.
Qed.

Lemma first_fd_filled fs xs i l x fd :
  xs !! i = Some None → fs !! l = Some x → first_fd fs xs (local_fd x) = None →
  first_fd fs (<[i := Some l]> xs) fd = if bool_decide (fd = local_fd x) then Some l else first_fd fs xs fd.
Proof.
  intros Hi Hl. revert i Hi. induction xs as [|p xs IH]; intros [|i] Hi Hn; simpl in *; try done.
  - injection Hi as ->. rw Hl. case_bool_decide as H1; case_bool_decide as H2; congruence.
  - assert (first_fd fs xs (local_fd x) = None) as Hn'.
    { destruct p as [k|]; [|done]. destruct (fs !! k) as [y|]; [|done]. by case_bool_decide. }
    destruct p as [k|]; [|by apply IH]. destruct (fs !! k) as [y|] eqn:Hk; [|by apply IH].
    bd_case (local_fd y = fd) as H1; [|by apply IH]. bd_case (fd = local_fd x) as H2; [|done]. subst fd.
    by rw bool_decide_eq_true_2 // in Hn.
Qed.

Lemma obj_files_filled a p_ft t xs i f q x s :
  obj files q x s → obj files q x (slot_filled a p_ft t xs i f s).
Proof. rw /slot_filled. by destruct a, p_ft. Qed.

Lemma table_filled p_ft t xs i l x s :
  table s p_ft t xs → obj files (Some l) x s → (i < length xs)%nat →
  table (slot_filled (pf_files t) p_ft t xs i (Some l) s) p_ft (set_pf_size (s32 (pf_size t + 1)) t) (<[i := Some l]> xs).
Proof.
  intros [Ht Ha Hlen Hk Hfs] Hx Hi. destruct Ht as (tl & -> & Htl & Ht). destruct Ha as (al & Hal & Hall & Ha).
  rw /slot_filled Hal. split.
  - exists tl. split; [done|]. split; [done|]. os_simpl. apply lookup_insert_eq.
  - exists al. split; [done|]. split; [done|]. os_simpl. apply lookup_insert_eq.
  - by rw length_insert.
  - done.
  - intros j k Hj. destruct (decide (i = j)) as [<-|Hne].
    + rw list_lookup_insert_eq // in Hj. injection Hj as <-. by exists x.
    + rw list_lookup_insert_ne // in Hj. by eapply Hfs.
Qed.

(** The condition on the slots, as a test. *)
Definition objs_ok {A} (f : state → gmap loc A) (s : state) (xs : list ptr) : bool :=
  forallb (λ p, match p with
    | None => true
    | Some l => bool_decide (l ∈ live (sys s)) && bool_decide (is_Some (f s !! l))
    end) xs.

Lemma objs_ok_all {A} (f : state → gmap loc A) s xs : objs_ok f s xs = true → all_objs f xs s.
Proof.
  rw -Is_true_true /objs_ok forallb_True Forall_lookup. intros H i l Hi. specialize (H i _ Hi). simpl in H.
  apply andb_True in H as [H1%bool_decide_unpack [x Hx]%bool_decide_unpack]. by exists x, l.
Qed.

(** Objects and free locks found by evaluation. *)
Lemma obj_intro {A} (f : state → gmap loc A) l x s : bool_decide (l ∈ live (sys s)) = true → f s !! l = Some x → obj f (Some l) x s.
Proof. intros Hl Hx. exists l. split; [done|]. split; [by eapply bool_decide_eq_true_1|done]. Qed.
Lemma lock_free_intro (s : state) l nm wc :
  bool_decide (l ∈ live (sys s)) = true → lks (sys s) !! l = Some (Lockst nm wc None) → lock_free (Some l) s.
Proof. intros Hl Hx. exists l, (Lockst nm wc None). split; [done|]. split; [by eapply bool_decide_eq_true_1|done]. Qed.
