(* ===== verification/ProcTable.v ===== *)
(** * Processes and the process table: kern/proc/proc.c

    Creation and destruction of processes, the table of processes, the pids and
    the exit codes posted for waiting parents, function by function, on the
    kernel state of Os.v. *)

From stdpp Require Import base tactics list gmap option numbers ssreflect.
From S2P Require Import Prelude Kern CopyInOut Os Vfs FileTable.

Open Scope Z_scope.

Section proctable.
Context `{!FileSystem}.

(** What has been set up when [proc_create] gives up: the file table, the name
    and the structure itself are released. *)
Definition undo_proc (ft name proc : ptr) : M state ptr :=
  p_filetable_destroy ft;; kfree name;; kfree proc;; mret None.

(** The two locks; neither failure releases [children]. *)
Definition proc_locks (l : loc) (name ft kids cv : ptr) : M state ptr :=
  ops ← lock_create;
  match ops with
  | None => cv_destroy cv;; undo_proc ft name (Some l)
  | Some _ =>
      wlk ← lock_create;
      match wlk with
      | None => lock_destroy ops;; cv_destroy cv;; undo_proc ft name (Some l)
      | Some _ =>
          modify (upd_procs <[l := Proc name false 0 ops None None 0 (-1) ft kids cv wlk]>);;
          mret (Some l)
      end
  end.

Definition proc_create (pname : list Z) : M state ptr :=
  proc ← kmalloc;
  match proc with
  | None => mret None
  | Some l =>
      name ← kstrdup pname;
      match name with
      | None => kfree proc;; mret None
      | Some _ =>
          ft ← p_filetable_create;
          match ft with
          | None => kfree name;; kfree proc;; mret None
          | Some _ =>
              kids ← alloc_array PROC_MAX;
              match kids with
              | None => undo_proc ft name proc
              | Some _ =>
                  cv ← cv_create;
                  match cv with
                  | None => kfree kids;; undo_proc ft name proc
                  | Some _ => proc_locks l name ft kids cv
                  end
              end
          end
      end
  end.

Definition proc_setas (newas : ptr) : M state ptr :=
  proc ← curproc;
  kassert (bool_decide (proc ≠ None));;
  p_lock_acquire proc;;
  x ← get_proc proc;
  put_proc proc (set_p_addrspace newas);;
  p_lock_release proc;;
  mret (p_addrspace x).

Definition proc_getas : M state ptr :=
  proc ← curproc;
  match proc with
  | None => mret None
  | Some _ =>
      p_lock_acquire proc;;
      x ← get_proc proc;
      p_lock_release proc;;
      mret (p_addrspace x)
  end.

Definition as_destroy (p : ptr) : M state unit :=
  l ← nonnull p; modify (upd_ext (as_destroy_fn l)).

(** The address space, with the children array and the file table, is only
    destroyed when there is one. *)
Definition destroy_as (proc : ptr) : M state unit :=
  x ← get_proc proc;
  match p_addrspace x with
  | None => mret tt
  | Some _ =>
      kfree (children x);;
      p_filetable_destroy (p_filetable_of x);;
      cur ← curproc;
      if bool_decide (proc = cur) then a ← proc_setas None; as_destroy a
      else
        x ← get_proc proc;
        put_proc proc (set_p_addrspace None);;
        as_destroy (p_addrspace x)
  end.

Definition proc_destroy (proc : ptr) : M state unit :=
  kassert (bool_decide (proc ≠ None));;
  kp ← globals_of kproc;
  kassert (bool_decide (proc ≠ kp));;
  x ← get_proc proc;
  (match p_cwd x with
   | Some _ => vnode_decref (p_cwd x);; put_proc proc (set_p_cwd None)
   | None => mret tt
   end);;
  destroy_as proc;;
  x ← get_proc proc;
  kassert (bool_decide (p_numthreads x = 0));;
  cv_destroy (waitpid_cv x);;
  lock_destroy (ops_lock x);;
  lock_destroy (waitpid_lock x);;
  kassert (negb (p_lock x));;           (* spinlock_cleanup *)
  kfree (p_name x);;
  kfree proc.

Definition get_next_pid : M state Z :=
  pt ← globals_of global_ptable;
  t ← get_ptab pt;
  lock_acquire (proctable_lk t);;
  put_ptab pt (λ t, set_next_pid (s32 (next_pid t + 1)) t);;
  lock_release (proctable_lk t);;
  mret (next_pid t).

Definition proc_create_runprogram (name : list Z) : M state ptr :=
  newproc ← proc_create name;
  match newproc with
  | None => mret None
  | Some _ =>
      put_proc newproc (set_p_addrspace None);;
      cur ← curproc;
      p_lock_acquire cur;;
      x ← get_proc cur;
      (match p_cwd x with
       | Some _ => vnode_incref (p_cwd x);; put_proc newproc (set_p_cwd (p_cwd x))
       | None => mret tt
       end);;
      p_lock_release cur;;
      mret newproc
  end.

(** [splhigh]/[splx] around the assignments have no counterpart here. *)
Definition proc_addthread (proc : ptr) (t : loc) : M state Z :=
  tp ← deref (λ s, threads s !! t);
  kassert (bool_decide (tp = None));;
  p_lock_acquire proc;;
  put_proc proc (λ x, set_p_numthreads (u32 (p_numthreads x + 1)) x);;
  p_lock_release proc;;
  modify (upd_threads <[t := proc]>);;
  mret 0.

Definition proc_remthread (t : loc) : M state unit :=
  proc ← deref (λ s, threads s !! t);
  kassert (bool_decide (proc ≠ None));;
  p_lock_acquire proc;;
  x ← get_proc proc;
  kassert (bool_decide (p_numthreads x > 0));;
  put_proc proc (λ x, set_p_numthreads (u32 (p_numthreads x - 1)) x);;
  p_lock_release proc;;
  proc_destroy proc;;
  modify (upd_threads <[t := None]>).

(** ** The process table *)

Definition proctable_create : M state ptr :=
  toreturn ← kmalloc;
  match toreturn with
  | None => mret None
  | Some l =>
      arr ← alloc_array PROC_MAX;
      match arr with
      | None => kfree toreturn;; mret None
      | Some _ =>
          lk ← lock_create;
          match lk with
          | None => kfree arr;; kfree toreturn;; mret None
          | Some _ =>
              cv ← cv_create;
              match cv with
              | None => lock_destroy lk;; kfree arr;; kfree toreturn;; mret None
              | Some _ =>
                  codes ← alloc_array PROC_MAX;
                  match codes with
                  | None => cv_destroy cv;; lock_destroy lk;; kfree arr;; kfree toreturn;; mret None
                  | Some _ => modify (upd_ptabs <[l := ProcTable PID_MIN 0 arr lk cv codes]>);; mret toreturn
                  end
              end
          end
      end
  end.

Definition proctable_destroy (pt : ptr) : M state unit :=
  t ← get_ptab pt;
  kfree (active_exit_codes t);;
  lock_destroy (proctable_lk t);;
  cv_destroy (pt_waitpid_cv t);;
  kfree (proc_array t);;
  kfree pt.

(** The index of the first NULL of an array. *)
Definition first_null (a : ptr) : M state (option nat) :=
  for_up 0 PROC_MAX (λ i, p ← aget a i; match p with None => mret (Some i) | Some _ => mret None end).

Definition put_proc_on_proctable (p : ptr) : M state Z :=
  pt ← globals_of global_ptable;
  t ← get_ptab pt;
  lock_acquire (proctable_lk t);;
  i ← first_null (proc_array t);
  match i with
  | None => lock_release (proctable_lk t);; mret (-1)
  | Some i =>
      aset (proc_array t) i p;;
      put_ptab pt (λ t, set_num_of_procs (s32 (num_of_procs t + 1)) t);;
      lock_release (proctable_lk t);;
      mret 0
  end.

Definition proctable_bootstrap : M state unit :=
  pt ← proctable_create;
  modify (λ s, State (sys s) (fsd s) (psd s) (iod s)
    (Globals (global_ftable (glb s)) (fileops_lock (glb s)) pt (kproc (glb s))));;
  kassert (bool_decide (pt ≠ None)).

(** The search keeps the last process with the pid. *)
Definition find_pid (a : ptr) (searchpid : Z) : M state (option nat) :=
  fold_up 0 PROC_MAX None (λ i found,
    p ← aget a i;
    match p with
    | None => mret found
    | Some _ => x ← get_proc p; mret (if bool_decide (searchpid = pid x) then Some i else found)
    end).

Definition remove_proc_from_proctable (searchpid : Z) : M state unit :=
  pt ← globals_of global_ptable;
  t ← get_ptab pt;
  lock_acquire (proctable_lk t);;
  found ← find_pid (proc_array t) searchpid;
  (match found with
   | None => mret tt
   | Some i =>
       aset (proc_array t) i None;;
       put_ptab pt (λ t, set_num_of_procs (s32 (num_of_procs t - 1)) t)
   end);;
  lock_release (proctable_lk t).

Definition get_reference_by_pid (searchpid : Z) : M state ptr :=
  pt ← globals_of global_ptable;
  t ← get_ptab pt;
  lock_acquire (proctable_lk t);;
  found ← find_pid (proc_array t) searchpid;
  lock_release (proctable_lk t);;
  match found with None => mret None | Some i => aget (proc_array t) i end.

Definition add_child_to_proc (parent child : ptr) : M state bool :=
  x ← get_proc parent;
  lock_acquire (ops_lock x);;
  was_found ← for_up 0 PROC_CHILD_MAX (λ i,
    p ← aget (children x) i;
    match p with None => aset (children x) i child;; mret (Some tt) | Some _ => mret None end);
  lock_release (ops_lock x);;
  mret (match was_found with Some _ => true | None => false end).

Definition remove_child_from_proc (remfrom rem : ptr) : M state unit :=
  x ← get_proc remfrom;
  lock_acquire (ops_lock x);;
  y ← get_proc rem;
  lock_acquire (ops_lock y);;
  for_up 0 PROC_MAX (λ i,
    p ← aget (children x) i;
    match p with
    | None => mret (@None unit)
    | Some _ => c ← get_proc p; (if bool_decide (pid c = pid y) then aset (children x) i None else mret tt);; mret None
    end);;
  lock_release (ops_lock y);;
  lock_release (ops_lock x).

Definition is_proc_children (proc other_proc : ptr) : M state bool :=
  p_lock_acquire proc;;
  x ← get_proc proc;
  y ← get_proc other_proc;
  p_lock_release proc;;
  mret (bool_decide (ppid x = pid y)).

(** ** Exit codes *)

Definition get_code (p : ptr) : M state pidxcode := get codes p.

(** A pass over the posted codes. *)
Definition each_code {R} (a : ptr) (body : nat → ptr → pidxcode → M state (option R)) : M state (option R) :=
  for_up 0 PROC_MAX (λ i,
    p ← aget a i;
    match p with None => mret None | Some _ => c ← get_code p; body i p c end).

Definition rem_all_exit_codes (parent : Z) : M state unit :=
  pt ← globals_of global_ptable;
  t ← get_ptab pt;
  lock_acquire (proctable_lk t);;
  each_code (active_exit_codes t) (λ i p c,
    (if bool_decide (xc_ppid c = parent) then kfree p;; aset (active_exit_codes t) i None else mret tt);;
    mret (@None unit));;
  lock_release (proctable_lk t).

(** Without a free slot the code is dropped, and its block with it. *)
Definition post_exit_code (rawexcode parent child : Z) : M state unit :=
  pt ← globals_of global_ptable;
  t ← get_ptab pt;
  lock_acquire (proctable_lk t);;
  excode ← alloc upd_codes (Pidxcode parent child rawexcode);
  (match excode with
   | None => mret tt
   | Some _ =>
       i ← first_null (active_exit_codes t);
       match i with Some i => aset (active_exit_codes t) i excode | None => mret tt end
   end);;
  lock_release (proctable_lk t).

Definition is_proc_exited (ptable : ptr) (searchpid : Z) : M state bool :=
  t ← get_ptab ptable;
  lock_acquire (proctable_lk t);;
  r ← each_code (active_exit_codes t) (λ _ _ c,
    mret (if bool_decide (xc_pid c = searchpid) then Some tt else None));
  lock_release (proctable_lk t);;
  mret (match r with Some _ => true | None => false end).

Definition get_exit_code (ptable : ptr) (parent child : Z) : M state Z :=
  t ← get_ptab ptable;
  lock_acquire (proctable_lk t);;
  r ← each_code (active_exit_codes t) (λ i p c,
    if bool_decide (xc_ppid c = parent ∧ xc_pid c = child) then
      kfree p;;
      aset (active_exit_codes t) i None;;
      mret (Some (exit_code c))
    else mret None);
  lock_release (proctable_lk t);;
  mret (default (-1) r).

Definition proc_bootstrap : M state unit :=
  p ← proc_create [91; 107; 101; 114; 110; 101; 108; 93];    (* "[kernel]" *)
  modify (λ s, State (sys s) (fsd s) (psd s) (iod s)
    (Globals (global_ftable (glb s)) (fileops_lock (glb s)) (global_ptable (glb s)) p));;
  kassert (bool_decide (p ≠ None)).

End proctable.
