(* ===== verification/ProcFacts.v ===== *)
(** * Facts about the process table and the exit codes *)

From stdpp Require Import base tactics list gmap option numbers ssreflect.
From S2P Require Import Prelude Kern Os OsFacts Vfs FileTable FileFacts ProcTable.

Open Scope Z_scope.

(** ** Searching an array of pointers *)

(** The slot holds an object with the property. *)
Definition hits {A} (m : gmap loc A) (P : A → bool) (p : ptr) : Prop :=
  match p with Some l => match m !! l with Some c => P c = true | None => False end | None => False end.
#[export] Instance hits_dec {A} (m : gmap loc A) P p : Decision (hits m P p).
Proof. rw /hits. destruct p as [l|]; [|apply _]. destruct (m !! l); apply _. Defined.

Lemma hits_at {A} (m : gmap loc A) P l c : m !! l = Some c → hits m P (Some l) ↔ P c = true.
Proof. intros Hl. by rw /hits Hl. Qed.

(** The first such slot. *)
Definition find_slot {A} (m : gmap loc A) (P : A → bool) (xs : list ptr) : option (nat * ptr) :=
  list_find (hits m P) xs.

Lemma find_slot_None {A} (m : gmap loc A) P xs :
  find_slot m P xs = None ↔ ∀ i p, xs !! i = Some p → ¬ hits m P p.
Proof. rw /find_slot list_find_None Forall_lookup. done. Qed.

(** A search that meets nothing else finds the new object in its slot. *)
Lemma find_slot_new {A} (m : gmap loc A) P xs i l c :
  xs !! i = Some None → P c = true → (∀ j, xs !! j ≠ Some (Some l)) → find_slot m P xs = None →
  find_slot (<[l := c]> m) P (<[i := Some l]> xs) = Some (i, Some l).
Proof.
  intros Hi Hc Hl. rw find_slot_None. intros Hn.
  assert (i < length xs)%nat as Hlt by by eapply lookup_lt_Some. apply list_find_Some.
  split; [by apply list_lookup_insert_eq|]. split; [by rw /hits lookup_insert_eq|]. intros j p Hj Hji.
  rw list_lookup_insert_ne in Hj; [|lia]. intros Hh. apply (Hn _ _ Hj). destruct p as [k|]; [|done].
  rw /hits lookup_insert_ne // in Hh. congruence.
Qed.

Lemma find_slot_other {A} (m : gmap loc A) P xs l c :
  (∀ j, xs !! j ≠ Some (Some l)) → find_slot m P xs = None → find_slot (<[l := c]> m) P xs = None.
Proof.
  rw !find_slot_None. intros Hl Hn i p Hi Hh. apply (Hn _ _ Hi). destruct p as [k|]; [|done].
  rw /hits lookup_insert_ne // in Hh. congruence.
Qed.

(** The process table: its arrays, their contents, its lock, which is free; the
    posted codes are blocks of their own. *)
Record ptable (s : state) (pt : ptr) (t : proctable) (ps cs : list ptr) : Prop := {
  pt_glb : global_ptable (glb s) = pt;
  pt_obj : obj ptabs pt t s;
  pt_procs : obj arrs (proc_array t) ps s;
  pt_codes : obj arrs (active_exit_codes t) cs s;
  pt_plen : length ps = PROC_MAX;
  pt_clen : length cs = PROC_MAX;
  pt_lock : lock_free (proctable_lk t) s;
  pt_pobjs : all_objs procs ps s;
  pt_cobjs : all_objs codes cs s;
  pt_apart : proc_array t ≠ active_exit_codes t;
  pt_sep : ∀ i l, cs !! i = Some (Some l) →
    Some l ≠ pt ∧ Some l ≠ proc_array t ∧ Some l ≠ active_exit_codes t ∧ Some l ≠ proctable_lk t
}.

Section codes.
Context `{!FileSystem}.

(** A pass over the codes that stops at the first one with [P]. *)
Lemma wp_each_code {R} P a cs (body : nat → ptr → pidxcode → M state (option R)) (Q : option R → state → Prop) s :
  obj arrs a cs s → length cs = PROC_MAX → all_objs codes cs s →
  (∀ i l c, P c = false → wp (body i (Some l) c) (λ r s', r = None ∧ s' = s) s) →
  (∀ i l c, find_slot (codes s) P cs = Some (i, Some l) → cs !! i = Some (Some l) → codes s !! l = Some c → P c = true →
     wp (body i (Some l) c) (λ r s', r ≠ None ∧ Q r s') s) →
  (find_slot (codes s) P cs = None → Q None s) →
  wp (each_code a body) Q s.
Proof.
  intros Ha Hlen Hobjs Hno Hyes Hnone. rw /each_code.
  apply (wp_for_up (λ i s', s' = s ∧ ∀ j p, (j < i)%nat → cs !! j = Some p → ¬ hits (codes s) P p)).
  - split; [done|]. intros; lia.
  - intros i s' Hi [-> Hb]. destruct (lookup_lt_is_Some_2 cs i) as [p Hp]; [lia|]. wp_step.
    eapply wp_aget; [done|done|].
    assert (¬ hits (codes s) P p → ∀ j q, (j < S i)%nat → cs !! j = Some q → ¬ hits (codes s) P q) as Hstep.
    { intros Hn j q Hj Hq. destruct (decide (j = i)) as [->|]; [by simplify_eq|]. eapply Hb; [|done]. lia. }
    destruct p as [l|]; [|apply wp_ret; split; [done|apply Hstep; by intros []]].
    destruct (Hobjs _ _ Hp) as [c Hc]. wp_step. eapply wp_get; [exact Hc|]. destruct Hc as (l' & [= <-] & _ & Hc).
    destruct (P c) eqn:HP.
    + eapply wp_mono; [eapply Hyes; [|done|done|done]|intros [v|] s' [Hne HQ]; [done|by destruct Hne]].
      apply list_find_Some. split; [done|]. split; [by rw /hits Hc|]. intros j q Hq Hj. by eapply Hb.
    + eapply wp_mono; [by apply Hno|]. intros r s' [-> ->]. split; [done|]. apply Hstep. by rw /hits Hc HP.
  - intros s' [-> Hb]. apply Hnone. apply list_find_None, Forall_lookup_2. intros i p Hp. eapply Hb; [|done].
    apply lookup_lt_Some in Hp. lia.
Qed.

Lemma all_objs_acquired {A} (f : state → gmap loc A) `{!Field f} xs p s : all_objs f xs s → all_objs f xs (acquired p s).
Proof. intros Hall i l Hi. destruct (Hall i l Hi) as [x Hx]. exists x. by apply obj_acquired. Qed.

Definition of_pid (n : Z) (c : pidxcode) : bool := bool_decide (xc_pid c = n).
Definition of_pair (parent child : Z) (c : pidxcode) : bool := bool_decide (xc_ppid c = parent ∧ xc_pid c = child).

Lemma is_proc_exited_spec pt t ps cs n (Q : bool → state → Prop) s :
  ptable s pt t ps cs → Q (bool_decide (is_Some (find_slot (codes s) (of_pid n) cs))) s →
  wp (is_proc_exited pt n) Q s.
Proof.
  intros [] HQ. rw /is_proc_exited. wp_step. eapply wp_get; [done|]. apply wp_read_locked; [done|].
  eapply (wp_each_code (of_pid n)); [by apply obj_acquired|done|by apply all_objs_acquired| | |].
  - intros i l c Hc. apply wp_ret. rw /of_pid in Hc. by rw Hc.
  - intros i l c Hf Hi Hc Hof. rw field_acquired in Hf. apply wp_ret. rw /of_pid in Hof. rw Hof. split; [done|].
    split; [done|]. apply wp_ret. by rw Hf bool_decide_eq_true_2 in HQ.
  - intros Hf. rw field_acquired in Hf. split; [done|]. apply wp_ret. rw Hf bool_decide_eq_false_2 in HQ; [done|].
    by intros [].
Qed.

Lemma wp_first_null a xs (Q : option nat → state → Prop) s :
  obj arrs a xs s → length xs = PROC_MAX → Q (free_slot xs) s → wp (first_null a) Q s.
Proof.
  intros Ha Hlen HQ. rw /first_null. eapply wp_first_slot; [done|done| |by intros Hn; rw Hn in HQ].
  intros i Hi. apply wp_ret. rw Hi in HQ. done.
Qed.

(** The state after a code has been posted in slot [i], and after it has been
    taken out again. *)
Definition code_stored (l : loc) (o : list ptr) (c : pidxcode) (s : state) : state :=
  upd_codes <[l := c]> (grabbed l o s).
Definition set_slots (a : ptr) (xs : list ptr) (s : state) : state :=
  match a with Some al => upd_arrs <[al := xs]> s | None => s end.

#[export] Instance set_slots_outside a xs : Outside (set_slots a xs).
Proof. by destruct a. Qed.

Lemma post_exit_code_spec pt t ps cs code parent child (Q : unit → state → Prop) s :
  ptable s pt t ps cs →
  match next_block s with
  | None => ∀ o, Q tt (upd_base (set_oracle o) s)
  | Some l => l ∉ live (sys s) → ∀ o,
      let s1 := code_stored l o (Pidxcode parent child code) s in
      match free_slot cs with
      | Some i => Q tt (set_slots (active_exit_codes t) (<[i := Some l]> cs) s1)
      | None => Q tt s1
      end
  end →
  wp (post_exit_code code parent child) Q s.
Proof.
  intros [] HQ. rw /post_exit_code /globals_of. wp_step. wp_step. rw pt_glb0. wp_step. eapply wp_get; [done|].
  wp_step. apply wp_lock_acquire; [done|]. set (s1 := acquired (proctable_lk t) s).
  assert (holds (proctable_lk t) s1) as Hh by by apply acquired_holds.
  wp_step. rw /alloc. wp_step. apply wp_kmalloc_next. rw next_block_acquired. destruct (next_block s) as [l|].
  2: { intros o. do 3 wp_step. apply wp_lock_release; [done|].
    rw released_upd_base // released_acquired //. }
  intros Hl o. rw acquired_live in Hl. pose proof (HQ Hl o) as HS. simpl in HS. wp_step. apply wp_modify. wp_step. wp_step.
  change (upd_base _ s1) with (grabbed l o s1).
  assert (obj arrs (active_exit_codes t) cs (code_stored l o (Pidxcode parent child code) s1)) as Ha.
    { apply (obj_grabbed arrs _ _ l o). by apply obj_acquired. }
  wp_step. eapply wp_first_null; [done|done|]. destruct (free_slot cs) as [i|] eqn:Hi; [|wp_step].
  - apply free_slot_Some in Hi as [Hi _]. eapply wp_aset; [done|by eapply lookup_lt_Some|]. intros al Hal.
    apply wp_lock_release; [by apply holds_grabbed|].
    rw (outside_released (upd_arrs _)) /code_stored (outside_released (upd_codes _)) released_grabbed released_acquired //.
    by rw /set_slots Hal in HS.
  - apply wp_lock_release; [by apply holds_grabbed|].
    by rw /code_stored (outside_released (upd_codes _)) released_grabbed released_acquired.
Qed.

Lemma get_exit_code_spec pt t ps cs parent child (Q : Z → state → Prop) s :
  ptable s pt t ps cs →
  match find_slot (codes s) (of_pair parent child) cs with
  | Some (i, Some l) => ∀ c, codes s !! l = Some c →
      Q (exit_code c) (set_slots (active_exit_codes t) (<[i := None]> cs) (freed l s))
  | _ => Q (-1) s
  end →
  wp (get_exit_code pt parent child) Q s.
Proof.
  intros [] HQ. rw /get_exit_code. wp_step. eapply wp_get; [done|]. wp_step. apply wp_lock_acquire; [done|].
  set (s1 := acquired (proctable_lk t) s).
  assert (holds (proctable_lk t) s1) as Hh by by apply acquired_holds.
  wp_step. eapply (wp_each_code (of_pair parent child)); [by apply obj_acquired|done|by apply all_objs_acquired| | |].
  - intros i l c Hc. apply wp_ret. rw /of_pair in Hc. by rw Hc.
  - intros i l c Hf Hi Hc Hof. rw field_acquired in Hf. rw Hf in HQ. rw field_acquired in Hc. specialize (HQ c Hc).
    rw /of_pair in Hof. rw Hof. destruct (pt_sep0 _ _ Hi) as (_ & _ & Hne & Hlk). wp_step.
    destruct (pt_cobjs0 _ _ Hi) as [c' Hc']. apply wp_kfree; [rw acquired_live; by eapply obj_live|].
    change (upd_base _ s1) with (freed l s1). wp_step.
    eapply wp_aset; [apply (obj_freed arrs); [by apply obj_acquired|done]|by eapply lookup_lt_Some|]. intros al Hal.
    apply wp_ret. split; [done|]. wp_step.
    apply wp_lock_release; [by apply holds_freed|]. rw (outside_released (upd_arrs _)) released_freed released_acquired //.
    apply wp_ret. by rw /set_slots Hal in HQ.
  - intros Hf. rw field_acquired in Hf. rw Hf in HQ. wp_step. apply wp_lock_release; [done|].
    rw released_acquired //.
Qed.

(** *** The table with another array of codes *)

Lemma obj_set_slots {A} (f : state → gmap loc A) q x a xs s :
  (∀ g, f (upd_arrs g s) = f s) → obj f q x s → obj f q x (set_slots a xs s).
Proof.
  intros Hf (k & -> & Hk & Hx). exists k. split; [done|]. rw /set_slots. destruct a as [al|]; [|done].
  split; [done|by rw Hf].
Qed.

Lemma obj_slots a xs ys s : obj arrs a xs s → obj arrs a ys (set_slots a ys s).
Proof. intros (k & -> & Hk & _). exists k. split; [done|]. split; [done|]. apply lookup_insert_eq. Qed.
Lemma obj_other_slots q x a xs s : q ≠ a → obj arrs q x s → obj arrs q x (set_slots a xs s).
Proof.
  intros Hne (k & -> & Hk & Hx). exists k. split; [done|]. rw /set_slots. destruct a as [al|]; [|done].
  split; [done|]. os_simpl. rw lookup_insert_ne //. congruence.
Qed.

Lemma ptable_set_codes pt t ps cs cs' s :
  ptable s pt t ps cs → length cs' = PROC_MAX → all_objs codes cs' s →
  (∀ i l, cs' !! i = Some (Some l) →
    Some l ≠ pt ∧ Some l ≠ proc_array t ∧ Some l ≠ active_exit_codes t ∧ Some l ≠ proctable_lk t) →
  ptable (set_slots (active_exit_codes t) cs' s) pt t ps cs'.
Proof.
  intros [] Hlen Hobjs Hsep. split; try done.
  - rw /set_slots. by destruct (active_exit_codes t).
  - by apply obj_set_slots.
  - by apply obj_other_slots.
  - by eapply obj_slots.
  - by apply outside_lock_free; [apply _|].
  - intros i l Hi. destruct (pt_pobjs0 _ _ Hi) as [x Hx]. exists x. by apply obj_set_slots.
  - intros i l Hi. destruct (Hobjs _ _ Hi) as [x Hx]. exists x. by apply obj_set_slots.
Qed.

Lemma ptable_code_stored pt t ps cs l o c s :
  ptable s pt t ps cs → l ∉ live (sys s) → ptable (code_stored l o c s) pt t ps cs.
Proof.
  intros [] Hl. rw /code_stored. split; try done.
  - by apply (obj_grabbed ptabs).
  - by apply (obj_grabbed arrs).
  - by apply (obj_grabbed arrs).
  - by apply lock_free_grabbed.
  - intros i k Hi. destruct (pt_pobjs0 _ _ Hi) as [x Hx]. exists x. by apply (obj_grabbed procs).
  - intros i k Hi. destruct (pt_cobjs0 _ _ Hi) as [x Hx]. exists x. pose proof (obj_live _ _ _ _ Hx).
    apply (obj_grabbed codes _ _ l o) in Hx as (k' & [= <-] & Hk & Hx). exists k. split; [done|]. split; [done|].
    os_simpl. rw lookup_insert_ne //. set_solver.
Qed.

Lemma ptable_freed pt t ps cs l s :
  ptable s pt t ps cs → (∀ i, cs !! i ≠ Some (Some l)) → (∀ i, ps !! i ≠ Some (Some l)) →
  Some l ≠ pt → Some l ≠ proc_array t → Some l ≠ active_exit_codes t → Some l ≠ proctable_lk t →
  ptable (freed l s) pt t ps cs.
Proof.
  intros [] Hc Hp ????. split; try done; try by apply obj_freed.
  - by apply lock_free_freed.
  - intros i k Hi. destruct (pt_pobjs0 _ _ Hi) as [x Hx]. exists x. apply obj_freed; [done..|]. intros [= ->]. by eapply Hp.
  - intros i k Hi. destruct (pt_cobjs0 _ _ Hi) as [x Hx]. exists x. apply obj_freed; [done..|]. intros [= ->]. by eapply Hc.
Qed.
End codes.

(** ** Processes by pid *)

(** The last slot that holds an object with the property. *)
Definition last_slot {A} (m : gmap loc A) (P : A → bool) (xs : list ptr) : option nat :=
  (λ '(j, _), (length xs - 1 - j)%nat) <$> list_find (hits m P) (reverse xs).

Lemma last_slot_snoc {A} (m : gmap loc A) P xs p :
  last_slot m P (xs ++ [p]) = if decide (hits m P p) then Some (length xs) else last_slot m P xs.
Proof.
  rw /last_slot reverse_snoc length_app /=. destruct (decide (hits m P p)) as [H|H]; simpl; [f_equal; lia|].
  destruct (list_find _ (reverse xs)) as [[j q]|]; [simpl; f_equal; lia|done].
Qed.

Lemma last_slot_None {A} (m : gmap loc A) P xs :
  last_slot m P xs = None ↔ ∀ i p, xs !! i = Some p → ¬ hits m P p.
Proof.
  rw /last_slot fmap_None list_find_None. split.
  - intros Hf i p Hi. rw Forall_forall in Hf. apply Hf. by apply elem_of_reverse, list_elem_of_lookup_2 with i.
  - intros Hn. apply Forall_forall. intros p Hp. rw elem_of_reverse in Hp. apply list_elem_of_lookup_1 in Hp as [i Hi]. intros Hh. exact (Hn _ _ Hi Hh).
Qed.

Lemma last_slot_at {A} (m : gmap loc A) P xs i p :
  xs !! i = Some p → hits m P p → (∀ j q, (i < j)%nat → xs !! j = Some q → ¬ hits m P q) →
  last_slot m P xs = Some i.
Proof.
  induction xs as [|q xs IH] using rev_ind; [done|]. intros Hi Hp Hn. rw last_slot_snoc.
  apply lookup_app_Some in Hi as [Hi|[Hlen Hi]].
  - assert (i < length xs)%nat by by eapply lookup_lt_Some.
    destruct (decide (hits m P q)) as [Hq|Hq].
    + destruct (Hn (length xs) q); [done|by apply list_lookup_middle|done].
    + apply IH; [done..|]. intros j r Hj Hr. eapply Hn; [done|by apply lookup_app_l_Some].
  - apply list_lookup_singleton_Some in Hi as [Hi ->]. rw decide_True //. f_equal. lia.
Qed.

Lemma last_slot_hits {A} (m : gmap loc A) P xs i :
  last_slot m P xs = Some i → ∃ p, xs !! i = Some p ∧ hits m P p.
Proof.
  rw /last_slot fmap_Some. intros ([j p] & (Hj & Hp & _)%list_find_Some & ->). exists p. split; [|done].
  assert (j < length xs)%nat by by (rw -length_reverse; eapply lookup_lt_Some). rw reverse_lookup // in Hj.
  by replace (length xs - 1 - j)%nat with (length xs - S j)%nat by lia.
Qed.
Lemma last_slot_lt {A} (m : gmap loc A) P xs i : last_slot m P xs = Some i → (i < length xs)%nat.
Proof. intros (p & Hp & _)%last_slot_hits. by eapply lookup_lt_Some. Qed.

(** Changing a slot without a hit to one without a hit. *)
Lemma last_slot_same {A} (m : gmap loc A) P xs i p q :
  xs !! i = Some p → ¬ hits m P p → ¬ hits m P q → last_slot m P (<[i := q]> xs) = last_slot m P xs.
Proof.
  revert i. induction xs as [|r xs IH] using rev_ind; [done|]. intros i Hi Hp Hq.
  apply lookup_app_Some in Hi as [Hi|[Hlen Hi]].
  - rw insert_app_l; [|by eapply lookup_lt_Some]. rw !last_slot_snoc length_insert. by rw IH.
  - apply list_lookup_singleton_Some in Hi as [Hi ->]. replace i with (length xs + 0)%nat by lia.
    rw insert_app_r /= !last_slot_snoc. by rw !decide_False.
Qed.

Definition with_pid (n : Z) (x : proc) : bool := bool_decide (n = pid x).

Section pids.
Context `{!FileSystem}.

Lemma find_pid_spec a ps n (Q : option nat → state → Prop) s :
  obj arrs a ps s → length ps = PROC_MAX → all_objs procs ps s →
  Q (last_slot (procs s) (with_pid n) ps) s → wp (find_pid a n) Q s.
Proof.
  intros Ha Hlen Hobjs HQ. rw /find_pid.
  apply (wp_fold_up (λ i r s', s' = s ∧ r = last_slot (procs s) (with_pid n) (take i ps))); [done| |].
  - intros i r s' Hi [-> ->]. destruct (lookup_lt_is_Some_2 ps i) as [p Hp]; [lia|]. wp_step.
    eapply wp_aget; [done|done|]. rw (take_S_r _ _ _ Hp) last_slot_snoc length_take_le; [|lia].
    destruct p as [l|]; [|by apply wp_ret]. destruct (Hobjs _ _ Hp) as [x Hx]. wp_step.
    eapply wp_get; [done|]. apply wp_ret. split; [done|]. destruct Hx as (l' & [= <-] & _ & Hx).
    pose proof (hits_at _ (with_pid n) _ _ Hx) as Hat. rw /with_pid bool_decide_eq_true in Hat.
    bd_case (n = pid x) as Hn; [rw decide_True; [done|by apply Hat]|rw decide_False; [done|by intros ?%Hat]].
  - intros r s' [-> ->]. rw take_ge; [done|lia].
Qed.

(** The process a pid stands for. *)
Definition by_pid (m : gmap loc proc) (ps : list ptr) (n : Z) : ptr :=
  i ← last_slot m (with_pid n) ps; mjoin (ps !! i).

Definition with_table (pt : ptr) (t : proctable) (s : state) : state :=
  match pt with Some l => upd_ptabs <[l := t]> s | None => s end.
#[export] Instance with_table_outside pt t : Outside (with_table pt t).
Proof. by destruct pt. Qed.

Lemma wp_put_ptab pt t g (Q : unit → state → Prop) s :
  obj ptabs pt t s → Q tt (with_table pt (g t) s) → wp (put_ptab pt g) Q s.
Proof. intros Ht HQ. eapply wp_put; [done|]. intros l ->. done. Qed.
Lemma wp_aset_slots a xs i p (Q : unit → state → Prop) s :
  obj arrs a xs s → (i < length xs)%nat → Q tt (set_slots a (<[i := p]> xs) s) → wp (aset a i p) Q s.
Proof. intros Ha Hi HQ. eapply wp_aset; [done|done|]. intros l ->. done. Qed.

(** The table with another array of processes. *)
Definition procs_set (pt : ptr) (t : proctable) (n : Z) (ps : list ptr) (s : state) : state :=
  with_table pt (set_num_of_procs n t) (set_slots (proc_array t) ps s).

Lemma ptable_procs_set pt t ps cs ps' n s :
  ptable s pt t ps cs → length ps' = PROC_MAX → all_objs procs ps' s →
  ptable (procs_set pt t n ps' s) pt (set_num_of_procs n t) ps' cs.
Proof.
  intros [] Hlen Hobjs. destruct pt_obj0 as (ptl & -> & Hptl & Hpt). destruct pt_procs0 as (al & Hal & Hall & Ha).
  destruct pt_codes0 as (cl & Hcl & Hcll & Hc). rw /procs_set /with_table /set_slots Hal. split; try done.
  - exists ptl. split; [done|]. split; [done|]. os_simpl. apply lookup_insert_eq.
  - exists al. split; [done|]. split; [done|]. os_simpl. apply lookup_insert_eq.
  - exists cl. split; [done|]. split; [done|]. os_simpl. rw lookup_insert_ne; [done|]. simpl in *. congruence.
Qed.

Lemma put_proc_spec pt t ps cs p (Q : Z → state → Prop) s :
  ptable s pt t ps cs →
  match free_slot ps with
  | Some i => Q 0 (procs_set pt t (s32 (num_of_procs t + 1)) (<[i := p]> ps) s)
  | None => Q (-1) s
  end → wp (put_proc_on_proctable p) Q s.
Proof.
  intros [] HQ. rw /put_proc_on_proctable /globals_of. wp_step. wp_step. rw pt_glb0. wp_step. eapply wp_get; [done|].
  wp_step. apply wp_lock_acquire; [done|]. wp_step. eapply wp_first_null; [by apply obj_acquired|done|].
  destruct (free_slot ps) as [i|] eqn:Hi.
  - apply free_slot_Some in Hi as [Hi _]. wp_step.
    eapply wp_aset_slots; [by apply obj_acquired|by eapply lookup_lt_Some|]. wp_step.
    eapply (wp_put_ptab _ t); [apply obj_set_slots; [done|by apply obj_acquired]|]. wp_step.
    apply wp_lock_release; [by apply outside_holds; [apply _|]; apply outside_holds; [apply _|]; apply acquired_holds|].
    apply wp_ret. by rw (outside_released (with_table _ _)) (outside_released (set_slots _ _)) released_acquired.
  - wp_step. apply wp_lock_release; [by apply acquired_holds|]. apply wp_ret. by rw released_acquired.
Qed.

Lemma get_reference_spec pt t ps cs n (Q : ptr → state → Prop) s :
  ptable s pt t ps cs → Q (by_pid (procs s) ps n) s → wp (get_reference_by_pid n) Q s.
Proof.
  intros [] HQ. rw /get_reference_by_pid /globals_of. wp_step. wp_step. rw pt_glb0. wp_step. eapply wp_get; [done|].
  apply wp_read_locked; [done|]. eapply find_pid_spec; [by apply obj_acquired|done|by apply all_objs_acquired|].
  split; [done|]. rw field_acquired. rw /by_pid in HQ. destruct (last_slot _ _ _) as [i|] eqn:Hi; [|by apply wp_ret].
  simpl in HQ. assert (is_Some (ps !! i)) as [p Hp].
  { apply lookup_lt_is_Some_2. by eapply last_slot_lt. }
  rw Hp in HQ. by eapply wp_aget.
Qed.

Lemma remove_proc_spec pt t ps cs n (Q : unit → state → Prop) s :
  ptable s pt t ps cs →
  match last_slot (procs s) (with_pid n) ps with
  | Some i => Q tt (procs_set pt t (s32 (num_of_procs t - 1)) (<[i := None]> ps) s)
  | None => Q tt s
  end → wp (remove_proc_from_proctable n) Q s.
Proof.
  intros [] HQ. rw /remove_proc_from_proctable /globals_of. wp_step. wp_step. rw pt_glb0. wp_step.
  eapply wp_get; [done|]. wp_step. apply wp_lock_acquire; [done|]. wp_step.
  eapply find_pid_spec; [by apply obj_acquired|done|by apply all_objs_acquired|]. rw field_acquired. wp_step.
  destruct (last_slot _ _ _) as [i|] eqn:Hi.
  - wp_step. eapply wp_aset_slots; [by apply obj_acquired|by eapply last_slot_lt|].
    eapply (wp_put_ptab _ t); [apply obj_set_slots; [done|by apply obj_acquired]|].
    apply wp_lock_release; [by apply outside_holds; [apply _|]; apply outside_holds; [apply _|]; apply acquired_holds|].
    by rw (outside_released (with_table _ _)) (outside_released (set_slots _ _)) released_acquired.
  - apply wp_ret. apply wp_lock_release; [by apply acquired_holds|]. by rw released_acquired.
Qed.
End pids.
