(* ===== verification/Boot.v ===== *)
(** * A booted system

    A state made by running the bootstrap functions on an empty kernel, and a
    first user process: what the witnesses of the theorems on files, processes
    and system calls start from. *)

From stdpp Require Import base tactics list gmap option numbers ssreflect.
From S2P Require Import Prelude Kern Os OsFacts Vfs MemFs FileTable FileFacts ProcTable ProcFacts.

Open Scope Z_scope.

(** The state a handler leaves behind. *)
Definition final {A} (m : M state A) (s : state) : state := match m s with Ok _ s' => s' | Stop _ s' => s' end.
Definition result {A} (m : M state A) (s : state) : option A := match m s with Ok a _ => Some a | Stop _ _ => None end.

(** Blocks 100, 101, ... are handed out; threads 1 and 2 exist; two files. *)
Definition empty_kernel : state :=
  State (Base ∅ ((λ i, Some (Pos.of_nat i)) <$> seq 100 150) ∅ 1%positive)
    (FsData ∅ ∅ ∅ ∅ ∅ ∅ ∅ {[98%positive := [10; 20; 30]; 99%positive := [40]]})
    (PsData ∅ (list_to_map [(1%positive, None); (2%positive, None)]) ∅ ∅ ∅ [] ∅)
    (IoData ∅ (λ _, 170) [] []) (Globals None None None None).

Definition boot : M state ptr :=
  global_table_bootstrap;;
  proctable_bootstrap;;
  proc_bootstrap;;
  kp ← globals_of kproc;
  proc_addthread kp 1;;
  p ← proc_create_runprogram [115; 104];
  n ← get_next_pid;
  put_proc p (λ x, set_pid n (set_ppid 0 (set_p_addrspace (Some 500%positive) x)));;
  put_proc_on_proctable p;;
  proc_addthread p 2;;
  modify (upd_base (λ b, Base (live b) (oracle b) (lks b) 2%positive));;
  mret p.

(** The file tables and processes after [boot]; thread 2 is running. *)
Definition booted : state := final boot empty_kernel.
Definition shell : ptr := default None (result boot empty_kernel).
Definition shell_proc : proc := default (Proc None false 0 None None None 0 0 None None None None)
  (p ← shell; procs booted !! p).
Definition shell_table : p_filetable := default (PFileTable None None false false false 0)
  (p ← p_filetable_of shell_proc; pfts booted !! p).
Definition shell_slots : list ptr := default [] (a ← pf_files shell_table; arrs booted !! a).

Lemma shell_table_wf : table booted (p_filetable_of shell_proc) shell_table shell_slots.
Proof.
  split.
  - apply (obj_intro pfts 155); by vm_compute.
  - apply (obj_intro arrs 159); by vm_compute.
  - by vm_compute.
  - apply (lock_free_intro booted 156 157 158); by vm_compute.
  - apply objs_ok_all. by vm_compute.
Qed.

(** The process table, with the shell in its first slot and no code posted. *)
Definition boot_pt : ptr := global_ptable (glb booted).
Definition boot_ptab : proctable := default (ProcTable 0 0 None None None None) (p ← boot_pt; ptabs booted !! p).
Definition boot_procs : list ptr := default [] (a ← proc_array boot_ptab; arrs booted !! a).
Definition boot_codes : list ptr := default [] (a ← active_exit_codes boot_ptab; arrs booted !! a).

(** The table's invariant by evaluation, in a state where the table is that of
    the booted system. *)
Ltac eval_ptable s :=
  split; [by vm_compute|apply (obj_intro ptabs 127); by vm_compute|apply (obj_intro arrs 128); by vm_compute|
    apply (obj_intro arrs 135); by vm_compute|by vm_compute|by vm_compute|
    apply (lock_free_intro s 129 130 131); by vm_compute|apply objs_ok_all; by vm_compute|apply objs_ok_all; by vm_compute|
    by vm_compute|
    let Hi := fresh in let Hn := fresh in
    intros ? ? Hi; assert (Forall (λ p : ptr, p = None) boot_codes) as Hn by by_decide;
    by apply (Forall_lookup_1 _ _ _ _ Hn) in Hi].

Lemma boot_ptable_wf : ptable booted boot_pt boot_ptab boot_procs boot_codes.
Proof. eval_ptable booted. Qed.

(** The shell with the file "a" open for reading and writing, as descriptor 3. *)
Definition open_a : M state unit :=
  f ← create_file (mret [97]);
  r ← vfs_open [97] 2 0;
  match r with
  | inl _ => stops Panic
  | inr vn =>
      put_file f (λ f, set_can_write true (set_can_read true (set_local_fd 3 (set_global_fd 3 (set_file_vnode vn f)))));;
      put_file_on_ptable (p_filetable_of shell_proc) f;;
      mret tt
  end.
Definition opened : state := final open_a booted.
Definition a_at : loc := 170%positive.
Definition a_file : file := default (new_file None None None) (files opened !! a_at).
Definition a_table : p_filetable := default shell_table (p ← p_filetable_of shell_proc; pfts opened !! p).
Definition a_slots : list ptr := default [] (a ← pf_files shell_table; arrs opened !! a).

(** By evaluation, in a state with these files. *)
Ltac eval_a_table s :=
  split; [apply (obj_intro pfts 155); by vm_compute|apply (obj_intro arrs 159); by vm_compute|by vm_compute|
    apply (lock_free_intro s 156 157 158); by vm_compute|apply objs_ok_all; by vm_compute].

Lemma a_table_wf : table opened (p_filetable_of shell_proc) a_table a_slots.
Proof. eval_a_table opened. Qed.
