(* ===== verification/FileThms.v ===== *)
(** * Theorems on open files and file tables *)

From stdpp Require Import base tactics list gmap option numbers ssreflect.
From S2P Require Import Prelude Kern Os OsFacts Vfs MemFs FileTable FileFacts ProcTable Boot.

Open Scope Z_scope.

(** C37: [create_file] gives everything or nothing, however the allocator
    behaves: either a file whose six blocks are all fresh, with its default
    fields, a copy of the path, position 0 and a free lock; or NULL, and then
    every block it got on the way has been released.  In both cases no block
    that was allocated before, and nothing outside the heap, has changed. *)
Theorem create_file_all_or_nothing `{!FileSystem} cs s :
  wp (create_file (mret cs)) (λ r s', match r with
    | None => extends ∅ s s'
    | Some l => ∃ p sk lk nm wc, extends {[l; p; sk; lk; nm; wc]} s s' ∧ file_blocks s' l p sk lk nm wc cs
    end) s.
Proof. by apply create_file_spec. Qed.

(** C22: [put_file_on_ptable] and [p_filetable_lookup] treat a process's table
    as a finite map from descriptors to files: on a table that has room and no
    file with the new one's descriptor, putting the file returns its
    descriptor, and a lookup afterwards finds the file there and everything
    else where it was; a full table is left as it was, and [-1] returned.  Both
    loops end, and the table's lock is free again. *)
Theorem ptable_put_lookup s p_ft t xs l x fd :
  table s p_ft t xs → obj files (Some l) x s → first_fd (files s) xs (local_fd x) = None →
  wp (r ← put_file_on_ptable p_ft (Some l); f ← p_filetable_lookup p_ft fd; mret (r, f)) (λ '(r, f) s',
    match free_slot xs with
    | Some i => r = local_fd x ∧ f = (if bool_decide (fd = local_fd x) then Some l else first_fd (files s) xs fd) ∧
        table s' p_ft (set_pf_size (s32 (pf_size t + 1)) t) (<[i := Some l]> xs)
    | None => r = -1 ∧ f = first_fd (files s) xs fd ∧ s' = s
    end) s.
Proof.
  intros Ht Hx Hnew. wp_step. eapply put_file_on_ptable_spec; [done|done|]. destruct (free_slot xs) as [i|] eqn:Hfree.
  - apply free_slot_Some in Hfree as [Hi _]. assert (i < length xs)%nat as Hlt by by eapply lookup_lt_Some.
    wp_step. eapply p_filetable_lookup_spec; [by eapply table_filled|]. apply wp_ret. split; [done|].
    split; [|by eapply table_filled]. destruct (Hx) as (l' & [= <-] & _ & Hl). destruct (obj_files_filled (pf_files t) p_ft
      t xs i (Some l) _ _ _ Hx) as (l' & [= <-] & _ & Hl').
    assert (files (slot_filled (pf_files t) p_ft t xs i (Some l) s) = files s) as ->.
    { rw /slot_filled. by destruct (pf_files t), p_ft. }
    by apply first_fd_filled.
  - wp_step. eapply p_filetable_lookup_spec; [done|]. by apply wp_ret.
Qed.

(** ** Witness *)

(** The booted system with a file of descriptor 7 that is on no table yet. *)
Definition with_seven : state := final (f ← create_file (mret [97]); put_file f (set_local_fd 7)) booted.
Definition seven : file := default (new_file None None None) (files with_seven !! 170%positive).

Lemma ptable_put_lookup_witness :
  (∃ i, free_slot shell_slots = Some i ∧
     wp (r ← put_file_on_ptable (p_filetable_of shell_proc) (Some 170%positive);
         f ← p_filetable_lookup (p_filetable_of shell_proc) 7; mret (r, f)) (λ '(r, f) s', r = 7 ∧ f = Some 170%positive)
     with_seven).
Proof.
  exists 3%nat. split; [by vm_compute|]. eapply wp_mono.
  - apply (ptable_put_lookup with_seven (p_filetable_of shell_proc) shell_table shell_slots 170 seven 7).
    + split; [by apply (obj_intro pfts 155); vm_compute|by apply (obj_intro arrs 159); vm_compute|by vm_compute| |].
      * by apply (lock_free_intro with_seven 156 157 158); vm_compute.
      * apply objs_ok_all. by vm_compute.
    + by apply (obj_intro files 170); vm_compute.
    + by vm_compute.
  - intros [r f] s'. assert (free_slot shell_slots = Some 3%nat) as -> by by vm_compute. intros (-> & -> & _).
    by vm_compute.
Defined.
