(* ===== verification/ProcThms.v ===== *)
(** * Theorems on processes, the process table and the exit codes *)

From stdpp Require Import base tactics list gmap option numbers ssreflect.
From S2P Require Import Prelude Kern Os OsFacts Vfs MemFs FileTable FileFacts ProcTable ProcFacts Boot.

Open Scope Z_scope.

Section exit_codes.
Context `{!FileSystem}.

Lemma of_pair_pid cs m parent child :
  find_slot m (of_pid child) cs = None → find_slot m (of_pair parent child) cs = None.
Proof.
  rw !find_slot_None. intros Hn i p Hi Hh. apply (Hn _ _ Hi). destruct p as [l|]; [|done]. simpl in *.
  destruct (m !! l) as [c|]; [|done]. rw /of_pair bool_decide_eq_true in Hh. rw /of_pid bool_decide_eq_true. by destruct Hh.
Qed.

Lemma all_objs_fresh {A} (f : state → gmap loc A) xs l s :
  all_objs f xs s → l ∉ live (sys s) → ∀ i, xs !! i ≠ Some (Some l).
Proof. intros Hall Hl i Hi. destruct (Hall _ _ Hi) as [x Hx]. by apply obj_live in Hx. Qed.

Lemma ptable_oracle s pt t ps cs o : ptable s pt t ps cs → ptable (upd_base (set_oracle o) s) pt t ps cs.
Proof. intros []. by split. Qed.

(** What the readers say where no code of the child is posted. *)
Lemma nothing_posted s pt t ps cs parent child (Q : bool * Z * bool → state → Prop) :
  ptable s pt t ps cs → find_slot (codes s) (of_pid child) cs = None → Q (false, -1, false) s →
  wp (before ← is_proc_exited pt child; c ← get_exit_code pt parent child; after ← is_proc_exited pt child;
      mret (before, c, after)) Q s.
Proof.
  intros Ht Hnone HQ. wp_step. eapply is_proc_exited_spec; [done|]. wp_step. eapply get_exit_code_spec; [done|].
  rw (of_pair_pid _ _ _ _ Hnone). wp_step. eapply is_proc_exited_spec; [done|]. apply wp_ret. rw Hnone.
  by rw bool_decide_eq_false_2; [|intros []].
Qed.

Lemma codes_set_slots a xs s : codes (set_slots a xs s) = codes s.
Proof. by destruct a. Qed.
Lemma freed_set_slots a xs l s : set_slots a xs (freed l s) = freed l (set_slots a xs s).
Proof. by destruct a. Qed.
Lemma live_set_slots a xs s : live (sys (set_slots a xs s)) = live (sys s).
Proof. by destruct a. Qed.

Section stored.
Context (s : state) (pt : ptr) (t : proctable) (ps cs : list ptr) (l : loc) (o : list ptr) (c : pidxcode) (i : nat).
Context (Ht : ptable s pt t ps cs) (Hl : l ∉ live (sys s)) (Hi : cs !! i = Some None).

Definition posted : state := set_slots (active_exit_codes t) (<[i := Some l]> cs) (code_stored l o c s).

Lemma fresh_not_ptable : Some l ≠ pt ∧ Some l ≠ proc_array t ∧ Some l ≠ active_exit_codes t ∧ Some l ≠ proctable_lk t.
Proof.
  destruct Ht as [_ H1 H2 H3 _ _ (k & k' & H4 & H5 & _) _ _ _ _].
  repeat split; intros E; first [rw -E in H1|rw -E in H2|rw -E in H3|rw H4 in E];
    try (by eapply Hl, obj_live); simplify_eq; done.
Qed.

Lemma ptable_posted : ptable posted pt t ps (<[i := Some l]> cs).
Proof.
  pose proof (ptable_code_stored _ _ _ _ l o c _ Ht Hl) as Ht1. apply (ptable_set_codes _ _ _ cs); [done| | |].
  - rw length_insert. apply (pt_clen _ _ _ _ _ Ht).
  - intros j k Hj. destruct (decide (i = j)) as [<-|Hne].
    + rw list_lookup_insert_eq in Hj; [|by eapply lookup_lt_Some]. injection Hj as <-. exists c, l.
      split; [done|]. split; [rw /code_stored; os_simpl; simpl; set_solver|]. rw /code_stored. os_simpl. apply lookup_insert_eq.
    + rw list_lookup_insert_ne // in Hj. by apply (pt_cobjs _ _ _ _ _ Ht1 j).
  - intros j k Hj. destruct (decide (i = j)) as [<-|Hne].
    + rw list_lookup_insert_eq in Hj; [|by eapply lookup_lt_Some]. injection Hj as <-. apply fresh_not_ptable.
    + rw list_lookup_insert_ne // in Hj. by apply (pt_sep _ _ _ _ _ Ht j).
Qed.

(** Taking it out again. *)
Lemma ptable_taken : ptable (set_slots (active_exit_codes t) cs (freed l posted)) pt t ps cs.
Proof.
  pose proof (all_objs_fresh _ _ _ _ (pt_cobjs _ _ _ _ _ Ht) Hl) as Hfresh.
  pose proof (all_objs_fresh _ _ _ _ (pt_pobjs _ _ _ _ _ Ht) Hl) as Hfresh'.
  pose proof (ptable_code_stored _ _ _ _ l o c _ Ht Hl) as Ht1.
  destruct fresh_not_ptable as (?&?&?&?). rw freed_set_slots. apply ptable_freed; [|done..].
  replace (set_slots _ cs posted) with (set_slots (active_exit_codes t) cs (code_stored l o c s)).
  - apply (ptable_set_codes _ _ _ cs); [done|apply Ht|apply Ht1|apply Ht].
  - rw /posted. rw /set_slots. destruct (active_exit_codes t) as [al|]; [|done].
    rw /upd_arrs. os_simpl. by rw insert_insert_eq.
Qed.

Lemma live_taken : live (sys (set_slots (active_exit_codes t) cs (freed l posted))) = live (sys s).
Proof. rw /posted freed_set_slots /freed. os_simpl. simpl. rw !live_set_slots /code_stored. os_simpl. simpl. set_solver. Qed.
End stored.

(** C23: what [_exit] posts is what [waitpid] gets.  On a process table without
    a code for [child]: when a block and a slot are to be had, a posted code
    makes [is_proc_exited] true, [get_exit_code] returns exactly that code, and
    then the child is not exited any more, the slot and the block are free
    again.  Without memory, or without a slot, the code is lost; in the second
    case its block is lost as well.  The table is well-formed with the slots it
    had before, and its lock free, in every case. *)
Theorem exit_code_posted_is_got s pt t ps cs code parent child :
  ptable s pt t ps cs → find_slot (codes s) (of_pid child) cs = None →
  wp (post_exit_code code parent child;;
      before ← is_proc_exited pt child;
      c ← get_exit_code pt parent child;
      after ← is_proc_exited pt child;
      mret (before, c, after)) (λ r s',
    ptable s' pt t ps cs ∧
    match next_block s, free_slot cs with
    | Some l, Some _ => r = (true, code, false) ∧ live (sys s') = live (sys s)
    | Some l, None => r = (false, -1, false) ∧ live (sys s') = {[l]} ∪ live (sys s)
    | None, _ => r = (false, -1, false) ∧ live (sys s') = live (sys s)
    end) s.
Proof.
  intros Ht Hnone. wp_step. eapply post_exit_code_spec; [done|]. destruct (next_block s) as [l|] eqn:Hnext.
  2: { intros o. eapply nothing_posted; [by apply ptable_oracle|done|]. split; [by apply ptable_oracle|done]. }
  intros Hl o. set (c := Pidxcode parent child code). pose proof (ptable_code_stored _ _ _ _ l o c _ Ht Hl) as Ht1.
  pose proof (all_objs_fresh _ _ _ _ (pt_cobjs _ _ _ _ _ Ht) Hl) as Hfresh. simpl.
  destruct (free_slot cs) as [i|] eqn:Hi.
  - apply free_slot_Some in Hi as [Hi _]. pose proof (ptable_posted _ _ _ _ _ l o c i Ht Hl Hi) as Ht2.
    pose proof (find_slot_new _ (of_pid child) _ _ l c Hi (bool_decide_eq_true_2 _ eq_refl) Hfresh Hnone) as Hf1.
    pose proof (find_slot_new _ (of_pair parent child) _ _ l c Hi (bool_decide_eq_true_2 _ (conj eq_refl eq_refl)) Hfresh
      (of_pair_pid _ _ parent _ Hnone)) as Hf2.
    wp_step. eapply is_proc_exited_spec; [exact Ht2|]. wp_step. eapply get_exit_code_spec; [exact Ht2|].
    rw codes_set_slots /code_stored. os_simpl. rw Hf2. intros c' Hc'. rw lookup_insert_eq in Hc'. injection Hc' as <-.
    rw list_insert_insert_eq (list_insert_id _ _ _ Hi).
    wp_step. eapply is_proc_exited_spec; [by apply (ptable_taken s pt t ps cs l o c i)|]. apply wp_ret.
    split; [by apply (ptable_taken s pt t ps cs l o c i)|]. split; [|by apply (live_taken s pt t ps)].
    rw codes_set_slots !(field_upd_base codes) codes_set_slots. os_simpl. rw (find_slot_other _ _ _ _ _ Hfresh Hnone).
    by rw Hf1.

  - eapply nothing_posted; [done|by apply find_slot_other|]. done.
Qed.
End exit_codes.

(** ** The process table as a map from pids to processes *)

Lemma s32_back n : s32 (s32 (n + 1) - 1) = s32 n.
Proof. rw /s32. zlia. Qed.

Section proctable.
Context `{!FileSystem}.

Lemma last_slot_put m ps i l x :
  ps !! i = Some None → m !! l = Some x → last_slot m (with_pid (pid x)) ps = None →
  last_slot m (with_pid (pid x)) (<[i := Some l]> ps) = Some i.
Proof.
  rw last_slot_None. intros Hi Hx Hnew. assert (i < length ps)%nat as Hlt by by eapply lookup_lt_Some.
  apply (last_slot_at _ _ _ _ (Some l)).
  - by rw list_lookup_insert_eq.
  - apply (hits_at _ _ _ _ Hx). by apply bool_decide_eq_true_2.
  - intros j q Hj Hq. rw list_lookup_insert_ne in Hq; [|lia]. by eapply Hnew.
Qed.

Lemma by_pid_put m ps i l x n :
  ps !! i = Some None → m !! l = Some x → last_slot m (with_pid (pid x)) ps = None →
  by_pid m (<[i := Some l]> ps) n = if bool_decide (n = pid x) then Some l else by_pid m ps n.
Proof.
  intros Hi Hx Hnew. assert (i < length ps)%nat as Hlt by by eapply lookup_lt_Some. bd_case (n = pid x) as Hn.
  - subst n. rw /by_pid (last_slot_put _ _ _ _ x) //=. by rw list_lookup_insert_eq.
  - rw /by_pid (last_slot_same _ _ _ _ _ _ Hi).
    + destruct (last_slot m (with_pid n) ps) as [j|] eqn:Hj; [|done]. simpl. rw list_lookup_insert_ne; [done|].
      intros <-. apply last_slot_hits in Hj as (p & Hp & Hh). rw Hi in Hp. by injection Hp as <-.
    + by intros [].
    + intros Hh%(hits_at _ _ _ _ Hx). by rw /with_pid bool_decide_eq_true in Hh.
Qed.

Lemma procs_procs_set pt t n ps s : procs (procs_set pt t n ps s) = procs s.
Proof. rw /procs_set /with_table /set_slots. by destruct pt, (proc_array t). Qed.
Lemma obj_procs_set pt t n ps q x s : obj procs q x s → obj procs q x (procs_set pt t n ps s).
Proof. rw /procs_set /with_table /set_slots. by destruct pt, (proc_array t). Qed.
Lemma all_objs_procs_set pt t n ps xs s : all_objs procs xs s → all_objs procs xs (procs_set pt t n ps s).
Proof. intros Hall i l Hi. destruct (Hall _ _ Hi) as [x Hx]. exists x. by apply obj_procs_set. Qed.

Lemma all_objs_insert {A} (f : state → gmap loc A) xs i p s :
  all_objs f xs s → (∀ l, p = Some l → ∃ x, obj f (Some l) x s) → all_objs f (<[i := p]> xs) s.
Proof. intros Hall Hp j k [(_ & -> & _)|[_ Hj]]%list_lookup_insert_Some; [by apply Hp|by eapply Hall]. Qed.

(** C21: the process table is a finite map from pids to processes.  Putting a
    process with a pid that no process of the table has: with a free slot, the
    table then finds the new process under its pid and every other one as
    before; removing the pid gives the old table back, so that it finds no
    process under that pid and the others as before.  A full table refuses the
    process with [-1], and nothing changes.  The loops end and the lock is
    free again. *)
Theorem proctable_put_get_remove s pt t ps cs l x n :
  ptable s pt t ps cs → obj procs (Some l) x s → last_slot (procs s) (with_pid (pid x)) ps = None →
  wp (r ← put_proc_on_proctable (Some l);
      p ← get_reference_by_pid n;
      remove_proc_from_proctable (pid x);;
      p' ← get_reference_by_pid n;
      mret (r, p, p')) (λ '(r, p, p') s',
    match free_slot ps with
    | Some i =>
        r = 0 ∧ p = (if bool_decide (n = pid x) then Some l else by_pid (procs s) ps n) ∧
        p' = (if bool_decide (n = pid x) then None else by_pid (procs s) ps n) ∧
        ptable s' pt (set_num_of_procs (s32 (num_of_procs t)) t) ps cs
    | None => r = -1 ∧ p = by_pid (procs s) ps n ∧ p' = by_pid (procs s) ps n ∧ s' = s
    end) s.
Proof.
  intros Ht Hx Hnew. wp_step. eapply put_proc_spec; [done|]. destruct (free_slot ps) as [i|] eqn:Hi.
  2: { wp_step. eapply get_reference_spec; [done|]. wp_step. eapply remove_proc_spec; [done|]. rw Hnew.
       wp_step. eapply get_reference_spec; [done|]. by apply wp_ret. }
  apply free_slot_Some in Hi as [Hi _]. assert (i < length ps)%nat as Hlt by by eapply lookup_lt_Some.
  assert (ptable (procs_set pt t (s32 (num_of_procs t + 1)) (<[i := Some l]> ps) s) pt
    (set_num_of_procs (s32 (num_of_procs t + 1)) t) (<[i := Some l]> ps) cs) as Ht1.
  { eapply ptable_procs_set; [done|rw length_insert; by apply Ht|]. apply all_objs_insert; [by apply Ht|].
    intros ? [= <-]. by exists x. }
  assert (procs s !! l = Some x) as Hxl by by destruct Hx as (? & [= <-] & _ & ?).
  wp_step. eapply get_reference_spec; [exact Ht1|]. rw procs_procs_set (by_pid_put _ _ _ _ x) //.
  wp_step. eapply remove_proc_spec; [exact Ht1|]. rw procs_procs_set.
  rw (last_slot_put _ _ _ _ x) //.
  assert (<[i := None]> (<[i := Some l]> ps) = ps) as -> by by rw list_insert_insert_eq (list_insert_id _ _ _ Hi).
  wp_step. eapply get_reference_spec; [eapply ptable_procs_set; [exact Ht1|by apply Ht|by apply all_objs_procs_set, Ht]|].
  apply wp_ret. rw !procs_procs_set. split; [done|]. split; [done|]. split.
  - bd_case (n = pid x) as Hn; [|done]. subst n. by rw /by_pid Hnew.
  - rw -(s32_back (num_of_procs t)).
    eapply (ptable_procs_set _ (set_num_of_procs _ t)); [exact Ht1|by apply Ht|by apply all_objs_procs_set, Ht].
Qed.
End proctable.

(** ** Witnesses *)

(** The shell's child 3 exits with code 7. *)
Lemma exit_code_posted_is_got_witness :
  wp (post_exit_code 7 2 3;; before ← is_proc_exited boot_pt 3; c ← get_exit_code boot_pt 2 3;
      after ← is_proc_exited boot_pt 3; mret (before, c, after))
    (λ r s', r = (true, 7, false) ∧ live (sys s') = live (sys booted)) booted.
Proof.
  eapply wp_mono.
  - apply (exit_code_posted_is_got booted boot_pt boot_ptab boot_procs boot_codes 7 2 3).
    + apply boot_ptable_wf.
    + by vm_compute.
  - intros r s' [_ H]. assert (next_block booted = Some 170%positive) as E by by vm_compute. rewrite E in H.
    assert (free_slot boot_codes = Some 0%nat) as E' by by vm_compute. rewrite E' in H. exact H.
Defined.

(** A second process, of pid 9, next to the shell. *)
Definition with_child : state := final (p ← proc_create [99]; put_proc p (set_pid 9)) booted.
Definition child_at : loc := default 1%positive (default None (result (proc_create [99]) booted)).
Definition child_proc : proc := default shell_proc (procs with_child !! child_at).

Lemma proctable_put_get_remove_witness :
  wp (r ← put_proc_on_proctable (Some child_at); p ← get_reference_by_pid 9; remove_proc_from_proctable 9;;
      p' ← get_reference_by_pid 9; mret (r, p, p'))
    (λ '(r, p, p') s', r = 0 ∧ p = Some child_at ∧ p' = None) with_child.
Proof.
  eapply wp_mono.
  - apply (proctable_put_get_remove with_child boot_pt boot_ptab boot_procs boot_codes child_at child_proc 9).
    + eval_ptable with_child.
    + apply (obj_intro procs child_at); by vm_compute.
    + by vm_compute.
  - intros [[r p] p'] s'. assert (free_slot boot_procs = Some 1%nat) as -> by by vm_compute.
    by intros (-> & -> & -> & _).
Defined.
