(* ===== verification/FileCalls.v ===== *)
(** * The file system calls: kern/syscall/{open,close,read,write,lseek,dup2,
      chdir_syscall,getcwd_syscall}.c

    Handlers return the value of the C function: the result, or the negated
    error number.  User addresses are numbers, NULL is 0.  Copies between user
    memory and a kernel buffer are those of CopyInOut.v, the buffer being laid
    out at one kernel address. *)

From stdpp Require Import base tactics list gmap option numbers strings ssreflect.
From S2P Require Import Prelude Kern CopyInOut Os Vfs FileTable.

Open Scope Z_scope.

(** ** Copies to and from a kernel buffer *)

(** Where the buffer is put for a copy. *)
Definition KBUF : Z := 2147487744.

Definition buf_mem (bs : list Z) : gmap Z Z := list_to_map (zip (seqZ KBUF (Z.of_nat (length bs))) bs).
Definition mem_buf (m : gmap Z Z) (n : nat) : list Z := (λ i, default 0 (m !! (KBUF + Z.of_nat i))) <$> seq 0 n.

(** The result of the copy and the contents of the buffer after it. *)
Definition run_copy {A} (bs : list Z) (m : M CopyInOut.state A) : M state (A * list Z) := λ s,
  match m (CopyInOut.State (umem s) (buf_mem bs) false) with
  | Ok a m' => Ok (a, mem_buf (kmem m') (length bs)) (upd_umem (λ _, CopyInOut.umem m') s)
  | Stop e m' => Stop e s
  end.

Definition with_buffer {A} (p : ptr) (m : M CopyInOut.state A) : M state A :=
  bs ← get bufs p;
  r ← run_copy bs m;
  put bufs upd_bufs p (λ _, r.2);;
  mret r.1.

Section calls.
Context `{!FileSystem}.

(** The process's file table and its lock. *)
Definition cur_proc : M state proc := p ← curproc; get_proc p.

(** ** open *)

(** Setting the access flags; [false] when they make no sense. *)
Definition set_access (fp : ptr) (flags : Z) : M state bool :=
  let how := Z.land flags O_ACCMODE in
  if bool_decide (how = 0) then put_file fp (λ f, set_can_write false (set_can_read true f));; mret true
  else if bool_decide (how = 1) then put_file fp (λ f, set_can_write true (set_can_read false f));; mret true
  else if bool_decide (how = 2) then put_file fp (λ f, set_can_write true (set_can_read true f));; mret true
  else mret false.

(** The tables get the opened file. *)
Definition install (g_ft p_ft fpath fp vn : ptr) : M state Z :=
  put_file fp (set_file_vnode vn);;
  fd ← get_next_fd;
  put_file fp (λ f, set_local_fd fd (set_global_fd fd f));;
  put_file_on_gtable g_ft fpath fp;;
  put_file_on_ptable p_ft fp;;
  kfree fpath;;
  mret fd.

(** From the allocated path buffer on; [ops_lock] is released on every path but
    the one for senseless flags. *)
Definition open_path (filename flags : Z) (g_ft p_ft lk fpath : ptr) : M state Z :=
  tst ← with_buffer fpath (copyinstr filename KBUF (Z.of_nat PATH_MAX));
  if bool_decide (tst.1 = EFAULT) then kfree fpath;; lock_release lk;; mret (- EFAULT)
  else
    fp ← create_file (cstring fpath);
    match fp with
    | None => kfree fpath;; lock_release lk;; mret (- ENOMEM)
    | Some _ =>
        ok ← set_access fp flags;
        if negb ok then mret (- EINVAL)
        else
          path ← cstring fpath;
          r ← vfs_open path flags 0;
          match r with
          | inl tst => kfree fpath;; lock_release lk;; mret (- tst)
          | inr node =>
              toreturn ← install g_ft p_ft fpath fp node;
              lock_release lk;;
              mret toreturn
          end
    end.

Definition open (filename flags : Z) : M state Z :=
  if bool_decide (filename = 0) then mret (- EFAULT)
  else
    g_ft ← globals_of global_ftable;
    g ← get_gft g_ft;
    if bool_decide (gf_size g = Z.of_nat OPEN_MAX) then mret (- ENFILE)
    else
      cur ← cur_proc;
      lock_acquire (ops_lock cur);;
      local_table ← get_pft (p_filetable_of cur);
      if bool_decide (pf_size local_table = Z.of_nat OPEN_MAX) then lock_release (ops_lock cur);; mret (- EMFILE)
      else
        fpath ← alloc_buf PATH_MAX;
        match fpath with
        | None => lock_release (ops_lock cur);; mret (- ENOMEM)
        | Some _ => open_path filename flags g_ft (p_filetable_of cur) (ops_lock cur) fpath
        end.

(** ** close *)

Definition close (fd : Z) : M state Z :=
  cur ← cur_proc;
  lock_acquire (ops_lock cur);;
  toclose ← p_filetable_lookup (p_filetable_of cur) fd;
  match toclose with
  | None => lock_release (ops_lock cur);; mret (- EBADF)
  | Some _ =>
      f ← get_file toclose;
      let std n := negb (is_dupe f) && bool_decide (std_file_status f = n) in
      if std 0 then put_pft (p_filetable_of cur) (set_stdin_open false);; lock_release (ops_lock cur);; mret 0
      else if std 1 then put_pft (p_filetable_of cur) (set_stdout_open false);; lock_release (ops_lock cur);; mret 0
      else if std 2 then put_pft (p_filetable_of cur) (set_stderr_open false);; lock_release (ops_lock cur);; mret 0
      else
        close_file_on_ptable (p_filetable_of cur) fd;;
        lock_release (ops_lock cur);;
        mret 0
  end.

(** ** Console *)

(** [getch] sleeps until something is typed. *)
Definition getch : M state Z :=
  cs ← gets stdin;
  match cs with [] => stops (Asleep 1) | c :: cs' => modify (upd_stdin (λ _, cs'));; mret c end.
Definition putch (c : Z) : M state unit := modify (upd_console (λ out, out ++ [c])).

(** One byte of a buffer. *)
Definition bget (p : ptr) (i : nat) : M state Z := bs ← get bufs p; deref (λ _, bs !! i).
Definition bset (p : ptr) (i : nat) (b : Z) : M state unit := bget p i;; put bufs upd_bufs p <[i := b]>.

(** ** read *)

(** The loop that fills the buffer with a line. *)
Definition read_line (buf : ptr) (buflen : Z) : M state unit :=
  for_up 0 (Z.to_nat buflen) (λ i,
    c ← getch;
    let c := c mod 256 in
    if bool_decide (c = 10 ∨ c = 13) then bset buf i 10;; putch 10;; mret (Some tt)
    else bset buf i c;; mret None);;
  mret tt.

(** From standard input, all locks released; the value is that of
    [copyoutstr]. *)
Definition read_stdin (ubuf buflen : Z) : M state Z :=
  read_buffer ← alloc_buf (Z.to_nat buflen);
  match read_buffer with
  | None => mret (- ENOMEM)
  | Some _ =>
      read_line read_buffer buflen;;
      tst ← with_buffer read_buffer (copyoutstr KBUF ubuf buflen);
      kfree read_buffer;;
      mret (if bool_decide (tst.1 = EFAULT) then - EFAULT else tst.1)
  end.

(** The transferred bytes replace the front of the buffer. *)
Definition fill_front (data bs : list Z) : list Z := data ++ drop (length data) bs.

(** From a file, its lock held; without memory for the buffer the lock is kept. *)
Definition read_file (f : ptr) (ubuf buflen : Z) : M state Z :=
  read_buffer ← alloc_buf (Z.to_nat buflen);
  match read_buffer with
  | None => mret (- ENOMEM)
  | Some _ =>
      x ← get_file f;
      pos ← get_off (seek_pos x);
      r ← vop "read" (file_vnode x) (λ v, read_fn v pos (Z.to_nat buflen));
      match r with
      | inl retval => kfree read_buffer;; lock_release (file_lock x);; mret (- retval)
      | inr data =>
          put bufs upd_bufs read_buffer (fill_front data);;
          tst ← with_buffer read_buffer (copyout KBUF ubuf buflen);
          if bool_decide (tst = EFAULT) then kfree read_buffer;; lock_release (file_lock x);; mret (- EFAULT)
          else
            put_off (seek_pos x) (s64 (pos + Z.of_nat (length data)));;
            kfree read_buffer;;
            lock_release (file_lock x);;
            mret (Z.of_nat (length data))
      end
  end.

Definition read (fd ubuf buflen : Z) : M state Z :=
  if bool_decide (ubuf = 0) then mret (- EFAULT)
  else
    cur ← cur_proc;
    lock_acquire (ops_lock cur);;
    f ← p_filetable_lookup (p_filetable_of cur) fd;
    match f with
    | None => lock_release (ops_lock cur);; mret (- EBADF)
    | Some _ =>
        x ← get_file f;
        lock_acquire (file_lock x);;
        if negb (can_read x) then lock_release (file_lock x);; lock_release (ops_lock cur);; mret (- EBADF)
        else if bool_decide (std_file_status x = 0) then
          lock_release (file_lock x);;
          t ← get_pft (p_filetable_of cur);
          lock_release (ops_lock cur);;
          if stdin_open t then read_stdin ubuf buflen else mret (- EBADF)
        else
          lock_release (ops_lock cur);;
          read_file f ubuf buflen
    end.

(** ** write *)

(** A [char] is signed. *)
Definition schar (b : Z) : Z := if bool_decide (b < 128) then b else b - 256.

(** To the console, the file's lock held.  The loop runs to [buflen] inclusive
    and the length is taken after the buffer is freed. *)
Definition write_std (f : ptr) (ubuf buflen : Z) : M state Z :=
  write_buffer ← alloc_buf (Z.to_nat buflen);
  x ← get_file f;
  match write_buffer with
  | None => lock_release (file_lock x);; mret (- ENOMEM)
  | Some _ =>
      tst ← with_buffer write_buffer (copyinstr ubuf KBUF buflen);
      if bool_decide (tst.1 = EFAULT) then kfree write_buffer;; lock_release (file_lock x);; mret (- EFAULT)
      else
        for_up 0 (S (Z.to_nat buflen)) (λ i,
          b ← bget write_buffer i;
          (if bool_decide (32 ≤ schar b ∨ schar b = 10) then putch (schar b) else mret tt);;
          mret (@None unit));;
        lock_release (file_lock x);;
        kfree write_buffer;;
        cs ← cstring write_buffer;
        mret (Z.of_nat (length cs) + 1)
  end.

Definition write_file (f : ptr) (ubuf buflen : Z) : M state Z :=
  write_buffer ← alloc_buf (Z.to_nat buflen);
  x ← get_file f;
  match write_buffer with
  | None => lock_release (file_lock x);; mret (- ENOMEM)
  | Some _ =>
      put bufs upd_bufs write_buffer (fmap (λ _, 0));;        (* init_write_buffer *)
      tst ← with_buffer write_buffer (copyin ubuf KBUF buflen);
      if bool_decide (tst = EFAULT) then kfree write_buffer;; lock_release (file_lock x);; mret (- EFAULT)
      else
        pos ← get_off (seek_pos x);
        bs ← get bufs write_buffer;
        r ← vop "write" (file_vnode x) (λ v, write_fn v pos bs);
        match r with
        | inl ret_val => kfree write_buffer;; lock_release (file_lock x);; mret (- ret_val)
        | inr n =>
            put_off (seek_pos x) (s64 (pos + Z.of_nat n));;
            kfree write_buffer;;
            lock_release (file_lock x);;
            mret (Z.of_nat n)
        end
  end.

Definition write (fd ubuf buflen : Z) : M state Z :=
  if bool_decide (ubuf = 0) then mret (- EFAULT)
  else
    cur ← cur_proc;
    lock_acquire (ops_lock cur);;
    f ← p_filetable_lookup (p_filetable_of cur) fd;
    match f with
    | None => lock_release (ops_lock cur);; mret (- EBADF)
    | Some _ =>
        x ← get_file f;
        lock_acquire (file_lock x);;
        if negb (can_write x) then lock_release (file_lock x);; lock_release (ops_lock cur);; mret (- EBADF)
        else if bool_decide (std_file_status x = 1 ∨ std_file_status x = 2) then
          t ← get_pft (p_filetable_of cur);
          if stderr_open t || stdin_open t then lock_release (ops_lock cur);; write_std f ubuf buflen
          else lock_release (file_lock x);; lock_release (ops_lock cur);; mret (- EBADF)
        else
          lock_release (ops_lock cur);;
          write_file f ubuf buflen
    end.

(** ** lseek *)

(** The value and [*retval]. *)
Definition lseek (fd pos whence : Z) : M state (Z * option Z) :=
  if bool_decide (fd < 0 ∨ fd >= Z.of_nat OPEN_MAX) then mret (- EBADF, None)
  else
    cur ← cur_proc;
    lock_acquire (ops_lock cur);;
    cur_file ← p_filetable_lookup (p_filetable_of cur) fd;
    lock_release (ops_lock cur);;
    match cur_file with
    | None => mret (- EBADF, None)
    | Some _ =>
        x ← get_file cur_file;
        lock_acquire (file_lock x);;
        let fails e := lock_release (file_lock x);; mret (- e, None) in
        if bool_decide (std_file_status x ≠ -1) then fails ESPIPE
        else
          seekable ← vop "isseekable" (file_vnode x) isseekable_fn;
          if negb seekable then fails ESPIPE
          else
            file_stat ← kmalloc;
            nonnull file_stat;;
            r ← vop "stat" (file_vnode x) stat_fn;
            match r with
            | inl failure => fails failure
            | inr eof =>
                kfree file_stat;;
                old ← get_off (seek_pos x);
                let new_pos := if bool_decide (whence = 0) then Some pos
                  else if bool_decide (whence = 1) then Some (s64 (old + pos))
                  else if bool_decide (whence = 2) then Some (s64 (eof + pos)) else None in
                match new_pos with
                | None => fails EINVAL
                | Some new_pos =>
                    if bool_decide (new_pos < 0) then fails EINVAL
                    else
                      put_off (seek_pos x) new_pos;;
                      lock_release (file_lock x);;
                      mret (0, Some new_pos)
                end
            end
    end.

(** ** dup2 *)

Definition dup2 (oldfd newfd : Z) : M state Z :=
  if bool_decide (oldfd < 0 ∨ newfd < 0 ∨ newfd >= Z.of_nat OPEN_MAX) then mret (- EBADF)
  else if bool_decide (oldfd = newfd) then mret newfd
  else
    cur ← cur_proc;
    lock_acquire (ops_lock cur);;
    let p_ft := p_filetable_of cur in
    old_entry ← p_filetable_lookup p_ft oldfd;
    new_entry ← p_filetable_lookup p_ft newfd;
    match old_entry with
    | None => lock_release (ops_lock cur);; mret (- EBADF)
    | Some _ =>
        (match new_entry with Some _ => close_file_on_ptable p_ft newfd | None => mret tt end);;
        new_entry ← dup_file p_ft oldfd newfd;
        toreturn ← put_file_on_ptable p_ft new_entry;
        lock_release (ops_lock cur);;
        mret (if bool_decide (toreturn = -1) then - EMFILE else newfd)
    end.

(** ** chdir and __getcwd *)

(** The path buffers are on the stack. *)
Definition copyin_path (pathname : Z) : M state (Z * list Z) :=
  j ← gets junk;
  r ← run_copy (j <$> seq 0 PATH_MAX) (copyinstr pathname KBUF (Z.of_nat PATH_MAX));
  mret (r.1.1, r.2).

Definition chdir (pathname : Z) : M state Z :=
  lk ← globals_of fileops_lock;
  lock_acquire lk;;
  r ← copyin_path pathname;
  let '(returnval, buf) := r in
  if bool_decide (returnval ≠ 0) then lock_release lk;; mret (- returnval)
  else
    path ← deref (λ _, until_nul buf);
    returnval ← vfs_chdir path;
    lock_release lk;;
    mret (if bool_decide (returnval ≠ 0) then - returnval else returnval).

(** The directory's name goes to the stack buffer, not to the user's; a
    [buflen] above the size of the buffer would run over it. *)
Definition getcwd (buf buflen : Z) : M state Z :=
  if bool_decide (buf = 0) then mret (- EFAULT)
  else
    cur ← cur_proc;
    lock_acquire (ops_lock cur);;
    r ← copyin_path buf;
    let '(returnval, tempbuf) := r in
    if bool_decide (returnval ≠ 0) then lock_release (ops_lock cur);; mret (- returnval)
    else
      r ← vfs_getcwd (Z.to_nat buflen);
      match r with
      | inl returnval => lock_release (ops_lock cur);; mret (- returnval)
      | inr name =>
          (if bool_decide (Z.of_nat (length name) > Z.of_nat PATH_MAX) then stops Fault else mret tt);;
          lock_release (ops_lock cur);;
          mret (s32 (Z.of_nat (length name)))
      end.
End calls.
