(* ===== verification/ProcCalls.v ===== *)
(** * The process system calls and the dispatcher: kern/syscall/{fork,exit,
      waitpid,getpid,time_syscalls}.c, kern/arch/mips/syscall/syscall.c

    Handlers return the value of the C function.  [waitpid] and [_exit] are cut
    where the thread leaves the processor: [cv_wait] puts it to sleep, and
    [waitpid_resume] is what it does when it runs again. *)

From stdpp Require Import base tactics list gmap option numbers strings ssreflect.
From S2P Require Import Prelude Kern CopyInOut Os Kprintf Vfs FileTable ProcTable FileCalls.

Open Scope Z_scope.

(** ** Trapframes *)

(** The registers the code reads or writes; the others are carried along. *)
Record trapframe := Trapframe {
  tf_v0 : Z; tf_v1 : Z; tf_a0 : Z; tf_a1 : Z; tf_a2 : Z; tf_a3 : Z; tf_sp : Z; tf_epc : Z;
  tf_rest : list Z
}.

Definition set_ret v0 v1 a3 epc (tf : trapframe) :=
  Trapframe v0 v1 (tf_a0 tf) (tf_a1 tf) (tf_a2 tf) a3 (tf_sp tf) epc (tf_rest tf).

(** A trapframe as the words of a block. *)
Definition tf_words (tf : trapframe) : list Z :=
  [tf_v0 tf; tf_v1 tf; tf_a0 tf; tf_a1 tf; tf_a2 tf; tf_a3 tf; tf_sp tf; tf_epc tf] ++ tf_rest tf.
Definition words_tf (ws : list Z) : option trapframe :=
  match ws with
  | v0 :: v1 :: a0 :: a1 :: a2 :: a3 :: sp :: epc :: r => Some (Trapframe v0 v1 a0 a1 a2 a3 sp epc r)
  | _ => None
  end.

(** An [int] in memory, the most significant byte first. *)
Definition int_bytes (v : Z) : list Z :=
  (λ i, Z.land (Z.shiftr (u32 v) (8 * i)) 255) <$> [3; 2; 1; 0].
Definition bytes_int (bs : list Z) : Z := s32 (foldl (λ acc b, acc * 256 + b) 0 bs).

(** [join32to64] and [split64to32] of kern/lib/bswap.c, big-endian. *)
Definition join32to64 (x1 x2 : Z) : Z := Z.lor (Z.shiftl x1 32) x2.
Definition split64to32 (x : Z) : Z * Z := (Z.shiftr x 32, Z.land x 4294967295).

Section proccalls.
Context `{!FileSystem}.

(** ** fork *)

(** What [thread_fork] (Sched.v) does to a new process: a thread and its stack,
    or [ENOMEM]; the thread joins the process and is made runnable with the
    argument of its entry point. *)
Definition thread_fork (proc data1 : ptr) : M state Z :=
  newthread ← kmalloc;
  match newthread with
  | None => mret ENOMEM
  | Some t =>
      stack ← kmalloc;
      match stack with
      | None => kfree newthread;; mret ENOMEM
      | Some _ =>
          modify (upd_threads <[t := None]>);;
          result ← proc_addthread proc t;
          if bool_decide (result ≠ 0) then kfree stack;; kfree newthread;; mret result
          else modify (upd_started (λ l, l ++ [(t, data1)]));; mret 0
      end
  end.

(** "child_proc" *)
Definition child_name : list Z := [99; 104; 105; 108; 100; 95; 112; 114; 111; 99].

Definition as_copy (src : ptr) : M state (Z + ptr) :=
  a ← nonnull src;
  r ← ext_step (as_copy_fn a);
  mret (match r with inl e => inl e | inr b => inr (Some b) end).

(** From the new process on. *)
Definition fork_into (copiedtf copy : ptr) : M state Z :=
  cur ← cur_proc;
  lock_acquire (ops_lock cur);;
  childpid ← get_next_pid;
  put_proc copy (λ x, set_ppid (pid cur) (set_pid childpid x));;
  r ← as_copy (p_addrspace cur);
  match r with
  | inl tst => kfree copiedtf;; proc_destroy copy;; lock_release (ops_lock cur);; mret (- tst)
  | inr a =>
      put_proc copy (set_p_addrspace a);;
      x ← get_proc copy;
      copy_p_filetable (p_filetable_of cur) (p_filetable_of x);;
      lock_release (ops_lock cur);;
      put_proc_on_proctable copy;;
      incaseoferror ← thread_fork copy copiedtf;
      mret (if bool_decide (incaseoferror ≠ 0) then - incaseoferror else childpid)
  end.

Definition fork (tf : trapframe) : M state Z :=
  pt ← globals_of global_ptable;
  t ← get_ptab pt;
  if bool_decide (num_of_procs t = Z.of_nat PROC_MAX) then mret (- ENPROC)
  else
    copiedtf ← alloc upd_bufs (tf_words tf);
    match copiedtf with
    | None => mret (- ENOMEM)
    | Some _ =>
        copy ← proc_create_runprogram child_name;
        match copy with
        | None => kfree copiedtf;; mret (- ENOMEM)
        | Some _ => fork_into copiedtf copy
        end
    end.

(** The registers the child enters user mode with. *)
Definition child_fork_handler (data1 : ptr) : M state trapframe :=
  cur ← cur_proc;
  kassert (bool_decide (p_addrspace cur ≠ None));;
  ws ← get bufs data1;
  tf ← deref (λ _, words_tf ws);
  kfree data1;;
  mret (set_ret 0 (tf_v1 tf) 0 (u32 (tf_epc tf + 4)) tf).

(** ** _exit *)

Definition MKWAIT_EXIT (x : Z) : Z := Z.lor (s32 (Z.shiftl x 2)) 0.

(** What a program sees in a wait status (kern/wait.h). *)
Definition WIFEXITED (x : Z) : bool := bool_decide (Z.land x 3 = 0).
Definition WEXITSTATUS (x : Z) : Z := Z.shiftr x 2.

(** Everything before [thread_exit]. *)
Definition exit_proc (exitcode : Z) : M state unit :=
  cur ← cur_proc;
  lock_acquire (ops_lock cur);;
  parent_proc ← get_reference_by_pid (ppid cur);
  rem_all_exit_codes (pid cur);;
  (match parent_proc with
   | None => mret tt
   | Some _ =>
       p ← get_proc parent_proc;
       lock_acquire (ops_lock p);;
       post_exit_code (MKWAIT_EXIT exitcode) (ppid cur) (pid cur);;
       lock_release (ops_lock p);;
       cv_signal (waitpid_cv p) (ops_lock cur)
   end);;
  remove_proc_from_proctable (pid cur);;
  lock_release (ops_lock cur).

(** [thread_exit] (Sched.v) detaches the thread from its process and never
    returns. *)
Definition _exit {A} (exitcode : Z) : M state A :=
  exit_proc exitcode;;
  t ← curthread;
  proc_remthread t;;
  stops (Asleep 1).

(** ** waitpid *)

(** After the wait: the exit code is taken and copied out. *)
Definition waitpid_finish (cur : proc) (wpid status : Z) : M state (Z * Z) :=
  pt ← globals_of global_ptable;
  code ← get_exit_code pt (pid cur) wpid;
  err ← (if bool_decide (status = 0) then mret 0
         else r ← run_copy (int_bytes code) (copyout KBUF status 4); mret r.1);
  lock_release (ops_lock cur);;
  mret (if bool_decide (err = EFAULT) then (- EFAULT, -1) else (0, wpid)).

(** The loop that waits. *)
Definition waitpid_wait (cur : proc) (wpid status : Z) : M state (Z * Z) :=
  pt ← globals_of global_ptable;
  exited ← is_proc_exited pt wpid;
  if (exited : bool) then waitpid_finish cur wpid status
  else cv_wait (waitpid_cv cur) (ops_lock cur).

(** What a thread asleep in the loop does when it runs again. *)
Definition waitpid_resume (wpid status : Z) : M state (Z * Z) :=
  cur ← cur_proc;
  lock_acquire (ops_lock cur);;
  waitpid_wait cur wpid status.

(** [!child_proc->ppid == curproc->pid]: the negation binds first. *)
Definition not_child (child cur : proc) : bool :=
  bool_decide ((if bool_decide (ppid child = 0) then 1 else 0) = pid cur).

(** The value and [*retval]. *)
Definition waitpid (wpid status options : Z) : M state (Z * Z) :=
  if bool_decide (options ≠ 0) then mret (- EINVAL, -1)
  else if bool_decide (wpid < PID_MIN ∨ wpid > PID_MAX) then mret (- ESRCH, -1)
  else
    cur ← cur_proc;
    lock_acquire (ops_lock cur);;
    child_proc ← get_reference_by_pid wpid;
    pt ← globals_of global_ptable;
    gone ← (match child_proc with
            | None => b ← is_proc_exited pt wpid; mret (negb b)
            | Some _ => mret false
            end);
    if (gone : bool) then lock_release (ops_lock cur);; mret (- ESRCH, -1)
    else
      exited ← is_proc_exited pt wpid;
      if (exited : bool) then lock_release (ops_lock cur);; mret (0, wpid)
      else
        child ← get_proc child_proc;
        lock_acquire (ops_lock child);;
        if not_child child cur || bool_decide (wpid = pid cur) then
          lock_release (ops_lock child);; lock_release (ops_lock cur);; mret (- ECHILD, -1)
        else
          lock_release (ops_lock child);;
          waitpid_wait cur wpid status.

(** ** getpid and __time *)

Definition getpid : M state (Z * Z) :=
  cur ← cur_proc;
  lock_acquire (ops_lock cur);;
  lock_release (ops_lock cur);;
  mret (0, pid cur).

(** The time is read from the clock device: seconds and nanoseconds, as the
    bytes of a [time_t] and of an [int]. *)
Definition sys___time (now : list Z * list Z) (secs nsecs : Z) : M state Z :=
  r ← run_copy now.1 (copyout KBUF secs (Z.of_nat (length now.1)));
  if bool_decide (r.1 ≠ 0) then mret r.1
  else
    r ← run_copy now.2 (copyout KBUF nsecs (Z.of_nat (length now.2)));
    mret r.1.

(** ** The dispatcher *)

Definition SYS_fork : Z := 0.
Definition SYS_execv : Z := 2.
Definition SYS__exit : Z := 3.
Definition SYS_waitpid : Z := 4.
Definition SYS_getpid : Z := 5.
Definition SYS_open : Z := 45.
Definition SYS_dup2 : Z := 48.
Definition SYS_close : Z := 49.
Definition SYS_read : Z := 50.
Definition SYS_write : Z := 55.
Definition SYS_lseek : Z := 59.
Definition SYS_remove : Z := 68.
Definition SYS_chdir : Z := 74.
Definition SYS___getcwd : Z := 76.
Definition SYS___time : Z := 113.
Definition SYS_reboot : Z := 119.

(** The error number and the value of a handler that returns its error
    negated. *)
Definition neg_err (retval : Z) : Z * Z :=
  if bool_decide (retval < 0) then (s32 (retval * -1), -1) else (0, retval).

(** One call: [err], [retval] and [tf_v1].  [sys_reboot] and [execv] are the
    caller's. *)
Definition dispatch (sys_reboot : Z → M state Z) (execv : Z → Z → M state Z) (now : list Z * list Z)
    (tf : trapframe) : M state (Z * Z * Z) :=
  let callno := s32 (tf_v0 tf) in
  let simple m := r ← m; mret (neg_err r, tf_v1 tf) in
  if bool_decide (callno = SYS_reboot) then err ← sys_reboot (tf_a0 tf); mret (err, 0, tf_v1 tf)
  else if bool_decide (callno = SYS___time) then
    err ← sys___time now (tf_a0 tf) (tf_a1 tf); mret (err, 0, tf_v1 tf)
  else if bool_decide (callno = SYS_write) then simple (write (s32 (tf_a0 tf)) (tf_a1 tf) (tf_a2 tf))
  else if bool_decide (callno = SYS__exit) then _exit (s32 (tf_a0 tf))
  else if bool_decide (callno = SYS_open) then simple (open (tf_a0 tf) (s32 (tf_a1 tf)))
  else if bool_decide (callno = SYS_read) then simple (read (s32 (tf_a0 tf)) (tf_a1 tf) (tf_a2 tf))
  else if bool_decide (callno = SYS_close) then simple (close (s32 (tf_a0 tf)))
  else if bool_decide (callno = SYS_fork) then simple (fork tf)
  else if bool_decide (callno = SYS_remove) then mret (0, 0, tf_v1 tf)
  else if bool_decide (callno = SYS_lseek) then
    let pos := join32to64 (tf_a2 tf) (tf_a3 tf) in
    w ← run_copy (int_bytes 0) (copyin (u32 (tf_sp tf + 16)) KBUF 4);
    if bool_decide (w.1 = EFAULT) then mret (EFAULT, -1, tf_v1 tf)
    else
      r ← lseek (s32 (tf_a0 tf)) (s64 pos) (bytes_int w.2);
      if bool_decide (r.1 < 0) then mret (s32 (- r.1), -1, tf_v1 tf)
      else
        let '(v0, v1) := split64to32 (u64 (default 0 r.2)) in
        mret (0, s32 v0, v1)
  else if bool_decide (callno = SYS_dup2) then simple (dup2 (s32 (tf_a0 tf)) (s32 (tf_a1 tf)))
  else if bool_decide (callno = SYS___getcwd) then simple (getcwd (tf_a0 tf) (tf_a1 tf))
  else if bool_decide (callno = SYS_chdir) then simple (chdir (tf_a0 tf))
  else if bool_decide (callno = SYS_execv) then simple (execv (tf_a0 tf) (tf_a1 tf))
  else if bool_decide (callno = SYS_getpid) then
    r ← getpid;
    if bool_decide (r.1 < 0) then mret (s32 (- r.1), -1, tf_v1 tf)
    else mret (0, s32 (tf_v0 tf), tf_v1 tf)
  else if bool_decide (callno = SYS_waitpid) then
    r ← waitpid (s32 (tf_a0 tf)) (tf_a1 tf) (s32 (tf_a2 tf));
    if bool_decide (r.1 < 0) then mret (s32 (- r.1), -1, tf_v1 tf) else mret (0, r.2, tf_v1 tf)
  else
    kprintf (text "Unknown syscall " ++ decimal callno ++ newline);;
    mret (ENOSYS, 0, tf_v1 tf).

Definition syscall (sys_reboot : Z → M state Z) (execv : Z → Z → M state Z) (now : list Z * list Z)
    (tf : trapframe) : M state trapframe :=
  r ← dispatch sys_reboot execv now tf;
  let '(err, retval, v1) := r in
  mret (if bool_decide (err ≠ 0) then set_ret (u32 err) v1 1 (u32 (tf_epc tf + 4)) tf
        else set_ret (u32 retval) v1 0 (u32 (tf_epc tf + 4)) tf).
End proccalls.
