(* ===== verification/CallFacts.v ===== *)
(** * Facts for the system calls

    The running process, its file table and its open files, as rules for the
    handlers of FileCalls.v and ProcCalls.v. *)

From stdpp Require Import base tactics list gmap option numbers ssreflect.
From S2P Require Import Prelude Kern CopyInOut Os OsFacts Vfs FileTable FileFacts ProcTable ProcFacts FileCalls ProcCalls.

Open Scope Z_scope.

(** An [int] survives being copied byte by byte. *)
Lemma bytes_int_bytes v : bytes_int (int_bytes v) = s32 v.
Proof.
  rw /bytes_int /int_bytes. cbn [fmap list_fmap foldl].
  assert (∀ k, Z.land k 255 = k mod 256) as Hland by (intros k; by rw (Z.land_ones _ 8)).
  rw !Hland !Z.shiftr_div_pow2; [|lia..]. rw -(s32_u32 v). f_equal. pose proof (u32_range v). zlia.
Qed.

Section facts.
Context `{!FileSystem}.

(** The process of the running thread; its [ops_lock] is free. *)
Record running (s : state) (p : ptr) (x : proc) : Prop := {
  run_cur : threads s !! me (sys s) = Some p;
  run_proc : obj procs p x s;
  run_lock : lock_free (ops_lock x) s
}.

Lemma wp_curproc p (Q : ptr → state → Prop) s : threads s !! me (sys s) = Some p → Q p s → wp curproc Q s.
Proof. intros Ht HQ. rw /curproc /curthread. wp_step. wp_step. by eapply wp_deref. Qed.

Lemma wp_cur_proc p x (Q : proc → state → Prop) s : running s p x → Q x s → wp cur_proc Q s.
Proof. intros [Ht Hp _] HQ. rw /cur_proc. wp_step. eapply wp_curproc; [done|]. by eapply wp_get. Qed.

(** Another lock stays free. *)
Lemma lock_free_acquired p q (s : state) : lock_free q s → p ≠ q → lock_free q (acquired p s).
Proof.
  intros (l & k & -> & Hl & Hk & Hn) Hne. exists l, k. rw acquired_live. split; [done|]. split; [done|]. split; [|done].
  rw /acquired. destruct p as [l'|]; [|done]. destruct (lks (base_of s) !! l') as [k'|]; [|done].
  rw /upd_base base_with /= lookup_insert_ne //. congruence.
Qed.

Lemma all_objs_acquired' {A} (f : state → gmap loc A) `{!Field f} xs p s : all_objs f xs s → all_objs f xs (acquired p s).
Proof. by apply all_objs_acquired. Qed.

Lemma table_acquired q s p_ft t xs : table s p_ft t xs → q ≠ proc_ft_lock t → table (acquired q s) p_ft t xs.
Proof.
  intros [Ht Ha Hlen Hk Hfs] Hne. split; [by apply obj_acquired|by apply obj_acquired|done|by apply lock_free_acquired|].
  by apply all_objs_acquired.
Qed.

(** Looking a descriptor up under the process's lock. *)
Lemma wp_lookup_locked {B} p x t xs fd (k : ptr → M state B) (Q : B → state → Prop) s :
  running s p x → table s (p_filetable_of x) t xs → ops_lock x ≠ proc_ft_lock t →
  wp (k (first_fd (files s) xs fd)) Q s →
  wp (lock_acquire (ops_lock x);; f ← p_filetable_lookup (p_filetable_of x) fd; lock_release (ops_lock x);; k f) Q s.
Proof.
  intros Hrun Ht Hne HQ. apply wp_read_locked; [by apply Hrun|].
  eapply p_filetable_lookup_spec; [by apply table_acquired|]. split; [done|]. by rw field_acquired.
Qed.

(** An open file of the process, on a vnode. *)
Record open_on (s : state) (f : ptr) (x : file) (v : loc) (pos : Z) : Prop := {
  of_file : obj files f x s;
  of_lock : lock_free (file_lock x) s;
  of_seek : obj offs (seek_pos x) pos s;
  of_vnode : file_vnode x = Some v;
  of_counted : ∃ n, vns s !! v = Some n ∧ 0 < n;
  of_plain : std_file_status x = -1
}.

Lemma wp_vop_ext {A} opstr v (g : loc → extdata → A * extdata) a e (Q : A → state → Prop) s :
  (∃ n, vns s !! v = Some n ∧ 0 < n) → g v (ext s) = (a, e) → (∀ out, Q a (stepped e out s)) →
  wp (vop opstr (Some v) g) Q s.
Proof. intros Hn Hg HQ. apply wp_vop; [done|]. intros a' e' out. rw Hg. intros [= <- <-]. apply HQ. Qed.

#[export] Instance outside_stepped e out : Outside (stepped e out).
Proof. done. Qed.

Lemma lock_free_live q (s : state) b : lock_free q s → b ∉ live (sys s) → q ≠ Some b.
Proof. intros (k & ? & -> & Hk & _) Hb [= ->]. done. Qed.
End facts.

(** ** Copies between user memory and a buffer of the kernel

    What the system calls get from [copyin] and [copyout] (CopyInOut.v) when the
    user's block is mapped. *)

(** ** Copying a kernel buffer out *)

Lemma buf_bytes bs : bytes_at (buf_mem bs) KBUF bs.
Proof.
  apply bytes_at_lookup. intros i b Hi. rw /buf_mem. apply elem_of_list_to_map_1.
  - rw fst_zip; [|by rw length_seqZ Nat2Z.id]. apply NoDup_seqZ.
  - apply list_elem_of_lookup. exists i. apply lookup_zip_Some. split; [|done]. simpl.
    apply lookup_seqZ. apply lookup_lt_Some in Hi. lia.
Qed.

(** To a mapped place in user space. *)
Lemma wp_copyout bs user (Q : Z * list Z → state → Prop) s :
  bs ≠ [] → is_addr user → user + Z.of_nat (length bs) ≤ USERSPACETOP →
  CopyInOut.mapped (umem s) user (Z.of_nat (length bs)) →
  (∀ k, Q (0, k) (upd_umem (λ _, write_bytes (umem s) user bs) s)) →
  wp (run_copy bs (copyout KBUF user (Z.of_nat (length bs)))) Q s.
Proof.
  intros Hbs Hu Htop Hm HQ. set (m := CopyInOut.State (umem s) (buf_mem bs) false).
  assert (0 < Z.of_nat (length bs)) as Hpos by by destruct bs; [|simpl; lia].
  assert (is_addr (Z.of_nat (length bs))) as Hl by by rw /is_addr /USERSPACETOP in Hu Htop |- *; lia.
  pose proof (bytes_at_length_mapped _ _ _ (buf_bytes bs)) as Hk.
  assert (wp (copyout KBUF user (Z.of_nat (length bs))) (block_copy m User Kernel user KBUF user (Z.of_nat (length bs))) m) as Hwp.
  { apply (guarded_copy_spec m User Kernel); [done..|]. intros _. split; [done|]. split; [apply Hu|done]. }
  rw /wp /run_copy. rw /wp in Hwp. change (CopyInOut.State _ _ _) with m. destruct (copyout _ _ _ m) as [r m'|]; [|done].
  destruct Hwp as [(-> & _ & _ & l & Hlen & Hat & _ & _ & Hmem)|(_ & [Hwhy|[Hwhy|(i & Hi & Hwhy)]] & _)]; [|lia|lia|].
  - simpl in Hmem, Hat. assert (l = bs) as -> by (eapply bytes_at_inj; [lia|done|apply buf_bytes]). rw Hmem. apply HQ.
  - exfalso. destruct Hwhy as [Hn|Hn]; simpl in Hn.
    + destruct (Hk i Hi) as [b Hb]. congruence.
    + destruct (Hm i Hi) as [b Hb]. congruence.
Qed.

(** ** Copying in *)

Lemma mem_buf_bytes m l : bytes_at m KBUF l → mem_buf m (length l) = l.
Proof.
  rw bytes_at_lookup. intros Hl. apply list_eq. intros i. rw /mem_buf list_lookup_fmap.
  destruct (l !! i) as [b|] eqn:Hi.
  - rw lookup_seq_lt /=; [|by eapply lookup_lt_Some]. by rw (Hl _ _ Hi).
  - rw lookup_seq_ge; [done|by apply lookup_ge_None]. 
Qed.

Lemma upd_umem_same s : upd_umem (λ _, umem s) s = s.
Proof. by destruct s as [? ? ? [] ?]. Qed.

Lemma wp_copyin bs old user (Q : Z * list Z → state → Prop) s :
  bs ≠ [] → length old = length bs → is_addr user → user + Z.of_nat (length bs) ≤ USERSPACETOP →
  bytes_at (umem s) user bs → Q (0, bs) s →
  wp (run_copy old (copyin user KBUF (Z.of_nat (length bs)))) Q s.
Proof.
  intros Hbs Hold Hu Htop Hat HQ. set (m := CopyInOut.State (umem s) (buf_mem old) false).
  assert (0 < Z.of_nat (length bs)) as Hpos by by destruct bs; [|simpl; lia].
  assert (is_addr (Z.of_nat (length bs))) as Hl by by rw /is_addr /USERSPACETOP in Hu Htop |- *; lia.
  pose proof (bytes_at_length_mapped _ _ _ (buf_bytes old)) as Hk. rw Hold in Hk.
  pose proof (bytes_at_length_mapped _ _ _ Hat) as Hm.
  assert (wp (copyin user KBUF (Z.of_nat (length bs))) (block_copy m Kernel User KBUF user user (Z.of_nat (length bs))) m) as Hwp.
  { apply (guarded_copy_spec m Kernel User); [done..|]. intros _. split; [split; [apply Hu|done]|done]. }
  rw /wp /run_copy. rw /wp in Hwp. change (CopyInOut.State _ _ _) with m. destruct (copyin _ _ _ m) as [r m'|]; [|done].
  destruct Hwp as [(-> & _ & _ & l & Hlen & Hl' & _ & Humem & Hmem)|(_ & [Hwhy|[Hwhy|(i & Hi & Hwhy)]] & _)]; [|lia|lia|].
  - simpl in Hmem, Hl', Humem. assert (l = bs) as -> by (eapply bytes_at_inj; [lia|done|done]).
    rw Humem Hmem Hold upd_umem_same mem_buf_bytes; [done|apply write_bytes_at].
  - exfalso. destruct Hwhy as [Hn|Hn]; simpl in Hn.
    + destruct (Hm i Hi) as [b Hb]. congruence.
    + destruct (Hk i Hi) as [b Hb]. congruence.
Qed.
