(* ===== verification/CallThms.v ===== *)
(** * Theorems on the system calls *)

From stdpp Require Import base tactics list gmap option numbers strings ssreflect.
From S2P Require Import Prelude Kern CopyInOut Os OsFacts Kprintf Vfs MemFs FileTable FileFacts ProcTable ProcFacts Boot.
From S2P Require Import FileCalls ProcCalls CallFacts.

Open Scope Z_scope.

(** Following the [switch] on a known call number. *)
Ltac pick_call :=
  repeat match goal with
  | |- context [bool_decide (?n = ?k)] =>
      lazymatch type of n with Z => let b := eval vm_compute in (bool_decide (n = k)) in
        lazymatch b with true => idtac | false => idtac end; change (bool_decide (n = k)) with b end
  end; cbn beta iota.

(** ** lseek *)

(** The position asked for. *)
Definition seek_to (old eof pos whence : Z) : option Z :=
  if bool_decide (whence = 0) then Some pos
  else if bool_decide (whence = 1) then Some (old + pos)
  else if bool_decide (whence = 2) then Some (eof + pos)
  else None.

Section lseek.
Context `{!FileSystem}.

(** The state after the file has been looked at. *)
Lemma wp_lseek_end lk (r : Z * option Z) u b o e1 o1 e2 o2 (Q : Z * option Z → state → Prop) s `{!Outside u} :
  lock_free lk s → lk ≠ Some b → b ∉ live (sys s) →
  Q r (u (freed b (stepped e2 o2 (grabbed b o (stepped e1 o1 s))))) →
  wp (lock_release lk;; mret r) Q (u (freed b (stepped e2 o2 (grabbed b o (stepped e1 o1 (acquired lk s)))))).
Proof.
  intros Hf Hne Hb HQ. wp_step. apply wp_lock_release.
  - apply outside_holds; [done|]. apply holds_freed; [|done]. apply outside_holds; [apply _|]. apply holds_grabbed.
    apply outside_holds; [apply _|]. by apply acquired_holds.
  - apply wp_ret. rw (outside_released u) released_freed (outside_released (stepped _ _)) released_grabbed
      (outside_released (stepped _ _)) released_acquired //.
Qed.
#[local] Instance outside_id : Outside id.
Proof. done. Qed.

Lemma outside_sys u s `{!Outside u} : sys (u s) = sys s.
Proof. exact (outside_base u s). Qed.

(** What looking leaves as it was. *)
Lemma looked_at u b o e1 o1 e2 o2 s `{!Outside u} :
  b ∉ live (sys s) → (∀ s, files (u s) = files s) → (∀ s, ext (u s) = ext s) →
  let s' := u (freed b (stepped e2 o2 (grabbed b o (stepped e1 o1 s)))) in
  live (sys s') = live (sys s) ∧ files s' = files s ∧ ext s' = e2 ∧
  ∀ q, lock_free q s → q ≠ Some b → lock_free q s'.
Proof.
  intros Hb Hf He s'. rw /s' Hf He. split; [|split; [done|split; [done|]]].
  - rw (outside_sys u) /freed /grabbed. os_simpl. simpl. set_solver.
  - intros q Hq Hne. apply outside_lock_free; [done|]. apply lock_free_freed; [|done].
    apply outside_lock_free; [apply _|]. by apply lock_free_grabbed.
Qed.

Lemma s64_sum a b : 0 ≤ a < 2 ^ 63 → - 2 ^ 63 ≤ b < 2 ^ 63 →
  if decide (0 ≤ a + b < 2 ^ 63) then s64 (a + b) = a + b else s64 (a + b) < 0.
Proof. intros. rw /s64. destruct (decide _); zlia. Qed.

(** The 64-bit computation, compared with [seek_to]. *)
Lemma seek_agrees old eof pos whence :
  0 ≤ old < 2 ^ 63 → 0 ≤ eof < 2 ^ 63 → - 2 ^ 63 ≤ pos < 2 ^ 63 →
  let new_pos := if bool_decide (whence = 0) then Some pos
    else if bool_decide (whence = 1) then Some (s64 (old + pos))
    else if bool_decide (whence = 2) then Some (s64 (eof + pos)) else None in
  match seek_to old eof pos whence with
  | Some n => if decide (0 ≤ n < 2 ^ 63) then new_pos = Some n else ∃ m, new_pos = Some m ∧ m < 0
  | None => new_pos = None
  end.
Proof.
  intros Ho He Hp. rw /seek_to. simpl.
  pose proof (s64_sum old pos Ho Hp) as Hs1. pose proof (s64_sum eof pos He Hp) as Hs2.
  case_bool_decide; [|case_bool_decide; [|case_bool_decide; [|done]]].
  - destruct (decide (0 ≤ pos < 2 ^ 63)); [done|]. exists pos. split; [done|lia].
  - revert Hs1. destruct (decide (0 ≤ old + pos < 2 ^ 63)); [by intros ->|by eexists].
  - revert Hs2. destruct (decide (0 ≤ eof + pos < 2 ^ 63)); [by intros ->|by eexists].
Qed.

(** [lseek] computes positions exactly.  On an open, seekable file whose
    position and size are file offsets, the new position is the one asked for,
    returned and stored, when it is at least 0 and below 2^63; otherwise (also
    when the 64-bit addition wraps around), and for any other [whence], the
    call fails with [EINVAL] and the position stays.  The block for the file's
    status is given back, the files are unchanged and the locks are free. *)
Lemma lseek_spec s p x t xs fd l f v old pos whence eof e1 e2 b :
  running s p x → table s (p_filetable_of x) t xs → ops_lock x ≠ proc_ft_lock t →
  0 ≤ fd < Z.of_nat OPEN_MAX → first_fd (files s) xs fd = Some l → open_on s (Some l) f v old →
  isseekable_fn v (ext s) = (true, e1) → stat_fn v e1 = (inr eof, e2) → next_block s = Some b →
  0 ≤ old < 2 ^ 63 → 0 ≤ eof < 2 ^ 63 → - 2 ^ 63 ≤ pos < 2 ^ 63 →
  wp (lseek fd pos whence) (λ r s',
    live (sys s') = live (sys s) ∧ files s' = files s ∧ ext s' = e2 ∧ lock_free (file_lock f) s' ∧ lock_free (ops_lock x) s' ∧
    match seek_to old eof pos whence with
    | Some n =>
        if decide (0 ≤ n < 2 ^ 63) then r = (0, Some n) ∧ obj offs (seek_pos f) n s'
        else r = (- EINVAL, None) ∧ offs s' = offs s
    | None => r = (- EINVAL, None) ∧ offs s' = offs s
    end) s.
Proof.
  intros Hrun Ht Hne Hfd Hl [Hf Hlk Hsk Hv Hcnt Hstd] He1 He2 Hb Hold Heof Hpos. rw /lseek bool_decide_eq_false_2; [|lia].
  wp_step. eapply wp_cur_proc; [done|]. eapply wp_lookup_locked; [done|done|done|]. rw Hl. wp_step. eapply wp_get; [done|].
  wp_step. apply wp_lock_acquire; [done|]. rw bool_decide_eq_false_2; [|by rw Hstd; intros []]. rw Hv. wp_step.
  eapply wp_vop_ext; [by rw field_acquired|by rw field_acquired|]. intros o1. simpl. wp_step. apply wp_kmalloc_next.
  assert (next_block (stepped e1 o1 (acquired (file_lock f) s)) = Some b) as ->.
  { trans (next_block (acquired (file_lock f) s)); [done|by rw next_block_acquired]. }
  rw outside_base acquired_live. intros Hlive o. wp_step. wp_step; [done|]. wp_step.
  eapply wp_vop_ext; [|done|].
  { change (∃ n, vns (acquired (file_lock f) s) !! v = Some n ∧ 0 < n). by rw field_acquired. }
  intros o2. wp_step. apply wp_kfree; [rw outside_base; os_simpl; simpl; set_solver|]. wp_step.
  assert (file_lock f ≠ Some b ∧ ops_lock x ≠ Some b) as [Hlkb Hopb].
  { split; eapply lock_free_live; [done|done|by apply Hrun|done]. }
  assert (seek_pos f ≠ Some b) as Hskb by by intros E; rw E in Hsk; apply obj_live in Hsk.
  match goal with |- wp _ _ ?s1 => set (s2 := s1); assert (obj offs (seek_pos f) old s2) as Hoff end.
  { apply (obj_freed offs); [|done]. apply (obj_acquired _ _ _ (file_lock f)) in Hsk. destruct Hsk as (k & -> & Hk & Hx).
    exists k. split; [done|]. split; [|done]. rw /s2. os_simpl. simpl. set_solver. }
  eapply wp_get; [exact Hoff|].
  pose proof (seek_agrees old eof pos whence Hold Heof Hpos) as Hagree. cbv zeta in Hagree.
  destruct (seek_to old eof pos whence) as [n|]; [destruct (decide (0 ≤ n < 2 ^ 63)) as [Hn|Hn]; [|destruct Hagree as (m & Hagree & Hm)]|];
    rw Hagree.
  - rw bool_decide_eq_false_2; [|lia]. wp_step. eapply wp_put; [exact Hoff|]. intros k Hk.
    apply (wp_lseek_end _ _ (upd_offs <[k := n]>)); [done..|].
    destruct (looked_at (upd_offs <[k := n]>) b o e1 o1 e2 o2 s Hlive) as (L1 & L2 & L3 & L4); [done..|].
    split; [done|]. split; [done|]. split; [done|]. split; [by apply L4|]. split; [by apply L4; [apply Hrun|]|].
    split; [done|]. exists k. split; [done|]. split; [|os_simpl; by rw lookup_insert_eq].
    rw L1. rw Hk in Hsk. by apply obj_live in Hsk.
  - rw bool_decide_eq_true_2; [|lia]. apply (wp_lseek_end _ _ id); [done..|].
    destruct (looked_at id b o e1 o1 e2 o2 s Hlive) as (L1 & L2 & L3 & L4); [done..|].
    split; [done|]. split; [done|]. split; [done|]. split; [by apply L4|]. split; [by apply L4; [apply Hrun|]|done].
  - apply (wp_lseek_end _ _ id); [done..|].
    destruct (looked_at id b o e1 o1 e2 o2 s Hlive) as (L1 & L2 & L3 & L4); [done..|].
    split; [done|]. split; [done|]. split; [done|]. split; [by apply L4|]. split; [by apply L4; [apply Hrun|]|done].
Qed.

(** The halves of a 64-bit result. *)
Lemma split_join n : 0 ≤ n < 2 ^ 64 →
  let '(hi, lo) := split64to32 n in 0 ≤ hi < 2 ^ 32 ∧ 0 ≤ lo < 2 ^ 32 ∧ join32to64 hi lo = n.
Proof.
  intros Hn. rw /split64to32 /join32to64. change 4294967295 with (Z.ones 32).
  split; [rw Z.shiftr_div_pow2; [zlia|lia]|]. split; [rw Z.land_ones; [zlia|lia]|].
  by rw -Z.ldiff_ones_r // Z.lor_ldiff_and.
Qed.

(** How the outcome of [lseek] reaches the registers. *)
Lemma seek_return (r : Z * option Z) (tf : trapframe) (R : state → Prop) (F : Z → state → Prop) (E : state → Prop) s' :
  R s' → (match r.2 with Some n => r.1 = 0 ∧ 0 ≤ n < 2 ^ 63 ∧ F n s' | None => r.1 = - EINVAL ∧ E s' end) →
  wp (if bool_decide (r.1 < 0) then mret (s32 (- r.1), -1, tf_v1 tf)
      else let '(v0, v1) := split64to32 (u64 (default 0 r.2)) in mret (0, s32 v0, v1))
    (λ a s'', wp (let '(err, retval, v1) := a in
        mret (if bool_decide (err ≠ 0) then set_ret (u32 err) v1 1 (u32 (tf_epc tf + 4)) tf
              else set_ret (u32 retval) v1 0 (u32 (tf_epc tf + 4)) tf))
      (λ tf' s, R s ∧ tf_epc tf' = u32 (tf_epc tf + 4) ∧
        match r.2 with
        | Some n => tf_a3 tf' = 0 ∧ join32to64 (tf_v0 tf') (tf_v1 tf') = n ∧ F n s
        | None => tf_a3 tf' = 1 ∧ tf_v0 tf' = EINVAL ∧ E s
        end) s'') s'.
Proof.
  intros HR Hr. destruct r as [z [n|]]; simpl in *.
  - destruct Hr as (-> & Hn & HF). rw bool_decide_eq_false_2; [|lia]. rw (u64_small n); [|lia].
    destruct (split_join n) as (H0 & H1 & Hj); [lia|]. wp_step. wp_step. rw bool_decide_eq_false_2; [|by intros []].
    split; [done|]. split; [done|]. split; [done|]. split; [|done]. simpl. by rw u32_s32 u32_small.
  - destruct Hr as (-> & HE). rw bool_decide_eq_true_2; [|done]. by do 2 wp_step.
Qed.

(** C18: [lseek] as a program calls it computes positions exactly. The 64-bit
    position comes in two registers, [whence] from the stack, which is mapped,
    and the result leaves in two registers. On an open, seekable file whose
    position and size are file offsets, with memory for the status block and no
    lock taken, the new position is the one asked for, returned and stored, when
    it is at least 0 and below 2^63; otherwise (also when the 64-bit addition
    wraps around), and for any other [whence], the call fails with [EINVAL] and
    the position stays. The program counter is moved past the call; the block
    for the file's status is given back, the files are unchanged and the locks
    are free. *)
Theorem syscall_lseek_exact reboot execv now tf s p x t xs l f v old whence eof e1 e2 b :
  let fd := s32 (tf_a0 tf) in
  let pos := s64 (join32to64 (tf_a2 tf) (tf_a3 tf)) in
  s32 (tf_v0 tf) = SYS_lseek → is_addr (tf_sp tf) → tf_sp tf + 20 ≤ USERSPACETOP →
  - 2 ^ 31 ≤ whence < 2 ^ 31 → bytes_at (umem s) (tf_sp tf + 16) (int_bytes whence) →
  running s p x → table s (p_filetable_of x) t xs → ops_lock x ≠ proc_ft_lock t →
  0 ≤ fd < Z.of_nat OPEN_MAX → first_fd (files s) xs fd = Some l → open_on s (Some l) f v old →
  isseekable_fn v (ext s) = (true, e1) → stat_fn v e1 = (inr eof, e2) → next_block s = Some b →
  0 ≤ old < 2 ^ 63 → 0 ≤ eof < 2 ^ 63 →
  wp (syscall reboot execv now tf) (λ tf' s',
    live (sys s') = live (sys s) ∧ files s' = files s ∧ lock_free (file_lock f) s' ∧ lock_free (ops_lock x) s' ∧
    tf_epc tf' = u32 (tf_epc tf + 4) ∧
    match seek_to old eof pos whence with
    | Some n =>
        if decide (0 ≤ n < 2 ^ 63) then
          tf_a3 tf' = 0 ∧ join32to64 (tf_v0 tf') (tf_v1 tf') = n ∧ obj offs (seek_pos f) n s'
        else tf_a3 tf' = 1 ∧ tf_v0 tf' = EINVAL ∧ offs s' = offs s
    | None => tf_a3 tf' = 1 ∧ tf_v0 tf' = EINVAL ∧ offs s' = offs s
    end) s.
Proof.
  intros fd pos Hno Hsp Hsp4 Hw Hat Hrun Ht Hne Hfd Hl Hopen He1 He2 Hb Hold Heof.
  assert (u32 (tf_sp tf + 16) = tf_sp tf + 16) as Hu by (apply u32_small; rw /is_addr /USERSPACETOP in Hsp Hsp4; lia).
  rw /syscall. wp_step. rw /dispatch Hno. pick_call. wp_step. rw Hu.
  eapply (wp_copyin (int_bytes whence)); [done|done|rw -Hu; apply u32_range|simpl; lia|done|]. cbn [fst snd].
  rw bytes_int_bytes (s32_small whence) //. pick_call. wp_step.
  eapply wp_mono; [eapply lseek_spec; try done; apply s64_range|].
  intros r s' (H1 & H2 & _ & H3 & H4 & Hr). fold pos in Hr.
  eapply wp_mono; [apply (seek_return r tf (λ s', live (sys s') = live (sys s) ∧ files s' = files s ∧
    lock_free (file_lock f) s' ∧ lock_free (ops_lock x) s') (λ n s', obj offs (seek_pos f) n s') (λ s', offs s' = offs s));
    [done|]|].
  - destruct (seek_to old eof pos whence) as [n|]; [|by destruct Hr as [-> ?]].
    revert Hr. by destruct (decide (0 ≤ n < 2 ^ 63)) as [Hn|]; intros [-> Hr].
  - intros a s1 Hwp. eapply wp_mono; [exact Hwp|]. cbn beta. intros tf' s'' ((H5 & H6 & H7 & H8) & H9 & Ha).
    split_and!; try done. destruct (seek_to old eof pos whence) as [n|]; [|by destruct Hr as [-> ?]].
    revert Hr. by destruct (decide (0 ≤ n < 2 ^ 63)) as [Hn|]; intros [-> Hr].
Qed.
End lseek.

(** ** The registers *)

(** What holds when a computation returns. *)
Definition returns {A} (m : M state A) (Q : A → state → Prop) (s : state) : Prop :=
  match m s with Ok a s' => Q a s' | Stop _ _ => True end.

Lemma returns_bind {A B} (m : M state A) (k : A → M state B) Q s :
  returns m (λ a s', returns (k a) Q s') s → returns (m ≫= k) Q s.
Proof. rw /returns /mbind /M_bind. by destruct (m s). Qed.

(** Whatever the first statement does. *)
Lemma returns_any {A B} (m : M state A) (k : A → M state B) Q s :
  (∀ a s', returns (k a) Q s') → returns (m ≫= k) Q s.
Proof. intros Hk. apply returns_bind. rw /returns. destruct (m s) as [a s'|]; [|done]. apply Hk. Qed.

Definition regs32 (tf : trapframe) : Prop :=
  Forall is_addr [tf_v0 tf; tf_v1 tf; tf_a0 tf; tf_a1 tf; tf_a2 tf; tf_a3 tf; tf_sp tf; tf_epc tf].

Definition call_numbers : list Z :=
  [SYS_fork; SYS_execv; SYS__exit; SYS_waitpid; SYS_getpid; SYS_open; SYS_dup2; SYS_close; SYS_read; SYS_write; SYS_lseek;
   SYS_remove; SYS_chdir; SYS___getcwd; SYS___time; SYS_reboot].

Section registers.
Context `{!FileSystem}.

Lemma dispatch_v1 reboot execv now tf s :
  regs32 tf → returns (dispatch reboot execv now tf) (λ r _, is_addr r.2) s.
Proof.
  intros Hr. assert (is_addr (tf_v1 tf)) as Hv1 by by apply (Forall_lookup_1 _ _ 1%nat _ Hr).
  rw /dispatch. cbv zeta.
  repeat case_bool_decide; try done; try (by apply returns_any).
  - do 3 (apply returns_any; intros). done.
  - apply returns_any. intros w s1. case_bool_decide; [done|]. apply returns_any. intros r s2. case_bool_decide; [done|].
    destruct (split_join (u64 (default 0 r.2)) (u64_range _)) as (_ & Hlo & _). done.
  - apply returns_any. intros. by case_bool_decide.
  - apply returns_any. intros. by case_bool_decide.
Qed.

(** What a system call does to the registers.  Any call that returns leaves 32-bit
    values in all of them, 0 or 1 in [a3], moves the program counter past the
    [syscall] instruction and changes no register but [v0], [v1], [a3] and the
    program counter.  A number that is not that of a call returns at once with
    [ENOSYS] and [a3 = 1], and only prints a message. *)
Theorem syscall_registers reboot execv now tf s :
  regs32 tf →
  returns (syscall reboot execv now tf) (λ tf' s',
    regs32 tf' ∧ (tf_a3 tf' = 0 ∨ tf_a3 tf' = 1) ∧ tf_epc tf' = u32 (tf_epc tf + 4) ∧
    tf_a0 tf' = tf_a0 tf ∧ tf_a1 tf' = tf_a1 tf ∧ tf_a2 tf' = tf_a2 tf ∧ tf_sp tf' = tf_sp tf ∧ tf_rest tf' = tf_rest tf) s ∧
  (s32 (tf_v0 tf) ∉ call_numbers →
    syscall reboot execv now tf s = Ok (set_ret ENOSYS (tf_v1 tf) 1 (u32 (tf_epc tf + 4)) tf)
      (upd_console (λ out, out ++ text "Unknown syscall " ++ decimal (s32 (tf_v0 tf)) ++ newline) s)).
Proof.
  intros Hr. split.
  - rw /syscall. apply returns_bind. pose proof (dispatch_v1 reboot execv now tf s Hr) as Hv1. revert Hv1. rw /returns.
    destruct (dispatch _ _ _ _ _) as [[[err retval] v1] s'|]; [|done]. simpl. intros Hv1.
    rw /regs32 !Forall_cons in Hr. destruct Hr as (_ & _ & ? & ? & ? & _ & ? & _ & _).
    pose proof (u32_range err). pose proof (u32_range retval). pose proof (u32_range (tf_epc tf + 4)).
    case_bool_decide; simpl; (split; [by rw /regs32 !Forall_cons|]); split_and!; by auto.
  - intros Hno. rw /syscall /dispatch. cbv zeta. rw /call_numbers !not_elem_of_cons in Hno. destruct_and!.
    by rw !bool_decide_eq_false_2.
Qed.

(** What a program gets from [getpid] is the number of the call, whatever the
    pid is: the dispatcher overwrites [retval]. *)
Lemma syscall_getpid_returns_its_number reboot execv now tf s p x :
  running s p x → s32 (tf_v0 tf) = SYS_getpid →
  wp (syscall reboot execv now tf) (λ tf' s', tf_v0 tf' = SYS_getpid ∧ tf_a3 tf' = 0 ∧ s' = s) s.
Proof.
  intros Hrun Hno. rw /syscall. wp_step. rw /dispatch Hno. pick_call. wp_step. rw /getpid. wp_step.
  eapply wp_cur_proc; [done|]. wp_step. apply wp_lock_acquire; [by apply Hrun|]. wp_step.
  apply wp_lock_release; [by apply acquired_holds, Hrun|]. rw released_acquired; [|by apply Hrun].
  wp_step. rw bool_decide_eq_false_2; [|done]. wp_step. rw bool_decide_eq_false_2; [|by intros []]. by wp_step.
Qed.
End registers.

(** ** Witnesses *)

Lemma shell_running s nm wc :
  threads s !! me (sys s) = Some (Some 153%positive) → bool_decide (153%positive ∈ live (sys s)) = true →
  procs s !! 153%positive = Some shell_proc → bool_decide (164%positive ∈ live (sys s)) = true →
  lks (sys s) !! 164%positive = Some (Lockst nm wc None) → running s (Some 153%positive) shell_proc.
Proof.
  intros H1 H2 H3 H4 H5. split; [done|by apply (obj_intro procs)|].
  assert (ops_lock shell_proc = Some 164%positive) as -> by by vm_compute. by eapply lock_free_intro.
Qed.

Ltac eval_a_open s :=
  split; [by apply (obj_intro files); vm_compute|by apply (lock_free_intro s 173 174 175); vm_compute|
    by apply (obj_intro offs 172); vm_compute|by vm_compute|by eexists; split; vm_compute|by vm_compute].

(** The stack, with [SEEK_END] at [sp + 16]. *)
Definition lseek_call : trapframe := Trapframe SYS_lseek 0 3 0 4294967295 4294967295 8192 4194304 [].
Definition on_stack : state := upd_umem (λ _, write_bytes ∅ 8208 (int_bytes 2)) opened.

Lemma syscall_lseek_exact_witness :
  wp (syscall (λ _, mret 0) (λ _ _, mret 0) ([], []) lseek_call) (λ tf' s',
    tf_a3 tf' = 0 ∧ join32to64 (tf_v0 tf') (tf_v1 tf') = 2 ∧ tf_epc tf' = 4194308) on_stack.
Proof.
  eapply wp_mono.
  - apply (syscall_lseek_exact (λ _, mret 0) (λ _ _, mret 0) ([], []) lseek_call on_stack (Some 153%positive) shell_proc
      a_table a_slots a_at a_file 98 0 2 3 (ext opened) (ext opened) 176).
    + by vm_compute.
    + by vm_compute.
    + by vm_compute.
    + by vm_compute.
    + by vm_compute.
    + by apply (shell_running _ 165 166); vm_compute.
    + eval_a_table on_stack.
    + by vm_compute.
    + by vm_compute.
    + by vm_compute.
    + eval_a_open on_stack.
    + by vm_compute.
    + by vm_compute.
    + by vm_compute.
    + by vm_compute.
    + by vm_compute.
  - intros tf' s' (_ & _ & _ & _ & E & H).
    assert (seek_to 0 3 (s64 (join32to64 (tf_a2 lseek_call) (tf_a3 lseek_call))) 2 = Some 2) as E2 by by vm_compute.
    rewrite E2 in H. destruct (decide (0 ≤ 2 < 2 ^ 63)) as [_|Hn]; [|by destruct Hn]. destruct H as (H1 & H2 & _).
    split; [done|]. split; [done|]. by rewrite E.
Defined.

(** A call without a number. *)
Definition bad_call : trapframe := Trapframe 200 0 3 0 4294967295 4294967295 8192 4194304 [].
Lemma syscall_registers_example :
  syscall (λ _, mret 0) (λ _ _, mret 0) ([], []) bad_call booted =
    Ok (set_ret ENOSYS (tf_v1 bad_call) 1 (u32 (tf_epc bad_call + 4)) bad_call)
      (upd_console (λ out, out ++ text "Unknown syscall " ++ decimal (s32 (tf_v0 bad_call)) ++ newline) booted).
Proof.
  assert (regs32 bad_call) as Hr by (repeat constructor; by vm_compute).
  assert (s32 (tf_v0 bad_call) ∉ call_numbers) as Hn by by_decide.
  destruct (syscall_registers (λ _, mret 0) (λ _ _, mret 0) ([], []) bad_call booted Hr) as [_ H].
  exact (H Hn).
Defined.
