(* ===== verification/ExitThms.v ===== *)
(** * _exit and waitpid together

    The system call by which a process ends, run up to the point where its
    thread leaves the processor, then the parent's thread waking up in
    [waitpid]: the composition of ProcTable.v, CopyInOut.v and ProcCalls.v. *)

From stdpp Require Import base tactics list gmap option numbers ssreflect.
From S2P Require Import Prelude Kern CopyInOut Os OsFacts Vfs MemFs FileTable FileFacts ProcTable ProcFacts Boot.
From S2P Require Import FileCalls ProcCalls CallFacts ProcThms.

Open Scope Z_scope.

(** ** The child's part *)

Section exit.
Context `{!FileSystem}.

Lemma ptable_acquired pt t ps cs q s : ptable s pt t ps cs → q ≠ proctable_lk t → ptable (acquired q s) pt t ps cs.
Proof.
  intros [] Hne. split; [|by apply obj_acquired|by apply obj_acquired|by apply obj_acquired|done|done| | | |done|done].
  - by rw (field_acquired (λ s, glb s)).
  - by apply lock_free_acquired.
  - by apply all_objs_acquired.
  - by apply all_objs_acquired.
Qed.

Lemma live_acquired q s : live (sys (acquired q s)) = live (sys s).
Proof. exact (acquired_live q s). Qed.
Lemma fresh_acquired q l s : l ∉ live (sys s) → l ∉ live (sys (acquired q s)).
Proof. by rw live_acquired. Qed.
Lemma procs_posted s t cs l o c i : procs (posted s t cs l o c i) = procs s.
Proof. rw /posted /set_slots. by destruct (active_exit_codes t). Qed.
Lemma obj_posted {A} (f : state → gmap loc A) `{!Field f} q x s t cs l o c i :
  (∀ g s, f (upd_arrs g s) = f s) → (∀ g s, f (upd_codes g s) = f s) → obj f q x s → obj f q x (posted s t cs l o c i).
Proof.
  intros H1 H2 Hx. rw /posted. apply obj_set_slots; [done|]. apply (obj_grabbed f _ _ l o) in Hx.
  destruct Hx as (k & -> & Hk & Hx). exists k. rw /code_stored H2. done.
Qed.

Definition of_parent (n : Z) (c : pidxcode) : bool := bool_decide (xc_ppid c = n).

(** A process that has no exited children drops no codes. *)
Lemma rem_no_exit_codes pt t ps cs n (Q : unit → state → Prop) s :
  ptable s pt t ps cs → find_slot (codes s) (of_parent n) cs = None → Q tt s → wp (rem_all_exit_codes n) Q s.
Proof.
  intros Ht Hnone HQ. pose proof (pt_lock _ _ _ _ _ Ht) as Hlk. rw /rem_all_exit_codes /globals_of. wp_step. wp_step.
  rw (pt_glb _ _ _ _ _ Ht). wp_step. eapply wp_get; [apply Ht|]. wp_step. apply wp_lock_acquire; [done|]. wp_step.
  eapply (wp_each_code (of_parent n)); [by apply obj_acquired, Ht|apply Ht|by apply all_objs_acquired, Ht| | |].
  - intros i l c Hc. rw /of_parent in Hc. by rw Hc.
  - intros i l c Hf. rw field_acquired in Hf. by rw Hnone in Hf.
  - intros _. apply wp_lock_release; [by apply acquired_holds|]. by rw released_acquired.
Qed.

(** Giving a lock up after the code has been posted. *)
Lemma released_posted q t cs l o c i s :
  lock_free q s → released q (posted (acquired q s) t cs l o c i) = posted s t cs l o c i.
Proof.
  intros Hq. rw /posted (outside_released (set_slots _ _)) /code_stored (outside_released (upd_codes _)) released_grabbed.
  by rw released_acquired.
Qed.
Lemma holds_posted q t cs l o c i s : holds q s → holds q (posted s t cs l o c i).
Proof.
  intros. rw /posted. apply outside_holds; [apply _|]. rw /code_stored. apply outside_holds; [apply _|].
  by apply holds_grabbed.
Qed.

#[export] Instance procs_set_outside pt t n ps : Outside (procs_set pt t n ps).
Proof. by rw /procs_set /with_table /set_slots; destruct pt, (proc_array t). Qed.

Lemma lock_free_posted q t cs l o c i s : lock_free q s → lock_free q (posted s t cs l o c i).
Proof.
  intros. rw /posted. apply outside_lock_free; [apply _|]. rw /code_stored. apply outside_lock_free; [apply _|].
  by apply lock_free_grabbed.
Qed.

(** What the two processes are, and what is there for the exit code. *)
Record family (s : state) (p : ptr) (x : proc) (q : ptr) (y : proc) (c : cv) (pt : ptr) (t : proctable) (ps cs : list ptr) : Prop := {
  fa_child : running s p x;
  fa_table : ptable s pt t ps cs;
  fa_found : by_pid (procs s) ps (ppid x) = q;
  fa_parent : obj procs q y s;
  fa_lock : lock_free (ops_lock y) s;
  fa_cv : obj cvs (waitpid_cv y) c s;
  fa_locks : NoDup [ops_lock x; ops_lock y; proctable_lk t];
  fa_childless : find_slot (codes s) (of_parent (pid x)) cs = None
}.

(** The first thread asleep on a channel has woken up. *)
Definition woken (wc : loc) (s : state) : state := upd_sleepers (alter tail wc) s.

#[export] Instance woken_outside wc : Outside (woken wc).
Proof. done. Qed.
Lemma woken_posted wc s t cs l o c i : woken wc (posted s t cs l o c i) = posted (woken wc s) t cs l o c i.
Proof. rw /posted /set_slots. by destruct (active_exit_codes t). Qed.
Lemma woken_acquired wc p s : woken wc (acquired p s) = acquired p (woken wc s).
Proof. rw /acquired. destruct p as [l|]; [|done]. change (lks (base_of (woken wc s))) with (lks (base_of s)). by destruct (lks (base_of s) !! l). Qed.
Lemma family_woken wc s p x q y c pt t ps cs : family s p x q y c pt t ps cs → family (woken wc s) p x q y c pt t ps cs.
Proof. intros []. split; try done; [by destruct fa_child0; split | by destruct fa_table0; split]. Qed.

Lemma wp_cv_signal cv lk c (Q : unit → state → Prop) s :
  obj cvs cv c s → holds lk s → Q tt (woken (cv_wchan c) s) → wp (cv_signal cv lk) Q s.
Proof.
  intros Hc (l & k & -> & Hl & Hk & Hn) HQ. rw /cv_signal. wp_step. apply (wp_Ok _ true s s).
  - rw /lock_do_i_hold /lock_at /mbind /M_bind. rw (proj2 (is_live_true l s) Hl) Hk /= Hn. by rw bool_decide_eq_true_2.
  - wp_step. wp_step; [done|]. wp_step. eapply wp_get; [done|]. by apply wp_modify.
Qed.

Lemma exit_proc_spec s p x q y c pt t ps cs code l i j (Q : unit → state → Prop) :
  family s p x q y c pt t ps cs → next_block s = Some l → free_slot cs = Some j →
  last_slot (procs s) (with_pid (pid x)) ps = Some i →
  (l ∉ live (sys s) → ∀ o, Q tt (procs_set pt t (s32 (num_of_procs t - 1)) (<[i := None]> ps)
    (posted (woken (cv_wchan c) s) t cs l o (Pidxcode (ppid x) (pid x) (MKWAIT_EXIT code)) j))) →
  wp (exit_proc code) Q s.
Proof.
  intros [Hrun Ht Hq Hy Hly Hc Hnd Hno] Hl Hj Hi HQ.
  apply NoDup_cons in Hnd as [Hx Hnd]. apply NoDup_cons in Hnd as [Hy' _]. set (ox := ops_lock x) in *. set (oy := ops_lock y) in *.
  assert (ox ≠ oy ∧ ox ≠ proctable_lk t ∧ oy ≠ proctable_lk t) as (H1 & H2 & H3) by (repeat split; set_solver).
  pose proof (run_lock _ _ _ Hrun) as Hlx. fold ox in Hlx. rw /exit_proc. wp_step. eapply wp_cur_proc; [done|]. wp_step.
  apply wp_lock_acquire; [done|]. set (s1 := acquired ox s).
  assert (ptable s1 pt t ps cs) as Ht1 by by apply ptable_acquired.
  assert (lock_free oy s1) as Hly1 by by apply lock_free_acquired.
  wp_step. eapply get_reference_spec; [done|]. rw field_acquired Hq. wp_step.
  eapply rem_no_exit_codes; [done|by rw field_acquired|]. wp_step. assert (Hq' := Hy). destruct Hq' as (ql & -> & _).
  wp_step. eapply wp_get; [by apply obj_acquired|]. wp_step. apply wp_lock_acquire; [done|].
  set (s2 := acquired oy s1). assert (ptable s2 pt t ps cs) as Ht2 by by apply ptable_acquired.
  wp_step. eapply post_exit_code_spec; [done|]. rw /s2 /s1 !next_block_acquired Hl. intros Hlive o. rw Hj.
  rw !live_acquired in Hlive. set (ec := Pidxcode (ppid x) (pid x) (MKWAIT_EXIT code)).
  change (set_slots _ _ _) with (posted (acquired oy s1) t cs l o ec j).
  wp_step. apply wp_lock_release; [apply holds_posted; by apply acquired_holds|]. rw released_posted //.
  apply free_slot_Some in Hj as [Hj _]. eapply (wp_cv_signal _ _ c).
  { by apply (obj_posted cvs), obj_acquired. }
  { apply holds_posted. by apply acquired_holds. }
  rw woken_posted /s1 woken_acquired. set (sw := woken (cv_wchan c) s) in *.
  assert (l ∉ live (sys (acquired ox sw))) as Hl1 by by apply fresh_acquired.
  assert (ptable (acquired ox sw) pt t ps cs) as Htw by (apply ptable_acquired; [destruct Ht; by split | done]).
  wp_step. eapply remove_proc_spec; [by apply ptable_posted|].
  rw procs_posted field_acquired Hi.
  apply wp_lock_release.
  - apply outside_holds; [apply _|]. apply holds_posted. by apply acquired_holds.
  - rw outside_released released_posted //. by apply HQ.
Qed.

(** ** The parent's part *)

(** Another thread runs. *)
Definition switch_to (t : loc) (s : state) : state := upd_base (λ b, Base (live b) (oracle b) (lks b) t) s.

Lemma obj_switch {A} (f : state → gmap loc A) `{!Field f} q x t s : obj f q x s → obj f q x (switch_to t s).
Proof. intros (k & -> & Hk & Hx). exists k. by rw /switch_to field_upd_base. Qed.

Lemma all_objs_switch {A} (f : state → gmap loc A) `{!Field f} xs t s : all_objs f xs s → all_objs f xs (switch_to t s).
Proof. intros Hall i l Hi. destruct (Hall _ _ Hi) as [x Hx]. exists x. by apply obj_switch. Qed.

Lemma ptable_switch s pt t ps cs tp : ptable s pt t ps cs → ptable (switch_to tp s) pt t ps cs.
Proof. intros []. split; try done; first [by apply obj_switch|by apply all_objs_switch]. Qed.

(** A posted code is taken. *)
Lemma ptable_taken_out s pt t ps cs l j :
  ptable s pt t ps (<[j := Some l]> cs) → cs !! j = Some None →
  (∀ i, cs !! i ≠ Some (Some l)) → (∀ i, ps !! i ≠ Some (Some l)) →
  ptable (set_slots (active_exit_codes t) cs (freed l s)) pt t ps cs.
Proof.
  intros Ht Hj Hc Hp. assert (j < length cs)%nat as Hlt by by eapply lookup_lt_Some.
  assert (∀ i k, cs !! i = Some (Some k) → <[j := Some l]> cs !! i = Some (Some k)) as Hold.
  { intros i k Hi. rw list_lookup_insert_ne; [done|]. intros ->. by rw Hj in Hi. }
  rw freed_set_slots. destruct (pt_sep _ _ _ _ _ Ht j l) as (?&?&?&?); [by rw list_lookup_insert_eq|].
  apply ptable_freed; [|done..]. eapply ptable_set_codes; [done| | |].
  - pose proof (pt_clen _ _ _ _ _ Ht) as Hlen. by rw length_insert in Hlen.
  - intros i k Hi. eapply (pt_cobjs _ _ _ _ _ Ht). by apply Hold.
  - intros i k Hi. eapply (pt_sep _ _ _ _ _ Ht). by apply Hold.
Qed.

(** Where [waitpid] writes the status, unless the pointer is NULL. *)
Definition status_out (status code : Z) (s : state) : state :=
  if bool_decide (status = 0) then s else upd_umem (λ _, write_bytes (umem s) status (int_bytes code)) s.

Lemma umem_freed_slots a xs l s : umem (set_slots a xs (freed l s)) = umem s.
Proof. by destruct a. Qed.

(** The parent wakes up and finds the code of the child [n] posted. *)
Lemma waitpid_resume_spec s q y pt t ps cs n l j c status (Q : Z * Z → state → Prop) :
  running s q y → ptable s pt t ps (<[j := Some l]> cs) → ops_lock y ≠ proctable_lk t → Some l ≠ ops_lock y →
  find_slot (codes s) (of_pid n) (<[j := Some l]> cs) = Some (j, Some l) →
  find_slot (codes s) (of_pair (pid y) n) (<[j := Some l]> cs) = Some (j, Some l) →
  codes s !! l = Some c → cs !! j = Some None →
  is_addr status → status + 4 ≤ USERSPACETOP → (status ≠ 0 → CopyInOut.mapped (umem s) status 4) →
  Q (0, n) (status_out status (exit_code c) (set_slots (active_exit_codes t) cs (freed l s))) →
  wp (waitpid_resume n status) Q s.
Proof.
  intros Hrun Ht Hne Hl Hpid Hpair Hc Hj Hs Hs4 Hm HQ. rw /waitpid_resume. wp_step. eapply wp_cur_proc; [done|].
  wp_step. apply wp_lock_acquire; [by apply Hrun|]. set (s1 := acquired (ops_lock y) s).
  assert (ptable s1 pt t ps (<[j := Some l]> cs)) as Ht1 by by apply ptable_acquired.
  rw /waitpid_wait /globals_of. wp_step. wp_step. rw (pt_glb _ _ _ _ _ Ht1). wp_step.
  eapply is_proc_exited_spec; [done|]. rw field_acquired Hpid bool_decide_eq_true_2; [|by eexists].
  rw /waitpid_finish /globals_of. wp_step. wp_step. rw (pt_glb _ _ _ _ _ Ht1). wp_step.
  eapply get_exit_code_spec; [done|]. rw field_acquired Hpair. rw Hc. intros c' [= <-].
  rw list_insert_insert_eq (list_insert_id _ _ _ Hj). wp_step. set (s2 := set_slots _ _ _).
  assert (released (ops_lock y) s2 = set_slots (active_exit_codes t) cs (freed l s)) as Hrel.
  { rw /s2 outside_released released_freed released_acquired //. apply Hrun. }
  assert (holds (ops_lock y) s2) as Hh.
  { apply outside_holds; [apply _|]. apply holds_freed; [by apply acquired_holds, Hrun|done]. }
  rw /status_out in HQ. revert HQ. bd_case (status = 0) as Hz; intros HQ.
  - wp_step. wp_step. apply wp_lock_release; [done|]. apply wp_ret. by rw Hrel.
  - wp_step. apply (wp_copyout (int_bytes (exit_code c))); [done|done|done| |].
    { rw umem_freed_slots field_acquired. by apply Hm. }
    intros k. do 2 wp_step. apply wp_lock_release; [by apply outside_holds; [apply _|]|].
    apply wp_ret. rw (outside_released (upd_umem _)) Hrel. rw !umem_freed_slots in HQ |- *. by rw field_acquired.
Qed.

Lemma live_procs_set pt t n ps s : live (sys (procs_set pt t n ps s)) = live (sys s).
Proof. rw /procs_set /with_table /set_slots. by destruct pt, (proc_array t). Qed.
Lemma codes_procs_set pt t n ps s : codes (procs_set pt t n ps s) = codes s.
Proof. rw /procs_set /with_table /set_slots. by destruct pt, (proc_array t). Qed.
Lemma threads_procs_set pt t n ps s : threads (procs_set pt t n ps s) = threads s.
Proof. rw /procs_set /with_table /set_slots. by destruct pt, (proc_array t). Qed.
Lemma umem_procs_set pt t n ps s : umem (procs_set pt t n ps s) = umem s.
Proof. rw /procs_set /with_table /set_slots. by destruct pt, (proc_array t). Qed.
Lemma codes_posted s t cs l o c i : codes (posted s t cs l o c i) = <[l := c]> (codes s).
Proof. rw /posted codes_set_slots /code_stored. done. Qed.
Lemma threads_posted s t cs l o c i : threads (posted s t cs l o c i) = threads s.
Proof. rw /posted /set_slots. by destruct (active_exit_codes t). Qed.
Lemma umem_posted s t cs l o c i : umem (posted s t cs l o c i) = umem s.
Proof. rw /posted /set_slots. by destruct (active_exit_codes t). Qed.

Lemma by_pid_found m ps n l x : by_pid m ps n = Some l → m !! l = Some x → pid x = n.
Proof.
  rw /by_pid. destruct (last_slot m (with_pid n) ps) as [i|] eqn:Hi; [|done]. simpl.
  apply last_slot_hits in Hi as (p & Hp & Hh). rw Hp /=. intros -> Hx. rw (hits_at _ _ _ _ Hx) in Hh.
  by rw /with_pid bool_decide_eq_true in Hh.
Qed.

(** The state the child leaves, with the parent's thread running. *)
Lemma exited_running s p x q y cc pt t ps cs l o c j n ps' tp :
  family s p x q y cc pt t ps cs → threads s !! tp = Some q →
  running (switch_to tp (procs_set pt t n ps' (posted s t cs l o c j))) q y.
Proof.
  intros Hfa Htp. split.
  - change (threads (procs_set pt t n ps' (posted s t cs l o c j)) !! tp = Some q). by rw threads_procs_set threads_posted.
  - apply (obj_switch procs). apply obj_procs_set. apply (obj_posted procs); [done|done|]. apply Hfa.
  - change (lock_free (ops_lock y) (procs_set pt t n ps' (posted s t cs l o c j))).
    apply outside_lock_free; [apply _|]. apply lock_free_posted. apply Hfa.
Qed.


(** Other facts about it. *)
Lemma family_apart s p x q y cc pt t ps cs l :
  family s p x q y cc pt t ps cs → l ∉ live (sys s) →
  ops_lock y ≠ proctable_lk t ∧ Some l ≠ ops_lock x ∧ Some l ≠ ops_lock y.
Proof.
  intros [Hrun _ _ _ Hly _ Hnd _] Hl. apply NoDup_cons in Hnd as [_ Hnd]. apply NoDup_cons in Hnd as [Hy _].
  split; [set_solver|]. split; intros E; symmetry in E; revert E.
  - by eapply lock_free_live; [apply Hrun|].
  - by eapply lock_free_live.
Qed.

Lemma insert_None_fresh (ps : list ptr) i l :
  (∀ k, ps !! k ≠ Some (Some l)) → ∀ k, <[i := None]> ps !! k ≠ Some (Some l).
Proof. intros Hp k [(_ & ? & _)|[_ Hk]]%list_lookup_insert_Some; [done|by eapply Hp]. Qed.

Lemma exited_state s p x q y cc pt t ps cs l o c j i tp :
  family s p x q y cc pt t ps cs → l ∉ live (sys s) → cs !! j = Some None →
  let n := s32 (num_of_procs t - 1) in
  let s2 := switch_to tp (procs_set pt t n (<[i := None]> ps) (posted s t cs l o c j)) in
  ptable s2 pt (set_num_of_procs n t) (<[i := None]> ps) (<[j := Some l]> cs) ∧
  codes s2 = <[l := c]> (codes s) ∧ umem s2 = umem s ∧ live (sys s2) = {[l]} ∪ live (sys s) ∧
  lock_free (ops_lock x) s2 ∧ lock_free (ops_lock y) s2.
Proof.
  intros Hfa Hl Hj n s2. pose proof (fa_table _ _ _ _ _ _ _ _ _ _ Hfa) as Ht.
  assert (∀ q, lock_free q s → lock_free q s2) as Hfree.
  { intros k Hk. change (lock_free k (procs_set pt t n (<[i := None]> ps) (posted s t cs l o c j))).
    apply outside_lock_free; [apply _|]. by apply lock_free_posted. }
  split_and!.
  - apply ptable_switch. eapply ptable_procs_set; [by apply ptable_posted|rw length_insert; by apply Ht|].
    apply all_objs_insert; [|done]. intros k b Hk. destruct (pt_pobjs _ _ _ _ _ Ht _ _ Hk) as [z Hz]. exists z.
    by apply (obj_posted procs).
  - change (codes s2) with (codes (procs_set pt t n (<[i := None]> ps) (posted s t cs l o c j))).
    by rw codes_procs_set codes_posted.
  - change (umem s2) with (umem (procs_set pt t n (<[i := None]> ps) (posted s t cs l o c j))).
    by rw umem_procs_set umem_posted.
  - change (live (sys s2)) with (live (sys (procs_set pt t n (<[i := None]> ps) (posted s t cs l o c j)))).
    rw live_procs_set /posted live_set_slots /code_stored. done.
  - apply Hfree, Hfa.
  - apply Hfree, Hfa.
Qed.

(** After the code has been taken and the status written. *)
Lemma umem_status_out status c s :
  umem (status_out status c s) = if bool_decide (status = 0) then umem s else write_bytes (umem s) status (int_bytes c).
Proof. rw /status_out. by destruct (bool_decide _). Qed.
Lemma live_status_out status c s : live (sys (status_out status c s)) = live (sys s).
Proof. rw /status_out. by destruct (bool_decide _). Qed.
Lemma ptable_status_out status c s pt t ps cs : ptable s pt t ps cs → ptable (status_out status c s) pt t ps cs.
Proof. rw /status_out. destruct (bool_decide _); [done|]. intros []. by split. Qed.
Lemma lock_free_status_out status c q s : lock_free q s → lock_free q (status_out status c s).
Proof. rw /status_out. by destruct (bool_decide _). Qed.
Lemma live_taken_out a xs l s : live (sys (set_slots a xs (freed l s))) = live (sys s) ∖ {[l]}.
Proof. rw live_set_slots. done. Qed.
Lemma lock_free_taken_out a xs l q s : lock_free q s → Some l ≠ q → lock_free q (set_slots a xs (freed l s)).
Proof. intros. apply outside_lock_free; [apply _|]. by apply lock_free_freed. Qed.

Lemma exit_status_value code : - 2 ^ 29 ≤ code < 2 ^ 29 →
  WIFEXITED (s32 (MKWAIT_EXIT code)) = true ∧ WEXITSTATUS (s32 (MKWAIT_EXIT code)) = code.
Proof.
  intros Hc. rw /WIFEXITED /WEXITSTATUS /MKWAIT_EXIT Z.lor_0_r Z.shiftl_mul_pow2; [|lia].
  rw !(s32_small (code * 2 ^ 2)); [|lia..]. rw (Z.land_ones _ 2); [|lia]. rw Z.shiftr_div_pow2; [|lia].
  split; [apply bool_decide_eq_true_2|]; zlia.
Qed.

Lemma sleepers_procs_set pt t n ps s : sleepers (procs_set pt t n ps s) = sleepers s.
Proof. rw /procs_set /with_table /set_slots. by destruct pt, (proc_array t). Qed.
Lemma sleepers_posted s t cs l o c i : sleepers (posted s t cs l o c i) = sleepers s.
Proof. rw /posted /set_slots. by destruct (active_exit_codes t). Qed.
Lemma sleepers_status_out status c a xs l s : sleepers (status_out status c (set_slots a xs (freed l s))) = sleepers s.
Proof. rw /status_out. by destruct (bool_decide _), a. Qed.

Lemma sleepers_woken wc t ts s : sleepers s !! wc = Some (t :: ts) → sleepers (woken wc s) = <[wc := ts]> (sleepers s).
Proof.
  intros Hs. change (alter tail wc (sleepers s) = <[wc := ts]> (sleepers s)). apply map_eq. intros k.
  destruct (decide (k = wc)) as [->|Hne]; [by rw lookup_alter_eq lookup_insert_eq Hs | by rw lookup_alter_ne // lookup_insert_ne].
Qed.

(** A thread that is not asleep runs. *)
Definition run_thread (t : loc) : M state unit :=
  asleep ← gets sleepers;
  kassert (bool_decide (map_Forall (λ _ ts, t ∉ ts) asleep));;
  modify (switch_to t).

(** C5: the exit status reaches the parent.  A process calls [_exit] while the
    thread [tp] of its parent is asleep in [waitpid], first in line on the
    parent's condition variable; it has no exited children of its own, its code
    has not been posted yet, the table of exit codes has a free slot and there is
    memory for one more code (without which the code is lost).  [_exit] posts the
    status and wakes [tp]; [tp], which could not run before, finds the code:
    [waitpid] returns 0 and the child's pid and stores, through a valid status
    pointer or none, the bytes of the wait status, in which [WIFEXITED] holds and
    [WEXITSTATUS] is the code the child exited with (a code of 30 bits).  Nobody
    else has been woken, the child is off the process table, the exit codes are as
    before, the block of the code is free again, and so are both processes'
    locks. *)
Theorem exit_status_reaches_parent s p x q y c pt t ps cs code l i j tp ts status :
  family s p x q y c pt t ps cs → find_slot (codes s) (of_pid (pid x)) cs = None →
  next_block s = Some l → free_slot cs = Some j → last_slot (procs s) (with_pid (pid x)) ps = Some i →
  threads s !! tp = Some q → sleepers s !! cv_wchan c = Some (tp :: ts) →
  map_Forall (λ _ ts', tp ∉ ts') (<[cv_wchan c := ts]> (sleepers s)) →
  is_addr status → status + 4 ≤ USERSPACETOP → (status ≠ 0 → CopyInOut.mapped (umem s) status 4) →
  - 2 ^ 29 ≤ code < 2 ^ 29 →
  wp (exit_proc code;; run_thread tp;; waitpid_resume (pid x) status) (λ r s',
    r = (0, pid x) ∧
    (∃ bs, umem s' = (if bool_decide (status = 0) then umem s else write_bytes (umem s) status bs) ∧
      WIFEXITED (bytes_int bs) = true ∧ WEXITSTATUS (bytes_int bs) = code) ∧
    sleepers s' = <[cv_wchan c := ts]> (sleepers s) ∧
    ptable s' pt (set_num_of_procs (s32 (num_of_procs t - 1)) t) (<[i := None]> ps) cs ∧
    live (sys s') = live (sys s) ∧ lock_free (ops_lock x) s' ∧ lock_free (ops_lock y) s') s.
Proof.
  intros Hfa0 Hnew Hl Hj Hi Htp Hsl Honly Hs Hs4 Hm Hcode. wp_step. eapply exit_proc_spec; [done..|]. intros Hlive o.
  set (ec := Pidxcode _ _ _). set (n := s32 _). set (sw := woken (cv_wchan c) s).
  assert (family sw p x q y c pt t ps cs) as Hfa by by apply family_woken.
  assert (sleepers sw = <[cv_wchan c := ts]> (sleepers s)) as Hsw by by apply (sleepers_woken _ tp).
  set (s1 := posted _ _ _ _ _ _ _). wp_step. rw /run_thread. wp_step. apply wp_gets. wp_step.
  apply wp_kassert; [by rw sleepers_procs_set sleepers_posted Hsw bool_decide_eq_true_2|]. apply wp_modify.
  set (s2 := switch_to _ _). apply free_slot_Some in Hj as [Hj _].
  destruct (exited_state sw p x q y c pt t ps cs l o ec j i tp Hfa Hlive Hj) as (Ht2 & Hc2 & Hu2 & Hlive2 & Hx2 & Hy2).
  pose proof (fa_table _ _ _ _ _ _ _ _ _ _ Hfa) as Ht. pose proof (all_objs_fresh _ _ _ _ (pt_cobjs _ _ _ _ _ Ht) Hlive) as Hfresh.
  assert (pid y = ppid x) as Hpid.
  { destruct (fa_parent _ _ _ _ _ _ _ _ _ _ Hfa) as (ql & -> & _ & Hy). eapply by_pid_found; [by apply Hfa|done]. }
  destruct (family_apart _ _ _ _ _ _ _ _ _ _ _ Hfa Hlive) as (Hyp & Hlx & Hly).
  eapply waitpid_resume_spec; [by eapply exited_running|exact Ht2|done|done| | | |done..| |].
  - rw Hc2. apply find_slot_new; [done|by apply bool_decide_eq_true_2|done|done].
  - rw Hc2 Hpid. apply find_slot_new; [done|by apply bool_decide_eq_true_2|done|by apply of_pair_pid].
  - rw Hc2. apply lookup_insert_eq.
  - by rw Hu2.
  - split; [done|]. destruct (exit_status_value code Hcode) as [Hw1 Hw2]. split.
    { exists (int_bytes (MKWAIT_EXIT code)). rw bytes_int_bytes umem_status_out umem_freed_slots Hu2. done. }
    split.
    { rw sleepers_status_out. change (sleepers s2) with (sleepers (procs_set pt t n (<[i := None]> ps) s1)). by rw sleepers_procs_set sleepers_posted. }
    split; [apply ptable_status_out; eapply ptable_taken_out; [exact Ht2|done|done|by apply insert_None_fresh; eapply all_objs_fresh; [apply Ht|]]|].
    split; [rw live_status_out live_taken_out Hlive2 /sw; change (live (sys (woken (cv_wchan c) s))) with (live (sys s)); set_solver|].
    by split; apply lock_free_status_out; apply lock_free_taken_out.
Qed.
End exit.

(** ** Witness *)

(** The shell has a child of pid 9, with thread 3, and four bytes of memory; its
    own thread goes to sleep in [waitpid], and the child's runs. *)
Definition shell_with_child : state :=
  final (p ← proc_create [99];
         put_proc p (λ x, set_pid 9 (set_ppid 2 x));;
         put_proc_on_proctable p;;
         modify (upd_threads <[3%positive := p]>);;
         modify (upd_umem (λ _, list_to_map [(4096, 0); (4097, 0); (4098, 0); (4099, 0)]))) booted.
Definition child_running : state := switch_to 3 (final (waitpid 9 4096 0) shell_with_child).
Definition the_child : proc := default shell_proc (procs child_running !! child_at).
Definition shell_cv : cv := default (Cv 1 1) (cvs child_running !! 161%positive).
Definition the_ptab : proctable := default boot_ptab (p ← boot_pt; ptabs child_running !! p).
Definition the_procs : list ptr := default [] (a ← proc_array boot_ptab; arrs child_running !! a).

Example shell_asleep : sleepers child_running = {[cv_wchan shell_cv := [2%positive]]}.
Proof. by vm_compute. Qed.

Lemma child_ptable : ptable child_running boot_pt the_ptab the_procs boot_codes.
Proof. eval_ptable child_running. Qed.

Lemma child_family :
  family child_running (Some child_at) the_child (Some 153%positive) shell_proc shell_cv boot_pt the_ptab the_procs boot_codes.
Proof.
  split.
  - split; [by vm_compute|by apply (obj_intro procs child_at); vm_compute|].
    by apply (lock_free_intro child_running 181 182 183); vm_compute.
  - exact child_ptable.
  - by vm_compute.
  - by apply (obj_intro procs 153); vm_compute.
  - by apply (lock_free_intro child_running 164 165 166); vm_compute.
  - by apply (obj_intro cvs 161); vm_compute.
  - by by_decide.
  - by vm_compute.
Qed.

Lemma exit_status_reaches_parent_witness :
  wp (exit_proc 7;; run_thread 2;; waitpid_resume 9 4096) (λ r s',
    r = (0, 9) ∧ sleepers s' = {[cv_wchan shell_cv := []]} ∧ live (sys s') = live (sys child_running)) child_running.
Proof.
  eapply wp_mono.
  - apply (exit_status_reaches_parent child_running (Some child_at) the_child (Some 153%positive) shell_proc shell_cv boot_pt
      the_ptab the_procs boot_codes 7 187 1 0 2 [] 4096).
    + exact child_family.
    + by vm_compute.
    + by vm_compute.
    + by vm_compute.
    + by vm_compute.
    + by vm_compute.
    + by rw shell_asleep lookup_singleton_eq.
    + rw shell_asleep insert_singleton_eq. apply map_Forall_singleton. apply not_elem_of_nil.
    + by vm_compute.
    + by vm_compute.
    + intros _ i Hi. assert (i = 0 ∨ i = 1 ∨ i = 2 ∨ i = 3) as [->|[->|[->| ->]]] by lia; eexists; vm_compute; reflexivity.
    + lia.
  - intros r s' (-> & _ & -> & _ & -> & _). split; [done|]. split; [|done]. by rw shell_asleep insert_singleton_eq.
Defined.
