(* ===== verification/LibcMem.v ===== *)
(** * Copying and clearing memory: common/libc/string/{memcpy,memmove,bzero}.c

    The functions copy or clear a word at a time when addresses and length are
    multiples of the word size, and a byte at a time otherwise; [memmove] goes
    back to front when the destination is above the source.  They are compared
    with a reference that writes the whole block at once. *)

From stdpp Require Import base tactics list gmap option numbers ssreflect.
From S2P Require Import Prelude CopyInOut.

Open Scope Z_scope.

(** ** Memory *)

(** The mapped bytes; a word is four of them, the most significant first. *)
Abbreviation memory := (gmap Z Z).
Abbreviation WORD := 4%nat.

Definition lb (a : Z) : M memory Z := deref (λ m, m !! a).
Definition sb (a b : Z) : M memory unit := lb a;; modify <[a := b]>.

Definition join_word (b0 b1 b2 b3 : Z) : Z := ((b0 * 256 + b1) * 256 + b2) * 256 + b3.
Definition word_byte (w k : Z) : Z := w / 2 ^ (8 * k) mod 256.

Definition lw (a : Z) : M memory Z :=
  b0 ← lb a; b1 ← lb (a + 1); b2 ← lb (a + 2); b3 ← lb (a + 3);
  mret (join_word b0 b1 b2 b3).
Definition sw (a w : Z) : M memory unit :=
  sb a (word_byte w 3);; sb (a + 1) (word_byte w 2);; sb (a + 2) (word_byte w 1);; sb (a + 3) (word_byte w 0).

(** ** The functions *)

(** [sizeof(long)] divides all three. *)
Definition aligned (dst src len : Z) : bool :=
  bool_decide (dst mod 4 = 0) && bool_decide (src mod 4 = 0) && bool_decide (len mod 4 = 0).

(** [d[i] = s[i]] for [char] and for [long] pointers. *)
Definition copy_byte (dst src : Z) : M memory unit := b ← lb src; sb dst b.
Definition copy_word (dst src : Z) : M memory unit := w ← lw src; sw dst w.

(** [for (i = 0; i < n; i++) d[i] = s[i]], with elements of [size] bytes, and
    [for (i = n; i > 0; i--) d[i-1] = s[i-1]]. *)
Definition forwards (size n : nat) (copy : Z → Z → M memory unit) (dst src : Z) : M memory (option unit) :=
  for_up 0 n (λ i, copy (dst + Z.of_nat (i * size)) (src + Z.of_nat (i * size));; mret None).
Definition backwards (size n : nat) (copy : Z → Z → M memory unit) (dst src : Z) : M memory (option unit) :=
  for_up 0 n (λ j, let i := (n - j)%nat in
    copy (dst + Z.of_nat ((i - 1) * size)) (src + Z.of_nat ((i - 1) * size));; mret None).

Definition memcpy (dst src len : Z) : M memory Z :=
  (if aligned dst src len then forwards 4 (Z.to_nat (len / 4)) copy_word dst src
   else forwards 1 (Z.to_nat len) copy_byte dst src);;
  mret dst.

Definition memmove (dst src len : Z) : M memory Z :=
  if bool_decide (dst < src) then memcpy dst src len
  else
    (if aligned dst src len then backwards 4 (Z.to_nat (len / 4)) copy_word dst src
     else backwards 1 (Z.to_nat len) copy_byte dst src);;
    mret dst.

Definition bzero (block len : Z) : M memory unit :=
  (if bool_decide (block mod 4 = 0) && bool_decide (len mod 4 = 0)
   then for_up 0 (Z.to_nat (len / 4)) (λ i, sw (block + Z.of_nat (i * 4)) 0;; mret (@None unit))
   else for_up 0 (Z.to_nat len) (λ i, sb (block + Z.of_nat (i * 1)) 0;; mret None));;
  mret tt.

(** ** Words *)

Definition byte (b : Z) : Prop := 0 ≤ b < 256.

Lemma word_bytes b0 b1 b2 b3 : byte b0 → byte b1 → byte b2 → byte b3 →
  let w := join_word b0 b1 b2 b3 in
  word_byte w 3 = b0 ∧ word_byte w 2 = b1 ∧ word_byte w 1 = b2 ∧ word_byte w 0 = b3.
Proof. rw /byte /word_byte /join_word. intros. split_and!; simpl; zlia. Qed.

Lemma wp_lb a b (Q : Z → memory → Prop) m : m !! a = Some b → Q b m → wp (lb a) Q m.
Proof. intros. by eapply wp_deref. Qed.
Lemma wp_sb a b (Q : unit → memory → Prop) m : is_Some (m !! a) → Q tt (<[a := b]> m) → wp (sb a b) Q m.
Proof. intros [c Hc] HQ. rw /sb. wp_step. eapply wp_lb; [done|]. by apply wp_modify. Qed.

Lemma mapped_insert m a b c len : mapped m a len → mapped (<[b := c]> m) a len.
Proof. exact (write_bytes_mapped m b [c] a len). Qed.

Lemma wp_sw a w (Q : unit → memory → Prop) m :
  mapped m a 4 → Q tt (write_bytes m a [word_byte w 3; word_byte w 2; word_byte w 1; word_byte w 0]) → wp (sw a w) Q m.
Proof.
  intros Hm HQ. assert (∀ i m', 0 ≤ i < 4 → mapped m' a 4 → is_Some (m' !! (a + i))) as Hat by auto.
  rw /sw. wp_step. apply wp_sb; [rw -(Z.add_0_r a); by apply Hat|].
  wp_step. apply wp_sb; [by apply Hat, mapped_insert|]. wp_step. apply wp_sb; [by apply Hat, mapped_insert, mapped_insert|].
  apply wp_sb; [by apply Hat; [done|]; do 3 apply mapped_insert|].
  simpl in HQ. by replace (a + 3) with (a + 1 + 1 + 1) by lia; replace (a + 2) with (a + 1 + 1) by lia.
Qed.

(** ** Blocks *)

Lemma write_bytes_insert m a b c l : c < a → write_bytes (<[c := b]> m) a l = <[c := b]> (write_bytes m a l).
Proof.
  revert m a. induction l as [|d l IH]; intros m a Hc; simpl; [done|].
  rw insert_insert_ne; [|lia]. apply IH. lia.
Qed.

(** The second part first. *)
Lemma write_bytes_app_back m a l1 l2 :
  write_bytes m a (l1 ++ l2) = write_bytes (write_bytes m (a + Z.of_nat (length l1)) l2) a l1.
Proof.
  revert m a. induction l1 as [|b l1 IH]; intros m a; simpl; [by rw Z.add_0_r|].
  rw IH. f_equal. replace (a + Z.of_nat (S (length l1))) with (a + 1 + Z.of_nat (length l1)) by lia.
  apply write_bytes_insert. lia.
Qed.

Lemma bytes_at_same m m' a l :
  (∀ x, a ≤ x < a + Z.of_nat (length l) → m' !! x = m !! x) → bytes_at m a l → bytes_at m' a l.
Proof.
  rw !bytes_at_lookup. intros Hs Hl i b Hi. rw Hs; [by apply Hl|]. apply lookup_lt_Some in Hi. lia.
Qed.

Lemma bytes_at_part m a l k n :
  bytes_at m a l → bytes_at m (a + Z.of_nat k) (take n (drop k l)).
Proof.
  rw !bytes_at_lookup. intros Hl i b (Hi & _)%lookup_take_Some. rw lookup_drop in Hi.
  replace (a + Z.of_nat k + Z.of_nat i) with (a + Z.of_nat (k + i)) by lia. by apply Hl.
Qed.

Lemma mapped_part m a len k n : mapped m a len → 0 ≤ k → k + n ≤ len → mapped m (a + k) n.
Proof. intros Hm Hk Hn i Hi. rw -Z.add_assoc. apply Hm. lia. Qed.

(** ** The loops *)

(** Copying one element. *)
Definition copies (size : nat) (copy : Z → Z → M memory unit) : Prop :=
  ∀ m dst src l (Q : unit → memory → Prop), length l = size → Forall byte l → bytes_at m src l →
    mapped m dst (Z.of_nat size) → Q tt (write_bytes m dst l) → wp (copy dst src) Q m.

Lemma copies_byte : copies 1 copy_byte.
Proof.
  intros m dst src [|b [|]] Q Hlen _ Hs Hd HQ; try done. destruct Hs as [Hb _]. rw /copy_byte. wp_step.
  eapply wp_lb; [done|]. apply wp_sb; [|done]. rw -(Z.add_0_r dst). by apply Hd.
Qed.

Lemma copies_word : copies 4 copy_word.
Proof.
  intros m dst src [|b0 [|b1 [|b2 [|b3 [|]]]]] Q Hlen Hl Hs Hd HQ; try done. destruct Hs as (H0 & H1 & H2 & H3 & _).
  rw !Forall_cons in Hl. destruct Hl as (B0 & B1 & B2 & B3 & _).
  rw /copy_word /lw. wp_step. wp_step. eapply wp_lb; [done|]. wp_step. eapply wp_lb; [done|].
  wp_step. eapply wp_lb; [by replace (src + 2) with (src + 1 + 1) by lia|].
  wp_step. eapply wp_lb; [by replace (src + 3) with (src + 1 + 1 + 1) by lia|]. wp_step.
  apply wp_sw; [done|]. by destruct (word_bytes b0 b1 b2 b3) as (-> & -> & -> & ->).
Qed.

Section loops.
Context (size n : nat) (copy : Z → Z → M memory unit) (Hcopy : copies size copy).
Context (m : memory) (dst src : Z) (l : list Z).
Context (Hlen : length l = (n * size)%nat) (Hbytes : Forall byte l) (Hsrc : bytes_at m src l).
Context (Hdst : mapped m dst (Z.of_nat (length l))).

(** The element at [k] is copied while none of the block's source has been
    written over. *)
Lemma wp_copy_at k m' (Q : unit → memory → Prop) :
  (k + size ≤ length l)%nat → (∀ x, src + Z.of_nat k ≤ x < src + Z.of_nat (k + size) → m' !! x = m !! x) →
  mapped m' dst (Z.of_nat (length l)) →
  Q tt (write_bytes m' (dst + Z.of_nat k) (take size (drop k l))) →
  wp (copy (dst + Z.of_nat k) (src + Z.of_nat k)) Q m'.
Proof.
  intros Hk Hs Hm HQ. assert (length (take size (drop k l)) = size) as Hl by (rw length_take length_drop; lia).
  apply (Hcopy _ _ _ _ _ Hl); [by apply Forall_take, Forall_drop| |apply (mapped_part _ _ (Z.of_nat (length l))); [done|lia..]|done].
  apply (bytes_at_same m); [|by apply bytes_at_part]. rw Hl. intros x Hx. apply Hs. lia.
Qed.

Lemma forwards_spec (Q : option unit → memory → Prop) :
  dst ≤ src ∨ src + Z.of_nat (length l) ≤ dst → Q None (write_bytes m dst l) → wp (forwards size n copy dst src) Q m.
Proof.
  intros Hsep HQ. rw /forwards. apply (wp_for_up (λ i m', m' = write_bytes m dst (take (i * size) l))); [done| |].
  - intros i m' Hi ->. assert ((i + 1) * size ≤ n * size)%nat as Hle by (apply Nat.mul_le_mono_r; lia).
    wp_step. apply wp_copy_at; [lia| |by apply write_bytes_mapped|].
    + intros x Hx. apply write_bytes_other. rw length_take_le; [|lia]. lia.
    + apply wp_ret. replace (S i * size)%nat with (i * size + size)%nat by lia.
      rw -take_take_drop write_bytes_app length_take_le //. lia.
  - intros m' ->. rw take_ge //=. lia.
Qed.

Lemma backwards_spec (Q : option unit → memory → Prop) :
  src ≤ dst → Q None (write_bytes m dst l) → wp (backwards size n copy dst src) Q m.
Proof.
  intros Hsep HQ. rw /backwards.
  apply (wp_for_up (λ j m', m' = write_bytes m (dst + Z.of_nat ((n - j) * size)) (drop ((n - j) * size) l))).
  - rw Nat.sub_0_r drop_ge //. lia.
  - intros j m' Hj ->. assert ((n - j) * size = (n - j - 1) * size + size)%nat as E.
    { replace (n - j)%nat with (S (n - j - 1)) at 1 by lia. lia. }
    assert ((n - j) * size ≤ n * size)%nat as Hle by (apply Nat.mul_le_mono_r; lia).
    wp_step. apply wp_copy_at; [lia| |by apply write_bytes_mapped|].
    + intros x Hx. apply write_bytes_other. lia.
    + apply wp_ret. replace (n - S j)%nat with (n - j - 1)%nat by lia. rw E.
      rw -{2}(take_drop size (drop ((n - j - 1) * size) l)) drop_drop write_bytes_app_back. f_equal. f_equal.
      rw length_take length_drop. lia.
  - intros m' ->. by rw Nat.add_0_l Nat.sub_diag Z.add_0_r.
Qed.
End loops.

Lemma bzero_loop (size n : nat) (clear : Z → M memory unit) m block (Q : option unit → memory → Prop) :
  (∀ m' a Q', mapped m' a (Z.of_nat size) → Q' tt (write_bytes m' a (replicate size 0)) → wp (clear a) Q' m') →
  mapped m block (Z.of_nat (n * size)) → Q None (write_bytes m block (replicate (n * size) 0)) →
  wp (for_up 0 n (λ i, clear (block + Z.of_nat (i * size));; mret (@None unit))) Q m.
Proof.
  intros Hclear Hm HQ. apply (wp_for_up (λ i m', m' = write_bytes m block (replicate (i * size) 0))); [done| |].
  - intros i m' Hi ->. assert ((i + 1) * size ≤ n * size)%nat as Hle by (apply Nat.mul_le_mono_r; lia).
    wp_step. apply Hclear; [apply write_bytes_mapped, (mapped_part _ _ (Z.of_nat (n * size))); [done|lia..]|].
    apply wp_ret. replace (S i * size)%nat with (i * size + size)%nat by lia.
    by rw replicate_add write_bytes_app length_replicate.
  - by intros m' ->.
Qed.

(** ** The theorem *)

Definition moved (m : memory) (dst : Z) (l : list Z) (r : Z) (m' : memory) : Prop :=
  r = dst ∧ m' = write_bytes m dst l.

Lemma words_bytes (l : list Z) : Z.of_nat (length l) mod 4 = 0 → length l = (Z.to_nat (Z.of_nat (length l) / 4) * 4)%nat.
Proof. intros Hl. zlia. Qed.

Section functions.
Context (m : memory) (dst src : Z) (l : list Z).
Context (Hbytes : Forall byte l) (Hsrc : bytes_at m src l) (Hdst : mapped m dst (Z.of_nat (length l))).

Lemma libc_memcpy_spec :
  dst ≤ src ∨ src + Z.of_nat (length l) ≤ dst → wp (memcpy dst src (Z.of_nat (length l))) (moved m dst l) m.
Proof.
  intros Hsep. rw /memcpy. wp_step. destruct (aligned _ _ _) eqn:Ha.
  - rw /aligned !andb_true_iff !bool_decide_eq_true in Ha. destruct Ha as [_ Ha].
    apply (forwards_spec _ _ _) with (l := l); [exact copies_word|by apply words_bytes|done..|]. by apply wp_ret.
  - apply (forwards_spec _ _ _) with (l := l); [exact copies_byte|lia|done..|]. by apply wp_ret.
Qed.

Lemma libc_memmove_spec : wp (memmove dst src (Z.of_nat (length l))) (moved m dst l) m.
Proof.
  rw /memmove. bd_case (dst < src) as Hlt; [apply libc_memcpy_spec; lia|]. wp_step. destruct (aligned _ _ _) eqn:Ha.
  - rw /aligned !andb_true_iff !bool_decide_eq_true in Ha. destruct Ha as [_ Ha].
    apply (backwards_spec _ _ _) with (l := l); [exact copies_word|by apply words_bytes|done..|lia|]. by apply wp_ret.
  - apply (backwards_spec _ _ _) with (l := l); [exact copies_byte|lia|done..|lia|]. by apply wp_ret.
Qed.

Lemma libc_bzero_spec :
  wp (bzero dst (Z.of_nat (length l))) (λ _ m', m' = write_bytes m dst (replicate (length l) 0)) m.
Proof.
  rw /bzero. wp_step. destruct (bool_decide _ && _) eqn:Ha.
  - rw andb_true_iff !bool_decide_eq_true in Ha. destruct Ha as [_ Ha]. pose proof (words_bytes l Ha) as Hl.
    apply (bzero_loop 4 _ (λ a, sw a 0)); [|by rw -Hl|by apply wp_ret; rw -Hl].
    intros m' a Q' Hm HQ'. by apply wp_sw.
  - rw Nat2Z.id. apply (bzero_loop 1 _ (λ a, sb a 0)); rw ?Nat.mul_1_r; [|done|by apply wp_ret].
    intros m' a Q' Hm HQ'. apply wp_sb; [|done]. rw -(Z.add_0_r a). by apply Hm.
Qed.
End functions.

(** C28: the word-at-a-time and back-to-front loops do what a single write of
    the whole block would do.  For a block of bytes in memory and a mapped
    destination of its size, whatever their alignment: [memmove] leaves exactly
    the block at the destination and every other byte as it was, even when the
    two overlap, and returns the destination; so does [memcpy] unless the
    destination starts inside the source after its first byte; and [bzero]
    leaves zeros.  None of them touches a byte that is not mapped. *)
Theorem libc_block_operations m dst src l :
  Forall byte l → bytes_at m src l → mapped m dst (Z.of_nat (length l)) →
  let len := Z.of_nat (length l) in
  wp (memmove dst src len) (moved m dst l) m ∧
  (dst ≤ src ∨ src + len ≤ dst → wp (memcpy dst src len) (moved m dst l) m) ∧
  wp (bzero dst len) (λ _ m', m' = write_bytes m dst (replicate (length l) 0)) m.
Proof. intros Hb Hs Hd. split; [by eapply libc_memmove_spec|]. split; [by eapply libc_memcpy_spec|by apply libc_bzero_spec]. Qed.

(** Eight bytes moved up by four. *)
Definition twelve : memory := list_to_map (zip (seqZ 0 12) [1; 2; 3; 4; 5; 6; 7; 8; 9; 9; 9; 9]).
Lemma libc_block_operations_witness :
  wp (memmove 4 0 8) (λ r m', r = 4 ∧ m' = list_to_map (zip (seqZ 0 12) [1; 2; 3; 4; 1; 2; 3; 4; 5; 6; 7; 8])) twelve.
Proof.
  assert (Forall byte [1; 2; 3; 4; 5; 6; 7; 8]) as Hb by (repeat constructor; lia).
  assert (bytes_at twelve 0 [1; 2; 3; 4; 5; 6; 7; 8]) as Hs by (repeat split; by vm_compute).
  assert (mapped twelve 4 8) as Hd.
  { intros i Hi. assert (4 + i ∈ seqZ 4 8) as Hin by (apply elem_of_seqZ; lia). revert Hin. generalize (4 + i).
    apply Forall_forall. by by_decide. }
  eapply wp_mono; [exact (proj1 (libc_block_operations twelve 4 0 _ Hb Hs Hd))|].
  intros r m' [-> ->]. split; [done|by vm_compute].
Defined.
