(* ===== verification/LibcStr.v ===== *)
(** * Strings in memory: common/libc/string/{strlen,strchr,strcpy,strcmp,
      strtok_r}.c and common/libc/stdlib/atoi.c

    On the byte-addressed memory of LibcMem.v; a pointer is an address, NULL is
    0.  The loops have no bound of their own: each round reads another mapped
    byte, so that one round more than there are mapped bytes is enough. *)

From stdpp Require Import base tactics list gmap option numbers ssreflect.
From S2P Require Import Prelude CopyInOut LibcMem.

Open Scope Z_scope.

Definition loop {R} (p : Z) (body : Z → M memory (Z + R)) : M memory R :=
  n ← gets (λ m, S (size m)); while n p body.

(** ** The functions *)

Definition strlen (str : Z) : M memory Z :=
  loop 0 (λ ret, c ← lb (str + ret); mret (if bool_decide (c ≠ 0) then inl (ret + 1) else inr ret)).

(** [ch_arg] is cut to a [char]. *)
Definition strchr (s ch_arg : Z) : M memory Z :=
  let ch := ch_arg mod 256 in
  loop s (λ s,
    c ← lb s;
    mret (if bool_decide (c ≠ 0) then if bool_decide (c = ch) then inr s else inl (s + 1)
          else inr (if bool_decide (c = ch) then s else 0))).

Definition strcpy (dest src : Z) : M memory Z :=
  i ← loop 0 (λ i,
    c ← lb (src + i);
    if bool_decide (c ≠ 0) then sb (dest + i) c;; mret (inl (i + 1)) else mret (inr i));
  sb (dest + i) 0;;
  mret dest.

Definition strcmp (a b : Z) : M memory Z :=
  i ← loop 0 (λ i,
    x ← lb (a + i);
    if bool_decide (x ≠ 0) then
      y ← lb (b + i);
      mret (if bool_decide (x = y) then inl (i + 1) else inr i)
    else mret (inr i));
  x ← lb (a + i);
  y ← lb (b + i);
  mret (if bool_decide (x > y) then 1 else if bool_decide (x = y) then 0 else -1).

(** The word, or NULL, and the new [*context]. *)
Definition strtok_r (string seps context : Z) : M memory (Z * Z) :=
  let head := if bool_decide (string ≠ 0) then string else context in
  if bool_decide (head = 0) then mret (0, head)
  else
    head ← loop head (λ head,
      c ← lb head;
      if bool_decide (c ≠ 0) then w ← strchr seps c; mret (if bool_decide (w ≠ 0) then inl (head + 1) else inr head)
      else mret (inr head));
    c ← lb head;
    if bool_decide (c = 0) then mret (0, 0)
    else
      tail ← loop head (λ tail,
        c ← lb tail;
        if bool_decide (c ≠ 0) then w ← strchr seps c; mret (if bool_decide (w = 0) then inl (tail + 1) else inr tail)
        else mret (inr tail));
      c ← lb tail;
      if bool_decide (c = 0) then mret (head, 0)
      else sb tail 0;; mret (head, tail + 1).

(** ** Strings *)

(** The string [cs] at [a], with its terminator. *)
Definition string_at (m : memory) (a : Z) (cs : list Z) : Prop :=
  0 ∉ cs ∧ Forall byte cs ∧ bytes_at m a (cs ++ [0]).

Lemma mapped_size (m : memory) a n : mapped m a (Z.of_nat n) → (n ≤ size m)%nat.
Proof.
  intros Hm. rw -size_dom. trans (size (list_to_set (seqZ a (Z.of_nat n)) : gset Z)).
  - rw size_list_to_set; [by rw length_seqZ Nat2Z.id|apply NoDup_seqZ].
  - apply subseteq_size. intros x. rw elem_of_list_to_set elem_of_seqZ elem_of_dom. intros Hx.
    replace x with (a + (x - a)) by lia. apply Hm. lia.
Qed.

Lemma string_lookup m a cs i c : string_at m a cs → cs !! i = Some c → m !! (a + Z.of_nat i) = Some c ∧ c ≠ 0 ∧ byte c.
Proof.
  intros (H0 & Hb & Hat) Hi. rw bytes_at_lookup in Hat. split; [apply Hat; by apply lookup_app_l_Some|].
  split; [intros ->; apply H0; by eapply list_elem_of_lookup_2|]. by eapply (Forall_lookup_1 _ _ _ _ Hb).
Qed.
Lemma string_end m a cs : string_at m a cs → m !! (a + Z.of_nat (length cs)) = Some 0.
Proof. intros (_ & _ & Hat). rw bytes_at_lookup in Hat. apply Hat. by rw list_lookup_middle. Qed.
Lemma string_size m a cs : string_at m a cs → (length cs < size m)%nat.
Proof.
  intros (_ & _ & Hat). apply (mapped_size m a (S (length cs))).
  apply bytes_at_length_mapped in Hat. rw length_app Nat.add_comm in Hat. done.
Qed.

(** The string after its first [k] characters. *)
Lemma string_drop m a cs k : (k ≤ length cs)%nat → string_at m a cs → string_at m (a + Z.of_nat k) (drop k cs).
Proof.
  intros Hk (H0 & Hb & Hat). split.
  { intros [i Hi]%list_elem_of_lookup_1. rw lookup_drop in Hi. by eapply H0, list_elem_of_lookup_2. }
  split; [by apply Forall_drop|].
  rw bytes_at_lookup. intros i b Hi. rw bytes_at_lookup in Hat.
  replace (a + Z.of_nat k + Z.of_nat i) with (a + Z.of_nat (k + i)) by lia. apply Hat.
  rw -lookup_drop drop_app_le //.
Qed.

(** ** Scanning *)

(** Characters that pass, from the start of a string. *)
Fixpoint span (P : Z → bool) (cs : list Z) : nat :=
  match cs with [] => 0%nat | c :: cs' => if P c then S (span P cs') else 0%nat end.

Lemma span_le P cs : (span P cs ≤ length cs)%nat.
Proof. induction cs as [|c cs IH]; simpl; [lia|]. destruct (P c); lia. Qed.
Lemma span_lookup P cs i c : (i < span P cs)%nat → cs !! i = Some c → P c = true.
Proof.
  revert i. induction cs as [|d cs IH]; intros [|i]; simpl; [done..| |]; destruct (P d) eqn:Hd; intros ?; [|lia| |lia].
  - by intros [= <-].
  - intros Hi. apply (IH i); [lia|done].
Qed.
Lemma span_stop P cs c : cs !! span P cs = Some c → P c = false.
Proof. induction cs as [|d cs IH]; simpl; [done|]. destruct (P d) eqn:Hd; simpl; [done|]. by intros [= <-]. Qed.

(** A loop that looks at one character after the other and goes on while [P]
    holds stops at the [span]. *)
Lemma wp_scan {R} P a cs m (f : nat → Z) (body : Z → M memory (Z + R)) (Q : R → memory → Prop) :
  string_at m a cs → (∀ i, f (S i) = f i + 1) →
  (∀ i c, cs !! i = Some c → P c = true → wp (body (f i)) (λ r m', m' = m ∧ r = inl (f (S i))) m) →
  wp (body (f (span P cs))) (λ r m', ∃ v, r = inr v ∧ Q v m') m →
  wp (loop (f 0%nat) body) Q m.
Proof.
  intros Hs Hf Hgo Hstop. pose proof (string_size _ _ _ Hs). rw /loop. wp_step. wp_step. pose proof (span_le P cs) as Hspan.
  apply (wp_while (λ v p m', m' = m ∧ ∃ i, p = f i ∧ (i + v)%nat = span P cs) _ _ (span P cs)); [|lia|].
  - split; [done|]. by exists O.
  - intros v p m' (-> & i & -> & Hi). destruct v as [|v].
    + rw Nat.add_0_r in Hi. subst i. eapply wp_mono; [exact Hstop|]. by intros r m' (w & -> & HQ).
    + destruct (lookup_lt_is_Some_2 cs i) as [c Hc]; [lia|]. eapply wp_mono.
      { eapply Hgo; [done|]. eapply span_lookup; [|done]. lia. }
      intros r m' [-> ->]. exists v. split; [lia|]. split; [done|]. exists (S i). split; [done|]. lia.
Qed.

(** What stands where a scan stops: a character that does not pass, or the
    terminator. *)
Lemma span_at m a cs P : string_at m a cs →
  m !! (a + Z.of_nat (span P cs)) = Some (default 0 (cs !! span P cs)).
Proof.
  intros Hs. destruct (cs !! span P cs) as [c|] eqn:Hc; simpl.
  - by destruct (string_lookup _ _ _ _ _ Hs Hc).
  - apply lookup_ge_None in Hc. pose proof (span_le P cs). replace (span P cs) with (length cs) by lia.
    by apply string_end.
Qed.

Lemma strlen_spec m str cs (Q : Z → memory → Prop) :
  string_at m str cs → Q (Z.of_nat (length cs)) m → wp (strlen str) Q m.
Proof.
  intros Hs HQ. rw /strlen.
  assert (span (λ _, true) cs = length cs) as Hspan by by clear; induction cs; simpl; [done|f_equal].
  apply (wp_scan (λ _, true) str cs m Z.of_nat); [done|lia| |].
  - intros i c Hc _. destruct (string_lookup _ _ _ _ _ Hs Hc) as (Hm & Hn & _). wp_step. eapply wp_lb; [done|].
    apply wp_ret. rw bool_decide_eq_true_2 //. split; [done|]. f_equal. lia.
  - rw Hspan. wp_step. eapply wp_lb; [by apply string_end|]. apply wp_ret. by eexists.
Qed.

Lemma byte_mod c : byte c → c mod 256 = c.
Proof. rw /byte. intros. by apply Z.mod_small. Qed.

Lemma strchr_spec m s cs ch (Q : Z → memory → Prop) :
  string_at m s cs → 0 < s → byte ch → ch ≠ 0 →
  (∀ r, (r = 0 ↔ ch ∉ cs) → Q r m) → wp (strchr s ch) Q m.
Proof.
  intros Hs Hpos Hb Hch HQ. rw /strchr. rw byte_mod //.
  set (P := λ c, bool_decide (c ≠ ch)).
  replace s with (s + Z.of_nat 0) at 1 by lia.
  apply (wp_scan P s cs m (λ i, s + Z.of_nat i)); [done|lia| |].
  - intros i c Hc HP. destruct (string_lookup _ _ _ _ _ Hs Hc) as (Hm & Hn & _). wp_step. eapply wp_lb; [done|].
    apply wp_ret. rw bool_decide_eq_true_2 //. rw /P bool_decide_eq_true in HP. rw bool_decide_eq_false_2 //.
    split; [done|]. f_equal. lia.
  - wp_step. eapply wp_lb; [by apply span_at|]. apply wp_ret. destruct (cs !! span P cs) as [c|] eqn:Hc; simpl.
    + destruct (string_lookup _ _ _ _ _ Hs Hc) as (_ & Hn & _). rw bool_decide_eq_true_2 //.
      apply span_stop in Hc as HP. rw /P bool_decide_eq_false in HP. apply dec_stable in HP. subst c.
      rw bool_decide_eq_true_2 //. eexists. split; [done|]. apply HQ. split; [lia|]. intros Hn'. destruct Hn'.
      by eapply list_elem_of_lookup_2.
    + rw bool_decide_eq_false_2; [|congruence]. eexists. split; [done|].
      apply HQ. split; [|done]. intros _ Hin. apply list_elem_of_lookup_1 in Hin as [i Hi].
      apply lookup_ge_None in Hc. assert (P ch = true) as HP; [eapply (span_lookup P cs i); [|done]|].
      { apply lookup_lt_Some in Hi. lia. }
      by rw /P bool_decide_eq_true in HP.
Qed.

(** ** Words *)

Definition sep (seps : list Z) (c : Z) : bool := bool_decide (c ∈ seps).
Definition nonsep (seps : list Z) (c : Z) : bool := bool_decide (c ∉ seps).

(** Where the first word of [cs] starts, and how long it is. *)
Definition first_word (seps cs : list Z) : nat * nat :=
  let k := span (sep seps) cs in (k, span (nonsep seps) (drop k cs)).

Section strtok.
Context (seps : Z) (ss : list Z).

(** The separators are a string outside the block [p, p + len]. *)
Definition seps_ok (m : memory) (p : Z) (len : nat) : Prop :=
  0 < seps ∧ string_at m seps ss ∧ (seps + Z.of_nat (length ss) < p ∨ p + Z.of_nat len < seps).

(** The body of both scans. *)
Lemma strchr_test m c (Q : Z → memory → Prop) :
  0 < seps → string_at m seps ss → byte c → c ≠ 0 →
  (∀ r, bool_decide (r ≠ 0) = sep ss c → bool_decide (r = 0) = nonsep ss c → Q r m) → wp (strchr seps c) Q m.
Proof.
  intros Hpos Hs Hb Hc HQ. eapply strchr_spec; [done..|]. intros r Hr. apply HQ; apply bool_decide_ext; [|done].
  rw Hr. split; [apply dec_stable|by intros ? []].
Qed.

Lemma skip_seps m p cs (Q : Z → memory → Prop) :
  string_at m p cs → 0 < seps → string_at m seps ss → Q (p + Z.of_nat (span (sep ss) cs)) m →
  wp (loop p (λ head,
    c ← lb head;
    if bool_decide (c ≠ 0) then w ← strchr seps c; mret (if bool_decide (w ≠ 0) then inl (head + 1) else inr head)
    else mret (inr head))) Q m.
Proof.
  intros Hs Hpos Hss HQ. replace p with (p + Z.of_nat 0) at 1 by lia.
  apply (wp_scan (sep ss) p cs m (λ i, p + Z.of_nat i)); [done|lia| |].
  - intros i c Hc HP. destruct (string_lookup _ _ _ _ _ Hs Hc) as (Hm & Hn & Hb). wp_step. eapply wp_lb; [done|].
    rw bool_decide_eq_true_2 //. wp_step. eapply strchr_test; [done..|]. intros r Hr _. apply wp_ret. rw Hr HP.
    split; [done|]. f_equal. lia.
  - wp_step. eapply wp_lb; [by apply span_at|]. destruct (cs !! span (sep ss) cs) as [c|] eqn:Hc; simpl.
    + destruct (string_lookup _ _ _ _ _ Hs Hc) as (_ & Hn & Hb). rw bool_decide_eq_true_2 //. wp_step.
      eapply strchr_test; [done..|]. intros r Hr _. apply wp_ret. rw Hr (span_stop _ _ _ Hc). by eexists.
    + wp_step. by eexists.
Qed.

Lemma skip_word m p cs (Q : Z → memory → Prop) :
  string_at m p cs → 0 < seps → string_at m seps ss → Q (p + Z.of_nat (span (nonsep ss) cs)) m →
  wp (loop p (λ tail,
    c ← lb tail;
    if bool_decide (c ≠ 0) then w ← strchr seps c; mret (if bool_decide (w = 0) then inl (tail + 1) else inr tail)
    else mret (inr tail))) Q m.
Proof.
  intros Hs Hpos Hss HQ. replace p with (p + Z.of_nat 0) at 1 by lia.
  apply (wp_scan (nonsep ss) p cs m (λ i, p + Z.of_nat i)); [done|lia| |].
  - intros i c Hc HP. destruct (string_lookup _ _ _ _ _ Hs Hc) as (Hm & Hn & Hb). wp_step. eapply wp_lb; [done|].
    rw bool_decide_eq_true_2 //. wp_step. eapply strchr_test; [done..|]. intros r _ Hr. apply wp_ret. rw Hr HP.
    split; [done|]. f_equal. lia.
  - wp_step. eapply wp_lb; [by apply span_at|]. destruct (cs !! span (nonsep ss) cs) as [c|] eqn:Hc; simpl.
    + destruct (string_lookup _ _ _ _ _ Hs Hc) as (_ & Hn & Hb). rw bool_decide_eq_true_2 //. wp_step.
      eapply strchr_test; [done..|]. intros r _ Hr. apply wp_ret. rw Hr (span_stop _ _ _ Hc). by eexists.
    + wp_step. by eexists.
Qed.

(** The first characters and the rest. *)
Lemma span_drop_lt P cs : (span P cs < length cs)%nat → ∃ c, cs !! span P cs = Some c ∧ P c = false.
Proof. intros [c Hc]%lookup_lt_is_Some_2. exists c. split; [done|by eapply span_stop]. Qed.

Lemma not_nonsep c : nonsep ss c = negb (sep ss c).
Proof. rw /nonsep /sep. by do 2 case_bool_decide. Qed.

(** One call on the rest [cs] of the string, at [p]: there is no word, the last
    word, or a word that is cut off at the separator after it. *)
Lemma strtok_r_spec m string context p cs (Q : Z * Z → memory → Prop) :
  p = (if bool_decide (string ≠ 0) then string else context) → 0 < p → string_at m p cs →
  0 < seps → string_at m seps ss →
  (let '(k, n) := first_word ss cs in
   if decide (k = length cs) then Q (0, 0) m
   else if decide ((k + n)%nat = length cs) then Q (p + Z.of_nat k, 0) m
   else Q (p + Z.of_nat k, p + Z.of_nat (k + n) + 1) (<[p + Z.of_nat (k + n) := 0]> m)) →
  wp (strtok_r string seps context) Q m.
Proof.
  intros Hp Hpos Hs Hsp Hss HQ. rw /strtok_r -Hp. rw bool_decide_eq_false_2; [|lia]. wp_step.
  eapply skip_seps; [done..|]. rw /first_word in HQ. set (k := span (sep ss) cs) in *.
  pose proof (span_le (sep ss) cs) as Hk. fold k in Hk. wp_step. eapply wp_lb; [by apply span_at|]. fold k.
  destruct (decide (k = length cs)) as [E|Hne].
  { rw lookup_ge_None_2; [|lia]. rw bool_decide_eq_true_2; [|done]. by wp_step. }
  destruct (lookup_lt_is_Some_2 cs k) as [c Hc]; [lia|]. rw Hc. destruct (string_lookup _ _ _ _ _ Hs Hc) as (_ & Hn & _).
  simpl. rw bool_decide_eq_false_2 //. wp_step. pose proof (string_drop _ _ _ _ Hk Hs) as Hd.
  eapply skip_word; [done..|]. set (n := span (nonsep ss) (drop k cs)) in *.
  replace (p + Z.of_nat k + Z.of_nat n) with (p + Z.of_nat (k + n)) by lia.
  pose proof (span_le (nonsep ss) (drop k cs)) as Hn'. fold n in Hn'. rw length_drop in Hn'.
  pose proof (span_at _ _ _ (nonsep ss) Hd) as Hat. fold n in Hat. rw lookup_drop in Hat.
  replace (p + Z.of_nat k + Z.of_nat n) with (p + Z.of_nat (k + n)) in Hat by lia.
  wp_step. eapply wp_lb; [done|]. destruct (decide ((k + n)%nat = length cs)) as [E|Hne'].
  - rw lookup_ge_None_2; [|lia]. rw bool_decide_eq_true_2; [|done]. by wp_step.
  - destruct (lookup_lt_is_Some_2 cs (k + n)) as [d Hd']; [lia|]. rw Hd'.
    destruct (string_lookup _ _ _ _ _ Hs Hd') as (Hdm & Hn0 & _). simpl. rw bool_decide_eq_false_2 //. wp_step.
    apply wp_sb; [by eexists|]. by apply wp_ret.
Qed.

(** ** All words of a string *)

(** Offset and characters of each word of [cs], which starts at [off]. *)
Fixpoint words (fuel off : nat) (cs : list Z) : list (nat * list Z) :=
  match fuel with
  | O => []
  | S fuel' =>
      let '(k, n) := first_word ss cs in
      if decide (k = length cs) then []
      else ((off + k)%nat, take n (drop k cs)) ::
        (if decide ((k + n)%nat = length cs) then [] else words fuel' (off + k + n + 1) (drop (k + n + 1) cs))
  end.

(** What a division of [cs] into words is: the places of the maximal blocks of
    characters that are no separators. *)
Record divides (cs : list Z) (ws : list (nat * list Z)) : Prop := {
  d_words : ∀ o w, (o, w) ∈ ws → w ≠ [] ∧ Forall (λ c, c ∉ ss) w ∧ take (length w) (drop o cs) = w;
  d_maximal : ∀ o w c, (o, w) ∈ ws → cs !! (o + length w)%nat = Some c → c ∈ ss;
  d_all : ∀ i c, cs !! i = Some c → c ∉ ss → ∃ o w, (o, w) ∈ ws ∧ (o ≤ i < o + length w)%nat
}.

Lemma sep_true c : sep ss c = true ↔ c ∈ ss.
Proof. apply bool_decide_eq_true. Qed.
Lemma nonsep_true c : nonsep ss c = true ↔ c ∉ ss.
Proof. apply bool_decide_eq_true. Qed.

Lemma words_places fuel off cs o w :
  (o, w) ∈ words fuel off cs → (off ≤ o)%nat ∧ w ≠ [] ∧ Forall (λ c, c ∉ ss) w ∧
    take (length w) (drop (o - off) cs) = w ∧ (∀ c, cs !! (o - off + length w)%nat = Some c → c ∈ ss).
Proof.
  revert off cs. induction fuel as [|fuel IH]; intros off cs; [by intros ?%not_elem_of_nil|]. cbn [words].
  destruct (first_word ss cs) as [k n] eqn:Hkn. rw /first_word /= in Hkn. injection Hkn as Hk Hn.
  destruct (decide (k = length cs)) as [E|Hne]; [by intros ?%not_elem_of_nil|].
  pose proof (span_le (sep ss) cs) as Hle. rw Hk in Hle Hn. pose proof (span_le (nonsep ss) (drop k cs)) as Hle'.
  rw Hn length_drop in Hle'. assert (length (take n (drop k cs)) = n) as Hlen by (rw length_take length_drop; lia).
  intros [[= -> ->]|Hin]%elem_of_cons.
  - replace (off + k - off)%nat with k by lia. rw Hlen. split; [lia|]. split; [|split; [|split; [done|]]].
    + destruct n as [|n]; [|by intros E; rw E in Hlen]. exfalso.
      destruct (span_drop_lt (sep ss) cs) as (c & Hc & Hsep); [lia|]. rw Hk in Hc.
      destruct (span_drop_lt (nonsep ss) (drop k cs)) as (d & Hd & Hnon); [rw length_drop Hn; lia|].
      rw Hn lookup_drop Nat.add_0_r in Hd. simplify_eq. by rw not_nonsep Hsep in Hnon.
    + apply Forall_lookup_2. intros i c [Hi Hin]%lookup_take_Some. apply nonsep_true.
      eapply (span_lookup _ (drop k cs) i); [lia|done].
    + intros c Hc. apply dec_stable. intros Hn'. apply nonsep_true in Hn'.
      rw -lookup_drop -Hn in Hc. by rw (span_stop _ _ _ Hc) in Hn'.
  - destruct (decide ((k + n)%nat = length cs)) as [E|Hne']; [by apply not_elem_of_nil in Hin|].
    destruct (IH _ _ Hin) as (H1 & H2 & H3 & H4 & H5). rw drop_drop in H4.
    replace (k + n + 1 + (o - (off + k + n + 1)))%nat with (o - off)%nat in H4 by lia. split; [lia|].
    split_and!; [done..|]. intros c Hc. apply H5. rw lookup_drop. rw -Hc. f_equal. lia.
Qed.

Lemma words_all fuel off cs i c :
  (length cs < fuel)%nat → cs !! i = Some c → c ∉ ss →
  ∃ o w, (o, w) ∈ words fuel off cs ∧ (o ≤ off + i < o + length w)%nat.
Proof.
  revert off cs i. induction fuel as [|fuel IH]; intros off cs i Hf Hi Hc; [lia|]. cbn [words].
  destruct (first_word ss cs) as [k n] eqn:Hkn. rw /first_word /= in Hkn. injection Hkn as Hk Hn.
  apply lookup_lt_Some in Hi as Hlt. pose proof (span_le (sep ss) cs) as Hle. rw Hk in Hle Hn.
  pose proof (span_le (nonsep ss) (drop k cs)) as Hle'. rw Hn length_drop in Hle'.
  assert (length (take n (drop k cs)) = n) as Hlen by (rw length_take length_drop; lia).
  assert (k ≤ i)%nat as Hki.
  { destruct (decide (k ≤ i)%nat) as [|Hgt]; [done|]. destruct Hc. apply sep_true. eapply (span_lookup _ cs i); [lia|done]. }
  rw decide_False; [|lia]. destruct (decide (i < k + n)%nat) as [Hin|Hout].
  { exists (off + k)%nat, (take n (drop k cs)). rw Hlen. split; [left|lia]. }
  destruct (decide (i = k + n)%nat) as [->|Hne].
  { destruct Hc. rw -lookup_drop -Hn in Hi. apply span_stop in Hi. rw not_nonsep in Hi. apply sep_true.
    by destruct (sep ss c). }
  rw decide_False; [|lia]. destruct (IH (off + k + n + 1)%nat (drop (k + n + 1) cs) (i - (k + n + 1))%nat) as (o & w & Hin & Ho).
  - rw length_drop. lia.
  - rw lookup_drop -Hi. f_equal. lia.
  - done.
  - exists o, w. split; [by right|lia].
Qed.

Definition words_of (cs : list Z) : list (nat * list Z) := words (S (length cs)) 0 cs.
Lemma words_divide cs : divides cs (words_of cs).
Proof.
  split.
  - intros o w (_ & ? & ? & H & _)%words_places. by rw Nat.sub_0_r in H.
  - intros o w c (_ & _ & _ & _ & H)%words_places. rw Nat.sub_0_r in H. apply H.
  - intros i c Hi Hc. apply (words_all _ 0 _ _ c); [lia|done|done].
Qed.

(** A word stands at its place. *)
Definition word_at (m : memory) (base r : Z) (w : nat * list Z) : Prop :=
  r = base + Z.of_nat w.1 ∧ string_at m r w.2.

End strtok.

(** ** Comparison *)

(** The character at [i], the terminator after the last one. *)
Definition char_at (cs : list Z) (i : nat) : Z := default 0 (cs !! i).

Lemma char_at_lookup m a cs i : string_at m a cs → (i ≤ length cs)%nat → m !! (a + Z.of_nat i) = Some (char_at cs i).
Proof.
  intros Hs Hi. rw /char_at. destruct (cs !! i) as [c|] eqn:Hc; simpl.
  - by destruct (string_lookup _ _ _ _ _ Hs Hc).
  - apply lookup_ge_None in Hc. replace i with (length cs) by lia. by apply string_end.
Qed.
Lemma char_at_end m a cs i : string_at m a cs → (i ≤ length cs)%nat → char_at cs i = 0 ↔ i = length cs.
Proof.
  intros Hs Hi. rw /char_at. destruct (cs !! i) as [c|] eqn:Hc; simpl.
  - destruct (string_lookup _ _ _ _ _ Hs Hc) as (_ & Hn & _). apply lookup_lt_Some in Hc. split; [done|lia].
  - apply lookup_ge_None in Hc. split; [lia|done].
Qed.

Lemma strcmp_spec m a b cs ds (Q : Z → memory → Prop) :
  string_at m a cs → string_at m b ds → (∀ r, (r = 0 ↔ cs = ds) → Q r m) → wp (strcmp a b) Q m.
Proof.
  intros Ha Hb HQ. rw /strcmp /loop. wp_step. wp_step. wp_step. pose proof (string_size _ _ _ Ha).
  apply (wp_while (λ v p m', m' = m ∧ ∃ i, p = Z.of_nat i ∧ (i + v)%nat = length cs ∧ (i ≤ length ds)%nat ∧
    take i cs = take i ds) _ _ (length cs)); [|lia|].
  { split; [done|]. exists O. split_and!; [done|lia|lia|done]. }
  intros v p m' (-> & i & -> & Hi & Hid & Heq). assert (i ≤ length cs)%nat as Hic by lia.
  assert ((char_at cs i = 0 ∨ char_at cs i ≠ char_at ds i) → wp (x ← lb (a + Z.of_nat i); y ← lb (b + Z.of_nat i);
    mret (if bool_decide (x > y) then 1 else if bool_decide (x = y) then 0 else -1)) Q m) as Hend.
  { intros Hstop. wp_step. eapply wp_lb; [by eapply char_at_lookup|]. wp_step. eapply wp_lb; [by eapply char_at_lookup|].
    apply wp_ret. apply HQ. bd_case (char_at cs i > char_at ds i) as Hgt; [|bd_case (char_at cs i = char_at ds i) as He].
    - split; [done|]. intros E. rw E in Hgt. lia.
    - split; [|done]. intros _. destruct Hstop as [H0|]; [|done].
      pose proof (proj1 (char_at_end _ _ _ _ Ha Hic) H0). rw He in H0. pose proof (proj1 (char_at_end _ _ _ _ Hb Hid) H0).
      by rw !take_ge in Heq; try lia.
    - split; [done|]. intros E. by rw E in He. }
  wp_step. eapply wp_lb; [by eapply char_at_lookup|]. bd_case (char_at cs i ≠ 0) as Hx.
  - wp_step. eapply wp_lb; [by eapply char_at_lookup|]. wp_step. bd_case (char_at cs i = char_at ds i) as He.
    + assert (i ≠ length cs) as Hlt by (intros ->; by apply Hx, (char_at_end _ _ _ _ Ha)).
      assert (i ≠ length ds) as Hlt' by (intros ->; apply Hx; rw He; by apply (char_at_end _ _ _ _ Hb)).
      destruct (lookup_lt_is_Some_2 cs i) as [x Hcx]; [lia|]. destruct (lookup_lt_is_Some_2 ds i) as [y Hdy]; [lia|].
      exists (v - 1)%nat. split; [lia|]. split; [done|]. exists (S i). split_and!; [lia|lia|lia|].
      rw (take_S_r _ _ _ Hcx) (take_S_r _ _ _ Hdy) Heq. rw /char_at Hcx Hdy /= in He. by subst.
    + apply Hend. by right.
  - wp_step. apply Hend. left. by apply dec_stable.
Qed.
