(* ===== verification/Menu.v ===== *)
(** * The command line of the kernel menu: kern/main/menu.c

    [cmd_dispatch] cuts a command into words with [strtok_r] and calls the
    function that the command table has under the first word.  The functions
    of the table are arguments. *)

From stdpp Require Import base tactics list gmap option numbers ssreflect.
From S2P Require Import Prelude Kern CopyInOut LibcMem LibcStr.

Open Scope Z_scope.

Definition MAXMENUARGS : nat := 16.

(** [args], or [E2BIG]; [seps] is the literal with the separators and
    [context] what the uninitialised variable holds.  One round per word. *)
Definition cmd_words (seps context cmd : Z) : M memory (Z + list Z) :=
  r ← strtok_r cmd seps context;
  while (S (S MAXMENUARGS)) (r.1, r.2, []) (λ '(word, context, args),
    if bool_decide (word = 0) then mret (inr (inr args))
    else if bool_decide (MAXMENUARGS ≤ length args)%nat then mret (inr (inl E2BIG))
    else r ← strtok_r 0 seps context; mret (inl (r.1, r.2, args ++ [word]))).

(** An entry: the address of the name, and the function, [None] for NULL. *)
Abbreviation command := (Z * option (list Z → M memory Z))%type.

Fixpoint find_command (table : list command) (word : Z) : M memory (option (list Z → M memory Z)) :=
  match table with
  | [] => mret None
  | (name, func) :: table' =>
      c ← lb name;
      if bool_decide (c ≠ 0) then
        r ← strcmp word name;
        if bool_decide (r = 0) then kassert (bool_decide (is_Some func));; mret func
        else find_command table' word
      else find_command table' word
  end.

Definition cmd_dispatch (table : list command) (seps context cmd : Z) : M memory Z :=
  r ← cmd_words seps context cmd;
  match r with
  | inl result => mret result
  | inr [] => mret 0
  | inr ((word :: _) as args) =>
      f ← find_command table word;
      match f with
      | Some func => func args
      | None => mret EINVAL
      end
  end.

(** ** Cutting the command *)

Section cut.
Context (cmd seps : Z) (cs ss : list Z) (Hcmd : 0 < cmd) (Hseps : 0 < seps).

(** Bytes outside [lo, length cs] of the command's block are as they were. *)
Definition kept (lo : nat) (m m' : memory) : Prop :=
  ∀ x, x < cmd + Z.of_nat lo ∨ cmd + Z.of_nat (length cs) < x → m' !! x = m !! x.

Lemma kept_le lo lo' m m' : (lo' ≤ lo)%nat → kept lo m m' → kept lo' m m'.
Proof. intros Hle Hk x [?|?]; apply Hk; lia. Qed.
Lemma kept_trans lo m1 m2 m3 : kept lo m1 m2 → kept lo m2 m3 → kept lo m1 m3.
Proof. intros H1 H2 x Hx. rw H2 //. by apply H1. Qed.

Lemma string_kept m m' a l : string_at m a l → (∀ x, a ≤ x ≤ a + Z.of_nat (length l) → m' !! x = m !! x) → string_at m' a l.
Proof.
  intros (H0 & Hb & Hat) Hx. split; [done|]. split; [done|]. apply (bytes_at_same m); [|done].
  intros x. rw length_app /=. intros. apply Hx. lia.
Qed.

(** A terminator in the middle. *)
Lemma string_cut m a l n : string_at m a l → (n < length l)%nat → string_at (<[a + Z.of_nat n := 0]> m) a (take n l).
Proof.
  intros (H0 & Hb & Hat) Hn. split.
  { intros [i [Hi _]%lookup_take_Some]%list_elem_of_lookup_1. by eapply H0, list_elem_of_lookup_2. }
  split; [by apply Forall_take|]. rw !bytes_at_lookup in Hat |- *. intros i b Hi.
  apply lookup_app_Some in Hi as [Hi|[Hge Hi]].
  - apply lookup_take_Some in Hi as [Hi Hlt]. rw lookup_insert_ne; [|lia]. apply Hat. by apply lookup_app_l_Some.
  - rw length_take in Hge Hi. apply list_lookup_singleton_Some in Hi as [Hi ->].
    replace i with n by lia. apply lookup_insert_eq.
Qed.

(** Words that end before [hi] stay. *)
Lemma word_kept hi m m' r w : word_at m cmd r w → (w.1 + length w.2 < hi)%nat → kept hi m m' → word_at m' cmd r w.
Proof.
  intros [-> Hs] Hhi Hk. split; [done|]. eapply string_kept; [done|]. intros x Hx. apply Hk. lia.
Qed.

Lemma words_kept hi m m' args ws :
  Forall2 (word_at m cmd) args ws → Forall (λ w, w.1 + length w.2 < hi)%nat ws → kept hi m m' →
  Forall2 (word_at m' cmd) args ws.
Proof.
  induction 1 as [|r w args ws Hw _ IH]; intros Hends Hk; [done|]. apply Forall_cons in Hends as [Hw' Hends].
  constructor; [by eapply word_kept|by apply IH].
Qed.

(** The separators are elsewhere. *)
Definition apart : Prop := seps + Z.of_nat (length ss) < cmd ∨ cmd + Z.of_nat (length cs) < seps.
Context (Hapart : apart).

Lemma seps_kept m m' : string_at m seps ss → kept 0 m m' → string_at m' seps ss.
Proof. intros Hs Hk. eapply string_kept; [done|]. intros x Hx. apply Hk. destruct Hapart; lia. Qed.

(** What [*context] stands for: nothing, or the part of the command from [off]
    on, with the words [todo]. *)
Definition context_ok (m : memory) (hi : nat) (ctx : Z) (todo : list (nat * list Z)) : Prop :=
  (ctx = 0 ∧ todo = []) ∨
  ∃ off fuel, ctx = cmd + Z.of_nat off ∧ (hi ≤ off ≤ length cs)%nat ∧ string_at m ctx (drop off cs) ∧
    (length cs - off < fuel)%nat ∧ todo = words ss fuel off (drop off cs).

(** The outcome of a call of [strtok_r]. *)
Definition got_word (m : memory) (hi : nat) (todo : list (nat * list Z)) (r : Z * Z) (m' : memory) : Prop :=
  kept hi m m' ∧
  match todo with
  | [] => r.1 = 0
  | w :: todo' => r.1 ≠ 0 ∧ (hi ≤ w.1)%nat ∧ word_at m' cmd r.1 w ∧ context_ok m' (w.1 + length w.2 + 1) r.2 todo'
  end.

Lemma next_word m string context off fuel hi :
  cmd + Z.of_nat off = (if bool_decide (string ≠ 0) then string else context) →
  (hi ≤ off ≤ length cs)%nat → string_at m (cmd + Z.of_nat off) (drop off cs) → (length cs - off < fuel)%nat →
  string_at m seps ss →
  wp (strtok_r string seps context) (got_word m hi (words ss fuel off (drop off cs))) m.
Proof.
  intros Hp Hoff Hs Hfuel Hss. destruct fuel as [|fuel]; [lia|]. eapply strtok_r_spec; [done|lia|done..|]. cbn [words].
  destruct (first_word ss (drop off cs)) as [k n] eqn:Hkn. rw length_drop.
  assert (k ≤ length cs - off ∧ n ≤ length cs - off - k)%nat as [Hk Hn].
  { rw /first_word /= in Hkn. simplify_eq. split; [rw -length_drop; apply span_le|]. etrans; [apply span_le|]. by rw !length_drop. }
  destruct (decide (k = length cs - off)%nat) as [E|Hne]; [by split|].
  assert (length (take n (drop k (drop off cs))) = n) as Hlen by (rw length_take !length_drop; lia).
  assert (k ≤ length (drop off cs))%nat as Hk' by (rw length_drop; lia). pose proof (string_drop _ _ _ _ Hk' Hs) as Hd. rw drop_drop in Hlen Hd |- *.
  replace (cmd + Z.of_nat off + Z.of_nat k) with (cmd + Z.of_nat (off + k)) in * by lia.
  destruct (decide ((k + n)%nat = (length cs - off)%nat)) as [E|Hne'].
  - split; [done|]. split; [simpl; lia|]. split; [simpl; lia|]. split; [|by left].
    split; [done|]. simpl. by rw take_ge; [|rw length_drop; lia].
  - replace (cmd + Z.of_nat off + Z.of_nat (k + n)) with (cmd + Z.of_nat (off + k) + Z.of_nat n) by lia. split.
    { intros x Hx. rw lookup_insert_ne //. lia. }
    split; [simpl; lia|]. split; [simpl; lia|]. split; [split; [done|]|].
    + simpl. apply string_cut; [done|]. rw length_drop. lia.
    + right. exists (off + k + n + 1)%nat, fuel. cbn [fst snd]. rw Hlen drop_drop.
      split; [lia|]. split; [lia|]. split; [|split; [lia|by f_equal; f_equal; lia]].
      replace (cmd + Z.of_nat (off + k) + Z.of_nat n + 1) with (cmd + Z.of_nat off + Z.of_nat (k + n + 1)) by lia.
      replace (off + k + n + 1)%nat with (off + (k + n + 1))%nat by lia. rw -drop_drop.
      eapply string_kept; [apply string_drop; [rw length_drop; lia|done]|]. intros x Hx. rw lookup_insert_ne //. lia.
Qed.

(** The call that goes on from [*context]. *)
Lemma next_call m ctx hi todo :
  context_ok m hi ctx todo → string_at m seps ss → wp (strtok_r 0 seps ctx) (got_word m hi todo) m.
Proof.
  intros [[-> ->]|(off & fuel & -> & Hoff & Hs & Hfuel & ->)] Hss; [by split|]. by apply next_word.
Qed.

(** The loop: the words found so far, and the one to look at. *)
Definition collecting (m : memory) (ws : list (nat * list Z)) (v : nat) (l : Z * Z * list Z) (m' : memory) : Prop :=
  let '(word, ctx, args) := l in
  ∃ found todo hi, ws = found ++ todo ∧ kept 0 m m' ∧ Forall2 (word_at m' cmd) args found ∧
    Forall (λ w, w.1 + length w.2 < hi)%nat found ∧ got_word m' hi todo (word, ctx) m' ∧
    (length args + v)%nat = S MAXMENUARGS ∧ (0 < v)%nat.

Lemma cmd_words_spec m context :
  string_at m cmd cs → string_at m seps ss →
  let ws := words_of ss cs in
  wp (cmd_words seps context cmd) (λ r m', kept 0 m m' ∧ match r with
    | inl e => e = E2BIG ∧ (MAXMENUARGS < length ws)%nat
    | inr args => (length ws ≤ MAXMENUARGS)%nat ∧ Forall2 (word_at m' cmd) args ws
    end) m.
Proof.
  intros Hs Hss ws. rw /cmd_words. wp_step. eapply wp_mono.
  { apply (next_word m cmd context 0 (S (length cs)) 0); [by rw bool_decide_eq_true_2; lia|lia|by rw Z.add_0_r|lia|done]. }
  rw drop_0. fold (words_of ss cs). fold ws. intros [word ctx] m1 [Hk1 Hw]. cbn [fst snd].
  apply (wp_while (collecting m ws) _ _ (S MAXMENUARGS)); [|lia|].
  { exists [], ws, O. split_and!; try done. lia. }
  clear word ctx Hw m1 Hk1. intros v [[word ctx] args] m1 (found & todo & hi & E & Hk & Hargs & Hends & [_ Hw] & Hv & Hpos).
  pose proof (Forall2_length _ _ _ Hargs) as Hlen. destruct todo as [|w todo].
  - rw app_nil_r in E. simpl in Hw. rw Hw bool_decide_eq_true_2 //. wp_step. rw E. split_and!; [done|lia|done].
  - destruct Hw as (Hne & Hhi & Hw & Hctx). simpl in Hne. rw bool_decide_eq_false_2; [|done].
    bd_case (MAXMENUARGS ≤ length args)%nat as Hmax.
    { wp_step. split_and!; [done|done|]. rw E length_app /=. lia. }
    wp_step. eapply wp_mono; [apply next_call; [done|by eapply seps_kept]|]. intros [word' ctx'] m2 [Hk2 Hw2]. wp_step.
    exists (v - 1)%nat. split; [lia|]. exists (found ++ [w]), todo, (w.1 + length w.2 + 1)%nat.
    assert (kept 0 m1 m2) as Hk2' by (eapply kept_le; [|done]; lia).
    split; [by rw -assoc_L|]. split; [by eapply kept_trans|]. split.
    { apply Forall2_app; [|constructor; [|done]; eapply (word_kept (w.1 + length w.2 + 1)); [done|lia|done]].
      eapply (words_kept hi); [done|done|]. eapply kept_le; [|exact Hk2]. lia. }
    split; [apply Forall_app; split; [eapply Forall_impl; [done|]; intros x Hx; simpl in *; lia|constructor; [lia|done]]|].
    split; [split; [done|exact Hw2]|]. rw length_app /=. lia.
Qed.
End cut.

(** ** Choosing the command *)

(** The function of the first entry that has the word as its name. *)
Fixpoint chosen {F} (table : list F) (names : list (list Z)) (w : list Z) : option F :=
  match table, names with
  | f :: table', nm :: names' => if decide (nm ≠ [] ∧ w = nm) then Some f else chosen table' names' w
  | _, _ => None
  end.

Lemma find_command_spec m (table : list command) names word w (Q : option (list Z → M memory Z) → memory → Prop) :
  Forall2 (λ e nm, string_at m e.1 nm) table names → string_at m word w →
  (∀ e, e ∈ table → is_Some e.2) → Q (chosen table names w ≫= snd) m → wp (find_command table word) Q m.
Proof.
  intros Hn Hw. induction Hn as [|[name func] nm table names Hnm _ IH]; cbn [find_command chosen fst]; intros Hf HQ; [by wp_step|].
  assert (∀ e, e ∈ table → is_Some e.2) as Hf' by (intros e He; apply Hf; by right).
  wp_step. eapply wp_lb; [rw -(Z.add_0_r name); eapply (char_at_lookup _ _ nm 0); [done|lia]|].
  pose proof (char_at_end _ _ nm 0 Hnm ltac:(lia)) as Hend. bd_case (char_at nm 0 ≠ 0) as Hne.
  - assert (nm ≠ []) as Hnn by by intros ->. wp_step. eapply strcmp_spec; [done|done|]. intros r Hr.
    bd_case (r = 0) as Hz.
    + apply Hr in Hz. rw decide_True // in HQ. pose proof (Hf (name, func) ltac:(left)) as [f Hfunc]. simpl in Hfunc.
      subst func. wp_step. wp_step; [by apply bool_decide_eq_true_2; eexists|]. by wp_step.
    + apply IH; [done|]. rw decide_False // in HQ. intros [_ ?]. by apply Hz, Hr.
  - apply dec_stable in Hne. apply Hend in Hne. apply IH; [done|]. rw decide_False // in HQ. intros [Hnn _].
    destruct nm; [by apply Hnn|done].
Qed.

(** C29: the menu's command line.  On a command string, with the separators and
    the names of the table somewhere else in memory: the words of the command
    are exactly its maximal blocks without separators; a command of more than
    16 words is refused with [E2BIG]; one without words does nothing and
    returns 0; otherwise the function of the first entry whose name is the
    first word is called, with all the words, in order, as strings (cut off in
    place by terminators), and its result returned; [EINVAL] when no entry has
    that name.  No byte outside the command has changed when the function is
    called, no unmapped byte is touched and every loop ends. *)
Theorem menu_command_line (table : list command) names seps ss context cmd cs m :
  0 < cmd → 0 < seps → string_at m cmd cs → string_at m seps ss →
  seps + Z.of_nat (length ss) < cmd ∨ cmd + Z.of_nat (length cs) < seps →
  Forall2 (λ e nm, string_at m e.1 nm ∧ (e.1 + Z.of_nat (length nm) < cmd ∨ cmd + Z.of_nat (length cs) < e.1)) table names →
  (∀ e, e ∈ table → is_Some e.2) →
  let ws := words_of ss cs in
  divides ss cs ws ∧
  ∀ Q : Z → memory → Prop,
    (∀ m', (∀ x, x < cmd ∨ cmd + Z.of_nat (length cs) < x → m' !! x = m !! x) →
      if decide (MAXMENUARGS < length ws)%nat then Q E2BIG m'
      else ∀ args, Forall2 (word_at m' cmd) args ws →
        match ws with
        | [] => Q 0 m'
        | w :: _ => match chosen table names w.2 ≫= snd with Some func => wp (func args) Q m' | None => Q EINVAL m' end
        end) →
    wp (cmd_dispatch table seps context cmd) Q m.
Proof.
  intros Hcmd Hseps Hcs Hss Hapart Hnames Hfuncs ws. split; [apply words_divide|]. intros Q HQ. rw /cmd_dispatch. wp_step.
  eapply wp_mono; [by apply (cmd_words_spec cmd seps cs ss)|]. intros r m' [Hk Hr]. fold ws in Hr.
  assert (∀ x, x < cmd ∨ cmd + Z.of_nat (length cs) < x → m' !! x = m !! x) as Hout by (intros x Hx; apply Hk; lia).
  specialize (HQ m' Hout). destruct r as [e|args]; [destruct Hr as [-> Hlen]; by rw decide_True in HQ|].
  destruct Hr as [Hlen Hargs]. rw decide_False in HQ; [|lia]. specialize (HQ args Hargs).
  destruct Hargs as [|word w args ws' [_ Hword] Hargs]; [by wp_step|]. wp_step.
  eapply find_command_spec; [|exact Hword|done|].
  - eapply Forall2_impl; [done|]. intros e nm [Hs Hx]. eapply string_kept; [done|]. intros x Hrange. apply Hout. lia.
  - revert HQ. destruct (chosen table names w.2 ≫= snd) as [func|]; intros HQ; [done|by wp_step].
Qed.

(** ** Witness *)

(** The command "p a b" at 100, " " at 50, and the table { "q", "p" } at 60 and
    70; the function of "p" returns the number of its arguments. *)
Definition menu_memory : memory :=
  list_to_map ([(50, 32); (51, 0); (60, 113); (61, 0); (70, 112); (71, 0)] ++ zip (seqZ 100 6) [112; 32; 97; 32; 98; 0]).
Definition menu_table : list command := [(60, Some (λ _, mret 0)); (70, Some (λ args, mret (Z.of_nat (length args))))].

Lemma string_intro m a cs : Forall (λ c, c ≠ 0 ∧ byte c) cs → bytes_at m a (cs ++ [0]) → string_at m a cs.
Proof.
  intros Hc Hat. split; [|split; [|done]].
  - intros Hin. by apply (Forall_forall (λ c, c ≠ 0 ∧ byte c) cs) with (x := 0) in Hc as [].
  - eapply Forall_impl; [done|]. by intros c [].
Qed.

Lemma menu_command_line_witness :
  wp (cmd_dispatch menu_table 50 0 100) (λ r _, r = 3) menu_memory.
Proof.
  assert (∀ cs, forallb (λ c, (0 <? c) && (c <? 256)) cs = true → Forall (λ c, c ≠ 0 ∧ byte c) cs) as Hchars.
  { intros cs H. apply Forall_forall. intros c Hc. rewrite -Is_true_true forallb_True Forall_forall in H.
    specialize (H c Hc). rewrite /byte. destruct (0 <? c) eqn:E1, (c <? 256) eqn:E2; try done. lia. }
  refine (proj2 (menu_command_line menu_table [[113]; [112]] 50 [32] 0 100 [112; 32; 97; 32; 98] menu_memory _ _ _ _ _ _ _) _ _).
  - lia.
  - lia.
  - apply string_intro; [by apply Hchars|by vm_compute].
  - apply string_intro; [by apply Hchars|by vm_compute].
  - left. simpl. lia.
  - repeat apply Forall2_cons_2; [..|apply Forall2_nil_2]; (split; [|left; simpl; lia]);
      (apply string_intro; [by apply Hchars|by vm_compute]).
  - intros e [->|[->|He%not_elem_of_nil]%elem_of_cons]%elem_of_cons; [by eexists|by eexists|done].
  - intros m' _. assert (words_of [32] [112; 32; 97; 32; 98] = [(0%nat, [112]); (2%nat, [97]); (4%nat, [98])]) as -> by by vm_compute.
    assert (chosen menu_table [[113]; [112]] [112] = Some (70, Some (λ args, mret (Z.of_nat (length args))))) as E by by vm_compute.
    intros args Hargs. apply Forall2_length in Hargs. cbn [fst snd]. rewrite E. cbn. apply wp_ret. by rewrite Hargs.
Defined.
