(* ===== verification/Lhd.v ===== *)
(** * The LAMEbus disk driver, kern/dev/lamebus/lhd.c

    [lhd_io] moves whole sectors between a [uio] and the disk: it takes the
    device ([lh_clear]), exchanges one sector at a time with the on-card buffer
    and sleeps on [lh_done] until the interrupt handler [lhd_irq] has posted the
    result.  A sector is its 128 words of 32 bits.

    The hardware is a parameter: the interrupts it will raise are the list
    [irqs] of the status codes [lhd_irq] is going to read; what a write that
    ends in a media error leaves on the sector is [media_fault]. *)

From stdpp Require Import base tactics list gmap option numbers ssreflect.
From S2P Require Import Prelude Kern Uio.

Open Scope Z_scope.

(** ** Registers, codes and state *)

Definition LHD_SECTSIZE : Z := 512.
Definition LHD_REG_STAT : Z := 4.
Definition LHD_REG_SECT : Z := 8.

Definition LHD_IDLE : Z := 0.
Definition LHD_WORKING : Z := 1.
Definition LHD_OK : Z := 4.
Definition LHD_INVSECT : Z := 12.
Definition LHD_MEDIA : Z := 20.
Definition LHD_ISWRITE : Z := 2.
Definition LHD_STATEMASK : Z := 29.

Definition EAGAIN : Z := 4.
Definition EIO : Z := 32.

(** What is on a sector after a write to it has failed: a function of the old
    contents and of what was to be written. *)
Class Hardware := media_fault : list Z → list Z → list Z.

(** [struct lhd_softc]; [lh_clear] and [lh_done] are the counts of its
    semaphores, the two registers and [lh_buf] are on the card. *)
Record lhd := Lhd {
  d_blocks : Z;
  lh_clear : Z;
  lh_done : Z;
  lh_result : Z;
  reg_stat : Z;
  reg_sect : Z;
  lh_buf : list Z;
  sectors : gmap Z (list Z);
  irqs : list Z
}.

Definition set_clear n (d : lhd) :=
  Lhd (d_blocks d) n (lh_done d) (lh_result d) (reg_stat d) (reg_sect d) (lh_buf d) (sectors d) (irqs d).
Definition set_done n (d : lhd) :=
  Lhd (d_blocks d) (lh_clear d) n (lh_result d) (reg_stat d) (reg_sect d) (lh_buf d) (sectors d) (irqs d).
Definition set_result n (d : lhd) :=
  Lhd (d_blocks d) (lh_clear d) (lh_done d) n (reg_stat d) (reg_sect d) (lh_buf d) (sectors d) (irqs d).
Definition set_buf l (d : lhd) :=
  Lhd (d_blocks d) (lh_clear d) (lh_done d) (lh_result d) (reg_stat d) (reg_sect d) l (sectors d) (irqs d).
Definition set_irqs l (d : lhd) :=
  Lhd (d_blocks d) (lh_clear d) (lh_done d) (lh_result d) (reg_stat d) (reg_sect d) (lh_buf d) (sectors d) l.
Definition set_sectors (f : gmap Z (list Z) → gmap Z (list Z)) (d : lhd) :=
  Lhd (d_blocks d) (lh_clear d) (lh_done d) (lh_result d) (reg_stat d) (reg_sect d) (lh_buf d) (f (sectors d)) (irqs d).

(** [lhd_wreg] and [lhd_rdreg]. *)
Definition lhd_wreg (reg val : Z) : M lhd unit := modify (λ d,
  if bool_decide (reg = LHD_REG_STAT) then
    Lhd (d_blocks d) (lh_clear d) (lh_done d) (lh_result d) val (reg_sect d) (lh_buf d) (sectors d) (irqs d)
  else if bool_decide (reg = LHD_REG_SECT) then
    Lhd (d_blocks d) (lh_clear d) (lh_done d) (lh_result d) (reg_stat d) val (lh_buf d) (sectors d) (irqs d)
  else d).
Definition lhd_rdreg (reg : Z) : M lhd Z := gets (λ d,
  if bool_decide (reg = LHD_REG_STAT) then reg_stat d
  else if bool_decide (reg = LHD_REG_SECT) then reg_sect d else d_blocks d).

(** ** Completion *)

Definition lhd_code_to_errno (code : Z) : Z :=
  let st := Z.land code LHD_STATEMASK in
  if bool_decide (st = LHD_OK) then 0
  else if bool_decide (st = LHD_INVSECT) then EINVAL
  else if bool_decide (st = LHD_MEDIA) then EIO
  else EAGAIN.

Definition lhd_iodone (err : Z) : M lhd unit :=
  modify (set_result err);;
  modify (λ d, set_done (lh_done d + 1) d).          (* V(lh->lh_done) *)

Definition lhd_irq : M lhd unit :=
  val ← lhd_rdreg LHD_REG_STAT;
  let st := Z.land val LHD_STATEMASK in
  if bool_decide (st = LHD_OK ∨ st = LHD_INVSECT ∨ st = LHD_MEDIA) then
    lhd_wreg LHD_REG_STAT 0;;
    lhd_iodone (lhd_code_to_errno val)
  else mret tt.

(** ** Transfers *)

(** A [uio] for one block of kernel memory: [ku_mem] is the memory, the first
    [ku_pos] words of which have been moved. *)
Record kuio := Kuio {
  ku_mem : list Z;
  ku_pos : nat;
  ku_offset : Z;
  ku_resid : Z;
  ku_rw : uio_rw
}.

Section hw.
Context `{!Hardware}.

(** The card, when it raises an interrupt with status [c]: the sector has been
    transferred when it reports [LHD_OK], and [LHD_ISWRITE] is still in the
    register. *)
Definition card (c : Z) (d : lhd) : lhd :=
  let st := Z.land c LHD_STATEMASK in
  let with_stat st d :=
    Lhd (d_blocks d) (lh_clear d) (lh_done d) (lh_result d) (Z.lor st (Z.land (reg_stat d) LHD_ISWRITE)) (reg_sect d) (lh_buf d) (sectors d) (irqs d) in
  if bool_decide (st = LHD_OK ∨ st = LHD_MEDIA) then
    match sectors d !! reg_sect d with
    | None => with_stat LHD_INVSECT d
    | Some old =>
        with_stat st (
          if bool_decide (Z.land (reg_stat d) LHD_ISWRITE ≠ 0) then
            set_sectors <[reg_sect d := if bool_decide (st = LHD_OK) then lh_buf d else media_fault old (lh_buf d)]> d
          else if bool_decide (st = LHD_OK) then set_buf old d else d)
    end
  else with_stat st d.

(** [P(lh->lh_clear)]; [P(lh->lh_done)], during which the interrupts arrive. *)
Definition clear_wchan : loc := 1%positive.
Definition done_wchan : loc := 2%positive.

Definition P_clear : M lhd unit :=
  n ← gets lh_clear;
  if bool_decide (n > 0) then modify (set_clear (n - 1)) else stops (Asleep clear_wchan).
Definition V_clear : M lhd unit := modify (λ d, set_clear (lh_clear d + 1) d).

Fixpoint wait_done (l : list Z) : M lhd unit :=
  n ← gets lh_done;
  if bool_decide (n > 0) then modify (set_done (n - 1))
  else
    match l with
    | [] => stops (Asleep done_wchan)
    | c :: l' => modify (λ d, card c (set_irqs l' d));; lhd_irq;; wait_done l'
    end.
Definition P_done : M lhd unit := l ← gets irqs; wait_done l.

(** [uiomove(lh->lh_buf, LHD_SECTSIZE, uio)] on such a [uio]: it moves a sector
    or what is left of the block, and always succeeds. *)
Definition uiomove_sector (u : kuio) : M lhd kuio :=
  buf ← gets lh_buf;
  let n := Z.min LHD_SECTSIZE (ku_resid u) in
  let w := Z.to_nat (n / 4) in
  let account mem := Kuio mem (ku_pos u + w) (s64 (ku_offset u + n)) (u32 (ku_resid u - n)) (ku_rw u) in
  match ku_rw u with
  | UIO_WRITE =>
      modify (set_buf (take w (drop (ku_pos u) (ku_mem u)) ++ drop w buf));;
      mret (account (ku_mem u))
  | UIO_READ =>
      mret (account (take (ku_pos u) (ku_mem u) ++ take w buf ++ drop (ku_pos u + w) (ku_mem u)))
  end.

(** One sector: the body of the loop of [lhd_io]. *)
Definition lhd_sector (sector statval i : Z) (u : kuio) : M lhd (Z * kuio) :=
  P_clear;;
  u ← (match ku_rw u with UIO_WRITE => uiomove_sector u | UIO_READ => mret u end);
  lhd_wreg LHD_REG_SECT (u32 (sector + i));;
  lhd_wreg LHD_REG_STAT statval;;
  P_done;;
  result ← gets lh_result;
  u ← (if bool_decide (result = 0 ∧ ku_rw u = UIO_READ) then uiomove_sector u else mret u);
  V_clear;;
  mret (result, u).

Definition lhd_io (u : kuio) : M lhd (Z * kuio) :=
  let sector := u32 (Z.quot (ku_offset u) LHD_SECTSIZE) in
  let sectoff := u32 (Z.rem (ku_offset u) LHD_SECTSIZE) in
  let len := ku_resid u / LHD_SECTSIZE in
  let lenoff := ku_resid u mod LHD_SECTSIZE in
  if bool_decide (sectoff ≠ 0 ∨ lenoff ≠ 0) then mret (EINVAL, u)
  else
    blocks ← gets d_blocks;
    if bool_decide (u32 (sector + len) > blocks) then mret (EINVAL, u)
    else
      let statval := if bool_decide (ku_rw u = UIO_WRITE) then Z.lor LHD_WORKING LHD_ISWRITE else LHD_WORKING in
      while (S (Z.to_nat len)) (0, u) (λ '(i, u),
        if negb (bool_decide (i < len)) then mret (inr (0, u))
        else
          r ← lhd_sector sector statval i u;
          let '(result, u) := r in
          if bool_decide (result ≠ 0) then mret (inr (result, u)) else mret (inl (i + 1, u))).
End hw.

(** ** What the interrupts will say *)

Definition quiet (c : Z) : Prop :=
  Z.land c LHD_STATEMASK ∉ [LHD_OK; LHD_INVSECT; LHD_MEDIA].

(** The coming completions have the statuses [sts], whatever other interrupts
    arrive in between; [rest] come after them. *)
Fixpoint arrivals (l : list Z) (sts : list Z) (rest : list Z) : Prop :=
  match sts with
  | [] => l = rest
  | st :: sts' => ∃ q c l', l = q ++ c :: l' ∧ Forall quiet q ∧ Z.land c LHD_STATEMASK = st ∧ arrivals l' sts' rest
  end.

(** The driver at rest, every sector there. *)
Record at_rest (d : lhd) : Prop := {
  r_clear : lh_clear d = 1;
  r_done : lh_done d = 0;
  r_blocks : 0 ≤ d_blocks d < 2 ^ 31;
  r_buf : length (lh_buf d) = 128%nat;
  r_sectors : ∀ b, 0 ≤ b < d_blocks d → ∃ l, sectors d !! b = Some l ∧ length l = 128%nat
}.

(** A [uio] for a whole block. *)
Definition block_uio (mem : list Z) (block : Z) (rw : uio_rw) : kuio :=
  Kuio mem 0 (block * LHD_SECTSIZE) LHD_SECTSIZE rw.
Definition moved (mem : list Z) (block : Z) (rw : uio_rw) : kuio :=
  Kuio mem 128 (block * LHD_SECTSIZE + LHD_SECTSIZE) 0 rw.

Section spec.
Context `{!Hardware}.

Lemma stat_bits c r :
  Z.land (Z.lor (Z.land c LHD_STATEMASK) (Z.land r LHD_ISWRITE)) LHD_STATEMASK = Z.land c LHD_STATEMASK ∧
  Z.land (Z.lor (Z.land c LHD_STATEMASK) (Z.land r LHD_ISWRITE)) LHD_ISWRITE = Z.land r LHD_ISWRITE.
Proof.
  rw !Z.land_lor_distr_l -!Z.land_assoc.
  assert (Z.land LHD_STATEMASK LHD_STATEMASK = LHD_STATEMASK) as -> by done.
  assert (Z.land LHD_ISWRITE LHD_ISWRITE = LHD_ISWRITE) as -> by done.
  assert (Z.land LHD_STATEMASK LHD_ISWRITE = 0) as -> by done.
  assert (Z.land LHD_ISWRITE LHD_STATEMASK = 0) as -> by done.
  by rw !Z.land_0_r Z.lor_0_r Z.lor_0_l.
Qed.

(** The device when the operation in progress has ended with status [st]. *)
Definition ended (st : Z) (rest : list Z) (d : lhd) : lhd :=
  let write := bool_decide (Z.land (reg_stat d) LHD_ISWRITE ≠ 0) in
  let old := default [] (sectors d !! reg_sect d) in
  Lhd (d_blocks d) (lh_clear d) 0 (lhd_code_to_errno st) 0 (reg_sect d)
    (if bool_decide (st = LHD_OK) && negb write then old else lh_buf d)
    (if write then
       if bool_decide (st = LHD_OK) then <[reg_sect d := lh_buf d]> (sectors d)
       else if bool_decide (st = LHD_MEDIA) then <[reg_sect d := media_fault old (lh_buf d)]> (sectors d)
       else sectors d
     else sectors d) rest.

Lemma card_quiet c l d : quiet c →
  card c (set_irqs l d) = Lhd (d_blocks d) (lh_clear d) (lh_done d) (lh_result d)
    (Z.lor (Z.land c LHD_STATEMASK) (Z.land (reg_stat d) LHD_ISWRITE)) (reg_sect d) (lh_buf d) (sectors d) l.
Proof. intros Hq. rw /card bool_decide_eq_false_2 //. intros Hs. apply Hq. set_solver. Qed.

Lemma card_end c rest st d :
  is_Some (sectors d !! reg_sect d) → Z.land c LHD_STATEMASK = st →
  st ∈ [LHD_OK; LHD_INVSECT; LHD_MEDIA] →
  card c (set_irqs rest d) = Lhd (d_blocks d) (lh_clear d) (lh_done d) (lh_result d)
    (Z.lor st (Z.land (reg_stat d) LHD_ISWRITE)) (reg_sect d)
    (lh_buf (ended st rest d)) (sectors (ended st rest d)) rest.
Proof.
  intros [old Hold] Hst Hin. rw /card Hst /ended /= Hold /=.
  rw !elem_of_cons elem_of_nil in Hin. destruct Hin as [->|[->|[->|[]]]]; simpl;
    by destruct (bool_decide (Z.land (reg_stat d) LHD_ISWRITE ≠ 0)).
Qed.

Lemma errno_mask c : lhd_code_to_errno c = lhd_code_to_errno (Z.land c LHD_STATEMASK).
Proof. by rw /lhd_code_to_errno -Z.land_assoc. Qed.

Lemma wait_done_spec q c rest st d (Q : unit → lhd → Prop) :
  lh_done d = 0 → is_Some (sectors d !! reg_sect d) → Forall quiet q →
  Z.land c LHD_STATEMASK = st → st ∈ [LHD_OK; LHD_INVSECT; LHD_MEDIA] →
  Q tt (ended st rest d) → wp (wait_done (q ++ c :: rest)) Q d.
Proof.
  revert d. induction q as [|c' q IH]; intros d Hd Hold Hq Hst Hin HQ; simpl.
  - wp_step. wp_step. rw Hd /=. wp_step. wp_step. rw (card_end c rest st d Hold Hst Hin).
    rw /lhd_irq /lhd_rdreg. wp_step. wp_step. wp_step. simpl.
    destruct (stat_bits c (reg_stat d)) as [Hb _]. rw Hst in Hb. rw Hb.
    rw bool_decide_eq_true_2; [|set_solver].
    wp_step. rw /lhd_wreg. wp_step. simpl. rw /lhd_iodone. wp_step. wp_step. wp_step. simpl.
    rw errno_mask Hb Hd.
    assert (∀ l e, lh_done e = 1 → Q tt (set_done 0 e) → wp (wait_done l) Q e) as Hfin.
    { intros [|? ?] e He Hq'; simpl; wp_step; wp_step; rw He /=; by wp_step. }
    by apply Hfin.
  - apply Forall_cons in Hq as [Hq' Hq]. wp_step. wp_step. rw Hd /=. wp_step. wp_step.
    rw card_quiet //. rw /lhd_irq /lhd_rdreg. wp_step. wp_step. wp_step. simpl.
    destruct (stat_bits c' (reg_stat d)) as [Hb1 Hb2]. rw Hb1.
    rw bool_decide_eq_false_2; [|intros Hs; apply Hq'; set_solver]. apply wp_ret.
    apply IH; simpl; try done. move: HQ. by rw /ended /= Hb2.
Qed.

(** The device and the [uio] after an attempt to transfer block [b] that ends
    with status [st]. *)
Definition attempt (rw : uio_rw) (st : Z) (mem : list Z) (b : Z) (rest : list Z) (d : lhd) : lhd :=
  let old := default [] (sectors d !! b) in
  Lhd (d_blocks d) 1 0 (lhd_code_to_errno st) 0 b
    (match rw with UIO_WRITE => mem | UIO_READ => if bool_decide (st = LHD_OK) then old else lh_buf d end)
    (match rw with
     | UIO_READ => sectors d
     | UIO_WRITE =>
         if bool_decide (st = LHD_OK) then <[b := mem]> (sectors d)
         else if bool_decide (st = LHD_MEDIA) then <[b := media_fault old mem]> (sectors d) else sectors d
     end) rest.

Definition attempt_uio (rw : uio_rw) (st : Z) (mem : list Z) (b : Z) (d : lhd) : kuio :=
  match rw with
  | UIO_WRITE => moved mem b rw
  | UIO_READ =>
      if bool_decide (st = LHD_OK) then moved (default [] (sectors d !! b)) b rw else block_uio mem b rw
  end.

Lemma uiomove_write buf mem b d (Q : kuio → lhd → Prop) :
  length mem = 128%nat → length buf = 128%nat → lh_buf d = buf → (b * 512 + 512 < 2 ^ 63) → 0 ≤ b →
  Q (moved mem b UIO_WRITE) (set_buf mem d) → wp (uiomove_sector (block_uio mem b UIO_WRITE)) Q d.
Proof.
  intros Hm Hl Hb Hr H0 HQ. rw /uiomove_sector. wp_step. wp_step. simpl. wp_step. wp_step. wp_step. rw Hb.
  assert (Z.to_nat (Z.min LHD_SECTSIZE LHD_SECTSIZE / 4) = 128%nat) as -> by done.
  rw drop_0 take_ge ?drop_ge ?app_nil_r; [|lia..].
  assert (s64 (b * LHD_SECTSIZE + Z.min LHD_SECTSIZE LHD_SECTSIZE) = b * LHD_SECTSIZE + LHD_SECTSIZE) as ->
    by (rw /LHD_SECTSIZE s64_small; lia). done.
Qed.

Lemma uiomove_read mem b d (Q : kuio → lhd → Prop) :
  length mem = 128%nat → length (lh_buf d) = 128%nat → (b * 512 + 512 < 2 ^ 63) → 0 ≤ b →
  Q (moved (lh_buf d) b UIO_READ) d → wp (uiomove_sector (block_uio mem b UIO_READ)) Q d.
Proof.
  intros Hm Hb Hr H0 HQ. rw /uiomove_sector. wp_step. wp_step. simpl. wp_step.
  assert (Z.to_nat (Z.min LHD_SECTSIZE LHD_SECTSIZE / 4) = 128%nat) as -> by done.
  rw /= take_ge ?drop_ge ?app_nil_r; [|lia..].
  assert (s64 (b * LHD_SECTSIZE + Z.min LHD_SECTSIZE LHD_SECTSIZE) = b * LHD_SECTSIZE + LHD_SECTSIZE) as ->
    by (rw /LHD_SECTSIZE s64_small; lia). done.
Qed.

Lemma lhd_sector_spec rw st mem b rest d (Q : Z * kuio → lhd → Prop) :
  at_rest d → 0 ≤ b < d_blocks d → length mem = 128%nat → arrivals (irqs d) [st] rest →
  st ∈ [LHD_OK; LHD_INVSECT; LHD_MEDIA] →
  Q (lhd_code_to_errno st, attempt_uio rw st mem b d) (attempt rw st mem b rest d) →
  wp (lhd_sector b (if bool_decide (rw = UIO_WRITE) then Z.lor LHD_WORKING LHD_ISWRITE else LHD_WORKING)
        0 (block_uio mem b rw)) Q d.
Proof.
  intros [Hc Hd Hb Hbuf Hs] Hin Hm (q & c & l' & Hi & Hq & Hst & ->) Hst' HQ.
  destruct (Hs b Hin) as (old & Hold & Holdl).
  rw /lhd_sector. wp_step. rw /P_clear. wp_step. wp_step. rw Hc /=. wp_step.
  wp_step. destruct rw; simpl.
  - wp_step. wp_step. rw /lhd_wreg. wp_step. simpl. wp_step. wp_step. simpl.
    wp_step. rw /P_done. wp_step. wp_step. simpl. rw Hi.
    eapply wait_done_spec; try done; simpl.
    { rw u32_small; [|lia]. rw Z.add_0_r. eauto. }
    rw u32_small; [|lia]. rw Z.add_0_r. wp_step. wp_step. simpl. wp_step.
    rw !elem_of_cons elem_of_nil in Hst'. destruct Hst' as [->|[->|[->|[]]]]; simpl.
    + apply uiomove_read; rw /= ?Hold //; [lia..|]. wp_step. rw /V_clear. wp_step. wp_step. move: HQ.
      by rw /= Hold.
    + wp_step. rw /V_clear. wp_step. wp_step. wp_step. exact HQ.
    + wp_step. rw /V_clear. wp_step. wp_step. wp_step. exact HQ.
  - apply uiomove_write with (lh_buf d); try done; [lia..|].
    wp_step. rw /lhd_wreg. wp_step. simpl. wp_step. wp_step. simpl.
    wp_step. rw /P_done. wp_step. wp_step. simpl. rw Hi.
    eapply wait_done_spec; try done; simpl.
    { rw u32_small; [|lia]. rw Z.add_0_r. eauto. }
    rw u32_small; [|lia]. rw Z.add_0_r. wp_step. wp_step. simpl. wp_step.
    rw bool_decide_eq_false_2; [|by intros [_ ?]]. wp_step. wp_step. rw /V_clear. wp_step. wp_step.
    rw /ended /= andb_false_r. exact HQ.
Qed.

(** One attempt: [lhd_io] for a whole block. *)
Lemma lhd_io_block rw st mem b rest d (Q : Z * kuio → lhd → Prop) :
  at_rest d → 0 ≤ b < d_blocks d → length mem = 128%nat → arrivals (irqs d) [st] rest →
  st ∈ [LHD_OK; LHD_INVSECT; LHD_MEDIA] →
  Q (lhd_code_to_errno st, attempt_uio rw st mem b d) (attempt rw st mem b rest d) →
  wp (lhd_io (block_uio mem b rw)) Q d.
Proof.
  intros Hr Hb Hm Ha Hst HQ. pose proof (r_blocks d Hr) as Hn. rw /lhd_io /=.
  assert (Z.quot (b * LHD_SECTSIZE) LHD_SECTSIZE = b) as -> by (apply Z.quot_mul; done).
  assert (Z.rem (b * LHD_SECTSIZE) LHD_SECTSIZE = 0) as -> by (apply Z.rem_mul; done).
  rw (u32_small b); [|lia]. rw bool_decide_eq_false_2; [|by intros [?|?]].
  wp_step. wp_step.
  assert (LHD_SECTSIZE / LHD_SECTSIZE = 1) as -> by done. rw (u32_small (b + 1)); [|lia].
  rw bool_decide_eq_false_2; [|lia].
  rw {1}/while /=. wp_step. wp_step. eapply lhd_sector_spec; try done.
  rw !elem_of_cons elem_of_nil in Hst. destruct Hst as [->|[->|[->|[]]]]; wp_steps; exact HQ.
Qed.

(** Once the block has been taken out of the [uio], nothing is transferred. *)
Lemma lhd_io_moved mem b rw d :
  at_rest d → 0 ≤ b < d_blocks d → lhd_io (moved mem b rw) d = Ok (0, moved mem b rw) d.
Proof.
  intros Hr Hb. pose proof (r_blocks d Hr) as Hn. rw /lhd_io /=.
  assert (b * LHD_SECTSIZE + LHD_SECTSIZE = (b + 1) * LHD_SECTSIZE) as -> by lia.
  rw Z.quot_mul // Z.rem_mul //. rw (u32_small (b + 1)); [|lia].
  rw bool_decide_eq_false_2; [|by intros [?|?]].
  rw /mbind /M_bind /gets /= Z.add_0_r u32_small; [|lia]. by rw bool_decide_eq_false_2; [|lia].
Qed.

(** An attempt leaves the driver at rest. *)
Lemma attempt_rest rw st mem b rest d :
  (∀ old new, length old = 128%nat → length new = 128%nat → length (media_fault old new) = 128%nat) →
  at_rest d → 0 ≤ b < d_blocks d → length mem = 128%nat → at_rest (attempt rw st mem b rest d).
Proof.
  intros Hf [Hc Hd Hn Hl Hs] Hb Hm. destruct (Hs b Hb) as (old & Hold & Hlo).
  split; rw /= ?Hold /=; try done.
  - destruct rw; [by case_bool_decide | done].
  - intros b' Hb'. destruct rw; [eauto|].
    destruct (decide (b' = b)) as [->|]; repeat case_bool_decide; rw ?lookup_insert_eq ?lookup_insert_ne //; eauto.
Qed.
End spec.
