(* ===== verification/Sfs.v ===== *)
(** * SFS: the block layer of kern/fs/sfs

    Block I/O with retries (sfs_io.c), block allocation (sfs_balloc.c), the
    mapping of file blocks to disk blocks and truncation (sfs_bmap.c), the
    write-back of an inode (sfs_inode.c), all under the recursive lock of
    kern/vfs/vfslist.c.  One volume is mounted, on the disk of Lhd.v; its
    freemap is a bitmap of Bitmap.v.  The static block buffers of these
    functions are filled before they are used and appear as local values. *)

From stdpp Require Import base tactics list gmap option numbers ssreflect.
From S2P Require Import Prelude Kern.
From S2P Require Import Uio Lhd Bitmap.

Open Scope Z_scope.

(** ** Data and state *)

Definition SFS_BLOCKSIZE : Z := 512.
Definition SFS_NDIRECT : nat := 15.
Definition SFS_NINDIRECT : Z := 1.
Definition SFS_DBPERIDB : nat := 128.

(** A block of zeros. *)
Definition zeros : list Z := replicate SFS_DBPERIDB 0.
#[global] Arguments zeros : simpl never.

(** [struct sfs_dinode] and [struct sfs_vnode]. *)
Record sfs_dinode := Dinode {
  sfi_size : Z;
  sfi_type : Z;
  sfi_linkcount : Z;
  sfi_direct : list Z;
  sfi_indirect : Z;
  sfi_waste : list Z
}.

Record sfs_vnode := SfsVnode { sv_i : sfs_dinode; sv_ino : Z; sv_dirty : bool }.

(** [struct sfs_fs], the lock and the inodes in memory. *)
Record state := State {
  fm : Bitmap.state;
  sfs_freemap : loc;
  sfs_freemapdirty : bool;
  sb_nblocks : Z;
  sfs_device : lhd;
  vfs_biglock : ptr;
  vfs_biglock_depth : Z;
  svs : gmap loc sfs_vnode
}.

Definition set_fm f s := State f (sfs_freemap s) (sfs_freemapdirty s) (sb_nblocks s) (sfs_device s)
  (vfs_biglock s) (vfs_biglock_depth s) (svs s).
Definition set_freemapdirty b s := State (fm s) (sfs_freemap s) b (sb_nblocks s) (sfs_device s)
  (vfs_biglock s) (vfs_biglock_depth s) (svs s).
Definition set_device d s := State (fm s) (sfs_freemap s) (sfs_freemapdirty s) (sb_nblocks s) d
  (vfs_biglock s) (vfs_biglock_depth s) (svs s).
Definition set_depth n s := State (fm s) (sfs_freemap s) (sfs_freemapdirty s) (sb_nblocks s) (sfs_device s)
  (vfs_biglock s) n (svs s).
Definition set_svs (f : gmap loc sfs_vnode → gmap loc sfs_vnode) s :=
  State (fm s) (sfs_freemap s) (sfs_freemapdirty s) (sb_nblocks s) (sfs_device s)
  (vfs_biglock s) (vfs_biglock_depth s) (f (svs s)).

#[export, refine] Instance state_base : HasBase state := {|
  base_of s := Bitmap.sys (fm s);
  with_base b s := set_fm (with_base b (fm s)) s
|}.
Proof. all: intros; by repeat destruct select state; repeat destruct select Bitmap.state. Defined.

Definition on_freemap {A} (m : loc → M Bitmap.state A) : M state A := λ s,
  match m (sfs_freemap s) (fm s) with
  | Ok a f => Ok a (set_fm f s)
  | Stop e f => Stop e (set_fm f s)
  end.

Definition on_device {A} (m : M lhd A) : M state A := λ s,
  match m (sfs_device s) with
  | Ok a d => Ok a (set_device d s)
  | Stop e d => Stop e (set_device d s)
  end.

(** [*sv] *)
Definition load_sv (sv : loc) : M state sfs_vnode :=
  deref (λ s, if is_live sv s then svs s !! sv else None).
Definition upd_sv (sv : loc) (f : sfs_vnode → sfs_vnode) : M state unit :=
  load_sv sv;; modify (set_svs (alter f sv)).

Definition on_inode (f : sfs_dinode → sfs_dinode) (v : sfs_vnode) := SfsVnode (f (sv_i v)) (sv_ino v) (sv_dirty v).
Definition set_dirty (b : bool) (v : sfs_vnode) := SfsVnode (sv_i v) (sv_ino v) b.
Definition set_size n i := Dinode n (sfi_type i) (sfi_linkcount i) (sfi_direct i) (sfi_indirect i) (sfi_waste i).
Definition set_direct (k : nat) b i :=
  Dinode (sfi_size i) (sfi_type i) (sfi_linkcount i) (<[k := b]> (sfi_direct i)) (sfi_indirect i) (sfi_waste i).
Definition set_indirect b i :=
  Dinode (sfi_size i) (sfi_type i) (sfi_linkcount i) (sfi_direct i) b (sfi_waste i).

(** A change of the inode marks it dirty. *)
Definition upd_inode (sv : loc) (f : sfs_dinode → sfs_dinode) : M state unit :=
  upd_sv sv (on_inode f);;
  upd_sv sv (set_dirty true).

(** ** The VFS lock *)

Definition vfs_biglock_acquire : M state unit :=
  lk ← gets vfs_biglock;
  mine ← lock_do_i_hold lk;
  depth ← gets vfs_biglock_depth;
  (if negb mine then lock_acquire lk
   else if bool_decide (depth = 0) then lock_acquire lk
   else mret tt);;
  modify (λ s, set_depth (u32 (vfs_biglock_depth s + 1)) s).

Definition vfs_biglock_release : M state unit :=
  lk ← gets vfs_biglock;
  mine ← lock_do_i_hold lk;
  kassert mine;;
  depth ← gets vfs_biglock_depth;
  kassert (bool_decide (depth > 0));;
  modify (set_depth (u32 (depth - 1)));;
  depth ← gets vfs_biglock_depth;
  if bool_decide (depth = 0) then lock_release lk else mret tt.

Definition vfs_biglock_do_i_hold : M state bool := lk ← gets vfs_biglock; lock_do_i_hold lk.

Section hw.
Context `{!Hardware}.

(** ** Block I/O *)

(** One attempt: the retry counter and the [uio] for another one, or the result. *)
Definition rwblock_attempt : Z * kuio → M state (Z * kuio + Z * kuio) := λ '(tries, u),
  r ← on_device (lhd_io u);
  let '(result, u) := r in
  if bool_decide (result = EINVAL) then stops Panic
  else if bool_decide (result = EIO) then
    if bool_decide (tries < 10) then mret (inl (tries + 1, u)) else mret (inr (result, u))
  else mret (inr (result, u)).

(** The first attempt and at most ten more. *)
Definition sfs_rwblock (u : kuio) : M state (Z * kuio) :=
  mine ← vfs_biglock_do_i_hold;
  kassert mine;;
  while 12 (0, u) rwblock_attempt.

(** The result and what is in the buffer afterwards. *)
Definition sfs_readblock (block : Z) : M state (Z * list Z) :=
  r ← sfs_rwblock (block_uio zeros block UIO_READ);
  let '(result, u) := r in mret (result, ku_mem u).

Definition sfs_writeblock (block : Z) (data : list Z) : M state Z :=
  r ← sfs_rwblock (block_uio data block UIO_WRITE);
  mret r.1.

(** ** Block allocation *)

Definition sfs_clearblock (block : Z) : M state Z := sfs_writeblock block zeros.

Definition sfs_balloc : M state (Z + Z) :=
  r ← on_freemap bitmap_alloc;
  match r with
  | inl result => mret (inl result)
  | inr diskblock =>
      modify (set_freemapdirty true);;
      n ← gets sb_nblocks;
      if bool_decide (diskblock >= n) then stops Panic
      else
        result ← sfs_clearblock diskblock;
        if bool_decide (result ≠ 0) then on_freemap (λ b, bitmap_unmark b diskblock);; mret (inl result)
        else mret (inr diskblock)
  end.

Definition sfs_bfree (diskblock : Z) : M state unit :=
  on_freemap (λ b, bitmap_unmark b diskblock);;
  modify (set_freemapdirty true).

Definition sfs_bused (diskblock : Z) : M state bool :=
  n ← gets sb_nblocks;
  if bool_decide (diskblock >= n) then stops Panic
  else r ← on_freemap (λ b, bitmap_isset b diskblock); mret (bool_decide (r ≠ 0)).

(** ** Block mapping *)

(** The test made before a block is handed back. *)
Definition hand_back (block : Z) : M state (Z + Z) :=
  ok ← (if bool_decide (block ≠ 0) then sfs_bused block else mret true);
  if (ok : bool) then mret (inr block) else stops Panic.

Definition sfs_bmap_direct (sv : loc) (fileblock : nat) (doalloc : bool) : M state (Z + Z) :=
  v ← load_sv sv;
  block ← deref (λ _, sfi_direct (sv_i v) !! fileblock);
  if bool_decide (block = 0) && doalloc then
    r ← sfs_balloc;
    match r with
    | inl result => mret (inl result)
    | inr block =>
        upd_inode sv (set_direct fileblock block);;
        hand_back block
    end
  else hand_back block.

(** The number and the contents of the indirect block, allocated if there is
    none; [fileblock] is relative to the first block it maps. *)
Definition get_indirect (sv : loc) : M state (Z + Z * list Z) :=
  v ← load_sv sv;
  let idblock := sfi_indirect (sv_i v) in
  if bool_decide (idblock = 0) then
    r ← sfs_balloc;
    match r with
    | inl result => mret (inl result)
    | inr idblock =>
        upd_inode sv (set_indirect idblock);;
        mret (inr (idblock, zeros))
    end
  else
    r ← sfs_readblock idblock;
    let '(result, idbuf) := r in
    if bool_decide (result ≠ 0) then mret (inl result) else mret (inr (idblock, idbuf)).

Definition sfs_bmap_indirect (sv : loc) (fileblock : Z) (doalloc : bool) : M state (Z + Z) :=
  let idnum := fileblock / Z.of_nat SFS_DBPERIDB in
  let idoff := fileblock mod Z.of_nat SFS_DBPERIDB in
  if bool_decide (idnum >= SFS_NINDIRECT) then mret (inl EFBIG)
  else
    v ← load_sv sv;
    if bool_decide (sfi_indirect (sv_i v) = 0) && negb doalloc then mret (inr 0)
    else
      r ← get_indirect sv;
      match r with
      | inl result => mret (inl result)
      | inr (idblock, idbuf) =>
          block ← deref (λ _, idbuf !! Z.to_nat idoff);
          if bool_decide (block = 0) && doalloc then
            r ← sfs_balloc;
            match r with
            | inl result => mret (inl result)
            | inr block =>
                result ← sfs_writeblock idblock (<[Z.to_nat idoff := block]> idbuf);
                if bool_decide (result ≠ 0) then mret (inl result) else hand_back block
            end
          else hand_back block
      end.

Definition sfs_bmap (sv : loc) (fileblock : Z) (doalloc : bool) : M state (Z + Z) :=
  mine ← vfs_biglock_do_i_hold;
  kassert mine;;
  if bool_decide (fileblock < Z.of_nat SFS_NDIRECT) then sfs_bmap_direct sv (Z.to_nat fileblock) doalloc
  else sfs_bmap_indirect sv (u32 (fileblock - Z.of_nat SFS_NDIRECT)) doalloc.

(** ** Truncation *)

(** [DIVROUNDUP(len, SFS_BLOCKSIZE)] on an [off_t], stored in 32 bits. *)
Definition length_in_blocks (len : Z) : Z :=
  u32 (Z.quot (s64 (s64 (len + SFS_BLOCKSIZE) - 1)) SFS_BLOCKSIZE).

Definition itrunc_direct (sv : loc) (blocklen : Z) : M state unit :=
  fold_up 0 SFS_NDIRECT tt (λ i _,
    v ← load_sv sv;
    block ← deref (λ _, sfi_direct (sv_i v) !! i);
    if bool_decide (Z.of_nat i >= blocklen ∧ block ≠ 0) then
      sfs_bfree block;;
      upd_inode sv (set_direct i 0)
    else mret tt).

(** The scan of the indirect block: [(idbuf, hasnonzero, iddirty)]. *)
Definition itrunc_scan (blocklen : Z) (idbuf : list Z) : M state (list Z * bool * bool) :=
  fold_up 0 SFS_DBPERIDB (idbuf, false, false) (λ j '(idbuf, hasnonzero, iddirty),
    block ← deref (λ _, idbuf !! j);
    r ← (if bool_decide (blocklen < Z.of_nat (SFS_NDIRECT + j) ∧ block ≠ 0) then
           sfs_bfree block;; mret (<[j := 0]> idbuf, true)
         else mret (idbuf, iddirty));
    let '(idbuf, iddirty) := r in
    block ← deref (λ _, idbuf !! j);
    mret (idbuf, hasnonzero || bool_decide (block ≠ 0), iddirty)).

Definition itrunc_indirect (sv : loc) (blocklen : Z) : M state Z :=
  v ← load_sv sv;
  let idblock := sfi_indirect (sv_i v) in
  let highblock := Z.of_nat (SFS_NDIRECT + SFS_DBPERIDB) - 1 in
  if bool_decide (blocklen < highblock ∧ idblock ≠ 0) then
    r ← sfs_readblock idblock;
    let '(result, idbuf) := r in
    if bool_decide (result ≠ 0) then mret result
    else
      r ← itrunc_scan blocklen idbuf;
      let '(idbuf, hasnonzero, iddirty) := r in
      if negb hasnonzero then
        sfs_bfree idblock;;
        upd_inode sv (set_indirect 0);;
        mret 0
      else if iddirty : bool then sfs_writeblock idblock idbuf
      else mret 0
  else mret 0.

Definition sfs_itrunc (sv : loc) (len : Z) : M state Z :=
  let blocklen := length_in_blocks len in
  vfs_biglock_acquire;;
  itrunc_direct sv blocklen;;
  result ← itrunc_indirect sv blocklen;
  if bool_decide (result ≠ 0) then vfs_biglock_release;; mret result
  else
    upd_inode sv (set_size (u32 len));;
    vfs_biglock_release;;
    mret 0.

(** ** Writing back an inode *)

(** The inode as the 128 words of its block. *)
Definition dinode_words (i : sfs_dinode) : list Z :=
  [sfi_size i; sfi_type i * 2 ^ 16 + sfi_linkcount i] ++ sfi_direct i ++ [sfi_indirect i] ++ sfi_waste i.

Definition sfs_sync_inode (sv : loc) : M state Z :=
  v ← load_sv sv;
  if sv_dirty v then
    result ← sfs_writeblock (sv_ino v) (dinode_words (sv_i v));
    if bool_decide (result ≠ 0) then mret result
    else upd_sv sv (set_dirty false);; mret 0
  else mret 0.
End hw.
