(* ===== verification/SfsFacts.v ===== *)
(** * Lemmas on the block layer of SFS

    Block I/O, the freemap and the lists of blocks a file owns, on the
    definitions of Sfs.v; the theorems are in SfsThms.v. *)

From stdpp Require Import base tactics list gmap option numbers ssreflect.
From S2P Require Import Prelude Kern.
From S2P Require Import Uio Lhd Bitmap Sfs.

Open Scope Z_scope.

(** ** Lifting *)

Lemma wp_on_device {A} (m : M lhd A) (Q : A → state → Prop) s :
  wp m (λ a d, Q a (set_device d s)) (sfs_device s) → wp (on_device m) Q s.
Proof. rw /wp /on_device. by destruct (m (sfs_device s)). Qed.

Lemma wp_on_freemap {A} (m : loc → M Bitmap.state A) (Q : A → state → Prop) s :
  wp (m (sfs_freemap s)) (λ a f, Q a (set_fm f s)) (fm s) → wp (on_freemap m) Q s.
Proof. rw /wp /on_freemap. by destruct (m (sfs_freemap s) (fm s)). Qed.

Definition held (s : state) : Prop := holds (vfs_biglock s) s.

Lemma do_i_hold_held s : held s → vfs_biglock_do_i_hold s = Ok true s.
Proof.
  intros (l & k & Hp & Hl & Hk & Hh). rw /vfs_biglock_do_i_hold /lock_do_i_hold /lock_at /gets /mbind /M_bind Hp.
  rw (proj2 (is_live_true l s) Hl) Hk /=. by rw Hh bool_decide_eq_true_2.
Qed.

Lemma wp_held (Q : unit → state → Prop) s :
  held s → Q tt s → wp (mine ← vfs_biglock_do_i_hold; kassert mine) Q s.
Proof. intros Hh HQ. apply wp_bind. by eapply wp_Ok; [by apply do_i_hold_held|]. Qed.

(** ** Block I/O *)

Section hw.
Context `{!Hardware}.

Lemma arrivals_cons l st sts rest :
  arrivals l (st :: sts) rest → ∃ l', arrivals l [st] l' ∧ arrivals l' sts rest.
Proof. intros (q & c & l' & -> & ? & ? & ?). exists l'. split; [|done]. by exists q, c, l'. Qed.

Lemma attempt_read_rest st mem b rest d :
  at_rest d → 0 ≤ b < d_blocks d → at_rest (attempt UIO_READ st mem b rest d).
Proof.
  intros [Hc Hd Hn Hl Hs] Hb. destruct (Hs b Hb) as (old & Hold & Hlo).
  split; rw /= ?Hold //=. by case_bool_decide.
Qed.

Lemma attempt_write_rest mem b rest d :
  at_rest d → 0 ≤ b < d_blocks d → length mem = 128%nat → at_rest (attempt UIO_WRITE LHD_OK mem b rest d).
Proof.
  intros [Hc Hd Hn Hl Hs] Hb Hm. split; rw /= //=. intros b' Hb'.
  destruct (decide (b' = b)) as [->|]; rw ?lookup_insert_eq ?lookup_insert_ne //; eauto.
Qed.

(** Reads: [n] failed attempts and a good one. *)
Lemma read_tries n tries fuel b rest s (Q : Z * kuio → state → Prop) :
  at_rest (sfs_device s) → 0 ≤ b < d_blocks (sfs_device s) →
  arrivals (irqs (sfs_device s)) (replicate n LHD_MEDIA ++ [LHD_OK]) rest →
  tries + Z.of_nat n ≤ 10 → (n < fuel)%nat →
  (∀ d', at_rest d' → d_blocks d' = d_blocks (sfs_device s) → sectors d' = sectors (sfs_device s) →
     irqs d' = rest → Q (0, moved (default [] (sectors d' !! b)) b UIO_READ) (set_device d' s)) →
  wp (while fuel (tries, block_uio zeros b UIO_READ) rwblock_attempt) Q s.
Proof.
  revert tries fuel s. induction n as [|n IH]; intros tries fuel s Hr Hb Ha Ht Hf HQ;
    (destruct fuel as [|fuel]; [lia|]); rw /while -/while; apply wp_bind; simpl; apply wp_bind;
    apply wp_on_device.
  - apply (lhd_io_block UIO_READ LHD_OK _ _ rest); try done; [set_solver|].
    apply wp_ret, wp_ret. apply (HQ (attempt UIO_READ LHD_OK zeros b rest (sfs_device s))); try done.
    by apply attempt_read_rest.
  - apply arrivals_cons in Ha as (l' & Ha & Ha'). simpl in Ha'.
    apply (lhd_io_block UIO_READ LHD_MEDIA _ _ l'); try done; [set_solver|].
    rw /= bool_decide_eq_true_2; [|lia]. apply wp_ret. apply IH; try done; [by apply attempt_read_rest | lia..].
Qed.

Lemma readblock_retries n b rest s (Q : Z * list Z → state → Prop) :
  held s → at_rest (sfs_device s) → 0 ≤ b < d_blocks (sfs_device s) → (n ≤ 10)%nat →
  arrivals (irqs (sfs_device s)) (replicate n LHD_MEDIA ++ [LHD_OK]) rest →
  (∀ d', at_rest d' → d_blocks d' = d_blocks (sfs_device s) → sectors d' = sectors (sfs_device s) →
     irqs d' = rest → Q (0, default [] (sectors d' !! b)) (set_device d' s)) →
  wp (sfs_readblock b) Q s.
Proof.
  intros Hh Hr Hb Hn Ha HQ. rw /sfs_readblock. wp_step. rw /sfs_rwblock. wp_step.
  eapply wp_Ok; [by apply do_i_hold_held|]. wp_step. apply wp_kassert; [done|].
  apply (read_tries n _ _ _ rest); try done; lia.
Qed.

(** A read fails when eleven attempts have failed. *)
Lemma read_gives_up n tries fuel b rest s (Q : Z * kuio → state → Prop) :
  at_rest (sfs_device s) → 0 ≤ b < d_blocks (sfs_device s) →
  arrivals (irqs (sfs_device s)) (replicate (S n) LHD_MEDIA) rest →
  tries + Z.of_nat n = 10 → (n < fuel)%nat →
  (∀ d', sectors d' = sectors (sfs_device s) →
     irqs d' = rest → Q (EIO, block_uio zeros b UIO_READ) (set_device d' s)) →
  wp (while fuel (tries, block_uio zeros b UIO_READ) rwblock_attempt) Q s.
Proof.
  revert tries fuel s. induction n as [|n IH]; intros tries fuel s Hr Hb Ha Ht Hf HQ;
    (destruct fuel as [|fuel]; [lia|]); rw /while -/while; apply wp_bind; simpl; apply wp_bind;
    apply wp_on_device; apply arrivals_cons in Ha as (l' & Ha & Ha').
  - apply (lhd_io_block UIO_READ LHD_MEDIA _ _ l'); try done; [set_solver|].
    rw /= bool_decide_eq_false_2; [|lia]. apply wp_ret, wp_ret.
    by apply (HQ (attempt UIO_READ LHD_MEDIA zeros b l' (sfs_device s))).
  - apply (lhd_io_block UIO_READ LHD_MEDIA _ _ l'); try done; [set_solver|].
    rw /= bool_decide_eq_true_2; [|lia]. apply wp_ret. apply IH; try done; [by apply attempt_read_rest | lia..].
Qed.

(** Writes. *)
Lemma writeblock_ok mem b sts rest s (Q : Z → state → Prop) :
  held s → at_rest (sfs_device s) → 0 ≤ b < d_blocks (sfs_device s) → length mem = 128%nat →
  arrivals (irqs (sfs_device s)) (LHD_OK :: sts) rest →
  (∀ d', at_rest d' → d_blocks d' = d_blocks (sfs_device s) →
     sectors d' = <[b := mem]> (sectors (sfs_device s)) → arrivals (irqs d') sts rest → Q 0 (set_device d' s)) →
  wp (sfs_writeblock b mem) Q s.
Proof.
  intros Hh Hr Hb Hm (l' & Ha & Ha')%arrivals_cons HQ. rw /sfs_writeblock. wp_step. rw /sfs_rwblock. wp_step.
  eapply wp_Ok; [by apply do_i_hold_held|]. wp_step. apply wp_kassert; [done|].
  rw /while -/while. do 2 apply wp_bind. apply wp_on_device.
  apply (lhd_io_block UIO_WRITE LHD_OK _ _ l'); try done; [set_solver|].
  apply wp_ret, wp_ret, wp_ret. apply (HQ (attempt UIO_WRITE LHD_OK mem b l' (sfs_device s))); try done.
  by apply attempt_write_rest.
Qed.

(** After a media error the second attempt transfers nothing and succeeds. *)
Lemma writeblock_media mem b rest s (Q : Z → state → Prop) :
  held s → at_rest (sfs_device s) → 0 ≤ b < d_blocks (sfs_device s) → length mem = 128%nat →
  arrivals (irqs (sfs_device s)) [LHD_MEDIA] rest →
  (∀ old new, length old = 128%nat → length new = 128%nat → length (media_fault old new) = 128%nat) →
  (∀ d', sectors d' = <[b := media_fault (default [] (sectors (sfs_device s) !! b)) mem]> (sectors (sfs_device s)) →
     irqs d' = rest → Q 0 (set_device d' s)) →
  wp (sfs_writeblock b mem) Q s.
Proof.
  intros Hh Hr Hb Hm Ha Hf HQ. rw /sfs_writeblock. wp_step. rw /sfs_rwblock. wp_step.
  eapply wp_Ok; [by apply do_i_hold_held|]. wp_step. apply wp_kassert; [done|].
  rw /while -/while. do 2 apply wp_bind. apply wp_on_device.
  apply (lhd_io_block UIO_WRITE LHD_MEDIA _ _ rest); try done; [set_solver|].
  apply wp_ret. do 2 apply wp_bind. apply wp_on_device. simpl.
  eapply wp_Ok; [apply lhd_io_moved; [by apply attempt_rest | done]|].
  apply wp_ret, wp_ret, wp_ret. by apply (HQ (attempt UIO_WRITE LHD_MEDIA mem b rest (sfs_device s))).
Qed.
End hw.

(** ** The freemap *)

(** Whether block [i] is in use. *)
Definition marked (s : state) (i : Z) : bool :=
  match maps (fm s) !! sfs_freemap s with
  | Some m => match bytes (fm s) !! v m with Some ws => bit ws i | None => false end
  | None => false
  end.

(** A mounted volume: the freemap is a bitmap of at least [sb_nblocks] bits,
    with the superblock and everything past the end in use, and the device is
    at rest and large enough. *)
Record volume (s : state) : Prop := {
  vol_map : ∃ m ws, repr (fm s) (sfs_freemap s) m ws ∧ sb_nblocks s ≤ nbits m ∧
    ∀ i, sb_nblocks s ≤ i < nbits m → bit ws i = true;
  vol_super : marked s 0 = true;
  vol_blocks : 0 < sb_nblocks s ≤ d_blocks (sfs_device s);
  vol_device : at_rest (sfs_device s)
}.

(** The next [n] operations of the disk will succeed. *)
Definition ready (n : nat) (s : state) : Prop :=
  ∃ rest, arrivals (irqs (sfs_device s)) (replicate n LHD_OK) rest.

(** What the operations on blocks leave alone. *)
Definition same_env (s s' : state) : Prop :=
  sfs_freemap s' = sfs_freemap s ∧ sb_nblocks s' = sb_nblocks s ∧ vfs_biglock s' = vfs_biglock s ∧
  vfs_biglock_depth s' = vfs_biglock_depth s ∧ sys (fm s') = sys (fm s) ∧
  d_blocks (sfs_device s') = d_blocks (sfs_device s) ∧ maps (fm s') = maps (fm s).

#[export] Instance same_env_preorder : PreOrder same_env.
Proof.
  split; [by intros s; repeat split|].
  intros s1 s2 s3 (?&?&?&?&?&?&?) (?&?&?&?&?&?&?). repeat split; congruence.
Qed.

Lemma same_env_held s s' : same_env s s' → held s → held s'.
Proof. intros (_ & _ & Hb & _ & Hs & _) (l & k & H). exists l, k. by rw Hb /base_of /= Hs. Qed.

Lemma same_env_live l s s' : same_env s s' → is_live l s' = is_live l s.
Proof. intros (_ & _ & _ & _ & Hs & _). by rw /is_live /= Hs. Qed.

Lemma marked_repr s m ws i : repr (fm s) (sfs_freemap s) m ws → marked s i = bit ws i.
Proof. intros Hr. by rw /marked (repr_map _ _ _ _ Hr) (repr_words _ _ _ _ Hr). Qed.

Lemma arrivals_app l a b rest : arrivals l (a ++ b) rest → ∃ l', arrivals l a l' ∧ arrivals l' b rest.
Proof.
  revert l. induction a as [|st a IH]; intros l; [by exists l|].
  intros (q & c & l' & -> & ? & ? & (l'' & ? & ?)%IH). exists l''. split; [|done]. by exists q, c, l'.
Qed.

Lemma ready_le n k s : (k ≤ n)%nat → ready n s → ready k s.
Proof.
  intros Hk [rest H]. replace n with (k + (n - k))%nat in H by lia. rw replicate_add in H.
  apply arrivals_app in H as (l' & ? & _). by exists l'.
Qed.

Section freemap.
Context `{!Hardware}.

(** Changing the device only. *)
Lemma volume_device d' s :
  volume s → at_rest d' → d_blocks d' = d_blocks (sfs_device s) → volume (set_device d' s).
Proof. intros [Hm ? Hb ?] ? He. split; try done. by rw /= He. Qed.

Lemma readblock_ok k b s (Q : Z * list Z → state → Prop) :
  held s → volume s → 0 ≤ b < sb_nblocks s → ready (S k) s →
  (∀ d' data, volume (set_device d' s) → ready k (set_device d' s) → same_env s (set_device d' s) →
     sectors d' = sectors (sfs_device s) → sectors (sfs_device s) !! b = Some data → length data = 128%nat →
     Q (0, data) (set_device d' s)) →
  wp (sfs_readblock b) Q s.
Proof.
  intros Hh Hv Hb [rest (l' & Ha & Ha')%arrivals_cons] HQ. pose proof (vol_blocks _ Hv) as Hn.
  destruct (r_sectors _ (vol_device _ Hv) b) as (data & Hd & Hl); [lia|].
  apply (readblock_retries 0 _ l'); try done; [apply Hv | lia | lia |].
  intros d' Hr Hdb Hs Hi. rw Hs Hd /=.
  apply HQ; [by apply volume_device | by exists rest; rw /= Hi | by repeat split | done..].
Qed.

Lemma writeblock_ready k mem b s (Q : Z → state → Prop) :
  held s → volume s → 0 ≤ b < sb_nblocks s → ready (S k) s → length mem = 128%nat →
  (∀ d', volume (set_device d' s) → ready k (set_device d' s) → same_env s (set_device d' s) →
     sectors d' = <[b := mem]> (sectors (sfs_device s)) → Q 0 (set_device d' s)) →
  wp (sfs_writeblock b mem) Q s.
Proof.
  intros Hh Hv Hb [rest Ha] Hm HQ. pose proof (vol_blocks _ Hv) as Hn.
  apply (writeblock_ok _ _ (replicate k LHD_OK) rest); try done; [apply Hv | lia |].
  intros d' Hr Hdb Hs Hi. apply HQ; [by apply volume_device | by exists rest | by repeat split | done].
Qed.

Lemma bused_spec b s (Q : bool → state → Prop) :
  volume s → 0 ≤ b < sb_nblocks s → Q (marked s b) s → wp (sfs_bused b) Q s.
Proof.
  intros [(m & ws & Hr & Hn & _) _ _ _] Hb HQ. rw /sfs_bused. wp_step. wp_step.
  rw bool_decide_eq_false_2; [|lia]. wp_step. apply wp_on_freemap.
  eapply wp_mono; [apply (isset_spec _ _ m ws); [done|lia]|]. intros r f [-> Hbit]. apply wp_ret.
  rw Hbit -(marked_repr _ _ _ _ Hr). by destruct s.
Qed.

Lemma hand_back_spec b s (Q : Z + Z → state → Prop) :
  volume s → (b ≠ 0 → 0 < b < sb_nblocks s ∧ marked s b = true) → Q (inr b) s → wp (hand_back b) Q s.
Proof.
  intros Hv Hb HQ. rw /hand_back. wp_step. case_bool_decide as H0; [|by do 2 apply wp_ret].
  destruct (Hb H0) as [? Hm]. apply bused_spec; [done | lia |]. rw Hm. by apply wp_ret.
Qed.

Lemma bfree_spec b s (Q : unit → state → Prop) :
  volume s → 0 < b < sb_nblocks s → marked s b = true →
  (∀ f, let s' := State f (sfs_freemap s) true (sb_nblocks s) (sfs_device s) (vfs_biglock s)
                    (vfs_biglock_depth s) (svs s) in
     volume s' → same_env s s' →
     (∀ j, 0 ≤ j → marked s' j = negb (bool_decide (b = j)) && marked s j) → Q tt s') →
  wp (sfs_bfree b) Q s.
Proof.
  intros Hv Hb Hm HQ. pose proof Hv as [(m & ws & Hr & Hn & Htail) Hsup Hbl Hd].
  rw /sfs_bfree. wp_step. apply wp_on_freemap. rw (marked_repr _ _ _ b Hr) in Hm.
  eapply wp_mono; [apply (unmark_spec _ _ _ _ b Hr); [lia|done]|].
  intros [] f (ws' & Hr' & Hs & Hmaps & Hbits). wp_step. apply (HQ f).
  - split; try done.
    + exists m, ws'. split; [done|]. split; [done|]. intros i Hi. simpl in Hi.
      rw Hbits; [|lia]. rw Htail // bool_decide_eq_false_2 //. lia.
    + rw (marked_repr _ m ws') // Hbits // -(marked_repr s m) // Hsup bool_decide_eq_false_2 //. lia.
  - by repeat split.
  - intros j Hj. rw (marked_repr _ m ws') // Hbits // (marked_repr s m ws) //.
Qed.

(** Block [b] has been taken: marked, and filled with zeros. *)
Record taken (s s' : state) (b : Z) : Prop := {
  tk_range : 0 < b < sb_nblocks s;
  tk_free : marked s b = false;
  tk_volume : volume s';
  tk_env : same_env s s';
  tk_svs : svs s' = svs s;
  tk_marked : ∀ j, 0 ≤ j → marked s' j = bool_decide (b = j) || marked s j;
  tk_sectors : sectors (sfs_device s') = <[b := zeros]> (sectors (sfs_device s))
}.

Lemma balloc_spec k s (Q : Z + Z → state → Prop) :
  held s → volume s → ready (S k) s →
  ((∀ i, 0 ≤ i < sb_nblocks s → marked s i = true) → Q (inl ENOSPC) s) →
  (∀ b s', taken s s' b → ready k s' → Q (inr b) s') →
  wp sfs_balloc Q s.
Proof.
  intros Hh Hv Hrd Hfull HQ. pose proof Hv as [(m & ws & Hr & Hn & Htail) Hsup Hbl Hd].
  rw /sfs_balloc. wp_step. apply wp_on_freemap. eapply wp_mono; [by apply (alloc_spec _ _ m ws)|].
  intros [e|b] f.
  { intros (-> & -> & Hall). apply wp_ret.
    replace (set_fm (fm s) s) with s by (by destruct s). apply Hfull.
    intros i Hi. rw (marked_repr _ _ _ i Hr). apply Hall. lia. }
  intros (Hb & Hc & Hlow & w & Hw & ->).
  destruct (with_bit_repr _ _ _ _ Hr b w Hb Hw) as (ws' & Hr' & Hbits).
  assert (0 < b < sb_nblocks s) as Hbn.
  { rw (marked_repr _ _ _ 0 Hr) in Hsup. split.
    - destruct (decide (b = 0)) as [->|]; [congruence | lia].
    - destruct (decide (b < sb_nblocks s)); [done|]. rw Htail in Hc; [done | lia]. }
  wp_step. wp_step. wp_step. wp_step. rw bool_decide_eq_false_2; [|simpl; lia].
  set (s1 := set_freemapdirty true (set_fm (with_bit (fm s) m b w) s)).
  assert (∀ j, 0 ≤ j → marked s1 j = bool_decide (b = j) || marked s j) as Hmk.
  { intros j Hj. rw (marked_repr s1 m ws') // Hbits // (marked_repr s m ws) //. }
  assert (volume s1) as Hv1.
  { split; try done; [|by rw Hmk // Hsup orb_true_r]. exists m, ws'. split; [done|]. split; [done|].
    intros i Hi. simpl in Hi. rw Hbits; [|lia]. rw Htail // orb_true_r //. }
  assert (same_env s s1) as He by (by repeat split).
  wp_step. apply (writeblock_ready k); try done; [simpl; lia|].
  intros d' Hv2 Hr2 He2 Hs2. apply wp_ret. apply (HQ b (set_device d' s1)); [|done].
  split; try done. by rw (marked_repr s m ws).
Qed.
End freemap.

(** ** The blocks a file owns *)

(** The blocks that hold the file's data, in file order (0: none); the indirect
    block first. *)
Definition mapping (s : state) (i : sfs_dinode) : list Z :=
  sfi_direct i ++
  (if bool_decide (sfi_indirect i = 0) then zeros else default [] (sectors (sfs_device s) !! sfi_indirect i)).

(** Every nonzero number of the list is a block in use, and appears once. *)
Record owns (s : state) (l : list Z) : Prop := {
  own_used : ∀ k b, l !! k = Some b → b ≠ 0 → 0 < b < sb_nblocks s ∧ marked s b = true;
  own_once : ∀ j k b, l !! j = Some b → l !! k = Some b → b ≠ 0 → j = k
}.

Record file_ok (s : state) (i : sfs_dinode) : Prop := {
  f_direct : length (sfi_direct i) = SFS_NDIRECT;
  f_owns : owns s (sfi_indirect i :: mapping s i)
}.

Lemma owns_insert s s' l k b :
  owns s l → 0 < b < sb_nblocks s → marked s b = false →
  sb_nblocks s' = sb_nblocks s → (∀ j, 0 ≤ j → marked s' j = bool_decide (b = j) || marked s j) →
  owns s' (<[k := b]> l).
Proof.
  intros [Hu Ho] Hb Hm Hn Hmk. split.
  - intros j c [(<- & <- & _)|[_ Hj]]%list_lookup_insert_Some Hc; rw Hn.
    + rw Hmk; [|lia]. by rw bool_decide_eq_true_2.
    + destruct (Hu j c Hj Hc) as [? Hc']. rw Hmk; [|lia]. by rw Hc' orb_true_r.
  - intros j1 j2 c [(<- & <- & _)|[? H1]]%list_lookup_insert_Some
      [(<- & Heq & _)|[? H2]]%list_lookup_insert_Some Hc; try done.
    + destruct (Hu _ _ H2 Hc). congruence.
    + subst c. destruct (Hu _ _ H1 Hc). congruence.
    + by eapply Ho.
Qed.

Lemma owns_clear s s' l k b :
  owns s l → l !! k = Some b → b ≠ 0 → sb_nblocks s' = sb_nblocks s →
  (∀ j, 0 ≤ j → marked s' j = negb (bool_decide (b = j)) && marked s j) → owns s' (<[k := 0]> l).
Proof.
  intros [Hu Ho] Hk Hb Hn Hmk. split.
  - intros j c [(<- & <- & _)|[Hjk Hj]]%list_lookup_insert_Some Hc; [done|].
    destruct (Hu j c Hj Hc) as [? Hc']. rw Hn Hmk; [|lia]. rw Hc' bool_decide_eq_false_2 //.
    intros ->. by apply Hjk, (Ho _ _ c).
  - intros j1 j2 c [(<- & <- & _)|[? H1]]%list_lookup_insert_Some
      [(<- & Heq & _)|[? H2]]%list_lookup_insert_Some Hc; try done. by eapply Ho.
Qed.

Lemma owns_mono s s' l :
  owns s l → sb_nblocks s' = sb_nblocks s → (∀ j, 0 ≤ j → marked s j = true → marked s' j = true) → owns s' l.
Proof.
  intros [Hu Ho] Hn Hmk. split; [|done]. intros k b Hk Hb. destruct (Hu k b Hk Hb). rw Hn. split; [done|].
  apply Hmk; [lia|done].
Qed.

(** What [sfs_bmap] may change: the inode [v] at [sv] becomes [v'], unmarked
    blocks are taken, the indirect block is rewritten. *)
Record grows (sv : loc) (s : state) (v : sfs_vnode) (s' : state) (v' : sfs_vnode) : Prop := {
  g_svs : svs s' = <[sv := v']> (svs s);
  g_volume : volume s';
  g_env : same_env s s';
  g_file : file_ok s' (sv_i v');
  g_ino : sv_ino v' = sv_ino v;
  g_rest : sfi_size (sv_i v') = sfi_size (sv_i v) ∧ sfi_type (sv_i v') = sfi_type (sv_i v) ∧
    sfi_linkcount (sv_i v') = sfi_linkcount (sv_i v) ∧ sfi_waste (sv_i v') = sfi_waste (sv_i v);
  g_dirty : v' = v ∨ sv_dirty v' = true;
  g_marked : ∀ j, 0 ≤ j → marked s j = true → marked s' j = true;
  g_indirect : sfi_indirect (sv_i v') = sfi_indirect (sv_i v) ∨ marked s (sfi_indirect (sv_i v')) = false;
  g_sectors : ∀ b, 0 ≤ b → marked s b = true → b ≠ sfi_indirect (sv_i v) →
    sectors (sfs_device s') !! b = sectors (sfs_device s) !! b
}.

Lemma grows_refl sv s v d :
  svs s !! sv = Some v → volume (set_device d s) → same_env s (set_device d s) → file_ok s (sv_i v) →
  sectors d = sectors (sfs_device s) → grows sv s v (set_device d s) v.
Proof.
  intros Hv Hvol He [Hl [Hu Ho]] Hs. split; try done; [by rw insert_id | | by left | by left | by intros; rw /= Hs].
  split; [done|]. rw /mapping /= Hs. by split.
Qed.

Lemma grows_trans sv s1 v1 s2 v2 s3 v3 :
  grows sv s1 v1 s2 v2 → grows sv s2 v2 s3 v3 → grows sv s1 v1 s3 v3.
Proof.
  intros A B. split.
  - by rw (g_svs _ _ _ _ _ B) (g_svs _ _ _ _ _ A) insert_insert_eq.
  - apply B.
  - etrans; [apply A | apply B].
  - apply B.
  - rw (g_ino _ _ _ _ _ B). apply A.
  - destruct (g_rest _ _ _ _ _ B) as (-> & -> & -> & ->). apply A.
  - destruct (g_dirty _ _ _ _ _ B) as [->|]; [apply A | by right].
  - intros j Hj Hm. apply B; [done|]. by apply A.
  - destruct (g_indirect _ _ _ _ _ B) as [->|Hm]; [apply A|]. right.
    destruct (marked s1 _) eqn:E; [|done]. destruct (decide (0 ≤ sfi_indirect (sv_i v3))) as [Hp|Hp].
    + apply (g_marked _ _ _ _ _ A) in E; [congruence | done].
    + destruct (own_used _ _ (f_owns _ _ (g_file _ _ _ _ _ B)) 0 _ eq_refl); lia.
  - intros b Hb Hm Hn. rw (g_sectors _ _ _ _ _ B) //; [by apply A | by apply A |].
    intros ->. destruct (g_indirect _ _ _ _ _ A) as [Hi|Hi]; congruence.
Qed.

Section bmap.
Context `{!Hardware} (sv : loc).

Lemma wp_upd_inode f v s (Q : unit → state → Prop) :
  is_live sv s = true → svs s !! sv = Some v →
  Q tt (set_svs <[sv := SfsVnode (f (sv_i v)) (sv_ino v) true]> s) → wp (upd_inode sv f) Q s.
Proof.
  intros Hl Hv HQ. rw /upd_inode /upd_sv. wp_step. wp_step. eapply wp_deref; [by rw Hl|]. wp_step.
  wp_step. eapply wp_deref.
  - assert (is_live sv (set_svs (alter (on_inode f) sv) s) = true) as -> by done.
    by rw /= lookup_alter_eq Hv.
  - wp_step. move: HQ. rw /set_svs /=.
    assert (alter (set_dirty true) sv (alter (on_inode f) sv (svs s)) =
      <[sv := SfsVnode (f (sv_i v)) (sv_ino v) true]> (svs s)) as ->; [|done].
    apply map_eq. intros k. destruct (decide (k = sv)) as [->|].
    + by rw !lookup_alter_eq lookup_insert_eq Hv.
    + by rw !lookup_alter_ne // lookup_insert_ne.
Qed.

Lemma volume_svs f s : volume s → volume (set_svs f s).
Proof. by intros []. Qed.

Lemma taken_mapping s s' b i :
  volume s → file_ok s i → taken s s' b → mapping s' i = mapping s i.
Proof.
  intros Hv [_ [Hu _]] Ht. rw /mapping (tk_sectors _ _ _ Ht). case_bool_decide as H0; [done|].
  rw lookup_insert_ne //. intros ->. destruct (Hu 0%nat _ eq_refl H0) as [_ Hm].
  by rw (tk_free _ _ _ Ht) in Hm.
Qed.

(** A new direct block. *)
Lemma grow_direct s s1 v b k :
  volume s → svs s !! sv = Some v → file_ok s (sv_i v) → taken s s1 b → (k < SFS_NDIRECT)%nat →
  let v' := SfsVnode (set_direct k b (sv_i v)) (sv_ino v) true in
  let s' := set_svs <[sv := v']> s1 in
  grows sv s v s' v' ∧ mapping s' (sv_i v') = <[k := b]> (mapping s (sv_i v)).
Proof.
  intros Hv Hsv Hf Ht Hk v' s'.
  assert (mapping s' (sv_i v') = <[k := b]> (mapping s (sv_i v))) as Hmap.
  { rw -(taken_mapping _ _ _ _ Hv Hf Ht) /mapping /=. rw insert_app_l //. by rw (f_direct _ _ Hf). }
  split; [|done]. pose proof Ht as [Hr Hfree Hv1 He Hs Hmk Hsec]. split; try done.
  - by rw /= Hs.
  - by apply volume_svs.
  - split; [by rw /= length_insert (f_direct _ _ Hf)|]. rw Hmap.
    change (sfi_indirect _ :: <[k:=b]> _) with (<[S k := b]> (sfi_indirect (sv_i v) :: mapping s (sv_i v))).
    eapply owns_insert; [apply Hf | done..| by apply He | done].
  - by right.
  - intros j Hj Hm. change (marked s1 j = true). by rw Hmk // Hm orb_true_r.
  - by left.
  - intros c Hc Hm _. rw /= Hsec lookup_insert_ne //. congruence.
Qed.

(** A new indirect block. *)
Lemma grow_indirect s s1 v b :
  volume s → svs s !! sv = Some v → file_ok s (sv_i v) → taken s s1 b → sfi_indirect (sv_i v) = 0 →
  let v' := SfsVnode (set_indirect b (sv_i v)) (sv_ino v) true in
  let s' := set_svs <[sv := v']> s1 in
  grows sv s v s' v' ∧ mapping s' (sv_i v') = mapping s (sv_i v).
Proof.
  intros Hv Hsv Hf Ht H0 v' s'. pose proof Ht as [Hr Hfree Hv1 He Hs Hmk Hsec].
  assert (mapping s' (sv_i v') = mapping s (sv_i v)) as Hmap.
  { rw /mapping /= H0 Hsec lookup_insert_eq /=. f_equal. rw bool_decide_eq_false_2 //. lia. }
  split; [|done]. split; try done.
  - by rw /= Hs.
  - by apply volume_svs.
  - split; [apply Hf|]. rw Hmap.
    change (sfi_indirect _ :: _) with (<[0%nat := b]> (sfi_indirect (sv_i v) :: mapping s (sv_i v))).
    eapply owns_insert; [apply Hf | done..| by apply He | done].
  - by right.
  - intros j Hj Hm. change (marked s1 j = true). by rw Hmk // Hm orb_true_r.
  - by right.
  - intros c Hc Hm _. rw /= Hsec lookup_insert_ne //. congruence.
Qed.

(** A new entry of the indirect block. *)
Lemma grow_entry s s1 d' v b off buf :
  volume s → svs s !! sv = Some v → file_ok s (sv_i v) → taken s s1 b → (off < SFS_DBPERIDB)%nat →
  sfi_indirect (sv_i v) ≠ 0 → sectors (sfs_device s) !! sfi_indirect (sv_i v) = Some buf →
  volume (set_device d' s1) → same_env s1 (set_device d' s1) →
  sectors d' = <[sfi_indirect (sv_i v) := <[off := b]> buf]> (sectors (sfs_device s1)) →
  grows sv s v (set_device d' s1) v ∧
  mapping (set_device d' s1) (sv_i v) = <[(SFS_NDIRECT + off)%nat := b]> (mapping s (sv_i v)).
Proof.
  intros Hv Hsv Hf Ht Ho H0 Hbuf Hv2 He2 Hs2.
  pose proof Ht as [Hr Hfree Hv1 He Hs Hmk Hsec].
  assert (mapping (set_device d' s1) (sv_i v) = <[(SFS_NDIRECT + off)%nat := b]> (mapping s (sv_i v))) as Hmap.
  { rw /mapping bool_decide_eq_false_2 // Hbuf. rw -(f_direct _ _ Hf) insert_app_r. f_equal.
    by rw Hs2 lookup_insert_eq. }
  split; [|done]. split; try done.
  - by rw /= Hs insert_id.
  - by etrans.
  - split; [apply Hf|]. rw Hmap.
    change (sfi_indirect ?i :: <[?k := b]> ?l) with (<[S k := b]> (sfi_indirect i :: l)).
    eapply owns_insert; [apply Hf | done..| by apply He | done].
  - by left.
  - intros j Hj Hm. change (marked s1 j = true). by rw Hmk // Hm orb_true_r.
  - by left.
  - intros c Hc Hm Hn. rw /= Hs2 Hsec !lookup_insert_ne //. congruence.
Qed.

Lemma indirect_used s i : file_ok s i → sfi_indirect i ≠ 0 → 0 < sfi_indirect i < sb_nblocks s ∧ marked s (sfi_indirect i) = true.
Proof. intros Hf. by apply (own_used _ _ (f_owns _ _ Hf) 0). Qed.

Lemma get_indirect_spec k s v (Q : Z + Z * list Z → state → Prop) :
  held s → volume s → ready (S k) s → is_live sv s = true → svs s !! sv = Some v → file_ok s (sv_i v) →
  (sfi_indirect (sv_i v) = 0 → (∀ i, 0 ≤ i < sb_nblocks s → marked s i = true) → Q (inl ENOSPC) s) →
  (∀ s' v' buf, grows sv s v s' v' → ready k s' → mapping s' (sv_i v') = mapping s (sv_i v) →
     sfi_indirect (sv_i v') ≠ 0 → sectors (sfs_device s') !! sfi_indirect (sv_i v') = Some buf →
     length buf = SFS_DBPERIDB →
     (sfi_indirect (sv_i v) = 0 ∨ ∃ d', s' = set_device d' s ∧ v' = v ∧ sectors d' = sectors (sfs_device s)) →
     Q (inr (sfi_indirect (sv_i v'), buf)) s') →
  wp (get_indirect sv) Q s.
Proof.
  intros Hh Hv Hrd Hl Hsv Hf Hfull HQ. rw /get_indirect. wp_step. eapply wp_deref; [by rw Hl|].
  case_bool_decide as H0.
  - wp_step. apply (balloc_spec k); [done..|intros; wp_step; by apply Hfull|].
    intros b s1 Ht Hr1. cbn beta iota. wp_step. destruct (grow_indirect s s1 v b Hv Hsv Hf Ht H0) as [Hg Hm].
    eapply (wp_upd_inode _ v).
    { by rw (same_env_live _ _ _ (tk_env _ _ _ Ht)). }
    { by rw (tk_svs _ _ _ Ht). }
    wp_step. eapply (HQ _ _ _ Hg); try done.
    + simpl. pose proof (tk_range _ _ _ Ht). lia.
    + by rw /= (tk_sectors _ _ _ Ht) lookup_insert_eq.
    + by left.
  - destruct (indirect_used _ _ Hf H0) as [Hr Hm].
    wp_step. apply (readblock_ok k); [done..| lia | done |].
    intros d' data Hv' Hr' He' Hs' Hd Hlen. simpl. wp_step.
    apply (HQ (set_device d' s) v); try done.
    + by apply grows_refl.
    + by rw /mapping /= Hs'.
    + by rw /= Hs'.
    + right. by exists d'.
Qed.

(** What [sfs_bmap] gives for block [fb] of the file. *)
Definition bmap_result (s : state) (v : sfs_vnode) (fb : Z) (doalloc : bool) (r : Z + Z) (s' : state) : Prop :=
  ∃ v', grows sv s v s' v' ∧
  match r with
  | inl e => mapping s' (sv_i v') = mapping s (sv_i v) ∧
      (e = EFBIG ∧ 143 ≤ fb ∨
       e = ENOSPC ∧ doalloc = true ∧ mapping s (sv_i v) !! Z.to_nat fb = Some 0)
  | inr b => fb < 143 ∧
      mapping s' (sv_i v') = <[Z.to_nat fb := b]> (mapping s (sv_i v)) ∧
      ((mapping s (sv_i v) !! Z.to_nat fb = Some b ∧ (b ≠ 0 ∨ doalloc = false) ∧
        ∃ d', s' = set_device d' s ∧ sectors d' = sectors (sfs_device s)) ∨
       (mapping s (sv_i v) !! Z.to_nat fb = Some 0 ∧ doalloc = true ∧ 0 < b < sb_nblocks s ∧
        marked s b = false ∧ marked s' b = true ∧ sectors (sfs_device s') !! b = Some zeros))
  end.

(** With [k] more operations of the disk that will succeed. *)
Definition bmap_then (k : nat) (s : state) (v : sfs_vnode) (fb : Z) (doalloc : bool) (r : Z + Z) (s' : state) : Prop :=
  bmap_result s v fb doalloc r s' ∧ ready k s'.

Lemma same_device s : set_device (sfs_device s) s = s.
Proof. by destruct s. Qed.

(** A block that is there is handed back. *)
Lemma found k s v fb doalloc b :
  volume s → svs s !! sv = Some v → file_ok s (sv_i v) → 0 ≤ fb < 143 →
  mapping s (sv_i v) !! Z.to_nat fb = Some b → b ≠ 0 ∨ doalloc = false →
  ∀ d', volume (set_device d' s) → same_env s (set_device d' s) → sectors d' = sectors (sfs_device s) →
  ready k (set_device d' s) → wp (hand_back b) (bmap_then k s v fb doalloc) (set_device d' s).
Proof.
  intros Hv Hsv Hf Hfb Hm Hb d' Hv' He' Hs' Hk. apply hand_back_spec; [done| |].
  - intros Hb0. by apply (own_used _ _ (f_owns _ _ Hf) (S (Z.to_nat fb))).
  - split; [|done]. exists v. split; [by apply grows_refl|]. split; [lia|].
    assert (mapping (set_device d' s) (sv_i v) = mapping s (sv_i v)) as -> by (by rw /mapping /= Hs').
    split; [by rw list_insert_id|]. left. split; [done|]. split; [done|]. by exists d'.
Qed.

Lemma bmap_direct_spec k s v fb doalloc :
  held s → volume s → ready (3 + k) s → is_live sv s = true → svs s !! sv = Some v → file_ok s (sv_i v) →
  0 ≤ fb → fb < Z.of_nat SFS_NDIRECT →
  wp (sfs_bmap_direct sv (Z.to_nat fb) doalloc) (bmap_then k s v fb doalloc) s.
Proof.
  intros Hh Hv Hrd Hl Hsv Hf Hfb0 Hfb. pose proof (f_direct _ _ Hf) as Hd. unfold SFS_NDIRECT in Hfb, Hd.
  destruct (lookup_lt_is_Some_2 (sfi_direct (sv_i v)) (Z.to_nat fb)) as [b Hb]; [lia|].
  assert (mapping s (sv_i v) !! Z.to_nat fb = Some b) as Hm by (by rw /mapping; apply lookup_app_l_Some).
  rw /sfs_bmap_direct. wp_step. eapply wp_deref; [by rw Hl|]. wp_step. eapply wp_deref; [done|].
  bd_case (b = 0) as H0; simpl; [destruct doalloc; simpl|].
  - subst b. wp_step. apply (balloc_spec (2 + k)); try done.
    + intros Hfull. apply wp_ret. split; [|by apply (ready_le (3 + k)); first lia]. exists v. split; [|split; [done|by right]].
      rw -{2}(same_device s). apply grows_refl; rw ?same_device //.
    + intros b s1 Ht Hr1. cbn beta iota. wp_step.
      destruct (grow_direct s s1 v b (Z.to_nat fb) Hv Hsv Hf Ht) as [Hg Hmap].
      { unfold SFS_NDIRECT. lia. }
      pose proof Ht as [Hrange Hfree _ He Hs Hmk Hsec]. eapply (wp_upd_inode _ v).
      { by rw (same_env_live _ _ _ He). }
      { by rw Hs. }
      apply hand_back_spec; [apply Hg| |].
      * intros _. split; [by rw (proj1 (proj2 (g_env _ _ _ _ _ Hg)))|].
        change (marked s1 b = true). rw Hmk; [|lia]. by rw bool_decide_eq_true_2.
      * split; [|by apply (ready_le (2 + k)); first lia]. eexists. split; [exact Hg|]. split; [lia|]. split; [exact Hmap|]. right.
        do 4 (split; [done|]). split; [|by rw /= Hsec lookup_insert_eq].
        change (marked s1 b = true). rw Hmk; [|lia]. by rw bool_decide_eq_true_2.
  - rw -{2}(same_device s). apply found; try done; rw ?same_device //; [lia|by right|by apply (ready_le (3 + k)); first lia].
  - rw -{2}(same_device s). apply found; try done; rw ?same_device //; [lia|by left|by apply (ready_le (3 + k)); first lia].
Qed.

Lemma mapping_entry s i k : file_ok s i →
  mapping s i !! (SFS_NDIRECT + k)%nat =
    (if bool_decide (sfi_indirect i = 0) then zeros else default [] (sectors (sfs_device s) !! sfi_indirect i)) !! k.
Proof.
  intros Hf. rw /mapping -(f_direct _ _ Hf) lookup_app_r; [|lia]. f_equal. lia.
Qed.

Lemma zeros_lookup k : (k < SFS_DBPERIDB)%nat → zeros !! k = Some 0.
Proof. intros. by apply lookup_replicate_2. Qed.

(** The entry [n] of the indirect block [buf] is empty: a new block goes there. *)
Lemma fill_entry_spec k s v n s1 v1 buf :
  held s → volume s → 0 ≤ n < 128 → grows sv s v s1 v1 → ready (2 + k) s1 → sfi_indirect (sv_i v1) ≠ 0 →
  mapping s1 (sv_i v1) = mapping s (sv_i v) → mapping s (sv_i v) !! Z.to_nat (15 + n) = Some 0 →
  sectors (sfs_device s1) !! sfi_indirect (sv_i v1) = Some buf → length buf = SFS_DBPERIDB → buf !! Z.to_nat n = Some 0 →
  wp (r ← sfs_balloc;
      match r with
      | inl result => mret (inl result)
      | inr block =>
          result ← sfs_writeblock (sfi_indirect (sv_i v1)) (<[Z.to_nat n := block]> buf);
          if bool_decide (result ≠ 0) then mret (inl result) else hand_back block
      end) (bmap_then k s v (15 + n) true) s1.
Proof.
  intros Hh Hv Hn Hg Hr1 H1 Hmap Hm Hbuf Hlen Hb.
  assert (Z.to_nat (15 + n) = (15 + Z.to_nat n)%nat) as Hidx by lia.
  pose proof (same_env_held _ _ (g_env _ _ _ _ _ Hg) Hh) as Hh1.
  pose proof (g_volume _ _ _ _ _ Hg) as Hv1. pose proof (g_file _ _ _ _ _ Hg) as Hf1.
  destruct (indirect_used _ _ Hf1 H1) as [Hir Him].
  wp_step. apply (balloc_spec (1 + k)); try done.
  { intros _. apply wp_ret. split; [|by apply (ready_le (2 + k)); first lia]. exists v1. split; [done|]. split; [done|by right]. }
  intros b s2 Ht Hr2. cbn beta iota. pose proof Ht as [Hrange Hfree Hv2 He Hs Hmk Hsec].
  wp_step. apply (writeblock_ready k); try done.
  { by eapply same_env_held. }
  { rw (proj1 (proj2 He)). lia. }
  { by rw length_insert. }
  intros d' Hv3 Hr3 He3 Hs3. rw bool_decide_eq_false_2; [|by intros []].
  destruct (grow_entry s1 s2 d' v1 b (Z.to_nat n) buf) as [Hg2 Hmap2]; try done.
  { by rw (g_svs _ _ _ _ _ Hg) lookup_insert_eq. }
  { unfold SFS_DBPERIDB. lia. }
  assert (marked (set_device d' s2) b = true) as Hmb.
  { change (marked s2 b = true). rw Hmk; [|lia]. by rw bool_decide_eq_true_2. }
  apply hand_back_spec; [done| |].
  { intros _. split; [|done]. by rw (proj1 (proj2 He3)) (proj1 (proj2 He)). }
  split; [|exact Hr3]. exists v1. split; [by eapply grows_trans|]. split; [lia|]. split; [by rw Hmap2 Hmap Hidx|]. right.
  split; [done|]. split; [done|]. split; [by rw -(proj1 (proj2 (g_env _ _ _ _ _ Hg)))|].
  split; [|split; [done|]].
  + destruct (marked s b) eqn:E; [|done]. apply (g_marked _ _ _ _ _ Hg) in E; [congruence | lia].
  + rw Hs3 Hsec lookup_insert_ne ?lookup_insert_eq //. congruence.
Qed.

Lemma bmap_indirect_spec k s v n doalloc :
  held s → volume s → ready (3 + k) s → is_live sv s = true → svs s !! sv = Some v → file_ok s (sv_i v) → 0 ≤ n →
  wp (sfs_bmap_indirect sv n doalloc) (bmap_then k s v (15 + n) doalloc) s.
Proof.
  intros Hh Hv Hrd Hl Hsv Hf Hn. rw /sfs_bmap_indirect.
  assert (grows sv s v s v) as Hself by (rw -{2}(same_device s); apply grows_refl; rw ?same_device //).
  bd_case (n / Z.of_nat SFS_DBPERIDB >= SFS_NINDIRECT) as Hbig.
  { apply wp_ret. split; [|by apply (ready_le (3 + k)); first lia]. exists v. split; [done|]. split; [done|]. left. split; [done|].
    unfold SFS_NINDIRECT, SFS_DBPERIDB in Hbig. zlia. }
  assert (n < 128) as Hn2 by (unfold SFS_NINDIRECT, SFS_DBPERIDB in Hbig; zlia).
  assert (n mod Z.of_nat SFS_DBPERIDB = n) as -> by (unfold SFS_DBPERIDB; zlia).
  wp_step. eapply wp_deref; [by rw Hl|].
  pose proof (f_direct _ _ Hf) as Hd. unfold SFS_NDIRECT in Hd.
  assert (Z.to_nat (15 + n) = (15 + Z.to_nat n)%nat) as Hidx by lia.
  assert (Z.to_nat n < SFS_DBPERIDB)%nat as Hoff by (unfold SFS_DBPERIDB; lia).
  destruct (bool_decide (sfi_indirect (sv_i v) = 0) && negb doalloc) eqn:Hnone.
  { apply andb_true_iff in Hnone as [H0 ->%negb_true_iff].
    assert (mapping s (sv_i v) !! Z.to_nat (15 + n) = Some 0) as Hm.
    { rw Hidx mapping_entry // H0. by apply zeros_lookup. }
    apply wp_ret. split; [|by apply (ready_le (3 + k)); first lia]. exists v. split; [done|]. split; [lia|].
    split; [by rw list_insert_id|]. left. split; [done|]. split; [by right|].
    exists (sfs_device s). by rw same_device. }
  wp_step. apply (get_indirect_spec (2 + k) s v); try done.
  - intros H0 Hfull. apply wp_ret. split; [|by apply (ready_le (3 + k)); first lia]. exists v. split; [done|]. split; [done|]. right. split; [done|].
    rw bool_decide_eq_true_2 //= in Hnone. split; [by destruct doalloc|].
    rw Hidx mapping_entry // bool_decide_eq_true_2 //. by apply zeros_lookup.
  - intros s1 v1 buf Hg Hr1 Hmap H1 Hbuf Hlen Hkeep. cbn beta iota.
    destruct (lookup_lt_is_Some_2 buf (Z.to_nat n)) as [b Hb]; [by rw Hlen|].
    assert (mapping s (sv_i v) !! Z.to_nat (15 + n) = Some b) as Hm.
    { rw -Hmap Hidx mapping_entry; [|apply Hg]. rw bool_decide_eq_false_2 // Hbuf //. }
    wp_step. eapply wp_deref; [done|].
    assert (b ≠ 0 ∨ doalloc = false → wp (hand_back b) (bmap_then k s v (15 + n) doalloc) s1) as Hfound.
    { intros Hor. destruct Hkeep as [H0|(d' & -> & -> & Hs')].
      - rw Hidx mapping_entry // bool_decide_eq_true_2 // zeros_lookup // in Hm. simplify_eq.
        rw bool_decide_eq_true_2 // in Hnone. by destruct doalloc, Hor.
      - apply found; try done; [lia | apply Hg.. | by apply (ready_le (2 + k)); first lia]. }
    bd_case (b = 0) as Hb0; simpl; [destruct doalloc; simpl; [|by apply Hfound; right]|by apply Hfound; left].
    subst b. by apply (fill_entry_spec k s v n s1 v1 buf).
Qed.

Lemma bmap_spec k s v fb doalloc :
  held s → volume s → ready (3 + k) s → is_live sv s = true → svs s !! sv = Some v → file_ok s (sv_i v) →
  0 ≤ fb < 2 ^ 32 →
  wp (sfs_bmap sv fb doalloc) (bmap_then k s v fb doalloc) s.
Proof.
  intros Hh Hv Hrd Hl Hsv Hf Hfb. rw /sfs_bmap. wp_step. eapply wp_Ok; [by apply do_i_hold_held|].
  wp_step. apply wp_kassert; [done|]. bd_case (fb < Z.of_nat SFS_NDIRECT) as Hlt.
  - apply bmap_direct_spec; try done; lia.
  - rw u32_small; [|unfold SFS_NDIRECT in *; lia].
    replace fb with (15 + (fb - Z.of_nat SFS_NDIRECT)) at 2 by (unfold SFS_NDIRECT; lia).
    apply bmap_indirect_spec; try done. lia.
Qed.
End bmap.

(** ** A decision procedure for [owns] on a concrete list *)

Definition owns_check (s : state) (l : list Z) : bool :=
  let used b := bool_decide (b = 0) || bool_decide (0 < b < sb_nblocks s) && marked s b in
  let once (l : list Z) := bool_decide (NoDup (filter (λ b, b ≠ 0) l)) in
  forallb used l && once l.

Lemma owns_check_sound s l : owns_check s l = true → owns s l.
Proof.
  intros [Hu Ho%bool_decide_eq_true]%andb_true_iff. rw forallb_forall in Hu. split.
  - intros k b Hk Hb. pose proof (Hu b) as H. rw bool_decide_eq_false_2 //= in H.
    apply andb_true_iff in H as [?%bool_decide_eq_true ?]; [done|].
    apply list_elem_of_In. by eapply list_elem_of_lookup_2.
  - intros j k b Hj Hk Hb. by eapply NoDup_once.
Qed.
