(* ===== verification/SfsTrunc.v ===== *)
(** * Lemmas on truncation and on the VFS lock

    The recursive lock around [sfs_itrunc], and the release of blocks that are
    past the new end of a file. *)

From stdpp Require Import base tactics list gmap option numbers ssreflect.
From S2P Require Import Prelude Kern.
From S2P Require Import Uio Lhd Bitmap Sfs SfsFacts.

Open Scope Z_scope.

(** ** The recursive lock *)

(** Free, or held by the current thread; the depth agrees. *)
Definition biglock_ok (s : state) : Prop :=
  lock_free (vfs_biglock s) s ∧ vfs_biglock_depth s = 0 ∨
  held s ∧ 0 < vfs_biglock_depth s < 2 ^ 32 - 1.

(** The state after [vfs_biglock_acquire]. *)
Definition locked (s : state) : state :=
  if bool_decide (vfs_biglock_depth s = 0) then set_depth 1 (acquired (vfs_biglock s) s)
  else set_depth (vfs_biglock_depth s + 1) s.

Lemma biglock_acquire_ok s : biglock_ok s → vfs_biglock_acquire s = Ok tt (locked s).
Proof.
  intros [[Hf H0]|[Hh Hd]]; rw /vfs_biglock_acquire /locked.
  - rw bool_decide_eq_true_2 //. pose proof Hf as (l & k & Hp & Hl & Hk & Hn).
    assert (lock_do_i_hold (vfs_biglock s) s = Ok false s) as Hnot.
    { rw /lock_do_i_hold /lock_at /gets /mbind /M_bind Hp (proj2 (is_live_true l s) Hl) Hk /=.
      by rw Hn. }
    rw (bind_Ok _ _ s (vfs_biglock s) s) // (bind_Ok _ _ _ _ _ Hnot) (bind_Ok _ _ s (vfs_biglock_depth s) s) //.
    rw (bind_Ok _ _ _ _ _ (lock_acquire_ok _ _ Hf)). by rw /modify /acquired Hp Hk /= H0.
  - rw bool_decide_eq_false_2; [|lia].
    assert (lock_do_i_hold (vfs_biglock s) s = Ok true s) as Hmine by (by apply do_i_hold_held in Hh).
    rw (bind_Ok _ _ s (vfs_biglock s) s) // (bind_Ok _ _ _ _ _ Hmine) (bind_Ok _ _ s (vfs_biglock_depth s) s) //=.
    rw bool_decide_eq_false_2; [|lia]. rw (bind_Ok _ _ s tt s) // /modify. by rw u32_small; [|lia].
Qed.

(** A volume stays one when only locks and inodes in memory change. *)
Lemma volume_relock s s' :
  maps (fm s') = maps (fm s) → bytes (fm s') = bytes (fm s) → live (sys (fm s')) = live (sys (fm s)) →
  sfs_freemap s' = sfs_freemap s → sb_nblocks s' = sb_nblocks s → sfs_device s' = sfs_device s →
  volume s → volume s'.
Proof.
  intros Hm Hb Hl Hf Hn Hd [(m & ws & [] & ? & ?) Hs ? ?]. split.
  - exists m, ws. rw Hf Hn. split; [|done]. by split; rw ?Hm ?Hb ?Hl.
  - by rw /marked Hm Hb Hf.
  - by rw Hn Hd.
  - by rw Hd.
Qed.

Section locked.
Context (s : state) (Hok : biglock_ok s).

Lemma locked_held : held (locked s).
Proof.
  rw /locked. destruct Hok as [[Hf H0]|[Hh Hd]].
  - rw bool_decide_eq_true_2 //. pose proof (acquired_holds _ _ Hf) as Hh.
    assert (vfs_biglock (acquired (vfs_biglock s) s) = vfs_biglock s) as Hb.
    { destruct Hf as (l & k & Hp & Hl & Hk & Hn). by rw /acquired Hp Hk. }
    rw /held /= Hb. exact Hh.
  - by rw bool_decide_eq_false_2; [|lia].
Qed.

Lemma locked_same :
  maps (fm (locked s)) = maps (fm s) ∧ bytes (fm (locked s)) = bytes (fm s) ∧
  live (sys (fm (locked s))) = live (sys (fm s)) ∧ sfs_freemap (locked s) = sfs_freemap s ∧
  sb_nblocks (locked s) = sb_nblocks s ∧ sfs_device (locked s) = sfs_device s ∧
  svs (locked s) = svs s ∧ vfs_biglock (locked s) = vfs_biglock s.
Proof.
  rw /locked. destruct Hok as [[(l & k & Hp & Hl & Hk & Hn) H0]|[Hh Hd]].
  - rw bool_decide_eq_true_2 // /acquired Hp Hk. done.
  - by rw bool_decide_eq_false_2; [|lia].
Qed.

Lemma locked_marked i : marked (locked s) i = marked s i.
Proof. destruct locked_same as (Hm & Hb & _ & Hf & _). by rw /marked Hm Hb Hf. Qed.

Lemma locked_volume : volume s → volume (locked s).
Proof. destruct locked_same as (?&?&?&?&?&?&_). by apply volume_relock. Qed.

(** What [vfs_biglock_release] leaves of [s2]. *)
Definition relocked (s2 : state) : state :=
  set_depth (vfs_biglock_depth s) (with_base (set_lks (lks (sys (fm s))) (sys (fm s2))) s2).

Lemma locked_base :
  me (sys (fm (locked s))) = me (sys (fm s)) ∧ set_lks (lks (sys (fm s))) (sys (fm (locked s))) = sys (fm s).
Proof.
  rw /locked. destruct Hok as [[(l & k & Hp & Hl & Hk & Hn) H0]|[Hh Hd]].
  - rw bool_decide_eq_true_2 // /acquired Hp Hk /=. split; [done|]. by destruct (sys (fm s)).
  - rw bool_decide_eq_false_2; [|lia]. split; [done|]. rw /=. by destruct (sys (fm s)).
Qed.

Lemma biglock_release_any s2 (Q : unit → state → Prop) :
  vfs_biglock s2 = vfs_biglock s → vfs_biglock_depth s2 = vfs_biglock_depth (locked s) →
  lks (sys (fm s2)) = lks (sys (fm (locked s))) → me (sys (fm s2)) = me (sys (fm s)) →
  (∀ l, vfs_biglock s = Some l → l ∈ live (sys (fm s2))) →
  Q tt (relocked s2) → wp vfs_biglock_release Q s2.
Proof.
  intros Hb Hdep Hlks Hme Hlive HQ. destruct locked_base as [Hme0 _].
  destruct locked_same as (_ & _ & _ & _ & _ & _ & _ & Hlk).
  assert (held s2) as Hh.
  { destruct locked_held as (l & k & Hp & _ & Hk & Hn). rw Hlk in Hp. exists l, k. rw Hb /base_of /= Hlks Hme.
    split; [done|]. split; [by apply Hlive|]. split; [done|]. by rw Hn /= Hme0. }
  rw /vfs_biglock_release. wp_step. wp_step. wp_step.
  eapply wp_Ok; [by apply do_i_hold_held in Hh|]. wp_step. apply wp_kassert; [done|].
  wp_step. wp_step. wp_step. rw Hdep. destruct Hok as [[Hf H0]|[_ Hd]].
  - destruct Hf as (l & k & Hp & Hl & Hk & Hn). move: Hdep Hlks.
    rw /locked bool_decide_eq_true_2 //=. intros Hdep Hlks.
    apply wp_ret. do 4 wp_step. rw /= Hb.
    set (k' := Lockst (lk_name k) (lk_wchan k) (Some (me (base_of s)))).
    assert (lks (sys (fm s2)) = <[l := k']> (lks (sys (fm s)))) as Hlks2.
    { by rw Hlks /acquired Hp Hk. }
    eapply wp_Ok; [apply (lock_release_ok _ _ l k'); rw /= ?Hlks2 ?Hme //; [by apply Hlive | apply lookup_insert_eq]|].
    move: HQ. rw /relocked /upd_base /= H0 Hlks2 /set_lks /= insert_insert_eq insert_id.
    { by destruct (sys (fm s2)), s2, fm. }
    rw Hk /k'. by destruct k; simplify_eq/=.
  - move: Hdep Hlks. rw /locked bool_decide_eq_false_2; [|lia]. simpl. intros Hdep Hlks.
    apply wp_kassert; [apply bool_decide_eq_true_2; lia|]. do 4 wp_step. simpl.
    rw u32_small; [|lia]. rw bool_decide_eq_false_2; [|lia]. apply wp_ret. move: HQ.
    replace (vfs_biglock_depth s + 1 - 1) with (vfs_biglock_depth s) by lia.
    rw /relocked /set_fm /with_base /= -Hlks. by destruct (sys (fm s2)) eqn:E, s2, fm; simplify_eq/=.
Qed.

(** After a change that keeps the heap. *)
Lemma relocked_same s2 : same_env (locked s) s2 → relocked s2 = set_depth (vfs_biglock_depth s) (with_base (sys (fm s)) s2).
Proof. intros (_ & _ & _ & _ & Hsys & _). by rw /relocked Hsys (proj2 locked_base). Qed.

Lemma biglock_release_spec s2 (Q : unit → state → Prop) :
  same_env (locked s) s2 →
  Q tt (set_depth (vfs_biglock_depth s) (with_base (sys (fm s)) s2)) →
  wp vfs_biglock_release Q s2.
Proof.
  intros He HQ. destruct locked_same as (_ & _ & Hlive & _ & _ & _ & _ & Hlk).
  pose proof He as (_ & _ & Hb & Hdep & Hsys & _). apply biglock_release_any; [by rw Hb | done | by rw Hsys | rw Hsys; apply locked_base | |].
  - intros l Hl. rw Hsys. destruct locked_held as (l' & k & Hp & Hl' & _). rw Hlk Hl in Hp. by injection Hp as ->.
  - by rw relocked_same.
Qed.
End locked.

(** ** Giving blocks up *)

(** The list [l'] is [l] with some numbers replaced by 0. *)
Definition zeroed (l l' : list Z) : Prop :=
  length l' = length l ∧ ∀ k b, l !! k = Some b → l' !! k = Some b ∨ l' !! k = Some 0.

Lemma zeroed_in l l' b : zeroed l l' → b ≠ 0 → b ∈ l' → b ∈ l.
Proof.
  intros [Hl Hz] Hb [k Hk]%list_elem_of_lookup.
  destruct (lookup_lt_is_Some_2 l k) as [c Hc]; [rw -Hl; by eapply lookup_lt_Some|].
  apply list_elem_of_lookup. exists k. destruct (Hz k c Hc); congruence.
Qed.

Lemma zeroed_zero l l' : zeroed l l' → 0 ∈ l → 0 ∈ l'.
Proof.
  intros [_ Hz] [k Hk]%list_elem_of_lookup. apply list_elem_of_lookup. exists k. by destruct (Hz k 0 Hk).
Qed.

(** From [s], where the file's blocks are [l], to [s'], where they are [l']: the
    blocks missing in [l'] have become free, and no others. *)
Record cut (s : state) (l : list Z) (s' : state) (l' : list Z) : Prop := {
  c_volume : volume s';
  c_env : same_env s s';
  c_owns : owns s' l';
  c_zeroed : zeroed l l';
  c_marked : ∀ j, 0 ≤ j → marked s' j = true ↔ marked s j = true ∧ (j ∈ l → j ∈ l')
}.

Lemma cut_refl s l : volume s → owns s l → cut s l s l.
Proof. intros Hv Ho. split; [done | done | done | split; [done | auto] | naive_solver]. Qed.

Lemma cut_trans s1 l1 s2 l2 s3 l3 : cut s1 l1 s2 l2 → cut s2 l2 s3 l3 → cut s1 l1 s3 l3.
Proof.
  intros [Hv Ho He Hz Hm] [Hv' Ho' He' Hz' Hm']. split; try done; [by etrans| |].
  - split; [by rw (proj1 Hz') (proj1 Hz)|]. intros k b Hk.
    destruct (proj2 Hz k b Hk) as [H2|H2]; destruct (proj2 Hz' _ _ H2); auto.
  - intros j Hj. rw Hm' // Hm //. destruct (decide (j = 0)) as [->|H0].
    + pose proof (zeroed_zero _ _ Hz). pose proof (zeroed_zero _ _ Hz'). naive_solver.
    + pose proof (zeroed_in _ _ j Hz H0). pose proof (zeroed_in _ _ j Hz' H0). naive_solver.
Qed.

Lemma cut_svs f s l s' l' : cut s l s' l' → cut s l (set_svs f s') l'.
Proof. intros [Hv He Ho Hz Hm]. split; try done; [by apply volume_svs|]. by destruct Ho. Qed.

Lemma cut_device d s l s' l' :
  cut s l s' l' → volume (set_device d s') → same_env s (set_device d s') → cut s l (set_device d s') l'.
Proof. intros [_ _ Ho Hz Hm] Hv He. split; try done. by destruct Ho. Qed.

Lemma free_block `{!Hardware} s l k b (Q : unit → state → Prop) :
  volume s → owns s l → l !! k = Some b → b ≠ 0 →
  (∀ s', cut s l s' (<[k := 0]> l) → svs s' = svs s → sfs_device s' = sfs_device s → Q tt s') →
  wp (sfs_bfree b) Q s.
Proof.
  intros Hv Ho Hk Hb HQ. destruct (own_used _ _ Ho k b Hk Hb) as [Hr Hm].
  apply bfree_spec; [done..|]. intros f s' Hv' He Hmk. apply HQ; [|done..]. split; try done.
  - by eapply owns_clear.
  - split; [by rw length_insert|]. intros j c Hj. destruct (decide (j = k)) as [->|].
    + right. apply list_lookup_insert_eq. by eapply lookup_lt_Some.
    + left. by rw list_lookup_insert_ne.
  - intros j Hj. rw Hmk // andb_true_iff negb_true_iff bool_decide_eq_false. split.
    + intros [Hne Hmj]. split; [done|]. intros [i Hi]%list_elem_of_lookup. apply list_elem_of_lookup. exists i.
      rw list_lookup_insert_ne //. congruence.
    + intros [Hmj Hin]. split; [|done]. intros <-.
      pose proof (Hin (list_elem_of_lookup_2 _ _ _ Hk)) as [i Hi]%list_elem_of_lookup.
      apply list_lookup_insert_Some in Hi as [(_ & ? & _)|[Hne Hi]]; [congruence|]. by apply Hne, (own_once _ _ Ho _ _ b).
Qed.

(** [l] with the entries below [n] that [drop] selects cleared. *)
Definition cleared (drop : nat → bool) (n : nat) (l : list Z) : list Z :=
  imap (λ k b, if bool_decide (k < n)%nat && drop k then 0 else b) l.

Lemma cleared_lookup drop n l k :
  cleared drop n l !! k = (λ b, if bool_decide (k < n)%nat && drop k then 0 else b) <$> l !! k.
Proof. apply list_lookup_imap. Qed.

Lemma cleared_length drop n l : length (cleared drop n l) = length l.
Proof. apply length_imap. Qed.

Lemma cleared_0 drop l : cleared drop 0 l = l.
Proof. apply list_eq. intros k. rw cleared_lookup. by destruct (l !! k). Qed.

Lemma cleared_here drop n l : cleared drop n l !! n = l !! n.
Proof. rw cleared_lookup bool_decide_eq_false_2 /=; [|lia]. by destruct (l !! n). Qed.

Lemma cleared_S drop n l b :
  l !! n = Some b →
  cleared drop (S n) l = if drop n && bool_decide (b ≠ 0) then <[n := 0]> (cleared drop n l) else cleared drop n l.
Proof.
  intros Hb. apply list_eq. intros k. destruct (decide (k = n)) as [->|Hk].
  - rw cleared_lookup Hb bool_decide_eq_true_2 /=; [|lia]. destruct (drop n); simpl; [|by rw cleared_here Hb].
    case_bool_decide as H0.
    + rw list_lookup_insert_eq //. rw cleared_length. by eapply lookup_lt_Some.
    + rw cleared_here Hb. f_equal. lia.
  - assert (cleared drop (S n) l !! k = cleared drop n l !! k) as ->.
    { rw !cleared_lookup. destruct (l !! k); [|done]. simpl. do 2 f_equal.
      rw (bool_decide_ext (k < S n)%nat (k < n)%nat) //. lia. }
    destruct (_ && _); [|done]. by rw list_lookup_insert_ne.
Qed.

(** ** The two scans *)

Section scans.
Context `{!Hardware} (sv : loc).

Definition with_direct (l : list Z) (i : sfs_dinode) : sfs_dinode :=
  Dinode (sfi_size i) (sfi_type i) (sfi_linkcount i) l (sfi_indirect i) (sfi_waste i).

Definition past_direct (blocklen : Z) (i : nat) : bool := bool_decide (Z.of_nat i >= blocklen).
Definition past_indirect (blocklen : Z) (j : nat) : bool := bool_decide (blocklen < Z.of_nat (SFS_NDIRECT + j)).

(** After [n] rounds of the scan of the direct blocks; [E] are the entries of
    the indirect block. *)
Definition direct_scanned (s : state) (v : sfs_vnode) (E : list Z) (blocklen : Z) (n : nat) (s' : state) : Prop :=
  let D := sfi_direct (sv_i v) in
  let D' := cleared (past_direct blocklen) n D in
  ∃ v', svs s' = <[sv := v']> (svs s) ∧ sv_i v' = with_direct D' (sv_i v) ∧ sv_ino v' = sv_ino v ∧ sfs_device s' = sfs_device s ∧
    cut s (sfi_indirect (sv_i v) :: D ++ E) s' (sfi_indirect (sv_i v) :: D' ++ E).

Lemma itrunc_direct_spec s v E blocklen (Q : unit → state → Prop) :
  volume s → is_live sv s = true → svs s !! sv = Some v → length (sfi_direct (sv_i v)) = SFS_NDIRECT →
  owns s (sfi_indirect (sv_i v) :: sfi_direct (sv_i v) ++ E) →
  (∀ s', direct_scanned s v E blocklen SFS_NDIRECT s' → Q tt s') →
  wp (itrunc_direct sv blocklen) Q s.
Proof.
  intros Hv Hl Hsv Hlen Ho HQ. rw /itrunc_direct.
  apply (wp_fold_up (λ n _ s', direct_scanned s v E blocklen n s')).
  - exists v. rw cleared_0. split; [by rw insert_id|]. split; [by destruct (sv_i v)|]. do 2 (split; [done|]).
    by apply cut_refl.
  - intros i [] s1 Hi (v1 & Hs1 & Hi1 & Hn1 & Hd1 & Hc1).
    destruct (lookup_lt_is_Some_2 (sfi_direct (sv_i v)) i) as [b Hb]; [lia|].
    wp_step. eapply wp_deref.
    { rw (same_env_live _ _ _ (c_env _ _ _ _ Hc1)) Hl Hs1. apply lookup_insert_eq. }
    wp_step. eapply wp_deref; [by rw Hi1 /= cleared_here|].
    pose proof (cleared_S (past_direct blocklen) i _ _ Hb) as HS.
    pose proof (cleared_length (past_direct blocklen) i (sfi_direct (sv_i v))) as Hcl.
    bd_case (Z.of_nat i >= blocklen ∧ b ≠ 0) as Hfree.
    + destruct Hfree as [Hge Hb0]. rw /past_direct !bool_decide_eq_true_2 //= in HS.
      wp_step. eapply (free_block _ _ (S i) b); [apply Hc1 | apply Hc1 | | done |].
      { simpl. apply lookup_app_l_Some. by rw cleared_here. }
      intros s2 Hc2 Hs2 Hd2. apply (wp_upd_inode _ _ v1).
      { by rw (same_env_live _ _ _ (c_env _ _ _ _ Hc2)) (same_env_live _ _ _ (c_env _ _ _ _ Hc1)). }
      { rw Hs2 Hs1. apply lookup_insert_eq. }
      eexists. split; [by rw /= Hs2 Hs1 insert_insert_eq|]. split; [by rw /= Hi1 /set_direct HS|].
      split; [done|]. split; [by rw /= Hd2|]. rw HS. apply cut_svs. eapply cut_trans; [done|].
      move: Hc2. by rw /= insert_app_l; [|rw Hcl; lia].
    + wp_step. exists v1. rw HS. replace (past_direct blocklen i && bool_decide (b ≠ 0)) with false; [done|].
      rw /past_direct. symmetry. apply andb_false_iff. rw !bool_decide_eq_false.
      destruct (decide (b = 0)); [right|left]; naive_solver lia.
  - intros [] s1 H1. by apply HQ.
Qed.

(** After [n] rounds of the scan of the entries [E], behind the blocks [L]. *)
Definition entries_scanned (s : state) (L E : list Z) (blocklen : Z) (n : nat)
    (r : list Z * bool * bool) (s' : state) : Prop :=
  let E' := cleared (past_indirect blocklen) n E in
  ∃ hasnonzero iddirty, r = (E', hasnonzero, iddirty) ∧
    svs s' = svs s ∧ sfs_device s' = sfs_device s ∧ cut s (L ++ E) s' (L ++ E') ∧
    (hasnonzero = true ↔ ∃ k b, (k < n)%nat ∧ E' !! k = Some b ∧ b ≠ 0) ∧
    (iddirty = false → E' = E).

Lemma itrunc_scan_spec s L E blocklen (Q : list Z * bool * bool → state → Prop) :
  volume s → length E = SFS_DBPERIDB → owns s (L ++ E) →
  (∀ r s', entries_scanned s L E blocklen SFS_DBPERIDB r s' → Q r s') →
  wp (itrunc_scan blocklen E) Q s.
Proof.
  intros Hv Hlen Ho HQ. rw /itrunc_scan.
  apply (wp_fold_up (λ n r s', entries_scanned s L E blocklen n r s')).
  - exists false, false. rw cleared_0. do 3 (split; [done|]). split; [by apply cut_refl|].
    split; [|done]. split; [done|]. intros (k & b & ? & _). lia.
  - intros j r s1 Hj (hn & dirty & -> & Hs1 & Hd1 & Hc1 & Hhn & Hdirty).
    destruct (lookup_lt_is_Some_2 E j) as [b Hb]; [lia|].
    pose proof (cleared_S (past_indirect blocklen) j _ _ Hb) as HS.
    pose proof (cleared_length (past_indirect blocklen) j E) as Hcl.
    set (E' := cleared (past_indirect blocklen) j E) in *.
    assert (E' !! j = Some b) as Hbj by (by rw cleared_here).
    wp_step. eapply wp_deref; [done|]. wp_step.
    bd_case (blocklen < Z.of_nat (SFS_NDIRECT + j) ∧ b ≠ 0) as Hfree.
    + destruct Hfree as [Hlt Hb0]. rw /past_indirect !bool_decide_eq_true_2 //= in HS.
      wp_step. eapply (free_block _ _ (length L + j) b); [apply Hc1 | apply Hc1 | | done |].
      { by rw lookup_app_r ?Nat.add_sub_swap ?Nat.sub_diag; [|lia..]. }
      intros s2 Hc2 Hs2 Hd2. apply wp_ret. cbn beta iota. wp_step.
      eapply wp_deref; [by apply list_lookup_insert_eq; lia|]. apply wp_ret.
      exists hn, true. rw /= orb_false_r /past_indirect HS. split; [done|].
      split; [by rw Hs2|]. split; [by rw Hd2|]. split.
      { eapply cut_trans; [done|]. move: Hc2. by rw insert_app_r. }
      split; [|done]. rw Hhn. split; intros (k & c & Hk & Hc & H0); exists k, c.
      * rw list_lookup_insert_ne; [|lia]. split; [lia|done].
      * apply list_lookup_insert_Some in Hc as [(_ & ? & _)|[? Hc]]; [congruence|]. split; [lia|done].
    + apply wp_ret. cbn beta iota. wp_step. eapply wp_deref; [done|]. apply wp_ret.
      assert (past_indirect blocklen j && bool_decide (b ≠ 0) = false) as Hno.
      { rw /past_indirect. apply andb_false_iff. rw !bool_decide_eq_false.
        destruct (decide (b = 0)); [right|left]; naive_solver lia. }
      rw Hno in HS. eexists _, dirty. rw HS. split; [done|]. do 3 (split; [done|]). split; [|done].
      rw orb_true_iff Hhn bool_decide_eq_true. split.
      * intros [(k & c & ? & ? & ?)|?]; [exists k, c|exists j, b]; (split; [lia|done]).
      * intros (k & c & Hk & Hc & H0). destruct (decide (k = j)) as [->|]; [right; congruence|].
        left. exists k, c. split; [lia|done].
  - intros r s1 H1. by apply HQ.
Qed.

(** ** The indirect block *)

Definition entries (s : state) (i : sfs_dinode) : list Z :=
  if bool_decide (sfi_indirect i = 0) then zeros else default [] (sectors (sfs_device s) !! sfi_indirect i).

Lemma mapping_entries s i : mapping s i = sfi_direct i ++ entries s i.
Proof. done. Qed.

(** All the blocks of a file. *)
Definition blocks (s : state) (i : sfs_dinode) : list Z := sfi_indirect i :: mapping s i.

Lemma entries_length s i : volume s → file_ok s i → length (entries s i) = SFS_DBPERIDB.
Proof.
  intros Hv Hf. rw /entries. case_bool_decide as H0; [apply length_replicate|].
  destruct (indirect_used _ _ Hf H0) as [Hr _]. pose proof (vol_blocks _ Hv).
  destruct (r_sectors _ (vol_device _ Hv) (sfi_indirect i)) as (l & -> & Hl); [lia|done].
Qed.

Lemma cleared_nothing d n l : (∀ k b, l !! k = Some b → b ≠ 0 → d k = false) → cleared d n l = l.
Proof.
  intros Hd. apply list_eq. intros k. rw cleared_lookup. destruct (l !! k) as [b|] eqn:Hb; [|done]. simpl.
  destruct (decide (b = 0)) as [->|H0]; [by destruct (_ && _)|]. by rw (Hd k b) // andb_false_r.
Qed.

Lemma all_zero l : length l = SFS_DBPERIDB → (∀ k b, l !! k = Some b → b = 0) → l = zeros.
Proof.
  intros Hl Hz. apply list_eq. intros k. destruct (l !! k) as [b|] eqn:Hb.
  - rw (Hz k b Hb). symmetry. apply zeros_lookup. rw -Hl. by eapply lookup_lt_Some.
  - symmetry. apply lookup_ge_None. apply lookup_ge_None in Hb. by rw /zeros length_replicate -Hl.
Qed.

(** What the indirect part of the truncation does. *)
Definition indirect_cut (s : state) (v : sfs_vnode) (blocklen : Z) (r : Z) (s' : state) : Prop :=
  r = 0 ∧ ∃ v' x, svs s' = <[sv := v']> (svs s) ∧ sv_i v' = set_indirect x (sv_i v) ∧ sv_ino v' = sv_ino v ∧
    cut s (blocks s (sv_i v)) s' (blocks s' (sv_i v')) ∧
    entries s' (sv_i v') = cleared (past_indirect blocklen) SFS_DBPERIDB (entries s (sv_i v)) ∧
    (blocklen < 142 → x ≠ 0 → ∃ k b, entries s' (sv_i v') !! k = Some b ∧ b ≠ 0) ∧
    (∀ b, b ≠ sfi_indirect (sv_i v) → sectors (sfs_device s') !! b = sectors (sfs_device s) !! b).

Lemma cut_from_device d s l s' l' :
  same_env s (set_device d s) → cut (set_device d s) l s' l' → cut s l s' l'.
Proof. intros He [Hv He' Ho Hz Hm]. split; try done. by etrans. Qed.

Lemma set_indirect_same i : set_indirect (sfi_indirect i) i = i.
Proof. by destruct i. Qed.

(** Nothing to be given up. *)
Lemma indirect_untouched s v blocklen :
  volume s → svs s !! sv = Some v → file_ok s (sv_i v) →
  ¬ (blocklen < Z.of_nat (SFS_NDIRECT + SFS_DBPERIDB) - 1 ∧ sfi_indirect (sv_i v) ≠ 0) →
  indirect_cut s v blocklen 0 s.
Proof.
  intros Hv Hsv Hf Hdo. pose proof (entries_length _ _ Hv Hf) as Hlen.
  split; [done|]. exists v, (sfi_indirect (sv_i v)). split; [by rw insert_id|].
  split; [by rw set_indirect_same|]. split; [done|]. split; [apply cut_refl; [done|apply Hf]|]. split; [|split; [|done]].
  - symmetry. apply cleared_nothing. intros k b Hk Hb. apply bool_decide_eq_false.
    apply lookup_lt_Some in Hk as Hk'. rw Hlen in Hk'.
    destruct (decide (sfi_indirect (sv_i v) = 0)) as [H0|H0].
    + rw /entries bool_decide_eq_true_2 // zeros_lookup // in Hk. congruence.
    + unfold SFS_NDIRECT, SFS_DBPERIDB in *. naive_solver lia.
  - unfold SFS_NDIRECT, SFS_DBPERIDB in Hdo. intros. exfalso. apply Hdo. split; [lia|done].
Qed.

(** What is left of the indirect block is written back if it has changed. *)
Lemma indirect_kept k s s2 v blocklen (dirty : bool) :
  let E' := cleared (past_indirect blocklen) SFS_DBPERIDB (entries s (sv_i v)) in
  held s → svs s !! sv = Some v → svs s2 = svs s → sfi_indirect (sv_i v) ≠ 0 → 0 < sfi_indirect (sv_i v) < sb_nblocks s →
  sectors (sfs_device s2) = sectors (sfs_device s) → length E' = SFS_DBPERIDB →
  cut s (sfi_indirect (sv_i v) :: sfi_direct (sv_i v) ++ entries s (sv_i v)) s2 (sfi_indirect (sv_i v) :: sfi_direct (sv_i v) ++ E') →
  (dirty = false → E' = entries s (sv_i v)) → (∃ k b, E' !! k = Some b ∧ b ≠ 0) → ready (1 + k) s2 →
  wp (if dirty then sfs_writeblock (sfi_indirect (sv_i v)) E' else mret 0)
    (λ r s', indirect_cut s v blocklen r s' ∧ ready k s') s2.
Proof.
  intros E' Hh Hsv Hs2 H0 Hr Hsec HlenE Hc2 Hdirty Hkept Hrd. destruct dirty.
  - apply (writeblock_ready k); try done.
    + eapply same_env_held; [apply Hc2 | done].
    + apply Hc2.
    + by rw (proj1 (proj2 (c_env _ _ _ _ Hc2))); lia.
    + intros d3 Hv3 Hrd3 He3 Hs3. split; [|done]. split; [done|]. exists v, (sfi_indirect (sv_i v)).
      assert (entries (set_device d3 s2) (sv_i v) = E') as HE3.
      { by rw /entries bool_decide_eq_false_2 //= Hs3 lookup_insert_eq. }
      split; [by rw /= Hs2 insert_id|]. split; [by rw set_indirect_same|]. split; [done|].
      rw /blocks mapping_entries mapping_entries HE3. split.
      { apply cut_device; [done..|]. etrans; [apply Hc2 | done]. }
      split; [done|]. split; [done|]. intros b Hb. by rw /= Hs3 lookup_insert_ne // Hsec.
  - apply wp_ret. split; [|by apply (ready_le (1 + k)); [lia|]]. split; [done|]. exists v, (sfi_indirect (sv_i v)).
    assert (entries s2 (sv_i v) = entries s (sv_i v)) as HE2 by (by rw /entries Hsec).
    rw /blocks !mapping_entries HE2 -/E' -(Hdirty eq_refl).
    split; [by rw Hs2 insert_id|]. split; [by rw set_indirect_same|]. split; [done|]. split; [by rw {1}(Hdirty eq_refl)|].
    split; [done|]. split; [done|]. intros b Hb. by rw Hsec.
Qed.

Lemma itrunc_indirect_spec k s v blocklen :
  held s → volume s → ready (2 + k) s → is_live sv s = true → svs s !! sv = Some v → file_ok s (sv_i v) →
  wp (itrunc_indirect sv blocklen) (λ r s', indirect_cut s v blocklen r s' ∧ ready k s') s.
Proof.
  intros Hh Hv Hrd Hl Hsv Hf. pose proof (entries_length _ _ Hv Hf) as Hlen.
  pose proof (f_owns _ _ Hf) as Ho.
  rw /itrunc_indirect. wp_step. eapply wp_deref; [by rw Hl|]. cbn zeta.
  bd_case (blocklen < Z.of_nat (SFS_NDIRECT + SFS_DBPERIDB) - 1 ∧ sfi_indirect (sv_i v) ≠ 0) as Hdo; last first.
  { apply wp_ret. split; [by apply indirect_untouched | by apply (ready_le (2 + k)); [lia|]]. }
  destruct Hdo as [Hlt H0]. destruct (indirect_used _ _ Hf H0) as [Hr Hm].
  wp_step. apply (readblock_ok (1 + k)); [done..|lia|done|].
  intros d' data Hv1 Hr1 He1 Hs1 Hdata Hdl. simpl. wp_step.
  assert (entries s (sv_i v) = data) as HE.
  { by rw /entries bool_decide_eq_false_2 // Hdata. }
  apply (itrunc_scan_spec _ (sfi_indirect (sv_i v) :: sfi_direct (sv_i v))); try done.
  { rw -HE. by destruct Ho. }
  intros r s2 (hn & dirty & -> & Hs2 & Hd2 & Hc2 & Hhn & Hdirty). cbn beta iota. rw -HE in Hc2, Hhn, Hdirty |- *.
  set (E' := cleared (past_indirect blocklen) SFS_DBPERIDB (entries s (sv_i v))) in *.
  assert (length E' = SFS_DBPERIDB) as HlenE by (by rw cleared_length).
  apply cut_from_device in Hc2; [|done]. simpl in Hs2, Hd2.
  assert (sectors (sfs_device s2) = sectors (sfs_device s)) as Hsec by (by rw Hd2).
  assert (ready (1 + k) s2) as Hrd2 by (by rw /ready Hd2).
  destruct hn; simpl.
  - apply indirect_kept; try done. destruct (proj1 Hhn eq_refl) as (j & b & _ & ?). by exists j, b.
  - assert (E' = zeros) as HEz.
    { apply all_zero; [done|]. intros j b Hk. destruct (decide (b = 0)) as [|Hb]; [done|].
      assert (false = true); [|done]. apply Hhn. exists j, b. split; [|done]. rw -HlenE. by eapply lookup_lt_Some. }
    wp_step. eapply (free_block _ _ 0 (sfi_indirect (sv_i v))); [apply Hc2 | apply Hc2 | done..|].
    intros s3 Hc3 Hs3 Hd3. wp_step. apply (wp_upd_inode _ _ v).
    { by rw (same_env_live _ _ _ (c_env _ _ _ _ Hc3)) (same_env_live _ _ _ (c_env _ _ _ _ Hc2)). }
    { by rw Hs3 Hs2. }
    wp_step. split; [|apply (ready_le (1 + k)); [lia|]; by rw /ready /= Hd3]. split; [done|]. eexists _, 0.
    split; [by rw /= Hs3 Hs2|]. do 2 (split; [done|]).
    rw /blocks !mapping_entries /=.
    split; [|split; [done|split; [done|]]].
    + apply cut_svs. eapply cut_trans; [done|]. move: Hc3. by rw /= HEz.
    + intros b Hb. by rw Hd3 Hsec.
Qed.
End scans.

(** ** The whole truncation *)

Lemma cut_unlock s (Hok : biglock_ok s) f l s2 l' :
  cut (locked s) l s2 l' →
  cut s l (set_depth (vfs_biglock_depth s) (with_base (sys (fm s)) (set_svs f s2))) l'.
Proof.
  destruct (locked_same _ Hok) as (Hmp & _ & Hl & Hf & Hn & Hd & _ & Hlk).
  intros [Hv (He1 & He2 & He3 & _ & He5 & He6 & He7) Ho Hz Hm]. split; [| | by destruct Ho | done |].
  - eapply (volume_relock s2); try done. by rw /= He5.
  - rw Hd in He6. repeat split; simpl; congruence.
  - intros j Hj. rw -(locked_marked _ Hok). by apply Hm.
Qed.

Lemma mapping_truncated D E n (fb : nat) :
  length D = SFS_NDIRECT → length E = SFS_DBPERIDB → (fb < 143)%nat →
  (cleared (past_direct n) SFS_NDIRECT D ++ cleared (past_indirect n) SFS_DBPERIDB E) !! fb =
    if bool_decide (Z.of_nat fb < n ∨ 15 ≤ Z.of_nat fb ≤ n) then (D ++ E) !! fb else Some 0.
Proof.
  intros HD HE Hfb. unfold SFS_NDIRECT, SFS_DBPERIDB in *. destruct (decide (fb < 15)%nat) as [Hlt|Hge].
  - rw !lookup_app_l ?cleared_length ?HD //. destruct (lookup_lt_is_Some_2 D fb) as [b Hb]; [lia|].
    rw cleared_lookup Hb /= bool_decide_eq_true_2 //= /past_direct.
    repeat case_bool_decide; done || (exfalso; lia).
  - rw !lookup_app_r ?cleared_length ?HD //; [|lia..]. destruct (lookup_lt_is_Some_2 E (fb - 15)) as [b Hb]; [lia|].
    rw cleared_lookup Hb /= bool_decide_eq_true_2; [|lia]. rw /= /past_indirect /SFS_NDIRECT.
    repeat case_bool_decide; done || (exfalso; lia).
Qed.
