(* ===== verification/SfsThms.v ===== *)
(** * Theorems on the block layer of SFS

    Retries of block I/O, the mapping of file blocks, truncation. *)

From stdpp Require Import base tactics list gmap option numbers ssreflect.
From S2P Require Import Prelude Kern.
From S2P Require Import Uio Lhd Bitmap Sfs SfsFacts SfsTrunc.

Open Scope Z_scope.

Section thms.
Context `{!Hardware}.

(** C17: block I/O against an unreliable disk, for a block of the device, with
    the VFS lock held and the driver at rest, when the interrupts to come end
    the attempts as listed. A read is repeated after a media error and delivers
    the sector when one of the first eleven attempts succeeds; after eleven
    failures it returns [EIO]; the disk is never changed. A write that succeeds
    at once has stored the block. But a write that ends in a media error is
    reported as a success as well: [lhd_io] has already taken the block out of
    the [uio], so the second attempt transfers nothing. *)
Theorem sfs_block_io_retries s b old mem n rest :
  held s → at_rest (sfs_device s) → 0 ≤ b < d_blocks (sfs_device s) →
  sectors (sfs_device s) !! b = Some old → length mem = 128%nat → (n ≤ 10)%nat →
  (∀ old new, length old = 128%nat → length new = 128%nat → length (media_fault old new) = 128%nat) →
  (arrivals (irqs (sfs_device s)) (replicate n LHD_MEDIA ++ [LHD_OK]) rest →
     wp (sfs_readblock b) (λ r s', r = (0, old) ∧ irqs (sfs_device s') = rest ∧
       sectors (sfs_device s') = sectors (sfs_device s)) s) ∧
  (arrivals (irqs (sfs_device s)) (replicate 11 LHD_MEDIA) rest →
     wp (sfs_readblock b) (λ r s', r.1 = EIO ∧ irqs (sfs_device s') = rest ∧
       sectors (sfs_device s') = sectors (sfs_device s)) s) ∧
  (arrivals (irqs (sfs_device s)) [LHD_OK] rest →
     wp (sfs_writeblock b mem) (λ r s', r = 0 ∧ irqs (sfs_device s') = rest ∧
       sectors (sfs_device s') = <[b := mem]> (sectors (sfs_device s))) s) ∧
  (arrivals (irqs (sfs_device s)) [LHD_MEDIA] rest →
     wp (sfs_writeblock b mem) (λ r s', r = 0 ∧ irqs (sfs_device s') = rest ∧
       sectors (sfs_device s') = <[b := media_fault old mem]> (sectors (sfs_device s))) s).
Proof.
  intros Hh Hr Hb Ho Hm Hn Hf. repeat split; intros Ha.
  - apply (readblock_retries n _ rest); try done. intros d' _ _ Hs Hi. by rw Hs Ho.
  - rw /sfs_readblock. wp_step. rw /sfs_rwblock. wp_step.
    eapply wp_Ok; [by apply do_i_hold_held|]. wp_step. apply wp_kassert; [done|].
    apply (read_gives_up 10 _ _ _ rest); try done; lia.
  - by apply (writeblock_ok _ _ [] rest).
  - apply (writeblock_media _ _ rest); try done. intros d' Hs Hi. by rw Hs Ho.
Qed.

(** C9: [sfs_bmap] of any 32-bit [fileblock], on a file, with its inode in
    memory, of a mounted volume whose disk answers the next three operations,
    with the VFS lock held. It returns the block mapped at [fileblock], or 0 if
    there is none and none is wanted, leaving the volume as it is; or a block
    that was free, now marked, filled with zeros and mapped at [fileblock] only.
    It fails with [EFBIG] past the last block of an indirect block and with
    [ENOSPC] on a full disk, the mapping unchanged. Always the file's blocks
    stay distinct, within the volume and marked, a changed inode is dirty, and
    the sectors in use by others keep their contents; no panic is reached. *)
Theorem sfs_bmap_maps sv s v fb doalloc :
  held s → volume s → ready 3 s → is_live sv s = true → svs s !! sv = Some v → file_ok s (sv_i v) →
  0 ≤ fb < 2 ^ 32 →
  wp (sfs_bmap sv fb doalloc) (bmap_result sv s v fb doalloc) s.
Proof.
  intros Hh Hv Hrd Hl Hsv Hf Hfb. eapply wp_mono; [by apply (bmap_spec sv 0)|]. by intros r s' [? _].
Qed.

Lemma length_in_blocks_spec len : 0 ≤ len < 2 ^ 32 → length_in_blocks len = (len + 511) / 512.
Proof.
  intros. rw /length_in_blocks /SFS_BLOCKSIZE (s64_small (len + 512)); [|lia]. rw s64_small; [|lia].
  rw Z.quot_div_nonneg; [|lia..]. rw u32_small; [|zlia]. f_equal. lia.
Qed.

(** What [sfs_itrunc] does to a file. *)
Record truncated (sv : loc) (s : state) (v : sfs_vnode) (len : Z) (s' : state) (v' : sfs_vnode) : Prop := {
  tr_svs : svs s' = <[sv := v']> (svs s);
  tr_size : sfi_size (sv_i v') = len;
  tr_dirty : sv_dirty v' = true;
  tr_ino : sv_ino v' = sv_ino v;
  tr_rest : sfi_type (sv_i v') = sfi_type (sv_i v) ∧ sfi_linkcount (sv_i v') = sfi_linkcount (sv_i v) ∧
    sfi_waste (sv_i v') = sfi_waste (sv_i v);
  tr_file : file_ok s' (sv_i v');
  tr_mapping : ∀ fb : nat, (fb < 143)%nat → mapping s' (sv_i v') !! fb =
    if bool_decide (Z.of_nat fb < (len + 511) / 512 ∨ 15 ≤ Z.of_nat fb ≤ (len + 511) / 512) then mapping s (sv_i v) !! fb else Some 0;
  tr_cut : cut s (blocks s (sv_i v)) s' (blocks s' (sv_i v'));
  tr_indirect : (len + 511) / 512 < 142 → sfi_indirect (sv_i v') ≠ 0 →
    ∃ fb b, (15 ≤ fb)%nat ∧ mapping s' (sv_i v') !! fb = Some b ∧ b ≠ 0;
  tr_sectors : ∀ b, b ≠ sfi_indirect (sv_i v) → sectors (sfs_device s') !! b = sectors (sfs_device s) !! b
}.

(** The two scans, the new size and the lock together; [v1] and [v2] are the inode
    after the scans. *)
Lemma truncated_unlock sv s v n v1 x v2 len s2 (Hok : biglock_ok s) :
  n = (len + 511) / 512 → file_ok s (sv_i v) → volume s →
  sv_i v1 = with_direct (cleared (past_direct n) SFS_NDIRECT (sfi_direct (sv_i v))) (sv_i v) →
  sv_i v2 = set_indirect x (sv_i v1) → sv_ino v2 = sv_ino v → svs s2 = <[sv := v2]> (svs s) →
  entries s2 (sv_i v2) = cleared (past_indirect n) SFS_DBPERIDB (entries s (sv_i v)) →
  (n < 142 → x ≠ 0 → ∃ k b, entries s2 (sv_i v2) !! k = Some b ∧ b ≠ 0) →
  cut (locked s) (blocks s (sv_i v)) s2 (blocks s2 (sv_i v2)) →
  (∀ b, b ≠ sfi_indirect (sv_i v) → sectors (sfs_device s2) !! b = sectors (sfs_device s) !! b) →
  let v3 := SfsVnode (set_size len (sv_i v2)) (sv_ino v2) true in
  truncated sv s v len (set_depth (vfs_biglock_depth s) (with_base (sys (fm s)) (set_svs <[sv := v3]> s2))) v3.
Proof.
  intros -> Hf Hv Hi1 Hi2 Hn2 Hs2 HE2 Hk2 Hc Hsec v3.
  assert (sfi_direct (sv_i v2) = cleared (past_direct ((len + 511) / 512)) SFS_NDIRECT (sfi_direct (sv_i v))) as HD2 by (by rw Hi2 Hi1).
  apply (cut_unlock s Hok <[sv := v3]>) in Hc. split; try done.
  - by rw /= Hs2 insert_insert_eq.
  - by rw /= Hi2 Hi1.
  - split; [by rw /= HD2 cleared_length (f_direct _ _ Hf) | apply Hc].
  - intros fb Hfb. rw (mapping_entries s) -mapping_truncated ?(f_direct _ _ Hf) // ?entries_length //.
    by rw -HE2 -HD2.
  - simpl. rw Hi2 /=. intros Hn Hx. destruct (Hk2 Hn Hx) as (k & b & Hk & Hb).
    exists (SFS_NDIRECT + k)%nat, b. split; [unfold SFS_NDIRECT; lia|]. split; [|done].
    assert (SFS_NDIRECT = length (sfi_direct (sv_i v1))) as HD by (by rw Hi1 /= cleared_length (f_direct _ _ Hf)).
    rw -Hk Hi2 /mapping HD lookup_app_r /=; [|lia]. by rw Nat.add_comm Nat.add_sub.
Qed.

Lemma itrunc_spec k sv s v len :
  biglock_ok s → volume s → ready (2 + k) s → is_live sv s = true → svs s !! sv = Some v → file_ok s (sv_i v) →
  0 ≤ len < 2 ^ 32 →
  wp (sfs_itrunc sv len) (λ r s', r = 0 ∧ ready k s' ∧ ∃ v', truncated sv s v len s' v') s.
Proof.
  intros Hok Hv Hrd Hl Hsv Hf Hlen. rw /sfs_itrunc length_in_blocks_spec //. set (n := (len + 511) / 512).
  pose proof (locked_held _ Hok) as Hh0. pose proof (locked_volume _ Hok Hv) as Hv0.
  pose proof (locked_marked _ Hok) as Hm0.
  destruct (locked_same _ Hok) as (_ & _ & Hlive & _ & Hnb & Hdev & Hsvs & _).
  set (s0 := locked s) in *.
  assert (file_ok s0 (sv_i v)) as Hf0.
  { split; [apply Hf|]. rw /mapping Hdev. apply (owns_mono s); [apply Hf | done|]. intros. by rw Hm0. }
  wp_step. eapply wp_Ok; [by apply biglock_acquire_ok|]. rw -/s0. wp_step.
  apply (itrunc_direct_spec sv s0 v (entries s0 (sv_i v))); try done.
  { by rw /is_live /= Hlive. }
  { by rw Hsvs. }
  { apply Hf. }
  { apply Hf0. }
  intros s1 (v1 & Hs1 & Hi1 & Hn1 & Hd1 & Hc1). wp_step.
  assert (sfi_indirect (sv_i v1) = sfi_indirect (sv_i v)) as Hind by (by rw Hi1).
  assert (entries s1 (sv_i v1) = entries s (sv_i v)) as HE1 by (by rw /entries Hind Hd1 Hdev).
  assert (entries s0 (sv_i v) = entries s (sv_i v)) as HE0 by (by rw /entries Hdev).
  assert (blocks s1 (sv_i v1) = sfi_indirect (sv_i v) ::
    cleared (past_direct n) SFS_NDIRECT (sfi_direct (sv_i v)) ++ entries s0 (sv_i v)) as Hbl1.
  { by rw /blocks mapping_entries Hind HE1 Hi1 HE0. }
  assert (file_ok s1 (sv_i v1)) as Hf1.
  { split; [rw Hi1 /= cleared_length; apply Hf|]. rw -/(blocks s1 (sv_i v1)) Hbl1. apply Hc1. }
  assert (is_live sv s1 = true) as Hl1 by (rw (same_env_live _ _ _ (c_env _ _ _ _ Hc1)) /is_live /= Hlive; exact Hl).
  eapply wp_mono; [apply (itrunc_indirect_spec sv k s1 v1); try done|].
  { eapply same_env_held; [apply Hc1 | done]. }
  { apply Hc1. }
  { rw /ready Hd1 Hdev. exact Hrd. }
  { rw Hs1; apply lookup_insert_eq. }
  intros r s2 [(-> & v2 & x & Hs2 & Hi2 & Hn2 & Hc2 & HE2 & Hk2 & Hsec2) Hrd2]. rw bool_decide_eq_false_2; [|by intros []].
  wp_step. apply (wp_upd_inode _ _ v2).
  { by rw (same_env_live _ _ _ (c_env _ _ _ _ Hc2)). }
  { rw Hs2. apply lookup_insert_eq. }
  wp_step. rw Hbl1 in Hc2. pose proof (cut_trans _ _ _ _ _ _ Hc1 Hc2) as Hc.
  apply (biglock_release_spec s Hok); [apply Hc|]. wp_step. split; [done|]. split; [exact Hrd2|]. eexists. rw u32_small //.
  apply (truncated_unlock sv s v n v1 x v2); try done; [congruence | by rw Hs2 Hs1 Hsvs insert_insert_eq | by rw HE2 HE1 | |].
  - move: Hc. by rw HE0.
  - intros b Hb. rw Hsec2 ?Hind // Hd1 Hdev //.
Qed.

(** C10: [sfs_itrunc], called with or without the VFS lock, on a file of a
    mounted volume whose disk answers the next two operations, with the inode in
    memory and a length below 2^32: it returns 0, the size is the new length and
    the inode is dirty, the lock is as before and no panic is reached. The
    blocks of the file before block [n], the new length in blocks rounded up,
    stay mapped; those past it are given up and become free, no other block
    does. Because of the comparison [blocklen < baseblock + j], block [n] itself
    stays when it is mapped by the indirect block. When [n] is below 142, the
    indirect block goes if no entry of it is left; from 142 on the code does not
    look at the indirect block. Sectors other than the indirect block keep their
    contents. *)
Theorem sfs_itrunc_frees sv s v len :
  biglock_ok s → volume s → ready 2 s → is_live sv s = true → svs s !! sv = Some v → file_ok s (sv_i v) →
  0 ≤ len < 2 ^ 32 →
  let n := (len + 511) / 512 in
  wp (sfs_itrunc sv len) (λ r s', r = 0 ∧ ∃ v', svs s' = <[sv := v']> (svs s) ∧
    sfi_size (sv_i v') = len ∧ sv_dirty v' = true ∧ file_ok s' (sv_i v') ∧
    (∀ fb : nat, (fb < 143)%nat → mapping s' (sv_i v') !! fb =
       if bool_decide (Z.of_nat fb < n ∨ 15 ≤ Z.of_nat fb ≤ n) then mapping s (sv_i v) !! fb else Some 0) ∧
    cut s (blocks s (sv_i v)) s' (blocks s' (sv_i v')) ∧
    (n < 142 → sfi_indirect (sv_i v') ≠ 0 →
       ∃ fb b, (15 ≤ fb)%nat ∧ mapping s' (sv_i v') !! fb = Some b ∧ b ≠ 0) ∧
    (∀ b, b ≠ sfi_indirect (sv_i v) → sectors (sfs_device s') !! b = sectors (sfs_device s) !! b)) s.
Proof.
  intros Hok Hv Hrd Hl Hsv Hf Hlen n. eapply wp_mono; [by apply (itrunc_spec 0 sv s v)|].
  intros r s' (-> & _ & v' & []). split; [done|]. by exists v'.
Qed.
End thms.

(** ** A volume of twelve blocks

    Inode 3 is a file with data in blocks 4, 6 and 7; block 5 is its indirect
    block. *)
#[local] Instance keeps_old : Hardware := λ old _, old.

Definition small_disk (l : list Z) : lhd :=
  Lhd 12 1 0 0 0 0 zeros
    (<[5 := 6 :: 7 :: replicate 126 0]> (list_to_map ((λ b, (b, zeros)) <$> seqZ 0 12))) l.

Definition small_inode : sfs_dinode := Dinode 8704 1 1 (4 :: replicate 14 0) 5 (replicate 110 0).

(** A volume of twelve blocks on disk [d], the first eight in use; one inode is in
    memory. *)
Definition volume_with (d : lhd) (i : sfs_dinode) (ino : Z) (holder : ptr) (depth : Z) : state :=
  State
    (Bitmap.State
       (Base {[1; 2; 3; 4; 5; 6]}%positive [] {[3%positive := Lockst 4%positive 5%positive holder]} 100)
       {[1%positive := Bitmap.Bitmap 16 2%positive]} {[2%positive := [255; 240]]})
    1%positive false 12 d (Some 3%positive) depth {[6%positive := SfsVnode i ino false]}.

Definition small_volume (holder : ptr) (depth : Z) (l : list Z) : state :=
  volume_with (small_disk l) small_inode 3 holder depth.

Lemma small_disk_rest l : at_rest (small_disk l).
Proof.
  split; [done | done | done | done |]. intros b Hb. change (0 ≤ b < 12) in Hb.
  assert (Forall (λ b, (length <$> sectors (small_disk l) !! b) = Some 128%nat) (seqZ 0 12)) as Hall by by_decide.
  rw Forall_forall in Hall. pose proof (Hall b ltac:(apply elem_of_seqZ; lia)) as Hb'.
  apply fmap_Some in Hb' as (l' & -> & Hl'). by exists l'.
Qed.

Lemma volume_with_ok d x ino h n : at_rest d → d_blocks d = 12 → volume (volume_with d x ino h n).
Proof.
  intros Hd Hb. split; [|done | by rw /= Hb | done].
  exists (Bitmap.Bitmap 16 2%positive), [255; 240]. split.
  - split; [by_decide | done | by_decide | done | done | done | |].
    + rw /byte. by_decide.
    + intros i Hi. change (16 ≤ i < 16) in Hi. lia.
  - split; [done|]. intros i Hi. change (12 ≤ i < 16) in Hi.
    assert (Forall (λ i, bit [255; 240] i = true) (seqZ 12 4)) as Hall by by_decide.
    rw Forall_forall in Hall. apply Hall, elem_of_seqZ. lia.
Qed.

Lemma small_volume_ok h d l : volume (small_volume h d l).
Proof. by apply volume_with_ok; [apply small_disk_rest|]. Qed.

Lemma small_file_ok h d l : file_ok (small_volume h d l) small_inode.
Proof. split; [done|]. apply owns_check_sound. by vm_compute. Qed.

Lemma volume_with_held d i ino n : held (volume_with d i ino (Some 100%positive) n).
Proof. exists 3%positive, (Lockst 4 5 (Some 100))%positive. split; [done|]. split; [by_decide|]. done. Qed.

(** Two media errors, then success; and a write that fails. *)
Lemma sfs_block_io_retries_witness :
  let s1 := small_volume (Some 100%positive) 1 [20; 1; 20; 4] in
  let s2 := small_volume (Some 100%positive) 1 [20] in
  let old := 6 :: 7 :: replicate 126 0 in
  wp (sfs_readblock 5) (λ r s', r = (0, old) ∧ irqs (sfs_device s') = [] ∧
    sectors (sfs_device s') = sectors (sfs_device s1)) s1 ∧
  wp (sfs_writeblock 5 zeros) (λ r s', r = 0 ∧ irqs (sfs_device s') = [] ∧
    sectors (sfs_device s') = <[5 := old]> (sectors (sfs_device s2))) s2.
Proof.
  intros s1 s2 old. assert (sectors (small_disk []) !! 5 = Some old) as Hold by reflexivity.
  pose proof (sfs_block_io_retries s1 5 old zeros 2 [] (volume_with_held _ _ _ _) (small_disk_rest _)
    ltac:(change (0 ≤ 5 < 12); lia) Hold eq_refl ltac:(lia) (λ _ _ H _, H)) as (Hread & _).
  pose proof (sfs_block_io_retries s2 5 old zeros 2 [] (volume_with_held _ _ _ _) (small_disk_rest _)
    ltac:(change (0 ≤ 5 < 12); lia) Hold eq_refl ltac:(lia) (λ _ _ H _, H)) as (_ & _ & _ & Hwrite).
  split.
  - apply Hread. exists [], 20, [1; 20; 4]. do 3 (split; [done|]). exists [1], 20, [4]. split; [done|].
    split; [repeat constructor; rw /quiet; by_decide|]. split; [done|]. exists [], 4, []. repeat split; constructor.
  - apply Hwrite. exists [], 20, []. repeat split; constructor.
Defined.

Lemma irqs_ready n s : irqs (sfs_device s) = replicate n LHD_OK → ready n s.
Proof.
  intros Hi. exists []. rw Hi. clear Hi. induction n as [|n IH]; [done|]. by exists [], LHD_OK, (replicate n LHD_OK).
Qed.

(** The second entry after the last direct block gets block 8. *)
Lemma sfs_bmap_maps_witness :
  let s := small_volume (Some 100%positive) 1 [4; 4; 4] in
  wp (sfs_bmap 6%positive 18 true) (bmap_result 6%positive s (SfsVnode small_inode 3 false) 18 true) s.
Proof.
  apply sfs_bmap_maps; [apply volume_with_held | apply small_volume_ok | by apply (irqs_ready 3) | by_decide |
    done | apply small_file_ok | lia].
Defined.

(** Truncation to one block. *)
Lemma sfs_itrunc_frees_witness :
  let s := small_volume None 0 [4; 4] in
  wp (sfs_itrunc 6%positive 512) (λ r s', r = 0 ∧ ∃ v', svs s' = <[6%positive := v']> (svs s) ∧
    sfi_size (sv_i v') = 512 ∧ sv_dirty v' = true ∧ file_ok s' (sv_i v') ∧
    (∀ fb : nat, (fb < 143)%nat → mapping s' (sv_i v') !! fb =
       if bool_decide (Z.of_nat fb < 1 ∨ 15 ≤ Z.of_nat fb ≤ 1) then mapping s small_inode !! fb else Some 0) ∧
    cut s (blocks s small_inode) s' (blocks s' (sv_i v')) ∧
    (1 < 142 → sfi_indirect (sv_i v') ≠ 0 →
       ∃ fb b, (15 ≤ fb)%nat ∧ mapping s' (sv_i v') !! fb = Some b ∧ b ≠ 0) ∧
    (∀ b, b ≠ 5 → sectors (sfs_device s') !! b = sectors (sfs_device s) !! b)) s.
Proof.
  apply (sfs_itrunc_frees 6%positive _ (SfsVnode small_inode 3 false) 512).
  - left. split; [|done]. exists 3%positive, (Lockst 4 5 None)%positive.
    split; [done|]. split; [by_decide|done].
  - apply small_volume_ok.
  - by apply (irqs_ready 2).
  - by_decide.
  - done.
  - apply small_file_ok.
  - lia.
Defined.
