(* ===== verification/Kmalloc.v ===== *)
(** * The kernel heap: kern/vm/kmalloc.c

    Blocks below 2048 bytes come from pages that are divided into blocks of one
    of eight sizes; larger ones are whole pages.  A page's free blocks form a
    list in their first words; its [pageref] is on the list of its size and on
    the list of all pages; pagerefs are handed out from pages of their own with
    a bitmap.  Pages come from [alloc_kpages] of kern/arch/mips/vm/dumbvm.c and
    ram.c, which are modelled as well.  As the file has it, the debugging modes
    are off.  One thread runs; addresses are numbers, NULL is 0. *)

From stdpp Require Import base tactics list gmap option numbers ssreflect.
From S2P Require Import Prelude Kern.

Open Scope Z_scope.

(** ** Data and state *)


Definition PAGE_SIZE : Z := 4096.
Definition PAGE_FRAME : Z := 0xfffff000.
Definition MIPS_KSEG0 : Z := 0x80000000.

Definition NSIZES : nat := 8.
Definition sizes : list Z := [16; 32; 64; 128; 256; 512; 1024; 2048].
Definition LARGEST_SUBPAGE_SIZE : Z := 2048.

Record pageref := Pageref {
  next_samesize : Z;
  next_all : Z;
  pageaddr_and_blocktype : Z;
  freelist_offset : Z;
  nfree : Z
}.
Definition SIZEOF_PAGEREF : Z := 16.

Definition INVALID_OFFSET : Z := 0xffff.
Definition PR_PAGEADDR (pr : pageref) : Z := Z.land (pageaddr_and_blocktype pr) PAGE_FRAME.
Definition PR_BLOCKTYPE (pr : pageref) : Z := Z.land (pageaddr_and_blocktype pr) 0xfff.
Definition MKPAB (pa blk : Z) : Z := Z.lor (Z.land pa PAGE_FRAME) (Z.land blk 0xfff).

Definition NPAGEREFS_PER_PAGE : nat := 256.
Definition INUSE_WORDS : nat := 8.
Definition NUM_PAGEREFPAGES : nat := 16.

Record kheap_root := Root { page : Z; pagerefs_inuse : list Z; numinuse : Z }.

Record state := State {
  firstpaddr : Z;              (* ram.c *)
  lastpaddr : Z;
  kmalloc_spinlock : bool;     (* held by the thread that runs *)
  kheaproots : list kheap_root;
  sizebases : list Z;
  allbase : Z;
  prs : gmap Z pageref;        (* the structs on the pageref pages *)
  mem : gmap Z Z               (* the words of RAM; 0 unless written *)
}.

Definition set_firstpaddr a s := State a (lastpaddr s) (kmalloc_spinlock s) (kheaproots s) (sizebases s) (allbase s) (prs s) (mem s).
Definition set_lock b s := State (firstpaddr s) (lastpaddr s) b (kheaproots s) (sizebases s) (allbase s) (prs s) (mem s).
Definition set_roots r s := State (firstpaddr s) (lastpaddr s) (kmalloc_spinlock s) r (sizebases s) (allbase s) (prs s) (mem s).
Definition set_sizebases l s := State (firstpaddr s) (lastpaddr s) (kmalloc_spinlock s) (kheaproots s) l (allbase s) (prs s) (mem s).
Definition set_allbase a s := State (firstpaddr s) (lastpaddr s) (kmalloc_spinlock s) (kheaproots s) (sizebases s) a (prs s) (mem s).
Definition set_prs m s := State (firstpaddr s) (lastpaddr s) (kmalloc_spinlock s) (kheaproots s) (sizebases s) (allbase s) m (mem s).
Definition set_mem m s := State (firstpaddr s) (lastpaddr s) (kmalloc_spinlock s) (kheaproots s) (sizebases s) (allbase s) (prs s) m.

(** A word of RAM, through the direct-mapped segment. *)
Definition in_ram (a : Z) (s : state) : Prop := MIPS_KSEG0 ≤ a < MIPS_KSEG0 + lastpaddr s ∧ a mod 4 = 0.
#[export] Instance in_ram_dec a s : Decision (in_ram a s).
Proof. unfold in_ram. apply _. Defined.

Definition load_word (a : Z) : M state Z :=
  deref (λ s, if decide (in_ram a s) then Some (default 0 (mem s !! a)) else None).
Definition store_word (a v : Z) : M state unit :=
  load_word a;; modify (λ s, set_mem (<[a := v]> (mem s)) s).

Definition load_pr (p : Z) : M state pageref := deref (λ s, prs s !! p).
Definition upd_pr (p : Z) (f : pageref → pageref) : M state unit :=
  load_pr p;; modify (λ s, set_prs (alter f p (prs s)) s).

Definition set_next_samesize a (r : pageref) := Pageref a (next_all r) (pageaddr_and_blocktype r) (freelist_offset r) (nfree r).
Definition set_next_all a (r : pageref) := Pageref (next_samesize r) a (pageaddr_and_blocktype r) (freelist_offset r) (nfree r).
Definition set_pab a (r : pageref) := Pageref (next_samesize r) (next_all r) a (freelist_offset r) (nfree r).
Definition set_offset a (r : pageref) := Pageref (next_samesize r) (next_all r) (pageaddr_and_blocktype r) (u16 a) (nfree r).
Definition set_nfree a (r : pageref) := Pageref (next_samesize r) (next_all r) (pageaddr_and_blocktype r) (freelist_offset r) (u16 a).

Definition load_root (w : nat) : M state kheap_root := deref (λ s, kheaproots s !! w).
Definition upd_root (w : nat) (f : kheap_root → kheap_root) : M state unit :=
  load_root w;; modify (λ s, set_roots (alter f w (kheaproots s)) s).
Definition set_page a (r : kheap_root) := Root a (pagerefs_inuse r) (numinuse r).

(** ** Spinlock and pages *)

Definition spinlock_acquire : M state unit :=
  held ← gets kmalloc_spinlock;
  kassert (negb held);;
  modify (set_lock true).

Definition spinlock_release : M state unit :=
  held ← gets kmalloc_spinlock;
  kassert held;;
  modify (set_lock false).

(** [ram_stealmem]; 0 is NULL. *)
Definition ram_stealmem (npages : Z) : M state Z :=
  let size := u32 (npages * PAGE_SIZE) in
  first ← gets firstpaddr;
  last ← gets lastpaddr;
  if bool_decide (u32 (first + size) > last) then mret 0
  else modify (set_firstpaddr (u32 (first + size)));; mret first.

(** [dumbvm_can_sleep] asserts that no spinlock is held. *)
Definition alloc_kpages (npages : Z) : M state Z :=
  held ← gets kmalloc_spinlock;
  kassert (negb held);;
  pa ← ram_stealmem npages;
  if bool_decide (pa = 0) then mret 0 else mret (u32 (pa + MIPS_KSEG0)).

Definition free_kpages (addr : Z) : M state unit := mret tt.

(** ** Pagerefs *)

(** The structs on a fresh pageref page. *)
Definition fresh_refs (va : Z) : gmap Z pageref :=
  list_to_map ((λ j, (va + SIZEOF_PAGEREF * Z.of_nat j, Pageref 0 0 0 0 0)) <$> seq 0 NPAGEREFS_PER_PAGE).

Definition allocpagerefpage (w : nat) : M state unit :=
  root ← load_root w;
  kassert (bool_decide (page root = 0));;
  spinlock_release;;
  va ← alloc_kpages 1;
  spinlock_acquire;;
  if bool_decide (va = 0) then mret tt
  else
    kassert (bool_decide (va mod PAGE_SIZE = 0));;
    root ← load_root w;
    if bool_decide (page root ≠ 0) then
      spinlock_release;;
      free_kpages va;;
      spinlock_acquire;;
      root ← load_root w;
      kassert (bool_decide (page root ≠ 0))
    else
      upd_root w (set_page va);;
      modify (λ s, set_prs (fresh_refs va ∪ prs s) s).

Definition take_ref (i j : nat) (r : kheap_root) : kheap_root :=
  Root (page r) (alter (λ word, Z.lor word (Z.shiftl 1 (Z.of_nat j))) i (pagerefs_inuse r)) (u32 (numinuse r + 1)).

(** The pageref of bit [j] of word [i], if it is free. *)
Definition try_ref (w i : nat) (j : nat) : M state (option Z) :=
  root ← load_root w;
  word ← deref (λ _, pagerefs_inuse root !! i);
  if bool_decide (Z.land word (Z.shiftl 1 (Z.of_nat j)) = 0) then
    upd_root w (take_ref i j);;
    (if bool_decide (page root = 0) then allocpagerefpage w else mret tt);;
    root ← load_root w;
    if bool_decide (page root = 0) then mret (Some 0)
    else mret (Some (page root + SIZEOF_PAGEREF * Z.of_nat (i * 32 + j)))
  else mret None.

Definition allocpageref : M state Z :=
  r ← for_up 0 NUM_PAGEREFPAGES (λ w,
    root ← load_root w;
    if bool_decide (numinuse root >= Z.of_nat NPAGEREFS_PER_PAGE) then mret None
    else
      for_up 0 INUSE_WORDS (λ i,
        word ← deref (λ _, pagerefs_inuse root !! i);
        if bool_decide (word = 0xffffffff) then mret None
        else
          r ← for_up 0 32 (try_ref w i);
          match r with Some p => mret (Some p) | None => stops Panic end));
  mret (default 0 r).

Definition drop_ref (i : nat) (k : Z) (r : kheap_root) : kheap_root :=
  Root (page r) (alter (λ word, Z.land word (Z.lnot k)) i (pagerefs_inuse r)) (u32 (numinuse r - 1)).

Definition freepageref (p : Z) : M state unit :=
  r ← for_up 0 NUM_PAGEREFPAGES (λ w,
    root ← load_root w;
    if bool_decide (page root = 0) then
      kassert (bool_decide (numinuse root = 0));; mret None
    else
      let j := u32 (Z.quot (p - page root) SIZEOF_PAGEREF) in
      if bool_decide (j < Z.of_nat NPAGEREFS_PER_PAGE) then
        let i := Z.to_nat (j / 32) in
        let k := Z.shiftl 1 (j mod 32) in
        word ← deref (λ _, pagerefs_inuse root !! i);
        kassert (bool_decide (Z.land word k ≠ 0));;
        kassert (bool_decide (numinuse root > 0));;
        upd_root w (drop_ref i k);;
        mret (Some tt)
      else mret None);
  match r with Some _ => mret tt | None => stops Panic end.

(** ** The lists of pages *)

(** [guy] of [remove_lists]: the address of the base pointer of a list, or of a
    link field. *)
Inductive link := Base | Field (p : Z).

Definition read_samesize (blktype : nat) (guy : link) : M state Z :=
  match guy with
  | Base => deref (λ s, sizebases s !! blktype)
  | Field p => r ← load_pr p; mret (next_samesize r)
  end.
Definition write_samesize (blktype : nat) (guy : link) (v : Z) : M state unit :=
  match guy with
  | Base => modify (λ s, set_sizebases (<[blktype := v]> (sizebases s)) s)
  | Field p => upd_pr p (set_next_samesize v)
  end.
Definition read_all (guy : link) : M state Z :=
  match guy with Base => gets allbase | Field p => r ← load_pr p; mret (next_all r) end.
Definition write_all (guy : link) (v : Z) : M state unit :=
  match guy with Base => modify (set_allbase v) | Field p => upd_pr p (set_next_all v) end.

(** One of the two loops. *)
Definition unlink (read : link → M state Z) (write : link → Z → M state unit) (next : pageref → Z) (pr : Z) :
    M state unit :=
  n ← gets (λ s, size (prs s));
  while (S n) Base (λ guy,
    here ← read guy;
    if bool_decide (here = 0) then mret (inr tt)
    else if bool_decide (here = pr) then
      r ← load_pr pr;
      write guy (next r);;
      mret (inr tt)
    else mret (inl (Field here))).

Definition remove_lists (pr : Z) (blktype : Z) : M state unit :=
  kassert (bool_decide (0 ≤ blktype < Z.of_nat NSIZES));;
  let k := Z.to_nat blktype in
  unlink (read_samesize k) (write_samesize k) next_samesize pr;;
  unlink read_all write_all next_all pr.

(** ** Blocks *)

Definition blocktype (clientsz : Z) : M state nat :=
  r ← for_up 0 NSIZES (λ i,
    sz ← deref (λ _, sizes !! i);
    if bool_decide (clientsz ≤ sz) then mret (Some i) else mret None);
  match r with Some i => mret i | None => stops Panic end.

(** [doalloc]: the first free block of the page of [pr]. *)
Definition doalloc (pr : Z) : M state Z :=
  r ← load_pr pr;
  kassert (bool_decide (freelist_offset r < PAGE_SIZE));;
  let prpage := PR_PAGEADDR r in
  let retptr := u32 (prpage + freelist_offset r) in
  fl ← load_word retptr;
  upd_pr pr (set_nfree (nfree r - 1));;
  r ← load_pr pr;
  (if bool_decide (fl ≠ 0) then
     kassert (bool_decide (nfree r > 0));;
     kassert (bool_decide (u32 (fl - prpage) < PAGE_SIZE));;
     upd_pr pr (set_offset (u32 (fl - prpage)))
   else
     kassert (bool_decide (nfree r = 0));;
     upd_pr pr (set_offset INVALID_OFFSET));;
  spinlock_release;;
  mret retptr.

(** The list of the free blocks of a fresh page; the address of its head. *)
Definition thread_page (prpage sz n : Z) : M state Z :=
  store_word prpage 0;;
  fold_up 1 (Z.to_nat (n - 1)) prpage (λ i _,
    let fl := u32 (prpage + Z.of_nat i * sz) in
    let next := u32 (prpage + (Z.of_nat i - 1) * sz) in
    store_word fl next;;
    kassert (bool_decide (fl ≠ next));;
    mret fl).

(** A page for the block type, put on both lists; 0 if there is none. *)
Definition newpage (blktype : nat) : M state Z :=
  sz ← deref (λ _, sizes !! blktype);
  spinlock_release;;
  prpage ← alloc_kpages 1;
  if bool_decide (prpage = 0) then mret 0
  else
    kassert (bool_decide (prpage mod PAGE_SIZE = 0));;
    spinlock_acquire;;
    pr ← allocpageref;
    if bool_decide (pr = 0) then
      spinlock_release;;
      free_kpages prpage;;
      mret 0
    else
      upd_pr pr (set_pab (MKPAB prpage (Z.of_nat blktype)));;
      upd_pr pr (set_nfree (PAGE_SIZE / sz));;
      r ← load_pr pr;
      fla ← thread_page prpage sz (nfree r);
      upd_pr pr (set_offset (u32 (fla - prpage)));;
      r ← load_pr pr;
      kassert (bool_decide (freelist_offset r = (nfree r - 1) * sz));;
      base ← deref (λ s, sizebases s !! blktype);
      upd_pr pr (set_next_samesize base);;
      modify (λ s, set_sizebases (<[blktype := pr]> (sizebases s)) s);;
      all ← gets allbase;
      upd_pr pr (set_next_all all);;
      modify (set_allbase pr);;
      mret pr.

Definition subpage_kmalloc (sz : Z) : M state Z :=
  blktype ← blocktype sz;
  spinlock_acquire;;
  base ← deref (λ s, sizebases s !! blktype);
  n ← gets (λ s, size (prs s));
  r ← while (S n) base (λ pr,
    if bool_decide (pr = 0) then mret (inr 0)
    else
      r ← load_pr pr;
      kassert (bool_decide (PR_BLOCKTYPE r = Z.of_nat blktype));;
      if bool_decide (nfree r > 0) then mret (inr pr) else mret (inl (next_samesize r)));
  if bool_decide (r ≠ 0) then doalloc r
  else
    pr ← newpage blktype;
    if bool_decide (pr = 0) then mret 0 else doalloc pr.

(** Overwrite a freed block. *)
Definition fill_deadbeef (ptr len : Z) : M state unit :=
  for_up 0 (Z.to_nat (len / 4)) (λ i,
    store_word (u32 (ptr + 4 * Z.of_nat i)) 0xdeadbeef;; mret (@None unit));;
  mret tt.

(** The page the pointer is on: its pageref, or 0. *)
Definition find_page (ptraddr : Z) : M state Z :=
  base ← gets allbase;
  n ← gets (λ s, size (prs s));
  while (S n) base (λ pr,
    if bool_decide (pr = 0) then mret (inr 0)
    else
      r ← load_pr pr;
      kassert (bool_decide (0 ≤ PR_BLOCKTYPE r < Z.of_nat NSIZES));;
      let prpage := PR_PAGEADDR r in
      if bool_decide (ptraddr >= prpage ∧ ptraddr < u32 (prpage + PAGE_SIZE)) then mret (inr pr)
      else mret (inl (next_all r))).

Definition subpage_kfree (ptraddr : Z) : M state Z :=
  spinlock_acquire;;
  pr ← find_page ptraddr;
  if bool_decide (pr = 0) then spinlock_release;; mret (-1)
  else
    r ← load_pr pr;
    let prpage := PR_PAGEADDR r in
    sz ← deref (λ _, sizes !! Z.to_nat (PR_BLOCKTYPE r));
    let offset := u32 (ptraddr - prpage) in
    if bool_decide (offset >= PAGE_SIZE ∨ offset mod sz ≠ 0) then stops Panic
    else
      fill_deadbeef ptraddr sz;;
      let fl := u32 (prpage + offset) in
      (if bool_decide (freelist_offset r = INVALID_OFFSET) then store_word fl 0
       else
         let next := u32 (prpage + freelist_offset r) in
         store_word fl next;;
         kassert (bool_decide (fl ≠ next)));;
      upd_pr pr (set_offset offset);;
      upd_pr pr (set_nfree (nfree r + 1));;
      r ← load_pr pr;
      kassert (bool_decide (nfree r ≤ PAGE_SIZE / sz));;
      (if bool_decide (nfree r = PAGE_SIZE / sz) then
         remove_lists pr (PR_BLOCKTYPE r);;
         freepageref pr;;
         spinlock_release;;
         free_kpages prpage
       else spinlock_release);;
      mret 0.

(** ** The interface *)

Definition kmalloc (sz : Z) : M state Z :=
  if bool_decide (sz >= LARGEST_SUBPAGE_SIZE) then
    let npages := u32 (u32 (sz + PAGE_SIZE) - 1) / PAGE_SIZE in
    address ← alloc_kpages npages;
    if bool_decide (address = 0) then mret 0
    else kassert (bool_decide (address mod PAGE_SIZE = 0));; mret address
  else subpage_kmalloc sz.

Definition kfree (ptr : Z) : M state unit :=
  if bool_decide (ptr = 0) then mret tt
  else
    r ← subpage_kfree ptr;
    if bool_decide (r ≠ 0) then
      kassert (bool_decide (ptr mod PAGE_SIZE = 0));;
      free_kpages ptr
    else mret tt.
