(* ===== verification/KmallocFacts.v ===== *)
(** * The invariant of the kernel heap

    Linked lists as chains, what the heap of Kmalloc.v looks like between
    operations, and the allocation of pages and pagerefs. *)

From stdpp Require Import base tactics list gmap option numbers ssreflect.
From S2P Require Import Prelude Kern Kmalloc.

Open Scope Z_scope.

(** ** Chains *)

(** Following [nxt] from [a] one meets the addresses [l], then NULL. *)
Fixpoint chain (nxt : Z → option Z) (a : Z) (l : list Z) : Prop :=
  match l with
  | [] => a = 0
  | x :: l' => a = x ∧ x ≠ 0 ∧ ∃ b, nxt x = Some b ∧ chain nxt b l'
  end.

Lemma chain_ext nxt nxt' a l :
  (∀ x, x ∈ l → nxt x = nxt' x) → chain nxt a l → chain nxt' a l.
Proof.
  revert a. induction l as [|x l IH]; intros a Hx; [done|]. intros (-> & H0 & b & Hb & Hc).
  split; [done|]. split; [done|]. exists b. rw -Hx; [|set_solver]. split; [done|]. apply IH; [set_solver|done].
Qed.

Lemma chain_det nxt a l l' : chain nxt a l → chain nxt a l' → l = l'.
Proof.
  revert a l'. induction l as [|x l IH]; intros a [|y l']; simpl; [done | naive_solver | naive_solver |].
  intros (-> & H0 & b & Hb & Hc) (-> & _ & b' & Hb' & Hc'). f_equal. apply (IH b); [done|]. congruence.
Qed.

Lemma chain_at nxt a l1 x l2 : chain nxt a (l1 ++ x :: l2) → chain nxt x (x :: l2).
Proof.
  revert a. induction l1 as [|y l1 IH]; intros a; simpl; [by intros (-> & ?)|].
  intros (_ & _ & b & _ & H). by eapply IH.
Qed.

Lemma chain_NoDup nxt a l : chain nxt a l → NoDup l.
Proof.
  revert a. induction l as [|x l IH]; intros a Hc; [constructor|]. constructor.
  - intros (l1 & l2 & ->)%list_elem_of_split. destruct Hc as (-> & _ & b & Hb & Hc).
    pose proof (chain_at _ _ _ _ _ Hc) as H2.
    assert (x :: l1 ++ x :: l2 = x :: l2) as He.
    { eapply (chain_det nxt x); [|exact H2]. destruct H2 as (_ & H0 & _). split; [done|]. split; [done|]. by exists b. }
    apply (f_equal length) in He. rw /= length_app /= in He. lia.
  - destruct Hc as (_ & _ & b & _ & Hc). by eapply IH.
Qed.

Lemma chain_nonzero nxt a l x : chain nxt a l → x ∈ l → x ≠ 0.
Proof.
  revert a. induction l as [|y l IH]; intros a Hc Hx; [by apply elem_of_nil in Hx|].
  destruct Hc as (-> & H0 & b & _ & Hc). apply elem_of_cons in Hx as [->|Hx]; [done|]. by eapply IH.
Qed.

Lemma chain_head nxt a l : chain nxt a l → a = default 0 (head l).
Proof. by destruct l; [|intros (-> & _)]. Qed.

Lemma chain_suffix nxt a l1 l2 : chain nxt a (l1 ++ l2) → ∃ b, chain nxt b l2.
Proof.
  revert a. induction l1 as [|x l1 IH]; intros a; simpl; [by exists a|].
  intros (_ & _ & b & _ & H). by eapply IH.
Qed.

(** ** The layout of a heap *)

(** A page of blocks: its pageref, its address, its block type, the addresses of
    its free blocks in the order of its list. *)
Record hpage := Hpage { h_ref : Z; h_page : Z; h_type : nat; h_free : list Z }.

Definition bsize (k : nat) : Z := 16 * 2 ^ Z.of_nat k.
Definition nblocks (k : nat) : Z := 2 ^ (8 - Z.of_nat k).

Lemma sizes_lookup k : (k < NSIZES)%nat → sizes !! k = Some (bsize k).
Proof. intros Hk. unfold NSIZES in Hk. by do 8 (destruct k as [|k]; [done|]); lia. Qed.

Lemma bsize_cases k : (k < NSIZES)%nat →
  0 < bsize k ∧ bsize k mod 16 = 0 ∧ bsize k * nblocks k = 4096 ∧ 2 ≤ nblocks k ≤ 256 ∧ PAGE_SIZE / bsize k = nblocks k.
Proof. intros Hk. unfold NSIZES in Hk. by do 8 (destruct k as [|k]; [by_decide|]); lia. Qed.

(** The blocks of a page. *)
Definition block (pg : Z) (k : nat) (a : Z) : Prop := ∃ i, 0 ≤ i < nblocks k ∧ a = pg + i * bsize k.

(** The bits of a root. *)
Definition used (r : kheap_root) (j : nat) : bool :=
  match pagerefs_inuse r !! (j / 32)%nat with Some w => Z.testbit w (Z.of_nat (j mod 32)) | None => false end.
Definition count_used (r : kheap_root) : Z := Z.of_nat (length (filter (λ j, used r j = true) (seq 0 256))).

Definition root_pages (s : state) : list Z := filter (λ a, a ≠ 0) (page <$> kheaproots s).
Definition big_pages (b : Z * nat) : list Z := (λ i, b.1 + PAGE_SIZE * Z.of_nat i) <$> seq 0 b.2.
Definition all_pages (s : state) (H : list hpage) (B : list (Z * nat)) : list Z :=
  (h_page <$> H) ++ root_pages s ++ (B ≫= big_pages).

Definition exhausted (s : state) : Prop := lastpaddr s < firstpaddr s + PAGE_SIZE.

Definition word (s : state) (a : Z) : option Z := Some (default 0 (mem s !! a)).

(** The pageref describes the page, whose free blocks are linked. *)
Record page_ok (s : state) (h : hpage) : Prop := {
  pk_type : (h_type h < NSIZES)%nat;
  pk_ref : ∃ pr, prs s !! h_ref h = Some pr ∧
    pageaddr_and_blocktype pr = MKPAB (h_page h) (Z.of_nat (h_type h)) ∧
    nfree pr = Z.of_nat (length (h_free h)) ∧
    freelist_offset pr = match h_free h with [] => INVALID_OFFSET | a :: _ => a - h_page h end;
  pk_free : chain (word s) (default 0 (head (h_free h))) (h_free h);
  pk_blocks : Forall (block (h_page h) (h_type h)) (h_free h)
}.

(** The struct of bit [j] of root [r]. *)
Definition slot (r : kheap_root) (j : nat) : Z := page r + SIZEOF_PAGEREF * Z.of_nat j.

Record root_ok (s : state) (r : kheap_root) : Prop := {
  rk_words : length (pagerefs_inuse r) = INUSE_WORDS;
  rk_range : Forall (λ w, 0 ≤ w < 2 ^ 32) (pagerefs_inuse r);
  rk_count : numinuse r = count_used r;
  rk_structs : page r ≠ 0 → ∀ j, (j < NPAGEREFS_PER_PAGE)%nat → is_Some (prs s !! slot r j);
  rk_idle : page r = 0 → numinuse r = 0 ∨ exhausted s
}.

(** [p] is a pageref that has been handed out. *)
Definition handed_out (s : state) (p : Z) : Prop :=
  ∃ w r j, kheaproots s !! w = Some r ∧ page r ≠ 0 ∧ (j < NPAGEREFS_PER_PAGE)%nat ∧ p = slot r j ∧ used r j = true.

(** The heap: pages of blocks [H], in the order of the list of all pages; large
    blocks [B], as addresses and numbers of pages. *)
Record heap (s : state) (H : list hpage) (B : list (Z * nat)) : Prop := {
  hp_first : 0 < firstpaddr s ∧ firstpaddr s mod PAGE_SIZE = 0;
  hp_last : firstpaddr s ≤ lastpaddr s ≤ 2 ^ 29;
  hp_roots : length (kheaproots s) = NUM_PAGEREFPAGES ∧ Forall (root_ok s) (kheaproots s);
  hp_prefix : ∀ w w' r r', kheaproots s !! w = Some r → kheaproots s !! w' = Some r' →
    (w ≤ w')%nat → page r' ≠ 0 → page r ≠ 0;
  hp_out : Forall (handed_out s) (h_ref <$> H);
  hp_ok : Forall (page_ok s) H;
  hp_all : chain (λ p, next_all <$> prs s !! p) (allbase s) (h_ref <$> H);
  hp_bases : length (sizebases s) = NSIZES;
  hp_size : ∀ k a, sizebases s !! k = Some a →
    chain (λ p, next_samesize <$> prs s !! p) a (h_ref <$> filter (λ h, h_type h = k) H);
  hp_distinct : NoDup (all_pages s H B);
  hp_range : Forall (λ a, a mod PAGE_SIZE = 0 ∧ MIPS_KSEG0 < a ∧ a + PAGE_SIZE ≤ MIPS_KSEG0 + firstpaddr s)
    (all_pages s H B)
}.
