(* ===== verification/KmallocPages.v ===== *)
(** * Pages and pagerefs

    [alloc_kpages], and the handing out and taking back of pagerefs
    ([allocpageref], [freepageref]), keep the invariant of KmallocFacts.v. *)

From stdpp Require Import base tactics list gmap option numbers ssreflect.
From S2P Require Import Prelude Kern Kmalloc KmallocFacts.

Open Scope Z_scope.

(** ** Changing what the invariant does not mention *)

Lemma root_ok_ext s s' r :
  (∀ p, is_Some (prs s !! p) → is_Some (prs s' !! p)) → (exhausted s → exhausted s') → root_ok s r → root_ok s' r.
Proof. intros Hp He []. split; try done; naive_solver. Qed.

Lemma page_ok_ext s s' h :
  prs s' !! h_ref h = prs s !! h_ref h → (∀ a, a ∈ h_free h → word s' a = word s a) → page_ok s h → page_ok s' h.
Proof.
  intros Hp Hw [? ? ? ?]. split; try done; [by rw Hp|]. eapply chain_ext; [|done]. intros x Hx. by rw Hw.
Qed.

Lemma heap_lock b s H B : heap s H B → heap (set_lock b s) H B.
Proof.
  intros [Hf Hl [Hlen Hroots] Hpre Hout Hok Hall Hbl Hsz Hd Hr]. split; try done.
  - split; [done|]. eapply Forall_impl; [done|]. intros r. by apply root_ok_ext.
  - eapply Forall_impl; [done|]. intros h. by apply page_ok_ext.
Qed.

Lemma heap_kseg s H B : heap s H B → 0 < firstpaddr s ∧ firstpaddr s ≤ lastpaddr s ≤ 2 ^ 29.
Proof. intros Hp. pose proof (hp_first _ _ _ Hp). pose proof (hp_last _ _ _ Hp). lia. Qed.

Lemma lock_same s : set_lock (kmalloc_spinlock s) s = s.
Proof. by destruct s. Qed.

Lemma acquire_eq s : kmalloc_spinlock s = false → spinlock_acquire s = Ok tt (set_lock true s).
Proof. intros Hl. by rw /spinlock_acquire /mbind /M_bind /gets Hl. Qed.

Lemma release_eq s : kmalloc_spinlock s = true → spinlock_release s = Ok tt (set_lock false s).
Proof. intros Hl. by rw /spinlock_release /mbind /M_bind /gets Hl. Qed.

(** ** Pages *)

Lemma alloc_kpages_eq n s :
  kmalloc_spinlock s = false → 0 < firstpaddr s → firstpaddr s ≤ lastpaddr s ≤ 2 ^ 29 → 0 ≤ n ≤ 2 ^ 19 →
  alloc_kpages n s =
    if decide (lastpaddr s < firstpaddr s + n * PAGE_SIZE) then Ok 0 s
    else Ok (MIPS_KSEG0 + firstpaddr s) (set_firstpaddr (firstpaddr s + n * PAGE_SIZE) s).
Proof.
  intros Hl H0 Hr Hn. rw /alloc_kpages /ram_stealmem /mbind /M_bind /gets Hl /=.
  assert (u32 (n * PAGE_SIZE) = n * PAGE_SIZE) as -> by (rw u32_small; unfold PAGE_SIZE; lia).
  assert (u32 (firstpaddr s + n * PAGE_SIZE) = firstpaddr s + n * PAGE_SIZE) as ->
    by (rw u32_small; unfold PAGE_SIZE; lia).
  destruct (decide (lastpaddr s < firstpaddr s + n * PAGE_SIZE)) as [Hc|Hc].
  - by rw bool_decide_eq_true_2; [|lia].
  - rw bool_decide_eq_false_2; [|lia]. rw /modify /= bool_decide_eq_false_2; [|lia].
    assert (u32 (firstpaddr s + MIPS_KSEG0) = MIPS_KSEG0 + firstpaddr s) as ->; [|done].
    rw u32_small; unfold MIPS_KSEG0; lia.
Qed.

(** The [n] pages behind those handed out become a large block. *)
Lemma heap_grow n s H B :
  heap s H B → firstpaddr s + Z.of_nat n * PAGE_SIZE ≤ lastpaddr s →
  heap (set_firstpaddr (firstpaddr s + Z.of_nat n * PAGE_SIZE) s) H ((MIPS_KSEG0 + firstpaddr s, n) :: B).
Proof.
  intros [Hf Hl [Hlen Hroots] Hpre Hout Hok Hall Hbl Hsz Hd Hr] Hn.
  split; try done.
  - split; simpl; [unfold PAGE_SIZE in *; lia|]. unfold PAGE_SIZE in *. zlia.
  - simpl. unfold PAGE_SIZE in *. lia.
  - split; [done|]. eapply Forall_impl; [done|]. intros r. apply root_ok_ext; [done|].
    unfold exhausted. simpl. unfold PAGE_SIZE. lia.
  - eapply Forall_impl; [done|]. intros h. by apply page_ok_ext.
  - assert (all_pages (set_firstpaddr (firstpaddr s + Z.of_nat n * PAGE_SIZE) s) H ((MIPS_KSEG0 + firstpaddr s, n) :: B)
      ≡ₚ big_pages (MIPS_KSEG0 + firstpaddr s, n) ++ all_pages s H B) as ->.
    { rw /all_pages /=. solve_Permutation. }
    apply NoDup_app. split; [|split; [|done]].
    + rw /big_pages. apply NoDup_fmap_2; [|apply NoDup_seq]. intros i j. unfold PAGE_SIZE. lia.
    + intros a (i & -> & Hi)%list_elem_of_fmap Ha. rw Forall_forall in Hr. destruct (Hr _ Ha) as (_ & _ & Hle).
      simpl in Hle. unfold PAGE_SIZE in *. lia.
  - rw Forall_forall in Hr. rw Forall_forall. intros a. rw /all_pages /= !elem_of_app.
    assert (a ∈ all_pages s H B ∨ a ∈ big_pages (MIPS_KSEG0 + firstpaddr s, n) →
      a mod PAGE_SIZE = 0 ∧ MIPS_KSEG0 < a ∧ a + PAGE_SIZE ≤ MIPS_KSEG0 + (firstpaddr s + Z.of_nat n * PAGE_SIZE)) as Hq.
    { intros [Ha|(i & -> & Hi%elem_of_seq)%list_elem_of_fmap].
      - destruct (Hr _ Ha) as (? & ? & ?). unfold PAGE_SIZE in *. lia.
      - simpl in *. destruct Hf as [? Hf]. unfold PAGE_SIZE, MIPS_KSEG0 in *. split; [zlia|lia]. }
    intros Ha. apply Hq. rw /all_pages !elem_of_app. tauto.
Qed.

(** Large blocks that are given up. *)
Lemma heap_drop_big s H B b B' : heap s H B → B ≡ₚ b :: B' → heap s H B'.
Proof.
  intros [Hf Hl Hroots Hpre Hout Hok Hall Hbl Hsz Hd Hr] HB.
  assert (all_pages s H B ≡ₚ big_pages b ++ all_pages s H B') as Hp.
  { rw /all_pages HB /=. solve_Permutation. }
  split; try done.
  - rw Hp in Hd. by apply NoDup_app in Hd as (_ & _ & ?).
  - rw Hp in Hr. by apply Forall_app in Hr as [_ ?].
Qed.

(** ** Bits of a root *)

Lemma filter_same {A} (P Q : A → Prop) `{∀ x, Decision (P x), ∀ x, Decision (Q x)} (l : list A) :
  (∀ x, x ∈ l → P x ↔ Q x) → filter P l = filter Q l.
Proof.
  induction l as [|x l IH]; intros He; [done|]. rw !filter_cons IH; [|intros; apply He; set_solver].
  pose proof (He x ltac:(set_solver)). destruct (decide (P x)), (decide (Q x)); naive_solver.
Qed.

Lemma count_one_more (f g : nat → bool) n x :
  (x < n)%nat → f x = false → g x = true → (∀ y, y ≠ x → g y = f y) →
  length (filter (λ j, g j = true) (seq 0 n)) = S (length (filter (λ j, f j = true) (seq 0 n))).
Proof.
  intros Hx Hf Hg Hother. assert (x ∈ seq 0 n) as Hin by (apply elem_of_seq; lia).
  apply elem_of_Permutation in Hin as [l Hl]. pose proof (NoDup_seq 0 n) as Hd. rw Hl in Hd.
  apply NoDup_cons in Hd as [Hnot _]. rw Hl !filter_cons.
  rw decide_True // decide_False; [|by rw Hf]. simpl. do 2 f_equal. apply filter_same.
  intros y Hy. rw Hother //. by intros ->.
Qed.

Lemma used_lookup r i j w :
  pagerefs_inuse r !! i = Some w → (j < 32)%nat → used r (i * 32 + j) = Z.testbit w (Z.of_nat j).
Proof.
  intros Hw Hj. rw /used. replace ((i * 32 + j) / 32)%nat with i by (rw Nat.div_add_l //; rw Nat.div_small; lia).
  rw Hw. do 2 f_equal. rw Nat.add_comm Nat.Div0.mod_add Nat.mod_small; lia.
Qed.

(** Changing one word of the bitmap. *)
Lemma used_alter r i j (f : Z → Z) w pg n x :
  pagerefs_inuse r !! i = Some w → (j < 32)%nat →
  (∀ y, (y < 32)%nat → y ≠ j → Z.testbit (f w) (Z.of_nat y) = Z.testbit w (Z.of_nat y)) →
  used (Root pg (alter f i (pagerefs_inuse r)) n) x =
    if bool_decide (x = i * 32 + j)%nat then Z.testbit (f w) (Z.of_nat j) else used r x.
Proof.
  intros Hw Hj Hf. set (r' := Root pg (alter f i (pagerefs_inuse r)) n).
  assert (pagerefs_inuse r' !! i = Some (f w)) as Hi by (by rw /= list_lookup_alter_eq Hw).
  case_bool_decide as Hx; [subst x; by apply used_lookup|].
  pose proof (Nat.div_mod x 32 ltac:(lia)) as Hdiv. pose proof (Nat.mod_upper_bound x 32 ltac:(lia)) as Hmod.
  destruct (decide (x / 32 = i)%nat) as [He|Hne].
  - replace x with (i * 32 + x mod 32)%nat by lia. rw (used_lookup r' i _ (f w)) // (used_lookup r i _ w) //.
    apply Hf; [done|]. intros <-. apply Hx. lia.
  - by rw /used /= list_lookup_alter_ne.
Qed.

Lemma shiftl_bit j : Z.shiftl 1 (Z.of_nat j) = 2 ^ Z.of_nat j.
Proof. rw Z.shiftl_1_l //. Qed.

Lemma land_bit w j : Z.land w (Z.shiftl 1 (Z.of_nat j)) = 0 ↔ Z.testbit w (Z.of_nat j) = false.
Proof.
  rw shiftl_bit. split.
  - intros He. apply (f_equal (λ z, Z.testbit z (Z.of_nat j))) in He.
    rw Z.land_spec Z.pow2_bits_true ?andb_true_r ?Z.bits_0 in He; [done|lia].
  - intros Hf. apply Z.bits_inj'. intros y Hy. rw Z.land_spec Z.bits_0 Z.pow2_bits_eqb; [|lia].
    destruct (Z.eqb_spec (Z.of_nat j) y) as [<-|]; [by rw Hf | by rw andb_false_r].
Qed.

Lemma bits_above n w i : 0 ≤ w < 2 ^ n → n ≤ i → Z.testbit w i = false.
Proof.
  intros Hw Hi. destruct (decide (w = 0)) as [->|]; [apply Z.bits_0|].
  apply Z.bits_above_log2; [lia|]. apply (Z.lt_le_trans _ n); [|done]. apply Z.log2_lt_pow2; lia.
Qed.

Lemma bits_below n w : 0 ≤ n → 0 ≤ w → (∀ i, n ≤ i → Z.testbit w i = false) → 0 ≤ w < 2 ^ n.
Proof.
  intros Hn Hw Hb. split; [done|]. destruct (decide (w = 0)) as [->|Hne]; [lia|].
  apply Z.log2_lt_pow2; [lia|]. apply Z.nle_gt. intros Hle. specialize (Hb _ Hle). by rw Z.bit_log2 in Hb; [|lia].
Qed.

Lemma word_lor w j : 0 ≤ w < 2 ^ 32 → (j < 32)%nat → 0 ≤ Z.lor w (Z.shiftl 1 (Z.of_nat j)) < 2 ^ 32.
Proof.
  intros Hw Hj. apply bits_below; [lia | apply Z.lor_nonneg; split; [lia|apply Z.shiftl_nonneg; lia] |].
  intros i Hi. rw Z.lor_spec (bits_above 32) // shiftl_bit Z.pow2_bits_false //. lia.
Qed.

Lemma word_clear w k : 0 ≤ w < 2 ^ 32 → 0 ≤ Z.land w (Z.lnot k) < 2 ^ 32.
Proof.
  intros Hw. apply bits_below; [lia | apply Z.land_nonneg; lia |].
  intros i Hi. by rw Z.land_spec (bits_above 32).
Qed.

(** Taking a bit and giving it back. *)
Lemma take_ref_ok s r i j w :
  root_ok s r → pagerefs_inuse r !! i = Some w → (j < 32)%nat → Z.testbit w (Z.of_nat j) = false →
  (page r = 0 → exhausted s) →
  root_ok s (take_ref i j r) ∧ ∀ x, used (take_ref i j r) x = bool_decide (x = i * 32 + j)%nat || used r x.
Proof.
  intros [Hl Hr Hc Hs Hi] Hw Hj Hb Hx.
  assert (i < 8)%nat as Hi8 by (apply lookup_lt_Some in Hw; by rw Hl in Hw).
  assert (∀ x, used (take_ref i j r) x = bool_decide (x = i * 32 + j)%nat || used r x) as Hu.
  { intros x. rw /take_ref (used_alter r i j _ w) //.
    - case_bool_decide; [|done]. rw Z.lor_spec shiftl_bit Z.pow2_bits_true; [|lia]. by rw orb_true_r.
    - intros y Hy Hne. rw Z.lor_spec shiftl_bit Z.pow2_bits_false ?orb_false_r //. lia. }
  assert (count_used (take_ref i j r) = count_used r + 1) as Hcount.
  { rw /count_used (count_one_more (used r) (used (take_ref i j r)) 256 (i * 32 + j)); [lia | lia | | |].
    - by rw (used_lookup _ _ _ _ Hw).
    - by rw Hu bool_decide_eq_true_2.
    - intros y Hy. by rw Hu bool_decide_eq_false_2. }
  split; [|done]. split; try done.
  - by rw /= length_alter.
  - apply Forall_alter; [done|]. intros w' _ Hw'. by apply word_lor.
  - rw Hcount /= Hc u32_small //. rw -Hcount /count_used.
    pose proof (length_filter (λ j0, used (take_ref i j r) j0 = true) (seq 0 256)) as Hle. rw length_seq in Hle. lia.
  - intros Hp. right. by apply Hx.
Qed.

Lemma drop_ref_ok s r i j w :
  root_ok s r → page r ≠ 0 → pagerefs_inuse r !! i = Some w → (j < 32)%nat → Z.testbit w (Z.of_nat j) = true →
  numinuse r > 0 ∧ root_ok s (drop_ref i (Z.shiftl 1 (Z.of_nat j)) r) ∧
  ∀ x, used (drop_ref i (Z.shiftl 1 (Z.of_nat j)) r) x = negb (bool_decide (x = i * 32 + j)%nat) && used r x.
Proof.
  intros [Hl Hr Hc Hs Hi] Hp Hw Hj Hb. set (k := Z.shiftl 1 (Z.of_nat j)).
  assert (i < 8)%nat as Hi8 by (apply lookup_lt_Some in Hw; by rw Hl in Hw).
  assert (∀ x, used (drop_ref i k r) x = negb (bool_decide (x = i * 32 + j)%nat) && used r x) as Hu.
  { intros x. rw /drop_ref (used_alter r i j _ w) //.
    - case_bool_decide; [|done]. rw Z.land_spec Z.lnot_spec; [|lia].
      rw /k shiftl_bit Z.pow2_bits_true; [|lia]. by rw andb_false_r.
    - intros y Hy Hne. rw Z.land_spec Z.lnot_spec; [|lia]. rw /k shiftl_bit Z.pow2_bits_false ?andb_true_r //. lia. }
  assert (count_used r = count_used (drop_ref i k r) + 1) as Hcount.
  { rw /count_used (count_one_more (used (drop_ref i k r)) (used r) 256 (i * 32 + j)); [lia | lia | | |].
    - by rw Hu bool_decide_eq_true_2.
    - by rw (used_lookup _ _ _ _ Hw).
    - intros y Hy. by rw Hu bool_decide_eq_false_2. }
  assert (0 ≤ count_used (drop_ref i k r)) as H0 by (rw /count_used; lia).
  split; [lia|]. split; [|done]. split; try done.
  - by rw /= length_alter.
  - apply Forall_alter; [done|]. intros w' _ Hw'. by apply word_clear.
  - rw /= Hc Hcount Z.add_simpl_r u32_small //. rw /count_used in Hcount H0 |- *.
    pose proof (length_filter (λ j0, used r j0 = true) (seq 0 256)) as Hle. rw length_seq in Hle. lia.
Qed.

(** ** Changing one root *)

Lemma heap_set_roots s H B roots' :
  heap s H B → Forall (root_ok s) roots' → page <$> roots' = page <$> kheaproots s →
  Forall (handed_out (set_roots roots' s)) (h_ref <$> H) → heap (set_roots roots' s) H B.
Proof.
  intros [Hf Hl [Hlen Hroots] Hpre Hout Hok Hall Hbl Hsz Hd Hr] Hro Hp Hh.
  assert (length roots' = length (kheaproots s)) as Hlen'.
  { rw -(length_fmap page roots') Hp length_fmap //. }
  split; try done.
  - split; [by rw /= Hlen'|]. eapply Forall_impl; [done|]. intros r. by apply root_ok_ext.
  - intros w w' r r' Hw Hw' Hle. simpl in Hw, Hw'.
    destruct (lookup_lt_is_Some_2 (kheaproots s) w) as [r0 H0]; [rw -Hlen'; by eapply lookup_lt_Some|].
    destruct (lookup_lt_is_Some_2 (kheaproots s) w') as [r1 H1]; [rw -Hlen'; by eapply lookup_lt_Some|].
    assert (page r = page r0) as ->.
    { apply (f_equal (λ l, l !! w)) in Hp. rw !list_lookup_fmap Hw H0 in Hp. by injection Hp. }
    assert (page r' = page r1) as ->.
    { apply (f_equal (λ l, l !! w')) in Hp. rw !list_lookup_fmap Hw' H1 in Hp. by injection Hp. }
    by eapply Hpre.
  - eapply Forall_impl; [done|]. intros h. by apply page_ok_ext.
  - by rw /all_pages /root_pages /= Hp.
  - by rw /all_pages /root_pages /= Hp.
Qed.

Lemma root_page_in s w r : kheaproots s !! w = Some r → page r ≠ 0 → page r ∈ root_pages s.
Proof.
  intros Hw Hp. apply list_elem_of_filter. split; [done|]. apply list_elem_of_fmap. exists r. split; [done|].
  by eapply list_elem_of_lookup_2.
Qed.

Lemma root_pages_NoDup s H B : heap s H B → NoDup (root_pages s).
Proof.
  intros Hh. pose proof (hp_distinct _ _ _ Hh) as Hd. rw /all_pages in Hd.
  apply NoDup_app in Hd as (_ & _ & Hd). by apply NoDup_app in Hd as (? & _).
Qed.

Lemma root_page_range s H B w r : heap s H B → kheaproots s !! w = Some r → page r ≠ 0 →
  page r mod PAGE_SIZE = 0 ∧ MIPS_KSEG0 < page r ∧ page r + PAGE_SIZE ≤ MIPS_KSEG0 + firstpaddr s.
Proof.
  intros Hh Hw Hp. pose proof (hp_range _ _ _ Hh) as Hr. rw Forall_forall in Hr. apply Hr.
  rw /all_pages !elem_of_app. right. left. by eapply root_page_in.
Qed.

(** A struct belongs to one root, at one index. *)
Lemma slot_inj s H B w w' r r' j j' :
  heap s H B → kheaproots s !! w = Some r → kheaproots s !! w' = Some r' → page r ≠ 0 → page r' ≠ 0 →
  (j < 256)%nat → (j' < 256)%nat → slot r j = slot r' j' → w = w' ∧ j = j'.
Proof.
  intros Hh Hw Hw' Hp Hp' Hj Hj' He.
  destruct (root_page_range _ _ _ _ _ Hh Hw Hp) as (Hm & _). destruct (root_page_range _ _ _ _ _ Hh Hw' Hp') as (Hm' & _).
  unfold slot, SIZEOF_PAGEREF, PAGE_SIZE in *.
  assert (page r = page r' ∧ j = j') as [Heq ->] by zlia. split; [|done].
  apply (NoDup_once (page <$> kheaproots s) w w' (page r)); [by eapply root_pages_NoDup | | | done].
  - by rw list_lookup_fmap Hw.
  - by rw list_lookup_fmap Hw' Heq.
Qed.

Lemma handed_out_alter s w r f p :
  kheaproots s !! w = Some r → page (f r) = page r → (∀ j, used r j = true → used (f r) j = true) →
  handed_out s p → handed_out (set_roots (alter f w (kheaproots s)) s) p.
Proof.
  intros Hw Hp Hu (w' & r' & j & Hw' & Hp' & Hj & -> & Hused). destruct (decide (w' = w)) as [->|Hne].
  - simplify_eq. exists w, (f r), j. rw /= list_lookup_alter_eq Hw /slot Hp. split; [done|]. split; [done|].
    split; [done|]. split; [done|]. by apply Hu.
  - exists w', r', j. by rw /= list_lookup_alter_ne.
Qed.

Lemma fmap_alter_same {A B} (g : A → B) f w (l : list A) :
  (∀ x, l !! w = Some x → g (f x) = g x) → g <$> alter f w l = g <$> l.
Proof.
  intros Hg. apply list_eq. intros k. rw !list_lookup_fmap. destruct (decide (k = w)) as [->|Hne].
  - rw list_lookup_alter_eq. destruct (l !! w) as [x|] eqn:Hx; [|done]. simpl. by rw Hg.
  - by rw list_lookup_alter_ne.
Qed.

Lemma heap_root s H B w r : heap s H B → kheaproots s !! w = Some r → root_ok s r.
Proof. intros Hh Hw. eapply Forall_lookup_1; [apply Hh | done]. Qed.

(** The bit of a pageref is set. *)
Lemma heap_take s H B w r i j word :
  heap s H B → kheaproots s !! w = Some r → pagerefs_inuse r !! i = Some word → (j < 32)%nat →
  Z.testbit word (Z.of_nat j) = false → (page r = 0 → exhausted s) →
  let s' := set_roots (alter (take_ref i j) w (kheaproots s)) s in
  heap s' H B ∧ (page r ≠ 0 → handed_out s' (slot r (i * 32 + j)) ∧ slot r (i * 32 + j) ∉ h_ref <$> H).
Proof.
  intros Hh Hw Hi Hj Hb Hx s'. pose proof (heap_root _ _ _ _ _ Hh Hw) as Hok.
  destruct (take_ref_ok _ _ _ _ _ Hok Hi Hj Hb Hx) as [Hok' Hu].
  assert (i * 32 + j < 256)%nat as Hlt.
  { apply lookup_lt_Some in Hi. rw (rk_words _ _ Hok) in Hi. unfold INUSE_WORDS in Hi. lia. }
  split.
  - apply heap_set_roots; [done | | by apply fmap_alter_same |].
    + apply Forall_alter; [apply Hh|]. intros r' Hr' _. by simplify_eq.
    + eapply Forall_impl; [apply Hh|]. intros p. apply (handed_out_alter _ _ r); [done..|].
      intros x Hx'. by rw Hu Hx' orb_true_r.
  - intros Hp. split.
    + exists w, (take_ref i j r), (i * 32 + j)%nat. rw /= list_lookup_alter_eq Hw.
      do 4 (split; [done|]). by rw Hu bool_decide_eq_true_2.
    + intros Hin. pose proof (hp_out _ _ _ Hh) as Hout. rw Forall_forall in Hout.
      destruct (Hout _ Hin) as (w' & r' & j' & Hw' & Hp' & Hj' & He & Hused).
      destruct (slot_inj _ _ _ _ _ _ _ _ _ Hh Hw Hw' Hp Hp' Hlt Hj' He) as [-> <-]. simplify_eq.
      rw (used_lookup _ _ _ _ Hi Hj) in Hused. congruence.
Qed.

(** ** A new page of pagerefs *)

Lemma fresh_refs_some va j : (j < NPAGEREFS_PER_PAGE)%nat →
  fresh_refs va !! (va + SIZEOF_PAGEREF * Z.of_nat j) = Some (Pageref 0 0 0 0 0).
Proof.
  intros Hj. apply elem_of_list_to_map_1.
  - rw -list_fmap_compose. apply NoDup_fmap_2; [|apply NoDup_seq].
    intros x y. rw /compose /=. unfold SIZEOF_PAGEREF. lia.
  - apply list_elem_of_fmap. exists j. split; [done|]. apply elem_of_seq. lia.
Qed.

Lemma fresh_refs_none va p : (∀ j, (j < NPAGEREFS_PER_PAGE)%nat → p ≠ va + SIZEOF_PAGEREF * Z.of_nat j) →
  fresh_refs va !! p = None.
Proof.
  intros Hp. apply not_elem_of_list_to_map. rw -list_fmap_compose.
  intros (j & -> & Hj%elem_of_seq)%list_elem_of_fmap. apply (Hp j); [lia|done].
Qed.

Lemma filter_insert_zero (l : list Z) w a :
  l !! w = Some 0 → a ≠ 0 → filter (λ x, x ≠ 0) (<[w := a]> l) ≡ₚ a :: filter (λ x, x ≠ 0) l.
Proof.
  revert w. induction l as [|x l IH]; intros [|w] Hw Ha; simplify_eq/=.
  - rw !filter_cons decide_True // decide_False //.
  - pose proof (IH w Hw Ha) as He. rw !filter_cons. destruct (decide (x ≠ 0)); [|done].
    rw He. apply Permutation_swap.
Qed.

Lemma alter_insert_lookup {A} (f : A → A) w (l : list A) x : l !! w = Some x → alter f w l = <[w := f x]> l.
Proof.
  intros Hx. apply list_eq. intros k. destruct (decide (k = w)) as [->|Hne].
  - rw list_lookup_alter_eq Hx list_lookup_insert_eq //. by eapply lookup_lt_Some.
  - by rw list_lookup_alter_ne // list_lookup_insert_ne.
Qed.

Lemma elem_filter_type k (H : list hpage) p :
  p ∈ h_ref <$> filter (λ h, h_type h = k) H → p ∈ h_ref <$> H.
Proof. intros (h & -> & [_ Hh]%list_elem_of_filter)%list_elem_of_fmap. apply list_elem_of_fmap. eauto. Qed.

(** What the pagerefs of the heap say is all that counts of [prs]. *)
Lemma chains_ext s s' H B :
  heap s H B → allbase s' = allbase s → sizebases s' = sizebases s →
  (∀ p, p ∈ h_ref <$> H → prs s' !! p = prs s !! p) →
  chain (λ p, next_all <$> prs s' !! p) (allbase s') (h_ref <$> H) ∧
  ∀ k a, sizebases s' !! k = Some a →
    chain (λ p, next_samesize <$> prs s' !! p) a (h_ref <$> filter (λ h, h_type h = k) H).
Proof.
  intros Hh -> -> Hp. split.
  - eapply chain_ext; [|apply Hh]. intros p Hin. by rw Hp.
  - intros k a Ha. eapply chain_ext; [|by apply Hh]. intros p Hin%elem_filter_type. by rw Hp.
Qed.

Lemma count_set_page va r : count_used (set_page va r) = count_used r.
Proof. by rw /count_used; do 2 f_equal. Qed.

Lemma heap_give_page s H B w r va :
  heap s H ((va, 1%nat) :: B) → kheaproots s !! w = Some r → page r = 0 →
  (∀ w' r', (w' < w)%nat → kheaproots s !! w' = Some r' → page r' ≠ 0) →
  heap (set_prs (fresh_refs va ∪ prs s) (set_roots (alter (set_page va) w (kheaproots s)) s)) H B.
Proof.
  intros Hh Hw Hp Hbefore.
  pose proof Hh as [Hf Hl [Hlen Hroots] Hpre Hout Hok Hall Hbl Hsz Hd Hr].
  set (s' := set_prs _ _).
  assert (va ∈ all_pages s H ((va, 1%nat) :: B)) as Hva.
  { rw /all_pages /= /big_pages /= Z.add_0_r. set_solver. }
  assert (va ≠ 0) as Hva0.
  { rw Forall_forall in Hr. destruct (Hr _ Hva). unfold MIPS_KSEG0 in *. lia. }
  assert (all_pages s' H B ≡ₚ all_pages s H ((va, 1%nat) :: B)) as Hperm.
  { rw /all_pages /root_pages /= (alter_insert_lookup _ _ _ _ Hw) list_fmap_insert filter_insert_zero //.
    - rw /big_pages /= Z.add_0_r. solve_Permutation.
    - by rw list_lookup_fmap Hw /= Hp. }
  assert (∀ p, p ∈ h_ref <$> H → prs s' !! p = prs s !! p) as Hprs.
  { intros p Hin. rw Forall_forall in Hout. destruct (Hout _ Hin) as (w' & r' & j' & Hw' & Hp' & Hj' & -> & _).
    apply lookup_union_r, fresh_refs_none. intros j Hj He.
    pose proof (root_page_in _ _ _ Hw' Hp') as Hin'.
    assert (page r' ≠ va) as Hne.
    { intros Heq. assert (all_pages s H ((va, 1%nat) :: B) ≡ₚ va :: root_pages s ++ (h_page <$> H) ++ (B ≫= big_pages)) as Hq.
      { rw /all_pages /= /big_pages /= Z.add_0_r. solve_Permutation. }
      rw Hq in Hd. apply NoDup_cons in Hd as [Hnot _]. apply Hnot. rw elem_of_app -Heq. by left. }
    rw Forall_forall in Hr. destruct (Hr _ Hva) as (Hm & _).
    destruct (root_page_range _ _ _ _ _ Hh Hw' Hp') as (Hm' & _).
    unfold slot, SIZEOF_PAGEREF, PAGE_SIZE, NPAGEREFS_PER_PAGE in *. zlia. }
  destruct (chains_ext s s' _ _ Hh eq_refl eq_refl Hprs) as [Hall' Hsz'].
  split; try done.
  - split; [by rw /= length_alter|]. apply Forall_alter.
    + eapply Forall_impl; [done|]. intros r'. apply root_ok_ext; [|done].
      intros p Hx. apply lookup_union_is_Some. by right.
    + intros r' Hr' _. simplify_eq. pose proof (heap_root _ _ _ _ _ Hh Hw) as Hrk.
      split; [exact (rk_words _ _ Hrk) | exact (rk_range _ _ Hrk) | | | by intros].
      { rw count_set_page. exact (rk_count _ _ Hrk). }
      intros _ j Hj. apply lookup_union_is_Some. left. rw /slot /= fresh_refs_some //.
  - intros w1 w2 r1 r2 H1 H2 Hle Hp2. simpl in H1, H2. destruct (decide (w1 = w)) as [->|Hn1].
    { rw list_lookup_alter_eq Hw in H1. injection H1 as <-. exact Hva0. }
    rw list_lookup_alter_ne // in H1. destruct (decide (w2 = w)) as [->|Hn2].
    { apply (Hbefore w1); [lia|done]. }
    rw list_lookup_alter_ne // in H2. by eapply Hpre.
  - eapply Forall_impl; [done|]. intros p (w' & r' & j & Hw' & Hp' & Hj & -> & Hu).
    exists w', r', j. split; [|done]. rw /= list_lookup_alter_ne //. intros ->. congruence.
  - rw Forall_forall in Hok. rw Forall_forall. intros h Hin.
    apply (page_ok_ext s); [by apply Hprs, list_elem_of_fmap_2 | done | by apply Hok].
  - by rw Hperm.
  - by rw Hperm.
Qed.

(** ** Pagerefs handed out and taken back

    [allocpageref] returns a struct nobody has, or NULL when no page is left for
    structs or all are taken; [freepageref] takes one back. *)

(** ** Handing out a pageref *)

Lemma wp_load_root w r (Q : kheap_root → state → Prop) s :
  kheaproots s !! w = Some r → Q r s → wp (load_root w) Q s.
Proof. intros. by eapply wp_deref. Qed.

Lemma wp_upd_root w f r (Q : unit → state → Prop) s :
  kheaproots s !! w = Some r → Q tt (set_roots (alter f w (kheaproots s)) s) → wp (upd_root w f) Q s.
Proof. intros Hw HQ. rw /upd_root. wp_step. eapply wp_load_root; [done|]. by wp_step. Qed.

(** Every pageref is taken. *)
Definition all_taken (s : state) : Prop := ∀ w r, kheaproots s !! w = Some r → numinuse r >= 256.

Definition ref_result (m : gmap Z Z) (H : list hpage) (B : list (Z * nat)) (p : Z) (s' : state) : Prop :=
  heap s' H B ∧ kmalloc_spinlock s' = true ∧ mem s' = m ∧
  (p = 0 ∧ (exhausted s' ∨ all_taken s') ∨ p ≠ 0 ∧ handed_out s' p ∧ p ∉ h_ref <$> H).

Lemma alter_alter {A} (f g : A → A) w (l : list A) : (∀ x, f (g x) = g (f x)) → alter f w (alter g w l) = alter g w (alter f w l).
Proof.
  intros He. apply list_eq. intros k. destruct (decide (k = w)) as [->|Hne].
  - rw !list_lookup_alter_eq. destruct (l !! w); [|done]. by rw /= He.
  - by rw !list_lookup_alter_ne.
Qed.

Lemma try_ref_spec s H B w r i j word :
  heap s H B → kmalloc_spinlock s = true → kheaproots s !! w = Some r →
  (∀ w' r', (w' < w)%nat → kheaproots s !! w' = Some r' → numinuse r' >= 256) →
  pagerefs_inuse r !! i = Some word → (j < 32)%nat →
  wp (try_ref w i j) (λ res s', match res with
    | Some p => ref_result (mem s) H B p s'
    | None => s' = s ∧ Z.testbit word (Z.of_nat j) = true
    end) s.
Proof.
  intros Hh Hl Hw Hbefore Hi Hj. rw /try_ref. wp_step. eapply wp_load_root; [done|]. cbn beta.
  wp_step. eapply wp_deref; [done|]. cbn beta.
  bd_case (Z.land word (Z.shiftl 1 (Z.of_nat j)) = 0) as Hz; last first.
  { apply wp_ret. split; [done|]. rw land_bit in Hz. by apply not_false_iff_true. }
  apply land_bit in Hz. wp_step. eapply wp_upd_root; [done|]. set (s1 := set_roots _ s).
  assert (kheaproots s1 !! w = Some (take_ref i j r)) as Hw1 by (by rw /= list_lookup_alter_eq Hw).
  bd_case (page r = 0) as Hp; last first.
  { repeat wp_step. eapply wp_load_root; [done|]. cbn beta. rw bool_decide_eq_false_2 //.
    destruct (heap_take _ _ _ _ _ _ _ _ Hh Hw Hi Hj Hz) as [Hh1 Hout]; [done|].
    apply wp_ret. split; [done|]. split; [done|]. split; [done|]. right. destruct (Hout Hp) as [Ho Hn]. split; [|done].
    destruct (root_page_range _ _ _ _ _ Hh Hw Hp). unfold MIPS_KSEG0, SIZEOF_PAGEREF in *. simpl. lia. }
  destruct (heap_kseg _ _ _ Hh) as [Hf Hlast].
  wp_step. rw /allocpagerefpage. wp_step. eapply wp_load_root; [done|]. cbn beta.
  wp_step. apply wp_kassert; [by apply bool_decide_eq_true_2|].
  wp_step. eapply wp_Ok; [by apply release_eq|]. wp_step.
  pose proof (alloc_kpages_eq 1 (set_lock false s1) eq_refl Hf Hlast ltac:(lia)) as Ha. simpl in Ha.
  destruct (decide (lastpaddr s < firstpaddr s + 1 * PAGE_SIZE)) as [Hex|Hroom].
  - eapply wp_Ok; [exact Ha|]. wp_step. eapply wp_Ok; [by apply acquire_eq|]. rw /=. wp_step.
    wp_step. eapply wp_load_root; [done|]. rw /= bool_decide_eq_true_2 //. apply wp_ret.
    destruct (heap_take _ _ _ _ _ _ _ _ Hh Hw Hi Hj Hz) as [Hh1 _]; [done|].
    split; [by apply (heap_lock true) in Hh1|]. do 2 (split; [done|]). left. split; [done|]. left. exact Hex.
  - eapply wp_Ok; [exact Ha|]. wp_step. eapply wp_Ok; [by apply acquire_eq|].
    rw bool_decide_eq_false_2; [|unfold MIPS_KSEG0; lia].
    set (va := MIPS_KSEG0 + firstpaddr s). wp_step. apply wp_kassert.
    { apply bool_decide_eq_true_2. destruct (hp_first _ _ _ Hh) as [_ Hm]. unfold va, MIPS_KSEG0, PAGE_SIZE in *. zlia. }
    wp_step. eapply wp_load_root; [done|]. rw /= bool_decide_eq_false_2; [|by intros ?].
    wp_step. eapply wp_upd_root; [done|]. wp_step.
    wp_step. eapply wp_load_root; [by rw /= !list_lookup_alter_eq Hw|].
    assert (va ≠ 0) as Hva by (unfold va, MIPS_KSEG0; lia).
    cbn beta. rw bool_decide_eq_false_2; [|exact Hva]. apply wp_ret.
    pose proof (heap_grow 1 _ _ _ Hh) as Hh1. fold va in Hh1.
    set (s2 := set_firstpaddr _ s) in Hh1. specialize (Hh1 ltac:(lia)).
    pose proof (heap_give_page s2 H B w r va Hh1 Hw Hp) as Hh2.
    set (s3 := set_prs _ (set_roots _ s2)) in Hh2.
    assert (kheaproots s3 !! w = Some (set_page va r)) as Hw3 by (by rw /= list_lookup_alter_eq Hw).
    destruct (heap_take s3 H B w (set_page va r) i j word) as [Hh3 Hout]; [|exact Hw3 | exact Hi | exact Hj | exact Hz | by intros |].
    { apply Hh2. intros w' r' Hlt Hw' Hp'. pose proof (heap_root _ _ _ _ _ Hh Hw') as Hrk.
      pose proof (Hbefore _ _ Hlt Hw') as Hfull. destruct (rk_idle _ _ Hrk Hp') as [?|Hex]; [lia|].
      unfold exhausted in Hex. lia. }
    destruct (Hout Hva) as [Ho Hn]. clear Hout Hh2.
    apply (heap_lock true) in Hh3.
    rw /= (alter_alter (take_ref i j) (set_page va)) // in Hh3 Ho.
    split; [exact Hh3|]. do 2 (split; [done|]). right. split; [|split; [exact Ho | exact Hn]].
    rw /= /SIZEOF_PAGEREF /va /MIPS_KSEG0. lia.
Qed.

(** ** allocpageref *)

Lemma all_ones w : 0 ≤ w < 2 ^ 32 → (∀ j, (j < 32)%nat → Z.testbit w (Z.of_nat j) = true) → w = 0xffffffff.
Proof.
  intros Hw Hb. change 0xffffffff with (Z.ones 32). apply Z.bits_inj'. intros n Hn.
  destruct (decide (n < 32)).
  - rw Z.ones_spec_low; [|lia]. specialize (Hb (Z.to_nat n) ltac:(lia)). by rw Z2Nat.id in Hb.
  - rw Z.ones_spec_high; [|lia]. by rw (bits_above 32); [|lia..].
Qed.

Lemma filter_all {A} (P : A → Prop) `{∀ x, Decision (P x)} (l : list A) : (∀ x, x ∈ l → P x) → filter P l = l.
Proof. induction l as [|x l IH]; intros Hp; [done|]. rw filter_cons decide_True; [f_equal; apply IH|]; set_solver. Qed.

(** When every word is full the root counts 256. *)
Lemma full_root s r : root_ok s r → (∀ i, (i < 8)%nat → pagerefs_inuse r !! i = Some 0xffffffff) → numinuse r = 256.
Proof.
  intros Hok Hi. rw (rk_count _ _ Hok) /count_used filter_all ?length_seq //. intros j Hj%elem_of_seq.
  rw /used Hi. { apply (Z.ones_spec_low 32). pose proof (Nat.mod_upper_bound j 32). lia. }
  apply Nat.Div0.div_lt_upper_bound. lia.
Qed.

Lemma allocpageref_spec s H B :
  heap s H B → kmalloc_spinlock s = true → wp allocpageref (ref_result (mem s) H B) s.
Proof.
  intros Hh Hl. rw /allocpageref. wp_step.
  apply (wp_for_up (λ w s', s' = s ∧ ∀ w' r', (w' < w)%nat → kheaproots s !! w' = Some r' → numinuse r' >= 256)).
  - split; [done|]. lia.
  - intros w _s [_ Hw] [-> Hbefore]. wp_step.
    destruct (lookup_lt_is_Some_2 (kheaproots s) w) as [r Hr].
    { destruct (hp_roots _ _ _ Hh) as [-> _]. done. }
    pose proof (heap_root _ _ _ _ _ Hh Hr) as Hok.
    eapply wp_load_root; [done|]. cbn beta. change (Z.of_nat NPAGEREFS_PER_PAGE) with 256.
    bd_case (numinuse r >= 256) as Hn.
    { apply wp_ret. split; [done|]. intros w' r' Hlt Hr'. destruct (decide (w' = w)) as [->|]; [by simplify_eq|].
      apply (Hbefore w'); [lia|done]. }
    apply (wp_for_up (λ i s', s' = s ∧ ∀ i', (i' < i)%nat → pagerefs_inuse r !! i' = Some 0xffffffff)).
    + split; [done|]. lia.
    + intros i _s [_ Hi] [-> Hfull]. destruct (lookup_lt_is_Some_2 (pagerefs_inuse r) i) as [word Hword].
      { by rw (rk_words _ _ Hok). }
      wp_step. eapply wp_deref; [done|]. cbn beta. bd_case (word = 0xffffffff) as Hones.
      { apply wp_ret. split; [done|]. intros i' Hlt. destruct (decide (i' = i)) as [->|]; [by subst|]. apply Hfull. lia. }
      wp_step. apply (wp_for_up (λ j s', s' = s ∧ ∀ j', (j' < j)%nat → Z.testbit word (Z.of_nat j') = true)).
      * split; [done|]. lia.
      * intros j _s [_ Hj] [-> Hset]. eapply wp_mono; [by apply (try_ref_spec s H B w r i j word)|].
        intros [p|] s'; [intros Hp; by apply wp_ret|]. intros [-> Hb]. split; [done|]. intros j' Hlt.
        destruct (decide (j' = j)) as [->|]; [done|]. apply Hset. lia.
      * intros _s [-> Hset]. exfalso. apply Hones, all_ones; [|by intros; apply Hset].
        pose proof (rk_range _ _ Hok) as Hr'. by eapply Forall_lookup_1 in Hr'.
    + intros _s [-> Hfull]. exfalso. apply Hn. rw (full_root s r) //.
  - intros _s [-> Hall]. apply wp_ret. split; [done|]. do 2 (split; [done|]). left. split; [done|]. right.
    intros w r Hr. apply (Hall w); [|done]. apply lookup_lt_Some in Hr. destruct (hp_roots _ _ _ Hh) as [Hlen _].
    by rw -Hlen.
Qed.

(** ** freepageref *)

(** The index of a struct, as [freepageref] computes it for each root. *)
Lemma slot_index s H B w w' r r' j :
  heap s H B → kheaproots s !! w = Some r → kheaproots s !! w' = Some r' → page r ≠ 0 → page r' ≠ 0 →
  (j < 256)%nat →
  let x := u32 (Z.quot (slot r j - page r') SIZEOF_PAGEREF) in
  if decide (w' = w) then x = Z.of_nat j else ¬ x < Z.of_nat NPAGEREFS_PER_PAGE.
Proof.
  intros Hh Hw Hw' Hp Hp' Hj x. unfold x, slot, SIZEOF_PAGEREF. change (Z.of_nat NPAGEREFS_PER_PAGE) with 256.
  destruct (decide (w' = w)) as [->|Hne].
  - simplify_eq. replace (page r + 16 * Z.of_nat j - page r) with (Z.of_nat j * 16) by lia.
    rw Z.quot_mul //. apply u32_small. lia.
  - destruct (root_page_range _ _ _ _ _ Hh Hw Hp) as (Hm & Hlo & Hhi).
    destruct (root_page_range _ _ _ _ _ Hh Hw' Hp') as (Hm' & Hlo' & Hhi').
    destruct (heap_kseg _ _ _ Hh) as [_ Hl].
    assert (page r ≠ page r') as Hd.
    { intros He. apply Hne. symmetry.
      apply (NoDup_once (page <$> kheaproots s) w w' (page r)); [by eapply root_pages_NoDup | | | done].
      - by rw list_lookup_fmap Hw.
      - by rw list_lookup_fmap Hw' He. }
    unfold u32, PAGE_SIZE, MIPS_KSEG0 in *. 
    assert (page r' + 4096 ≤ page r ∨ page r + 4096 ≤ page r') as [Hc|Hc] by zlia.
    + assert (256 ≤ Z.quot (page r + 16 * Z.of_nat j - page r') 16 < 2 ^ 32) by zlia. rw Z.mod_small; lia.
    + assert (- 2 ^ 31 ≤ Z.quot (page r + 16 * Z.of_nat j - page r') 16 < 0) by zlia. zlia.
Qed.

Lemma heap_drop s H B w r i j word :
  heap s H B → kheaproots s !! w = Some r → page r ≠ 0 → pagerefs_inuse r !! i = Some word → (j < 32)%nat →
  Z.testbit word (Z.of_nat j) = true → slot r (i * 32 + j) ∉ h_ref <$> H →
  numinuse r > 0 ∧ heap (set_roots (alter (drop_ref i (Z.shiftl 1 (Z.of_nat j))) w (kheaproots s)) s) H B.
Proof.
  intros Hh Hw Hp Hi Hj Hb Hn. pose proof (heap_root _ _ _ _ _ Hh Hw) as Hok.
  destruct (drop_ref_ok _ _ _ _ _ Hok Hp Hi Hj Hb) as (Hgt & Hok' & Hu). split; [done|].
  apply heap_set_roots; [done | | by apply fmap_alter_same |].
  - apply Forall_alter; [apply Hh|]. intros r' Hr' _. by simplify_eq.
  - pose proof (hp_out _ _ _ Hh) as Hout. rw Forall_forall in Hout. rw Forall_forall. intros p Hin.
    destruct (Hout _ Hin) as (w' & r' & j' & Hw' & Hp' & Hj' & -> & Hused).
    destruct (decide (w' = w)) as [->|Hne].
    + simplify_eq. exists w, (drop_ref i (Z.shiftl 1 (Z.of_nat j)) r), j'. rw /= list_lookup_alter_eq Hw.
      do 4 (split; [done|]). rw Hu Hused bool_decide_eq_false_2 //. by intros ->.
    + exists w', r', j'. by rw /= list_lookup_alter_ne.
Qed.

Lemma freepageref_spec s H B p :
  heap s H B → kmalloc_spinlock s = true → handed_out s p → p ∉ h_ref <$> H →
  wp (freepageref p) (λ _ s', heap s' H B ∧ kmalloc_spinlock s' = true ∧ mem s' = mem s) s.
Proof.
  intros Hh Hl (w0 & r0 & j0 & Hw0 & Hp0 & Hj0 & -> & Hused) Hn. rw /freepageref. wp_step.
  assert (w0 < 16)%nat as Hlt0.
  { apply lookup_lt_Some in Hw0. destruct (hp_roots _ _ _ Hh) as [Hlen _]. by rw Hlen in Hw0. }
  apply (wp_for_up (λ w s', s' = s ∧ (w ≤ w0)%nat)).
  - split; [done|]. lia.
  - intros w _s [_ Hw] [-> Hle]. destruct (lookup_lt_is_Some_2 (kheaproots s) w) as [r Hr].
    { destruct (hp_roots _ _ _ Hh) as [-> _]. done. }
    wp_step. eapply wp_load_root; [done|]. cbn beta.
    pose proof (hp_prefix _ _ _ Hh _ _ _ _ Hr Hw0 Hle Hp0) as Hp. rw bool_decide_eq_false_2 //.
    pose proof (slot_index _ _ _ _ _ _ _ _ Hh Hw0 Hr Hp0 Hp Hj0) as Hx. cbv zeta in Hx |- *.
    destruct (decide (w = w0)) as [->|Hne]; [|rw bool_decide_eq_false_2 //; apply wp_ret; split; [done|lia]].
    simplify_eq. rw Hx bool_decide_eq_true_2; [|unfold NPAGEREFS_PER_PAGE in *; lia].
    set (i := (j0 / 32)%nat). set (j := (j0 mod 32)%nat).
    assert (Z.to_nat (Z.of_nat j0 / 32) = i) as -> by (unfold i; rw -(Nat2Z.inj_div j0 32) Nat2Z.id //).
    assert (Z.of_nat j0 mod 32 = Z.of_nat j) as -> by (unfold j; rw -(Nat2Z.inj_mod j0 32) //).
    assert (j0 = i * 32 + j)%nat as Hj0e by (unfold i, j; pose proof (Nat.div_mod j0 32 ltac:(lia)); lia).
    assert (j < 32)%nat as Hj by (unfold j; pose proof (Nat.mod_upper_bound j0 32 ltac:(lia)); lia).
    rw /used in Hused. fold i j in Hused. destruct (pagerefs_inuse r0 !! i) as [word|] eqn:Hword; [|done].
    rw Hj0e in Hn. destruct (heap_drop _ _ _ _ _ _ _ _ Hh Hw0 Hp0 Hword Hj Hused Hn) as [Hgt Hh'].
    wp_step. eapply wp_deref; [done|]. wp_step. apply wp_kassert.
    { apply bool_decide_eq_true_2. intros Hz%land_bit. congruence. }
    wp_step. apply wp_kassert; [by apply bool_decide_eq_true_2|].
    wp_step. eapply wp_upd_root; [done|]. apply wp_ret. by apply wp_ret.
  - intros _s [_ Hle]. unfold NUM_PAGEREFPAGES in Hle. simpl in Hle. lia.
Qed.
