(* ===== verification/KmallocBlocks.v ===== *)
(** * Blocks of a page

    Taking the first free block of a page ([doalloc]), building the list of the
    free blocks of a fresh page ([thread_page]), and what a change of one page
    does to the heap. *)

From stdpp Require Import base tactics list gmap option numbers ssreflect.
From S2P Require Import Prelude Kern Kmalloc KmallocFacts KmallocPages.

Open Scope Z_scope.

(** ** The page address and the block type in one word *)

Lemma frame_bit n : 0 ≤ n → Z.testbit PAGE_FRAME n = bool_decide (12 ≤ n < 32).
Proof.
  intros Hn. change PAGE_FRAME with (Z.shiftl (Z.ones 20) 12). rw Z.shiftl_spec //.
  case_bool_decide as Hc; [by rw Z.ones_spec_low; [|lia]|].
  destruct (decide (n < 12)); [by rw Z.testbit_neg_r; [|lia] | by rw Z.ones_spec_high; [|lia]].
Qed.

Lemma low_bit n : 0 ≤ n → Z.testbit 0xfff n = bool_decide (n < 12).
Proof.
  intros Hn. change 0xfff with (Z.ones 12). case_bool_decide; [by rw Z.ones_spec_low | by rw Z.ones_spec_high; [|lia]].
Qed.

Lemma aligned_bit pg n : pg mod PAGE_SIZE = 0 → n < 12 → Z.testbit pg n = false.
Proof.
  intros Hm Hn. replace pg with ((pg / 4096) * 2 ^ 12) by (unfold PAGE_SIZE in *; zlia).
  by apply Z.mul_pow2_bits_low.
Qed.

Lemma pab_page pg k : pg mod PAGE_SIZE = 0 → 0 ≤ pg < 2 ^ 32 → Z.land (MKPAB pg k) PAGE_FRAME = pg.
Proof.
  intros Hm Hr. apply Z.bits_inj'. intros n Hn. rw /MKPAB Z.land_spec Z.lor_spec !Z.land_spec frame_bit // low_bit //.
  repeat case_bool_decide; try lia; rw ?andb_true_r ?andb_false_r ?orb_false_r //.
  all: destruct (decide (n < 12)); [by rw aligned_bit | by rw (bits_above 32); [|lia..]].
Qed.

Lemma pab_type pg k : pg mod PAGE_SIZE = 0 → 0 ≤ k < 4096 → Z.land (MKPAB pg k) 0xfff = k.
Proof.
  intros Hm Hr. apply Z.bits_inj'. intros n Hn. rw /MKPAB Z.land_spec Z.lor_spec !Z.land_spec frame_bit // low_bit //.
  repeat case_bool_decide; try lia; rw ?andb_true_r ?andb_false_r ?orb_false_r //.
  all: by rw (bits_above 12); [|lia..].
Qed.

(** ** The addresses of blocks *)

Lemma block_range pg k a : (k < NSIZES)%nat → block pg k a →
  pg ≤ a ∧ a + bsize k ≤ pg + PAGE_SIZE ∧ (a - pg) mod bsize k = 0.
Proof.
  intros Hk (i & Hi & ->). destruct (bsize_cases k Hk) as (H0 & _ & Hm & _ & _). unfold PAGE_SIZE.
  split; [nia|]. split; [nia|]. replace (pg + i * bsize k - pg) with (i * bsize k) by lia. apply Z.mod_mul. lia.
Qed.

Lemma block_mod pg k a : (k < NSIZES)%nat → pg mod PAGE_SIZE = 0 → block pg k a → a mod 16 = 0.
Proof.
  intros Hk Hm (i & Hi & ->). destruct (bsize_cases k Hk) as (_ & H16 & _). unfold PAGE_SIZE in Hm.
  assert (16 * (bsize k / 16) = bsize k) as Hb by zlia. rw -Hb.
  replace (pg + i * (16 * (bsize k / 16))) with (pg + (i * (bsize k / 16)) * 16) by lia.
  rw Z.mod_add //. zlia.
Qed.

(** All blocks of a page. *)
Definition blocks_of (pg : Z) (k : nat) : list Z := (λ i, pg + Z.of_nat i * bsize k) <$> seq 0 (Z.to_nat (nblocks k)).

Lemma blocks_of_elem pg k a : block pg k a → a ∈ blocks_of pg k.
Proof.
  intros (i & Hi & ->). apply list_elem_of_fmap. exists (Z.to_nat i). split; [by rw Z2Nat.id; [|lia]|].
  apply elem_of_seq. lia.
Qed.

(** Two blocks of a page do not overlap. *)
Lemma blocks_disjoint pg k x a : (k < NSIZES)%nat → block pg k x → block pg k a → x ≠ a → x < a ∨ a + bsize k ≤ x.
Proof.
  intros Hk (i & Hi & ->) (j & Hj & ->) Hne. destruct (bsize_cases _ Hk) as (Hb & _).
  destruct (decide (i < j)); [left; nia|]. destruct (decide (i = j)) as [->|]; [done|]. right. nia.
Qed.

Lemma free_within s h : page_ok s h → h_free h ⊆+ blocks_of (h_page h) (h_type h).
Proof.
  intros [Hk _ Hc Hb]. apply NoDup_submseteq; [by eapply chain_NoDup|]. intros a Ha.
  rw Forall_forall in Hb. by apply blocks_of_elem, Hb.
Qed.

Lemma free_count s h : page_ok s h → NoDup (h_free h) ∧ Z.of_nat (length (h_free h)) ≤ nblocks (h_type h) ≤ 256.
Proof.
  intros Hok. pose proof (free_within _ _ Hok) as Hsub. destruct Hok as [Hk _ Hc Hb].
  destruct (bsize_cases _ Hk) as (_ & _ & _ & Hn & _). split; [by eapply chain_NoDup|].
  apply submseteq_length in Hsub. rw /blocks_of length_fmap length_seq in Hsub. lia.
Qed.

(** ** The pages of a heap *)

Lemma heap_page_range s H B h : heap s H B → h ∈ H →
  h_page h mod PAGE_SIZE = 0 ∧ MIPS_KSEG0 < h_page h ∧ h_page h + PAGE_SIZE ≤ MIPS_KSEG0 + firstpaddr s.
Proof.
  intros Hh Hin. pose proof (hp_range _ _ _ Hh) as Hr. rw Forall_forall in Hr. apply Hr.
  rw /all_pages elem_of_app. left. by apply list_elem_of_fmap_2.
Qed.

Lemma heap_page_ok s H B h : heap s H B → h ∈ H → page_ok s h.
Proof. intros Hh Hin. pose proof (hp_ok _ _ _ Hh) as Hok. rw Forall_forall in Hok. by apply Hok. Qed.

Lemma heap_pages_differ s H1 h H2 B h' : heap s (H1 ++ h :: H2) B → h' ∈ H1 ++ H2 →
  h_page h' + PAGE_SIZE ≤ h_page h ∨ h_page h + PAGE_SIZE ≤ h_page h'.
Proof.
  intros Hh Hin.
  destruct (heap_page_range _ _ _ h Hh ltac:(set_solver)) as (Hm & _).
  destruct (heap_page_range _ _ _ h' Hh ltac:(set_solver)) as (Hm' & _).
  assert (h_page h ≠ h_page h') as Hne; [|unfold PAGE_SIZE in *; zlia].
  pose proof (hp_distinct _ _ _ Hh) as Hd. rw /all_pages fmap_app fmap_cons in Hd.
  apply NoDup_app in Hd as (Hd & _). rw -Permutation_middle in Hd. apply NoDup_cons in Hd as [Hn _].
  intros He. apply Hn. rw -fmap_app He. by apply list_elem_of_fmap_2.
Qed.

Lemma heap_pages_other s H B h h' : heap s H B → h ∈ H → h' ∈ H →
  h' = h ∨ h_page h' + PAGE_SIZE ≤ h_page h ∨ h_page h + PAGE_SIZE ≤ h_page h'.
Proof.
  intros Hh Hin Hin'. apply list_elem_of_split in Hin as (H1 & H2 & ->).
  assert (h' = h ∨ h' ∈ H1 ++ H2) as [->|Hd] by set_solver; [by left|]. right. by eapply heap_pages_differ.
Qed.

Lemma heap_refs_NoDup s H B : heap s H B → NoDup (h_ref <$> H).
Proof. intros Hh. eapply chain_NoDup, Hh. Qed.

Lemma heap_ref_differ s H1 h H2 B h' : heap s (H1 ++ h :: H2) B → h' ∈ H1 ++ H2 → h_ref h' ≠ h_ref h.
Proof.
  intros Hh Hin He. pose proof (heap_refs_NoDup _ _ _ Hh) as Hd. rw fmap_app fmap_cons -Permutation_middle in Hd.
  apply NoDup_cons in Hd as [Hn _]. apply Hn. rw -fmap_app -He. by apply list_elem_of_fmap_2.
Qed.

Lemma heap_ref_inj s H B h h' : heap s H B → h ∈ H → h' ∈ H → h_ref h = h_ref h' → h = h'.
Proof.
  intros Hh Hin Hin' He. apply list_elem_of_split in Hin as (H1 & H2 & ->).
  assert (h' = h ∨ h' ∈ H1 ++ H2) as [->|Hd] by set_solver; [done|].
  by destruct (heap_ref_differ _ _ _ _ _ _ Hh Hd).
Qed.

(** Memory outside the page [pg] is unchanged. *)
Definition same_outside (pg : Z) (s s' : state) : Prop :=
  ∀ a, a < pg ∨ pg + PAGE_SIZE ≤ a → word s' a = word s a.

Lemma free_outside s h pg s' : page_ok s h → h_page h + PAGE_SIZE ≤ pg ∨ pg + PAGE_SIZE ≤ h_page h →
  same_outside pg s s' → ∀ a, a ∈ h_free h → word s' a = word s a.
Proof.
  intros [Hk _ _ Hb] Hd Hs a Ha. apply Hs. rw Forall_forall in Hb.
  destruct (block_range _ _ _ Hk (Hb a Ha)) as (? & ? & _). destruct (bsize_cases _ Hk) as (? & _). lia.
Qed.

(** One page of the heap changes: its free blocks and the fields of its pageref
    that describe them. *)
Lemma heap_change s s' H1 h h' H2 B :
  heap s (H1 ++ h :: H2) B →
  firstpaddr s' = firstpaddr s → lastpaddr s' = lastpaddr s → kheaproots s' = kheaproots s →
  sizebases s' = sizebases s → allbase s' = allbase s →
  (∀ p, p ≠ h_ref h → prs s' !! p = prs s !! p) →
  next_all <$> prs s' !! h_ref h = next_all <$> prs s !! h_ref h →
  next_samesize <$> prs s' !! h_ref h = next_samesize <$> prs s !! h_ref h →
  same_outside (h_page h) s s' →
  h_ref h' = h_ref h → h_page h' = h_page h → h_type h' = h_type h → page_ok s' h' →
  heap s' (H1 ++ h' :: H2) B.
Proof.
  intros Hh Ef El Er Es Ea Hp Hna Hns Hm Eref Epage Etype Hok'.
  assert (h_ref <$> H1 ++ h' :: H2 = h_ref <$> H1 ++ h :: H2) as Hrefs by (rw !fmap_app !fmap_cons Eref //).
  assert (all_pages s' (H1 ++ h' :: H2) B = all_pages s (H1 ++ h :: H2) B) as Hpages.
  { by rw /all_pages /root_pages Er !fmap_app !fmap_cons Epage. }
  assert (∀ p, is_Some (prs s !! p) → is_Some (prs s' !! p)) as Hsome.
  { intros p Hs. destruct (decide (p = h_ref h)) as [->|]; [|by rw Hp].
    apply (fmap_is_Some next_all). rw Hna. by apply fmap_is_Some. }
  assert (∀ k, h_ref <$> filter (λ x, h_type x = k) (H1 ++ h' :: H2) = h_ref <$> filter (λ x, h_type x = k) (H1 ++ h :: H2)) as Hfil.
  { intros k. rw !filter_app !filter_cons Etype !fmap_app. destruct (decide (h_type h = k)); [|done]. by rw !fmap_cons Eref. }
  split; try done.
  - rw Ef. apply Hh.
  - rw Ef El. apply Hh.
  - rw Er. split; [apply Hh|]. eapply Forall_impl; [apply Hh|]. intros r. apply root_ok_ext; [done|].
    by rw /exhausted Ef El.
  - rw Er. apply Hh.
  - rw Hrefs. eapply Forall_impl; [apply Hh|]. intros p. by rw /handed_out Er.
  - pose proof (hp_ok _ _ _ Hh) as Hok. apply Forall_app in Hok as [Ho1 Ho2]. apply Forall_cons in Ho2 as [_ Ho2].
    assert (Forall (page_ok s') (H1 ++ H2)) as Hrest.
    { rw Forall_forall. intros x Hx. assert (page_ok s x) as Hxo by (eapply heap_page_ok; [done|set_solver]).
      apply (page_ok_ext s); [by apply Hp, (heap_ref_differ _ _ _ _ _ _ Hh) | | done].
      eapply free_outside; [done | by apply (heap_pages_differ _ _ _ _ _ _ Hh) | done]. }
    apply Forall_app in Hrest as [Hr1 Hr2]. apply Forall_app. split; [done|]. by apply Forall_cons.
  - rw Hrefs Ea. eapply chain_ext; [|apply Hh]. intros p _. destruct (decide (p = h_ref h)) as [->|]; [done|by rw Hp].
  - rw Es. apply Hh.
  - intros k a Hk. rw Es in Hk. rw Hfil. eapply chain_ext; [|by apply Hh].
    intros p _. destruct (decide (p = h_ref h)) as [->|]; [done|by rw Hp].
  - rw Hpages. apply Hh.
  - rw Hpages Ef. apply Hh.
Qed.

(** ** doalloc *)

Lemma wp_load_pr p r (Q : pageref → state → Prop) s : prs s !! p = Some r → Q r s → wp (load_pr p) Q s.
Proof. intros. by eapply wp_deref. Qed.

Lemma wp_upd_pr p f r (Q : unit → state → Prop) s :
  prs s !! p = Some r → Q tt (set_prs (<[p := f r]> (prs s)) s) → wp (upd_pr p f) Q s.
Proof.
  intros Hp HQ. rw /upd_pr. wp_step. eapply wp_load_pr; [done|]. wp_step.
  replace (alter f p (prs s)) with (<[p := f r]> (prs s)); [done|]. apply map_eq. intros q.
  destruct (decide (q = p)) as [->|]; [by rw lookup_insert_eq lookup_alter_eq Hp | by rw lookup_insert_ne // lookup_alter_ne].
Qed.

Lemma wp_load_word a (Q : Z → state → Prop) s : in_ram a s → Q (default 0 (mem s !! a)) s → wp (load_word a) Q s.
Proof. intros Ha HQ. eapply wp_deref; [|exact HQ]. by rw decide_True. Qed.

Lemma wp_store_word a v (Q : unit → state → Prop) s :
  in_ram a s → Q tt (set_mem (<[a := v]> (mem s)) s) → wp (store_word a v) Q s.
Proof. intros Ha HQ. rw /store_word. wp_step. apply wp_load_word; [done|]. by wp_step. Qed.

Lemma page_in_ram s H B pg i : heap s H B → pg ∈ all_pages s H B → 0 ≤ i < PAGE_SIZE → i mod 4 = 0 → in_ram (pg + i) s.
Proof.
  intros Hh Hpg Hi Hm. pose proof (hp_range _ _ _ Hh) as Hr. rw Forall_forall in Hr.
  destruct (Hr _ Hpg) as (Hal & Hlo & Hhi). destruct (heap_kseg _ _ _ Hh) as [_ Hl].
  unfold in_ram, PAGE_SIZE, MIPS_KSEG0 in *. split; [lia|zlia].
Qed.

(** The facts about a page that [doalloc] and [subpage_kfree] check. *)
Lemma page_facts s H B h : heap s H B → h ∈ H →
  ∃ pr, prs s !! h_ref h = Some pr ∧ PR_PAGEADDR pr = h_page h ∧ PR_BLOCKTYPE pr = Z.of_nat (h_type h) ∧
    nfree pr = Z.of_nat (length (h_free h)) ∧
    freelist_offset pr = match h_free h with [] => INVALID_OFFSET | a :: _ => a - h_page h end ∧
    (h_type h < NSIZES)%nat ∧ h_page h + PAGE_SIZE ≤ 2 ^ 32.
Proof.
  intros Hh Hin. destruct (heap_page_ok _ _ _ _ Hh Hin) as [Hk (pr & Hpr & Hpab & Hn & Ho) _ _].
  destruct (heap_page_range _ _ _ _ Hh Hin) as (Hm & Hlo & Hhi). destruct (heap_kseg _ _ _ Hh) as [_ Hl].
  unfold MIPS_KSEG0, PAGE_SIZE in *. exists pr. rw /PR_PAGEADDR /PR_BLOCKTYPE Hpab pab_page; [|done|lia].
  rw pab_type; [|done|unfold NSIZES in Hk; lia]. do 6 (split; [done|]). lia.
Qed.

Lemma block_in_ram s H B h a : heap s H B → h ∈ H → block (h_page h) (h_type h) a → in_ram a s ∧ a ≠ 0.
Proof.
  intros Hh Hin Ha. destruct (heap_page_ok _ _ _ _ Hh Hin) as [Hk _ _ _].
  destruct (heap_page_range _ _ _ _ Hh Hin) as (Hm & Hlo & Hhi).
  pose proof (block_mod _ _ _ Hk Hm Ha) as H16. destruct (block_range _ _ _ Hk Ha) as (? & ? & _).
  destruct (bsize_cases _ Hk) as (? & _). unfold MIPS_KSEG0, PAGE_SIZE in *. split; [|lia].
  replace a with (h_page h + (a - h_page h)) by lia. eapply page_in_ram; [exact Hh | | unfold PAGE_SIZE; lia | zlia].
  rw /all_pages elem_of_app. left. by apply list_elem_of_fmap_2.
Qed.

Definition taken (h : hpage) (l : list Z) : hpage := Hpage (h_ref h) (h_page h) (h_type h) l.

Lemma doalloc_spec s H1 h H2 B a rest :
  heap s (H1 ++ h :: H2) B → kmalloc_spinlock s = true → h_free h = a :: rest →
  wp (doalloc (h_ref h)) (λ r s', r = a ∧ heap s' (H1 ++ taken h rest :: H2) B ∧ kmalloc_spinlock s' = false ∧ mem s' = mem s) s.
Proof.
  intros Hh Hl Hf. assert (h ∈ H1 ++ h :: H2) as Hin by set_solver.
  pose proof (heap_page_ok _ _ _ _ Hh Hin) as Hok.
  destruct (free_count _ _ Hok) as (Hnd & Hcount). destruct Hok as [Hk (pr0 & Hpr0 & Hpab & _) Hc Hb].
  destruct (page_facts _ _ _ _ Hh Hin) as (pr & Hpr & Hpg & Hty & Hn & Ho & _ & Hhi). assert (pr0 = pr) as -> by congruence.
  rw Hf in Hc Hb Ho Hn Hcount. simpl in Hc. destruct Hc as (_ & Ha0 & fl & Hfl & Hc).
  apply Forall_cons in Hb as [Hba Hbr]. destruct (block_range _ _ _ Hk Hba) as (Hlo1 & Hhi1 & _).
  destruct (bsize_cases _ Hk) as (Hbs & _). destruct (block_in_ram _ _ _ _ _ Hh Hin Hba) as [Hram _].
  rw /= in Hn Hcount. rw /doalloc. wp_step. eapply wp_load_pr; [done|]. cbn beta zeta. rw Hpg Ho.
  wp_step. apply wp_kassert; [apply bool_decide_eq_true_2; lia|].
  assert (0 < h_page h) as Hp0 by (destruct (heap_page_range _ _ _ _ Hh Hin); unfold MIPS_KSEG0 in *; lia).
  replace (h_page h + (a - h_page h)) with a by lia. rw u32_small; [|lia].
  injection Hfl as Hfl. pose proof (chain_head _ _ _ Hc) as Hhead.
  wp_step. apply wp_load_word; [done|]. rw Hfl.
  wp_step. eapply wp_upd_pr; [done|]. wp_step. eapply wp_load_pr; [apply lookup_insert_eq|].
  rw /= Hn u16_small; [|lia].
  set (s1 := set_prs _ s). set (pr1 := set_nfree (Z.of_nat (S (length rest)) - 1) pr).
  assert (∀ o, o = match rest with [] => INVALID_OFFSET | b :: _ => b - h_page h end →
    heap (set_lock false (set_prs (<[h_ref h := set_offset o pr1]> (prs s1)) s1)) (H1 ++ taken h rest :: H2) B) as Hheap.
  { intros o Hoff. apply heap_lock. eapply heap_change; try done.
    - intros p Hp. by rw /= !lookup_insert_ne.
    - by rw /= lookup_insert_eq Hpr.
    - by rw /= lookup_insert_eq Hpr.
    - split; [done | | by rw -Hhead | done]. exists (set_offset o pr1). rw /= lookup_insert_eq.
      split; [done|]. split; [done|]. split; [rw /= u16_small; lia|]. rw -Hoff u16_small //.
      rw Hoff. destruct rest as [|b rest]; [by unfold INVALID_OFFSET|].
      apply Forall_cons in Hbr as [Hbb _]. destruct (block_range _ _ _ Hk Hbb). unfold PAGE_SIZE in *. lia. }
  wp_step. destruct rest as [|b rest].
  - simpl in Hhead. rw bool_decide_eq_false_2; [|by intros []]. wp_step. apply wp_kassert; [apply bool_decide_eq_true_2; simpl; lia|].
    eapply wp_upd_pr; [apply lookup_insert_eq|]. wp_step. eapply wp_Ok; [by apply release_eq|]. wp_step.
    split; [done|]. split; [by apply Hheap|done].
  - simpl in Hhead. apply Forall_cons in Hbr as [Hbb _]. destruct (block_range _ _ _ Hk Hbb) as (? & ? & _).
    rw Hhead. rw bool_decide_eq_true_2; [|lia]. wp_step. apply wp_kassert; [apply bool_decide_eq_true_2; simpl; lia|].
    rw u32_small; [|unfold PAGE_SIZE in *; lia]. wp_step. apply wp_kassert; [apply bool_decide_eq_true_2; lia|].
    eapply wp_upd_pr; [apply lookup_insert_eq|]. wp_step. eapply wp_Ok; [by apply release_eq|]. wp_step.
    split; [done|]. split; [by apply Hheap|done].
Qed.

(** ** A fresh page *)

(** The first [m] blocks, the last one first. *)
Fixpoint blocks_down (pg sz : Z) (m : nat) : list Z :=
  match m with O => [] | S m' => (pg + Z.of_nat m' * sz) :: blocks_down pg sz m' end.

Lemma blocks_down_elem pg sz m a : a ∈ blocks_down pg sz m ↔ ∃ i, (i < m)%nat ∧ a = pg + Z.of_nat i * sz.
Proof.
  induction m as [|m IH]; simpl.
  - split; [by intros ?%elem_of_nil | intros (i & Hi & _); lia].
  - rw elem_of_cons IH. split.
    + intros [->|(i & Hi & ->)]; [by exists m; split; [lia|]|]. exists i. split; [lia|done].
    + intros (i & Hi & ->). destruct (decide (i = m)) as [->|]; [by left|]. right. exists i. split; [lia|done].
Qed.

Lemma blocks_down_length pg sz m : length (blocks_down pg sz m) = m.
Proof. induction m as [|m IH]; [done|]. by rw /= IH. Qed.

Lemma thread_page_spec pg k s :
  (k < NSIZES)%nat → 0 < pg → pg + PAGE_SIZE ≤ 2 ^ 32 → (∀ i, 0 ≤ i < PAGE_SIZE → i mod 4 = 0 → in_ram (pg + i) s) →
  wp (thread_page pg (bsize k) (nblocks k)) (λ fla s', (∃ m, s' = set_mem m s) ∧ same_outside pg s s' ∧
    fla = pg + (nblocks k - 1) * bsize k ∧ chain (word s') fla (blocks_down pg (bsize k) (Z.to_nat (nblocks k)))) s.
Proof.
  intros Hk H0 Hhi Hram. destruct (bsize_cases k Hk) as (Hb0 & Hb16 & Hmul & Hn & _). unfold PAGE_SIZE in *.
  rw /thread_page. wp_step. apply wp_store_word; [rw -(Z.add_0_r pg); apply Hram; [lia|done]|].
  apply (wp_fold_up (λ i fl s', (1 ≤ i)%nat ∧ (∃ m, s' = set_mem m s) ∧ same_outside pg s s' ∧
    fl = pg + (Z.of_nat i - 1) * bsize k ∧ chain (word s') fl (blocks_down pg (bsize k) i))).
  - split; [done|]. split; [by eexists|]. split.
    + intros a Ha. rw /word /= lookup_insert_ne //. unfold PAGE_SIZE in Ha. lia.
    + split; [lia|]. rw /blocks_down /chain. replace (pg + Z.of_nat 0 * bsize k) with pg by lia.
      split; [done|]. split; [lia|]. exists 0. by rw /word /= lookup_insert_eq.
  - intros i fl s' [Hi1 Hi2] (_ & (m & ->) & Hout & -> & Hc).
    assert (Z.of_nat i < nblocks k) as Hi by lia.
    assert (0 ≤ Z.of_nat i * bsize k ∧ Z.of_nat i * bsize k + bsize k ≤ 4096) as [Hlo Hup] by nia.
    rw (u32_small (pg + Z.of_nat i * bsize k)); [|lia]. rw u32_small; [|nia].
    wp_step. apply wp_store_word.
    { apply Hram; [lia|]. replace (bsize k) with ((bsize k / 16 * 4) * 4) by zlia.
      replace (Z.of_nat i * (bsize k / 16 * 4 * 4)) with ((Z.of_nat i * (bsize k / 16 * 4)) * 4) by lia. apply Z.mod_mul. lia. }
    wp_step. apply wp_kassert; [apply bool_decide_eq_true_2; lia|]. apply wp_ret.
    split; [lia|]. split; [by eexists|]. split; [|split; [lia|]].
    + intros a Ha. rw -Hout // /word /= lookup_insert_ne //. unfold PAGE_SIZE in Ha. lia.
    + split; [done|]. split; [lia|]. eexists. split; [by rw /word /= lookup_insert_eq|].
      eapply chain_ext; [|exact Hc]. intros x (j & Hj & ->)%blocks_down_elem. rw /word /= lookup_insert_ne //. nia.
  - intros fl s' (_ & Hm & Hout & -> & Hc). replace (1 + Z.to_nat (nblocks k - 1))%nat with (Z.to_nat (nblocks k)) in * by lia.
    rw Z2Nat.id in Hc |- *; [|lia..]. done.
Qed.
