(* ===== verification/KmallocAlloc.v ===== *)
(** * Allocation from pages of blocks

    A fresh page joins the lists ([newpage]); [subpage_kmalloc] takes a block
    from the first page of its size that has one, or from a fresh page. *)

From stdpp Require Import base tactics list gmap option numbers ssreflect.
From S2P Require Import Prelude Kern Kmalloc KmallocFacts KmallocPages KmallocBlocks.

Open Scope Z_scope.

Lemma handed_out_nonzero s H B p : heap s H B → handed_out s p → p ≠ 0 ∧ is_Some (prs s !! p).
Proof.
  intros Hh (w & r & j & Hw & Hp & Hj & -> & _). split.
  - destruct (root_page_range _ _ _ _ _ Hh Hw Hp). unfold slot, SIZEOF_PAGEREF, MIPS_KSEG0 in *. lia.
  - by apply (rk_structs _ _ (heap_root _ _ _ _ _ Hh Hw) Hp).
Qed.

(** A large block of one page becomes a page of blocks. *)
Lemma heap_add_page s s' H B h pr base :
  heap s H ((h_page h, 1%nat) :: B) → handed_out s (h_ref h) → h_ref h ∉ h_ref <$> H →
  sizebases s !! h_type h = Some base →
  firstpaddr s' = firstpaddr s → lastpaddr s' = lastpaddr s → kheaproots s' = kheaproots s →
  sizebases s' = <[h_type h := h_ref h]> (sizebases s) → allbase s' = h_ref h →
  (∀ p, p ≠ h_ref h → prs s' !! p = prs s !! p) → prs s' !! h_ref h = Some pr →
  next_all pr = allbase s → next_samesize pr = base →
  same_outside (h_page h) s s' → page_ok s' h → heap s' (h :: H) B.
Proof.
  intros Hh Hout Hnew Hbase Ef El Er Es Ea Hp Hpr Hna Hns Hm Hok'.
  destruct (handed_out_nonzero _ _ _ _ Hh Hout) as [Hp0 Hsp].
  assert (all_pages s' (h :: H) B ≡ₚ all_pages s H ((h_page h, 1%nat) :: B)) as Hpages.
  { rw /all_pages /root_pages Er /= /big_pages /= Z.add_0_r. solve_Permutation. }
  assert (∀ p, is_Some (prs s !! p) → is_Some (prs s' !! p)) as Hsome.
  { intros p Hs. destruct (decide (p = h_ref h)) as [->|]; [by rw Hpr | by rw Hp]. }
  assert (∀ x, x ∈ H → h_page x + PAGE_SIZE ≤ h_page h ∨ h_page h + PAGE_SIZE ≤ h_page x) as Hdiff.
  { intros x Hx. pose proof (hp_distinct _ _ _ Hh) as Hd. pose proof (hp_range _ _ _ Hh) as Hr.
    rw -Hpages in Hd. rw -Hpages Forall_forall in Hr. rw /all_pages in Hd Hr. rw /= in Hd Hr. apply NoDup_cons in Hd as [Hn _].
    destruct (Hr (h_page h) ltac:(set_solver)) as (Hm1 & _).
    destruct (Hr (h_page x)) as (Hm2 & _); [rw elem_of_cons elem_of_app; right; left; by apply list_elem_of_fmap_2|].
    assert (h_page x ≠ h_page h); [|unfold PAGE_SIZE in *; zlia].
    intros He. apply Hn. rw -He elem_of_app. left. by apply list_elem_of_fmap_2. }
  assert (∀ x, x ∈ h_ref <$> H → x ≠ h_ref h) as Hne by (by intros x Hx ->).
  split.
  - rw Ef. apply Hh.
  - rw Ef El. apply Hh.
  - rw Er. split; [apply Hh|]. eapply Forall_impl; [apply Hh|]. intros r. apply root_ok_ext; [done|].
    by rw /exhausted Ef El.
  - rw Er. apply Hh.
  - rw fmap_cons. apply Forall_cons. split; [by rw /handed_out Er|].
    eapply Forall_impl; [apply Hh|]. intros p. by rw /handed_out Er.
  - apply Forall_cons. split; [done|]. pose proof (hp_ok _ _ _ Hh) as Hok. rw !Forall_forall in Hok |- *. intros x Hx.
    apply (page_ok_ext s); [by apply Hp, Hne, list_elem_of_fmap_2 | | by apply Hok].
    eapply free_outside; [by apply Hok | by apply Hdiff | done].
  - rw fmap_cons Ea. split; [done|]. split; [done|]. exists (allbase s). rw Hpr /= Hna. split; [done|].
    eapply chain_ext; [|apply Hh]. intros p Hx. by rw /= Hp; [|apply Hne].
  - rw Es length_insert. apply Hh.
  - intros k a. rw Es filter_cons. destruct (decide (h_type h = k)) as [<-|Hk].
    + rw list_lookup_insert_eq; [|by eapply lookup_lt_Some]. intros [= <-]. rw fmap_cons. split; [done|]. split; [done|].
      exists base. rw Hpr /= Hns. split; [done|]. eapply chain_ext; [|by apply Hh].
      intros p Hx%elem_filter_type. by rw /= Hp; [|apply Hne].
    + rw list_lookup_insert_ne //. intros Hk'. eapply chain_ext; [|by apply Hh].
      intros p Hx%elem_filter_type. by rw /= Hp; [|apply Hne].
  - rw Hpages. apply Hh.
  - rw Hpages Ef. apply Hh.
Qed.

(** Nothing could be handed out: no free page, or no free pageref. *)
Definition no_page (s : state) : Prop := exhausted s ∨ all_taken s.

(** The page that [newpage] sets up. *)
Definition fresh_page (p pg : Z) (k : nat) : hpage :=
  Hpage p pg k (blocks_down pg (bsize k) (Z.to_nat (nblocks k))).

Lemma fresh_page_ok s p pg k pr :
  (k < NSIZES)%nat → prs s !! p = Some pr → pageaddr_and_blocktype pr = MKPAB pg (Z.of_nat k) →
  nfree pr = nblocks k → freelist_offset pr = (nblocks k - 1) * bsize k →
  chain (word s) (pg + (nblocks k - 1) * bsize k) (blocks_down pg (bsize k) (Z.to_nat (nblocks k))) →
  page_ok s (fresh_page p pg k).
Proof.
  intros Hk Hpr Hpab Hn Ho Hc. destruct (bsize_cases k Hk) as (_ & _ & _ & Hnb & _).
  split; [done | | |].
  - exists pr. split; [done|]. split; [done|]. split; [by rw Hn /= blocks_down_length Z2Nat.id; [|lia]|].
    rw Ho /=. destruct (Z.to_nat (nblocks k)) as [|m] eqn:Hm; [lia|]. simpl. replace (Z.of_nat m) with (nblocks k - 1) by lia. lia.
  - rw /= -(chain_head _ _ _ Hc) //.
  - rw /= Forall_forall. intros a (i & Hi & ->)%blocks_down_elem. exists (Z.of_nat i). split; [lia|done].
Qed.

Lemma fresh_blocks p pg k : (k < NSIZES)%nat →
  (∀ x, block pg k x → x ∈ h_free (fresh_page p pg k)) ∧ NoDup (h_free (fresh_page p pg k)) ∧
  Forall (block pg k) (h_free (fresh_page p pg k)).
Proof.
  intros Hk. destruct (bsize_cases k Hk) as (Hb & _ & _ & Hnb & _). split; [|split]; simpl.
  - intros x (i & Hi & ->). apply blocks_down_elem. exists (Z.to_nat i). rw Z2Nat.id; [|lia]. split; [lia|done].
  - induction (Z.to_nat (nblocks k)) as [|m IH]; simpl; constructor; [|done].
    intros (i & Hi & He)%blocks_down_elem. nia.
  - rw Forall_forall. intros a (i & Hi & ->)%blocks_down_elem. exists (Z.of_nat i). split; [lia|done].
Qed.

(** Words of a state that belong to no free page keep their contents. *)
Definition keeps (s s' : state) : Prop := ∀ a, a < MIPS_KSEG0 + firstpaddr s → word s' a = word s a.

Lemma newpage_spec s H B k :
  heap s H B → kmalloc_spinlock s = true → (k < NSIZES)%nat →
  wp (newpage k) (λ p s', keeps s s' ∧
    (p = 0 ∧ heap s' H B ∧ kmalloc_spinlock s' = false ∧ no_page s' ∨
     p ≠ 0 ∧ kmalloc_spinlock s' = true ∧ ∃ pg, heap s' (fresh_page p pg k :: H) B ∧
       MIPS_KSEG0 + firstpaddr s ≤ pg)) s.
Proof.
  intros Hh Hl Hk. destruct (heap_kseg _ _ _ Hh) as [Hf Hlast]. rw /newpage.
  wp_step. eapply wp_deref; [by apply sizes_lookup|]. wp_step. eapply wp_Ok; [by apply release_eq|].
  pose proof (alloc_kpages_eq 1 (set_lock false s) eq_refl Hf Hlast ltac:(lia)) as Ha. simpl in Ha.
  wp_step. destruct (decide (lastpaddr s < firstpaddr s + 1 * PAGE_SIZE)) as [Hex|Hroom].
  { eapply wp_Ok; [exact Ha|]. apply wp_ret. split; [done|]. left. split; [done|]. split; [by apply heap_lock|].
    split; [done|]. left. exact Hex. }
  eapply wp_Ok; [exact Ha|]. cbn beta. set (pg := MIPS_KSEG0 + firstpaddr s). rw bool_decide_eq_false_2; [|unfold pg, MIPS_KSEG0; lia].
  wp_step. apply wp_kassert.
  { apply bool_decide_eq_true_2. destruct (hp_first _ _ _ Hh) as [_ Hm]. unfold pg, MIPS_KSEG0, PAGE_SIZE in *. zlia. }
  wp_step. eapply wp_Ok; [by apply acquire_eq|]. set (s1 := set_lock true _).
  assert (heap s1 H ((pg, 1%nat) :: B)) as Hh1.
  { apply heap_lock. pose proof (heap_grow 1 _ _ _ (heap_lock false _ _ _ Hh)) as Hg. apply Hg. simpl. lia. }
  wp_step. eapply wp_mono; [by apply allocpageref_spec|]. intros p s2 (Hh2 & Hl2 & Hm2 & Hp). change (mem s1) with (mem s) in Hm2.
  assert (keeps s s2) as Hk2 by (intros a _; by rw /word Hm2).
  destruct Hp as [[-> Hno]|(Hp0 & Hout & Hnew)].
  { rw bool_decide_eq_true_2 //. wp_step. eapply wp_Ok; [by apply release_eq|]. wp_step. repeat wp_step.
    split; [done|]. left. split; [done|]. split; [by eapply heap_lock, heap_drop_big|]. done. }
  rw bool_decide_eq_false_2 //.
  destruct (handed_out_nonzero _ _ _ _ Hh2 Hout) as [_ [r0 Hr0]].
  destruct (bsize_cases k Hk) as (Hb0 & _ & Hmul & Hn & Hdiv).
  assert (pg ∈ all_pages s2 H ((pg, 1%nat) :: B)) as Hpg by (rw /all_pages /= /big_pages /= Z.add_0_r; set_solver).
  pose proof (hp_range _ _ _ Hh2) as Hr. rw Forall_forall in Hr. destruct (Hr _ Hpg) as (Hal & Hlo & Hhi). clear Hr.
  destruct (heap_kseg _ _ _ Hh2) as [_ Hlast2].
  assert (0 < pg ∧ pg + PAGE_SIZE ≤ 2 ^ 32) as [Hpg0 Hpg32] by (unfold MIPS_KSEG0 in *; lia).
  destruct (lookup_lt_is_Some_2 (sizebases s2) k) as [base Hbase]; [by rw (hp_bases _ _ _ Hh2)|].
  wp_step. eapply wp_upd_pr; [exact Hr0|]. wp_step. eapply wp_upd_pr; [apply lookup_insert_eq|].
  wp_step. eapply wp_load_pr; [apply lookup_insert_eq|]. rw /= Hdiv u16_small; [|lia].
  wp_step. eapply wp_mono.
  { apply thread_page_spec; [exact Hk | exact Hpg0 | exact Hpg32 |]. intros i Hi Hi4. exact (page_in_ram _ _ _ _ _ Hh2 Hpg Hi Hi4). }
  intros fla _s ((m & ->) & Hm & -> & Hc).
  assert (0 ≤ (nblocks k - 1) * bsize k ∧ (nblocks k - 1) * bsize k + bsize k = 4096) as [Hoff0 Hoff] by nia.
  replace (pg + (nblocks k - 1) * bsize k - pg) with ((nblocks k - 1) * bsize k) by lia.
  wp_step. eapply wp_upd_pr; [apply lookup_insert_eq|]. wp_step. eapply wp_load_pr; [apply lookup_insert_eq|].
  rw /= (u32_small ((nblocks k - 1) * bsize k)); [|lia]. rw !u16_small; [|lia..].
  wp_step. apply wp_kassert; [by apply bool_decide_eq_true_2|].
  wp_step. eapply wp_deref; [exact Hbase|]. wp_step. eapply wp_upd_pr; [apply lookup_insert_eq|].
  wp_step. wp_step. wp_step. wp_step. wp_step. eapply wp_upd_pr; [apply lookup_insert_eq|]. wp_step. wp_step. apply wp_ret.
  split.
  - intros a Hlt. transitivity (word s2 a); [apply Hm; left; unfold pg; lia | by apply Hk2].
  - right. split; [done|]. split; [done|]. exists pg. split; [|unfold pg; lia].
    eapply heap_add_page; [exact Hh2 | exact Hout | exact Hnew | exact Hbase | try done..].
    + intros q Hq. by rw /= !lookup_insert_ne.
    + apply lookup_insert_eq.
    + reflexivity.
    + reflexivity.
    + eapply fresh_page_ok; [done | apply lookup_insert_eq | done | rw /= !u16_small; [done|lia..] | rw /= u16_small; [done|lia] | exact Hc].
Qed.

(** ** subpage_kmalloc *)

Lemma blocktype_spec sz s : sz ≤ LARGEST_SUBPAGE_SIZE → wp (blocktype sz) (λ k s', s' = s ∧ (k < NSIZES)%nat ∧ sz ≤ bsize k) s.
Proof.
  intros Hsz. rw /blocktype. wp_step.
  apply (wp_for_up (λ i s', s' = s ∧ ((i = 8)%nat → LARGEST_SUBPAGE_SIZE < sz))).
  - split; [done|]. lia.
  - intros i _s [_ Hi] [-> _]. wp_step. eapply wp_deref; [by apply sizes_lookup|]. cbn beta.
    bd_case (sz ≤ bsize i) as Hc; [by repeat wp_step|]. apply wp_ret. split; [done|].
    intros He. assert (i = 7)%nat as -> by lia. unfold bsize in Hc. simpl in Hc. unfold LARGEST_SUBPAGE_SIZE. lia.
  - intros _s [-> Hlt]. specialize (Hlt eq_refl). lia.
Qed.

(** A list of pagerefs is no longer than there are structs. *)
Lemma chain_size (f : pageref → Z) (m : gmap Z pageref) a l :
  chain (λ p, f <$> m !! p) a l → (length l ≤ size m)%nat.
Proof.
  intros Hc. rw -(size_dom (D := gset Z)) -(size_list_to_set (C := gset Z)); [|by eapply chain_NoDup].
  apply subseteq_size. intros x Hx%elem_of_list_to_set. apply elem_of_dom.
  apply list_elem_of_split in Hx as (l1 & l2 & ->). apply chain_at in Hc as (_ & _ & b & Hb & _).
  destruct (m !! x); [done|discriminate].
Qed.

(** The first page of a size with a free block. *)
Lemma page_search_spec s H B k base n :
  heap s H B → (k < NSIZES)%nat → sizebases s !! k = Some base → (size (prs s) ≤ n)%nat →
  wp (while (S n) base (λ pr,
    if bool_decide (pr = 0) then mret (inr 0)
    else
      r ← load_pr pr;
      kassert (bool_decide (PR_BLOCKTYPE r = Z.of_nat k));;
      if bool_decide (nfree r > 0) then mret (inr pr) else mret (inl (next_samesize r))))
    (λ p s', s' = s ∧ (p = 0 ∨ ∃ h a rest, h ∈ H ∧ h_ref h = p ∧ p ≠ 0 ∧ h_type h = k ∧ h_free h = a :: rest)) s.
Proof.
  intros Hh Hk Hbase Hn. pose proof (hp_size _ _ _ Hh _ _ Hbase) as Hc.
  pose proof (chain_size _ _ _ _ Hc) as Hlen. rw length_fmap in Hlen.
  set (nxt := λ p, next_samesize <$> prs s !! p).
  apply (wp_while (λ m p s', s' = s ∧ ∃ l, m = length l ∧ chain nxt p (h_ref <$> l) ∧
    ∀ h, h ∈ l → h ∈ H ∧ h_type h = k) _ _ (length (filter (λ h, h_type h = k) H))); [|lia|].
  - split; [done|]. eexists. split; [done|]. split; [exact Hc|]. by intros h [? ?]%list_elem_of_filter.
  - intros m p _s (-> & l & -> & Hl & Hall). destruct l as [|h l].
    { simpl in Hl. rw bool_decide_eq_true_2 //. apply wp_ret. split; [done|]. by left. }
    destruct Hl as (-> & Hp0 & b & Hb & Hl). destruct (Hall h ltac:(set_solver)) as [Hin Hty].
    destruct (page_facts _ _ _ _ Hh Hin) as (pr & Hpr & _ & Hbt & Hnf & _).
    rw bool_decide_eq_false_2 //. wp_step. eapply wp_load_pr; [done|]. wp_step.
    apply wp_kassert; [by apply bool_decide_eq_true_2; rw Hbt Hty|]. rw Hnf.
    destruct (h_free h) as [|a rest] eqn:Hf.
    + rw bool_decide_eq_false_2; [|done]. apply wp_ret. exists (length l). split; [simpl; lia|]. split; [done|].
      exists l. split; [done|]. split; [|intros; apply Hall; set_solver]. unfold nxt in Hb. rw Hpr in Hb. by injection Hb as ->.
    + rw bool_decide_eq_true_2; [|simpl; lia]. apply wp_ret. split; [done|]. right. by exists h, a, rest.
Qed.

Lemma subpage_kmalloc_spec s H B sz :
  heap s H B → kmalloc_spinlock s = false → sz ≤ LARGEST_SUBPAGE_SIZE →
  wp (subpage_kmalloc sz) (λ r s', kmalloc_spinlock s' = false ∧ keeps s s' ∧
    (r = 0 ∧ heap s' H B ∧ no_page s' ∨
     ∃ H1 h H2 rest, heap s' (H1 ++ taken h rest :: H2) B ∧ h_free h = r :: rest ∧ sz ≤ bsize (h_type h) ∧
       (H = H1 ++ h :: H2 ∨
        ∃ p pg k, h = fresh_page p pg k ∧ H1 = [] ∧ H2 = H ∧ (k < NSIZES)%nat))) s.
Proof.
  intros Hh Hl Hsz. rw /subpage_kmalloc. wp_step. eapply wp_mono; [by apply blocktype_spec|].
  intros k _s (-> & Hk & Hb). wp_step. eapply wp_Ok; [by apply acquire_eq|].
  apply (heap_lock true) in Hh. set (s1 := set_lock true s) in *.
  destruct (lookup_lt_is_Some_2 (sizebases s1) k) as [base Hbase]; [by rw (hp_bases _ _ _ Hh)|].
  wp_step. eapply wp_deref; [exact Hbase|]. wp_step. wp_step. wp_step.
  eapply wp_mono; [by eapply page_search_spec|]. intros p _s [-> [->|(h & a & rest & Hin & <- & Hp0 & Hty & Hf)]].
  - rw bool_decide_eq_false_2; [|by intros []]. wp_step. eapply wp_mono; [by apply newpage_spec|].
    intros p s2 [Hkeep [(-> & Hh2 & Hl2 & Hno)|(Hp0 & Hl2 & pg & Hh2 & _)]].
    { rw bool_decide_eq_true_2 //. apply wp_ret. split; [done|]. split; [done|]. by left. }
    rw bool_decide_eq_false_2 //.
    destruct (h_free (fresh_page p pg k)) as [|a rest] eqn:Hf.
    { destruct (bsize_cases k Hk) as (_ & _ & _ & Hn & _). apply (f_equal length) in Hf.
      rw /= blocks_down_length in Hf. lia. }
    eapply wp_mono; [by apply (doalloc_spec s2 [] (fresh_page p pg k) H B a rest)|].
    intros r s3 (-> & Hh3 & Hl3 & Hm3). split; [done|]. split.
    { intros x Hx. rw /word Hm3. by apply Hkeep. }
    right. exists [], (fresh_page p pg k), H, rest. split; [done|]. split; [done|]. split; [done|]. right. by exists p, pg, k.
  - rw bool_decide_eq_true_2 //. apply list_elem_of_split in Hin as (H1 & H2 & ->).
    eapply wp_mono; [by eapply doalloc_spec|]. intros r s3 (-> & Hh3 & Hl3 & Hm3). split; [done|]. split.
    { intros x Hx. by rw /word Hm3. }
    right. exists H1, h, H2, rest. split; [done|]. split; [done|]. split; [by rw Hty|]. by left.
Qed.
