(* ===== verification/KmallocFree.v ===== *)
(** * Giving blocks back: a page taken off its two lists ([remove_lists]) *)

From stdpp Require Import base tactics list gmap option numbers ssreflect.
From S2P Require Import Prelude Kern Kmalloc KmallocFacts KmallocPages KmallocBlocks KmallocAlloc.

Open Scope Z_scope.

(** The element behind the predecessor is cut out of a chain. *)
Lemma chain_cut f a l1 x l2 :
  chain f a (l1 ++ x :: l2) →
  match last l1 with
  | None => chain f (default 0 (head l2)) (l1 ++ l2)
  | Some q => ∀ f', f' q = Some (default 0 (head l2)) → (∀ y, y ≠ q → f' y = f y) → chain f' a (l1 ++ l2)
  end.
Proof.
  revert a. induction l1 as [|y l1 IH]; intros a Hc.
  { simpl in Hc |- *. destruct Hc as (_ & _ & b & _ & Hc). by rw -(chain_head _ _ _ Hc). }
  pose proof (chain_NoDup _ _ _ Hc) as Hd. simpl in Hc, Hd. destruct Hc as (-> & H0 & b & Hb & Hc).
  apply NoDup_cons in Hd as [Hn Hd]. specialize (IH b Hc). rw last_cons.
  destruct (last l1) as [q|] eqn:Hq.
  - intros f' Hfq Hf. split; [done|]. split; [done|]. exists b. split; [|by apply IH].
    rw Hf //. intros ->. apply Hn. apply last_Some in Hq as (l & ->). set_solver.
  - apply last_None in Hq as ->. intros f' Hfq Hf. simpl in IH |- *. split; [done|]. split; [done|]. eexists. split; [done|].
    eapply chain_ext; [|exact IH]. intros z Hz. rw Hf //. intros ->. set_solver.
Qed.

(** ** One list *)

(** The link that leads to what follows [l]. *)
Definition link_to (l : list Z) : link := match last l with None => Base | Some q => Field q end.

Section unlink.
Context (rd : link → state → option Z) (wr : link → Z → state → state).
Context (read : link → M state Z) (write : link → Z → M state unit) (next : pageref → Z).
Hypothesis read_ok : ∀ g s v, rd g s = Some v → read g s = Ok v s.
Hypothesis write_ok : ∀ g s x v, rd g s = Some x → write g v s = Ok tt (wr g v s).
Hypothesis rd_field : ∀ p s, rd (Field p) s = next <$> prs s !! p.

Lemma unlink_spec s a l1 p l2 :
  rd Base s = Some a → chain (λ p, next <$> prs s !! p) a (l1 ++ p :: l2) →
  wp (unlink read write next p) (λ _ s', s' = wr (link_to l1) (default 0 (head l2)) s) s.
Proof.
  intros Ha Hc. rw /unlink. wp_step. wp_step. pose proof (chain_size _ _ _ _ Hc) as Hlen. rw length_app /= in Hlen.
  pose proof (chain_NoDup _ _ _ Hc) as Hd.
  apply (wp_while (λ m g s', s' = s ∧ ∃ la lb v, l1 = la ++ lb ∧ g = link_to la ∧ m = length lb ∧ rd g s = Some v ∧
    chain (λ p, next <$> prs s !! p) v (lb ++ p :: l2)) _ _ (length l1)); [|lia|].
  - split; [done|]. exists [], l1, a. done.
  - intros m g _s (-> & la & lb & v & -> & -> & -> & Hv & Hch). wp_step. eapply wp_Ok; [by apply read_ok|]. cbn beta.
    destruct lb as [|x lb].
    + simpl in Hch. destruct Hch as (-> & H0 & b & Hb & Hch). rw bool_decide_eq_false_2 // bool_decide_eq_true_2 //.
      cbn in Hb. apply fmap_Some in Hb as (r & Hr & ->).
      wp_step. eapply wp_load_pr; [exact Hr|]. wp_step. eapply wp_Ok; [by eapply write_ok|]. apply wp_ret.
      rw app_nil_r. by rw (chain_head _ _ _ Hch).
    + simpl in Hch. destruct Hch as (-> & H0 & b & Hb & Hch). assert (x ≠ p) as Hne.
      { intros ->. rw -assoc_L in Hd. apply NoDup_app in Hd as (_ & _ & Hd). simpl in Hd. apply NoDup_cons in Hd as [Hn _]. set_solver. }
      rw bool_decide_eq_false_2 // bool_decide_eq_false_2 //.
      apply wp_ret. exists (length lb). split; [simpl; lia|]. split; [done|]. exists (la ++ [x]), lb, b.
      split; [by rw -assoc_L|]. split; [by rw /link_to last_snoc|]. split; [done|]. split; [by rw rd_field|done].
Qed.
End unlink.

Definition rd_samesize (k : nat) (g : link) (s : state) : option Z :=
  match g with Base => sizebases s !! k | Field p => next_samesize <$> prs s !! p end.
Definition wr_samesize (k : nat) (g : link) (v : Z) (s : state) : state :=
  match g with
  | Base => set_sizebases (<[k := v]> (sizebases s)) s
  | Field p => set_prs (alter (set_next_samesize v) p (prs s)) s
  end.
Definition rd_all (g : link) (s : state) : option Z :=
  match g with Base => Some (allbase s) | Field p => next_all <$> prs s !! p end.
Definition wr_all (g : link) (v : Z) (s : state) : state :=
  match g with
  | Base => set_allbase v s
  | Field p => set_prs (alter (set_next_all v) p (prs s)) s
  end.

Lemma unlink_samesize k s a l1 p l2 :
  sizebases s !! k = Some a → chain (λ p, next_samesize <$> prs s !! p) a (l1 ++ p :: l2) →
  wp (unlink (read_samesize k) (write_samesize k) next_samesize p)
    (λ _ s', s' = wr_samesize k (link_to l1) (default 0 (head l2)) s) s.
Proof.
  apply (unlink_spec (rd_samesize k)).
  - intros [|q] s' v; simpl; [by rw /deref; intros ->|]. rw /load_pr /deref /mbind /M_bind. by destruct (prs s' !! q); [intros [= <-]|].
  - intros [|q] s' x v; simpl; [done|]. rw /upd_pr /load_pr /deref /mbind /M_bind. by destruct (prs s' !! q).
  - done.
Qed.

Lemma unlink_all s l1 p l2 :
  chain (λ p, next_all <$> prs s !! p) (allbase s) (l1 ++ p :: l2) →
  wp (unlink read_all write_all next_all p) (λ _ s', s' = wr_all (link_to l1) (default 0 (head l2)) s) s.
Proof.
  apply (unlink_spec rd_all); [| | done | done].
  - intros [|q] s' v; simpl; [by intros [= <-]|]. rw /load_pr /deref /mbind /M_bind. by destruct (prs s' !! q); [intros [= <-]|].
  - intros [|q] s' x v; simpl; [done|]. rw /upd_pr /load_pr /deref /mbind /M_bind. by destruct (prs s' !! q).
Qed.

(** ** Both lists *)

(** The states agree on everything but links. *)
Record same_pages (s s' : state) : Prop := {
  sp_first : firstpaddr s' = firstpaddr s;
  sp_last : lastpaddr s' = lastpaddr s;
  sp_roots : kheaproots s' = kheaproots s;
  sp_mem : mem s' = mem s;
  sp_lock : kmalloc_spinlock s' = kmalloc_spinlock s;
  sp_prs : ∀ p, (λ r, (pageaddr_and_blocktype r, nfree r, freelist_offset r)) <$> prs s' !! p =
    (λ r, (pageaddr_and_blocktype r, nfree r, freelist_offset r)) <$> prs s !! p
}.

Lemma fmap_alter {A} (g : pageref → A) f p m q : (∀ r, g (f r) = g r) → g <$> (alter f p m : gmap Z pageref) !! q = g <$> m !! q.
Proof.
  intros Hg. destruct (decide (q = p)) as [->|]; [|by rw lookup_alter_ne].
  rw lookup_alter_eq. destruct (m !! p); [|done]. by rw /= Hg.
Qed.

Lemma wr_samesize_pages k g v s : same_pages s (wr_samesize k g v s).
Proof. destruct g; split; try done. intros q. by apply fmap_alter. Qed.
Lemma wr_all_pages g v s : same_pages s (wr_all g v s).
Proof. destruct g; split; try done. intros q. by apply fmap_alter. Qed.

Lemma same_pages_trans s1 s2 s3 : same_pages s1 s2 → same_pages s2 s3 → same_pages s1 s3.
Proof. intros [] []. split; congruence. Qed.

Lemma same_pages_some s s' p : same_pages s s' → is_Some (prs s' !! p) ↔ is_Some (prs s !! p).
Proof. intros Hs. pose proof (sp_prs _ _ Hs p) as Hp. destruct (prs s' !! p), (prs s !! p); try discriminate Hp; split; intros; eauto. Qed.

Lemma page_ok_same s s' h : same_pages s s' → page_ok s h → page_ok s' h.
Proof.
  intros Hs [Hk (pr & Hpr & Hpab & Hn & Ho) Hc Hb]. split; [done | | | done].
  - pose proof (sp_prs _ _ Hs (h_ref h)) as Hp. rw Hpr /= in Hp. apply fmap_Some in Hp as (pr' & Hpr' & He).
    injection He as E1 E2 E3. exists pr'. split; [done|]. rw -E1 -E2 -E3. done.
  - eapply chain_ext; [|exact Hc]. intros a _. by rw /word (sp_mem _ _ Hs).
Qed.

(** A heap whose lists have changed. *)
Lemma heap_same_pages s s' H H' B :
  heap s H B → same_pages s s' → H' ⊆+ H → length (sizebases s') = NSIZES →
  chain (λ p, next_all <$> prs s' !! p) (allbase s') (h_ref <$> H') →
  (∀ k a, sizebases s' !! k = Some a →
    chain (λ p, next_samesize <$> prs s' !! p) a (h_ref <$> filter (λ h, h_type h = k) H')) →
  heap s' H' B.
Proof.
  intros Hh Hs [l Hl]%submseteq_Permutation Hb Hall Hsz. pose proof Hs as [Ef El Er Em _ _].
  assert (all_pages s H B ≡ₚ (h_page <$> l) ++ all_pages s' H' B) as Hpages.
  { rw /all_pages /root_pages Er Hl fmap_app. solve_Permutation. }
  assert (∀ P : hpage → Prop, Forall P H → Forall P H') as Hsub.
  { intros P HP. rw Hl in HP. by apply Forall_app in HP as [? _]. }
  split; try done.
  - rw Ef. apply Hh.
  - rw Ef El. apply Hh.
  - rw Er. split; [apply Hh|]. eapply Forall_impl; [apply Hh|]. intros r. apply root_ok_ext.
    + intros p. by apply same_pages_some.
    + by rw /exhausted Ef El.
  - rw Er. apply Hh.
  - apply Forall_fmap, Hsub. pose proof (hp_out _ _ _ Hh) as Hout. rw Forall_fmap in Hout.
    eapply Forall_impl; [exact Hout|]. intros h. by rw /compose /handed_out Er.
  - apply Hsub. eapply Forall_impl; [apply Hh|]. intros h. by apply page_ok_same.
  - pose proof (hp_distinct _ _ _ Hh) as Hd. rw Hpages in Hd. by apply NoDup_app in Hd as (_ & _ & ?).
  - pose proof (hp_range _ _ _ Hh) as Hr. rw Hpages Forall_app in Hr. rw Ef. by apply Hr.
Qed.

Lemma link_field l p : link_to l = Field p → last l = Some p.
Proof. rw /link_to. destruct (last l); congruence. Qed.

Lemma cut_all s l1 p l2 :
  chain (λ p, next_all <$> prs s !! p) (allbase s) (l1 ++ p :: l2) →
  let s' := wr_all (link_to l1) (default 0 (head l2)) s in
  chain (λ p, next_all <$> prs s' !! p) (allbase s') (l1 ++ l2).
Proof.
  intros Hc. pose proof (chain_cut _ _ _ _ _ Hc) as Hcut. rw /link_to. destruct (last l1) as [q|] eqn:Hq; [|done].
  apply Hcut; simpl.
  - rw lookup_alter_eq. apply last_Some in Hq as (l & ->). rw -assoc_L in Hc.
    apply chain_at in Hc as (_ & _ & b & Hb & _). simpl in Hb. by destruct (prs s !! q).
  - intros y Hy. by rw lookup_alter_ne.
Qed.

Lemma cut_samesize k s a l1 p l2 :
  sizebases s !! k = Some a → chain (λ p, next_samesize <$> prs s !! p) a (l1 ++ p :: l2) →
  let s' := wr_samesize k (link_to l1) (default 0 (head l2)) s in
  ∃ a', sizebases s' !! k = Some a' ∧ chain (λ p, next_samesize <$> prs s' !! p) a' (l1 ++ l2).
Proof.
  intros Ha Hc. pose proof (chain_cut _ _ _ _ _ Hc) as Hcut. rw /link_to. destruct (last l1) as [q|] eqn:Hq.
  - exists a. split; [done|]. apply Hcut; simpl.
    + rw lookup_alter_eq. apply last_Some in Hq as (l & ->). rw -assoc_L in Hc.
      apply chain_at in Hc as (_ & _ & b & Hb & _). simpl in Hb. by destruct (prs s !! q).
    + intros y Hy. by rw lookup_alter_ne.
  - eexists. split; [apply list_lookup_insert_eq; by eapply lookup_lt_Some|done].
Qed.

(** Only the list of block type [k] is cut. *)
Lemma cut_other k k' s l v a (H : list hpage) :
  k' ≠ k → (∀ q, last l = Some q → ∀ x, x ∈ H → h_type x = k' → h_ref x ≠ q) →
  chain (λ p, next_samesize <$> prs s !! p) a (h_ref <$> filter (λ h, h_type h = k') H) →
  let s' := wr_samesize k (link_to l) v s in
  sizebases s' !! k' = sizebases s !! k' ∧
  chain (λ p, next_samesize <$> prs s' !! p) a (h_ref <$> filter (λ h, h_type h = k') H).
Proof.
  intros Hne Hq Hc. rw /link_to. destruct (last l) as [q|]; simpl; [|by rw list_lookup_insert_ne].
  split; [done|]. eapply chain_ext; [|exact Hc]. intros x (y & -> & [Hy Hin]%list_elem_of_filter)%list_elem_of_fmap.
  rw lookup_alter_ne //. intros He. by apply (Hq q eq_refl y Hin Hy).
Qed.

Lemma wr_samesize_all k g v s p : next_all <$> prs (wr_samesize k g v s) !! p = next_all <$> prs s !! p.
Proof. destruct g; [done|]. by apply fmap_alter. Qed.
Lemma wr_all_samesize g v s p : next_samesize <$> prs (wr_all g v s) !! p = next_samesize <$> prs s !! p.
Proof. destruct g; [done|]. by apply fmap_alter. Qed.

Lemma wr_all_bases g v s : sizebases (wr_all g v s) = sizebases s.
Proof. by destruct g. Qed.
Lemma wr_samesize_allbase k g v s : allbase (wr_samesize k g v s) = allbase s.
Proof. by destruct g. Qed.
Lemma wr_samesize_length k g v s : length (sizebases (wr_samesize k g v s)) = length (sizebases s).
Proof. destruct g; [apply length_insert|done]. Qed.

Lemma remove_lists_spec s H1 h H2 B :
  heap s (H1 ++ h :: H2) B →
  wp (remove_lists (h_ref h) (Z.of_nat (h_type h))) (λ _ s', heap s' (H1 ++ H2) B ∧ same_pages s s') s.
Proof.
  intros Hh. assert (h ∈ H1 ++ h :: H2) as Hin by set_solver. set (k := h_type h).
  assert (k < NSIZES)%nat as Hk by apply (heap_page_ok _ _ _ _ Hh Hin).
  destruct (lookup_lt_is_Some_2 (sizebases s) k) as [base Hbase]; [by rw (hp_bases _ _ _ Hh)|].
  pose proof (hp_size _ _ _ Hh _ _ Hbase) as Hcs. rw filter_app filter_cons decide_True // fmap_app fmap_cons in Hcs.
  pose proof (hp_all _ _ _ Hh) as Hca. rw fmap_app fmap_cons in Hca.
  rw /remove_lists. wp_step. apply wp_kassert; [apply bool_decide_eq_true_2; lia|]. rw Nat2Z.id.
  wp_step. eapply wp_mono; [exact (unlink_samesize _ _ _ _ _ _ Hbase Hcs)|]. intros u s1 Hs1. cbn beta in Hs1. clear u.
  assert (chain (λ p, next_all <$> prs s1 !! p) (allbase s1) ((h_ref <$> H1) ++ h_ref h :: (h_ref <$> H2))) as Hca1.
  { replace (allbase s1) with (allbase s) by (by rw Hs1 wr_samesize_allbase).
    eapply chain_ext; [|exact Hca]. intros p _. by rw Hs1 wr_samesize_all. }
  eapply wp_mono; [exact (unlink_all _ _ _ _ Hca1)|]. intros u s2 Hs2. cbn beta in Hs2. clear u.
  assert (same_pages s s2) as Hsame.
  { apply (same_pages_trans _ s1); [rw Hs1; apply wr_samesize_pages | rw Hs2; apply wr_all_pages]. }
  split; [|done]. pose proof (cut_all _ _ _ _ Hca1) as Hall2. cbv zeta in Hall2. rw -Hs2 -fmap_app in Hall2.
  assert (sizebases s2 = sizebases s1) as Hsb by (by rw Hs2 wr_all_bases).
  apply (heap_same_pages s s2 (H1 ++ h :: H2)); [done | done | | | exact Hall2 |].
  { rw -Permutation_middle. by apply submseteq_cons_r; left. }
  { rw Hsb Hs1 wr_samesize_length. apply Hh. }
  intros k' a Ha. rw Hsb in Ha. rw filter_app.
  eapply (chain_ext (λ p, next_samesize <$> prs s1 !! p)); [intros p _; by rw Hs2 wr_all_samesize|].
  destruct (decide (k' = k)) as [->|Hne].
  - destruct (cut_samesize _ _ _ _ _ _ Hbase Hcs) as (a' & Ha' & Hc'). rw -Hs1 -fmap_app in Ha' Hc'. congruence.
  - destruct (lookup_lt_is_Some_2 (sizebases s) k') as [a0 Ha0].
    { apply lookup_lt_Some in Ha. by rw Hs1 wr_samesize_length in Ha. }
    pose proof (hp_size _ _ _ Hh _ _ Ha0) as Hc0. 
    assert (∀ q, last (h_ref <$> filter (λ x, h_type x = k) H1) = Some q →
      ∀ x, x ∈ H1 ++ h :: H2 → h_type x = k' → h_ref x ≠ q) as Hsep.
    { intros q Hq x Hx Hxk Hxq. apply last_Some in Hq as (l & Hl).
      assert (q ∈ h_ref <$> filter (λ x, h_type x = k) H1) as Hqin by (rw Hl; set_solver).
      apply list_elem_of_fmap in Hqin as (y & -> & [Hyk Hy]%list_elem_of_filter).
      apply Hne. rw -Hxk -Hyk. f_equal. apply (heap_ref_inj _ _ _ _ _ Hh); [done|set_solver|done]. }
    destruct (cut_other k k' s _ (default 0 (head (h_ref <$> filter (λ x, h_type x = k) H2))) _ _ Hne Hsep Hc0) as [Hs Hc'].
    rw -Hs1 in Hs Hc'. rw filter_app filter_cons decide_False // in Hc'. rw Hs in Ha. congruence.
Qed.

(** ** Looking for the page of a block *)

Lemma find_page_spec s H B a :
  heap s H B →
  wp (find_page a) (λ p s', s' = s ∧
    (p = 0 ∧ (∀ h, h ∈ H → ¬ h_page h ≤ a < h_page h + PAGE_SIZE) ∨
     p ≠ 0 ∧ ∃ h, h ∈ H ∧ h_ref h = p ∧ h_page h ≤ a < h_page h + PAGE_SIZE)) s.
Proof.
  intros Hh. pose proof (hp_all _ _ _ Hh) as Hc. pose proof (chain_size _ _ _ _ Hc) as Hlen. rw length_fmap in Hlen.
  rw /find_page. wp_step. wp_step. wp_step. wp_step.
  apply (wp_while (λ m p s', s' = s ∧ ∃ l1 l2, H = l1 ++ l2 ∧ m = length l2 ∧
    chain (λ p, next_all <$> prs s !! p) p (h_ref <$> l2) ∧
    ∀ h, h ∈ l1 → ¬ h_page h ≤ a < h_page h + PAGE_SIZE) _ _ (length H)); [|lia|].
  - split; [done|]. exists [], H. split; [done|]. split; [done|]. split; [done|]. set_solver.
  - intros m p _s (-> & l1 & l2 & -> & -> & Hl & Hno). destruct l2 as [|h l2].
    { simpl in Hl. rw bool_decide_eq_true_2 //. apply wp_ret. split; [done|]. left. split; [done|]. by rw app_nil_r. }
    destruct Hl as (-> & Hp0 & b & Hb & Hl). assert (h ∈ l1 ++ h :: l2) as Hin by set_solver.
    destruct (page_facts _ _ _ _ Hh Hin) as (pr & Hpr & Hpg & Hbt & _ & _ & Hk & Hhi).
    destruct (heap_page_range _ _ _ _ Hh Hin) as (_ & Hlo & Hup). destruct (heap_kseg _ _ _ Hh) as [_ Hlast].
    rw bool_decide_eq_false_2 //. wp_step. eapply wp_load_pr; [done|]. wp_step.
    apply wp_kassert; [by apply bool_decide_eq_true_2; rw Hbt; lia|]. cbv zeta. rw Hpg u32_small; [|unfold MIPS_KSEG0, PAGE_SIZE in *; lia].
    bd_case (a >= h_page h ∧ a < h_page h + PAGE_SIZE) as Hcase.
    + apply wp_ret. split; [done|]. right. split; [done|]. exists h. split; [done|]. split; [done|]. lia.
    + apply wp_ret. exists (length l2). split; [simpl; lia|]. split; [done|]. exists (l1 ++ [h]), l2.
      split; [by rw -assoc_L|]. split; [done|]. cbn in Hb. rw Hpr /= in Hb. injection Hb as ->. split; [done|].
      intros x [Hx|Hx]%elem_of_app; [by apply Hno|]. apply list_elem_of_singleton in Hx as ->. lia.
Qed.

(** ** Giving blocks back ([subpage_kfree]) *)

(** Memory outside the [n] bytes at [a] is unchanged. *)
Definition same_but (a n : Z) (s s' : state) : Prop := ∀ x, x < a ∨ a + n ≤ x → word s' x = word s x.

Lemma fill_deadbeef_spec a len s :
  0 < a → 0 ≤ len → a + len ≤ 2 ^ 32 → (∀ i, 0 ≤ i < len → i mod 4 = 0 → in_ram (a + i) s) →
  wp (fill_deadbeef a len) (λ _ s', (∃ m, s' = set_mem m s) ∧ same_but a len s s') s.
Proof.
  intros H0 Hlen Hhi Hram. rw /fill_deadbeef. wp_step.
  apply (wp_for_up (λ _ s', (∃ m, s' = set_mem m s) ∧ same_but a len s s')).
  - split; [|done]. exists (mem s). by destruct s.
  - intros i _s [_ Hi] [[m ->] Hs]. assert (4 * Z.of_nat i + 4 ≤ len) as Hi4 by zlia.
    rw u32_small; [|lia]. wp_step. apply wp_store_word; [apply Hram; [lia|zlia]|]. apply wp_ret.
    split; [by eexists|]. intros x Hx. rw -(Hs x Hx) /word /= lookup_insert_ne //. lia.
  - intros _s H. by apply wp_ret.
Qed.

(** A page of which every block is free. *)
Lemma all_free s h : page_ok s h → Z.of_nat (length (h_free h)) = nblocks (h_type h) →
  ∀ a, block (h_page h) (h_type h) a → a ∈ h_free h.
Proof.
  intros Hok Hn a Ha. destruct (free_count _ _ Hok) as (Hd & _).
  destruct (bsize_cases _ (pk_type _ _ Hok)) as (_ & _ & _ & Hnb & _).
  pose proof (free_within _ _ Hok) as Hsub. apply submseteq_length_Permutation in Hsub.
  - rw Hsub. by apply blocks_of_elem.
  - rw /blocks_of length_fmap length_seq. lia.
Qed.

(** The freed block is put in front of the page's free blocks. *)
Lemma heap_put s s' H1 h H2 B a pr pr' :
  heap s (H1 ++ h :: H2) B → block (h_page h) (h_type h) a → a ∉ h_free h →
  prs s !! h_ref h = Some pr →
  firstpaddr s' = firstpaddr s → lastpaddr s' = lastpaddr s → kheaproots s' = kheaproots s →
  sizebases s' = sizebases s → allbase s' = allbase s →
  (∀ p, p ≠ h_ref h → prs s' !! p = prs s !! p) → prs s' !! h_ref h = Some pr' →
  next_all pr' = next_all pr → next_samesize pr' = next_samesize pr →
  pageaddr_and_blocktype pr' = pageaddr_and_blocktype pr → nfree pr' = u16 (nfree pr + 1) →
  freelist_offset pr' = u16 (a - h_page h) →
  same_but a (bsize (h_type h)) s s' → word s' a = Some (default 0 (head (h_free h))) →
  heap s' (H1 ++ taken h (a :: h_free h) :: H2) B.
Proof.
  intros Hh Ha Hn Hpr Ef El Er Es Ea Hp Hpr' Hna Hns Hpab Hnf Hoff Hm Hw. assert (h ∈ H1 ++ h :: H2) as Hin by set_solver.
  pose proof (heap_page_ok _ _ _ _ Hh Hin) as Hok. destruct (free_count _ _ Hok) as [_ Hcnt].
  destruct Hok as [Hk (pr0 & Hpr0 & Hpab0 & Hnf0 & _) Hc Hb]. assert (pr0 = pr) as -> by congruence.
  destruct (block_range _ _ _ Hk Ha) as (Hlo & Hhi & _). destruct (bsize_cases _ Hk) as (Hb0 & _ & _ & Hnb & _).
  destruct (block_in_ram _ _ _ _ _ Hh Hin Ha) as [_ Ha0]. unfold PAGE_SIZE in *.
  eapply heap_change; try done.
  - by rw Hpr Hpr' /= Hna.
  - by rw Hpr Hpr' /= Hns.
  - intros x Hx. apply Hm. unfold PAGE_SIZE in Hx. lia.
  - split; [done | | |]; simpl.
    + exists pr'. split; [done|]. split; [by rw Hpab|]. rw Hnf Hnf0 Hoff u16_small; [|lia]. rw u16_small; [|lia]. split; [lia|done].
    + split; [done|]. split; [done|]. eexists. split; [exact Hw|]. eapply chain_ext; [|exact Hc]. intros x Hx. symmetry. apply Hm.
      rw Forall_forall in Hb. apply (blocks_disjoint (h_page h)); [done|by apply Hb|done|]. by intros ->.
    + by apply Forall_cons.
Qed.

(** The last block of a page is free: the page leaves the lists and its
    pageref is given back. *)
Lemma give_back_page s H1 h H2 B :
  heap s (H1 ++ h :: H2) B → kmalloc_spinlock s = true →
  wp (remove_lists (h_ref h) (Z.of_nat (h_type h));; freepageref (h_ref h);; spinlock_release;; free_kpages (h_page h))
    (λ _ s', heap s' (H1 ++ H2) B ∧ kmalloc_spinlock s' = false ∧ mem s' = mem s) s.
Proof.
  intros Hh Hl. wp_step. eapply wp_mono; [by apply remove_lists_spec|]. intros _ s1 [Hh1 Hs].
  wp_step. eapply wp_mono.
  { apply freepageref_spec; [exact Hh1 | by rw (sp_lock _ _ Hs) | |].
    - pose proof (hp_out _ _ _ Hh) as Hout. rw Forall_forall in Hout.
      rw /handed_out (sp_roots _ _ Hs). apply Hout, list_elem_of_fmap_2. set_solver.
    - intros (x & He & Hx)%list_elem_of_fmap. by apply (heap_ref_differ _ _ _ _ _ _ Hh Hx). }
  intros _ s2 (Hh2 & Hl2 & Hm2). wp_step. eapply wp_Ok; [by apply release_eq|]. apply wp_ret.
  split; [by apply heap_lock|]. split; [done|]. by rw /= Hm2 (sp_mem _ _ Hs).
Qed.

(** The words of a block. *)
Lemma block_words s H B h a i :
  heap s H B → h ∈ H → block (h_page h) (h_type h) a → 0 ≤ i < bsize (h_type h) → i mod 4 = 0 → in_ram (a + i) s.
Proof.
  intros Hh Hin Ha Hi Hi4. pose proof (pk_type _ _ (heap_page_ok _ _ _ _ Hh Hin)) as Hk.
  destruct (block_range _ _ _ Hk Ha) as (Hlo & Hup & _). destruct (heap_page_range _ _ _ _ Hh Hin) as (Hal & _).
  replace (a + i) with (h_page h + (a - h_page h + i)) by lia.
  eapply page_in_ram; [exact Hh | rw /all_pages elem_of_app; left; by apply list_elem_of_fmap_2 | unfold PAGE_SIZE in *; lia |].
  pose proof (block_mod _ _ _ Hk Hal Ha). unfold PAGE_SIZE in *. zlia.
Qed.

(** The freed block is linked to the first free one. *)
Lemma link_block s H B h a pr m :
  heap s H B → h ∈ H → block (h_page h) (h_type h) a → a ∉ h_free h →
  freelist_offset pr = match h_free h with [] => INVALID_OFFSET | b :: _ => b - h_page h end →
  wp (if bool_decide (freelist_offset pr = INVALID_OFFSET) then store_word a 0
      else
        store_word a (u32 (h_page h + freelist_offset pr));;
        kassert (bool_decide (a ≠ u32 (h_page h + freelist_offset pr))))
    (λ _ s', s' = set_mem (<[a := default 0 (head (h_free h))]> m) s) (set_mem m s).
Proof.
  intros Hh Hin Ha Hnot ->. destruct (block_in_ram _ _ _ _ _ Hh Hin Ha) as [Hram _].
  destruct (page_facts _ _ _ _ Hh Hin) as (_ & _ & _ & _ & _ & _ & Hk & Hhi).
  destruct (heap_page_range _ _ _ _ Hh Hin) as (_ & Hseg & _). destruct (bsize_cases _ Hk) as (Hb0 & _).
  pose proof (pk_blocks _ _ (heap_page_ok _ _ _ _ Hh Hin)) as Hfb. destruct (h_free h) as [|b rest].
  - rw bool_decide_eq_true_2 //. by apply wp_store_word.
  - apply Forall_cons in Hfb as [Hb _]. destruct (block_range _ _ _ Hk Hb) as (? & ? & _).
    rw bool_decide_eq_false_2; [|unfold PAGE_SIZE, INVALID_OFFSET in *; lia].
    replace (h_page h + (b - h_page h)) with b by lia. rw u32_small; [|unfold PAGE_SIZE, MIPS_KSEG0 in *; lia].
    wp_step. apply wp_store_word; [done|]. apply wp_kassert; [|done]. apply bool_decide_eq_true_2. set_solver.
Qed.

(** A block of a page. *)
Lemma subpage_kfree_block s H1 h H2 B a :
  heap s (H1 ++ h :: H2) B → kmalloc_spinlock s = false → block (h_page h) (h_type h) a → a ∉ h_free h →
  wp (subpage_kfree a) (λ r s', r = 0 ∧ kmalloc_spinlock s' = false ∧ same_but a (bsize (h_type h)) s s' ∧
    (heap s' (H1 ++ taken h (a :: h_free h) :: H2) B ∨
     heap s' (H1 ++ H2) B ∧ ∀ x, block (h_page h) (h_type h) x → x ∈ a :: h_free h)) s.
Proof.
  intros Hh Hl Ha Hnot. assert (h ∈ H1 ++ h :: H2) as Hin by set_solver.
  rw /subpage_kfree. wp_step. eapply wp_Ok; [by apply acquire_eq|]. apply (heap_lock true) in Hh.
  set (s1 := set_lock true s) in *.
  destruct (page_facts _ _ _ _ Hh Hin) as (pr & Hpr & Hpg & Hbt & Hnf & Hoff & Hk & Hhi).
  destruct (bsize_cases _ Hk) as (Hb0 & Hb16 & Hmul & Hnb & Hdiv). destruct (block_range _ _ _ Hk Ha) as (Hlo & Hup & Hmod).
  destruct (free_count _ _ (heap_page_ok _ _ _ _ Hh Hin)) as [_ Hcnt].
  destruct (heap_page_range _ _ _ _ Hh Hin) as (Hal & Hseg & _).
  destruct (block_in_ram _ _ _ _ _ Hh Hin Ha) as [Hram Ha0].
  wp_step. eapply wp_mono; [by eapply find_page_spec|].
  intros p _s (-> & [(_ & Hno)|(Hp0 & h' & Hin' & <- & Hrange)]); [by destruct (Hno h Hin); lia|].
  destruct (heap_pages_other _ _ _ _ _ Hh Hin Hin') as [->|Hd]; [|unfold PAGE_SIZE in *; lia].
  rw bool_decide_eq_false_2 //. wp_step. eapply wp_load_pr; [exact Hpr|]. cbv zeta. rw Hpg Hbt Nat2Z.id.
  wp_step. eapply wp_deref; [by apply sizes_lookup|]. cbn beta. rw (u32_small (a - h_page h)); [|unfold PAGE_SIZE, MIPS_KSEG0 in *; lia].
  rw bool_decide_eq_false_2; [|unfold PAGE_SIZE in *; lia].
  wp_step. eapply wp_mono.
  { apply fill_deadbeef_spec; [unfold MIPS_KSEG0 in *; lia | lia | unfold PAGE_SIZE in *; lia |]. intros i Hi Hi4. exact (block_words _ _ _ _ _ _ Hh Hin Ha Hi Hi4). }
  intros u s2 [[m ->] Hfill]. cbv zeta. replace (h_page h + (a - h_page h)) with a by lia. rw (u32_small a); [|unfold PAGE_SIZE, MIPS_KSEG0 in *; lia].
  set (next := default 0 (head (h_free h))).
  wp_step. eapply wp_mono; [by apply (link_block s1 _ _ _ a pr m Hh Hin)|].
  intros u' s3 ->. fold next. wp_step. eapply wp_upd_pr; [exact Hpr|]. wp_step. eapply wp_upd_pr; [apply lookup_insert_eq|].
  wp_step. eapply wp_load_pr; [apply lookup_insert_eq|]. rw Hdiv.
  set (s4 := set_prs _ (set_prs _ _)).
  assert (same_but a (bsize (h_type h)) s1 s4) as Hsame.
  { intros x Hx. rw -(Hfill x Hx) /word /= lookup_insert_ne //. lia. }
  assert (heap s4 (H1 ++ taken h (a :: h_free h) :: H2) B) as Hh4.
  { apply (heap_put s1 s4 H1 h H2 B a pr (set_nfree (nfree pr + 1) (set_offset (a - h_page h) pr))); [exact Hh | exact Ha | exact Hnot | exact Hpr | try reflexivity..].
    - intros q Hq. by rw /= !lookup_insert_ne.
    - apply lookup_insert_eq.
    - exact Hsame.
    - by rw /word /= lookup_insert_eq. }
  destruct (free_count _ _ (heap_page_ok _ _ _ (taken h (a :: h_free h)) Hh4 ltac:(set_solver))) as [_ Hcnt4]. rw /= in Hcnt4.
  assert (nfree (set_nfree (nfree pr + 1) (set_offset (a - h_page h) pr)) = Z.of_nat (length (a :: h_free h))) as Hnf4.
  { rw /= u16_small; [|lia]. lia. }
  rw Hnf4. wp_step. apply wp_kassert; [apply bool_decide_eq_true_2; simpl; lia|].
  change (PR_BLOCKTYPE _) with (PR_BLOCKTYPE pr). rw Hbt. wp_step.
  bd_case (Z.of_nat (length (a :: h_free h)) = nblocks (h_type h)) as Hfull.
  - eapply wp_mono; [by apply (give_back_page s4 H1 (taken h (a :: h_free h)) H2 B)|].
    intros u2 s5 (Hh5 & Hl5 & Hm5). apply wp_ret. split; [done|]. split; [done|]. split.
    { intros x Hx. rw /word Hm5. exact (Hsame x Hx). }
    right. split; [done|]. apply (all_free s4 (taken h (a :: h_free h))); [|done].
    eapply heap_page_ok; [exact Hh4|set_solver].
  - eapply wp_Ok; [by apply release_eq|]. apply wp_ret. split; [done|]. split; [done|]. split; [done|]. left. by apply heap_lock.
Qed.

(** An address outside the pages of blocks. *)
Lemma subpage_kfree_other s H B a :
  heap s H B → kmalloc_spinlock s = false → (∀ h, h ∈ H → ¬ h_page h ≤ a < h_page h + PAGE_SIZE) →
  wp (subpage_kfree a) (λ r s', r = -1 ∧ s' = s) s.
Proof.
  intros Hh Hl Hno. rw /subpage_kfree. wp_step. eapply wp_Ok; [by apply acquire_eq|]. apply (heap_lock true) in Hh.
  wp_step. eapply wp_mono; [by eapply find_page_spec|].
  intros p _s (-> & [(-> & _)|(_ & h & Hin & _ & Hr)]); [|by destruct (Hno h Hin)].
  rw bool_decide_eq_true_2 //. wp_step. eapply wp_Ok; [by apply release_eq|]. apply wp_ret. split; [done|].
  rw -{2}(lock_same s) Hl. by destruct s.
Qed.
