(* ===== verification/KmallocSpec.v ===== *)
(** * An abstract allocator

    What a client of the heap sees: the blocks it has, as a map [A] from
    addresses to the sizes asked for.  [R s A] relates it to the state of
    Kmalloc.v. *)

From stdpp Require Import base tactics list gmap option numbers ssreflect.
From S2P Require Import Prelude Kern Kmalloc KmallocFacts KmallocPages KmallocBlocks KmallocAlloc KmallocFree.

Open Scope Z_scope.

(** The blocks that are in use, with their real sizes. *)
Definition live (H : list hpage) (B : list (Z * nat)) (a n : Z) : Prop :=
  (∃ h, h ∈ H ∧ block (h_page h) (h_type h) a ∧ a ∉ h_free h ∧ n = bsize (h_type h)) ∨
  (∃ c, (a, c) ∈ B ∧ n = Z.of_nat c * PAGE_SIZE).

Definition R (s : state) (A : gmap Z Z) : Prop :=
  kmalloc_spinlock s = false ∧ ∃ H B, heap s H B ∧ Forall (λ b, (0 < b.2)%nat) B ∧
    (∀ a, is_Some (A !! a) ↔ ∃ n, live H B a n) ∧
    (∀ a m n, A !! a = Some m → live H B a n → m ≤ n).

(** The client's blocks lie in the memory handed out and do not overlap. *)
Definition separate (s : state) (A : gmap Z Z) : Prop :=
  (∀ a n, A !! a = Some n → a mod 16 = 0 ∧ MIPS_KSEG0 < a ∧ a + n ≤ MIPS_KSEG0 + firstpaddr s) ∧
  ∀ a b n m, A !! a = Some n → A !! b = Some m → a ≠ b → a + n ≤ b ∨ b + m ≤ a.

(** ** Blocks of a heap do not overlap *)

Section separate.
Context (s : state) (H : list hpage) (B : list (Z * nat)).
Hypothesis Hh : heap s H B.
Hypothesis Hpos : Forall (λ b, (0 < b.2)%nat) B.

Lemma big_page_in a c i : (a, c) ∈ B → (i < c)%nat → a + PAGE_SIZE * Z.of_nat i ∈ B ≫= big_pages.
Proof.
  intros Hb Hi. apply list_elem_of_bind. exists (a, c). split; [|done]. apply list_elem_of_fmap. exists i.
  split; [done|]. apply elem_of_seq. simpl. lia.
Qed.

Lemma big_range a c : (a, c) ∈ B →
  a mod PAGE_SIZE = 0 ∧ MIPS_KSEG0 < a ∧ a + Z.of_nat c * PAGE_SIZE ≤ MIPS_KSEG0 + firstpaddr s ∧ 0 < Z.of_nat c.
Proof using Hh Hpos.
  intros Hb. assert (0 < c)%nat as Hc by exact (proj1 (Forall_forall _ _) Hpos _ Hb).
  pose proof (hp_range _ _ _ Hh) as Hr. rw Forall_forall in Hr.
  destruct (Hr (a + PAGE_SIZE * Z.of_nat 0)) as (Hm & Hlo & _).
  { rw /all_pages !elem_of_app. right. right. by eapply big_page_in. }
  destruct (Hr (a + PAGE_SIZE * Z.of_nat (c - 1))) as (_ & _ & Hhi).
  { rw /all_pages !elem_of_app. right. right. eapply big_page_in; [done|lia]. }
  unfold PAGE_SIZE in *. replace (a + 4096 * Z.of_nat 0) with a in * by lia. split; [done|]. lia.
Qed.

Lemma heap_big_differ h b c : h ∈ H → (b, c) ∈ B → h_page h + PAGE_SIZE ≤ b ∨ b + Z.of_nat c * PAGE_SIZE ≤ h_page h.
Proof using Hh Hpos.
  intros Hin Hb. destruct (big_range _ _ Hb) as (Hm & _). destruct (heap_page_range _ _ _ _ Hh Hin) as (Hm' & _).
  assert (¬ b ≤ h_page h < b + Z.of_nat c * PAGE_SIZE) as Hno; [|unfold PAGE_SIZE in *; zlia].
  intros Hr. pose proof (hp_distinct _ _ _ Hh) as Hd. rw /all_pages in Hd. apply NoDup_app in Hd as (_ & Hd & _).
  apply (Hd (h_page h)); [by apply list_elem_of_fmap_2|]. rw elem_of_app. right. unfold PAGE_SIZE in *.
  replace (h_page h) with (b + PAGE_SIZE * Z.of_nat (Z.to_nat ((h_page h - b) / 4096))) by (unfold PAGE_SIZE; zlia).
  eapply big_page_in; [done|]. zlia.
Qed.

Lemma big_differ a c b d : (a, c) ∈ B → (b, d) ∈ B → (a, c) ≠ (b, d) → a + Z.of_nat c * PAGE_SIZE ≤ b ∨ b + Z.of_nat d * PAGE_SIZE ≤ a.
Proof using Hh Hpos.
  intros Ha Hb Hne. destruct (big_range _ _ Ha) as (Hm & _ & _ & Hc). destruct (big_range _ _ Hb) as (Hm' & _ & _ & Hd).
  pose proof (hp_distinct _ _ _ Hh) as Hdis. rw /all_pages !NoDup_app in Hdis. destruct Hdis as (_ & _ & _ & _ & Hdis).
  apply elem_of_Permutation in Ha as [B1 HB1]. rw HB1 in Hb. apply elem_of_cons in Hb as [He|Hb]; [congruence|].
  apply elem_of_Permutation in Hb as [B2 HB2]. rw HB2 in HB1. rw HB1 /= app_assoc in Hdis. apply NoDup_app in Hdis as (Hdis & _).
  apply NoDup_app in Hdis as (_ & Hdis & _).
  assert (∀ x, x mod PAGE_SIZE = 0 → a ≤ x < a + Z.of_nat c * PAGE_SIZE → b ≤ x < b + Z.of_nat d * PAGE_SIZE → False) as Hno.
  { intros x Hx Hxa Hxb. unfold PAGE_SIZE in *. apply (Hdis x); apply list_elem_of_fmap.
    - exists (Z.to_nat ((x - a) / 4096)). simpl. split; [unfold PAGE_SIZE; zlia|]. apply elem_of_seq. zlia.
    - exists (Z.to_nat ((x - b) / 4096)). simpl. split; [unfold PAGE_SIZE; zlia|]. apply elem_of_seq. zlia. }
  pose proof (Hno a Hm). pose proof (Hno b Hm'). unfold PAGE_SIZE in *. lia.
Qed.

Lemma live_range a n : live H B a n → a mod 16 = 0 ∧ MIPS_KSEG0 < a ∧ a + n ≤ MIPS_KSEG0 + firstpaddr s ∧ 0 < n.
Proof using Hh Hpos.
  intros [(h & Hin & Ha & _ & ->)|(c & Hb & ->)].
  - pose proof (pk_type _ _ (heap_page_ok _ _ _ _ Hh Hin)) as Hk. destruct (heap_page_range _ _ _ _ Hh Hin) as (Hm & Hlo & Hhi).
    split; [by eapply block_mod|]. destruct (block_range _ _ _ Hk Ha) as (? & ? & _). destruct (bsize_cases _ Hk). lia.
  - destruct (big_range _ _ Hb) as (Hm & Hlo & Hhi & Hc). unfold PAGE_SIZE in *. split; [zlia|]. lia.
Qed.

Lemma live_separate a b n m : live H B a n → live H B b m → a ≠ b → a + n ≤ b ∨ b + m ≤ a.
Proof using Hh Hpos.
  intros [(h & Hin & Ha & _ & ->)|(c & Hc & ->)] [(h' & Hin' & Hb & _ & ->)|(d & Hd & ->)] Hne.
  - pose proof (pk_type _ _ (heap_page_ok _ _ _ _ Hh Hin)) as Hk. pose proof (pk_type _ _ (heap_page_ok _ _ _ _ Hh Hin')) as Hk'.
    destruct (block_range _ _ _ Hk Ha) as (? & ? & _). destruct (block_range _ _ _ Hk' Hb) as (? & ? & _).
    destruct (heap_pages_other _ _ _ _ _ Hh Hin Hin') as [->|Hd]; [|lia].
    destruct (blocks_disjoint _ _ _ _ Hk Ha Hb Hne); [|lia]. destruct (blocks_disjoint _ _ _ _ Hk Hb Ha (not_eq_sym Hne)); lia.
  - pose proof (pk_type _ _ (heap_page_ok _ _ _ _ Hh Hin)) as Hk. destruct (block_range _ _ _ Hk Ha) as (? & ? & _).
    destruct (heap_big_differ _ _ _ Hin Hd); lia.
  - pose proof (pk_type _ _ (heap_page_ok _ _ _ _ Hh Hin')) as Hk. destruct (block_range _ _ _ Hk Hb) as (? & ? & _).
    destruct (heap_big_differ _ _ _ Hin' Hc); lia.
  - destruct (big_differ _ _ _ _ Hc Hd); [congruence|lia..].
Qed.

Lemma live_functional a n m : live H B a n → live H B a m → n = m.
Proof using Hh Hpos.
  intros [(h & Hin & Ha & _ & ->)|(c & Hc & ->)] [(h' & Hin' & Hb & _ & ->)|(d & Hd & ->)].
  - pose proof (pk_type _ _ (heap_page_ok _ _ _ _ Hh Hin)) as Hk. pose proof (pk_type _ _ (heap_page_ok _ _ _ _ Hh Hin')) as Hk'.
    destruct (block_range _ _ _ Hk Ha) as (? & ? & _). destruct (block_range _ _ _ Hk' Hb) as (? & ? & _).
    destruct (bsize_cases _ Hk) as (? & _). destruct (bsize_cases _ Hk') as (? & _).
    destruct (heap_pages_other _ _ _ _ _ Hh Hin Hin') as [->|Hd]; [done|lia].
  - pose proof (pk_type _ _ (heap_page_ok _ _ _ _ Hh Hin)) as Hk. destruct (block_range _ _ _ Hk Ha) as (? & ? & _).
    destruct (bsize_cases _ Hk) as (? & _). destruct (big_range _ _ Hd) as (_ & _ & _ & ?).
    destruct (heap_big_differ _ _ _ Hin Hd); unfold PAGE_SIZE in *; lia.
  - pose proof (pk_type _ _ (heap_page_ok _ _ _ _ Hh Hin')) as Hk. destruct (block_range _ _ _ Hk Hb) as (? & ? & _).
    destruct (bsize_cases _ Hk) as (? & _). destruct (big_range _ _ Hc) as (_ & _ & _ & ?).
    destruct (heap_big_differ _ _ _ Hin' Hc); unfold PAGE_SIZE in *; lia.
  - destruct (decide (c = d)) as [->|Hne]; [done|]. destruct (big_range _ _ Hd) as (_ & _ & _ & ?).
    destruct (big_range _ _ Hc) as (_ & _ & _ & ?). destruct (big_differ _ _ _ _ Hc Hd); [congruence|unfold PAGE_SIZE in *; lia..].
Qed.
End separate.

(** ** What the operations do to the blocks in use *)

Lemma live_perm H H' B B' a n : (∀ h, h ∈ H ↔ h ∈ H') → (∀ b, b ∈ B ↔ b ∈ B') → live H B a n ↔ live H' B' a n.
Proof. intros HH HB. rw /live. setoid_rewrite HH. setoid_rewrite HB. done. Qed.

(** A free block is taken. *)
Lemma blocks_taken H1 h H2 B r rest a n :
  block (h_page h) (h_type h) r → h_free h = r :: rest → r ∉ rest →
  live (H1 ++ taken h rest :: H2) B a n ↔ live (H1 ++ h :: H2) B a n ∨ a = r ∧ n = bsize (h_type h).
Proof.
  intros Hr Hf Hn. rw /live. split.
  - intros [(x & Hx & Ha & Hfree & ->)|Hb]; [|by left; right].
    assert (x = taken h rest ∨ x ∈ H1 ++ H2) as [->|Hin] by set_solver.
    + simpl in Ha, Hfree. destruct (decide (a = r)) as [->|Hne]; [by right|]. left. left. exists h.
      split; [set_solver|]. split; [done|]. split; [rw Hf; set_solver|done].
    + left. left. exists x. split; [set_solver|done].
  - intros [[(x & Hx & Ha & Hfree & ->)|Hb]|[-> ->]]; [|by right|].
    + left. assert (x = h ∨ x ∈ H1 ++ H2) as [->|Hin] by set_solver.
      * exists (taken h rest). split; [set_solver|]. split; [done|]. split; [|done]. rw Hf in Hfree. set_solver.
      * exists x. split; [set_solver|done].
    + left. exists (taken h rest). split; [set_solver|done].
Qed.

Lemma taken_id h : taken h (h_free h) = h.
Proof. by destruct h. Qed.

(** A page of free blocks has nothing in use. *)
Lemma live_page H1 h H2 B a n :
  (∀ x, block (h_page h) (h_type h) x → x ∈ h_free h) → live (H1 ++ h :: H2) B a n ↔ live (H1 ++ H2) B a n.
Proof.
  intros Hall. rw /live. split; (intros [(x & Hx & Ha & Hfree & ->)|Hb]; [|by right]).
  - left. assert (x = h ∨ x ∈ H1 ++ H2) as [->|Hin] by set_solver; [by destruct Hfree; apply Hall|]. by exists x.
  - left. exists x. split; [set_solver|done].
Qed.

(** A block that is free is not in use. *)
Lemma taken_not_live s H1 h H2 B r rest n :
  heap s (H1 ++ taken h rest :: H2) B → Forall (λ b, (0 < b.2)%nat) B →
  block (h_page h) (h_type h) r → h_free h = r :: rest → ¬ live (H1 ++ h :: H2) B r n.
Proof.
  intros Hh Hpos Hr Hf. assert (taken h rest ∈ H1 ++ taken h rest :: H2) as Hin by set_solver.
  pose proof (pk_type _ _ (heap_page_ok _ _ _ _ Hh Hin)) as Hk. simpl in Hk. destruct (block_range _ _ _ Hk Hr) as (? & ? & _).
  destruct (bsize_cases _ Hk) as (? & _). intros [(x & Hx & Ha & Hfree & _)|(c & Hb & _)].
  - assert (x = h ∨ x ∈ H1 ++ H2) as [->|Hd] by set_solver; [rw Hf in Hfree; set_solver|].
    pose proof (pk_type _ _ (heap_page_ok _ _ _ x Hh ltac:(set_solver))) as Hk'. destruct (block_range _ _ _ Hk' Ha) as (? & ? & _).
    destruct (bsize_cases _ Hk') as (? & _). destruct (heap_pages_differ _ _ _ _ _ _ Hh Hd); simpl in *; lia.
  - destruct (big_range _ _ _ Hh Hpos _ _ Hb) as (_ & _ & _ & Hc).
    destruct (heap_big_differ _ _ _ Hh Hpos _ _ _ Hin Hb); simpl in *; unfold PAGE_SIZE in *; lia.
Qed.

(** A block is taken out of the abstract heap, or put in. *)
Lemma R_add s H H' B B' A r n m :
  heap s H' B' → kmalloc_spinlock s = false → Forall (λ b, (0 < b.2)%nat) B' →
  (∀ a, is_Some (A !! a) ↔ ∃ k, live H B a k) → (∀ a j k, A !! a = Some j → live H B a k → j ≤ k) →
  (∀ a k, live H' B' a k ↔ live H B a k ∨ a = r ∧ k = n) → (∀ k, ¬ live H B r k) → m ≤ n →
  A !! r = None ∧ R s (<[r := m]> A).
Proof.
  intros Hh Hl Hpos Hdom Hsz Hlive Hfresh Hle.
  assert (A !! r = None) as Hr.
  { destruct (A !! r) as [j|] eqn:He; [|done]. destruct (proj1 (Hdom r)) as [k Hk]; [by eexists|]. by destruct (Hfresh k). }
  split; [done|]. split; [done|]. exists H', B'. split; [done|]. split; [done|]. split.
  - intros a. setoid_rewrite Hlive. destruct (decide (a = r)) as [->|Hne].
    + rw lookup_insert_eq. split; [intros _; exists n; by right|by eexists].
    + rw lookup_insert_ne // Hdom. split; [intros [k Hk]; exists k; by left | intros [k [Hk|[-> _]]]; [by exists k|done]].
  - intros a j k Hj Hk. apply Hlive in Hk as [Hk|[-> ->]].
    + rw lookup_insert_ne in Hj; [by eapply Hsz | intros ->; by destruct (Hfresh k)].
    + rw lookup_insert_eq in Hj. congruence.
Qed.

Lemma R_remove s H H' B B' A r :
  heap s H' B' → kmalloc_spinlock s = false → Forall (λ b, (0 < b.2)%nat) B' →
  (∀ a, is_Some (A !! a) ↔ ∃ k, live H B a k) → (∀ a j k, A !! a = Some j → live H B a k → j ≤ k) →
  (∀ a k, live H' B' a k ↔ live H B a k ∧ a ≠ r) → R s (delete r A).
Proof.
  intros Hh Hl Hpos Hdom Hsz Hlive. split; [done|]. exists H', B'. split; [done|]. split; [done|]. split.
  - intros a. setoid_rewrite Hlive. destruct (decide (a = r)) as [->|Hne].
    + rw lookup_delete_eq. split; [by intros [? ?] | by intros (k & _ & ?)].
    + rw lookup_delete_ne // Hdom. split; [intros [k Hk]; by exists k | intros (k & Hk & _); by exists k].
  - intros a j k Hj [Hk Hne]%Hlive. rw lookup_delete_ne // in Hj. by eapply Hsz.
Qed.

Lemma R_separate s A : R s A → separate s A.
Proof.
  intros (_ & H & B & Hh & Hpos & Hdom & Hsz).
  assert (∀ a n, A !! a = Some n → ∃ k, live H B a k ∧ n ≤ k) as Hl.
  { intros a n Ha. destruct (proj1 (Hdom a)) as [k Hk]; [by eexists|]. exists k. split; [done|by eapply Hsz]. }
  split.
  - intros a n (k & Hk & Hle)%Hl. destruct (live_range _ _ _ Hh Hpos _ _ Hk) as (? & ? & ? & _). split; [done|]. lia.
  - intros a b n m (k & Hk & Hle)%Hl (j & Hj & Hle')%Hl Hne.
    destruct (live_separate _ _ _ Hh Hpos _ _ _ _ Hk Hj Hne); lia.
Qed.
