(* ===== verification/KmallocThms.v ===== *)
(** * The kernel heap implements an allocator

    [kmalloc] and [kfree] against the abstract heap of KmallocSpec.v, from the
    state the kernel starts in. *)

From stdpp Require Import base tactics list gmap option numbers ssreflect.
From S2P Require Import Prelude Kern Kmalloc KmallocFacts KmallocPages KmallocBlocks KmallocAlloc KmallocFree KmallocSpec.

Open Scope Z_scope.

(** What the client wrote into its blocks. *)
Definition keeps_blocks (A : gmap Z Z) (s s' : state) : Prop :=
  ∀ a n x, A !! a = Some n → a ≤ x < a + n → word s' x = word s x.

Definition round_up (sz : Z) : Z := (sz + PAGE_SIZE - 1) / PAGE_SIZE * PAGE_SIZE.

(** No room for [sz] bytes: the pages have run out, or the pagerefs have. *)
Definition no_memory (sz : Z) (s : state) : Prop :=
  lastpaddr s < firstpaddr s + Z.max PAGE_SIZE (round_up sz) ∨ all_taken s.

(** ram.c leaves the pages from [first] to [last]; the heap's own variables are
    0. *)
Definition boot (first last : Z) (m : gmap Z Z) : state :=
  State first last false (replicate NUM_PAGEREFPAGES (Root 0 (replicate INUSE_WORDS 0) 0)) (replicate NSIZES 0) 0 ∅ m.

Lemma R_boot first last m :
  0 < first → first mod PAGE_SIZE = 0 → first ≤ last ≤ 2 ^ 29 → R (boot first last m) ∅.
Proof.
  intros H0 Hm Hl. split; [done|]. exists [], []. split; [|split; [constructor|]].
  - assert (Forall (λ r, r = Root 0 (replicate INUSE_WORDS 0) 0) (kheaproots (boot first last m))) as Hall.
    { apply Forall_replicate. done. }
    assert (root_pages (boot first last m) = []) as Hrp by by_decide.
    split; try done.
    + split; [done|]. eapply Forall_impl; [exact Hall|]. intros r ->. split; try done.
      * apply Forall_replicate. lia.
      * by left.
    + intros w w' r r' _ Hw'. apply (Forall_lookup_1 _ _ _ _ Hall) in Hw' as ->. done.
    + intros k a Hk. assert (a = 0) as ->; [|done]. apply lookup_replicate in Hk as [-> _]. done.
    + rw /all_pages Hrp. constructor.
  - split; [|intros a j k Hj; by rw lookup_empty in Hj]. intros a. rw lookup_empty. split; [by intros [? ?]|].
    intros (n & [(h & Hin & _)|(c & Hin & _)]); by apply elem_of_nil in Hin.
Qed.

Lemma large_npages sz : LARGEST_SUBPAGE_SIZE ≤ sz ≤ 2 ^ 31 →
  let n := u32 (u32 (sz + PAGE_SIZE) - 1) / PAGE_SIZE in 1 ≤ n ≤ 2 ^ 19 ∧ n * PAGE_SIZE = round_up sz ∧ sz ≤ round_up sz.
Proof.
  intros Hsz. unfold LARGEST_SUBPAGE_SIZE, PAGE_SIZE, round_up in *. rw (u32_small (sz + 4096)); [|lia]. rw u32_small; [|lia].
  replace (sz + 4096 - 1) with (sz + PAGE_SIZE - 1) by (unfold PAGE_SIZE; lia). unfold PAGE_SIZE. split; [zlia|]. split; [lia|zlia].
Qed.

(** Blocks in use lie below what is handed out next. *)
Lemma keeps_R s s' A : R s A → keeps s s' → keeps_blocks A s s'.
Proof.
  intros HR Hk a n x Ha Hx. destruct (R_separate _ _ HR) as [Hr _]. apply Hk. destruct (Hr a n Ha) as (_ & _ & ?). lia.
Qed.

Lemma add_block s s' A H H' B B' r n sz :
  R s A → heap s' H' B' → kmalloc_spinlock s' = false → Forall (λ b, (0 < b.2)%nat) B' →
  (∀ a, is_Some (A !! a) ↔ ∃ k, live H B a k) → (∀ a j k, A !! a = Some j → live H B a k → j ≤ k) →
  (∀ a k, live H' B' a k ↔ live H B a k ∨ a = r ∧ k = n) → (∀ k, ¬ live H B r k) → sz ≤ n →
  r ≠ 0 ∧ A !! r = None ∧ R s' (<[r := sz]> A) ∧ separate s' (<[r := sz]> A).
Proof.
  intros HR Hh Hl Hpos Hdom Hsz Hlive Hno Hle.
  destruct (R_add s' H H' B B' A r n sz Hh Hl Hpos Hdom Hsz Hlive Hno Hle) as [Hr HR'].
  destruct (live_range _ _ _ Hh Hpos r n) as (_ & Hlo & _); [apply Hlive; by right|].
  split; [unfold MIPS_KSEG0 in Hlo; lia|]. split; [done|]. split; [done|by apply R_separate].
Qed.

(** The next [n] pages as a block. *)
Lemma R_grow s A n sz :
  R s A → (0 < n)%nat → firstpaddr s + Z.of_nat n * PAGE_SIZE ≤ lastpaddr s → sz ≤ Z.of_nat n * PAGE_SIZE →
  let r := MIPS_KSEG0 + firstpaddr s in
  let s' := set_firstpaddr (firstpaddr s + Z.of_nat n * PAGE_SIZE) s in
  r ≠ 0 ∧ A !! r = None ∧ R s' (<[r := sz]> A) ∧ separate s' (<[r := sz]> A).
Proof.
  intros HR Hn Hroom Hsz r s'. pose proof HR as (Hl & H & B & Hh & Hpos & Hdom & Hbig).
  pose proof (heap_grow n _ _ _ Hh Hroom) as Hg.
  eapply (add_block s _ A H _ B _ r (Z.of_nat n * PAGE_SIZE)); [exact HR | exact Hg | exact Hl | | exact Hdom | exact Hbig | | | exact Hsz].
  - by apply Forall_cons.
  - intros a k. rw /live. setoid_rewrite elem_of_cons. split.
    + intros [Hh'|(c & [[= -> ->]|Hc] & ->)]; [by left; left | by right | left; right; by exists c].
    + intros [[Hh'|(c & Hc & ->)]|[-> ->]]; [by left | right; exists c; split; [by right|done] |].
      right. exists n. split; [by left|done].
  - intros k Hk. destruct (live_range _ _ _ Hh Hpos _ _ Hk). unfold r in *. lia.
Qed.

Lemma R_kseg s A : R s A → 0 < firstpaddr s ∧ firstpaddr s mod PAGE_SIZE = 0 ∧ firstpaddr s ≤ lastpaddr s ≤ 2 ^ 29.
Proof.
  intros (_ & H & B & Hh & _). destruct (hp_first _ _ _ Hh). pose proof (hp_last _ _ _ Hh). done.
Qed.

Lemma kmalloc_large s A sz :
  R s A → LARGEST_SUBPAGE_SIZE ≤ sz ≤ 2 ^ 31 →
  wp (kmalloc sz) (λ r s', keeps_blocks A s s' ∧
    (r = 0 ∧ R s' A ∧ no_memory sz s' ∨
     r ≠ 0 ∧ A !! r = None ∧ R s' (<[r := sz]> A) ∧ separate s' (<[r := sz]> A))) s.
Proof.
  intros HR Hsz. pose proof HR as (Hl & _). destruct (R_kseg _ _ HR) as (Hf & Hm & Hlast). rw /kmalloc.
  rw bool_decide_eq_true_2; [|lia]. destruct (large_npages sz Hsz) as (Hn & Hround & Hup). cbv zeta in *.
  set (n := u32 _ / PAGE_SIZE) in *.
  wp_step. pose proof (alloc_kpages_eq n s Hl Hf Hlast ltac:(lia)) as Ha.
  destruct (decide (lastpaddr s < firstpaddr s + n * PAGE_SIZE)) as [Hex|Hroom].
  { eapply wp_Ok; [exact Ha|]. rw bool_decide_eq_true_2 //. apply wp_ret. split; [done|]. left. split; [done|].
    split; [done|]. left. lia. }
  pose proof (R_grow s A (Z.to_nat n) sz HR) as Hg. cbv zeta in Hg. rw Z2Nat.id in Hg; [|lia].
  destruct Hg as (Hr0 & Hg); [lia|lia|lia|].
  eapply wp_Ok; [exact Ha|]. cbn beta. rw bool_decide_eq_false_2; [|exact Hr0]. wp_step.
  apply wp_kassert; [apply bool_decide_eq_true_2; unfold MIPS_KSEG0, PAGE_SIZE in *; zlia|].
  apply wp_ret. split; [done|]. by right.
Qed.

Lemma kmalloc_small s A sz :
  R s A → 0 ≤ sz < LARGEST_SUBPAGE_SIZE →
  wp (kmalloc sz) (λ r s', keeps_blocks A s s' ∧
    (r = 0 ∧ R s' A ∧ no_memory sz s' ∨
     r ≠ 0 ∧ A !! r = None ∧ R s' (<[r := sz]> A) ∧ separate s' (<[r := sz]> A))) s.
Proof.
  intros HR Hsz. pose proof HR as (Hl & H & B & Hh & Hpos & Hdom & Hbig). rw /kmalloc.
  rw bool_decide_eq_false_2; [|lia]. eapply wp_mono; [apply (subpage_kmalloc_spec s H B); [done|done|lia]|].
  intros r s' (Hl' & Hk & Hres). split; [by apply (keeps_R s)|]. destruct Hres as [(-> & Hh' & Hno)|Hres]; [left|right].
  - split; [done|]. split; [split; [done|by exists H, B]|]. destruct Hno as [Hex|]; [left|by right].
    unfold exhausted in Hex. unfold round_up, PAGE_SIZE in *. lia.
  - destruct Hres as (H1 & h & H2 & rest & Hh' & Hf & Hup & Hold). pose proof (heap_page_ok _ _ _ (taken h rest) Hh' ltac:(set_solver)) as Hok.
    assert (block (h_page h) (h_type h) r ∧ r ∉ rest ∧ ∀ a k, live H B a k ↔ live (H1 ++ h :: H2) B a k) as (Hb & Hn & Heq).
    { destruct Hold as [->|(p & pg & k & -> & -> & -> & Hk')].
      - pose proof (heap_page_ok _ _ _ h Hh ltac:(set_solver)) as Hok0. pose proof (pk_blocks _ _ Hok0) as Hb. rw Hf in Hb.
        destruct (free_count _ _ Hok0) as [Hd _]. rw Hf in Hd. apply NoDup_cons in Hd as [Hn _]. by apply Forall_cons in Hb as [Hb _].
      - destruct (fresh_blocks p pg k Hk') as (Hall & Hd & Hb). rw Hf in Hd Hb. apply NoDup_cons in Hd as [Hn _].
        apply Forall_cons in Hb as [Hb _]. split; [done|]. split; [done|]. intros a j. symmetry.
        by apply (live_page [] (fresh_page p pg k) H B). }
    apply (add_block s s' A (H1 ++ h :: H2) (H1 ++ taken h rest :: H2) B B r (bsize (h_type h))); try done.
    + intros a. setoid_rewrite <-Heq. done.
    + intros a j k Hj Hk'%Heq. by eapply Hbig.
    + intros a k. by apply blocks_taken.
    + intros k. by eapply taken_not_live.
Qed.

(** A page of its own. *)
Lemma kfree_large s A H B a c :
  R s A → heap s H B → Forall (λ b, (0 < b.2)%nat) B →
  (∀ a, is_Some (A !! a) ↔ ∃ k, live H B a k) → (∀ a j k, A !! a = Some j → live H B a k → j ≤ k) →
  (a, c) ∈ B → wp (kfree a) (λ _ s', R s' (delete a A) ∧ keeps_blocks (delete a A) s s') s.
Proof.
  intros HR Hh Hpos Hdom Hbig Hin. destruct (big_range _ _ _ Hh Hpos _ _ Hin) as (Hm & Hlo & Hhi & Hc).
  rw /kfree bool_decide_eq_false_2; [|unfold MIPS_KSEG0 in *; lia].
  wp_step. eapply wp_mono.
  { eapply subpage_kfree_other; [done | apply HR |]. intros h Hh'. destruct (heap_big_differ _ _ _ Hh Hpos _ _ _ Hh' Hin); unfold PAGE_SIZE in *; lia. }
  intros r _s [-> ->]. rw bool_decide_eq_true_2 //. wp_step. apply wp_kassert; [by apply bool_decide_eq_true_2|]. apply wp_ret.
  split; [|done]. pose proof Hin as [B' HB]%elem_of_Permutation.
  assert (Forall (λ b, (0 < b.2)%nat) B') as Hpos' by (rw HB in Hpos; by apply Forall_cons in Hpos as [_ ?]).
  eapply (R_remove s H H B B'); [by eapply heap_drop_big | apply HR | done | done | done |].
  intros x k. split.
  - intros Hl. assert (live H B x k) as Hl'.
    { destruct Hl as [?|(d & Hd & ->)]; [by left|]. right. exists d. split; [|done]. rw HB. by right. }
    split; [done|]. intros ->. destruct Hl as [(h & Hh' & Hb & _ & _)|(d & Hd & _)].
    + pose proof (pk_type _ _ (heap_page_ok _ _ _ _ Hh Hh')) as Hk. destruct (block_range _ _ _ Hk Hb) as (? & ? & _).
      destruct (bsize_cases _ Hk) as (? & _). destruct (heap_big_differ _ _ _ Hh Hpos _ _ _ Hh' Hin); unfold PAGE_SIZE in *; lia.
    + pose proof (hp_distinct _ _ _ Hh) as Hd'. rw /all_pages HB /= !NoDup_app in Hd'. destruct Hd' as (_ & _ & _ & _ & _ & Hno & _).
      rw Forall_forall in Hpos'. pose proof (Hpos' _ Hd) as Hd0. simpl in Hd0, Hc.
      apply (Hno a); [|by replace a with (a + PAGE_SIZE * Z.of_nat 0) by lia; eapply big_page_in].
      apply list_elem_of_fmap. exists 0%nat. split; [simpl; lia|]. apply elem_of_seq. simpl. lia.
  - intros [[?|(d & Hd & ->)] Hne]; [by left|]. right. exists d. split; [|done]. rw HB in Hd.
    apply elem_of_cons in Hd as [[= -> ->]|]; done.
Qed.

(** A block of a page. *)
Lemma kfree_small s A H B a h :
  R s A → heap s H B → Forall (λ b, (0 < b.2)%nat) B →
  (∀ a, is_Some (A !! a) ↔ ∃ k, live H B a k) → (∀ a j k, A !! a = Some j → live H B a k → j ≤ k) →
  h ∈ H → block (h_page h) (h_type h) a → a ∉ h_free h →
  wp (kfree a) (λ _ s', R s' (delete a A) ∧ keeps_blocks (delete a A) s s') s.
Proof.
  intros HR Hh Hpos Hdom Hbig Hin Hb Hnot. destruct (block_in_ram _ _ _ _ _ Hh Hin Hb) as [_ Ha0].
  pose proof (taken_id h) as Hid. apply list_elem_of_split in Hin as (H1 & H2 & ->).
  rw /kfree bool_decide_eq_false_2 //. wp_step. eapply wp_mono; [eapply subpage_kfree_block; [done | apply HR | done | done]|].
  intros r s' (-> & Hl' & Hsame & Hheap). rw bool_decide_eq_false_2; [|by intros []]. apply wp_ret.
  set (h' := taken h (a :: h_free h)).
  assert (∀ x k, live (H1 ++ h' :: H2) B x k ↔ live (H1 ++ h :: H2) B x k ∧ x ≠ a) as Hlive.
  { intros x k. pose proof (blocks_taken H1 h' H2 B a (h_free h) x k Hb eq_refl Hnot) as Ht.
    change (taken h' (h_free h)) with (taken h (h_free h)) in Ht. rw Hid in Ht. rw Ht.
    assert (¬ live (H1 ++ h' :: H2) B a k) as Hno.
    { apply (taken_not_live s H1 h' H2 B a (h_free h)); [|done|done|done].
      change (taken h' (h_free h)) with (taken h (h_free h)). by rw Hid. }
    split; [intros Hl; split; [by left|by intros ->] | intros [[?|[-> _]] ?]; done]. }
  split.
  - destruct Hheap as [Hh'|[Hh' Hall]].
    + by apply (R_remove s' (H1 ++ h :: H2) (H1 ++ h' :: H2) B B).
    + apply (R_remove s' (H1 ++ h :: H2) (H1 ++ H2) B B); try done. intros x k. rw -Hlive. symmetry. by apply live_page.
  - intros b n x Hbn Hx. apply lookup_delete_Some in Hbn as [Hne Hbn]. apply Hsame.
    destruct (proj1 (Hdom b)) as [j Hj]; [by eexists|]. pose proof (Hbig _ _ _ Hbn Hj).
    assert (live (H1 ++ h :: H2) B a (bsize (h_type h))) as Hla by (left; exists h; split; [set_solver|done]).
    destruct (live_separate _ _ _ Hh Hpos _ _ _ _ Hla Hj Hne); lia.
Qed.

Lemma kmalloc_works s A sz :
  R s A → 0 ≤ sz ≤ 2 ^ 31 →
  wp (kmalloc sz) (λ r s', keeps_blocks A s s' ∧
    (r = 0 ∧ R s' A ∧ no_memory sz s' ∨
     r ≠ 0 ∧ A !! r = None ∧ R s' (<[r := sz]> A) ∧ separate s' (<[r := sz]> A))) s.
Proof.
  intros HR Hsz. destruct (decide (LARGEST_SUBPAGE_SIZE ≤ sz)); [apply kmalloc_large | apply kmalloc_small]; done || lia.
Qed.

Lemma kfree_works s A a n :
  R s A → A !! a = Some n → wp (kfree a) (λ _ s', R s' (delete a A) ∧ keeps_blocks (delete a A) s s') s.
Proof.
  intros HR Ha. pose proof HR as (_ & H & B & Hh & Hpos & Hdom & Hbig).
  destruct (proj1 (Hdom a)) as [k [(h & Hin & Hb & Hn & _)|(c & Hin & _)]]; [by eexists | |].
  - by eapply kfree_small.
  - by eapply kfree_large.
Qed.

(** C3: the heap implements an allocator, on at most 512 MB of memory and for
    requests of at most 2 GB. [kmalloc] of [sz] bytes, [0 <= sz <= 2^31],
    returns NULL with the blocks as they were, and only when the pages or the
    pagerefs have run out; or it returns a new block of at least [sz] bytes,
    aligned to 16 and apart from every block in use. [kfree] of a block in use
    gives back that block and no other. Both leave the contents of the blocks in
    use alone, and neither panics. (For requests within a page of 4 GB the
    rounding to pages wraps around: [kmalloc_rounds_to_zero].) *)
Theorem kheap_refines s A :
  R s A →
  (∀ sz, 0 ≤ sz ≤ 2 ^ 31 → wp (kmalloc sz) (λ r s', keeps_blocks A s s' ∧
    (r = 0 ∧ R s' A ∧ no_memory sz s' ∨
     r ≠ 0 ∧ A !! r = None ∧ R s' (<[r := sz]> A) ∧ separate s' (<[r := sz]> A))) s) ∧
  ∀ a n, A !! a = Some n → wp (kfree a) (λ _ s', R s' (delete a A) ∧ keeps_blocks (delete a A) s s') s.
Proof.
  intros HR. split; [intros sz; by apply kmalloc_works | intros a n; by apply kfree_works].
Qed.

(** ** Runs *)

(** A word of a block in use is written. *)
Lemma R_store s A a n x v :
  R s A → A !! a = Some n → a ≤ x < a + n → R (set_mem (<[x := v]> (mem s)) s) A.
Proof.
  intros (Hl & H & B & Hh & Hpos & Hdom & Hbig) Ha Hx. split; [done|]. exists H, B. split; [|done].
  destruct (proj1 (Hdom a)) as [k Hk]; [by eexists|]. pose proof (Hbig _ _ _ Ha Hk) as Hnk.
  assert (∀ h, h ∈ H → x ∉ h_free h) as Hfree.
  { intros h Hin Hxf. pose proof (heap_page_ok _ _ _ _ Hh Hin) as [Hty _ _ Hb]. rw Forall_forall in Hb. specialize (Hb _ Hxf).
    destruct (block_range _ _ _ Hty Hb) as (? & ? & _). destruct (bsize_cases _ Hty) as (? & _).
    destruct Hk as [(h' & Hin' & Hb' & Hn' & ->)|(c & Hc & ->)].
    - pose proof (pk_type _ _ (heap_page_ok _ _ _ _ Hh Hin')) as Hty'. destruct (block_range _ _ _ Hty' Hb') as (? & ? & _).
      destruct (heap_pages_other _ _ _ _ _ Hh Hin Hin') as [->|?]; [|lia].
      destruct (blocks_disjoint _ _ _ _ Hty Hb Hb'); [by intros ->|lia..].
    - destruct (heap_big_differ _ _ _ Hh Hpos _ _ _ Hin Hc); lia. }
  pose proof Hh as [? ? Hroots ? ? Hok ? ? ? ? ?]. split; try done; [split; [apply Hroots|]; eapply Forall_impl; [apply Hroots|]; intros r; by apply root_ok_ext|].
  rw !Forall_forall in Hok |- *. intros h Hin. apply (page_ok_ext s); [done | | by apply Hok].
  intros y Hy. rw /word /= lookup_insert_ne //. intros ->. by apply (Hfree h Hin).
Qed.

(** A kernel that uses the heap: the states it goes through and the blocks it
    has. *)
Inductive client (first last : Z) : state → gmap Z Z → Prop :=
| client_boot m : client first last (boot first last m) ∅
| client_kmalloc s A sz r s' :
    client first last s A → 0 ≤ sz ≤ 2 ^ 31 → kmalloc sz s = Ok r s' →
    client first last s' (if decide (r = 0) then A else <[r := sz]> A)
| client_kfree s A a s' :
    client first last s A → is_Some (A !! a) → kfree a s = Ok tt s' → client first last s' (delete a A)
| client_store s A a n x v :
    client first last s A → A !! a = Some n → a ≤ x < a + n →
    client first last (set_mem (<[x := v]> (mem s)) s) A.

(** C16: on a machine with at most 512 MB of memory, whose free part starts at a
    page boundary above 0: however the kernel, from boot on, mixes [kmalloc] of
    at most 2 GB (2^31 bytes) a time, [kfree] of what it has and stores into
    what it has, its blocks never overlap and neither operation panics, faults
    or fails to return. *)
Theorem kheap_never_panics first last s A :
  0 < first → first mod PAGE_SIZE = 0 → first ≤ last ≤ 2 ^ 29 → client first last s A →
  separate s A ∧ (∀ sz, 0 ≤ sz ≤ 2 ^ 31 → ∃ r s', kmalloc sz s = Ok r s') ∧
  ∀ a, is_Some (A !! a) → ∃ s', kfree a s = Ok tt s'.
Proof.
  intros H0 Hm Hl Hc. assert (R s A) as HR.
  { induction Hc as [m|s A sz r s' _ IH Hsz Hr|s A a s' _ IH [n Ha] Hr|s A a n x v _ IH Ha Hx].
    - by apply R_boot.
    - pose proof (kmalloc_works _ _ _ IH Hsz) as (r' & s1 & He & _ & Hres)%wp_eq. rw Hr in He. injection He as <- <-.
      destruct Hres as [(-> & HR & _)|(Hne & _ & HR & _)]; by case_decide.
    - pose proof (kfree_works _ _ _ _ IH Ha) as (u & s1 & He & HR & _)%wp_eq. rw Hr in He. by assert (s1 = s') as -> by congruence.
    - by eapply R_store. }
  split; [by apply R_separate|]. split.
  - intros sz Hsz. pose proof (kmalloc_works _ _ _ HR Hsz) as (r & s' & He & _)%wp_eq. by exists r, s'.
  - intros a [n Ha]. pose proof (kfree_works _ _ _ _ HR Ha) as ([] & s' & He & _)%wp_eq. by exists s'.
Qed.

(** ** Concrete heaps *)

(** Fifteen pages from address 4096 on. *)
Definition small_heap : state := boot 4096 65536 ∅.

Definition after {St A} (o : outcome St A) : St := match o with Ok _ s | Stop _ s => s end.

Lemma kheap_refines_witness :
  wp (kmalloc 100) (λ r s', keeps_blocks ∅ small_heap s' ∧
    (r = 0 ∧ R s' ∅ ∧ no_memory 100 s' ∨
     r ≠ 0 ∧ (∅ : gmap Z Z) !! r = None ∧ R s' (<[r := 100]> ∅) ∧ separate s' (<[r := 100]> ∅))) small_heap ∧
  (λ o, match o with Ok r _ => r = 0x80001f80 | _ => False end) (kmalloc 100 small_heap) ∧
  (λ o, match o with Ok r s => r = 0x80003000 ∧ firstpaddr s = 20480 | _ => False end)
    ((kmalloc 100;; kmalloc 5000) small_heap).
Proof.
  destruct (kheap_refines small_heap ∅) as [Hm _]; [apply R_boot; [lia | reflexivity | lia]|].
  split; [apply Hm; lia | split; vm_compute; by split].
Defined.

Lemma kheap_never_panics_witness :
  let s := after (kmalloc 100 small_heap) in
  separate s {[0x80001f80 := 100]} ∧ (∃ s', kfree 0x80001f80 s = Ok tt s').
Proof.
  destruct (kheap_never_panics 4096 65536 (after (kmalloc 100 small_heap)) {[0x80001f80 := 100]}) as (Hs & _ & Hf);
    [lia | reflexivity | lia | |].
  - apply (client_kmalloc 4096 65536 small_heap ∅ 100 0x80001f80); [apply client_boot | lia | vm_compute; reflexivity].
  - split; [exact Hs|]. apply Hf. by exists 100.
Defined.

(** A request within a page of 4 GB is rounded to no page at all: what [kmalloc]
    returns is the page that the next caller gets too. *)
Example kmalloc_rounds_to_zero :
  (λ o, match o with Ok (p, q) s => p = q ∧ p ≠ 0 | _ => False end)
    ((p ← kmalloc (2 ^ 32 - 100); q ← kmalloc 4096; mret (p, q)) small_heap).
Proof. by vm_compute. Qed.
