(* ===== verification/Dumbvm.v ===== *)
(** * Address spaces and page faults: kern/arch/mips/vm/dumbvm.c

    An address space has two regions and a stack, each in consecutive physical
    pages that the page allocator of Kmalloc.v hands out; the [struct addrspace]
    itself is a block of the kernel heap.  [vm_fault] loads the TLB.  One CPU
    runs; [splhigh] and [splx] around the TLB have no effect on this state.

    Pages are cleared and copied a word at a time, which is what [bzero] and
    [memmove] do for page-aligned blocks (LibcMem.v). *)

From stdpp Require Import base tactics list gmap option numbers ssreflect.
From S2P Require Import Prelude Kern Kmalloc.

Open Scope Z_scope.

(** ** State *)

Definition USERSTACK : Z := MIPS_KSEG0.
Definition DUMBVM_STACKPAGES : Z := 18.
Definition NUM_TLB : nat := 64.
Definition TLBLO_DIRTY : Z := 0x400.
Definition TLBLO_VALID : Z := 0x200.
Definition TLBHI_INVALID (entryno : Z) : Z := u32 (Z.shiftl (0x80000 + entryno) 12).
Definition TLBLO_INVALID : Z := 0.
Definition VM_FAULT_READ : Z := 0.
Definition VM_FAULT_WRITE : Z := 1.
Definition VM_FAULT_READONLY : Z := 2.

Record addrspace := Addrspace {
  as_vbase1 : Z; as_pbase1 : Z; as_npages1 : Z;
  as_vbase2 : Z; as_pbase2 : Z; as_npages2 : Z;
  as_stackpbase : Z
}.
Definition SIZEOF_ADDRSPACE : Z := 28.

Record state := State {
  km : Kmalloc.state;            (* the kernel heap and RAM *)
  spaces : gmap Z addrspace;     (* the structs addrspace, by address *)
  tlb : list (Z * Z);            (* entryhi and entrylo of each slot *)
  curproc : option Z             (* curproc->p_addrspace, if there is a curproc *)
}.

Definition set_km k s := State k (spaces s) (tlb s) (curproc s).
Definition set_spaces m s := State (km s) m (tlb s) (curproc s).
Definition set_tlb t s := State (km s) (spaces s) t (curproc s).
Definition set_curproc p s := State (km s) (spaces s) (tlb s) p.

Definition set_region1 v n a := Addrspace v (as_pbase1 a) n (as_vbase2 a) (as_pbase2 a) (as_npages2 a) (as_stackpbase a).
Definition set_region2 v n a := Addrspace (as_vbase1 a) (as_pbase1 a) (as_npages1 a) v (as_pbase2 a) n (as_stackpbase a).
Definition set_pbase1 p a := Addrspace (as_vbase1 a) p (as_npages1 a) (as_vbase2 a) (as_pbase2 a) (as_npages2 a) (as_stackpbase a).
Definition set_pbase2 p a := Addrspace (as_vbase1 a) (as_pbase1 a) (as_npages1 a) (as_vbase2 a) p (as_npages2 a) (as_stackpbase a).
Definition set_stackpbase p a := Addrspace (as_vbase1 a) (as_pbase1 a) (as_npages1 a) (as_vbase2 a) (as_pbase2 a) (as_npages2 a) p.

Definition on_heap {A} (m : M Kmalloc.state A) : M state A := λ s,
  match m (km s) with Ok a k => Ok a (set_km k s) | Stop e k => Stop e (set_km k s) end.

Definition load_as (a : Z) : M state addrspace := deref (λ s, spaces s !! a).
Definition upd_as (a : Z) (f : addrspace → addrspace) : M state unit :=
  r ← load_as a; modify (λ s, set_spaces (<[a := f r]> (spaces s)) s).

(** [proc_getas]; 0 is NULL. *)
Definition proc_getas : M state Z := gets (λ s, default 0 (curproc s)).

Definition dumbvm_can_sleep : M state unit :=
  held ← gets (λ s, kmalloc_spinlock (km s));
  kassert (negb held).

Definition getppages (npages : Z) : M state Z := on_heap (ram_stealmem npages).

(** ** Whole words *)

Definition PADDR_TO_KVADDR (paddr : Z) : Z := u32 (paddr + MIPS_KSEG0).

Definition bzero_words (p len : Z) : M Kmalloc.state unit :=
  for_up 0 (Z.to_nat (len / 4)) (λ i, store_word (p + 4 * Z.of_nat i) 0;; mret (@None unit));;
  mret tt.

Definition move_word (dst src : Z) (i : Z) : M Kmalloc.state unit :=
  w ← load_word (src + 4 * i); store_word (dst + 4 * i) w.

Definition memmove_words (dst src len : Z) : M Kmalloc.state unit :=
  let n := Z.to_nat (len / 4) in
  (if bool_decide (dst < src) then
     for_up 0 n (λ i, move_word dst src (Z.of_nat i);; mret (@None unit))
   else
     for_up 0 n (λ i, move_word dst src (Z.of_nat (n - 1 - i));; mret (@None unit)));;
  mret tt.

(** ** TLB *)

Definition tlb_read (i : nat) : M state (Z * Z) := deref (λ s, tlb s !! i).
Definition tlb_write (ehi elo : Z) (i : nat) : M state unit :=
  tlb_read i;; modify (λ s, set_tlb (<[i := (ehi, elo)]> (tlb s)) s).

(** ** Address spaces *)

Definition as_create : M state Z :=
  a ← on_heap (kmalloc SIZEOF_ADDRSPACE);
  if bool_decide (a = 0) then mret 0
  else
    modify (λ s, set_spaces (<[a := Addrspace 0 0 0 0 0 0 0]> (spaces s)) s);;
    mret a.

Definition as_destroy (a : Z) : M state unit :=
  dumbvm_can_sleep;;
  modify (λ s, set_spaces (delete a (spaces s)) s);;
  on_heap (kfree a).

Definition as_activate : M state unit :=
  a ← proc_getas;
  if bool_decide (a = 0) then mret tt
  else
    for_up 0 NUM_TLB (λ i, tlb_write (TLBHI_INVALID (Z.of_nat i)) TLBLO_INVALID i;; mret (@None unit));;
    mret tt.

Definition as_deactivate : M state unit := mret tt.

Definition as_define_region (a vaddr sz : Z) : M state Z :=
  dumbvm_can_sleep;;
  let sz := u32 (sz + Z.land vaddr 0xfff) in
  let vaddr := Z.land vaddr PAGE_FRAME in
  let sz := Z.land (u32 (sz + PAGE_SIZE - 1)) PAGE_FRAME in
  let npages := sz / PAGE_SIZE in
  r ← load_as a;
  if bool_decide (as_vbase1 r = 0) then upd_as a (set_region1 vaddr npages);; mret 0
  else if bool_decide (as_vbase2 r = 0) then upd_as a (set_region2 vaddr npages);; mret 0
  else mret ENOSYS.

Definition as_zero_region (paddr npages : Z) : M state unit :=
  on_heap (bzero_words (PADDR_TO_KVADDR paddr) (u32 (npages * PAGE_SIZE))).

Definition as_prepare_load (a : Z) : M state Z :=
  r ← load_as a;
  kassert (bool_decide (as_pbase1 r = 0));;
  kassert (bool_decide (as_pbase2 r = 0));;
  kassert (bool_decide (as_stackpbase r = 0));;
  dumbvm_can_sleep;;
  p1 ← getppages (as_npages1 r);
  upd_as a (set_pbase1 p1);;
  if bool_decide (p1 = 0) then mret ENOMEM
  else
    p2 ← getppages (as_npages2 r);
    upd_as a (set_pbase2 p2);;
    if bool_decide (p2 = 0) then mret ENOMEM
    else
      p3 ← getppages DUMBVM_STACKPAGES;
      upd_as a (set_stackpbase p3);;
      if bool_decide (p3 = 0) then mret ENOMEM
      else
        as_zero_region p1 (as_npages1 r);;
        as_zero_region p2 (as_npages2 r);;
        as_zero_region p3 DUMBVM_STACKPAGES;;
        mret 0.

Definition as_complete_load (a : Z) : M state Z := dumbvm_can_sleep;; mret 0.

(** The result and the stack pointer. *)
Definition as_define_stack (a : Z) : M state (Z * Z) :=
  r ← load_as a;
  kassert (bool_decide (as_stackpbase r ≠ 0));;
  mret (0, USERSTACK).

Definition copy_pages (dst src npages : Z) : M state unit :=
  on_heap (memmove_words (PADDR_TO_KVADDR dst) (PADDR_TO_KVADDR src) (u32 (npages * PAGE_SIZE))).

(** The result and the new address space. *)
Definition as_copy (old : Z) : M state (Z * Z) :=
  dumbvm_can_sleep;;
  new ← as_create;
  if bool_decide (new = 0) then mret (ENOMEM, 0)
  else
    o ← load_as old;
    upd_as new (set_region1 (as_vbase1 o) (as_npages1 o));;
    upd_as new (set_region2 (as_vbase2 o) (as_npages2 o));;
    r ← as_prepare_load new;
    if bool_decide (r ≠ 0) then as_destroy new;; mret (ENOMEM, 0)
    else
      n ← load_as new;
      kassert (bool_decide (as_pbase1 n ≠ 0));;
      kassert (bool_decide (as_pbase2 n ≠ 0));;
      kassert (bool_decide (as_stackpbase n ≠ 0));;
      o ← load_as old;
      copy_pages (as_pbase1 n) (as_pbase1 o) (as_npages1 o);;
      copy_pages (as_pbase2 n) (as_pbase2 o) (as_npages2 o);;
      copy_pages (as_stackpbase n) (as_stackpbase o) DUMBVM_STACKPAGES;;
      mret (0, new).

(** ** Page faults *)

Definition aligned (a : Z) : bool := bool_decide (Z.land a PAGE_FRAME = a).

(** The assertions of [vm_fault]. *)
Definition check_as (r : addrspace) : bool :=
  forallb (λ x, bool_decide (x ≠ 0))
    [as_vbase1 r; as_pbase1 r; as_npages1 r; as_vbase2 r; as_pbase2 r; as_npages2 r; as_stackpbase r] &&
  forallb aligned [as_vbase1 r; as_pbase1 r; as_vbase2 r; as_pbase2 r; as_stackpbase r].

(** The physical address of a page address. *)
Definition find_paddr (r : addrspace) (faultaddress : Z) : option Z :=
  let vtop1 := u32 (as_vbase1 r + u32 (as_npages1 r * PAGE_SIZE)) in
  let vtop2 := u32 (as_vbase2 r + u32 (as_npages2 r * PAGE_SIZE)) in
  let stackbase := USERSTACK - DUMBVM_STACKPAGES * PAGE_SIZE in
  if bool_decide (faultaddress >= as_vbase1 r ∧ faultaddress < vtop1) then
    Some (u32 (faultaddress - as_vbase1 r + as_pbase1 r))
  else if bool_decide (faultaddress >= as_vbase2 r ∧ faultaddress < vtop2) then
    Some (u32 (faultaddress - as_vbase2 r + as_pbase2 r))
  else if bool_decide (faultaddress >= stackbase ∧ faultaddress < USERSTACK) then
    Some (u32 (faultaddress - stackbase + as_stackpbase r))
  else None.

(** A free slot is filled. *)
Definition load_tlb (faultaddress paddr : Z) : M state Z :=
  r ← for_up 0 NUM_TLB (λ i,
    e ← tlb_read i;
    if bool_decide (Z.land (snd e) TLBLO_VALID ≠ 0) then mret None
    else
      tlb_write faultaddress (Z.lor (Z.lor paddr TLBLO_DIRTY) TLBLO_VALID) i;;
      mret (Some tt));
  match r with Some _ => mret 0 | None => mret EFAULT end.

Definition vm_fault (faulttype faultaddress : Z) : M state Z :=
  let faultaddress := Z.land faultaddress PAGE_FRAME in
  if bool_decide (faulttype = VM_FAULT_READONLY) then stops Panic
  else if bool_decide (faulttype ≠ VM_FAULT_READ ∧ faulttype ≠ VM_FAULT_WRITE) then mret EINVAL
  else
    cur ← gets curproc;
    if bool_decide (cur = None) then mret EFAULT
    else
      a ← proc_getas;
      if bool_decide (a = 0) then mret EFAULT
      else
        r ← load_as a;
        kassert (check_as r);;
        match find_paddr r faultaddress with
        | None => mret EFAULT
        | Some paddr =>
            kassert (aligned paddr);;
            load_tlb faultaddress paddr
        end.
