(* ===== verification/DumbvmFacts.v ===== *)
(** * Frames and user memory

    What the page allocator gives an address space, clearing and copying whole
    pages, and the memory that a process sees through its address space. *)

From stdpp Require Import base tactics list gmap option numbers ssreflect.
From S2P Require Import Prelude Kern Kmalloc KmallocFacts KmallocPages KmallocBlocks KmallocSpec KmallocThms Dumbvm.

Open Scope Z_scope.

Lemma wp_on_heap {A} (m : M Kmalloc.state A) (Q : A → state → Prop) s :
  wp m (λ a k, Q a (set_km k s)) (km s) → wp (on_heap m) Q s.
Proof. rw /wp /on_heap. by destruct (m (km s)). Qed.

(** ** Words of a block in use *)

(** The words outside the [n] bytes at [a] are unchanged, and the heap has the
    same blocks. *)
Definition wrote (A : gmap Z Z) (a n : Z) (k k' : Kmalloc.state) : Prop :=
  R k' A ∧ firstpaddr k' = firstpaddr k ∧ ∀ x, x < a ∨ a + n ≤ x → word k' x = word k x.

Lemma wrote_refl A a n k : R k A → wrote A a n k k.
Proof. done. Qed.

Lemma wrote_trans A a n k1 k2 k3 : wrote A a n k1 k2 → wrote A a n k2 k3 → wrote A a n k1 k3.
Proof. intros (_ & Hf & Hw) (HR & Hf' & Hw'). split; [done|]. split; [congruence|]. intros x Hx. by rw Hw' // Hw. Qed.

Lemma wrote_widen A a n b m k k' : wrote A a n k k' → b ≤ a → a + n ≤ b + m → wrote A b m k k'.
Proof. intros (HR & Hf & Hw) Ha Hb. split; [done|]. split; [done|]. intros x Hx. apply Hw. lia. Qed.

Lemma R_in_ram k A a n x :
  R k A → A !! a = Some n → a ≤ x → x < a + n → x mod 4 = 0 → in_ram x k.
Proof.
  intros HR Ha Hlo Hhi Hm. destruct (R_separate _ _ HR) as [Hr _]. destruct (Hr _ _ Ha) as (_ & ? & ?).
  destruct (R_kseg _ _ HR) as (_ & _ & ?). split; [lia|done].
Qed.

Lemma wp_store_live k A a n x v (Q : unit → Kmalloc.state → Prop) :
  R k A → A !! a = Some n → a ≤ x → x < a + n → x mod 4 = 0 →
  (∀ k', wrote A x 4 k k' → word k' x = Some v → Q tt k') → wp (store_word x v) Q k.
Proof.
  intros HR Ha Hlo Hhi Hm HQ. apply wp_store_word; [by eapply R_in_ram|]. apply HQ.
  - split; [by eapply R_store|]. split; [done|]. intros y Hy. rw /word /= lookup_insert_ne //. lia.
  - by rw /word /= lookup_insert_eq.
Qed.

Lemma wp_load_live k A a n x (Q : Z → Kmalloc.state → Prop) :
  R k A → A !! a = Some n → a ≤ x → x < a + n → x mod 4 = 0 →
  (∀ w, word k x = Some w → Q w k) → wp (load_word x) Q k.
Proof. intros HR Ha Hlo Hhi Hm HQ. apply wp_load_word; [by eapply R_in_ram|]. by apply HQ. Qed.

(** ** Whole pages *)

Lemma bzero_words_spec k A p len :
  R k A → A !! p = Some len → p mod 4 = 0 → 0 ≤ len → len mod 4 = 0 →
  wp (bzero_words p len) (λ _ k', wrote A p len k k' ∧ ∀ i, 0 ≤ i < len → i mod 4 = 0 → word k' (p + i) = Some 0) k.
Proof.
  intros HR Hp Hm Hlen Hm4. rw /bzero_words. wp_step.
  apply (wp_for_up (λ i k', wrote A p len k k' ∧ ∀ j, 0 ≤ j < 4 * Z.of_nat i → j mod 4 = 0 → word k' (p + j) = Some 0)).
  - split; [by apply wrote_refl|]. lia.
  - intros i k' [_ Hi] [Hw Hz]. wp_step. assert (4 * Z.of_nat i + 4 ≤ len) as Hi4 by zlia.
    eapply wp_store_live; [apply Hw | exact Hp | lia | lia | zlia |].
    intros k2 Hw2 Hv. apply wp_ret. split.
    + eapply wrote_trans; [exact Hw|]. eapply wrote_widen; [exact Hw2|lia..].
    + intros j Hj Hj4. destruct (decide (j = 4 * Z.of_nat i)) as [->|Hne]; [done|].
      destruct Hw2 as (_ & _ & Hsame). rw Hsame; [|zlia]. apply Hz; [zlia|done].
  - intros k' [Hw Hz]. apply wp_ret. split; [done|]. intros i Hi Hi4. apply Hz; [zlia|done].
Qed.

(** One word of a copy between two blocks; [P] says which words are there. *)
Definition copied (A : gmap Z Z) (dst src len : Z) (P : Z → Prop) (k k' : Kmalloc.state) : Prop :=
  wrote A dst len k k' ∧ ∀ i, 0 ≤ i < len / 4 → P i → word k' (dst + 4 * i) = word k (src + 4 * i).

Lemma move_word_spec k k' A dst src len n P j :
  copied A dst src len P k k' → A !! dst = Some len → A !! src = Some n → dst ≠ src → len ≤ n →
  dst mod 4 = 0 → src mod 4 = 0 → 0 ≤ j < len / 4 →
  wp (move_word dst src j) (λ _ k2, copied A dst src len (λ i, i = j ∨ P i) k k2) k'.
Proof.
  intros [Hw Hc] Hd Hs Hne Hle Hmd Hms Hj. assert (4 * j + 4 ≤ len) as Hj4 by zlia.
  destruct (R_separate k' A) as [_ Hsep]; [apply Hw|]. pose proof (Hsep _ _ _ _ Hd Hs Hne) as Hdis.
  rw /move_word. wp_step. eapply wp_load_live; [apply Hw | exact Hs | lia | lia | zlia |]. intros w Hword.
  eapply wp_store_live; [apply Hw | exact Hd | lia | lia | zlia |]. intros k2 Hw2 Hv. split.
  - eapply wrote_trans; [exact Hw|]. eapply wrote_widen; [exact Hw2|lia..].
  - intros i Hi [->|HP].
    + rw Hv -Hword. destruct Hw as (_ & _ & Hsame). apply Hsame. lia.
    + destruct (decide (i = j)) as [->|Hij].
      * rw Hv -Hword. destruct Hw as (_ & _ & Hsame). apply Hsame. lia.
      * destruct Hw2 as (_ & _ & Hsame2). rw Hsame2; [by apply Hc|lia].
Qed.

Lemma memmove_words_spec k A dst src len n :
  R k A → A !! dst = Some len → A !! src = Some n → dst ≠ src → len ≤ n →
  dst mod 4 = 0 → src mod 4 = 0 → 0 ≤ len → len mod 4 = 0 →
  wp (memmove_words dst src len) (λ _ k', wrote A dst len k k' ∧
    ∀ i, 0 ≤ i < len → i mod 4 = 0 → word k' (dst + i) = word k (src + i)) k.
Proof.
  intros HR Hd Hs Hne Hle Hmd Hms Hlen Hm4. rw /memmove_words. cbv zeta. wp_step.
  assert (∀ k', copied A dst src len (λ i, 0 ≤ i < len / 4) k k' → wrote A dst len k k' ∧
    ∀ i, 0 ≤ i < len → i mod 4 = 0 → word k' (dst + i) = word k (src + i)) as Hfin.
  { intros k' [Hw Hc]. split; [done|]. intros i Hi Hi4. replace i with (4 * (i / 4)) by zlia. apply Hc; zlia. }
  bd_case (dst < src) as Hdir.
  - apply (wp_for_up (λ m k', copied A dst src len (λ i, i < Z.of_nat m) k k')).
    + split; [by apply wrote_refl|]. lia.
    + intros m k' [_ Hm] Hc. wp_step. eapply wp_mono; [apply (move_word_spec k k' A dst src len n _ (Z.of_nat m) Hc); try done; zlia|].
      intros _ k2 [Hw2 Hc2]. apply wp_ret. split; [done|]. intros i Hi Hlt. apply Hc2; [done|]. lia.
    + intros k' [Hw Hc]. apply wp_ret, Hfin. split; [done|]. intros i Hi _. apply Hc; [done|]. zlia.
  - apply (wp_for_up (λ m k', copied A dst src len (λ i, len / 4 - Z.of_nat m ≤ i) k k')).
    + split; [by apply wrote_refl|]. lia.
    + intros m k' [_ Hm] Hc. wp_step.
      eapply wp_mono; [apply (move_word_spec k k' A dst src len n _ (Z.of_nat (Z.to_nat (len / 4) - 1 - m)) Hc); try done; zlia|].
      intros _ k2 [Hw2 Hc2]. apply wp_ret. split; [done|]. intros i Hi Hlt. apply Hc2; [done|]. zlia.
    + intros k' [Hw Hc]. apply wp_ret, Hfin. split; [done|]. intros i Hi _. apply Hc; [done|]. zlia.
Qed.

(** ** Frames *)

Lemma ram_stealmem_spec k A n :
  R k A → 1 ≤ n ≤ 2 ^ 19 →
  wp (ram_stealmem n) (λ pa k',
    pa = 0 ∧ k' = k ∨
    0 < pa ∧ pa mod PAGE_SIZE = 0 ∧ pa + n * PAGE_SIZE ≤ 2 ^ 29 ∧ A !! (MIPS_KSEG0 + pa) = None ∧
      R k' (<[MIPS_KSEG0 + pa := n * PAGE_SIZE]> A) ∧ Kmalloc.mem k' = Kmalloc.mem k) k.
Proof.
  intros HR Hn. destruct (R_kseg _ _ HR) as (Hf & Hm & Hlast). rw /ram_stealmem. wp_step. wp_step. wp_step. wp_step.
  unfold PAGE_SIZE in *. rw (u32_small (n * 4096)); [|lia]. rw u32_small; [|lia].
  bd_case (firstpaddr k + n * 4096 > lastpaddr k) as Hc; [apply wp_ret; by left|].
  wp_step. wp_step. apply wp_ret. right.
  pose proof (R_grow k A (Z.to_nat n) (n * 4096) HR) as Hg. unfold PAGE_SIZE in Hg. cbv zeta in Hg. rw Z2Nat.id in Hg; [|lia].
  destruct Hg as (_ & Hnone & HR' & _); [lia|lia|lia|]. do 3 (split; [lia|]). done.
Qed.

Lemma getppages_spec s A n :
  R (km s) A → 1 ≤ n ≤ 2 ^ 19 →
  wp (getppages n) (λ pa s', ∃ k, s' = set_km k s ∧ Kmalloc.mem k = Kmalloc.mem (km s) ∧
    (pa = 0 ∧ R k A ∨
     0 < pa ∧ pa mod PAGE_SIZE = 0 ∧ pa + n * PAGE_SIZE ≤ 2 ^ 29 ∧ A !! (MIPS_KSEG0 + pa) = None ∧
      R k (<[MIPS_KSEG0 + pa := n * PAGE_SIZE]> A))) s.
Proof.
  intros HR Hn. apply wp_on_heap. eapply wp_mono; [by apply ram_stealmem_spec|].
  intros pa k' Hres. exists k'. split; [done|]. destruct Hres as [[-> ->]|(H0 & H1 & H2 & H3 & H4 & H5)]; [|by split; [|right]].
  split; [done|]. by left.
Qed.
