(* ===== verification/DumbvmSpace.v ===== *)
(** * What a process sees through its address space

    Well-formed address spaces, their frames, and the invariant that no two
    address spaces share memory. *)

From stdpp Require Import base tactics list gmap option numbers ssreflect.
From S2P Require Import Prelude Kern Kmalloc KmallocFacts KmallocPages KmallocBlocks KmallocSpec KmallocThms Dumbvm DumbvmFacts.

Open Scope Z_scope.

(** ** Pages of addresses *)

Lemma page_of va : 0 ≤ va < 2 ^ 32 → Z.land va PAGE_FRAME = va - va mod PAGE_SIZE.
Proof.
  intros Hva. unfold PAGE_SIZE. replace (va - va mod 4096) with (Z.shiftl (va / 4096) 12).
  2: { rw Z.shiftl_mul_pow2 //. zlia. }
  apply Z.bits_inj'. intros n Hn. rw Z.land_spec frame_bit // Z.shiftl_spec //.
  change 4096 with (2 ^ 12). rw -Z.shiftr_div_pow2 //.
  destruct (decide (n < 12)).
  - rw bool_decide_eq_false_2; [|lia]. rw andb_false_r Z.testbit_neg_r //. lia.
  - rw Z.shiftr_spec; [|lia]. replace (n - 12 + 12) with n by lia.
    destruct (decide (n < 32)); [by rw bool_decide_eq_true_2; [rw andb_true_r|lia]|].
    rw bool_decide_eq_false_2; [|lia]. by rw andb_false_r (bits_above 32); [|lia..].
Qed.

Lemma offset_of va : Z.land va 0xfff = va mod PAGE_SIZE.
Proof. change 0xfff with (Z.ones 12). by rw Z.land_ones. Qed.

Lemma aligned_iff a : 0 ≤ a < 2 ^ 32 → aligned a = true ↔ a mod PAGE_SIZE = 0.
Proof. intros Ha. rw /aligned page_of // bool_decide_eq_true. lia. Qed.

(** ** Well-formed address spaces *)

Definition region_ok (v n : Z) : Prop := 0 < v ∧ v mod PAGE_SIZE = 0 ∧ 1 ≤ n ∧ v + n * PAGE_SIZE ≤ USERSTACK.
Definition frame_ok (p n : Z) : Prop := 0 < p ∧ p mod PAGE_SIZE = 0 ∧ p + n * PAGE_SIZE ≤ 2 ^ 29.

Definition layout (r : addrspace) : Prop :=
  region_ok (as_vbase1 r) (as_npages1 r) ∧ region_ok (as_vbase2 r) (as_npages2 r).

Definition as_ok (r : addrspace) : Prop :=
  layout r ∧ frame_ok (as_pbase1 r) (as_npages1 r) ∧ frame_ok (as_pbase2 r) (as_npages2 r) ∧
  frame_ok (as_stackpbase r) DUMBVM_STACKPAGES.

Lemma check_as_ok r : as_ok r → check_as r = true.
Proof.
  intros (((? & ? & ? & ?) & (? & ? & ? & ?)) & (? & ? & ?) & (? & ? & ?) & (? & ? & ?)).
  unfold DUMBVM_STACKPAGES, PAGE_SIZE, USERSTACK, MIPS_KSEG0 in *.
  apply andb_true_iff. split; simpl.
  - rw !bool_decide_eq_true_2; [done|lia..].
  - rw !(proj2 (aligned_iff _ _)) //; unfold PAGE_SIZE; lia.
Qed.

(** Which of the three parts an address is in. *)
Lemma find_paddr_cases r va :
  as_ok r → 0 ≤ va < 2 ^ 32 →
  match find_paddr r va with
  | Some pa =>
      as_vbase1 r ≤ va < as_vbase1 r + as_npages1 r * PAGE_SIZE ∧ pa = va - as_vbase1 r + as_pbase1 r ∨
      as_vbase2 r ≤ va < as_vbase2 r + as_npages2 r * PAGE_SIZE ∧ pa = va - as_vbase2 r + as_pbase2 r ∨
      USERSTACK - DUMBVM_STACKPAGES * PAGE_SIZE ≤ va < USERSTACK ∧
        pa = va - (USERSTACK - DUMBVM_STACKPAGES * PAGE_SIZE) + as_stackpbase r
  | None => True
  end.
Proof.
  intros (((? & ? & ? & ?) & (? & ? & ? & ?)) & (? & ? & ?) & (? & ? & ?) & (? & ? & ?)) Hva.
  unfold find_paddr, DUMBVM_STACKPAGES, PAGE_SIZE, USERSTACK, MIPS_KSEG0 in *.
  rw (u32_small (as_npages1 r * 4096)); [|lia]. rw (u32_small (as_npages2 r * 4096)); [|lia].
  rw (u32_small (as_vbase1 r + _)); [|lia]. rw (u32_small (as_vbase2 r + _)); [|lia].
  case_bool_decide; [left; split; [lia|apply u32_small; lia]|].
  case_bool_decide; [right; left; split; [lia|apply u32_small; lia]|].
  case_bool_decide; [|done]. right. right. split; [lia|apply u32_small; lia].
Qed.

(** ** Frames *)

(** The blocks of memory of an address space, as addresses and sizes. *)
Definition frames (r : addrspace) : list (Z * Z) :=
  filter (λ f, f.1 ≠ MIPS_KSEG0)
    [(MIPS_KSEG0 + as_pbase1 r, as_npages1 r * PAGE_SIZE);
     (MIPS_KSEG0 + as_pbase2 r, as_npages2 r * PAGE_SIZE);
     (MIPS_KSEG0 + as_stackpbase r, DUMBVM_STACKPAGES * PAGE_SIZE)].

(** [A] are the blocks of memory in use (KmallocSpec.v): the structs and the
    frames are among them, and nobody shares any. *)
Record vm_ok (s : state) (A : gmap Z Z) : Prop := {
  v_heap : R (km s) A;
  v_structs : ∀ a r, spaces s !! a = Some r → A !! a = Some SIZEOF_ADDRSPACE;
  v_frames : ∀ a r f, spaces s !! a = Some r → f ∈ frames r → A !! f.1 = Some f.2;
  v_parts : ∀ a r, spaces s !! a = Some r → NoDup (frames r).*1;
  v_private : ∀ a b r q f g, spaces s !! a = Some r → spaces s !! b = Some q → a ≠ b →
    f ∈ frames r → g ∈ frames q → f.1 ≠ g.1
}.

Lemma frames_ok r : as_ok r →
  frames r = [(MIPS_KSEG0 + as_pbase1 r, as_npages1 r * PAGE_SIZE);
     (MIPS_KSEG0 + as_pbase2 r, as_npages2 r * PAGE_SIZE);
     (MIPS_KSEG0 + as_stackpbase r, DUMBVM_STACKPAGES * PAGE_SIZE)].
Proof.
  intros (_ & (? & _) & (? & _) & (? & _)). rw /frames !filter_cons !decide_True //; simpl; lia.
Qed.

(** A page lies within one of the frames. *)
Lemma find_paddr_frame r va pa :
  as_ok r → 0 ≤ va < 2 ^ 32 → va mod PAGE_SIZE = 0 → find_paddr r va = Some pa →
  pa mod PAGE_SIZE = 0 ∧ 0 < pa ∧ pa + PAGE_SIZE ≤ 2 ^ 29 ∧ va < USERSTACK ∧
  ∃ f, f ∈ frames r ∧ f.1 ≤ MIPS_KSEG0 + pa ∧ MIPS_KSEG0 + pa + PAGE_SIZE ≤ f.1 + f.2.
Proof.
  intros Hok Hva Hm Hpa. pose proof (find_paddr_cases r va Hok Hva) as Hc. rw Hpa in Hc. rw (frames_ok _ Hok).
  destruct Hok as (((? & ? & ? & ?) & (? & ? & ? & ?)) & (? & ? & ?) & (? & ? & ?) & (? & ? & ?)).
  unfold DUMBVM_STACKPAGES, PAGE_SIZE, USERSTACK, MIPS_KSEG0 in *.
  destruct Hc as [[? ->]|[[? ->]|[? ->]]].
  - do 4 (split; [zlia|]). eexists. split; [by left|]. simpl. zlia.
  - do 4 (split; [zlia|]). eexists. split; [by right; left|]. simpl. zlia.
  - do 4 (split; [zlia|]). eexists. split; [by right; right; left|]. simpl. zlia.
Qed.

(** ** The memory of an address space *)

(** The physical address of a user address, and the word there. *)
Definition phys (r : addrspace) (va : Z) : option Z :=
  (λ pa, pa + Z.land va 0xfff) <$> find_paddr r (Z.land va PAGE_FRAME).
Definition uword (k : Kmalloc.state) (r : addrspace) (va : Z) : option Z :=
  phys r va ≫= λ pa, word k (MIPS_KSEG0 + pa).

Definition user_addr (va : Z) : Prop := 0 ≤ va < 2 ^ 32 ∧ va mod 4 = 0.

Lemma phys_frame r va pa :
  as_ok r → user_addr va → phys r va = Some pa →
  pa mod 4 = 0 ∧ 0 < pa < 2 ^ 29 ∧ ∃ f, f ∈ frames r ∧ f.1 ≤ MIPS_KSEG0 + pa ∧ MIPS_KSEG0 + pa + 4 ≤ f.1 + f.2.
Proof.
  intros Hok [Hva H4] (pg & Hpg & ->)%fmap_Some. rw page_of // in Hpg. rw offset_of.
  destruct (find_paddr_frame _ (va - va mod PAGE_SIZE) _ Hok ltac:(unfold PAGE_SIZE; zlia) ltac:(unfold PAGE_SIZE; zlia) Hpg)
    as (Hm & H0 & Hhi & _ & f & Hf & Hlo & Hup).
  unfold PAGE_SIZE in *. split; [zlia|]. split; [zlia|]. exists f. split; [done|]. zlia.
Qed.

Section private.
Context (s : state) (A : gmap Z Z).
Hypothesis Hv : vm_ok s A.

Lemma frames_apart a b r q f g :
  spaces s !! a = Some r → spaces s !! b = Some q → f ∈ frames r → g ∈ frames q → f.1 ≠ g.1 →
  f.1 + f.2 ≤ g.1 ∨ g.1 + g.2 ≤ f.1.
Proof using Hv.
  intros Ha Hb Hf Hg Hne. destruct (R_separate _ _ (v_heap _ _ Hv)) as [_ Hsep].
  exact (Hsep _ _ _ _ (v_frames _ _ Hv _ _ _ Ha Hf) (v_frames _ _ Hv _ _ _ Hb Hg) Hne).
Qed.

(** Different addresses are different memory. *)
Lemma find_paddr_inj a r va va' pa :
  spaces s !! a = Some r → as_ok r → 0 ≤ va < 2 ^ 32 → 0 ≤ va' < 2 ^ 32 →
  find_paddr r va = Some pa → find_paddr r va' = Some pa → va = va'.
Proof using Hv.
  intros Ha Hok Hva Hva' Hp Hp'. pose proof (v_parts _ _ Hv _ _ Ha) as Hd.
  pose proof (frames_apart a a r r) as Hap. rw (frames_ok _ Hok) in Hd Hap. rw /= !NoDup_cons in Hd.
  destruct Hd as (H1 & H2 & _).
  assert (as_pbase1 r ≠ as_pbase2 r) as N12 by (intros He; apply H1; rw He; set_solver).
  assert (as_pbase1 r ≠ as_stackpbase r) as N13 by (intros He; apply H1; rw He; set_solver).
  assert (as_pbase2 r ≠ as_stackpbase r) as N23 by (intros He; apply H2; rw He; set_solver).
  set (f1 := (MIPS_KSEG0 + as_pbase1 r, as_npages1 r * PAGE_SIZE)) in *.
  set (f2 := (MIPS_KSEG0 + as_pbase2 r, as_npages2 r * PAGE_SIZE)) in *.
  set (f3 := (MIPS_KSEG0 + as_stackpbase r, DUMBVM_STACKPAGES * PAGE_SIZE)) in *.
  pose proof (Hap f1 f2 Ha Ha ltac:(set_solver) ltac:(set_solver) ltac:(simpl; lia)) as A12.
  pose proof (Hap f1 f3 Ha Ha ltac:(set_solver) ltac:(set_solver) ltac:(simpl; lia)) as A13.
  pose proof (Hap f2 f3 Ha Ha ltac:(set_solver) ltac:(set_solver) ltac:(simpl; lia)) as A23.
  pose proof (find_paddr_cases r va Hok Hva) as Hc. pose proof (find_paddr_cases r va' Hok Hva') as Hc'.
  rw Hp in Hc. rw Hp' in Hc'. simpl in A12, A13, A23. unfold DUMBVM_STACKPAGES, PAGE_SIZE, USERSTACK, MIPS_KSEG0 in *.
  clear - Hc Hc' A12 A13 A23. lia.
Qed.

Lemma phys_inj a r va va' pa :
  spaces s !! a = Some r → as_ok r → user_addr va → user_addr va' →
  phys r va = Some pa → phys r va' = Some pa → va = va'.
Proof using Hv.
  intros Ha Hok [Hva H4] [Hva' H4'] (pg & Hpg & He)%fmap_Some (pg' & Hpg' & He')%fmap_Some.
  rw page_of // in Hpg. rw page_of // in Hpg'. rw offset_of in He. rw offset_of in He'.
  assert (0 ≤ va - va mod PAGE_SIZE < 2 ^ 32) as B by (unfold PAGE_SIZE; zlia).
  assert (0 ≤ va' - va' mod PAGE_SIZE < 2 ^ 32) as B' by (unfold PAGE_SIZE; zlia).
  destruct (find_paddr_frame _ _ _ Hok B ltac:(unfold PAGE_SIZE; zlia) Hpg) as (Hm & _).
  destruct (find_paddr_frame _ _ _ Hok B' ltac:(unfold PAGE_SIZE; zlia) Hpg') as (Hm' & _).
  assert (pg = pg') as <- by (unfold PAGE_SIZE in *; zlia).
  pose proof (find_paddr_inj a r _ _ _ Ha Hok B B' Hpg Hpg'). lia.
Qed.

(** A word of one address space is written: nothing else changes, there or in
    any other. *)
Lemma write_private a r va pa v k' :
  spaces s !! a = Some r → as_ok r → user_addr va → phys r va = Some pa →
  wrote A (MIPS_KSEG0 + pa) 4 (km s) k' → word k' (MIPS_KSEG0 + pa) = Some v →
  uword k' r va = Some v ∧
  (∀ va', user_addr va' → va' ≠ va → uword k' r va' = uword (km s) r va') ∧
  ∀ b q, b ≠ a → spaces s !! b = Some q → as_ok q → ∀ va', user_addr va' → uword k' q va' = uword (km s) q va'.
Proof using Hv.
  intros Ha Hok Hva Hp (_ & _ & Hw) Hword. split; [by rw /uword Hp|].
  destruct (phys_frame _ _ _ Hok Hva Hp) as (H4 & _ & f & Hf & Hlo & Hup). split.
  - intros va' Hva' Hne. rw /uword. destruct (phys r va') as [pa'|] eqn:Hp'; [|done]. simpl. apply Hw.
    destruct (phys_frame _ _ _ Hok Hva' Hp') as (H4' & _). assert (pa' ≠ pa); [|zlia].
    intros ->. apply Hne. by eapply phys_inj.
  - intros b q Hba Hb Hokq va' Hva'. rw /uword. destruct (phys q va') as [pa'|] eqn:Hp'; [|done]. simpl. apply Hw.
    destruct (phys_frame _ _ _ Hokq Hva' Hp') as (H4' & _ & g & Hg & Hlo' & Hup').
    destruct (frames_apart b a q r g f Hb Ha Hg Hf); [|lia..]. exact (v_private _ _ Hv _ _ _ _ _ _ Hb Ha Hba Hg Hf).
Qed.
End private.
