(* ===== verification/DumbvmTlb.v ===== *)
(** * The TLB

    The processor translates a user address through the TLB and calls [vm_fault]
    when no entry matches; what is loaded agrees with the address space of the
    running process. *)

From stdpp Require Import base tactics list gmap option numbers ssreflect.
From S2P Require Import Prelude Kern Kmalloc KmallocFacts KmallocPages KmallocBlocks KmallocSpec KmallocThms Dumbvm DumbvmFacts DumbvmSpace.

Open Scope Z_scope.

(** ** Translation by the processor *)

Definition valid (e : Z * Z) : Prop := Z.land e.2 TLBLO_VALID ≠ 0.
Definition matches (va : Z) (e : Z * Z) : Prop := valid e ∧ e.1 = Z.land va PAGE_FRAME.
#[export] Instance valid_dec e : Decision (valid e).
Proof. unfold valid. apply _. Defined.
#[export] Instance matches_dec va e : Decision (matches va e).
Proof. unfold matches. apply _. Defined.

Definition translate (va : Z) (s : state) : option Z :=
  (λ x, Z.land x.2.2 PAGE_FRAME + Z.land va 0xfff) <$> list_find (matches va) (tlb s).

(** An access by a user program: translated, or the fault handler is called
    (kern/arch/mips/locore/trap.c) and, when it returns 0, the instruction is
    run again.  [inr]: the error [vm_fault] returns; trap.c, which is not
    modelled, gives up in [kill_curthread]. *)
Definition user_access (faulttype va : Z) : M state (Z + Z) :=
  hit ← gets (translate va);
  match hit with
  | Some pa => mret (inl pa)
  | None =>
      r ← vm_fault faulttype va;
      if bool_decide (r ≠ 0) then mret (inr r)
      else
        hit ← gets (translate va);
        match hit with Some pa => mret (inl pa) | None => stops Diverges end
  end.

Definition user_store (va v : Z) : M state (unit + Z) :=
  r ← user_access VM_FAULT_WRITE va;
  match r with
  | inl pa => on_heap (store_word (MIPS_KSEG0 + pa) v);; mret (inl tt)
  | inr e => mret (inr e)
  end.
Definition user_load (va : Z) : M state (Z + Z) :=
  r ← user_access VM_FAULT_READ va;
  match r with
  | inl pa => w ← on_heap (load_word (MIPS_KSEG0 + pa)); mret (inl w)
  | inr e => mret (inr e)
  end.

(** ** Coherence *)

Definition elo_of (pa : Z) : Z := Z.lor (Z.lor pa TLBLO_DIRTY) TLBLO_VALID.

(** Every valid entry translates a page of the address space [r]; no page is
    there twice; the invalid entries are out of the way, in the kernel's
    addresses. *)
Record coherent (r : addrspace) (s : state) : Prop := {
  co_size : length (tlb s) = NUM_TLB;
  co_once : NoDup (tlb s).*1;
  co_valid : ∀ e, e ∈ tlb s → valid e →
    e.1 mod PAGE_SIZE = 0 ∧ 0 ≤ e.1 < USERSTACK ∧ ∃ pa, find_paddr r e.1 = Some pa ∧ e.2 = elo_of pa;
  co_invalid : ∀ e, e ∈ tlb s → ¬ valid e → USERSTACK ≤ e.1
}.

Definition tlb_full (s : state) : Prop := ∀ e, e ∈ tlb s → valid e.

Lemma elo_page pa : pa mod PAGE_SIZE = 0 → 0 ≤ pa < 2 ^ 32 → Z.land (elo_of pa) PAGE_FRAME = pa ∧ valid (0, elo_of pa).
Proof.
  intros Hm Hpa. rw /elo_of -Z.lor_assoc. change (Z.lor TLBLO_DIRTY TLBLO_VALID) with (Z.land 0x600 0xfff). split.
  - pose proof (pab_page pa 0x600 Hm Hpa) as Hp. rw /MKPAB (page_of pa) // Hm Z.sub_0_r in Hp. exact Hp.
  - rw /valid /=. intros He. apply (f_equal (λ z, Z.testbit z 9)) in He. rw Z.land_spec Z.lor_spec Z.bits_0 orb_true_r in He. done.
Qed.

Lemma translate_coherent r s va pa :
  coherent r s → as_ok r → 0 ≤ va < 2 ^ 32 → translate va s = Some pa → phys r va = Some pa.
Proof.
  intros Hc Hok Hva. rw /translate /phys. intros ((i & e) & Hf & ->)%fmap_Some.
  apply list_find_Some in Hf as (Hi & (Hval & He) & _). apply list_elem_of_lookup_2 in Hi.
  destruct (co_valid _ _ Hc _ Hi Hval) as (Hm & Hr & pg & Hpg & Helo). rw -He Hpg /= Helo.
  assert (0 ≤ e.1 < 2 ^ 32) as Hb by (unfold USERSTACK, MIPS_KSEG0 in *; lia).
  destruct (find_paddr_frame _ _ _ Hok Hb Hm Hpg) as (Hpm & H0 & Hhi & _). unfold PAGE_SIZE in Hhi.
  by destruct (elo_page pg Hpm ltac:(lia)) as [-> _].
Qed.

(** ** Filling a slot *)

Lemma NoDup_insert_fresh {A} (l : list A) i x : NoDup l → x ∉ l → NoDup (<[i := x]> l).
Proof.
  revert i. induction l as [|y l IH]; intros [|i] Hd Hx; try done; apply NoDup_cons in Hd as [Hy Hd]; apply NoDup_cons; simpl.
  - split; [set_solver|done].
  - split; [|apply IH; [done|set_solver]]. intros (j & Hj)%list_elem_of_lookup.
    apply list_lookup_insert_Some in Hj as [(_ & -> & _)|(_ & Hj)]; [set_solver|]. by apply list_elem_of_lookup_2 in Hj.
Qed.

Lemma load_tlb_spec s pg pa :
  length (tlb s) = NUM_TLB →
  wp (load_tlb pg pa) (λ res s',
    res = 0 ∧ (∃ i e, tlb s !! i = Some e ∧ ¬ valid e ∧ s' = set_tlb (<[i := (pg, elo_of pa)]> (tlb s)) s) ∨
    res = EFAULT ∧ s' = s ∧ tlb_full s) s.
Proof.
  intros Hlen. rw /load_tlb. wp_step.
  apply (wp_for_up (λ i s', s' = s ∧ ∀ j e, (j < i)%nat → tlb s !! j = Some e → valid e)).
  - split; [done|]. lia.
  - intros i _s [_ Hi] [-> Hbefore]. destruct (lookup_lt_is_Some_2 (tlb s) i) as [e He]; [by rw Hlen|].
    wp_step. eapply wp_deref; [exact He|]. cbn beta. bd_case (Z.land e.2 TLBLO_VALID ≠ 0) as Hval.
    + apply wp_ret. split; [done|]. intros j e' Hj He'. destruct (decide (j = i)) as [->|]; [by simplify_eq|].
      apply (Hbefore j); [lia|done].
    + wp_step. rw /tlb_write. wp_step. eapply wp_deref; [exact He|]. wp_step. wp_step. apply wp_ret. left.
      split; [done|]. by exists i, e.
  - intros _s [-> Hall]. apply wp_ret. right. split; [done|]. split; [done|].
    intros e (j & Hj)%list_elem_of_lookup. apply (Hall j); [|done]. apply lookup_lt_Some in Hj. by rw Hlen in Hj.
Qed.

Lemma coherent_fill r s i e pg pa :
  coherent r s → as_ok r → tlb s !! i = Some e → ¬ valid e → pg mod PAGE_SIZE = 0 → 0 ≤ pg < 2 ^ 32 →
  find_paddr r pg = Some pa → (∀ e, e ∈ tlb s → valid e → e.1 ≠ pg) →
  let s' := set_tlb (<[i := (pg, elo_of pa)]> (tlb s)) s in
  coherent r s' ∧ ∀ va, Z.land va PAGE_FRAME = pg → translate va s' = Some (pa + Z.land va 0xfff).
Proof.
  intros Hc Hok Hi Hinv Hm Hpg Hpa Hmiss s'. destruct (find_paddr_frame _ _ _ Hok Hpg Hm Hpa) as (Hpm & H0 & Hhi & Hus & _).
  assert (0 ≤ pa < 2 ^ 32) as Hpr by (unfold PAGE_SIZE in Hhi; lia). destruct (elo_page pa Hpm Hpr) as [Helo Hval].
  pose proof (lookup_lt_Some _ _ _ Hi) as Hlt.
  assert (∀ e', e' ∈ tlb s' → e' = (pg, elo_of pa) ∨ e' ∈ tlb s) as Hin.
  { intros e' (j & Hj)%list_elem_of_lookup. apply list_lookup_insert_Some in Hj as [(-> & <- & _)|(_ & Hj)]; [by left|].
    right. by eapply list_elem_of_lookup_2. }
  assert (pg ∉ (tlb s).*1) as Hfresh.
  { intros (e' & -> & He')%list_elem_of_fmap. destruct (decide (valid e')) as [Hv'|Hv']; [by apply (Hmiss e')|].
    pose proof (co_invalid _ _ Hc _ He' Hv'). lia. }
  assert (coherent r s') as Hc'.
  { split.
    - rw /= length_insert. apply Hc.
    - rw /= list_fmap_insert. apply NoDup_insert_fresh; [apply Hc|done].
    - intros e' [->|He']%Hin; [|by apply Hc]. intros _. simpl. split; [done|]. split; [lia|]. by exists pa.
    - intros e' [->|He']%Hin; [done|by apply Hc]. }
  split; [done|]. intros va Hva. rw /translate.
  destruct (list_find (matches va) (tlb s')) as [[j e']|] eqn:Hf.
  - apply list_find_Some in Hf as (Hj & [Hv' He'] & _). rw Hva in He'. simpl in Hj.
    apply list_lookup_insert_Some in Hj as [(_ & <- & _)|(_ & Hj)]; [by rw /= Helo|].
    destruct Hfresh. rw -He'. by apply list_elem_of_fmap_2, list_elem_of_lookup_2 with (i := j).
  - apply list_find_None in Hf. rw Forall_forall in Hf. destruct (Hf (pg, elo_of pa)); [|by split].
    apply list_elem_of_lookup_2 with (i := i). by apply list_lookup_insert_eq.
Qed.

(** ** Faults and accesses *)

(** The process that runs has the address space [a], of contents [r]. *)
Record running (s : state) (A : gmap Z Z) (a : Z) (r : addrspace) : Prop := {
  run_vm : vm_ok s A;
  run_cur : curproc s = Some a;
  run_as : spaces s !! a = Some r;
  run_ok : as_ok r;
  run_tlb : coherent r s
}.

Lemma struct_nonzero s A a r : vm_ok s A → spaces s !! a = Some r → a ≠ 0.
Proof.
  intros Hv Ha. destruct (R_separate _ _ (v_heap _ _ Hv)) as [Hr _].
  destruct (Hr _ _ (v_structs _ _ Hv _ _ Ha)) as (_ & ? & _). unfold MIPS_KSEG0 in *. lia.
Qed.

Lemma vm_ok_km s s' A : km s' = km s → spaces s' = spaces s → vm_ok s A → vm_ok s' A.
Proof. intros Hk Hs []. split; rw ?Hk ?Hs; done. Qed.

(** The outcome of an access to [va]. *)
Definition access_result (s : state) (A : gmap Z Z) (a : Z) (r : addrspace) (va : Z) (res : Z + Z) (s' : state) : Prop :=
  running s' A a r ∧ km s' = km s ∧ spaces s' = spaces s ∧
  match res with
  | inl pa => phys r va = Some pa
  | inr e => e = EFAULT ∧ (phys r va = None ∨ tlb_full s)
  end.

Lemma vm_fault_spec s A a r t va :
  running s A a r → t = VM_FAULT_READ ∨ t = VM_FAULT_WRITE → 0 ≤ va < 2 ^ 32 → translate va s = None →
  wp (vm_fault t va) (λ res s', running s' A a r ∧ km s' = km s ∧ spaces s' = spaces s ∧
    (res = 0 ∧ translate va s' = phys r va ∧ is_Some (phys r va) ∨ res = EFAULT ∧ (phys r va = None ∨ tlb_full s))) s.
Proof.
  intros Hrun Ht Hva Hmiss. pose proof Hrun as [Hv Hcur Has Hok Hc]. rw /vm_fault. cbv zeta.
  rw (bool_decide_eq_false_2 (t = VM_FAULT_READONLY)); [|by destruct Ht as [-> | ->]].
  rw bool_decide_eq_false_2; [|by destruct Ht as [-> | ->]; intros [? ?]]. wp_step. wp_step. rw Hcur bool_decide_eq_false_2 //.
  wp_step. apply wp_gets. cbn beta. rw Hcur /= bool_decide_eq_false_2; [|by eapply struct_nonzero].
  wp_step. eapply wp_deref; [exact Has|]. wp_step. apply wp_kassert; [by apply check_as_ok|].
  assert (phys r va = (λ pa, pa + Z.land va 0xfff) <$> find_paddr r (Z.land va PAGE_FRAME)) as Hphys by done.
  pose proof (page_of va Hva) as Hpage. set (pg := Z.land va PAGE_FRAME) in *.
  assert (pg mod PAGE_SIZE = 0 ∧ 0 ≤ pg < 2 ^ 32) as [Hpm Hpr] by (unfold PAGE_SIZE in *; zlia).
  destruct (find_paddr r pg) as [pa|] eqn:Hpa; [|apply wp_ret; do 3 (split; [done|]); right; by split; [|left]].
  destruct (find_paddr_frame _ _ _ Hok Hpr Hpm Hpa) as (Ham & H0 & Hhi & _). unfold PAGE_SIZE in Hhi.
  wp_step. apply wp_kassert; [apply aligned_iff; [lia|done]|].
  eapply wp_mono; [apply load_tlb_spec; apply Hc|].
  intros res s' [(-> & i & e & He & Hinv & ->)|(-> & -> & Hfull)].
  - destruct (coherent_fill r s i e pg pa Hc Hok He Hinv Hpm Hpr Hpa) as [Hc' Htr].
    { intros e' Hin Hval He'. rw /translate in Hmiss. apply fmap_None, list_find_None in Hmiss.
      rw Forall_forall in Hmiss. by apply (Hmiss e' Hin). }
    split; [split; [by apply (vm_ok_km s)|done..]|]. do 2 (split; [done|]). left. split; [done|]. split; [by rw Htr // Hphys|].
    rw Hphys. by eexists.
  - do 3 (split; [done|]). right. split; [done|]. by right.
Qed.

Lemma user_access_spec s A a r t va :
  running s A a r → t = VM_FAULT_READ ∨ t = VM_FAULT_WRITE → 0 ≤ va < 2 ^ 32 →
  wp (user_access t va) (access_result s A a r va) s.
Proof.
  intros Hrun Ht Hva. rw /user_access. wp_step. wp_step. destruct (translate va s) as [pa|] eqn:Htr.
  - apply wp_ret. do 3 (split; [done|]). by apply (translate_coherent r s); [apply Hrun|apply Hrun|..].
  - wp_step. eapply wp_mono; [by eapply vm_fault_spec|].
    intros res s' (Hrun' & Hk & Hs & [(-> & Htr' & [pa Hpa])|(-> & Hno)]).
    + rw bool_decide_eq_false_2; [|by intros []]. wp_step. wp_step. rw Htr' Hpa. apply wp_ret. by do 3 (split; [done|]).
    + rw bool_decide_eq_true_2; [|done]. apply wp_ret. by do 3 (split; [done|]).
Qed.

Lemma coherent_ext r s s' : tlb s' = tlb s → coherent r s → coherent r s'.
Proof. intros He []. split; by rw He. Qed.

Lemma user_store_spec s A a r va v :
  running s A a r → user_addr va →
  wp (user_store va v) (λ res s', running s' A a r ∧ spaces s' = spaces s ∧
    match res with
    | inl _ => uword (km s') r va = Some v ∧
        (∀ va', user_addr va' → va' ≠ va → uword (km s') r va' = uword (km s) r va') ∧
        ∀ b q, b ≠ a → spaces s !! b = Some q → as_ok q → ∀ va', user_addr va' → uword (km s') q va' = uword (km s) q va'
    | inr e => e = EFAULT ∧ km s' = km s ∧ (phys r va = None ∨ tlb_full s)
    end) s.
Proof.
  intros Hrun Hva. rw /user_store. wp_step. eapply wp_mono; [apply (user_access_spec s A a r); [done|by right|apply Hva]|].
  intros [pa|e] s' (Hrun' & Hk & Hs & Hres); [|destruct Hres as [-> Hno]; apply wp_ret; by do 2 (split; [done|])].
  pose proof (run_vm _ _ _ _ Hrun') as Hv. pose proof (run_as _ _ _ _ Hrun') as Ha. pose proof (run_ok _ _ _ _ Hrun') as Hok.
  destruct (phys_frame _ _ _ Hok Hva Hres) as (H4 & _ & f & Hf & Hlo & Hup).
  wp_step. apply wp_on_heap. eapply (wp_store_live _ A f.1 f.2);
    [apply Hv | by apply (v_frames _ _ Hv _ _ _ Ha) | lia | lia | unfold MIPS_KSEG0; zlia |].
  intros k Hw Hword. apply wp_ret. pose proof (write_private s' A Hv a r va pa v k Ha Hok Hva Hres Hw Hword) as Hp.
  rw Hk Hs in Hp. split; [|by split].
  split; [split; [apply Hw|apply Hv..] | apply Hrun' | done | done | by apply (coherent_ext _ s'), Hrun'].
Qed.

Lemma user_load_spec s A a r va :
  running s A a r → user_addr va →
  wp (user_load va) (λ res s', running s' A a r ∧ spaces s' = spaces s ∧ km s' = km s ∧
    match res with
    | inl w => uword (km s) r va = Some w
    | inr e => e = EFAULT ∧ (phys r va = None ∨ tlb_full s)
    end) s.
Proof.
  intros Hrun Hva. rw /user_load. wp_step. eapply wp_mono; [apply (user_access_spec s A a r); [done|by left|apply Hva]|].
  intros [pa|e] s' (Hrun' & Hk & Hs & Hres); [|destruct Hres as [-> Hno]; apply wp_ret; by do 3 (split; [done|])].
  pose proof (run_vm _ _ _ _ Hrun') as Hv. pose proof (run_as _ _ _ _ Hrun') as Ha. pose proof (run_ok _ _ _ _ Hrun') as Hok.
  destruct (phys_frame _ _ _ Hok Hva Hres) as (H4 & _ & f & Hf & Hlo & Hup).
  wp_step. apply wp_on_heap. eapply (wp_load_live _ A f.1 f.2);
    [apply Hv | by apply (v_frames _ _ Hv _ _ _ Ha) | lia | lia | unfold MIPS_KSEG0; zlia |].
  intros w Hw. apply wp_ret. split; [split; [by apply (vm_ok_km s') | apply Hrun' | done | done | by apply (coherent_ext _ s'), Hrun']|].
  do 2 (split; [done|]). by rw /uword Hres -Hk.
Qed.

(** Taking up another process: its address space is activated. *)
Definition switch_to (b : Z) : M state unit := modify (set_curproc (Some b));; as_activate.

Lemma invalid_hi i : 0 ≤ i < 64 → TLBHI_INVALID i = 0x80000000 + i * 4096.
Proof. intros Hi. rw /TLBHI_INVALID Z.shiftl_mul_pow2 // u32_small; lia. Qed.

Lemma switch_clears s b :
  b ≠ 0 → length (tlb s) = NUM_TLB →
  wp (switch_to b) (λ _ s', ∃ t, s' = set_tlb t (set_curproc (Some b) s) ∧ ∀ r, coherent r s') s.
Proof.
  intros Hb Hlen. rw /switch_to. wp_step. wp_step. rw /as_activate. wp_step. apply wp_gets. simpl.
  rw bool_decide_eq_false_2 //. wp_step. set (s1 := set_curproc (Some b) s).
  apply (wp_for_up (λ i s', ∃ t, s' = set_tlb t s1 ∧ length t = NUM_TLB ∧
    ∀ j, (j < i)%nat → t !! j = Some (TLBHI_INVALID (Z.of_nat j), TLBLO_INVALID))).
  - exists (tlb s). split; [by destruct s|]. split; [done|]. lia.
  - intros i _s [_ Hi] (t & -> & Ht & Hset). wp_step. rw /tlb_write. wp_step.
    destruct (lookup_lt_is_Some_2 t i) as [e He]; [by rw Ht|]. eapply wp_deref; [exact He|]. wp_step. apply wp_ret.
    eexists. split; [done|]. split; [by rw length_insert|]. intros j Hj. destruct (decide (j = i)) as [->|Hne].
    + rw list_lookup_insert_eq //. by rw Ht.
    + rw list_lookup_insert_ne //. apply Hset. lia.
  - intros _s (t & -> & Ht & Hset). apply wp_ret. exists t. split; [done|]. intros r.
    assert (∀ j e, t !! j = Some e → e = (0x80000000 + Z.of_nat j * 4096, 0) ∧ (j < 64)%nat) as Hall.
    { intros j e Hj. pose proof (lookup_lt_Some _ _ _ Hj) as Hlt. rw Ht in Hlt. unfold NUM_TLB in *.
      rw Hset // in Hj. injection Hj as <-. rw invalid_hi; [done|lia]. }
    split.
    + exact Ht.
    + apply NoDup_alt. intros i j x Hi Hj. rw /= !list_lookup_fmap in Hi Hj.
      apply fmap_Some in Hi as (e & He & ->). apply fmap_Some in Hj as (e' & He' & Heq).
      apply Hall in He as [-> _]. apply Hall in He' as [-> _]. simpl in Heq. lia.
    + intros e (j & Hj)%list_elem_of_lookup Hval. apply Hall in Hj as [-> _]. done.
    + intros e (j & Hj)%list_elem_of_lookup _. apply Hall in Hj as [-> _]. simpl. unfold USERSTACK, MIPS_KSEG0. lia.
Qed.

Lemma switch_spec s A b q :
  vm_ok s A → spaces s !! b = Some q → as_ok q → length (tlb s) = NUM_TLB →
  wp (switch_to b) (λ _ s', running s' A b q ∧ km s' = km s ∧ spaces s' = spaces s) s.
Proof.
  intros Hv Hb Hok Hlen. eapply wp_mono; [apply switch_clears; [by eapply struct_nonzero|done]|].
  intros _ _s (t & -> & Hc). split; [|done]. split; [by apply (vm_ok_km s) | done..].
Qed.
