(* ===== verification/DumbvmLoad.v ===== *)
(** * Memory for an address space

    [as_prepare_load] gives an address space frames of its own, filled with
    zeros; [as_copy] makes one with the same contents. *)

From stdpp Require Import base tactics list gmap option numbers ssreflect.
From S2P Require Import Prelude Kern Kmalloc KmallocFacts KmallocPages KmallocBlocks KmallocSpec KmallocThms Dumbvm DumbvmFacts DumbvmSpace.

Open Scope Z_scope.

(** ** Part and offset of an address *)

Definition locate (r : addrspace) (va : Z) : option (nat * Z) :=
  let stackbase := USERSTACK - DUMBVM_STACKPAGES * PAGE_SIZE in
  if bool_decide (as_vbase1 r ≤ va < as_vbase1 r + as_npages1 r * PAGE_SIZE) then Some (0%nat, va - as_vbase1 r)
  else if bool_decide (as_vbase2 r ≤ va < as_vbase2 r + as_npages2 r * PAGE_SIZE) then Some (1%nat, va - as_vbase2 r)
  else if bool_decide (stackbase ≤ va < USERSTACK) then Some (2%nat, va - stackbase)
  else None.

Lemma locate_range r va i off :
  as_ok r → user_addr va → locate r va = Some (i, off) → off mod 4 = 0 ∧ ∃ f, frames r !! i = Some f ∧ 0 ≤ off < f.2.
Proof.
  intros Hok [Hva H4]. rw (frames_ok _ Hok) /locate. destruct Hok as (((? & ? & ? & ?) & (? & ? & ? & ?)) & _).
  unfold USERSTACK, MIPS_KSEG0, DUMBVM_STACKPAGES, PAGE_SIZE in *.
  repeat case_bool_decide; intros [= <- <-]; (split; [zlia|]); eexists; (split; [reflexivity|]); simpl; lia.
Qed.

Lemma phys_locate r va :
  as_ok r → user_addr va →
  phys r va = match locate r va with
              | Some (i, off) => (λ f, f.1 - MIPS_KSEG0 + off) <$> frames r !! i
              | None => None
              end.
Proof.
  intros Hok [Hva H4]. rw (frames_ok _ Hok) /locate /phys page_of // offset_of.
  destruct Hok as (((? & ? & ? & ?) & (? & ? & ? & ?)) & (? & ? & ?) & (? & ? & ?) & (? & ? & ?)).
  unfold find_paddr, DUMBVM_STACKPAGES, PAGE_SIZE, USERSTACK, MIPS_KSEG0 in *.
  rw (u32_small (as_npages1 r * 4096)); [|lia]. rw (u32_small (as_npages2 r * 4096)); [|lia].
  rw (u32_small (as_vbase1 r + _)); [|lia]. rw (u32_small (as_vbase2 r + _)); [|lia].
  repeat case_bool_decide; try (exfalso; zlia); simpl; try done; f_equal; rw u32_small; zlia.
Qed.

Lemma uword_locate k r va :
  as_ok r → user_addr va →
  uword k r va = match locate r va with
                 | Some (i, off) => frames r !! i ≫= λ f, word k (f.1 + off)
                 | None => None
                 end.
Proof.
  intros Hok Hva. rw /uword phys_locate //. destruct (locate r va) as [[i off]|]; [|done].
  destruct (frames r !! i) as [f|]; [|done]. simpl. f_equal. lia.
Qed.

(** ** A new frame *)

Lemma vm_ok_heap s A k : vm_ok s A → R k A → vm_ok (set_km k s) A.
Proof. intros [] HR. by split. Qed.

Lemma vm_ok_frame s A a r r' k p n :
  vm_ok s A → spaces s !! a = Some r → A !! p = None → R k (<[p := n]> A) → frames r' ≡ₚ (p, n) :: frames r →
  vm_ok (set_spaces (<[a := r']> (spaces s)) (set_km k s)) (<[p := n]> A).
Proof.
  intros Hv Ha Hp HR Hf.
  assert (∀ b q f, spaces s !! b = Some q → f ∈ frames q → f.1 ≠ p) as Hold.
  { intros b q f Hb Hin He. pose proof (v_frames _ _ Hv _ _ _ Hb Hin). congruence. }
  assert (∀ b q, <[a := r']> (spaces s) !! b = Some q → ∃ q0, spaces s !! b = Some q0 ∧
    ∀ f, f ∈ frames q → f ∈ frames q0 ∨ b = a ∧ f = (p, n)) as Hcase.
  { intros b q Hb. destruct (decide (b = a)) as [->|Hne].
    - rw lookup_insert_eq in Hb. injection Hb as <-. exists r. split; [done|]. intros f. rw Hf elem_of_cons. naive_solver.
    - rw lookup_insert_ne // in Hb. exists q. split; [done|]. by left. }
  split; [done | | | |]; simpl.
  - intros b q (q0 & Hq & _)%Hcase. pose proof (v_structs _ _ Hv _ _ Hq). rw lookup_insert_ne //. congruence.
  - intros b q f (q0 & Hq & Hin)%Hcase [Hf0|[_ ->]]%Hin; [|by rw lookup_insert_eq].
    rw lookup_insert_ne; [by eapply v_frames | intros He; by eapply Hold].
  - intros b q Hb. destruct (decide (b = a)) as [->|Hne].
    + rw lookup_insert_eq in Hb. injection Hb as <-. rw Hf. apply NoDup_cons. split; [|by eapply v_parts].
      intros (f & He & Hin)%list_elem_of_fmap. by apply (Hold _ _ _ Ha Hin).
    + rw lookup_insert_ne // in Hb. by eapply v_parts.
  - intros b c q q' f g (q0 & Hq & Hin)%Hcase (q1 & Hq' & Hin')%Hcase Hne [Hf0|[-> ->]]%Hin [Hg0|[-> ->]]%Hin'.
    + exact (v_private _ _ Hv _ _ _ _ _ _ Hq Hq' Hne Hf0 Hg0).
    + exact (Hold _ _ _ Hq Hf0).
    + intros He. exact (Hold _ _ _ Hq' Hg0 (eq_sym He)).
    + done.
Qed.

Definition same_regions (r r' : addrspace) : Prop :=
  as_vbase1 r' = as_vbase1 r ∧ as_npages1 r' = as_npages1 r ∧ as_vbase2 r' = as_vbase2 r ∧ as_npages2 r' = as_npages2 r.

(** A part that gets its frame. *)
Ltac new_frame H0 := rw /frames !filter_cons /= H0; repeat case_decide; try lia; solve_Permutation.

Lemma frames_pbase1 r p : as_pbase1 r = 0 → 0 < p →
  frames (set_pbase1 p r) ≡ₚ (MIPS_KSEG0 + p, as_npages1 r * PAGE_SIZE) :: frames r.
Proof. intros H0 Hp. new_frame H0. Qed.
Lemma frames_pbase2 r p : as_pbase2 r = 0 → 0 < p →
  frames (set_pbase2 p r) ≡ₚ (MIPS_KSEG0 + p, as_npages2 r * PAGE_SIZE) :: frames r.
Proof. intros H0 Hp. new_frame H0. Qed.
Lemma frames_stack r p : as_stackpbase r = 0 → 0 < p →
  frames (set_stackpbase p r) ≡ₚ (MIPS_KSEG0 + p, DUMBVM_STACKPAGES * PAGE_SIZE) :: frames r.
Proof. intros H0 Hp. new_frame H0. Qed.

Lemma keep_pbase1 r : as_pbase1 r = 0 → set_pbase1 0 r = r.
Proof. destruct r; simpl. by intros ->. Qed.
Lemma keep_pbase2 r : as_pbase2 r = 0 → set_pbase2 0 r = r.
Proof. destruct r; simpl. by intros ->. Qed.
Lemma keep_stack r : as_stackpbase r = 0 → set_stackpbase 0 r = r.
Proof. destruct r; simpl. by intros ->. Qed.

(** ** What a step of the loading leaves alone *)

(** From [s] to [s'] the address space [a] has become [r'], and the blocks in use
    have grown; they have the same contents. *)
Record loading (s : state) (A : gmap Z Z) (a : Z) (r' : addrspace) (s' : state) (A' : gmap Z Z) : Prop := {
  ld_vm : vm_ok s' A';
  ld_more : A ⊆ A';
  ld_spaces : spaces s' = <[a := r']> (spaces s);
  ld_tlb : tlb s' = tlb s;
  ld_cur : curproc s' = curproc s;
  ld_fresh : ∀ f, f ∈ frames r' → A !! f.1 = None;
  ld_words : keeps_blocks A (km s) (km s')
}.

Lemma wp_upd_as a f r (Q : unit → state → Prop) s :
  spaces s !! a = Some r → Q tt (set_spaces (<[a := f r]> (spaces s)) s) → wp (upd_as a f) Q s.
Proof. intros Ha HQ. rw /upd_as. wp_step. eapply wp_deref; [exact Ha|]. by wp_step. Qed.

(** [as_pbase = getppages(npages)] for one part. *)
Lemma frame_step s0 A0 a r s A n (set : Z → addrspace → addrspace) :
  loading s0 A0 a r s A → 1 ≤ n ≤ 2 ^ 19 → set 0 r = r →
  (∀ p, 0 < p → frames (set p r) ≡ₚ (MIPS_KSEG0 + p, n * PAGE_SIZE) :: frames r) →
  wp (getppages n) (λ p s1, wp (upd_as a (set p))
    (λ _ s', ∃ A', loading s0 A0 a (set p r) s' A' ∧ (p = 0 ∨ frame_ok p n)) s1) s.
Proof.
  intros [Hv Hsub Hs Ht Hc Hfr Hw] Hn Hset Hf. assert (spaces s !! a = Some r) as Ha by (rw Hs; apply lookup_insert_eq).
  eapply wp_mono; [apply getppages_spec; [apply Hv|done]|].
  intros p _s (k & -> & Hmem & Hres). eapply wp_upd_as; [exact Ha|].
  assert (keeps_blocks A0 (km s0) k) as Hkeep.
  { intros b m x Hb Hx. transitivity (word (km s) x); [by rw /word Hmem | by eapply Hw]. }
  assert (<[a := set p r]> (spaces s) = <[a := set p r]> (spaces s0)) as Hsp by (rw Hs insert_insert_eq //).
  destruct Hres as [[-> HR]|(Hp0 & Hpm & Hhi & Hnone & HR)].
  - exists A. split; [|by left]. rw Hset in Hsp |- *. split; simpl; try done.
    rw insert_id //. by apply (vm_ok_heap s).
  - exists (<[MIPS_KSEG0 + p := n * PAGE_SIZE]> A). split; [|right; by split]. split; simpl; try done.
    + by eapply vm_ok_frame; [..|apply Hf].
    + transitivity A; [done|]. by apply insert_subseteq.
    + intros f. rw Hf // elem_of_cons. intros [->|Hin]; [|by apply Hfr]. by eapply lookup_weaken_None.
Qed.

(** ** Filling the frames *)

(** The words of a frame. *)
Definition content (k : Kmalloc.state) (f : Z * Z) (w : Z → option Z) : Prop :=
  ∀ i, 0 ≤ i < f.2 → i mod 4 = 0 → word k (f.1 + i) = w i.

Definition apart (f g : Z * Z) : Prop := f.1 + f.2 ≤ g.1 ∨ g.1 + g.2 ≤ f.1.

Lemma content_other A k k' f g w : wrote A f.1 f.2 k k' → apart f g → content k g w → content k' g w.
Proof. intros (_ & _ & Hw) Ha Hc i Hi Hm. unfold apart in Ha. rw Hw; [by apply Hc|lia]. Qed.

Lemma frame_write s0 A0 a r s A f k :
  loading s0 A0 a r s A → f ∈ frames r → wrote A f.1 f.2 (km s) k → loading s0 A0 a r (set_km k s) A.
Proof.
  intros [Hv Hsub Hs Ht Hc Hfr Hw] Hf (HR & Hfirst & Hwr). split; try done; [by apply vm_ok_heap|].
  intros b n x Hb Hx. transitivity (word (km s) x); [|by eapply Hw]. apply Hwr.
  assert (A !! b = Some n) as Hb' by (by eapply lookup_weaken).
  assert (spaces s !! a = Some r) as Ha by (rw Hs; apply lookup_insert_eq).
  destruct (R_separate _ _ (v_heap _ _ Hv)) as [_ Hsep].
  destruct (Hsep _ _ _ _ Hb' (v_frames _ _ Hv _ _ _ Ha Hf)); [|lia..]. intros He. pose proof (Hfr _ Hf). congruence.
Qed.

Lemma frames_all_apart s A a r i j f g :
  vm_ok s A → spaces s !! a = Some r → frames r !! i = Some f → frames r !! j = Some g → i ≠ j → apart f g.
Proof.
  intros Hv Ha Hf Hg Hij. destruct (R_separate _ _ (v_heap _ _ Hv)) as [_ Hsep].
  apply (Hsep _ _ _ _ (v_frames _ _ Hv _ _ _ Ha (list_elem_of_lookup_2 _ _ _ Hf)) (v_frames _ _ Hv _ _ _ Ha (list_elem_of_lookup_2 _ _ _ Hg))).
  intros He. apply Hij. eapply NoDup_lookup; [by apply (v_parts _ _ Hv _ _ Ha) | |]; rw list_lookup_fmap.
  - by rw Hf.
  - by rw Hg /= He.
Qed.

Lemma kvaddr p : 0 < p → p < 2 ^ 29 → PADDR_TO_KVADDR p = MIPS_KSEG0 + p.
Proof. intros. rw /PADDR_TO_KVADDR u32_small; unfold MIPS_KSEG0; lia. Qed.

Lemma zero_step s0 A0 a r s A p n :
  loading s0 A0 a r s A → (MIPS_KSEG0 + p, n * PAGE_SIZE) ∈ frames r → frame_ok p n → 1 ≤ n →
  wp (as_zero_region p n) (λ _ s', loading s0 A0 a r s' A ∧
    wrote A (MIPS_KSEG0 + p) (n * PAGE_SIZE) (km s) (km s') ∧
    content (km s') (MIPS_KSEG0 + p, n * PAGE_SIZE) (λ _, Some 0)) s.
Proof.
  intros Hld Hf (H0 & Hm & Hhi) Hn. pose proof (ld_vm _ _ _ _ _ _ Hld) as Hv.
  assert (spaces s !! a = Some r) as Ha by (rw (ld_spaces _ _ _ _ _ _ Hld); apply lookup_insert_eq).
  unfold PAGE_SIZE in *. rw /as_zero_region kvaddr; [|lia..]. rw u32_small; [|unfold PAGE_SIZE; lia].
  apply wp_on_heap. eapply wp_mono.
  { apply (bzero_words_spec _ A); [apply Hv | exact (v_frames _ _ Hv _ _ _ Ha Hf) | unfold MIPS_KSEG0; zlia | unfold PAGE_SIZE; lia | unfold PAGE_SIZE; zlia]. }
  intros _ k [Hw Hz]. split; [by eapply frame_write|]. by split.
Qed.

Lemma copy_step s0 A0 a r s A p n src m :
  loading s0 A0 a r s A → (MIPS_KSEG0 + p, n * PAGE_SIZE) ∈ frames r → frame_ok p n → 1 ≤ n →
  A0 !! (MIPS_KSEG0 + src) = Some (n * PAGE_SIZE) → frame_ok src m →
  wp (copy_pages p src n) (λ _ s', loading s0 A0 a r s' A ∧
    wrote A (MIPS_KSEG0 + p) (n * PAGE_SIZE) (km s) (km s') ∧
    content (km s') (MIPS_KSEG0 + p, n * PAGE_SIZE) (λ i, word (km s0) (MIPS_KSEG0 + src + i))) s.
Proof.
  intros Hld Hf (H0 & Hm & Hhi) Hn Hsrc (Hs0 & Hsm & Hshi). pose proof (ld_vm _ _ _ _ _ _ Hld) as Hv.
  assert (spaces s !! a = Some r) as Ha by (rw (ld_spaces _ _ _ _ _ _ Hld); apply lookup_insert_eq).
  pose proof (ld_fresh _ _ _ _ _ _ Hld _ Hf) as Hfr. pose proof (lookup_weaken _ _ _ _ Hsrc (ld_more _ _ _ _ _ _ Hld)) as Hsrc'.
  destruct (R_separate _ _ (v_heap _ _ Hv)) as [Hrange _]. destruct (Hrange _ _ Hsrc') as (_ & _ & Hend).
  destruct (R_kseg _ _ (v_heap _ _ Hv)) as (_ & _ & Hlast).
  unfold PAGE_SIZE in *. rw /copy_pages !kvaddr; [|lia..]. rw u32_small; [|unfold PAGE_SIZE; lia].
  apply wp_on_heap. eapply wp_mono.
  { apply (memmove_words_spec _ A _ _ _ (n * 4096)); [apply Hv | exact (v_frames _ _ Hv _ _ _ Ha Hf) | exact Hsrc' | | unfold PAGE_SIZE; lia |
      unfold MIPS_KSEG0; zlia | unfold MIPS_KSEG0; zlia | unfold PAGE_SIZE; lia | unfold PAGE_SIZE; zlia].
    intros He. simpl in Hfr. rw He in Hfr. congruence. }
  intros _ k [Hw Hz]. split; [by eapply frame_write|]. split; [done|]. intros i Hi Hi4. simpl in Hi |- *. rw Hz //.
  apply (ld_words _ _ _ _ _ _ Hld _ _ _ Hsrc). lia.
Qed.

(** ** as_prepare_load *)

Lemma loading_refl s A a r : vm_ok s A → spaces s !! a = Some r → frames r = [] → loading s A a r s A.
Proof. intros Hv Ha Hf. split; try done; [by rw insert_id|]. intros f. rw Hf. by intros ?%elem_of_nil. Qed.

Definition empty_as (r : addrspace) : Prop := as_pbase1 r = 0 ∧ as_pbase2 r = 0 ∧ as_stackpbase r = 0.

Lemma empty_frames r : empty_as r → frames r = [].
Proof. intros (H1 & H2 & H3). by rw /frames !filter_cons /= H1 H2 H3. Qed.

Definition full_as (r : addrspace) (p1 p2 p3 : Z) : addrspace := set_stackpbase p3 (set_pbase2 p2 (set_pbase1 p1 r)).

(** The frames have been given out and cleared, or memory has run out on the
    way. *)
Definition prepared (s : state) (A : gmap Z Z) (a : Z) (r : addrspace) (res : Z) (s' : state) : Prop :=
  ∃ r' A', loading s A a r' s' A' ∧ same_regions r r' ∧
    (res = ENOMEM ∨ res = 0 ∧ as_ok r' ∧ ∀ f, f ∈ frames r' → content (km s') f (λ _, Some 0)).

Lemma zero_all s0 A0 a r s A p1 p2 p3 :
  loading s0 A0 a (full_as r p1 p2 p3) s A → as_ok (full_as r p1 p2 p3) →
  wp (as_zero_region p1 (as_npages1 r);; as_zero_region p2 (as_npages2 r);; as_zero_region p3 DUMBVM_STACKPAGES;; mret 0)
    (λ res s', res = 0 ∧ loading s0 A0 a (full_as r p1 p2 p3) s' A ∧
      ∀ f, f ∈ frames (full_as r p1 p2 p3) → content (km s') f (λ _, Some 0)) s.
Proof.
  intros Hld Hok. pose proof (frames_ok _ Hok) as Hfr. pose proof (ld_vm _ _ _ _ _ _ Hld) as Hv.
  assert (spaces s !! a = Some (full_as r p1 p2 p3)) as Ha by (rw (ld_spaces _ _ _ _ _ _ Hld); apply lookup_insert_eq).
  pose proof (λ f g, frames_all_apart s A a _ 1 0 f g Hv Ha) as A10. pose proof (λ f g, frames_all_apart s A a _ 2 0 f g Hv Ha) as A20.
  pose proof (λ f g, frames_all_apart s A a _ 2 1 f g Hv Ha) as A21. rw Hfr /= in A10, A20, A21.
  specialize (A10 _ _ eq_refl eq_refl ltac:(done)). specialize (A20 _ _ eq_refl eq_refl ltac:(done)).
  specialize (A21 _ _ eq_refl eq_refl ltac:(done)).
  destruct Hok as (((_ & _ & Hn1 & _) & (_ & _ & Hn2 & _)) & F1 & F2 & F3). simpl in *.
  wp_step. eapply wp_mono; [by apply (zero_step _ _ _ _ _ _ _ _ Hld); [rw Hfr; left | |]|].
  intros _ s1 (Hld1 & _ & C1). wp_step. eapply wp_mono; [by apply (zero_step _ _ _ _ _ _ _ _ Hld1); [rw Hfr; right; left | |]|].
  intros _ s2 (Hld2 & W2 & C2). wp_step. eapply wp_mono; [by apply (zero_step _ _ _ _ _ _ _ _ Hld2); [rw Hfr; right; right; left | |]|].
  intros _ s3 (Hld3 & W3 & C3). apply wp_ret. split; [done|]. split; [done|]. intros f. rw Hfr.
  intros [->|[->|[->|[]%elem_of_nil]%elem_of_cons]%elem_of_cons]%elem_of_cons; [| |exact C3].
  - eapply (content_other A _ _ (_, _)); [exact W3 | exact A20 |]. eapply (content_other A _ _ (_, _)); [exact W2 | exact A10 | exact C1].
  - eapply (content_other A _ _ (_, _)); [exact W3 | exact A21 | exact C2].
Qed.

Lemma as_prepare_load_spec s A a r :
  vm_ok s A → spaces s !! a = Some r → layout r → empty_as r →
  wp (as_prepare_load a) (prepared s A a r) s.
Proof.
  intros Hv Ha Hlay Hem. pose proof Hem as (E1 & E2 & E3). pose proof (v_heap _ _ Hv) as [Hlock _].
  pose proof Hlay as ((H1 & H2 & Hn1 & H4) & (H5 & H6 & Hn2 & H8)). unfold USERSTACK, MIPS_KSEG0, PAGE_SIZE in H4, H8.
  pose proof (loading_refl s A a r Hv Ha (empty_frames _ Hem)) as Hld. rw /as_prepare_load.
  wp_step. eapply wp_deref; [exact Ha|]. wp_step. apply wp_kassert; [by apply bool_decide_eq_true_2|].
  wp_step. apply wp_kassert; [by apply bool_decide_eq_true_2|]. wp_step. apply wp_kassert; [by apply bool_decide_eq_true_2|].
  wp_step. rw /dumbvm_can_sleep. wp_step. wp_step. apply wp_kassert; [by rw Hlock|]. wp_step.
  eapply wp_mono; [apply (frame_step _ _ _ _ _ _ _ set_pbase1 Hld); [lia | by apply keep_pbase1 | intros p; by apply frames_pbase1]|].
  intros p1 s1 Hs1. wp_step. eapply wp_mono; [exact Hs1|]. intros _ s2 (A1 & Hld1 & F1). clear s1 Hs1.
  bd_case (p1 = 0) as Hp1; [apply wp_ret; exists (set_pbase1 p1 r), A1; split; [done|]; split; [done|]; by left|]. destruct F1 as [->|F1]; [done|].
  wp_step. eapply wp_mono; [apply (frame_step _ _ _ _ _ _ _ set_pbase2 Hld1); [simpl; lia | by apply keep_pbase2 | intros p; by apply (frames_pbase2 (set_pbase1 p1 r))]|].
  intros p2 s3 Hs3. wp_step. eapply wp_mono; [exact Hs3|]. intros _ s4 (A2 & Hld2 & F2). clear s3 Hs3.
  bd_case (p2 = 0) as Hp2; [apply wp_ret; eexists _, A2; split; [exact Hld2|]; split; [done|]; by left|]. destruct F2 as [->|F2]; [done|].
  wp_step. eapply wp_mono; [apply (frame_step _ _ _ _ _ _ _ set_stackpbase Hld2); [unfold DUMBVM_STACKPAGES; lia | by apply keep_stack | intros p; by apply (frames_stack (set_pbase2 p2 (set_pbase1 p1 r)))]|].
  intros p3 s5 Hs5. wp_step. eapply wp_mono; [exact Hs5|]. intros _ s6 (A3 & Hld3 & F3). clear s5 Hs5.
  bd_case (p3 = 0) as Hp3; [apply wp_ret; eexists _, A3; split; [exact Hld3|]; split; [done|]; by left|]. destruct F3 as [->|F3]; [done|].
  eapply wp_mono; [apply (zero_all _ _ _ r _ _ p1 p2 p3 Hld3); by split|].
  intros res s' (-> & Hld' & Hz). exists (full_as r p1 p2 p3), A3. split; [done|]. split; [done|]. right. by split.
Qed.
