(* ===== verification/DumbvmThms.v ===== *)
(** * What dumbvm guarantees

    Processes have memory of their own, through the TLB and across forks. *)

From stdpp Require Import base tactics list gmap option numbers ssreflect.
From S2P Require Import Prelude Kern Kmalloc KmallocFacts KmallocPages KmallocBlocks KmallocSpec KmallocThms.
From S2P Require Import Dumbvm DumbvmFacts DumbvmSpace DumbvmTlb DumbvmLoad.

Open Scope Z_scope.

(** ** Creating and destroying address spaces *)

Lemma frame_size r f : f ∈ frames r → f.2 ≠ SIZEOF_ADDRSPACE.
Proof.
  intros [_ Hf]%list_elem_of_filter. unfold SIZEOF_ADDRSPACE, PAGE_SIZE in *.
  apply elem_of_cons in Hf as [->|[->|[->|[]%elem_of_nil]%elem_of_cons]%elem_of_cons]; simpl; lia.
Qed.

Lemma struct_not_frame s A a b r f : vm_ok s A → is_Some (spaces s !! a) → spaces s !! b = Some r → f ∈ frames r → f.1 ≠ a.
Proof.
  intros Hv [q Ha] Hb Hf He. pose proof (v_structs _ _ Hv _ _ Ha) as Hs. pose proof (v_frames _ _ Hv _ _ _ Hb Hf) as Hf'.
  rw He Hs in Hf'. injection Hf' as Hf'. by apply (frame_size r f Hf).
Qed.

(** The fields of a struct that say nothing about frames change. *)
Lemma vm_ok_same_frames s A a r r' :
  vm_ok s A → spaces s !! a = Some r → frames r' = frames r → vm_ok (set_spaces (<[a := r']> (spaces s)) s) A.
Proof.
  intros Hv Ha Hf.
  assert (∀ b q, <[a := r']> (spaces s) !! b = Some q → ∃ q0, spaces s !! b = Some q0 ∧ frames q = frames q0) as Hcase.
  { intros b q Hb. destruct (decide (b = a)) as [->|Hne].
    - rw lookup_insert_eq in Hb. injection Hb as <-. by exists r.
    - rw lookup_insert_ne // in Hb. by exists q. }
  split; simpl; [apply Hv | | | |].
  - intros b q (q0 & Hb & _)%Hcase. by apply (v_structs _ _ Hv _ _ Hb).
  - intros b q f (q0 & Hb & ->)%Hcase. by apply (v_frames _ _ Hv _ _ _ Hb).
  - intros b q (q0 & Hb & ->)%Hcase. by apply (v_parts _ _ Hv _ _ Hb).
  - intros b c q q' f g (q0 & Hb & ->)%Hcase (q1 & Hc & ->)%Hcase Hne. by apply (v_private _ _ Hv _ _ _ _ _ _ Hb Hc).
Qed.

Lemma vm_ok_new s A a r k :
  vm_ok s A → A !! a = None → R k (<[a := SIZEOF_ADDRSPACE]> A) → frames r = [] →
  vm_ok (set_spaces (<[a := r]> (spaces s)) (set_km k s)) (<[a := SIZEOF_ADDRSPACE]> A) ∧ spaces s !! a = None.
Proof.
  intros Hv Ha HR Hf.
  assert (spaces s !! a = None) as Hna.
  { destruct (spaces s !! a) as [q|] eqn:Hq; [|done]. pose proof (v_structs _ _ Hv _ _ Hq). congruence. }
  split; [|done].
  assert (∀ b q f, <[a := r]> (spaces s) !! b = Some q → f ∈ frames q → spaces s !! b = Some q) as Hold.
  { intros b q f Hb Hin. destruct (decide (b = a)) as [->|Hne]; [|by rw lookup_insert_ne in Hb].
    rw lookup_insert_eq in Hb. injection Hb as <-. rw Hf in Hin. by apply elem_of_nil in Hin. }
  split; simpl; [done | | | |].
  - intros b q Hb. destruct (decide (b = a)) as [->|Hne]; [by rw lookup_insert_eq|].
    rw lookup_insert_ne // in Hb. rw lookup_insert_ne //. by apply (v_structs _ _ Hv _ _ Hb).
  - intros b q f Hb Hin. pose proof (v_frames _ _ Hv _ _ _ (Hold _ _ _ Hb Hin) Hin) as Hfr. rw lookup_insert_ne //. congruence.
  - intros b q Hb. destruct (decide (b = a)) as [->|Hne].
    + rw lookup_insert_eq in Hb. injection Hb as <-. rw Hf. constructor.
    + rw lookup_insert_ne // in Hb. by apply (v_parts _ _ Hv _ _ Hb).
  - intros b c q q' f g Hb Hc Hne Hin Hin'.
    exact (v_private _ _ Hv _ _ _ _ _ _ (Hold _ _ _ Hb Hin) (Hold _ _ _ Hc Hin') Hne Hin Hin').
Qed.

Lemma vm_ok_delete s A a k : vm_ok s A → is_Some (spaces s !! a) → R k (delete a A) →
  vm_ok (set_km k (set_spaces (delete a (spaces s)) s)) (delete a A).
Proof.
  intros Hv Ha HR. split; simpl; [done | | | |].
  - intros b q [Hne Hb]%lookup_delete_Some. rw lookup_delete_ne //. by apply (v_structs _ _ Hv _ _ Hb).
  - intros b q f [Hne Hb]%lookup_delete_Some Hin. rw lookup_delete_ne; [by apply (v_frames _ _ Hv _ _ _ Hb)|].
    intros He. by apply (struct_not_frame _ _ _ _ _ _ Hv Ha Hb Hin).
  - intros b q [Hne Hb]%lookup_delete_Some. by apply (v_parts _ _ Hv _ _ Hb).
  - intros b c q q' f g [_ Hb]%lookup_delete_Some [_ Hc]%lookup_delete_Some. by apply (v_private _ _ Hv _ _ _ _ _ _ Hb Hc).
Qed.

Definition no_regions : addrspace := Addrspace 0 0 0 0 0 0 0.

Lemma as_create_spec s A :
  vm_ok s A →
  wp as_create (λ a s', keeps_blocks A (km s) (km s') ∧ tlb s' = tlb s ∧ curproc s' = curproc s ∧
    (a = 0 ∧ vm_ok s' A ∧ spaces s' = spaces s ∨
     a ≠ 0 ∧ A !! a = None ∧ spaces s !! a = None ∧ vm_ok s' (<[a := SIZEOF_ADDRSPACE]> A) ∧
       spaces s' = <[a := no_regions]> (spaces s))) s.
Proof.
  intros Hv. rw /as_create. wp_step. apply wp_on_heap. eapply wp_mono; [apply (kmalloc_works _ A); [apply Hv|by unfold SIZEOF_ADDRSPACE]|].
  intros a k (Hkeep & [(-> & HR & _)|(Ha0 & Hna & HR & _)]).
  - rw bool_decide_eq_true_2; [|done]. apply wp_ret. do 3 (split; [done|]). left. split; [done|]. split; [by apply vm_ok_heap|done].
  - rw bool_decide_eq_false_2 //. wp_step. wp_step. apply wp_ret. do 3 (split; [done|]). right.
    destruct (vm_ok_new s A a no_regions k Hv Hna HR) as [Hv' Hnone]; [done|]. by do 4 (split; [done|]).
Qed.

Lemma as_destroy_spec s A a :
  vm_ok s A → is_Some (spaces s !! a) →
  wp (as_destroy a) (λ _ s', vm_ok s' (delete a A) ∧ spaces s' = delete a (spaces s) ∧
    keeps_blocks (delete a A) (km s) (km s') ∧ tlb s' = tlb s ∧ curproc s' = curproc s) s.
Proof.
  intros Hv Ha. pose proof Ha as [r Hr]. pose proof (v_heap _ _ Hv) as HR. pose proof HR as [Hlock _].
  rw /as_destroy. wp_step. rw /dumbvm_can_sleep. wp_step. wp_step. apply wp_kassert; [by rw Hlock|]. wp_step. wp_step.
  apply wp_on_heap. eapply wp_mono; [apply (kfree_works _ A _ SIZEOF_ADDRSPACE); [done|by eapply v_structs]|].
  intros _ k [HR' Hk]. split; [by apply vm_ok_delete|]. done.
Qed.

(** ** Copying *)

(** The same contents in two address spaces of the same regions. *)
Lemma same_contents k k' o n :
  as_ok o → as_ok n → same_regions o n →
  (∀ i f g, frames o !! i = Some f → frames n !! i = Some g → content k' g (λ j, word k (f.1 + j))) →
  ∀ va, user_addr va → uword k' n va = uword k o va.
Proof.
  intros Ho Hn (E1 & E2 & E3 & E4) Hc va Hva. rw !uword_locate //.
  assert (locate n va = locate o va) as -> by (by rw /locate E1 E2 E3 E4).
  destruct (locate o va) as [[i off]|] eqn:Hl; [|done].
  destruct (locate_range o va i off Ho Hva Hl) as (H4 & f & Hf & Hoff). rw Hf /=.
  assert (locate n va = Some (i, off)) as Hl' by (by rw -Hl /locate E1 E2 E3 E4).
  destruct (locate_range n va i off Hn Hva Hl') as (_ & g & Hg & Hoff'). rw Hg /=. by apply (Hc i f g).
Qed.

Lemma copy_all s0 A0 a n s A o :
  loading s0 A0 a n s A → as_ok n → as_ok o → same_regions o n →
  (∀ f, f ∈ frames o → A0 !! f.1 = Some f.2) →
  wp (copy_pages (as_pbase1 n) (as_pbase1 o) (as_npages1 o);; copy_pages (as_pbase2 n) (as_pbase2 o) (as_npages2 o);;
      copy_pages (as_stackpbase n) (as_stackpbase o) DUMBVM_STACKPAGES;; mret (0, a))
    (λ res s', res = (0, a) ∧ loading s0 A0 a n s' A ∧ ∀ va, user_addr va → uword (km s') n va = uword (km s0) o va) s.
Proof.
  intros Hld Hn Ho Hsame Hown. pose proof (frames_ok _ Hn) as Hfr. pose proof (frames_ok _ Ho) as Hfo.
  pose proof (ld_vm _ _ _ _ _ _ Hld) as Hv. pose proof Hsame as (_ & E1 & _ & E2).
  assert (spaces s !! a = Some n) as Ha by (rw (ld_spaces _ _ _ _ _ _ Hld); apply lookup_insert_eq).
  pose proof (λ f g, frames_all_apart s A a _ 1 0 f g Hv Ha) as A10. pose proof (λ f g, frames_all_apart s A a _ 2 0 f g Hv Ha) as A20.
  pose proof (λ f g, frames_all_apart s A a _ 2 1 f g Hv Ha) as A21. rw Hfr /= in A10, A20, A21.
  specialize (A10 _ _ eq_refl eq_refl ltac:(done)). specialize (A20 _ _ eq_refl eq_refl ltac:(done)).
  specialize (A21 _ _ eq_refl eq_refl ltac:(done)). rw -E1 -E2.
  pose proof Hn as (((_ & _ & Hn1 & _) & (_ & _ & Hn2 & _)) & F1 & F2 & F3). pose proof Ho as (_ & G1 & G2 & G3).
  wp_step. eapply wp_mono; [eapply (copy_step _ _ _ _ _ _ _ _ (as_pbase1 o) _ Hld); [rw Hfr; left | exact F1 | exact Hn1 | | exact G1]|].
  { apply (Hown (_, _)). rw Hfo E1. left. }
  intros _ s1 (Hld1 & _ & C1). wp_step.
  eapply wp_mono; [eapply (copy_step _ _ _ _ _ _ _ _ (as_pbase2 o) _ Hld1); [rw Hfr; right; left | exact F2 | exact Hn2 | | exact G2]|].
  { apply (Hown (_, _)). rw Hfo E2. right. left. }
  intros _ s2 (Hld2 & W2 & C2). wp_step.
  eapply wp_mono; [eapply (copy_step _ _ _ _ _ _ _ _ (as_stackpbase o) _ Hld2); [rw Hfr; right; right; left | exact F3 | done | | exact G3]|].
  { apply (Hown (_, _)). rw Hfo. right. right. left. }
  intros _ s3 (Hld3 & W3 & C3). apply wp_ret. split; [done|]. split; [done|]. apply same_contents; [done..|].
  intros i f g Hf Hg. rw Hfo in Hf. rw Hfr in Hg. destruct i as [|[|[|i]]]; simpl in Hf, Hg; [| | |discriminate]; injection Hf as <-; injection Hg as <-; simpl.
  - eapply (content_other A _ _ (_, _)); [exact W3 | exact A20 |]. eapply (content_other A _ _ (_, _)); [exact W2 | exact A10 | exact C1].
  - eapply (content_other A _ _ (_, _)); [exact W3 | exact A21 | exact C2].
  - exact C3.
Qed.

Lemma keeps_blocks_trans A k1 k2 k3 : keeps_blocks A k1 k2 → keeps_blocks A k2 k3 → keeps_blocks A k1 k3.
Proof. intros H1 H2 a n x Ha Hx. rw (H2 a n) //. by apply (H1 a n). Qed.

Lemma keeps_blocks_sub A B k1 k2 : A ⊆ B → keeps_blocks B k1 k2 → keeps_blocks A k1 k2.
Proof. intros Hs Hk a n x Ha Hx. apply (Hk a n); [by eapply lookup_weaken|done]. Qed.

(** What the words of an address space depend on. *)
Lemma uword_keeps s A a r k' :
  vm_ok s A → spaces s !! a = Some r → as_ok r → keeps_blocks A (km s) k' → ∀ va, user_addr va → uword k' r va = uword (km s) r va.
Proof.
  intros Hv Ha Hok Hk va Hva. rw /uword. destruct (phys r va) as [pa|] eqn:Hp; [|done]. simpl.
  destruct (phys_frame _ _ _ Hok Hva Hp) as (_ & _ & f & Hf & Hlo & Hup).
  apply (Hk f.1 f.2); [by apply (v_frames _ _ Hv _ _ _ Ha)|lia].
Qed.

(** The outcome of [as_copy]: memory has run out and nothing has changed, or a new
    address space with the same contents. *)
Definition copied_as (s : state) (A : gmap Z Z) (o : addrspace) (res : Z * Z) (s' : state) : Prop :=
  ∃ A', A ⊆ A' ∧ vm_ok s' A' ∧ tlb s' = tlb s ∧ curproc s' = curproc s ∧ keeps_blocks A (km s) (km s') ∧
    (res = (ENOMEM, 0) ∧ spaces s' = spaces s ∨
     ∃ new n, res = (0, new) ∧ new ≠ 0 ∧ spaces s !! new = None ∧ spaces s' = <[new := n]> (spaces s) ∧ as_ok n ∧ same_regions o n ∧
       ∀ va, user_addr va → uword (km s') n va = uword (km s) o va).

Lemma as_copy_spec s A old o :
  vm_ok s A → spaces s !! old = Some o → as_ok o → wp (as_copy old) (copied_as s A o) s.
Proof.
  intros Hv Hold Ho. pose proof (v_heap _ _ Hv) as [Hlock _]. rw /as_copy. wp_step. rw /dumbvm_can_sleep.
  wp_step. wp_step. apply wp_kassert; [by rw Hlock|]. wp_step. eapply wp_mono; [by apply as_create_spec|].
  intros new s1 (Hk1 & Ht1 & Hc1 & [(-> & Hv1 & Hs1)|(Hnew0 & HnA & Hnone & Hv1 & Hs1)]).
  { rw bool_decide_eq_true_2; [|done]. apply wp_ret. exists A. do 5 (split; [done|]). by left. }
  rw bool_decide_eq_false_2 //. assert (new ≠ old) as Hne by (intros ->; congruence).
  wp_step. eapply wp_deref; [by rw Hs1 lookup_insert_ne|]. wp_step. eapply wp_upd_as; [by rw Hs1 lookup_insert_eq|].
  wp_step. eapply wp_upd_as; [apply lookup_insert_eq|]. rw /= insert_insert_eq Hs1 insert_insert_eq.
  set (r := set_region2 _ _ _). set (s2 := set_spaces _ (set_spaces _ s1)).
  assert (spaces s2 !! new = Some r) as Hr by apply lookup_insert_eq.
  assert (vm_ok s2 (<[new := SIZEOF_ADDRSPACE]> A)) as Hv2.
  { pose proof (vm_ok_same_frames s1 _ new no_regions r Hv1) as Hsf. rw Hs1 lookup_insert_eq insert_insert_eq in Hsf.
    destruct (Hsf eq_refl eq_refl). by split. }
  wp_step. eapply wp_mono; [apply (as_prepare_load_spec s2 _ new r Hv2 Hr); [apply Ho|done]|].
  assert (A ⊆ <[new := SIZEOF_ADDRSPACE]> A) as Hsub by (by apply insert_subseteq).
  intros res s3 (n & A3 & Hld & Hsame & Hres). pose proof (ld_more _ _ _ _ _ _ Hld) as Hmore.
  assert (keeps_blocks A (km s) (km s3)) as Hk3.
  { eapply keeps_blocks_trans; [exact Hk1|]. eapply keeps_blocks_sub; [exact Hsub|]. exact (ld_words _ _ _ _ _ _ Hld). }
  assert (spaces s3 = <[new := n]> (spaces s)) as Hs3 by (by rw (ld_spaces _ _ _ _ _ _ Hld) /= insert_insert_eq).
  destruct Hres as [->|(-> & Hn & _)].
  - rw bool_decide_eq_true_2; [|done]. wp_step.
    eapply wp_mono; [apply (as_destroy_spec s3 A3); [apply Hld | rw Hs3 lookup_insert_eq; by eexists]|].
    intros _ s4 (Hv4 & Hs4 & Hk4 & Ht4 & Hc4). apply wp_ret. exists (delete new A3).
    assert (A ⊆ delete new A3) as Hsub4.
    { apply map_subseteq_spec. intros a m Ha. rw lookup_delete_ne; [|congruence].
      eapply lookup_weaken; [|exact Hmore]. by eapply lookup_weaken. }
    split; [done|]. split; [done|]. split; [by rw Ht4 (ld_tlb _ _ _ _ _ _ Hld)|]. split; [by rw Hc4 (ld_cur _ _ _ _ _ _ Hld)|].
    split; [eapply keeps_blocks_trans; [exact Hk3 | by eapply keeps_blocks_sub]|]. left. split; [done|].
    by rw Hs4 Hs3 delete_insert_id.
  - rw bool_decide_eq_false_2; [|by intros []].
    pose proof Hn as (_ & (? & _) & (? & _) & (? & _)).
    wp_step. eapply wp_deref; [rw Hs3; apply lookup_insert_eq|].
    wp_step. apply wp_kassert; [apply bool_decide_eq_true_2; lia|]. wp_step. apply wp_kassert; [apply bool_decide_eq_true_2; lia|].
    wp_step. apply wp_kassert; [apply bool_decide_eq_true_2; lia|]. wp_step. eapply wp_deref; [by rw Hs3 lookup_insert_ne|].
    eapply wp_mono; [apply (copy_all _ _ _ _ _ _ o Hld Hn Ho Hsame)|].
    { intros f Hf. eapply lookup_weaken; [|exact Hsub]. by apply (v_frames _ _ Hv _ _ _ Hold). }
    intros res s4 (-> & Hld4 & Hcopy). exists A3. split; [by transitivity (<[new := SIZEOF_ADDRSPACE]> A)|]. split; [apply Hld4|].
    split; [by rw (ld_tlb _ _ _ _ _ _ Hld4)|]. split; [by rw (ld_cur _ _ _ _ _ _ Hld4)|]. split.
    { eapply keeps_blocks_trans; [exact Hk1|]. eapply keeps_blocks_sub; [exact Hsub|]. exact (ld_words _ _ _ _ _ _ Hld4). }
    right. exists new, n. split; [done|]. split; [done|]. split; [done|].
    split; [by rw (ld_spaces _ _ _ _ _ _ Hld4) /= insert_insert_eq|]. split; [done|]. split; [done|].
    intros va Hva. rw Hcopy //. by eapply (uword_keeps s A).
Qed.

(** ** Setting up an address space *)

(** The pages that [as_define_region] takes for [sz] bytes at [vaddr]. *)
Definition region_base (vaddr : Z) : Z := vaddr - vaddr mod PAGE_SIZE.
Definition region_pages (vaddr sz : Z) : Z := (vaddr mod PAGE_SIZE + sz + PAGE_SIZE - 1) / PAGE_SIZE.

Lemma region_pages_ok vaddr sz :
  PAGE_SIZE ≤ vaddr → 0 < sz → vaddr + sz ≤ USERSTACK →
  region_ok (region_base vaddr) (region_pages vaddr sz) ∧
  region_base vaddr ≤ vaddr ∧ vaddr + sz ≤ region_base vaddr + region_pages vaddr sz * PAGE_SIZE.
Proof.
  intros Hv Hsz Hhi. unfold region_ok, region_base, region_pages, USERSTACK, MIPS_KSEG0, PAGE_SIZE in *.
  split; [|zlia]. split; [zlia|]. split; [zlia|]. split; zlia.
Qed.

Lemma define_pages vaddr sz :
  PAGE_SIZE ≤ vaddr → 0 < sz → vaddr + sz ≤ USERSTACK →
  Z.land vaddr PAGE_FRAME = region_base vaddr ∧
  Z.land (u32 (u32 (sz + Z.land vaddr 0xfff) + PAGE_SIZE - 1)) PAGE_FRAME / PAGE_SIZE = region_pages vaddr sz.
Proof.
  intros Hv Hsz Hhi. unfold region_base, region_pages. rw offset_of.
  unfold USERSTACK, MIPS_KSEG0, PAGE_SIZE in *. split; [rw page_of; unfold PAGE_SIZE; lia|].
  assert (0 ≤ vaddr mod 4096 < 4096) by zlia.
  rw (u32_small (sz + _)); [|lia]. rw u32_small; [|lia]. rw page_of; [|lia]. unfold PAGE_SIZE.
  replace (vaddr mod 4096 + sz + 4096 - 1) with (sz + vaddr mod 4096 + 4096 - 1) by lia. zlia.
Qed.

(** The first call defines the first region, the second one the second. *)
Lemma define_region s A a r vaddr sz (set : Z → Z → addrspace → addrspace) :
  vm_ok s A → spaces s !! a = Some r → empty_as r → PAGE_SIZE ≤ vaddr → 0 < sz → vaddr + sz ≤ USERSTACK →
  as_vbase1 r = 0 ∧ set = set_region1 ∨ as_vbase1 r ≠ 0 ∧ as_vbase2 r = 0 ∧ set = set_region2 →
  wp (as_define_region a vaddr sz) (λ res s', res = 0 ∧ vm_ok s' A ∧
    s' = set_spaces (<[a := set (region_base vaddr) (region_pages vaddr sz) r]> (spaces s)) s) s.
Proof.
  intros Hv Ha Hem Hva Hsz Hhi Hcase. pose proof (v_heap _ _ Hv) as [Hlock _]. rw /as_define_region. wp_step. rw /dumbvm_can_sleep.
  wp_step. wp_step. apply wp_kassert; [by rw Hlock|]. cbv zeta.
  destruct (define_pages vaddr sz Hva Hsz Hhi) as [-> ->]. wp_step. eapply wp_deref; [exact Ha|]. cbn beta.
  assert (∀ r', empty_as r' → vm_ok (set_spaces (<[a := r']> (spaces s)) s) A) as Hset.
  { intros r' Hem'. apply (vm_ok_same_frames _ _ _ r); [done..|]. by rw !empty_frames. }
  destruct Hcase as [[E ->]|(E & E2 & ->)].
  - rw bool_decide_eq_true_2 //. wp_step. eapply wp_upd_as; [exact Ha|]. apply wp_ret. split; [done|]. split; [by apply Hset|done].
  - rw bool_decide_eq_false_2 // bool_decide_eq_true_2 //. wp_step. eapply wp_upd_as; [exact Ha|]. apply wp_ret.
    split; [done|]. split; [by apply Hset|done].
Qed.

(** What [runprogram] and [load_elf] do for a program with two segments, before
    they read it in. *)
Definition new_image (v1 n1 v2 n2 : Z) : M state (Z * Z) :=
  a ← as_create;
  if bool_decide (a = 0) then mret (ENOMEM, 0)
  else
    switch_to a;;
    as_define_region a v1 n1;;
    as_define_region a v2 n2;;
    r ← as_prepare_load a;
    mret (r, a).

(** Either memory has run out or the process runs on the new address space. *)
Definition image_ready (s : state) (A : gmap Z Z) (v1 n1 v2 n2 : Z) (res : Z * Z) (s' : state) : Prop :=
  ∃ A', A ⊆ A' ∧ vm_ok s' A' ∧ keeps_blocks A (km s) (km s') ∧
    (res.1 = ENOMEM ∨ res.1 = 0 ∧ ∃ r, running s' A' res.2 r ∧
      (∀ va, user_addr va → v1 ≤ va < v1 + n1 ∨ v2 ≤ va < v2 + n2 → uword (km s') r va = Some 0)).

Lemma new_image_works s A v1 n1 v2 n2 :
  vm_ok s A → length (tlb s) = NUM_TLB →
  PAGE_SIZE ≤ v1 → 0 < n1 → v1 + n1 ≤ USERSTACK → PAGE_SIZE ≤ v2 → 0 < n2 → v2 + n2 ≤ USERSTACK →
  wp (new_image v1 n1 v2 n2) (image_ready s A v1 n1 v2 n2) s.
Proof.
  intros Hv Hlen Hv1 Hn1 Hh1 Hv2 Hn2 Hh2. rw /new_image. wp_step. eapply wp_mono; [by apply as_create_spec|].
  intros a s1 (Hk1 & Ht1 & Hc1 & [(-> & Hvm1 & Hs1)|(Ha0 & HnA & _ & Hvm1 & Hs1)]).
  { rw bool_decide_eq_true_2; [|done]. apply wp_ret. exists A. do 3 (split; [done|]). by left. }
  rw bool_decide_eq_false_2 //. set (A1 := <[a := SIZEOF_ADDRSPACE]> A) in *.
  wp_step. eapply wp_mono; [apply switch_clears; [done|by rw Ht1]|]. intros _ _s (t & -> & Hcoh). set (s2 := set_tlb _ _) in *.
  assert (vm_ok s2 A1) as Hvm2 by (by apply (vm_ok_km s1)).
  assert (spaces s2 !! a = Some no_regions) as Ha2 by (rw /= Hs1; apply lookup_insert_eq).
  wp_step. eapply wp_mono; [apply (define_region s2 A1 a no_regions v1 n1 set_region1); try done; by left|].
  intros _ _s (_ & Hvm3 & ->). set (r1 := set_region1 _ _ _) in *.
  set (s3 := set_spaces _ s2) in *. assert (spaces s3 !! a = Some r1) as Ha3 by apply lookup_insert_eq.
  destruct (region_pages_ok v1 n1 Hv1 Hn1 Hh1) as (Hr1 & Hlo1 & Hup1). destruct (region_pages_ok v2 n2 Hv2 Hn2 Hh2) as (Hr2 & Hlo2 & Hup2).
  wp_step. eapply wp_mono; [apply (define_region s3 A1 a r1 v2 n2 set_region2); try done; right; destruct Hr1; simpl; split; [lia|done]|].
  intros _ _s (_ & Hvm4 & ->).
  set (r2 := set_region2 _ _ _) in *. set (s4 := set_spaces _ s3) in *.
  assert (spaces s4 !! a = Some r2) as Ha4 by apply lookup_insert_eq.
  wp_step. eapply wp_mono; [by apply (as_prepare_load_spec s4 A1 a r2)|].
  intros res s5 (r & A5 & Hld & Hsame & Hres). apply wp_ret. exists A5.
  split; [transitivity A1; [by apply insert_subseteq|apply Hld]|]. split; [apply Hld|].
  split; [eapply keeps_blocks_trans; [exact Hk1|]; eapply keeps_blocks_sub; [by apply insert_subseteq|apply (ld_words _ _ _ _ _ _ Hld)]|].
  destruct Hres as [->|(-> & Hok & Hz)]; [by left|]. right. split; [done|]. exists r. split.
  - split; [apply Hld | by rw (ld_cur _ _ _ _ _ _ Hld) | rw (ld_spaces _ _ _ _ _ _ Hld); apply lookup_insert_eq | done |].
    apply (coherent_ext _ s2); [by rw (ld_tlb _ _ _ _ _ _ Hld)|done].
  - intros va Hva Hrange. rw uword_locate //. destruct Hsame as (E1 & E2 & E3 & E4).
    destruct (locate r va) as [[i off]|] eqn:Hloc.
    + destruct (locate_range r va i off Hok Hva Hloc) as (H4 & f & Hf & Hoff). rw Hf /=.
      apply (Hz f); [by eapply list_elem_of_lookup_2|done..].
    + exfalso. rw /locate E1 E2 E3 E4 in Hloc. simpl in Hloc. repeat case_bool_decide; try done. lia.
Qed.

(** ** The theorems *)

(** C4: a process has memory of its own, whatever is in the TLB. A store by the
    running process to a word of user space, through the TLB or after a page
    fault, changes the word at its address and no other word of any address
    space; a load reads the word there. [vm_fault] returns an error to the trap
    handler (which ends it there), with nothing changed, only for an address
    outside the process's regions or when all 64 TLB entries are in use. Every
    TLB entry keeps agreeing with the address space that runs, also across a
    switch to another process, and [vm_fault] does not panic. *)
Theorem private_memory s A a r va :
  running s A a r → user_addr va →
  (∀ v, wp (user_store va v) (λ res s', running s' A a r ∧ spaces s' = spaces s ∧
    match res with
    | inl _ => uword (km s') r va = Some v ∧
        (∀ va', user_addr va' → va' ≠ va → uword (km s') r va' = uword (km s) r va') ∧
        ∀ b q, b ≠ a → spaces s !! b = Some q → as_ok q → ∀ va', user_addr va' → uword (km s') q va' = uword (km s) q va'
    | inr e => e = EFAULT ∧ km s' = km s ∧ (phys r va = None ∨ tlb_full s)
    end) s) ∧
  wp (user_load va) (λ res s', running s' A a r ∧ spaces s' = spaces s ∧ km s' = km s ∧
    match res with
    | inl w => uword (km s) r va = Some w
    | inr e => e = EFAULT ∧ (phys r va = None ∨ tlb_full s)
    end) s ∧
  ∀ b q, spaces s !! b = Some q → as_ok q →
    wp (switch_to b) (λ _ s', running s' A b q ∧ km s' = km s ∧ spaces s' = spaces s) s.
Proof.
  intros Hrun Hva. split; [|split].
  - intros v. by apply user_store_spec.
  - by apply user_load_spec.
  - intros b q Hb Hq. apply switch_spec; [apply Hrun | done | done | apply (run_tlb _ _ _ _ Hrun)].
Qed.

(** C15: [as_copy] duplicates an address space, as fork needs it: the new one has
    the same regions and the same word at every address, in memory that nobody
    else has; or it returns [ENOMEM] and the struct is gone again.  Either way no
    block in use, and so no other address space, has changed. *)
Theorem as_copy_duplicates s A old o :
  vm_ok s A → spaces s !! old = Some o → as_ok o → wp (as_copy old) (copied_as s A o) s.
Proof. apply as_copy_spec. Qed.

(** C32: a fresh address space: [as_create], [as_activate], two calls of
    [as_define_region] and [as_prepare_load], for two non-empty segments that
    start at PAGE_SIZE or above and end by USERSTACK, end with [ENOMEM] or with
    the process running on an address space in which every word of both segments
    is there and 0. Blocks that were in use keep their contents. (A segment in
    page 0 is taken for one that is not there.) *)
Theorem fresh_address_space s A v1 n1 v2 n2 :
  vm_ok s A → length (tlb s) = NUM_TLB →
  PAGE_SIZE ≤ v1 → 0 < n1 → v1 + n1 ≤ USERSTACK → PAGE_SIZE ≤ v2 → 0 < n2 → v2 + n2 ≤ USERSTACK →
  wp (new_image v1 n1 v2 n2) (image_ready s A v1 n1 v2 n2) s.
Proof. apply new_image_works. Qed.

(** ** A small machine *)

(** Two megabytes of memory, no process yet. *)
Definition machine : state :=
  State (boot 4096 2097152 ∅) ∅ ((λ i, (TLBHI_INVALID (Z.of_nat i), TLBLO_INVALID)) <$> seq 0 NUM_TLB) None.

Lemma machine_ok : vm_ok machine ∅.
Proof. split; [apply R_boot; [lia|reflexivity|lia] | done..]. Qed.

Lemma stolen k A n pa k' :
  R k A → 1 ≤ n ≤ 2 ^ 19 → ram_stealmem n k = Ok pa k' → pa ≠ 0 → R k' (<[MIPS_KSEG0 + pa := n * PAGE_SIZE]> A).
Proof.
  intros HR Hn He Hpa. pose proof (ram_stealmem_spec k A n HR Hn) as (q & k2 & He2 & Hres)%wp_eq.
  rw He in He2. injection He2 as <- <-. destruct Hres as [[-> _]|(_ & _ & _ & _ & HR' & _)]; [done|exact HR'].
Qed.

Lemma allocated k A n a k' :
  R k A → 0 ≤ n ≤ 2 ^ 31 → kmalloc n k = Ok a k' → a ≠ 0 → R k' (<[a := n]> A).
Proof.
  intros HR Hn He Ha. pose proof (kmalloc_works k A n HR Hn) as (q & k2 & He2 & _ & Hres)%wp_eq.
  rw He in He2. injection He2 as <- <-. destruct Hres as [(-> & _)|(_ & _ & HR' & _)]; [done|exact HR'].
Qed.

(** A process with two segments: its struct is at 0x80001fe0. *)
Definition process_as : addrspace := Addrspace 0x400000 12288 1 0x10000000 16384 2 24576.
Definition process_heap : Kmalloc.state :=
  after ((kmalloc SIZEOF_ADDRSPACE;; ram_stealmem 1;; ram_stealmem 2;; ram_stealmem DUMBVM_STACKPAGES) (km machine)).
Definition process_blocks : gmap Z Z :=
  <[0x80006000 := 73728]> (<[0x80004000 := 8192]> (<[0x80003000 := 4096]> {[0x80001fe0 := SIZEOF_ADDRSPACE]})).
Definition before_switch : state := State process_heap {[0x80001fe0 := process_as]} (tlb machine) None.
Definition one_process : state := after (switch_to 0x80001fe0 before_switch).

Lemma process_heap_ok : R process_heap process_blocks.
Proof.
  set (k0 := km machine). set (k1 := after (kmalloc SIZEOF_ADDRSPACE k0)). set (k2 := after (ram_stealmem 1 k1)).
  set (k3 := after (ram_stealmem 2 k2)).
  assert (kmalloc SIZEOF_ADDRSPACE k0 = Ok 0x80001fe0 k1) as E1 by (vm_compute; reflexivity).
  assert (ram_stealmem 1 k1 = Ok 12288 k2) as E2 by (vm_compute; reflexivity).
  assert (ram_stealmem 2 k2 = Ok 16384 k3) as E3 by (vm_compute; reflexivity).
  assert (ram_stealmem DUMBVM_STACKPAGES k3 = Ok 24576 process_heap) as E4 by (vm_compute; reflexivity).
  refine (stolen _ _ _ _ _ (stolen _ _ _ _ _ (stolen _ _ _ _ _ _ _ E2 _) _ E3 _) _ E4 _);
    [| vm_compute; split; discriminate | discriminate | vm_compute; split; discriminate | discriminate | vm_compute; split; discriminate | discriminate].
  refine (allocated _ _ _ _ _ (v_heap _ _ machine_ok) _ E1 _); [vm_compute; split; discriminate | discriminate].
Qed.

Lemma process_as_ok : as_ok process_as.
Proof. repeat split; by vm_compute. Qed.

Lemma only_process a r : spaces before_switch !! a = Some r → a = 0x80001fe0 ∧ r = process_as.
Proof. rw /before_switch /= lookup_singleton_Some. intuition. Qed.

Lemma before_switch_ok : vm_ok before_switch process_blocks.
Proof.
  split; [exact process_heap_ok | | | |].
  - intros a r [-> _]%only_process. by vm_compute.
  - intros a r f [-> ->]%only_process. rw (frames_ok _ process_as_ok) !elem_of_cons.
    intros [->|[->|[->|[]%elem_of_nil]]]; by vm_compute.
  - intros a r [-> ->]%only_process. apply (bool_decide_unpack _). by vm_compute.
  - intros a b r q f g [-> _]%only_process [-> _]%only_process. done.
Qed.

Lemma one_process_running : running one_process process_blocks 0x80001fe0 process_as.
Proof.
  destruct (proj1 (wp_eq _ _ _) (switch_spec before_switch process_blocks 0x80001fe0 process_as before_switch_ok
    (lookup_singleton_eq _ _) process_as_ok eq_refl)) as (u & s' & He & Hrun & _).
  rw /one_process He. exact Hrun.
Qed.

(** A word of the first segment, and what the program reads back after a store. *)
Lemma private_memory_witness :
  (∀ v, wp (user_store 0x400010 v) (λ res s', running s' process_blocks 0x80001fe0 process_as ∧ spaces s' = spaces one_process ∧
    match res with
    | inl _ => uword (km s') process_as 0x400010 = Some v ∧
        (∀ va', user_addr va' → va' ≠ 0x400010 → uword (km s') process_as va' = uword (km one_process) process_as va') ∧
        ∀ b q, b ≠ 0x80001fe0 → spaces one_process !! b = Some q → as_ok q →
          ∀ va', user_addr va' → uword (km s') q va' = uword (km one_process) q va'
    | inr e => e = EFAULT ∧ km s' = km one_process ∧ (phys process_as 0x400010 = None ∨ tlb_full one_process)
    end) one_process) ∧
  (λ o, match o with Ok r _ => r = inl 7 | _ => False end) ((user_store 0x400010 7;; user_load 0x400010) one_process).
Proof.
  split; [|vm_compute; reflexivity].
  destruct (private_memory one_process process_blocks 0x80001fe0 process_as 0x400010 one_process_running) as [Hs _]; [by split|exact Hs].
Defined.

Lemma as_copy_duplicates_witness :
  wp (as_copy 0x80001fe0) (copied_as one_process process_blocks process_as) one_process.
Proof.
  exact (as_copy_duplicates one_process process_blocks 0x80001fe0 process_as (run_vm _ _ _ _ one_process_running)
    (run_as _ _ _ _ one_process_running) process_as_ok).
Defined.

Lemma fresh_address_space_witness :
  wp (new_image 0x400010 100 0x10000000 5000) (image_ready machine ∅ 0x400010 100 0x10000000 5000) machine.
Proof. apply (fresh_address_space machine ∅ 0x400010 100 0x10000000 5000 machine_ok eq_refl); by vm_compute. Defined.
