(* ===== verification/SfsDir.v ===== *)
(** * SFS directories: kern/fs/sfs/sfs_dir.c

    The metadata half of sfs_io.c and the operations on directory entries, above
    the block layer of Sfs.v.  Metadata are whole words here, as the sectors of
    Lhd.v are: a directory entry is 16 of them, the inode number and the 60 bytes
    of the name, most significant byte first.  A name handed in by the caller is
    the list of its bytes without the terminator. *)

From stdpp Require Import base tactics list gmap option numbers ssreflect.
From S2P Require Import Prelude Kern.
From S2P Require Import Uio Lhd Bitmap Sfs.

Open Scope Z_scope.

(** ** Words and bytes *)

Fixpoint pack (l : list Z) : list Z :=
  match l with
  | a :: b :: c :: d :: l => (a * 2 ^ 24 + b * 2 ^ 16 + c * 2 ^ 8 + d) :: pack l
  | _ => []
  end.

Definition unpack (ws : list Z) : list Z :=
  ws ≫= λ w, [w / 2 ^ 24 mod 2 ^ 8; w / 2 ^ 16 mod 2 ^ 8; w / 2 ^ 8 mod 2 ^ 8; w mod 2 ^ 8].

(** The bytes of an array before the first 0. *)
Fixpoint c_string (l : list Z) : list Z :=
  match l with
  | [] => []
  | c :: l => if bool_decide (c = 0) then [] else c :: c_string l
  end.

(** ** Directory entries *)

Definition SFS_NAMELEN : nat := 60.
Definition SFS_NOINO : Z := 0.
Definition SFS_TYPE_DIR : Z := 2.

(** [struct sfs_direntry] *)
Record sfs_direntry := Direntry { sfd_ino : Z; sfd_name : list Z }.
Definition SIZEOF_DIRENTRY : Z := 64.

Definition direntry_words (d : sfs_direntry) : list Z := sfd_ino d :: pack (sfd_name d).
Definition words_direntry (ws : list Z) : sfs_direntry := Direntry (hd 0 ws) (unpack (tail ws)).

(** [bzero(&sd, sizeof(sd))], the inode number and [strcpy] of the name. *)
Definition new_entry (ino : Z) (name : list Z) : sfs_direntry :=
  Direntry ino (name ++ replicate (SFS_NAMELEN - length name) 0).

Section hw.
Context `{!Hardware}.

(** ** Metadata I/O *)

(** The result and what is in the caller's buffer. *)
Definition sfs_metaio (sv : loc) (actualpos : Z) (data : list Z) (rw : uio_rw) : M state (Z * list Z) :=
  mine ← vfs_biglock_do_i_hold;
  kassert mine;;
  let vnblock := u32 (Z.quot actualpos SFS_BLOCKSIZE) in
  let blockoffset := u32 (Z.rem actualpos SFS_BLOCKSIZE) in
  let off := Z.to_nat (blockoffset / 4) in
  let len := length data in
  let doalloc := bool_decide (rw = UIO_WRITE) in
  r ← sfs_bmap sv vnblock doalloc;
  match r with
  | inl result => mret (result, data)
  | inr diskblock =>
      if bool_decide (diskblock = 0) then
        kassert (bool_decide (rw = UIO_READ));;
        mret (0, replicate len 0)
      else
        r ← sfs_readblock diskblock;
        let '(result, metaiobuf) := r in
        if bool_decide (result ≠ 0) then mret (result, data)
        else if bool_decide (length metaiobuf < off + len)%nat then stops Fault
        else
          match rw with
          | UIO_READ => mret (0, take len (drop off metaiobuf))
          | UIO_WRITE =>
              result ← sfs_writeblock diskblock (take off metaiobuf ++ data ++ drop (off + len) metaiobuf);
              if bool_decide (result ≠ 0) then mret (result, data)
              else
                let endpos := s64 (actualpos + 4 * Z.of_nat len) in
                v ← load_sv sv;
                (if bool_decide (endpos > sfi_size (sv_i v)) then upd_inode sv (set_size (u32 endpos)) else mret tt);;
                mret (0, data)
          end
  end.

(** ** Slots *)

Definition sfs_readdir (sv : loc) (slot : Z) : M state (Z * sfs_direntry) :=
  let actualpos := u32 (slot * SIZEOF_DIRENTRY) in
  r ← sfs_metaio sv actualpos (replicate 16 0) UIO_READ;
  mret (r.1, words_direntry r.2).

Definition sfs_writedir (sv : loc) (slot : Z) (sd : sfs_direntry) : M state Z :=
  kassert (bool_decide (slot >= 0));;
  let actualpos := u32 (slot * SIZEOF_DIRENTRY) in
  r ← sfs_metaio sv actualpos (direntry_words sd) UIO_WRITE;
  mret r.1.

Definition sfs_dir_nentries (sv : loc) : M state Z :=
  v ← load_sv sv;
  kassert (bool_decide (sfi_type (sv_i v) = SFS_TYPE_DIR));;
  let size := sfi_size (sv_i v) in
  if bool_decide (size mod SIZEOF_DIRENTRY ≠ 0) then stops Panic
  else mret (size / SIZEOF_DIRENTRY).

(** ** Names *)

(** What [sfs_dir_findname] returns through its pointers; [None]: not set. *)
Record found_name := Found { f_ino : option Z; f_slot : option Z; f_empty : option Z }.

(** One slot of the search. *)
Definition look_at (i : Z) (tsd : sfs_direntry) (name : list Z) (f : found_name) : M state found_name :=
  if bool_decide (sfd_ino tsd = SFS_NOINO) then mret (Found (f_ino f) (f_slot f) (Some i))
  else if bool_decide (c_string (take (SFS_NAMELEN - 1) (sfd_name tsd)) = name) then
    kassert (bool_decide (f_slot f = None));;
    mret (Found (Some (sfd_ino tsd)) (Some i) (f_empty f))
  else mret f.

Definition sfs_dir_findname (sv : loc) (name : list Z) : M state (Z * found_name) :=
  nentries ← sfs_dir_nentries sv;
  while (S (Z.to_nat nentries)) (0, Found None None None) (λ '(i, f),
    if bool_decide (i < nentries) then
      r ← sfs_readdir sv i;
      let '(result, tsd) := r in
      if bool_decide (result ≠ 0) then mret (inr (result, f))
      else
        f' ← look_at i tsd name f;
        mret (inl (i + 1, f'))
    else mret (inr (if bool_decide (f_slot f = None) then ENOENT else 0, f))).

(** The result, and the slot where it has been handed back. *)
Definition sfs_dir_link (sv : loc) (name : list Z) (ino : Z) : M state (Z * option Z) :=
  r ← sfs_dir_findname sv name;
  let '(result, f) := r in
  let emptyslot := default (-1) (f_empty f) in
  if bool_decide (result ≠ 0 ∧ result ≠ ENOENT) then mret (result, None)
  else if bool_decide (result = 0) then mret (EEXIST, None)
  else if bool_decide (SFS_NAMELEN < length name + 1)%nat then mret (ENAMETOOLONG, None)
  else
    emptyslot ← (if bool_decide (emptyslot < 0) then sfs_dir_nentries sv else mret emptyslot);
    result ← sfs_writedir sv emptyslot (new_entry ino name);
    mret (result, Some emptyslot).

Definition sfs_dir_unlink (sv : loc) (slot : Z) : M state Z :=
  sfs_writedir sv slot (new_entry SFS_NOINO []).
End hw.
