(* ===== verification/SfsNames.v ===== *)
(** * Directories as maps from names

    What a list of directory entries means as a finite map from names to inode
    numbers, and how entries lie in the words of a block. *)

From stdpp Require Import base tactics list gmap option numbers ssreflect.
From S2P Require Import Prelude Kern.
From S2P Require Import Uio Lhd Bitmap Sfs SfsFacts SfsTrunc SfsDir.

Open Scope Z_scope.

(** ** Part of a list replaced *)

Definition splice (off : nat) (data l : list Z) : list Z := take off l ++ data ++ drop (off + length data) l.

Lemma splice_length off data l : (off + length data ≤ length l)%nat → length (splice off data l) = length l.
Proof. intros. rw /splice !length_app length_take length_drop. lia. Qed.

Lemma splice_same off data l : (off + length data ≤ length l)%nat → take (length data) (drop off (splice off data l)) = data.
Proof.
  intros. rw /splice drop_app_length' ?length_take; [|lia]. by rw take_app_length.
Qed.

Lemma splice_lookup off data l i :
  (off + length data ≤ length l)%nat → (i < off ∨ off + length data ≤ i)%nat → splice off data l !! i = l !! i.
Proof.
  intros Hl Hi. rw /splice. destruct (decide (i < off)%nat).
  - rw lookup_app_l ?length_take; [|lia]. rw lookup_take_lt //.
  - rw lookup_app_r length_take; [|lia]. rw lookup_app_r; [|lia]. rw lookup_drop. f_equal. lia.
Qed.

Lemma splice_other off data l i n :
  (off + length data ≤ length l)%nat → (i + n ≤ off ∨ off + length data ≤ i)%nat →
  take n (drop i (splice off data l)) = take n (drop i l).
Proof.
  intros Hl Hi. apply list_eq. intros k. destruct (decide (k < n)%nat).
  - rw !lookup_take_lt // !lookup_drop. apply splice_lookup; [done|lia].
  - rw !lookup_take_ge //; lia.
Qed.

(** ** Words and bytes *)

Lemma unpack_cons w ws :
  unpack (w :: ws) = [w / 2 ^ 24 mod 2 ^ 8; w / 2 ^ 16 mod 2 ^ 8; w / 2 ^ 8 mod 2 ^ 8; w mod 2 ^ 8] ++ unpack ws.
Proof. done. Qed.

Lemma unpack_pack n l : length l = (4 * n)%nat → Forall byte l → unpack (pack l) = l.
Proof.
  revert l. induction n as [|n IH]; intros l Hl Hb.
  - destruct l; [done|simpl in Hl; lia].
  - destruct l as [|a [|b [|c [|d l]]]]; simpl in Hl; try lia.
    do 4 apply Forall_cons in Hb as [? Hb]. cbn [pack]. rw unpack_cons IH //; [|lia]. cbn [app]. unfold byte in *.
    repeat f_equal; zlia.
Qed.

Lemma pack_length n l : length l = (4 * n)%nat → length (pack l) = n.
Proof.
  revert l. induction n as [|n IH]; intros l Hl.
  - destruct l; [done|simpl in Hl; lia].
  - destruct l as [|a [|b [|c [|d l]]]]; simpl in Hl; try lia. simpl. f_equal. apply IH. lia.
Qed.

(** ** Names *)

(** What the caller passes as a name. *)
Definition name_ok (name : list Z) : Prop := Forall (λ c, 0 < c < 256) name.

Lemma c_string_name name l : name_ok name → c_string (name ++ 0 :: l) = name.
Proof.
  induction 1 as [|c name Hc _ IH]; simpl; [done|]. rw bool_decide_eq_false_2; [by f_equal|lia].
Qed.

(** The name that [strcmp] sees. *)
Definition entry_name (e : sfs_direntry) : list Z := c_string (take (SFS_NAMELEN - 1) (sfd_name e)).

Lemma c_string_length l : (length (c_string l) ≤ length l)%nat.
Proof. induction l as [|c l IH]; simpl; [done|]. case_bool_decide; simpl; lia. Qed.

Lemma entry_name_short e : (length (entry_name e) < SFS_NAMELEN)%nat.
Proof.
  rw /entry_name. pose proof (c_string_length (take (SFS_NAMELEN - 1) (sfd_name e))) as H. rw length_take in H.
  unfold SFS_NAMELEN in *. lia.
Qed.

Lemma new_entry_name ino name :
  name_ok name → (length name < SFS_NAMELEN)%nat → entry_name (new_entry ino name) = name.
Proof.
  intros Hn Hl. rw /entry_name /= take_app_ge; [|unfold SFS_NAMELEN in *; lia].
  rw take_replicate Nat.min_l; [|unfold SFS_NAMELEN; lia].
  destruct (59 - length name)%nat as [|k].
  - rw app_nil_r. clear -Hn. induction Hn as [|c name Hc _ IH]; simpl; [done|]. rw bool_decide_eq_false_2; [by f_equal|lia].
  - by apply c_string_name.
Qed.

(** An entry written and read back. *)
Lemma entry_words ino name :
  name_ok name → (length name < SFS_NAMELEN)%nat →
  length (direntry_words (new_entry ino name)) = 16%nat ∧
  words_direntry (direntry_words (new_entry ino name)) = new_entry ino name.
Proof.
  intros Hn Hl. assert (length (sfd_name (new_entry ino name)) = (4 * 15)%nat) as Hlen.
  { rw /= length_app length_replicate. unfold SFS_NAMELEN in *. lia. }
  rw /direntry_words /words_direntry /=. rw (pack_length 15) // (unpack_pack 15) //.
  apply Forall_app. split; [|apply Forall_replicate; by split].
  eapply Forall_impl; [exact Hn|]. intros c Hc. rw /byte. simpl in Hc. lia.
Qed.

(** ** The map *)

Definition holds_name (e : sfs_direntry) (name : list Z) (ino : Z) : Prop :=
  sfd_ino e = ino ∧ ino ≠ SFS_NOINO ∧ entry_name e = name.

(** The entries [l] stand for the map [D]; no name is there twice. *)
Record names (l : list sfs_direntry) (D : gmap (list Z) Z) : Prop := {
  n_map : ∀ name ino, D !! name = Some ino ↔ ∃ k e, l !! k = Some e ∧ holds_name e name ino;
  n_once : ∀ j k e e', l !! j = Some e → l !! k = Some e' → sfd_ino e ≠ SFS_NOINO → sfd_ino e' ≠ SFS_NOINO →
    entry_name e = entry_name e' → j = k
}.

(** [l'] is [l] with the entry [e] in slot [k], which may be the one behind the
    last. *)
Definition put_slot (l : list sfs_direntry) (k : nat) (e : sfs_direntry) (l' : list sfs_direntry) : Prop :=
  ∀ j, l' !! j = if decide (j = k) then Some e else l !! j.

Lemma names_link l l' D k name ino :
  names l D → put_slot l k (new_entry ino name) l' → (∀ e, l !! k = Some e → sfd_ino e = SFS_NOINO) →
  name_ok name → (length name < SFS_NAMELEN)%nat → ino ≠ SFS_NOINO → D !! name = None →
  names l' (<[name := ino]> D).
Proof.
  intros [Hm Ho] Hput Hk Hn Hl Hi Hnone. pose proof (new_entry_name ino name Hn Hl) as He.
  assert (∀ j e, l !! j = Some e → sfd_ino e ≠ SFS_NOINO → entry_name e ≠ name) as Hfresh.
  { intros j e Hj Hne Hen. assert (D !! name = Some (sfd_ino e)) as HD; [|congruence]. apply Hm. by exists j, e. }
  split.
  - intros nm i. rw lookup_insert_Some. split.
    + intros [[<- <-]|[Hne (j & e & Hj & Hh)%Hm]].
      * exists k, (new_entry ino name). by rw Hput decide_True.
      * exists j, e. rw Hput. split; [|done]. rw decide_False //. intros ->. destruct Hh as (<- & Hh & _).
        by apply Hh, Hk.
    + intros (j & e & Hj & Hh). rw Hput in Hj. destruct (decide (j = k)) as [->|Hne].
      * injection Hj as <-. destruct Hh as (<- & _ & <-). left. by rw He.
      * right. split; [|apply Hm; by exists j, e]. intros <-. destruct Hh as (<- & Hh & Hen). by apply (Hfresh j e).
  - intros j1 j2 e1 e2. rw !Hput. destruct (decide (j1 = k)) as [->|H1], (decide (j2 = k)) as [->|H2]; [done | | | by apply Ho].
    + intros [= <-] Hj _ Hne Hen. rw He in Hen. by edestruct Hfresh.
    + intros Hj [= <-] Hne _ Hen. rw He in Hen. by edestruct Hfresh.
Qed.

Lemma names_unlink l l' D k e name ino :
  names l D → l !! k = Some e → holds_name e name ino → put_slot l k (new_entry SFS_NOINO []) l' →
  names l' (delete name D).
Proof.
  intros [Hm Ho] Hk (He & Hi & Hn) Hput. split.
  - intros nm i. rw lookup_delete_Some. split.
    + intros [Hne (j & e' & Hj & Hh)%Hm]. exists j, e'. rw Hput. split; [|done]. rw decide_False //. intros ->.
      destruct Hh as (_ & _ & Hen). congruence.
    + intros (j & e' & Hj & Hh). rw Hput in Hj. destruct (decide (j = k)) as [->|Hne].
      * injection Hj as <-. by destruct Hh as (<- & [] & _).
      * split; [|apply Hm; by exists j, e']. intros <-. destruct Hh as (Hi' & Hne' & Hen). apply Hne, (Ho j k e' e); congruence.
  - intros j1 j2 e1 e2. rw !Hput. destruct (decide (j1 = k)), (decide (j2 = k)); intros; simplify_eq; try done. by eapply Ho.
Qed.

(** ** What metadata I/O does to a file

    The contents of a file block by block, and [sfs_metaio] on them. *)

(** ** The contents of a file *)

(** The words of block [fb] of the file; a block that is not there reads as
    zeros. *)
Definition fblock (s : state) (i : sfs_dinode) (fb : nat) : list Z :=
  match mapping s i !! fb with
  | Some b => if bool_decide (b = 0) then zeros else default [] (sectors (sfs_device s) !! b)
  | None => []
  end.

Definition same_contents (s : state) (i : sfs_dinode) (s' : state) (i' : sfs_dinode) : Prop :=
  ∀ fb, fblock s' i' fb = fblock s i fb.

(** What writing to a file may change: the inode [v] at [sv] becomes [v'], free
    blocks are taken, and the sectors of the file itself are written. *)
Record rewrites (sv : loc) (s : state) (v : sfs_vnode) (s' : state) (v' : sfs_vnode) : Prop := {
  w_svs : svs s' = <[sv := v']> (svs s);
  w_volume : volume s';
  w_env : same_env s s';
  w_file : file_ok s' (sv_i v');
  w_ino : sv_ino v' = sv_ino v;
  w_type : sfi_type (sv_i v') = sfi_type (sv_i v);
  w_links : sfi_linkcount (sv_i v') = sfi_linkcount (sv_i v);
  w_waste : sfi_waste (sv_i v') = sfi_waste (sv_i v);
  w_dirty : v' = v ∨ sv_dirty v' = true;
  w_blocks : ∀ b, b ∈ blocks s' (sv_i v') → b ≠ 0 → b ∈ blocks s (sv_i v) ∨ marked s b = false;
  w_marked : ∀ j, 0 ≤ j → marked s j = true → marked s' j = true;
  w_others : ∀ b, 0 < b → marked s b = true → b ∉ blocks s (sv_i v) →
    sectors (sfs_device s') !! b = sectors (sfs_device s) !! b
}.

Lemma grows_rewrites sv s v s' v' :
  grows sv s v s' v' → (∀ b, b ∈ mapping s' (sv_i v') → b ≠ 0 → b ∈ mapping s (sv_i v) ∨ marked s b = false) →
  rewrites sv s v s' v'.
Proof.
  intros [] Hm. destruct g_rest as (_ & ? & ? & ?). split; try done.
  - intros b [->|Hb]%elem_of_cons Hb0.
    + destruct g_indirect as [->|]; [left; by left | by right].
    + destruct (Hm b Hb Hb0); [left; by right | by right].
  - intros b Hb Hmk Hin. apply g_sectors; [lia|done|]. intros ->. apply Hin. by left.
Qed.

Lemma rewrites_trans sv s1 v1 s2 v2 s3 v3 :
  rewrites sv s1 v1 s2 v2 → rewrites sv s2 v2 s3 v3 → rewrites sv s1 v1 s3 v3.
Proof.
  intros A B.
  assert (∀ b, b ∈ blocks s3 (sv_i v3) → b ≠ 0 → b ∈ blocks s1 (sv_i v1) ∨ marked s1 b = false) as Hb.
  { intros b Hb H0. destruct (w_blocks _ _ _ _ _ B b Hb H0) as [Hb2|Hm].
    - by apply (w_blocks _ _ _ _ _ A).
    - right. destruct (marked s1 b) eqn:E; [|done]. apply (w_marked _ _ _ _ _ A) in E; [congruence|].
      apply list_elem_of_lookup in Hb as [k Hk]. destruct (own_used _ _ (f_owns _ _ (w_file _ _ _ _ _ B)) k b Hk H0). lia. }
  split; try apply B.
  - by rw (w_svs _ _ _ _ _ B) (w_svs _ _ _ _ _ A) insert_insert_eq.
  - etrans; [apply A | apply B].
  - rw (w_ino _ _ _ _ _ B). apply A.
  - rw (w_type _ _ _ _ _ B). apply A.
  - rw (w_links _ _ _ _ _ B). apply A.
  - rw (w_waste _ _ _ _ _ B). apply A.
  - destruct (w_dirty _ _ _ _ _ B) as [->|]; [apply A | by right].
  - exact Hb.
  - intros j Hj Hm. apply B; [done|]. by apply A.
  - intros b Hb0 Hm Hn. rw (w_others _ _ _ _ _ B) //; [by apply A | by apply A; [lia|] |]. intros Hin.
    destruct (w_blocks _ _ _ _ _ A b Hin ltac:(lia)); [done|congruence].
Qed.

Lemma mapping_length s i : volume s → file_ok s i → length (mapping s i) = 143%nat.
Proof. intros Hv Hf. by rw mapping_entries length_app (f_direct _ _ Hf) entries_length. Qed.

(** A block of the file and the sector it is in. *)
Lemma mapped_block s i fb b :
  file_ok s i → mapping s i !! fb = Some b → b ≠ 0 →
  0 < b < sb_nblocks s ∧ marked s b = true ∧ b ≠ sfi_indirect i ∧ b ∈ blocks s i ∧
  ∀ fb', mapping s i !! fb' = Some b → fb' = fb.
Proof.
  intros [_ [Hu Ho]] Hm Hb. destruct (Hu (S fb) b Hm Hb) as [? ?]. do 2 (split; [done|]). split; [|split].
  - intros ->. by pose proof (Ho 0%nat (S fb) _ eq_refl Hm Hb).
  - right. by eapply list_elem_of_lookup_2.
  - intros fb' Hm'. by pose proof (Ho (S fb') (S fb) b Hm' Hm Hb) as [=].
Qed.

Lemma fblock_length s i fb : volume s → file_ok s i → (fb < 143)%nat → length (fblock s i fb) = 128%nat.
Proof.
  intros Hv Hf Hfb. rw /fblock. destruct (lookup_lt_is_Some_2 (mapping s i) fb) as [b Hb]; [by rw mapping_length|].
  rw Hb. case_bool_decide as H0; [done|]. destruct (mapped_block _ _ _ _ Hf Hb H0) as [Hr _].
  pose proof (vol_blocks _ Hv). destruct (r_sectors _ (vol_device _ Hv) b) as (data & -> & Hl); [lia|]. done.
Qed.

(** A block of the file written. *)
Lemma sector_rewrites sv s v fb b new d :
  svs s !! sv = Some v → file_ok s (sv_i v) → mapping s (sv_i v) !! fb = Some b → b ≠ 0 →
  volume (set_device d s) → same_env s (set_device d s) → sectors d = <[b := new]> (sectors (sfs_device s)) →
  rewrites sv s v (set_device d s) v ∧
  ∀ fb', fblock (set_device d s) (sv_i v) fb' = if decide (fb' = fb) then new else fblock s (sv_i v) fb'.
Proof.
  intros Hsv Hf Hm Hb Hv He Hs. destruct (mapped_block _ _ _ _ Hf Hm Hb) as (_ & _ & Hind & Hin & Honce).
  assert (mapping (set_device d s) (sv_i v) = mapping s (sv_i v)) as Hmap.
  { rw /mapping /= Hs lookup_insert_ne //. }
  split.
  - split; try done.
    + by rw /= insert_id.
    + split; [apply Hf|]. rw Hmap. by eapply owns_mono; [apply Hf|..].
    + by left.
    + rw /blocks Hmap. by left.
    + intros c Hc _ Hn. rw /= Hs lookup_insert_ne //. congruence.
  - intros fb'. rw /fblock Hmap. case_decide as Hfb.
    + by rw Hfb Hm bool_decide_eq_false_2 // Hs lookup_insert_eq.
    + destruct (mapping s (sv_i v) !! fb') as [c|] eqn:Hc; [|done]. case_bool_decide; [done|].
      rw Hs lookup_insert_ne //. intros ->. by apply Hfb, Honce.
Qed.

Lemma rewrites_refl sv s v :
  volume s → svs s !! sv = Some v → file_ok s (sv_i v) → rewrites sv s v s v ∧ same_contents s (sv_i v) s (sv_i v).
Proof.
  intros Hv Hsv Hf. split; [|done]. split; try done; [by rw insert_id | by left | by left].
Qed.

(** The size changed. *)
Lemma resize_rewrites sv s v n :
  volume s → file_ok s (sv_i v) →
  let v' := SfsVnode (set_size n (sv_i v)) (sv_ino v) true in
  rewrites sv s v (set_svs <[sv := v']> s) v' ∧ same_contents s (sv_i v) (set_svs <[sv := v']> s) (sv_i v').
Proof.
  intros Hv Hf v'. split; [|done]. split; try done.
  - by apply volume_svs.
  - split; [apply Hf|]. by eapply owns_mono; [apply Hf|..].
  - by right.
  - by left.
Qed.

Section meta.
Context `{!Hardware} (sv : loc).

(** Looking a block up, or allocating it, leaves the contents of the file. *)
Lemma bmap_contents s v fb doalloc r s' :
  svs s !! sv = Some v → file_ok s (sv_i v) → bmap_result sv s v fb doalloc r s' →
  ∃ v', rewrites sv s v s' v' ∧ sfi_size (sv_i v') = sfi_size (sv_i v) ∧ same_contents s (sv_i v) s' (sv_i v') ∧
    match r with
    | inl e => e = EFBIG ∧ 143 ≤ fb ∨ e = ENOSPC ∧ doalloc = true ∧ mapping s (sv_i v) !! Z.to_nat fb = Some 0
    | inr b => fb < 143 ∧ mapping s' (sv_i v') !! Z.to_nat fb = Some b ∧ (doalloc = true → b ≠ 0) ∧
        (doalloc = false → v' = v ∧ ∃ d', s' = set_device d' s ∧ sectors d' = sectors (sfs_device s))
    end.
Proof.
  intros Hsv Hf (v' & Hg & Hr). exists v'.
  assert (sfi_size (sv_i v') = sfi_size (sv_i v)) as -> by apply (g_rest _ _ _ _ _ Hg).
  assert (∀ fb' c, mapping s (sv_i v) !! fb' = Some c → mapping s' (sv_i v') !! fb' = Some c → fblock s' (sv_i v') fb' = fblock s (sv_i v) fb') as Hkeep.
  { intros fb' c Hc Hc'. rw /fblock Hc Hc'. case_bool_decide as H0; [done|].
    destruct (mapped_block _ _ _ _ Hf Hc H0) as (? & ? & ? & _). rw (g_sectors _ _ _ _ _ Hg) //. lia. }
  assert (mapping s' (sv_i v') = mapping s (sv_i v) → rewrites sv s v s' v' ∧ same_contents s (sv_i v) s' (sv_i v')) as Hsame.
  { intros He. split; [apply grows_rewrites; [done|]; rw He; by left|]. intros fb'. destruct (mapping s (sv_i v) !! fb') as [c|] eqn:Hc.
    - apply (Hkeep fb' c); congruence.
    - by rw /fblock He Hc. }
  destruct r as [e|b].
  { destruct Hr as [He Hr]. destruct (Hsame He). done. }
  destruct Hr as (Hfb & Hmap & Hcase). destruct Hcase as [(Hb & Hor & d' & -> & Hs)|(H0 & -> & Hrange & Hfree & _ & Hz)].
  - rw list_insert_id // in Hmap. destruct (Hsame Hmap). do 4 (split; [done|]). rw Hmap. split; [done|].
    split; [naive_solver|]. intros _. split; [|by exists d'].
    pose proof (g_svs _ _ _ _ _ Hg) as Hg'. simpl in Hg'. rw Hg' lookup_insert_eq in Hsv. congruence.
  - assert (mapping s' (sv_i v') !! Z.to_nat fb = Some b) as Hb.
    { rw Hmap list_lookup_insert_eq //. by eapply lookup_lt_Some. }
    split; [apply grows_rewrites; [done|]|split; [done|split; [|split; [done|split; [done|split; [lia|done]]]]]].
    { intros c [k Hk]%list_elem_of_lookup _. rw Hmap list_lookup_insert_Some in Hk.
      destruct Hk as [(_ & <- & _)|[_ Hk]]; [by right | left; by eapply list_elem_of_lookup_2]. }
    intros fb'. destruct (decide (fb' = Z.to_nat fb)) as [->|Hne].
    + rw /fblock Hb H0 bool_decide_eq_false_2; [|lia]. by rw Hz.
    + destruct (mapping s (sv_i v) !! fb') as [c|] eqn:Hc.
      * apply (Hkeep fb' c); [done|]. by rw Hmap list_lookup_insert_ne.
      * by rw /fblock Hmap list_lookup_insert_ne // Hc.
Qed.

(** ** Reading *)

Lemma metaio_read k s v pos data (Q : Z * list Z → state → Prop) :
  held s → volume s → ready (4 + k) s → is_live sv s = true → svs s !! sv = Some v → file_ok s (sv_i v) →
  0 ≤ pos < 143 * 512 → pos mod 512 + 4 * Z.of_nat (length data) ≤ 512 →
  (∀ d', volume (set_device d' s) → ready k (set_device d' s) → same_env s (set_device d' s) →
     sectors d' = sectors (sfs_device s) →
     Q (0, take (length data) (drop (Z.to_nat (pos mod 512 / 4)) (fblock s (sv_i v) (Z.to_nat (pos / 512))))) (set_device d' s)) →
  wp (sfs_metaio sv pos data UIO_READ) Q s.
Proof.
  intros Hh Hv Hrd Hl Hsv Hf Hpos Hlen HQ. rw /sfs_metaio. wp_step. eapply wp_Ok; [by apply do_i_hold_held|].
  wp_step. apply wp_kassert; [done|]. wp_step. unfold SFS_BLOCKSIZE.
  rw Z.quot_div_nonneg; [|lia..]. rw Z.rem_mod_nonneg; [|lia..]. rw !u32_small; [|zlia..].
  eapply wp_mono; [apply (bmap_spec sv (1 + k) s v); try done; zlia|].
  intros r s1 [Hr Hrd1]. destruct (bmap_contents _ _ _ _ _ _ Hsv Hf Hr) as (v' & Hg & _ & Hc & Hcase).
  destruct r as [e|b]; [exfalso; destruct Hcase as [[_ ?]|(_ & ? & _)]; [zlia|done]|].
  destruct Hcase as (_ & Hm & _ & Hd). destruct (Hd eq_refl) as (-> & d' & -> & Hs).
  assert (mapping (set_device d' s) (sv_i v) = mapping s (sv_i v)) as Hmap by (by rw /mapping /= Hs). rw Hmap in Hm.
  assert (∀ n m, fblock s (sv_i v) (Z.to_nat (pos / 512)) = zeros → (m + n ≤ 128)%nat →
    take n (drop m (fblock s (sv_i v) (Z.to_nat (pos / 512)))) = replicate n 0) as Hzero.
  { intros n m -> Hn. rw /zeros drop_replicate take_replicate. f_equal. unfold SFS_DBPERIDB. lia. }
  bd_case (b = 0) as H0.
  - wp_step. apply wp_kassert; [done|]. apply wp_ret. rw -(Hzero _ (Z.to_nat (pos mod 512 / 4))); [| by rw /fblock Hm H0 | zlia].
    apply HQ; [apply Hg | by apply (ready_le (1 + k)); [lia|] | apply Hg | done].
  - destruct (mapped_block _ _ _ _ Hf Hm H0) as (Hrange & _). wp_step.
    apply (readblock_ok k); [by eapply same_env_held, Hh; apply Hg | apply Hg | simpl; lia | done |].
    intros d2 data' Hv2 Hr2 He2 Hs2 Hb Hlen'. simpl in Hs2, Hb. cbn beta iota.
    rw bool_decide_eq_false_2; [|by intros []]. rw bool_decide_eq_false_2; [|rw Hlen'; zlia]. apply wp_ret.
    assert (data' = fblock s (sv_i v) (Z.to_nat (pos / 512))) as ->.
    { rw /fblock Hm bool_decide_eq_false_2 //. by rw -Hs Hb. }
    apply (HQ d2); [done | done | exact (transitivity (w_env _ _ _ _ _ Hg) He2) | by rw Hs2 /= Hs].
Qed.

(** ** Writing *)

(** The file grows to [n] bytes, if it is shorter. *)
Lemma extend_size s v n (Q : unit → state → Prop) :
  volume s → file_ok s (sv_i v) → is_live sv s = true → svs s !! sv = Some v → 0 ≤ n < 2 ^ 32 →
  (∀ s' v', rewrites sv s v s' v' → same_contents s (sv_i v) s' (sv_i v') →
     sfi_size (sv_i v') = Z.max (sfi_size (sv_i v)) n → sfs_device s' = sfs_device s → Q tt s') →
  wp (if bool_decide (n > sfi_size (sv_i v)) then upd_inode sv (set_size (u32 n)) else mret tt) Q s.
Proof.
  intros Hv Hf Hl Hsv Hn HQ. bd_case (n > sfi_size (sv_i v)) as Hgt.
  - eapply wp_upd_inode; [done..|]. destruct (resize_rewrites sv s v n Hv Hf) as [Hw Hc]. rw u32_small //.
    eapply HQ; [exact Hw | exact Hc | simpl; lia | done].
  - apply wp_ret. destruct (rewrites_refl sv s v) as [Hw Hc]; [done..|]. eapply HQ; [exact Hw | exact Hc | lia | done].
Qed.

Lemma metaio_write k s v pos data (Q : Z * list Z → state → Prop) :
  held s → volume s → ready (5 + k) s → is_live sv s = true → svs s !! sv = Some v → file_ok s (sv_i v) →
  0 ≤ pos < 2 ^ 32 → pos mod 512 + 4 * Z.of_nat (length data) ≤ 512 →
  (∀ s' v' e, rewrites sv s v s' v' → same_contents s (sv_i v) s' (sv_i v') → sfi_size (sv_i v') = sfi_size (sv_i v) →
     ready k s' → e = EFBIG ∧ 143 * 512 ≤ pos ∨ e = ENOSPC ∧ mapping s (sv_i v) !! Z.to_nat (pos / 512) = Some 0 →
     Q (e, data) s') →
  (∀ s' v', rewrites sv s v s' v' → pos < 143 * 512 → ready k s' →
     sfi_size (sv_i v') = Z.max (sfi_size (sv_i v)) (pos + 4 * Z.of_nat (length data)) →
     (∀ fb, fblock s' (sv_i v') fb = if decide (fb = Z.to_nat (pos / 512))
        then splice (Z.to_nat (pos mod 512 / 4)) data (fblock s (sv_i v) fb) else fblock s (sv_i v) fb) →
     Q (0, data) s') →
  wp (sfs_metaio sv pos data UIO_WRITE) Q s.
Proof.
  intros Hh Hv Hrd Hl Hsv Hf Hpos Hlen Herr HQ. rw /sfs_metaio. wp_step. eapply wp_Ok; [by apply do_i_hold_held|].
  wp_step. apply wp_kassert; [done|]. wp_step. unfold SFS_BLOCKSIZE.
  rw Z.quot_div_nonneg; [|lia..]. rw Z.rem_mod_nonneg; [|lia..]. rw (u32_small (pos / 512)); [|zlia]. rw (u32_small (pos mod 512)); [|zlia].
  eapply wp_mono; [apply (bmap_spec sv (2 + k) s v); try done; zlia|].
  intros r s1 [Hr Hrd1]. destruct (bmap_contents _ _ _ _ _ _ Hsv Hf Hr) as (v1 & Hw1 & Hsz1 & Hc1 & Hcase).
  destruct r as [e|b].
  { apply wp_ret. apply (Herr s1 v1); try done; [by apply (ready_le (2 + k)); [lia|]|].
    destruct Hcase as [[-> ?]|(-> & _ & Hm)]; [left; split; [done|zlia] | by right]. }
  destruct Hcase as (Hfb & Hm & Hb0 & _). specialize (Hb0 eq_refl). rw bool_decide_eq_false_2 //.
  pose proof (w_file _ _ _ _ _ Hw1) as Hf1. pose proof (w_svs _ _ _ _ _ Hw1) as Hsv1.
  destruct (mapped_block _ _ _ _ Hf1 Hm Hb0) as (Hrange & _).
  pose proof (same_env_held _ _ (w_env _ _ _ _ _ Hw1) Hh) as Hh1.
  wp_step. apply (readblock_ok (1 + k)); [done | apply Hw1 | lia | done |].
  intros d2 buf Hv2 Hr2 He2 Hs2 Hb Hbuf. cbn beta iota.
  rw bool_decide_eq_false_2; [|by intros []]. rw bool_decide_eq_false_2; [|rw Hbuf; zlia]. wp_step.
  assert (buf = fblock s (sv_i v) (Z.to_nat (pos / 512))) as Hold.
  { by rw -Hc1 /fblock Hm bool_decide_eq_false_2 // Hb. }
  rw -/(splice (Z.to_nat (pos mod 512 / 4)) data buf).
  apply (writeblock_ready k); [by eapply same_env_held | done | simpl; lia | done | rw splice_length; [done|rw Hbuf; zlia] |].
  intros d3 Hv3 Hr3 He3 Hs3. rw bool_decide_eq_false_2; [|by intros []].
  destruct (sector_rewrites sv s1 v1 _ b _ d3 ltac:(by rw Hsv1 lookup_insert_eq) Hf1 Hm Hb0 Hv3 (transitivity He2 He3)
    ltac:(by rw Hs3 /= Hs2)) as [Hw3 Hc3].
  assert (is_live sv (set_device d3 s1) = true) as Hl3 by (by rw (same_env_live _ _ _ (w_env _ _ _ _ _ (rewrites_trans _ _ _ _ _ _ _ Hw1 Hw3)))).
  assert (svs (set_device d3 s1) !! sv = Some v1) as Hsv3 by (by rw /= Hsv1 lookup_insert_eq).
  wp_step. eapply wp_deref; [by rw Hl3|]. wp_step. rw s64_small; [|zlia].
  apply (extend_size (set_device d3 s1) v1); [done | apply Hw3 | done | done | zlia |].
  intros s4 v4 Hw4 Hc4 Hsz4 Hd4. apply wp_ret. apply (HQ s4 v4); [by eapply rewrites_trans, rewrites_trans | zlia | by rw /ready Hd4 | by rw Hsz4 Hsz1 |].
  intros fb. rw Hc4 Hc3. destruct (decide (fb = Z.to_nat (pos / 512))) as [->|]; [by rw Hold | apply Hc1].
Qed.
End meta.
