(* ===== verification/SfsDirThms.v ===== *)
(** * SFS directories are maps

    The operations on directory entries implement a finite map from names to
    inode numbers. *)

From stdpp Require Import base tactics list gmap option numbers ssreflect.
From S2P Require Import Prelude Kern.
From S2P Require Import Uio Lhd Bitmap Sfs SfsFacts SfsTrunc SfsThms SfsDir SfsNames.

Open Scope Z_scope.

(** ** The entries of a directory *)

Definition nslots (i : sfs_dinode) : nat := Z.to_nat (sfi_size i / SIZEOF_DIRENTRY).

Definition slot_entry (s : state) (i : sfs_dinode) (k : nat) : sfs_direntry :=
  words_direntry (take 16 (drop (16 * (k mod 8)) (fblock s i (k / 8)))).

Definition slots (s : state) (i : sfs_dinode) : list sfs_direntry := slot_entry s i <$> seq 0 (nslots i).

(** A file of a mounted volume whose inode is in memory at [sv]. *)
Record file_open (sv : loc) (s : state) (v : sfs_vnode) : Prop := {
  fo_held : held s;
  fo_volume : volume s;
  fo_live : is_live sv s = true;
  fo_vnode : svs s !! sv = Some v;
  fo_file : file_ok s (sv_i v)
}.

(** The directory stands for the map [D]. *)
Record directory (s : state) (v : sfs_vnode) (D : gmap (list Z) Z) : Prop := {
  d_type : sfi_type (sv_i v) = SFS_TYPE_DIR;
  d_size : 0 ≤ sfi_size (sv_i v) ≤ 143 * 512 ∧ sfi_size (sv_i v) mod SIZEOF_DIRENTRY = 0;
  d_names : names (slots s (sv_i v)) D
}.

Lemma slots_lookup s i k : slots s i !! k = if decide (k < nslots i)%nat then Some (slot_entry s i k) else None.
Proof.
  rw /slots list_lookup_fmap. case_decide as Hk; [by rw lookup_seq_lt|]. by rw lookup_seq_ge; [|lia].
Qed.

Lemma file_open_rewrites sv s v s' v' : file_open sv s v → rewrites sv s v s' v' → file_open sv s' v'.
Proof.
  intros Ho Hw. split.
  - eapply same_env_held; [apply Hw | apply Ho].
  - apply Hw.
  - rw (same_env_live _ _ _ (w_env _ _ _ _ _ Hw)). apply Ho.
  - rw (w_svs _ _ _ _ _ Hw). apply lookup_insert_eq.
  - apply Hw.
Qed.

Lemma slots_same s i s' i' : same_contents s i s' i' → sfi_size i' = sfi_size i → slots s' i' = slots s i.
Proof.
  intros Hc Hs. rw /slots /nslots Hs. apply list_fmap_ext. intros k x _. by rw /slot_entry Hc.
Qed.

Lemma directory_same sv s v D s' v' :
  directory s v D → rewrites sv s v s' v' → same_contents s (sv_i v) s' (sv_i v') → sfi_size (sv_i v') = sfi_size (sv_i v) →
  directory s' v' D.
Proof.
  intros [] Hw Hc Hs. split; [by rw (w_type _ _ _ _ _ Hw) | by rw Hs | by rw (slots_same s (sv_i v))].
Qed.

(** Where a slot lies. *)
Lemma slot_position k : (k ≤ 1144)%nat → let pos := u32 (Z.of_nat k * SIZEOF_DIRENTRY) in
  pos = 64 * Z.of_nat k ∧ Z.to_nat (pos / 512) = (k / 8)%nat ∧ Z.to_nat (pos mod 512 / 4) = (16 * (k mod 8))%nat ∧
  pos mod 512 + 64 ≤ 512.
Proof.
  intros Hk pos. assert (pos = 64 * Z.of_nat k) as ->.
  { rw /pos u32_small; unfold SIZEOF_DIRENTRY; lia. }
  split; [done|]. split; [|split].
  - rw -(Nat2Z.id (k / 8)) Nat2Z.inj_div. f_equal. zlia.
  - rw -(Nat2Z.id (16 * (k mod 8))) Nat2Z.inj_mul Nat2Z.inj_mod. f_equal. zlia.
  - zlia.
Qed.

Section dir.
Context `{!Hardware} (sv : loc).

(** Nothing but the disk has moved on. *)
Definition only_read (s s' : state) : Prop :=
  ∃ d, s' = set_device d s ∧ sectors d = sectors (sfs_device s) ∧ volume s' ∧ same_env s s'.

Lemma only_read_rewrites s v s' :
  file_open sv s v → only_read s s' → rewrites sv s v s' v ∧ same_contents s (sv_i v) s' (sv_i v).
Proof.
  intros Ho (d & -> & Hd & Hv & He).
  assert (mapping (set_device d s) (sv_i v) = mapping s (sv_i v)) as Hm by (by rw /mapping /= Hd).
  split; [|by intros fb; rw /fblock Hm /= Hd]. split; try done.
  - rw insert_id //. apply Ho.
  - split; [apply Ho|]. rw Hm. eapply owns_mono; [apply Ho|done|done].
  - by left.
  - rw /blocks Hm. by left.
  - intros b _ _ _. by rw /= Hd.
Qed.

Lemma readdir_spec k s v j :
  file_open sv s v → ready (4 + k) s → (j < 1144)%nat →
  wp (sfs_readdir sv (Z.of_nat j)) (λ r s', r = (0, slot_entry s (sv_i v) j) ∧ only_read s s' ∧ ready k s') s.
Proof.
  intros Ho Hrd Hj. destruct (slot_position j) as (Hp & Hb & Hoff & Hin); [lia|]. rw /sfs_readdir. wp_step.
  apply (metaio_read sv k s v); [apply Ho | apply Ho | done | apply Ho | apply Ho | apply Ho | lia | simpl; lia |].
  intros d Hv Hr He Hs. apply wp_ret. rw Hb Hoff /=. split; [done|]. split; [by exists d|done].
Qed.

(** ** Searching *)

(** What is known after the first [i] slots of [l] have been searched. *)
Record searched (l : list sfs_direntry) (name : list Z) (i : nat) (f : found_name) : Prop := {
  se_empty : ∀ z, f_empty f = Some z → ∃ j e, z = Z.of_nat j ∧ (j < i)%nat ∧ l !! j = Some e ∧ sfd_ino e = SFS_NOINO;
  se_none : f_slot f = None → ∀ j e, (j < i)%nat → l !! j = Some e → sfd_ino e ≠ SFS_NOINO → entry_name e ≠ name;
  se_some : ∀ z, f_slot f = Some z → ∃ j e, z = Z.of_nat j ∧ (j < i)%nat ∧ l !! j = Some e ∧
    f_ino f = Some (sfd_ino e) ∧ sfd_ino e ≠ SFS_NOINO ∧ entry_name e = name
}.

Lemma searched_0 l name : searched l name 0 (Found None None None).
Proof. split; [done | lia | done]. Qed.

(** The cases of one slot. *)
Lemma searched_step l D name i e f s :
  names l D → l !! i = Some e → searched l name i f →
  wp (look_at (Z.of_nat i) e name f) (λ f' s', s' = s ∧ searched l name (S i) f') s.
Proof.
  intros Hl He [Hem Hno Hso].
  assert (∀ z, f_empty f = Some z → ∃ j e', z = Z.of_nat j ∧ (j < S i)%nat ∧ l !! j = Some e' ∧ sfd_ino e' = SFS_NOINO) as Hem'.
  { intros z (j & e' & ? & ? & ?)%Hem. exists j, e'. split_and!; naive_solver lia. }
  assert (∀ z, f_slot f = Some z → ∃ j e', z = Z.of_nat j ∧ (j < S i)%nat ∧ l !! j = Some e' ∧
    f_ino f = Some (sfd_ino e') ∧ sfd_ino e' ≠ SFS_NOINO ∧ entry_name e' = name) as Hso'.
  { intros z (j & e' & ? & ? & ?)%Hso. exists j, e'. split_and!; naive_solver lia. }
  rw /look_at -/(entry_name e). bd_case (sfd_ino e = SFS_NOINO) as Hino; [|bd_case (entry_name e = name) as Hen].
  - apply wp_ret. split; [done|]. split; simpl; [|intros Hf j e' Hj He' Hne|exact Hso'].
    + intros z [= <-]. exists i, e. split_and!; [done|lia|done|done].
    + destruct (decide (j = i)) as [->|]; [congruence|]. apply (Hno Hf j); [lia|done..].
  - destruct (f_slot f) as [z|] eqn:Hf.
    { destruct (Hso z eq_refl) as (j & e' & _ & Hj & He' & _ & Hne & Hen').
      pose proof (n_once _ _ Hl j i e' e He' He Hne Hino ltac:(congruence)). lia. }
    wp_step. apply wp_kassert; [done|]. apply wp_ret. split; [done|]. split; simpl; [exact Hem' | done |].
    intros z [= <-]. exists i, e. split_and!; [done|lia|done..].
  - apply wp_ret. split; [done|]. split; [exact Hem' | | exact Hso'].
    intros Hf j e' Hj He' Hne. destruct (decide (j = i)) as [->|]; [congruence|]. apply (Hno Hf j); [lia|done..].
Qed.

(** What [sfs_dir_findname] gives. *)
Definition findname_result (l : list sfs_direntry) (D : gmap (list Z) Z) (name : list Z) (r : Z * found_name) : Prop :=
  match D !! name with
  | Some ino => r.1 = 0 ∧ f_ino r.2 = Some ino ∧ ∃ j e, f_slot r.2 = Some (Z.of_nat j) ∧ l !! j = Some e ∧ holds_name e name ino
  | None => r.1 = ENOENT
  end ∧
  ∀ z, f_empty r.2 = Some z → ∃ j e, z = Z.of_nat j ∧ l !! j = Some e ∧ sfd_ino e = SFS_NOINO.

Lemma searched_all l D name f :
  names l D → searched l name (length l) f → findname_result l D name (if bool_decide (f_slot f = None) then ENOENT else 0, f).
Proof.
  intros Hl [Hem Hno Hso]. split.
  - destruct (f_slot f) as [z|] eqn:Hf; simpl.
    + destruct (Hso z eq_refl) as (j & e & -> & _ & Hj & Hi & Hne & Hen).
      assert (D !! name = Some (sfd_ino e)) as ->; [apply (n_map _ _ Hl); by exists j, e|].
      split; [done|]. split; [done|]. exists j, e. by rw Hf.
    + destruct (D !! name) as [ino|] eqn:HD; [|done]. apply (n_map _ _ Hl) in HD as (j & e & Hj & <- & Hne & Hen).
      destruct (Hno eq_refl j e); [by eapply lookup_lt_Some|done..].
  - intros z (j & e & ? & _ & ?)%Hem. by exists j, e.
Qed.

Lemma nentries_spec s v D (Q : Z → state → Prop) :
  file_open sv s v → directory s v D → Q (Z.of_nat (nslots (sv_i v))) s → wp (sfs_dir_nentries sv) Q s.
Proof.
  intros Ho [Ht [Hs0 Hs] _] HQ. rw /sfs_dir_nentries. wp_step. eapply wp_deref; [rw (fo_live _ _ _ Ho); apply Ho|].
  wp_step. apply wp_kassert; [by apply bool_decide_eq_true_2|]. rw bool_decide_eq_false_2; [|by intros []]. apply wp_ret.
  rw /nslots Z2Nat.id in HQ; [|unfold SIZEOF_DIRENTRY; zlia]. done.
Qed.

Lemma only_read_trans s1 s2 s3 : only_read s1 s2 → only_read s2 s3 → only_read s1 s3.
Proof. intros (d & -> & Hd & _ & He) (d' & -> & Hd' & Hv & He'). exists d'. split; [done|]. split; [by rw Hd' /= Hd|]. split; [done|by etrans]. Qed.

Lemma nslots_bound s v D : directory s v D → (nslots (sv_i v) ≤ 1144)%nat.
Proof. intros [_ [Hs _] _]. rw /nslots /SIZEOF_DIRENTRY. zlia. Qed.

Lemma findname_spec k s v D name :
  file_open sv s v → directory s v D → ready (4 * nslots (sv_i v) + k) s →
  wp (sfs_dir_findname sv name) (λ r s', findname_result (slots s (sv_i v)) D name r ∧ only_read s s' ∧ ready k s') s.
Proof.
  intros Ho Hd Hrd. pose proof (nslots_bound _ _ _ Hd) as Hn. set (n := nslots (sv_i v)) in *.
  assert (length (slots s (sv_i v)) = n) as Hlen by (by rw /slots length_fmap length_seq).
  rw /sfs_dir_findname. wp_step. apply (nentries_spec s v D); [done..|]. rw -/n Nat2Z.id.
  apply (wp_while (λ m '(z, f) s', ∃ i, z = Z.of_nat i ∧ (i + m)%nat = n ∧ searched (slots s (sv_i v)) name i f ∧
    only_read s s' ∧ ready (4 * m + k) s') _ _ n); [|lia|].
  { exists 0%nat. split_and!; [done | done | apply searched_0 | | done].
    exists (sfs_device s). rw same_device. split_and!; [done | done | apply Ho | done]. }
  intros m [z f] s1 (i & -> & Hi & Hf & Hr1 & Hrd1). destruct (only_read_rewrites _ _ _ Ho Hr1) as [Hw1 Hc1].
  bd_case (Z.of_nat i < Z.of_nat n) as Hlt.
  - destruct m as [|m]; [lia|]. wp_step. eapply wp_mono.
    { apply (readdir_spec (4 * m + k) s1 v i); [by eapply file_open_rewrites | | lia].
      by replace (4 + (4 * m + k))%nat with (4 * S m + k)%nat by lia. }
    intros r s2 (-> & Hr2 & Hrd2). rw bool_decide_eq_false_2; [|by intros []]. wp_step.
    assert (slot_entry s1 (sv_i v) i = slot_entry s (sv_i v) i) as -> by (by rw /slot_entry Hc1).
    eapply wp_mono; [apply (searched_step (slots s (sv_i v)) D); [apply Hd | rw slots_lookup decide_True //; lia | exact Hf]|].
    intros f' _s [-> Hf']. apply wp_ret. exists m. split; [lia|]. exists (S i).
    split_and!; [lia | lia | done | by eapply only_read_trans | done].
  - apply wp_ret. assert (m = 0%nat) as -> by lia. split; [|done]. apply searched_all; [apply Hd|]. by replace (length _) with i by lia.
Qed.

(** ** Writing a slot *)

(** The slots after a slot's words have been replaced. *)
Lemma put_entry s i s' i' j e :
  volume s → file_ok s i → (j < 1144)%nat →
  length (direntry_words e) = 16%nat → words_direntry (direntry_words e) = e →
  (∀ fb, fblock s' i' fb = if decide (fb = (j / 8)%nat) then splice (16 * (j mod 8)) (direntry_words e) (fblock s i fb) else fblock s i fb) →
  (j ≤ nslots i)%nat → nslots i' = Nat.max (nslots i) (S j) → put_slot (slots s i) j e (slots s' i').
Proof.
  intros Hv Hf Hj Hlen Hread Hblk Hle Hns k. rw !slots_lookup Hns.
  pose proof (Nat.div_mod_eq j 8). pose proof (Nat.mod_upper_bound j 8 ltac:(done)).
  pose proof (Nat.div_mod_eq k 8). pose proof (Nat.mod_upper_bound k 8 ltac:(done)).
  assert (length (fblock s i (j / 8)) = 128%nat) as Hfb by (apply fblock_length; [done..|]; lia).
  destruct (decide (k = j)) as [->|Hne].
  - rw decide_True; [|lia]. rw /slot_entry Hblk decide_True // -Hlen splice_same ?Hread //. rw Hlen Hfb. lia.
  - assert (slot_entry s' i' k = slot_entry s i k) as ->.
    { rw /slot_entry Hblk. case_decide as Hkj; [|done]. rw Hkj splice_other //; rw Hlen ?Hfb; lia. }
    destruct (decide (k < nslots i)%nat); [rw decide_True //; lia | rw decide_False //; lia].
Qed.

Lemma writedir_spec k s v D j ino name (Q : Z → state → Prop) :
  file_open sv s v → directory s v D → ready (5 + k) s → (j ≤ nslots (sv_i v))%nat →
  name_ok name → (length name < SFS_NAMELEN)%nat →
  (∀ s' v' e, rewrites sv s v s' v' → directory s' v' D →
     ready k s' → e = EFBIG ∧ j = 1144%nat ∨ e = ENOSPC ∧ mapping s (sv_i v) !! (j / 8)%nat = Some 0 → Q e s') →
  (∀ s' v', rewrites sv s v s' v' → ready k s' → put_slot (slots s (sv_i v)) j (new_entry ino name) (slots s' (sv_i v')) →
     (∀ D', names (slots s' (sv_i v')) D' → directory s' v' D') → Q 0 s') →
  wp (sfs_writedir sv (Z.of_nat j) (new_entry ino name)) Q s.
Proof.
  intros Ho Hd Hrd Hj Hn Hl Herr HQ. pose proof (nslots_bound _ _ _ Hd) as Hbound.
  destruct (slot_position j) as (Hp & Hb & Hoff & Hin); [lia|]. destruct (entry_words ino name Hn Hl) as [Hlen Hread].
  rw /sfs_writedir. wp_step. apply wp_kassert; [apply bool_decide_eq_true_2; lia|]. wp_step.
  apply (metaio_write sv k s v); [apply Ho | apply Ho | done | apply Ho | apply Ho | apply Ho | lia | rw Hlen; lia | |].
  - intros s' v' e Hw Hc Hs Hrd' He. apply wp_ret. apply (Herr s' v'); [done | by eapply directory_same | done |].
    rw Hb in He. destruct He as [[-> ?]|[-> ?]]; [left; split; [done|lia] | by right].
  - intros s' v' Hw Hlt Hrd' Hsz Hblk. apply wp_ret. rw Hb Hoff in Hblk. rw Hlen Hp in Hsz.
    destruct Hd as [Ht [Hs0 Hsm] Hnm]. unfold SIZEOF_DIRENTRY in *.
    assert (nslots (sv_i v') = Nat.max (nslots (sv_i v)) (S j)) as Hns.
    { rw /nslots Hsz /SIZEOF_DIRENTRY. clear -Hs0 Hsm. zlia. }
    apply (HQ s' v'); [done | done | |].
    + apply put_entry; try done; [apply Ho | apply Ho | lia].
    + intros D' HD'. split; [by rw (w_type _ _ _ _ _ Hw) | rw Hsz /SIZEOF_DIRENTRY | done]. clear -Hs0 Hsm Hlt Hp Hj. zlia.
Qed.

(** ** Linking and unlinking *)

(** The file has been rewritten and the directory now stands for [D]. *)
Definition becomes (s : state) (v : sfs_vnode) (s' : state) (D : gmap (list Z) Z) : Prop :=
  ∃ v', rewrites sv s v s' v' ∧ directory s' v' D.

Lemma writedir_after s v s1 s2 D : file_open sv s v → only_read s s1 → becomes s1 v s2 D → becomes s v s2 D.
Proof.
  intros Ho Hr (v' & Hw & Hd). exists v'. split; [|done]. eapply rewrites_trans, Hw. by apply only_read_rewrites.
Qed.

(** A name has been added; the entries in use are where they were. *)
Definition adds (s : state) (v : sfs_vnode) (s' : state) (D : gmap (list Z) Z) : Prop :=
  ∃ v', rewrites sv s v s' v' ∧ directory s' v' D ∧
    ∀ j e, slots s (sv_i v) !! j = Some e → sfd_ino e ≠ SFS_NOINO → slots s' (sv_i v') !! j = Some e.

Lemma adds_after s v s1 s2 D :
  file_open sv s v → only_read s s1 → slots s1 (sv_i v) = slots s (sv_i v) → adds s1 v s2 D → adds s v s2 D.
Proof.
  intros Ho Hr Hsl (v' & Hw & Hd & Hj). exists v'. split; [|by rw -Hsl]. eapply rewrites_trans, Hw. by apply only_read_rewrites.
Qed.

(** The outcomes of [sfs_dir_link]. *)
Definition linked (s : state) (v : sfs_vnode) (D : gmap (list Z) Z) (name : list Z) (ino : Z) (r : Z * option Z) (s' : state) : Prop :=
  r.1 = 0 ∧ is_Some r.2 ∧ D !! name = None ∧ (length name < SFS_NAMELEN)%nat ∧ adds s v s' (<[name := ino]> D) ∨
  becomes s v s' D ∧
    (r.1 = EEXIST ∧ is_Some (D !! name) ∨
     D !! name = None ∧ (r.1 = ENAMETOOLONG ∧ (SFS_NAMELEN ≤ length name)%nat ∨ r.1 = ENOSPC ∨ r.1 = EFBIG ∧ nslots (sv_i v) = 1144%nat)).

Lemma link_write k s s1 v D name ino j :
  file_open sv s v → only_read s s1 → slots s1 (sv_i v) = slots s (sv_i v) → directory s1 v D → ready (5 + k) s1 → D !! name = None →
  name_ok name → (length name < SFS_NAMELEN)%nat → 0 < ino → (j ≤ nslots (sv_i v))%nat →
  (∀ e, slots s1 (sv_i v) !! j = Some e → sfd_ino e = SFS_NOINO) →
  wp (result ← sfs_writedir sv (Z.of_nat j) (new_entry ino name); mret (result, Some (Z.of_nat j)))
    (λ r s', linked s v D name ino r s' ∧ ready k s') s1.
Proof.
  intros Ho Hr1 Hsl Hd1 Hrd1 HD Hn Hl Hi Hj Hempty. destruct (only_read_rewrites _ _ _ Ho Hr1) as [Hw1 _].
  pose proof (nslots_bound _ _ _ Hd1) as Hbound. wp_step.
  apply (writedir_spec k s1 v D j); [by eapply file_open_rewrites | done..| |].
  - intros s' v' e Hw Hd' Hrd' He. apply wp_ret. split; [|done]. right. split; [apply (writedir_after s v s1 s'); [done..|]; by exists v'|].
    right. split; [done|]. right. destruct He as [[-> Hj']|[-> _]]; [right | by left]. split; [done|lia].
  - intros s' v' Hw Hrd' Hput Hdir. apply wp_ret. split; [|done]. left. split; [done|]. split; [by eexists|]. do 2 (split; [done|]).
    apply (adds_after s v s1 s'); [done..|]. exists v'. split; [done|]. split.
    + apply Hdir. eapply names_link; [apply Hd1 | exact Hput | done..| unfold SFS_NOINO; lia | done].
    + intros j' e He Hne. rw Hput. rw decide_False //. intros ->. by apply Hne, Hempty.
Qed.

Lemma dir_link_spec k s v D name ino :
  file_open sv s v → directory s v D → ready (4 * nslots (sv_i v) + (5 + k)) s → name_ok name → 0 < ino →
  wp (sfs_dir_link sv name ino) (λ r s', linked s v D name ino r s' ∧ ready k s') s.
Proof.
  intros Ho Hd Hrd Hn Hi. rw /sfs_dir_link. wp_step. eapply wp_mono; [by apply (findname_spec (5 + k) s v D)|].
  intros [r f] s1 ([Hres Hem] & Hr1 & Hrd1). simpl in Hem. destruct (only_read_rewrites _ _ _ Ho Hr1) as [Hw1 Hc1].
  pose proof (directory_same _ _ _ _ _ _ Hd Hw1 Hc1 eq_refl) as Hd1.
  assert (slots s1 (sv_i v) = slots s (sv_i v)) as Hsl by (by apply slots_same).
  assert (becomes s v s1 D) as Hsame by (by exists v).
  assert (ready k s1) as Hrd2 by (by apply (ready_le (5 + k)); [lia|]).
  destruct (D !! name) as [i|] eqn:HD; simpl in Hres.
  { destruct Hres as [-> _]. rw bool_decide_eq_false_2; [|by intros [[] _]]. rw bool_decide_eq_true_2 //. apply wp_ret.
    split; [|done]. right. split; [done|]. left. by split; [|rw HD; eexists]. }
  subst r. rw bool_decide_eq_false_2; [|by intros [_ []]]. rw bool_decide_eq_false_2; [|done].
  bd_case (SFS_NAMELEN < length name + 1)%nat as Hlong.
  { apply wp_ret. split; [|done]. right. split; [done|]. right. split; [done|]. left. split; [done|lia]. }
  destruct (f_empty f) as [z|] eqn:Hf; simpl.
  - destruct (Hem z eq_refl) as (j & e & -> & Hj & He). rw bool_decide_eq_false_2; [|lia]. wp_step. wp_step.
    apply link_write; try done; [lia | | by rw Hsl; congruence].
    rw slots_lookup in Hj. case_decide; [lia|done].
  - wp_step. apply (nentries_spec s1 v D); [by eapply file_open_rewrites | done |].
    apply link_write; try done; [lia|]. intros e. rw slots_lookup decide_False //. lia.
Qed.

Lemma hd_replicate n : hd 0 (replicate n 0) = 0.
Proof. by destruct n. Qed.

Lemma dir_unlink_spec k s v D name ino j e :
  file_open sv s v → directory s v D → ready (5 + k) s → slots s (sv_i v) !! j = Some e → holds_name e name ino →
  wp (sfs_dir_unlink sv (Z.of_nat j)) (λ r s', r = 0 ∧ becomes s v s' (delete name D) ∧ ready k s') s.
Proof.
  intros Ho Hd Hrd Hj He. pose proof Hj as Hj'. rw slots_lookup in Hj'. case_decide as Hlt; [|done]. injection Hj' as <-.
  pose proof (nslots_bound _ _ _ Hd) as Hbound. rw /sfs_dir_unlink.
  apply (writedir_spec k s v D j); [done..| lia | constructor | unfold SFS_NAMELEN; simpl; lia | |].
  - intros s' v' r Hw Hd' _ [[_ ?]|[_ H0]]; [lia|]. exfalso. destruct He as (He & Hne & _). apply Hne. rw -He.
    rw /slot_entry /fblock H0 /zeros drop_replicate take_replicate. by apply hd_replicate.
  - intros s' v' Hw Hrd' Hput Hdir. split; [done|]. split; [|done]. exists v'. split; [done|]. apply Hdir.
    eapply names_unlink; [apply Hd | done..].
Qed.
End dir.

(** ** The theorem *)

(** C12: a directory of a mounted volume is a finite map from names to inode
    numbers. Assumed: the VFS lock is held, the directory's inode is in memory,
    the disk answers every operation needed (four for each slot and five), and
    [name] has no byte 0. [sfs_dir_findname] finds what the map has under the
    name, and where, or returns [ENOENT]; nothing changes. [sfs_dir_link] of an
    inode number above 0 adds a name that is not there; it returns [EEXIST] for
    one that is, [ENAMETOOLONG] for 60 bytes or more, [ENOSPC] on a full disk
    and [EFBIG] when the directory has 1144 slots in use, the map unchanged.
    [sfs_dir_unlink] of a slot that holds the name removes the name. Sectors of
    other files keep their contents and no panic is reached. *)
Theorem sfs_directory_is_map `{!Hardware} sv s v D name :
  file_open sv s v → directory s v D → ready (4 * nslots (sv_i v) + 5) s → name_ok name →
  wp (sfs_dir_findname sv name) (λ r s', findname_result (slots s (sv_i v)) D name r ∧ only_read s s') s ∧
  (∀ ino, 0 < ino → wp (sfs_dir_link sv name ino) (λ r s', linked sv s v D name ino r s') s) ∧
  (∀ j e ino, slots s (sv_i v) !! j = Some e → holds_name e name ino →
     wp (sfs_dir_unlink sv (Z.of_nat j)) (λ r s', r = 0 ∧ becomes sv s v s' (delete name D)) s).
Proof.
  intros Ho Hd Hrd Hn. split; [|split].
  - eapply wp_mono; [by apply (findname_spec sv 5 s v D)|]. by intros r s' (? & ? & _).
  - intros ino Hi. eapply wp_mono; [by apply (dir_link_spec sv 0)|]. by intros r s' [? _].
  - intros j e ino Hj He. eapply wp_mono; [eapply (dir_unlink_spec sv 0); try done|].
    { apply (ready_le (4 * nslots (sv_i v) + 5)); [lia|done]. }
    by intros r s' (? & ? & _).
Qed.

(** ** A directory of two slots

    One holds the name "a", the other is free. *)
#[local] Instance keeps_old : Hardware := λ old _, old.

Definition dir_inode : sfs_dinode := Dinode 128 SFS_TYPE_DIR 1 (4 :: replicate 14 0) 0 (replicate 110 0).

Definition dir_block : list Z := direntry_words (new_entry 3 [97]) ++ replicate 112 0.

Definition dir_disk (l : list Z) : lhd :=
  Lhd 12 1 0 0 0 0 zeros (<[4 := dir_block]> (list_to_map ((λ b, (b, zeros)) <$> seqZ 0 12))) l.

Definition dir_vnode : sfs_vnode := SfsVnode dir_inode 1 false.

Definition dir_volume : state := volume_with (dir_disk (replicate 13 LHD_OK)) dir_inode 1 (Some 100%positive) 1.

Definition dir_map : gmap (list Z) Z := {[ [97] := 3 ]}.

Lemma dir_disk_rest l : at_rest (dir_disk l).
Proof.
  split; [done | done | done | done |]. intros b Hb. change (0 ≤ b < 12) in Hb.
  assert (Forall (λ b, (length <$> sectors (dir_disk l) !! b) = Some 128%nat) (seqZ 0 12)) as Hall by by_decide.
  rw Forall_forall in Hall. pose proof (Hall b ltac:(apply elem_of_seqZ; lia)) as Hb'.
  apply fmap_Some in Hb' as (l' & -> & Hl'). by exists l'.
Qed.

Lemma dir_open : file_open 6%positive dir_volume dir_vnode.
Proof.
  split; [apply volume_with_held | by apply volume_with_ok; [apply dir_disk_rest|] | by_decide | done |].
  split; [done|]. apply owns_check_sound. by vm_compute.
Qed.

Lemma dir_slots : slots dir_volume dir_inode = [new_entry 3 [97]; new_entry 0 []].
Proof. by vm_compute. Qed.

Lemma dir_stands_for : directory dir_volume dir_vnode dir_map.
Proof.
  split; [done | by vm_compute |]. change (sv_i dir_vnode) with dir_inode. rw dir_slots. split.
  - intros name ino. rw /dir_map lookup_singleton_Some. split.
    + intros [<- <-]. exists 0%nat, (new_entry 3 [97]). by vm_compute.
    + intros ([|[|k]] & e & Hk & Hi & Hne & Hn); [| | done]; injection Hk as <-.
      * rw -Hi -Hn. by vm_compute.
      * by rw -Hi in Hne.
  - intros [|[|j]] [|[|k]] e e' Hj Hk; try done; injection Hj as <-; injection Hk as <-; by vm_compute.
Qed.

(** "a" is found and removed; a new name goes into the free slot. *)
Lemma sfs_directory_is_map_witness :
  wp (sfs_dir_unlink 6%positive 0) (λ r s', r = 0 ∧ becomes 6%positive dir_volume dir_vnode s' (delete [97] dir_map)) dir_volume ∧
  wp (sfs_dir_link 6%positive [98] 5) (λ r s', linked 6%positive dir_volume dir_vnode dir_map [98] 5 r s') dir_volume ∧
  (λ o, match o with Ok r _ => r = ((0, Some 1), (0, Found (Some 5) (Some 1) None)) | _ => False end)
    ((r ← sfs_dir_link 6%positive [98] 5; q ← sfs_dir_findname 6%positive [98]; mret (r, q)) dir_volume).
Proof.
  assert (∀ c, 0 < c < 256 → name_ok [c]) as Hn by (intros; by constructor).
  pose proof (sfs_directory_is_map 6%positive dir_volume dir_vnode dir_map [97] dir_open dir_stands_for
    (irqs_ready 13 dir_volume eq_refl) (Hn 97 ltac:(lia))) as (_ & _ & Hunlink).
  pose proof (sfs_directory_is_map 6%positive dir_volume dir_vnode dir_map [98] dir_open dir_stands_for
    (irqs_ready 13 dir_volume eq_refl) (Hn 98 ltac:(lia))) as (_ & Hlink & _).
  split; [|split].
  - apply (Hunlink 0%nat (new_entry 3 [97]) 3); [vm_compute; reflexivity|]. split; [reflexivity|]. split; [discriminate|vm_compute; reflexivity].
  - apply Hlink. reflexivity.
  - vm_compute. reflexivity.
Defined.
