(* ===== verification/SfsIo.v ===== *)
(** * Reading and writing SFS files: sfs_io in kern/fs/sfs/sfs_io.c

    The caller's buffer is a list of bytes that is there; what [uiomove] does with
    buffers that are not mapped is the matter of Uio.v.  A block is 128 words on
    the disk and 512 bytes here. *)

From stdpp Require Import base tactics list gmap option numbers ssreflect.
From S2P Require Import Prelude Kern.
From S2P Require Import Uio Lhd Bitmap Sfs SfsDir SfsNames.

Open Scope Z_scope.

(** ** The caller's uio *)

(** The buffer, how many of its bytes have been moved, and the fields of
    [struct uio] that the file system changes. *)
Record fuio := Fuio { fu_buf : list Z; fu_pos : nat; fu_offset : Z; fu_resid : Z; fu_rw : uio_rw }.

Definition set_buf b u := Fuio b (fu_pos u) (fu_offset u) (fu_resid u) (fu_rw u).
Definition set_resid r u := Fuio (fu_buf u) (fu_pos u) (fu_offset u) r (fu_rw u).

(** [n] bytes have been moved. *)
Definition advance (n : nat) u :=
  Fuio (fu_buf u) (fu_pos u + n) (s64 (fu_offset u + Z.of_nat n)) (u32 (fu_resid u - Z.of_nat n)) (fu_rw u).

(** [uiomove(p, n, uio)]: the memory at [p] afterwards, and the [uio]. *)
Definition uiomove (p : list Z) (n : Z) (u : fuio) : list Z * fuio :=
  let k := Z.to_nat (Z.min n (fu_resid u)) in
  match fu_rw u with
  | UIO_READ => (p, advance k (set_buf (splice (fu_pos u) (take k p) (fu_buf u)) u))
  | UIO_WRITE => (splice 0 (take k (drop (fu_pos u) (fu_buf u))) p, advance k u)
  end.

Definition uiomovezeros (n : Z) (u : fuio) : fuio := (uiomove (replicate (Z.to_nat n) 0) n u).2.

Section hw.
Context `{!Hardware}.

(** ** Blocks *)

Definition sfs_partialio (sv : loc) (u : fuio) (skipstart len : Z) : M state (Z * fuio) :=
  let doalloc := bool_decide (fu_rw u = UIO_WRITE) in
  kassert (bool_decide (u32 (skipstart + len) <= SFS_BLOCKSIZE));;
  mine ← vfs_biglock_do_i_hold;
  kassert mine;;
  let fileblock := u32 (Z.quot (fu_offset u) SFS_BLOCKSIZE) in
  r ← sfs_bmap sv fileblock doalloc;
  match r with
  | inl result => mret (result, u)
  | inr diskblock =>
      r ← (if bool_decide (diskblock = 0) then
             kassert (bool_decide (fu_rw u = UIO_READ));;
             mret (0, zeros)
           else sfs_readblock diskblock);
      let '(result, words) := r in
      if bool_decide (result ≠ 0) then mret (result, u)
      else
        let iobuf := unpack words in
        let skip := Z.to_nat skipstart in
        let '(p, u') := uiomove (drop skip iobuf) len u in
        let iobuf := take skip iobuf ++ p in
        if bool_decide (fu_rw u = UIO_WRITE) then
          result ← sfs_writeblock diskblock (pack iobuf);
          if bool_decide (result ≠ 0) then mret (result, u') else mret (0, u')
        else mret (0, u')
  end.

(** The transfer between the device and the caller's buffer, of one block. *)
Definition device_io (diskoff : Z) (u : fuio) : M state (Z * fuio) :=
  let mem := match fu_rw u with
             | UIO_WRITE => pack (take 512 (drop (fu_pos u) (fu_buf u)))
             | UIO_READ => zeros
             end in
  r ← sfs_rwblock (Kuio mem 0 diskoff SFS_BLOCKSIZE (fu_rw u));
  let '(result, ku) := r in
  let n := (4 * ku_pos ku)%nat in
  let buf := match fu_rw u with
             | UIO_WRITE => fu_buf u
             | UIO_READ => splice (fu_pos u) (take n (unpack (ku_mem ku))) (fu_buf u)
             end in
  mret (result, Fuio buf (fu_pos u + n) (ku_offset ku) (ku_resid ku) (fu_rw u)).

Definition sfs_blockio (sv : loc) (u : fuio) : M state (Z * fuio) :=
  let doalloc := bool_decide (fu_rw u = UIO_WRITE) in
  let fileblock := u32 (Z.quot (fu_offset u) SFS_BLOCKSIZE) in
  r ← sfs_bmap sv fileblock doalloc;
  match r with
  | inl result => mret (result, u)
  | inr diskblock =>
      if bool_decide (diskblock = 0) then
        kassert (bool_decide (fu_rw u = UIO_READ));;
        mret (0, uiomovezeros SFS_BLOCKSIZE u)
      else
        let saveoff := fu_offset u in
        let diskoff := u32 (diskblock * SFS_BLOCKSIZE) in
        kassert (bool_decide (fu_resid u >= SFS_BLOCKSIZE));;
        let saveres := fu_resid u in
        let diskres := SFS_BLOCKSIZE in
        r ← device_io diskoff u;
        let '(result, u) := r in
        mret (result, Fuio (fu_buf u) (fu_pos u) (s64 (s64 (fu_offset u - diskoff) + saveoff))
                        (u32 (s64 (s64 (fu_resid u - diskres) + saveres))) (fu_rw u))
  end.

(** ** Whole regions *)

Definition whole_blocks (sv : loc) (nblocks : Z) (u : fuio) : M state (Z * fuio) :=
  while (S (Z.to_nat nblocks)) (0, u) (λ '(i, u),
    if bool_decide (i < nblocks) then
      r ← sfs_blockio sv u;
      let '(result, u) := r in
      if bool_decide (result ≠ 0) then mret (inr (result, u)) else mret (inl (i + 1, u))
    else mret (inr (0, u))).

(** Between the check for the end of the file and the label [out]. *)
Definition io_region (sv : loc) (u : fuio) : M state (Z * fuio) :=
  let blkoff := u32 (Z.rem (fu_offset u) SFS_BLOCKSIZE) in
  r ← (if bool_decide (blkoff ≠ 0) then
         let len := SFS_BLOCKSIZE - blkoff in
         let len := if bool_decide (len > fu_resid u) then fu_resid u else len in
         sfs_partialio sv u blkoff len
       else mret (0, u));
  let '(result, u) := r in
  if bool_decide (result ≠ 0) then mret (result, u)
  else if bool_decide (fu_resid u = 0) then mret (0, u)
  else
    kassert (bool_decide (Z.rem (fu_offset u) SFS_BLOCKSIZE = 0));;
    r ← whole_blocks sv (fu_resid u / SFS_BLOCKSIZE) u;
    let '(result, u) := r in
    if bool_decide (result ≠ 0) then mret (result, u)
    else
      kassert (bool_decide (fu_resid u < SFS_BLOCKSIZE));;
      if bool_decide (fu_resid u > 0) then sfs_partialio sv u 0 (fu_resid u) else mret (0, u).

(** From the label [out] on. *)
Definition io_out (sv : loc) (origresid extraresid result : Z) (u : fuio) : M state (Z * fuio) :=
  v ← load_sv sv;
  (if bool_decide (fu_resid u ≠ origresid ∧ fu_rw u = UIO_WRITE ∧ fu_offset u > sfi_size (sv_i v)) then
     upd_inode sv (set_size (u32 (fu_offset u)))
   else mret tt);;
  mret (result, set_resid (u32 (fu_resid u + extraresid)) u).

Definition sfs_io (sv : loc) (u : fuio) : M state (Z * fuio) :=
  let origresid := fu_resid u in
  v ← load_sv sv;
  let size := sfi_size (sv_i v) in
  let endpos := s64 (fu_offset u + fu_resid u) in
  let reading := bool_decide (fu_rw u = UIO_READ) in
  if reading && bool_decide (fu_offset u >= size) then mret (0, u)
  else
    let extraresid := if reading && bool_decide (endpos > size) then u32 (endpos - size) else 0 in
    (if reading && bool_decide (endpos > size) then kassert (bool_decide (fu_resid u > extraresid)) else mret tt);;
    r ← io_region sv (set_resid (u32 (fu_resid u - extraresid)) u);
    let '(result, u) := r in
    io_out sv origresid extraresid result u.

(** ** The vnode operations *)

Definition sfs_read (sv : loc) (u : fuio) : M state (Z * fuio) :=
  kassert (bool_decide (fu_rw u = UIO_READ));;
  vfs_biglock_acquire;;
  r ← sfs_io sv u;
  vfs_biglock_release;;
  mret r.

Definition sfs_write (sv : loc) (u : fuio) : M state (Z * fuio) :=
  kassert (bool_decide (fu_rw u = UIO_WRITE));;
  vfs_biglock_acquire;;
  r ← sfs_io sv u;
  vfs_biglock_release;;
  mret r.
End hw.
