(* ===== verification/SfsIoFacts.v ===== *)
(** * Steps of reading and writing a file

    What one block-sized step of [sfs_io] moves between a file and the caller's
    buffer. *)

From stdpp Require Import base tactics list gmap option numbers ssreflect.
From S2P Require Import Prelude Kern.
From S2P Require Import Uio Lhd Bitmap Sfs SfsFacts SfsTrunc SfsDir SfsNames SfsDirThms SfsIo.

Open Scope Z_scope.

(** ** Bytes *)

Lemma unpack_length ws : length (unpack ws) = (4 * length ws)%nat.
Proof. induction ws as [|w ws IH]; [done|]. rw unpack_cons length_app IH /=. lia. Qed.

Lemma unpack_bytes ws : Forall byte (unpack ws).
Proof.
  induction ws as [|w ws IH]; [constructor|]. rw unpack_cons. apply Forall_app. split; [|done].
  rw /byte. repeat constructor; zlia.
Qed.

Lemma splice_inside off data l i :
  (off + length data ≤ length l)%nat → (off ≤ i < off + length data)%nat → splice off data l !! i = data !! (i - off)%nat.
Proof.
  intros Hl Hi. rw /splice lookup_app_r length_take; [|lia]. rw lookup_app_l; [|lia]. f_equal. lia.
Qed.

Lemma splice_bytes off data l : Forall byte data → Forall byte l → Forall byte (splice off data l).
Proof. intros. rw /splice !Forall_app. split_and!; [by apply Forall_take | done | by apply Forall_drop]. Qed.

Lemma splice_drop skip data l : take skip l ++ splice 0 data (drop skip l) = splice skip data l.
Proof. by rw /splice take_0 drop_drop. Qed.

(** Byte [n] of the file. *)
Definition fbyte (s : state) (i : sfs_dinode) (n : nat) : option Z := unpack (fblock s i (n / 512)) !! (n mod 512)%nat.

Lemma fbyte_same s i s' i' n : same_contents s i s' i' → fbyte s' i' n = fbyte s i n.
Proof. intros Hc. by rw /fbyte Hc. Qed.

Lemma fbyte_in s i fb m : (m < 512)%nat → fbyte s i (512 * fb + m) = unpack (fblock s i fb) !! m.
Proof.
  intros Hm. rw /fbyte. assert ((512 * fb + m) / 512 = fb)%nat as ->.
  { rw Nat.mul_comm Nat.div_add_l // Nat.div_small //; lia. }
  assert ((512 * fb + m) mod 512 = m)%nat as ->; [|done]. by rw Nat.mul_comm Nat.add_comm Nat.Div0.mod_add Nat.mod_small.
Qed.

(** ** Steps *)

(** The [uio] after [k] bytes. *)
Record moved_by (u u' : fuio) (k : nat) : Prop := {
  m_offset : fu_offset u' = fu_offset u + Z.of_nat k;
  m_pos : fu_pos u' = (fu_pos u + k)%nat;
  m_resid : fu_resid u' = fu_resid u - Z.of_nat k;
  m_rw : fu_rw u' = fu_rw u;
  m_length : length (fu_buf u') = length (fu_buf u)
}.

(** A request that makes sense. *)
Record request (u : fuio) : Prop := {
  q_offset : 0 ≤ fu_offset u;
  q_resid : 0 ≤ fu_resid u;
  q_end : fu_offset u + fu_resid u < 2 ^ 32;
  q_buf : Z.of_nat (fu_pos u) + fu_resid u ≤ Z.of_nat (length (fu_buf u));
  q_bytes : Forall byte (fu_buf u)
}.

(** [k] bytes of the file have been read into the buffer. *)
Record got (s : state) (v : sfs_vnode) (u : fuio) (s' : state) (u' : fuio) (k : nat) : Prop := {
  t_read : only_read s s';
  t_moved : moved_by u u' k;
  t_request : request u';
  t_bytes : ∀ j, (j < k)%nat → fu_buf u' !! (fu_pos u + j)%nat = fbyte s (sv_i v) (Z.to_nat (fu_offset u) + j);
  t_rest : ∀ i, (i < fu_pos u ∨ fu_pos u + k ≤ i)%nat → fu_buf u' !! i = fu_buf u !! i
}.

(** [k] bytes of the buffer have been written to the file. *)
Record put (sv : loc) (s : state) (v : sfs_vnode) (u : fuio) (s' : state) (v' : sfs_vnode) (u' : fuio) (k : nat) : Prop := {
  p_rewrites : rewrites sv s v s' v';
  p_size : sfi_size (sv_i v') = sfi_size (sv_i v);
  p_moved : moved_by u u' k;
  p_request : request u';
  p_buf : fu_buf u' = fu_buf u;
  p_bytes : ∀ n, fbyte s' (sv_i v') n =
    if decide (Z.to_nat (fu_offset u) ≤ n < Z.to_nat (fu_offset u) + k)%nat
    then fu_buf u !! (fu_pos u + (n - Z.to_nat (fu_offset u)))%nat else fbyte s (sv_i v) n
}.

Lemma moved_by_refl u : moved_by u u 0.
Proof. split; lia || done. Qed.

Lemma moved_by_trans u1 u2 u3 k k' : moved_by u1 u2 k → moved_by u2 u3 k' → moved_by u1 u3 (k + k').
Proof. intros [] []. split; lia || congruence. Qed.

Lemma only_read_refl s : volume s → only_read s s.
Proof. intros Hv. exists (sfs_device s). by rw same_device. Qed.

Lemma fbyte_read s v s' sv n : file_open sv s v → only_read s s' → fbyte s' (sv_i v) n = fbyte s (sv_i v) n.
Proof. intros Ho Hr. apply fbyte_same. by apply (only_read_rewrites sv s v). Qed.

Lemma got_refl s v u : volume s → request u → got s v u s u 0.
Proof. intros Hv Hq. split; [by apply only_read_refl | apply moved_by_refl | done | lia | done]. Qed.

Lemma got_trans sv s1 v u1 s2 u2 s3 u3 k k' :
  file_open sv s1 v → request u1 → got s1 v u1 s2 u2 k → got s2 v u2 s3 u3 k' → got s1 v u1 s3 u3 (k + k').
Proof.
  intros Ho Hq A B. pose proof (t_moved _ _ _ _ _ _ A) as M. pose proof (q_offset _ Hq).
  pose proof (m_pos _ _ _ M) as Hp. pose proof (m_offset _ _ _ M) as Hoff. split.
  - eapply only_read_trans; [apply A | apply B].
  - eapply moved_by_trans; [apply A | apply B].
  - apply B.
  - intros j Hj. destruct (decide (j < k)%nat).
    + rw (t_rest _ _ _ _ _ _ B); [by apply (t_bytes _ _ _ _ _ _ A) | lia].
    + replace (fu_pos u1 + j)%nat with (fu_pos u2 + (j - k))%nat by lia. rw (t_bytes _ _ _ _ _ _ B); [|lia].
      rw (fbyte_read s1 v s2 sv) //; [|apply A]. f_equal. lia.
  - intros i Hi. rw (t_rest _ _ _ _ _ _ B); [|lia]. apply (t_rest _ _ _ _ _ _ A). lia.
Qed.

Lemma put_refl sv s v u : volume s → svs s !! sv = Some v → file_ok s (sv_i v) → request u → put sv s v u s v u 0.
Proof.
  intros Hv Hsv Hf Hq. split; [by apply rewrites_refl | done | apply moved_by_refl | done | done |].
  intros n. rw decide_False //. lia.
Qed.

Lemma put_trans sv s1 v1 u1 s2 v2 u2 s3 v3 u3 k k' :
  request u1 → put sv s1 v1 u1 s2 v2 u2 k → put sv s2 v2 u2 s3 v3 u3 k' → put sv s1 v1 u1 s3 v3 u3 (k + k').
Proof.
  intros Hq A B. pose proof (p_moved _ _ _ _ _ _ _ _ A) as M. pose proof (q_offset _ Hq).
  pose proof (m_pos _ _ _ M) as Hp. pose proof (m_offset _ _ _ M) as Hoff. split.
  - eapply rewrites_trans; [apply A | apply B].
  - rw (p_size _ _ _ _ _ _ _ _ B). apply A.
  - eapply moved_by_trans; [apply A | apply B].
  - apply B.
  - rw (p_buf _ _ _ _ _ _ _ _ B). apply A.
  - intros n. rw (p_bytes _ _ _ _ _ _ _ _ B) (p_bytes _ _ _ _ _ _ _ _ A) (p_buf _ _ _ _ _ _ _ _ A).
    repeat case_decide; try lia; try done. f_equal. lia.
Qed.

Lemma advance_moved k u b :
  request u → Z.of_nat k ≤ fu_resid u → length b = length (fu_buf u) → Forall byte b →
  moved_by u (advance k (set_buf b u)) k ∧ request (advance k (set_buf b u)).
Proof.
  intros [] Hk Hb Hbytes. assert (s64 (fu_offset u + Z.of_nat k) = fu_offset u + Z.of_nat k) as E1 by (apply s64_small; lia).
  assert (u32 (fu_resid u - Z.of_nat k) = fu_resid u - Z.of_nat k) as E2 by (apply u32_small; lia).
  split; split; simpl; rw ?E1 ?E2 //; lia.
Qed.

(** [uiomove] of bytes that are in the file. *)
Lemma uiomove_got s v u s' p k :
  fu_rw u = UIO_READ → request u → only_read s s' → Z.of_nat k ≤ fu_resid u → (k ≤ length p)%nat → Forall byte p →
  (∀ j, (j < k)%nat → p !! j = fbyte s (sv_i v) (Z.to_nat (fu_offset u) + j)) →
  (uiomove p (Z.of_nat k) u).1 = p ∧ got s v u s' (uiomove p (Z.of_nat k) u).2 k.
Proof.
  intros Hrw Hq Hr Hk Hp Hb Hbytes. pose proof (q_buf _ Hq). rw /uiomove Hrw Z.min_l // Nat2Z.id. split; [done|].
  assert (length (take k p) = k) as Hlen by (rw length_take; lia).
  assert (fu_pos u + length (take k p) ≤ length (fu_buf u))%nat as Hfit by lia.
  destruct (advance_moved k u (splice (fu_pos u) (take k p) (fu_buf u)) Hq Hk) as [Hm Hq'].
  { by apply splice_length. }
  { apply splice_bytes; [by apply Forall_take | apply Hq]. }
  split; try done.
  - intros j Hj. rw /= splice_inside; [|lia..]. rw lookup_take_lt; [|lia]. rw -Hbytes //. f_equal. lia.
  - intros i Hi. rw /= splice_lookup; [done|lia..].
Qed.

(** ** Reading *)

Section steps.
Context `{!Hardware} (sv : loc).

(** Looking up a block without allocating. *)
Lemma bmap_read k s v fb (Q : Z + Z → state → Prop) :
  file_open sv s v → ready (3 + k) s → 0 ≤ fb < 143 →
  (∀ b s', only_read s s' → mapping s (sv_i v) !! Z.to_nat fb = Some b → ready k s' → Q (inr b) s') →
  wp (sfs_bmap sv fb false) Q s.
Proof.
  intros Ho Hrd Hfb HQ. eapply wp_mono; [apply (bmap_spec sv k s v); try done; [apply Ho..|lia]|].
  intros r s1 [Hr Hrd1]. destruct (bmap_contents _ _ _ _ _ _ _ (fo_vnode _ _ _ Ho) (fo_file _ _ _ Ho) Hr) as (v' & Hw & _ & _ & Hcase).
  destruct r as [e|b]; [exfalso; destruct Hcase as [[_ ?]|(_ & ? & _)]; [lia|done]|].
  destruct Hcase as (_ & Hm & _ & Hd). destruct (Hd eq_refl) as (-> & d & -> & Hs).
  apply HQ; [|by rw /mapping /= Hs in Hm|done]. exists d. split_and!; [done | done | apply Hw | apply Hw].
Qed.

(** [uio] of a whole block, handed to the device. *)
Lemma rwblock_read k b s (Q : Z * kuio → state → Prop) :
  held s → volume s → 0 ≤ b < sb_nblocks s → ready (S k) s →
  (∀ s' data, only_read s s' → ready k s' → sectors (sfs_device s) !! b = Some data → length data = 128%nat →
     Q (0, moved data b UIO_READ) s') →
  wp (sfs_rwblock (block_uio zeros b UIO_READ)) Q s.
Proof.
  intros Hh Hv Hb [rest (l' & Ha & Ha')%arrivals_cons] HQ. pose proof (vol_blocks _ Hv) as Hn.
  destruct (r_sectors _ (vol_device _ Hv) b) as (data & Hd & Hl); [lia|].
  rw /sfs_rwblock. wp_step. eapply wp_Ok; [by apply do_i_hold_held|]. wp_step. apply wp_kassert; [done|].
  apply (read_tries 0 _ _ _ l'); try done; [apply Hv | lia | lia |].
  intros d' Hr Hdb Hs Hi. rw Hs Hd /=. apply HQ; [|exists rest; by rw /= Hi | done | done].
  exists d'. split_and!; [done | done | by apply volume_device | by repeat split].
Qed.

Lemma rwblock_write k mem b s (Q : Z * kuio → state → Prop) :
  held s → volume s → 0 ≤ b < sb_nblocks s → ready (S k) s → length mem = 128%nat →
  (∀ d', volume (set_device d' s) → ready k (set_device d' s) → same_env s (set_device d' s) →
     sectors d' = <[b := mem]> (sectors (sfs_device s)) → Q (0, moved mem b UIO_WRITE) (set_device d' s)) →
  wp (sfs_rwblock (block_uio mem b UIO_WRITE)) Q s.
Proof.
  intros Hh Hv Hb [rest (l' & Ha & Ha')%arrivals_cons] Hm HQ. pose proof (vol_blocks _ Hv) as Hn.
  rw /sfs_rwblock. wp_step. eapply wp_Ok; [by apply do_i_hold_held|]. wp_step. apply wp_kassert; [done|].
  rw /while -/while. do 2 apply wp_bind. apply wp_on_device.
  apply (lhd_io_block UIO_WRITE LHD_OK _ _ l'); try done; [apply Hv | lia | set_solver|].
  apply wp_ret, wp_ret. pose proof (attempt_write_rest mem b l' _ (vol_device _ Hv) ltac:(lia) Hm) as Hrest.
  apply (HQ (attempt UIO_WRITE LHD_OK mem b l' (sfs_device s))); [by apply volume_device | by exists rest | by repeat split | done].
Qed.

(** The words of a mapped block, as [sfs_readblock] gives them. *)
Lemma read_mapped k s v s1 fb b (Q : Z * list Z → state → Prop) :
  file_open sv s v → only_read s s1 → mapping s (sv_i v) !! fb = Some b → b ≠ 0 → ready (1 + k) s1 →
  (∀ s2, only_read s s2 → ready k s2 → Q (0, fblock s (sv_i v) fb) s2) →
  wp (sfs_readblock b) Q s1.
Proof.
  intros Ho Hr Hm Hb0 Hrd HQ. destruct (mapped_block _ _ _ _ (fo_file _ _ _ Ho) Hm Hb0) as (Hb & _).
  pose proof Hr as (d & -> & Hd & Hv & He).
  apply (readblock_ok k); [eapply same_env_held, Ho; done | done | simpl; lia | done |].
  intros d2 data Hv2 Hr2 He2 Hs2 Hdata _. rw /= Hd in Hs2, Hdata.
  assert (data = fblock s (sv_i v) fb) as -> by (by rw /fblock Hm bool_decide_eq_false_2 // Hdata).
  apply HQ; [|done]. eapply only_read_trans; [exact Hr|]. exists d2. by rw /= Hd.
Qed.

(** The bytes of a file from an offset on, within a block. *)
Lemma block_bytes s i off j :
  0 ≤ off → (Z.to_nat (off mod 512) + j < 512)%nat →
  unpack (fblock s i (Z.to_nat (off / 512))) !! (Z.to_nat (off mod 512) + j)%nat = fbyte s i (Z.to_nat off + j).
Proof.
  intros Hoff Hj. rw -fbyte_in //. f_equal. zlia.
Qed.

Lemma fblock_bytes s i fb : volume s → file_ok s i → 0 ≤ fb < 143 → length (unpack (fblock s i (Z.to_nat fb))) = 512%nat.
Proof. intros Hv Hf Hfb. rw unpack_length fblock_length //. lia. Qed.

Lemma partial_read k s v u len :
  file_open sv s v → ready (4 + k) s → fu_rw u = UIO_READ → request u →
  0 < len ≤ fu_resid u → fu_offset u mod 512 + len ≤ 512 → fu_offset u < 143 * 512 →
  wp (sfs_partialio sv u (fu_offset u mod 512) len) (λ r s', r.1 = 0 ∧ got s v u s' r.2 (Z.to_nat len) ∧ ready k s') s.
Proof.
  intros Ho Hrd Hrw Hq Hlen Hin Hoff. pose proof (q_offset _ Hq) as Hoff0.
  rw /sfs_partialio. rw (u32_small (fu_offset u mod 512 + len)); [|zlia].
  wp_step. apply wp_kassert; [apply bool_decide_eq_true_2; unfold SFS_BLOCKSIZE; lia|].
  wp_step. eapply wp_Ok; [apply do_i_hold_held, Ho|]. wp_step. apply wp_kassert; [done|]. unfold SFS_BLOCKSIZE.
  rw Z.quot_div_nonneg; [|lia..]. rw u32_small; [|zlia]. rw Hrw bool_decide_eq_false_2 //.
  wp_step. apply (bmap_read (1 + k) s v); [done | done | zlia |]. intros b s1 Hr1 Hm Hrd1.
  set (fb := Z.to_nat (fu_offset u / 512)) in *. set (skip := Z.to_nat (fu_offset u mod 512)).
  assert (∀ s2, only_read s s2 → ready k s2 → wp
    (let '(p, u') := uiomove (drop skip (unpack (fblock s (sv_i v) fb))) len u in mret (0, u'))
    (λ r s', r.1 = 0 ∧ got s v u s' r.2 (Z.to_nat len) ∧ ready k s') s2) as Hmove.
  { intros s2 Hr2 Hrd2. rw -(Z2Nat.id len); [|lia]. pose proof (fblock_bytes s (sv_i v) (fu_offset u / 512) (fo_volume _ _ _ Ho) (fo_file _ _ _ Ho) ltac:(zlia)) as Hlb.
    destruct (uiomove_got s v u s2 (drop skip (unpack (fblock s (sv_i v) fb))) (Z.to_nat len) Hrw Hq Hr2) as [_ Hgot]; [lia | | | |].
    - rw length_drop Hlb. zlia.
    - apply Forall_drop, unpack_bytes.
    - intros j Hj. rw lookup_drop. apply block_bytes; [done|zlia].
    - destruct (uiomove _ _ u) as [p u']. apply wp_ret. by rw Nat2Z.id. }
  wp_step. bd_case (b = 0) as H0.
  - wp_step. apply wp_kassert; [done|]. apply wp_ret. rw bool_decide_eq_false_2; [|by intros []].
    assert (zeros = fblock s (sv_i v) fb) as -> by (by rw /fblock Hm H0).
    apply Hmove; [done | by apply (ready_le (1 + k)); [lia|]].
  - apply (read_mapped k s v s1 fb b); [done..|]. intros s2 Hr2 Hrd2. rw bool_decide_eq_false_2; [|by intros []]. by apply Hmove.
Qed.

(** A block that the device has read into the buffer, with the fields of the
    [uio] put back. *)
Lemma device_got data b u :
  fu_rw u = UIO_READ → request u → 512 ≤ fu_resid u → 0 ≤ b < 2 ^ 23 →
  let ku := moved data b UIO_READ in
  Fuio (splice (fu_pos u) (take (4 * ku_pos ku) (unpack (ku_mem ku))) (fu_buf u)) (fu_pos u + 4 * ku_pos ku)
    (s64 (s64 (ku_offset ku - b * 512) + fu_offset u)) (u32 (s64 (s64 (ku_resid ku - 512) + fu_resid u))) UIO_READ =
  (uiomove (unpack data) 512 u).2.
Proof.
  intros Hrw [] H512 Hb ku. rw /uiomove Hrw Z.min_l //=. rw /advance /= Hrw /LHD_SECTSIZE.
  rw (s64_small (b * 512 + 512 - b * 512)); [|lia]. rw (s64_small (0 - 512)); [|lia].
  rw (s64_small (0 - 512 + fu_resid u)); [|lia]. f_equal; f_equal; lia.
Qed.

Lemma block_read k s v u :
  file_open sv s v → ready (4 + k) s → fu_rw u = UIO_READ → request u → sb_nblocks s ≤ 2 ^ 23 →
  fu_offset u mod 512 = 0 → 512 ≤ fu_resid u → fu_offset u < 143 * 512 →
  wp (sfs_blockio sv u) (λ r s', r.1 = 0 ∧ got s v u s' r.2 512 ∧ ready k s') s.
Proof.
  intros Ho Hrd Hrw Hq Hnb Hal H512 Hoff. pose proof (q_offset _ Hq) as Hoff0.
  rw /sfs_blockio. unfold SFS_BLOCKSIZE. rw Z.quot_div_nonneg; [|lia..]. rw u32_small; [|zlia].
  rw Hrw (bool_decide_eq_false_2 (UIO_READ = UIO_WRITE)) //. wp_step. apply (bmap_read (1 + k) s v); [done | done | zlia |].
  intros b s1 Hr1 Hm Hrd1. set (fb := Z.to_nat (fu_offset u / 512)) in *.
  pose proof (fblock_bytes s (sv_i v) (fu_offset u / 512) (fo_volume _ _ _ Ho) (fo_file _ _ _ Ho) ltac:(zlia)) as Hlb.
  assert (∀ s2, only_read s s2 → got s v u s2 (uiomove (unpack (fblock s (sv_i v) fb)) 512 u).2 512) as Hgot.
  { intros s2 Hr2. apply (uiomove_got s v u s2 _ 512); [done..| lia | rw Hlb; lia | apply unpack_bytes |].
    intros j Hj. rw -block_bytes; [|done|lia]. by replace (Z.to_nat (fu_offset u mod 512) + j)%nat with j by lia. }
  bd_case (b = 0) as H0.
  - wp_step. apply wp_kassert; [done|]. apply wp_ret. split; [done|]. split; [|by apply (ready_le (1 + k)); [lia|]].
    assert (replicate (Z.to_nat 512) 0 = unpack (fblock s (sv_i v) fb)) as Hz by (by rw /fblock Hm H0).
    rw /uiomovezeros Hz. by apply Hgot.
  - destruct (mapped_block _ _ _ _ (fo_file _ _ _ Ho) Hm H0) as (Hb & _). pose proof Hr1 as (d & -> & Hd & Hv & He).
    wp_step. apply wp_kassert; [apply bool_decide_eq_true_2; lia|]. wp_step. rw /device_io Hrw /SFS_BLOCKSIZE u32_small; [|lia].
    wp_step. apply (rwblock_read k b (set_device d s)); [eapply same_env_held, Ho; done | done | simpl; lia | done |].
    intros s2 data Hr2 Hrd2 Hdata Hlen. rw /= Hd in Hdata.
    assert (data = fblock s (sv_i v) fb) as -> by (by rw /fblock Hm bool_decide_eq_false_2 // Hdata).
    wp_step. apply wp_ret. split; [done|]. split; [|done]. cbn [fst snd fu_buf fu_pos fu_offset fu_resid fu_rw].
    rw device_got //; [|lia]. apply Hgot. by eapply only_read_trans.
Qed.

(** ** Writing *)

(** Looking up a block and allocating it when it is not there. *)
Lemma bmap_write k s v fb (Q : Z + Z → state → Prop) :
  file_open sv s v → ready (3 + k) s → 0 ≤ fb < 2 ^ 32 →
  (∀ e s' v', rewrites sv s v s' v' → same_contents s (sv_i v) s' (sv_i v') → sfi_size (sv_i v') = sfi_size (sv_i v) →
     ready k s' → e = EFBIG ∧ 143 ≤ fb ∨ e = ENOSPC → Q (inl e) s') →
  (∀ b s' v', rewrites sv s v s' v' → same_contents s (sv_i v) s' (sv_i v') → sfi_size (sv_i v') = sfi_size (sv_i v) →
     ready k s' → fb < 143 → mapping s' (sv_i v') !! Z.to_nat fb = Some b → b ≠ 0 → Q (inr b) s') →
  wp (sfs_bmap sv fb true) Q s.
Proof.
  intros Ho Hrd Hfb Herr HQ. eapply wp_mono; [apply (bmap_spec sv k s v); try done; apply Ho|].
  intros r s1 [Hr Hrd1]. destruct (bmap_contents _ _ _ _ _ _ _ (fo_vnode _ _ _ Ho) (fo_file _ _ _ Ho) Hr) as (v' & Hw & Hs & Hc & Hcase).
  destruct r as [e|b]; [eapply Herr | eapply HQ]; try done; naive_solver.
Qed.

(** The outcome of a step that is to write [len] bytes. *)
Definition put_result (s : state) (v : sfs_vnode) (u : fuio) (len : nat) (r : Z * fuio) (s' : state) : Prop :=
  ∃ v', r.1 = 0 ∧ put sv s v u s' v' r.2 len ∧ fu_offset u + Z.of_nat len ≤ 143 * 512 ∨
    (r.1 = EFBIG ∧ 143 * 512 < fu_offset u + Z.of_nat len ∨ r.1 = ENOSPC) ∧ put sv s v u s' v' r.2 0.

Lemma put_nothing s v u s' v' :
  rewrites sv s v s' v' → same_contents s (sv_i v) s' (sv_i v') → sfi_size (sv_i v') = sfi_size (sv_i v) → request u →
  put sv s v u s' v' u 0.
Proof.
  intros Hw Hc Hs Hq. split; try done; [apply moved_by_refl|]. intros n. rw decide_False; [|lia]. by apply fbyte_same.
Qed.

(** A block of the file has been given the words [new], which hold [k] bytes of
    the buffer and what was there. *)
Lemma put_block s v s' v' u u' k new :
  rewrites sv s v s' v' → sfi_size (sv_i v') = sfi_size (sv_i v) → request u → moved_by u u' k → request u' → fu_buf u' = fu_buf u →
  volume s → file_ok s (sv_i v) → fu_offset u < 143 * 512 →
  Z.of_nat k ≤ fu_resid u → fu_offset u mod 512 + Z.of_nat k ≤ 512 →
  (∀ fb, fblock s' (sv_i v') fb = if decide (fb = Z.to_nat (fu_offset u / 512)) then new else fblock s (sv_i v) fb) →
  unpack new = splice (Z.to_nat (fu_offset u mod 512)) (take k (drop (fu_pos u) (fu_buf u)))
    (unpack (fblock s (sv_i v) (Z.to_nat (fu_offset u / 512)))) →
  put sv s v u s' v' u' k.
Proof.
  intros Hw Hs Hq Hm Hq' Hbuf Hv Hf Hoff Hk Hin Hblk Hnew. split; try done. intros n. pose proof (q_offset _ Hq). pose proof (q_buf _ Hq).
  pose proof (Nat.div_mod_eq n 512). pose proof (Nat.mod_upper_bound n 512 ltac:(done)).
  assert (length (take k (drop (fu_pos u) (fu_buf u))) = k) as Hlen by (rw length_take length_drop; lia).
  pose proof (fblock_bytes s (sv_i v) (fu_offset u / 512) Hv Hf ltac:(zlia)) as Hlb.
  assert (Z.to_nat (fu_offset u mod 512) + k ≤ 512)%nat as Hfit by zlia.
  set (skip := Z.to_nat (fu_offset u mod 512)) in *. set (fb := Z.to_nat (fu_offset u / 512)) in *.
  assert (Z.to_nat (fu_offset u) = 512 * fb + skip)%nat as Hpos by zlia.
  rw {1}/fbyte Hblk. destruct (decide (n / 512 = fb)%nat) as [Hfb|Hfb].
  - rw Hnew. case_decide as Hcase.
    + rw splice_inside ?Hlen ?Hlb; [|lia..]. rw lookup_take_lt; [|lia]. rw lookup_drop. f_equal. lia.
    + rw splice_lookup ?Hlen ?Hlb; [|lia..]. by rw /fbyte Hfb.
  - rw decide_False //. lia.
Qed.

(** [uiomove] out of the buffer. *)
Lemma uiomove_put p k u :
  fu_rw u = UIO_WRITE → request u → Z.of_nat k ≤ fu_resid u →
  let r := uiomove p (Z.of_nat k) u in
  r.1 = splice 0 (take k (drop (fu_pos u) (fu_buf u))) p ∧ moved_by u r.2 k ∧ request r.2 ∧ fu_buf r.2 = fu_buf u.
Proof.
  intros Hrw Hq Hk. rw /uiomove Hrw Z.min_l // Nat2Z.id /=. split; [done|].
  destruct (advance_moved k u (fu_buf u) Hq Hk eq_refl (q_bytes _ Hq)) as [Hm Hq']. by destruct u.
Qed.

Lemma buffer_length u k : request u → Z.of_nat k ≤ fu_resid u → length (take k (drop (fu_pos u) (fu_buf u))) = k.
Proof. intros [] Hk. rw length_take length_drop. lia. Qed.

Lemma buffer_bytes u k : request u → Forall byte (take k (drop (fu_pos u) (fu_buf u))).
Proof. intros []. by apply Forall_take, Forall_drop. Qed.

Lemma partial_write k s v u len :
  file_open sv s v → ready (5 + k) s → fu_rw u = UIO_WRITE → request u →
  0 < len ≤ fu_resid u → fu_offset u mod 512 + len ≤ 512 →
  wp (sfs_partialio sv u (fu_offset u mod 512) len) (λ r s', put_result s v u (Z.to_nat len) r s' ∧ ready k s') s.
Proof.
  intros Ho Hrd Hrw Hq Hlen Hin. pose proof (q_offset _ Hq) as Hoff0. pose proof (q_end _ Hq) as Hend.
  rw /sfs_partialio. rw (u32_small (fu_offset u mod 512 + len)); [|zlia].
  wp_step. apply wp_kassert; [apply bool_decide_eq_true_2; unfold SFS_BLOCKSIZE; lia|].
  wp_step. eapply wp_Ok; [apply do_i_hold_held, Ho|]. wp_step. apply wp_kassert; [done|]. unfold SFS_BLOCKSIZE.
  rw Z.quot_div_nonneg; [|lia..]. rw u32_small; [|zlia]. rw Hrw (bool_decide_eq_true_2 (UIO_WRITE = UIO_WRITE)) //.
  wp_step. apply (bmap_write (2 + k) s v); [done | done | zlia | |].
  { intros e s1 v1 Hw Hc Hs Hrd1 He. apply wp_ret. split; [|by apply (ready_le (2 + k)); [lia|]]. exists v1. right.
    split; [|by apply put_nothing]. destruct He as [[-> ?]| ->]; [left; split; [done|]; zlia | by right]. }
  intros b s1 v1 Hw1 Hc1 Hs1 Hrd1 Hfb Hm Hb0. set (fb := Z.to_nat (fu_offset u / 512)) in *.
  pose proof (file_open_rewrites _ _ _ _ _ Ho Hw1) as Ho1.
  wp_step. rw bool_decide_eq_false_2 //. apply (read_mapped (1 + k) s1 v1 s1 fb b); try done; [apply only_read_refl, Ho1|].
  intros s2 Hr2 Hrd2. rw bool_decide_eq_false_2; [|by intros []]. rw Hc1.
  set (skip := Z.to_nat (fu_offset u mod 512)). set (old := unpack (fblock s (sv_i v) fb)).
  assert (length old = 512%nat) as Hlo by (apply fblock_bytes; [apply Ho.. | zlia]).
  destruct (uiomove_put (drop skip old) (Z.to_nat len) u Hrw Hq ltac:(lia)) as (Hp & Hmv & Hq' & Hbf).
  rw Z2Nat.id in Hp; [|lia]. rw Z2Nat.id in Hmv; [|lia]. rw Z2Nat.id in Hq'; [|lia]. rw Z2Nat.id in Hbf; [|lia].
  destruct (uiomove (drop skip old) len u) as [p u']. simpl in Hp, Hmv, Hq', Hbf.
  rw Hp splice_drop. set (data := take (Z.to_nat len) (drop (fu_pos u) (fu_buf u))).
  assert (length data = Z.to_nat len) as Hld by (apply buffer_length; [done|lia]).
  assert (length (splice skip data old) = (4 * 128)%nat) as Hls by (rw splice_length Hlo // Hld; zlia).
  assert (Forall byte (splice skip data old)) as Hsb by (apply splice_bytes; [by apply buffer_bytes | apply unpack_bytes]).
  assert (file_open sv s2 v1) as Ho2 by (eapply file_open_rewrites, only_read_rewrites; done).
  assert (mapping s2 (sv_i v1) = mapping s1 (sv_i v1)) as Hm2 by (destruct Hr2 as (d2 & -> & Hd2 & _); by rw /mapping /= Hd2).
  assert (fu_offset u < 143 * 512) as Hmax by zlia.
  destruct (mapped_block s2 (sv_i v1) fb b (fo_file _ _ _ Ho2) ltac:(by rw Hm2) Hb0) as (Hbr & _).
  wp_step. apply (writeblock_ready k); [apply Ho2 | apply Ho2 | lia | done | by apply pack_length |].
  intros d3 Hv3 Hrd3 He3 Hs3. rw bool_decide_eq_false_2; [|by intros []]. apply wp_ret. split; [|done]. exists v1. left.
  split; [done|]. split; [|zlia].
  destruct (sector_rewrites sv s2 v1 fb b _ d3 (fo_vnode _ _ _ Ho2) (fo_file _ _ _ Ho2) ltac:(by rw Hm2) Hb0 Hv3 He3 Hs3) as [Hw3 Hc3].
  destruct (only_read_rewrites sv s1 v1 s2 Ho1 Hr2) as [Hw2 Hc2].
  apply (put_block s v _ v1 u u' (Z.to_nat len) (pack (splice skip data old))); try done; [ | apply Ho | apply Ho | lia | lia | |].
  - eapply rewrites_trans; [exact Hw1|]. eapply rewrites_trans; [exact Hw2 | exact Hw3].
  - intros fb'. rw Hc3 -/fb. destruct (decide (fb' = fb)); [done|]. by rw Hc2 Hc1.
  - by apply (unpack_pack 128).
Qed.

(** The same for a block the device has written. *)
Lemma device_put mem b u :
  fu_rw u = UIO_WRITE → request u → 512 ≤ fu_resid u → 0 ≤ b < 2 ^ 23 →
  let ku := moved mem b UIO_WRITE in
  Fuio (fu_buf u) (fu_pos u + 4 * ku_pos ku)
    (s64 (s64 (ku_offset ku - b * 512) + fu_offset u)) (u32 (s64 (s64 (ku_resid ku - 512) + fu_resid u))) UIO_WRITE =
  advance 512 u.
Proof.
  intros Hrw [] H512 Hb ku. rw /advance /= Hrw /LHD_SECTSIZE.
  rw (s64_small (b * 512 + 512 - b * 512)); [|lia]. rw (s64_small (0 - 512)); [|lia].
  rw (s64_small (0 - 512 + fu_resid u)); [|lia]. f_equal; f_equal; lia.
Qed.

Lemma block_write k s v u :
  file_open sv s v → ready (5 + k) s → fu_rw u = UIO_WRITE → request u → sb_nblocks s ≤ 2 ^ 23 →
  fu_offset u mod 512 = 0 → 512 ≤ fu_resid u →
  wp (sfs_blockio sv u) (λ r s', put_result s v u 512 r s' ∧ ready k s') s.
Proof.
  intros Ho Hrd Hrw Hq Hnb Hal H512. pose proof (q_offset _ Hq) as Hoff0. pose proof (q_end _ Hq) as Hend.
  rw /sfs_blockio. unfold SFS_BLOCKSIZE. rw Z.quot_div_nonneg; [|lia..]. rw u32_small; [|zlia].
  rw Hrw (bool_decide_eq_true_2 (UIO_WRITE = UIO_WRITE)) //. wp_step.
  apply (bmap_write (2 + k) s v); [done | done | zlia | |].
  { intros e s1 v1 Hw Hc Hs Hrd1 He. apply wp_ret. split; [|by apply (ready_le (2 + k)); [lia|]]. exists v1. right.
    split; [|by apply put_nothing]. destruct He as [[-> ?]| ->]; [left; split; [done|]; zlia | by right]. }
  intros b s1 v1 Hw1 Hc1 Hs1 Hrd1 Hfb Hm Hb0. set (fb := Z.to_nat (fu_offset u / 512)) in *.
  pose proof (file_open_rewrites _ _ _ _ _ Ho Hw1) as Ho1. rw bool_decide_eq_false_2 //.
  destruct (mapped_block s1 (sv_i v1) fb b (fo_file _ _ _ Ho1) Hm Hb0) as (Hbr & _).
  pose proof (proj1 (proj2 (w_env _ _ _ _ _ Hw1))) as Hnb1.
  wp_step. apply wp_kassert; [apply bool_decide_eq_true_2; lia|]. wp_step. rw /device_io Hrw /SFS_BLOCKSIZE u32_small; [|lia].
  set (data := take 512 (drop (fu_pos u) (fu_buf u))).
  assert (length data = 512%nat) as Hld by (apply buffer_length; [done|lia]).
  assert (length (pack data) = 128%nat) as Hlp by (by apply pack_length; rw Hld).
  assert (fu_offset u < 143 * 512) as Hmax by zlia.
  wp_step. apply (rwblock_write k (pack data) b s1); [apply Ho1 | apply Ho1 | lia | by apply (ready_le (2 + k)); [lia|] | done |].
  intros d3 Hv3 Hrd3 He3 Hs3. wp_step. apply wp_ret. split; [|done]. exists v1. left. split; [done|]. split; [|zlia].
  cbn [fst snd fu_buf fu_pos fu_offset fu_resid fu_rw]. rw device_put //; [|lia].
  destruct (sector_rewrites sv s1 v1 fb b _ d3 (fo_vnode _ _ _ Ho1) (fo_file _ _ _ Ho1) Hm Hb0 Hv3 He3 Hs3) as [Hw3 Hc3].
  destruct (advance_moved 512 u (fu_buf u) Hq H512 eq_refl (q_bytes _ Hq)) as [Hmv Hq'].
  assert (set_buf (fu_buf u) u = u) as Hu by (by destruct u). rw Hu in Hmv, Hq'.
  apply (put_block s v _ v1 u _ 512 (pack data)); try done; [by eapply rewrites_trans | apply Ho | apply Ho | lia | |].
  - intros fb'. rw Hc3 -/fb. destruct (decide (fb' = fb)); [done|]. by rw Hc1.
  - rw (unpack_pack 128) //; [|by apply buffer_bytes]. rw -/data Hal /splice Hld take_0 /= drop_ge; [by rw app_nil_r|].
    by rw fblock_bytes; [|apply Ho..|zlia].
Qed.
End steps.
