(* ===== verification/SfsIoThms.v ===== *)
(** * SFS files are byte arrays

    [sfs_io] reads and writes a file at any offset and length. *)

From stdpp Require Import base tactics list gmap option numbers ssreflect.
From S2P Require Import Prelude Kern.
From S2P Require Import Uio Lhd Bitmap Sfs SfsFacts SfsTrunc SfsThms SfsDir SfsNames SfsDirThms SfsIo SfsIoFacts.

Open Scope Z_scope.

Section io.
Context `{!Hardware} (sv : loc).

(** ** Reading *)

Lemma same_nblocks s s' : only_read s s' → sb_nblocks s' = sb_nblocks s.
Proof. by intros (d & -> & _). Qed.

Lemma file_open_read s v s' : file_open sv s v → only_read s s' → file_open sv s' v.
Proof. intros Ho Hr. eapply file_open_rewrites; [done|]. by apply only_read_rewrites. Qed.

Lemma whole_read n k s v u :
  file_open sv s v → ready (4 * n + k) s → fu_rw u = UIO_READ → request u → sb_nblocks s ≤ 2 ^ 23 →
  fu_offset u mod 512 = 0 → 512 * Z.of_nat n ≤ fu_resid u → fu_offset u + 512 * Z.of_nat n ≤ 143 * 512 →
  wp (whole_blocks sv (Z.of_nat n) u) (λ r s', r.1 = 0 ∧ got s v u s' r.2 (512 * n) ∧ ready k s') s.
Proof.
  intros Ho Hrd Hrw Hq Hnb Hal Hres Hoff. rw /whole_blocks Nat2Z.id.
  apply (wp_while (λ m '(z, u1) s1, ∃ i, z = Z.of_nat i ∧ (i + m)%nat = n ∧ got s v u s1 u1 (512 * i) ∧ ready (4 * m + k) s1) _ _ n); [|lia|].
  { exists 0%nat. split_and!; [done | done | apply got_refl; [apply Ho|done] | done]. }
  intros m [z u1] s1 (i & -> & Hi & Hg & Hrd1). destruct (t_moved _ _ _ _ _ _ Hg) as [Eo Ep Er Erw _].
  bd_case (Z.of_nat i < Z.of_nat n) as Hlt.
  - destruct m as [|m]; [lia|]. pose proof (file_open_read _ _ _ Ho (t_read _ _ _ _ _ _ Hg)) as Ho1.
    wp_step. eapply wp_mono.
    { apply (block_read sv (4 * m + k) s1 v u1); [done | by replace (4 + (4 * m + k))%nat with (4 * S m + k)%nat by lia | congruence |
        apply Hg | by rw (same_nblocks _ _ (t_read _ _ _ _ _ _ Hg)) | zlia | lia | lia]. }
    intros [r u2] s2 (Hr & Hg2 & Hrd2). simpl in Hr, Hg2. subst r. rw bool_decide_eq_false_2; [|by intros []]. apply wp_ret.
    exists m. split; [lia|]. exists (S i). split_and!; [lia | lia | | done].
    replace (512 * S i)%nat with (512 * i + 512)%nat by lia. by eapply got_trans.
  - apply wp_ret. assert (m = 0%nat) as -> by lia. assert (i = n) as -> by lia. done.
Qed.

(** ** Writing *)

(** [len] bytes were to be written: all of them have been, or an error after some. *)
Definition wrote (s : state) (v : sfs_vnode) (u : fuio) (len : nat) (r : Z * fuio) (s' : state) : Prop :=
  ∃ v' k, put sv s v u s' v' r.2 k ∧ (k ≤ len)%nat ∧
    (r.1 = 0 ∧ k = len ∧ (len = 0%nat ∨ fu_offset u + Z.of_nat len ≤ 143 * 512) ∨
     (k < len)%nat ∧ (r.1 = EFBIG ∧ 143 * 512 < fu_offset u + Z.of_nat len ∨ r.1 = ENOSPC)).

Lemma wrote_step s v u len r s' : (0 < len)%nat → put_result sv s v u len r s' → wrote s v u len r s'.
Proof.
  intros H0 (v' & [(Hr & Hp & Hl)|[Hr Hp]]).
  - exists v', len. split_and!; [done | lia |]. left. split_and!; [done..|]. by right.
  - exists v', 0%nat. split_and!; [done | lia |]. by right.
Qed.

Lemma wrote_more s v u a b r s' : r.1 ≠ 0 → wrote s v u a r s' → wrote s v u (a + b) r s'.
Proof.
  intros Hr (v' & k & Hp & Hk & [(? & _)|Hcase]); [done|]. exists v', k. split_and!; [done | lia |]. right.
  split; [lia|]. destruct Hcase as [_ [[? ?]|?]]; [left; split; [done|lia] | by right].
Qed.

Lemma wrote_then s v u a b s1 v1 u1 r s' :
  request u → (a = 0%nat ∨ fu_offset u + Z.of_nat a ≤ 143 * 512) → put sv s v u s1 v1 u1 a → wrote s1 v1 u1 b r s' → wrote s v u (a + b) r s'.
Proof.
  intros Hq Ha Hp (v' & k & Hp2 & Hk & Hcase). pose proof (m_offset _ _ _ (p_moved _ _ _ _ _ _ _ _ Hp)) as Ho.
  exists v', (a + k)%nat. split; [by eapply put_trans|]. split; [lia|].
  destruct Hcase as [(? & -> & ?)|[? Hcase]]; [left; split_and!; done || lia | right]. split; [lia|].
  destruct Hcase as [[? ?]|?]; [left; split; [done|lia] | by right].
Qed.

(** An operation that has been all right. *)
Lemma wrote_zero s v u len r s' : r.1 = 0 → wrote s v u len r s' →
  ∃ v', put sv s v u s' v' r.2 len ∧ (len = 0%nat ∨ fu_offset u + Z.of_nat len ≤ 143 * 512).
Proof.
  intros Hr (v' & k & Hp & _ & [(_ & -> & Hl)|[_ [[He _]|He]]]); [by exists v' | by rw He in Hr..].
Qed.

Lemma wrote_nothing s v u : file_open sv s v → request u → wrote s v u 0 (0, u) s.
Proof. intros [] Hq. exists v, 0%nat. split; [by apply put_refl|]. split; [done|]. left. split_and!; [done..|by left]. Qed.

Lemma whole_write n k s v u :
  file_open sv s v → ready (5 * n + k) s → fu_rw u = UIO_WRITE → request u → sb_nblocks s ≤ 2 ^ 23 →
  fu_offset u mod 512 = 0 → 512 * Z.of_nat n ≤ fu_resid u →
  wp (whole_blocks sv (Z.of_nat n) u) (λ r s', wrote s v u (512 * n) r s' ∧ ready k s') s.
Proof.
  intros Ho Hrd Hrw Hq Hnb Hal Hres. rw /whole_blocks Nat2Z.id.
  apply (wp_while (λ m '(z, u1) s1, ∃ i, z = Z.of_nat i ∧ (i + m)%nat = n ∧ wrote s v u (512 * i) (0, u1) s1 ∧ ready (5 * m + k) s1) _ _ n); [|lia|].
  { exists 0%nat. split_and!; [done | done | by apply wrote_nothing | done]. }
  intros m [z u1] s1 (i & -> & Hi & Hw1 & Hrd1). destruct (wrote_zero _ _ _ _ (0, u1) _ eq_refl Hw1) as (v1 & Hp & Hl1).
  simpl in Hp. destruct (p_moved _ _ _ _ _ _ _ _ Hp) as [Eo Ep Er Erw _].
  bd_case (Z.of_nat i < Z.of_nat n) as Hlt.
  - destruct m as [|m]; [lia|]. pose proof (file_open_rewrites _ _ _ _ _ Ho (p_rewrites _ _ _ _ _ _ _ _ Hp)) as Ho1.
    wp_step. eapply wp_mono.
    { apply (block_write sv (5 * m + k) s1 v1 u1); [done | by replace (5 + (5 * m + k))%nat with (5 * S m + k)%nat by lia | congruence |
        apply Hp | by rw (proj1 (proj2 (w_env _ _ _ _ _ (p_rewrites _ _ _ _ _ _ _ _ Hp)))) | zlia | lia]. }
    intros [r u2] s2 (Hw & Hrd2). apply wrote_step in Hw; [|lia].
    pose proof (wrote_then _ _ _ _ _ _ _ _ _ _ Hq Hl1 Hp Hw) as Hw2.
    bd_case (r ≠ 0) as Hr; apply wp_ret.
    + split; [|by apply (ready_le (5 * m + k)); [lia|]].
      replace (512 * n)%nat with (512 * i + 512 + 512 * m)%nat by lia. by apply wrote_more.
    + apply dec_stable in Hr as ->. exists m. split; [lia|]. exists (S i). split_and!; [lia | lia | | done].
      by replace (512 * S i)%nat with (512 * i + 512)%nat by lia.
  - apply wp_ret. assert (m = 0%nat) as -> by lia. assert (i = n) as -> by lia. done.
Qed.
(** ** Whole regions *)

(** How many bytes the leading partial block has. *)
Definition lead (u : fuio) : Z :=
  if bool_decide (fu_offset u mod 512 = 0) then 0 else Z.min (512 - fu_offset u mod 512) (fu_resid u).

Lemma lead_range u : request u →
  0 ≤ lead u ≤ fu_resid u ∧ (lead u = fu_resid u ∨ (fu_offset u + lead u) mod 512 = 0) ∧
  (fu_offset u mod 512 ≠ 0 → fu_offset u mod 512 + lead u ≤ 512) ∧ (fu_offset u mod 512 ≠ 0 → 0 < fu_resid u → 0 < lead u).
Proof. intros []. rw /lead. case_bool_decide; zlia. Qed.

(** [len] is what [sfs_io] computes for it. *)
Lemma lead_len u : request u → fu_offset u mod 512 ≠ 0 →
  (if bool_decide (512 - fu_offset u mod 512 > fu_resid u) then fu_resid u else 512 - fu_offset u mod 512) = lead u.
Proof. intros [] Hb. rw /lead (bool_decide_eq_false_2 _ Hb). case_bool_decide; lia. Qed.

Lemma region_read s v u :
  file_open sv s v → ready (4 * (Z.to_nat (fu_resid u / 512) + 2)) s → fu_rw u = UIO_READ → request u →
  sb_nblocks s ≤ 2 ^ 23 → 0 < fu_resid u → fu_offset u + fu_resid u ≤ 143 * 512 →
  wp (io_region sv u) (λ r s', r.1 = 0 ∧ got s v u s' r.2 (Z.to_nat (fu_resid u))) s.
Proof.
  intros Ho Hrd Hrw Hq Hnb H0 Hmax. pose proof (q_offset _ Hq) as Hoff. destruct (lead_range u Hq) as (Hlr & Hal & Hfit & Hpos).
  remember (Z.to_nat (fu_resid u / 512)) as n eqn:En.
  rw /io_region. unfold SFS_BLOCKSIZE. rw Z.rem_mod_nonneg; [|lia..]. rw u32_small; [|zlia].
  wp_step. apply (wp_mono _ (λ r s1, r.1 = 0 ∧ got s v u s1 r.2 (Z.to_nat (lead u)) ∧ ready (4 * n + 4) s1)).
  { bd_case (fu_offset u mod 512 ≠ 0) as Hb.
    - rw lead_len //. apply (partial_read sv (4 * n + 4) s v u); try done; [ | | by apply Hfit | lia].
      + apply (ready_le (4 * (n + 2))); [lia|done].
      + split; [by apply Hpos | lia].
    - apply dec_stable in Hb. apply wp_ret. rw /lead bool_decide_eq_true_2 //.
      split; [done|]. split; [apply got_refl; [apply Ho|done] | by apply (ready_le (4 * (n + 2))); [lia|]]. }
  intros [r u1] s1 (Hr & Hg1 & Hrd1). simpl in Hr, Hg1. subst r. rw bool_decide_eq_false_2; [|by intros []].
  destruct (t_moved _ _ _ _ _ _ Hg1) as [Eo Ep Er Erw _]. pose proof (t_request _ _ _ _ _ _ Hg1) as Hq1.
  pose proof (file_open_read _ _ _ Ho (t_read _ _ _ _ _ _ Hg1)) as Ho1.
  bd_case (fu_resid u1 = 0) as Hend.
  { apply wp_ret. split; [done|]. by replace (fu_resid u) with (lead u) by lia. }
  assert (fu_offset u1 mod 512 = 0) as Hal1 by (destruct Hal as [?|Hal]; [lia|]; rw Eo Z2Nat.id; [done|lia]).
  wp_step. apply wp_kassert; [apply bool_decide_eq_true_2; rw Z.rem_mod_nonneg; lia|].
  remember (Z.to_nat (fu_resid u1 / 512)) as m eqn:Em. assert (m ≤ n)%nat as Hmn by (subst m n; zlia).
  replace (fu_resid u1 / 512) with (Z.of_nat m) by zlia. wp_step. eapply wp_mono.
  { apply (whole_read m 4 s1 v u1); [done | by apply (ready_le (4 * n + 4)); [lia|] | congruence | done |
      by rw (same_nblocks _ _ (t_read _ _ _ _ _ _ Hg1)) | done | zlia | zlia]. }
  intros [r u2] s2 (Hr & Hg2 & Hrd2). simpl in Hr, Hg2. subst r. rw bool_decide_eq_false_2; [|by intros []].
  pose proof (got_trans _ _ _ _ _ _ _ _ _ _ Ho Hq Hg1 Hg2) as Hg. clear Hg1.
  destruct (t_moved _ _ _ _ _ _ Hg2) as [Eo2 _ Er2 Erw2 _].
  pose proof (file_open_read _ _ _ Ho (t_read _ _ _ _ _ _ Hg)) as Ho2.
  wp_step. apply wp_kassert; [apply bool_decide_eq_true_2; zlia|]. bd_case (fu_resid u2 > 0) as Hlast.
  - assert (fu_offset u2 mod 512 = 0) as Hal2 by zlia. rw -{1}Hal2. eapply wp_mono.
    { apply (partial_read sv 0 s2 v u2); [done | done | congruence | apply Hg | lia | zlia | zlia]. }
    intros [r u3] s3 (Hr & Hg3 & _). split; [done|].
    replace (Z.to_nat (fu_resid u)) with (Z.to_nat (lead u) + 512 * m + Z.to_nat (fu_resid u2))%nat by lia.
    by apply (got_trans sv s v u s2 u2).
  - apply wp_ret. split; [done|]. by replace (Z.to_nat (fu_resid u)) with (Z.to_nat (lead u) + 512 * m)%nat by zlia.
Qed.
Lemma region_write s v u :
  file_open sv s v → ready (5 * (Z.to_nat (fu_resid u / 512) + 2)) s → fu_rw u = UIO_WRITE → request u →
  sb_nblocks s ≤ 2 ^ 23 → 0 < fu_resid u →
  wp (io_region sv u) (λ r s', wrote s v u (Z.to_nat (fu_resid u)) r s') s.
Proof.
  intros Ho Hrd Hrw Hq Hnb H0. pose proof (q_offset _ Hq) as Hoff. destruct (lead_range u Hq) as (Hlr & Hal & Hfit & Hpos).
  remember (Z.to_nat (fu_resid u / 512)) as n eqn:En.
  rw /io_region. unfold SFS_BLOCKSIZE. rw Z.rem_mod_nonneg; [|lia..]. rw u32_small; [|zlia].
  wp_step. apply (wp_mono _ (λ r s1, wrote s v u (Z.to_nat (lead u)) r s1 ∧ ready (5 * n + 5) s1)).
  { bd_case (fu_offset u mod 512 ≠ 0) as Hb.
    - rw lead_len //. eapply wp_mono.
      { apply (partial_write sv (5 * n + 5) s v u); try done; [ | | by apply Hfit].
        + apply (ready_le (5 * (n + 2))); [lia|done].
        + split; [by apply Hpos | lia]. }
      intros r s1 [Hr Hrd1]. split; [|done]. apply wrote_step; [specialize (Hpos Hb H0); lia | done].
    - apply dec_stable in Hb. apply wp_ret. rw /lead bool_decide_eq_true_2 //.
      split; [by apply wrote_nothing | by apply (ready_le (5 * (n + 2))); [lia|]]. }
  intros [r u1] s1 (Hw1 & Hrd1). bd_case (r ≠ 0) as Hr.
  { apply wp_ret. replace (Z.to_nat (fu_resid u)) with (Z.to_nat (lead u) + Z.to_nat (fu_resid u - lead u))%nat by lia. by apply wrote_more. }
  apply dec_stable in Hr as ->. destruct (wrote_zero _ _ _ _ (0, u1) _ eq_refl Hw1) as (v1 & Hp1 & Hl1). simpl in Hp1.
  destruct (p_moved _ _ _ _ _ _ _ _ Hp1) as [Eo Ep Er Erw _]. pose proof (p_request _ _ _ _ _ _ _ _ Hp1) as Hq1.
  pose proof (file_open_rewrites _ _ _ _ _ Ho (p_rewrites _ _ _ _ _ _ _ _ Hp1)) as Ho1.
  bd_case (fu_resid u1 = 0) as Hend.
  { apply wp_ret. by replace (fu_resid u) with (lead u) by lia. }
  assert (fu_offset u1 mod 512 = 0) as Hal1 by (destruct Hal as [?|Hal]; [lia|]; rw Eo Z2Nat.id; [done|lia]).
  wp_step. apply wp_kassert; [apply bool_decide_eq_true_2; rw Z.rem_mod_nonneg; [lia | apply Hq1 | lia]|].
  remember (Z.to_nat (fu_resid u1 / 512)) as m eqn:Em. assert (m ≤ n)%nat as Hmn by (subst m n; zlia).
  replace (fu_resid u1 / 512) with (Z.of_nat m) by zlia. wp_step. eapply wp_mono.
  { apply (whole_write m 5 s1 v1 u1); [done | by apply (ready_le (5 * n + 5)); [lia|] | congruence | done |
      by rw (proj1 (proj2 (w_env _ _ _ _ _ (p_rewrites _ _ _ _ _ _ _ _ Hp1)))) | done | zlia]. }
  intros [r u2] s2 (Hw2 & Hrd2). pose proof (wrote_then _ _ _ _ _ _ _ _ _ _ Hq Hl1 Hp1 Hw2) as Hw. clear Hl1.
  assert (Z.to_nat (fu_resid u) = Z.to_nat (lead u) + 512 * m + Z.to_nat (fu_resid u1 mod 512))%nat as Hsum by zlia.
  bd_case (r ≠ 0) as Hr.
  { apply wp_ret. rw Hsum. by apply wrote_more. }
  apply dec_stable in Hr as ->. destruct (wrote_zero _ _ _ _ (0, u2) _ eq_refl Hw) as (v2 & Hp & Hl2). simpl in Hp.
  destruct (p_moved _ _ _ _ _ _ _ _ Hp) as [Eo2 _ Er2 Erw2 _]. pose proof (p_request _ _ _ _ _ _ _ _ Hp) as Hq2.
  pose proof (file_open_rewrites _ _ _ _ _ Ho (p_rewrites _ _ _ _ _ _ _ _ Hp)) as Ho2.
  assert (fu_resid u2 = fu_resid u1 mod 512) as Er2' by zlia.
  wp_step. apply wp_kassert; [apply bool_decide_eq_true_2; zlia|]. bd_case (fu_resid u2 > 0) as Hlast.
  - assert (fu_offset u2 mod 512 = 0) as Hal2 by zlia. rw -{1}Hal2. eapply wp_mono.
    { apply (partial_write sv 0 s2 v2 u2); [done | done | congruence | done | lia | zlia]. }
    intros r s3 (Hw3 & _). apply wrote_step in Hw3; [|lia]. rw Hsum -Er2'. by apply (wrote_then s v u _ _ s2 v2 u2).
  - apply wp_ret. rw Hsum. by replace (Z.to_nat (fu_resid u1 mod 512)) with 0%nat by zlia; rw Nat.add_0_r.
Qed.

End io.
