(* ===== verification/SfsRwThms.v ===== *)
(** * Files of SFS: the theorem on sfs_read and sfs_write

    [sfs_io] from the check for the end of the file to the new size, and the
    vnode operations under the VFS lock. *)

From stdpp Require Import base tactics list gmap option numbers ssreflect.
From S2P Require Import Prelude Kern.
From S2P Require Import Uio Lhd Bitmap Sfs SfsFacts SfsTrunc SfsThms SfsDir SfsNames SfsDirThms SfsIo SfsIoFacts SfsIoThms.

Open Scope Z_scope.

(** The file's size [n] after [k] bytes have been written at [off]. *)
Definition new_size (n off : Z) (k : nat) : Z := if decide (k = 0%nat) then n else Z.max n (off + Z.of_nat k).

(** [k] bytes of the buffer have been stored in the file. *)
Record stored (sv : loc) (s : state) (v : sfs_vnode) (u : fuio) (s' : state) (v' : sfs_vnode) (u' : fuio) (k : nat) : Prop := {
  st_rewrites : rewrites sv s v s' v';
  st_size : sfi_size (sv_i v') = new_size (sfi_size (sv_i v)) (fu_offset u) k;
  st_moved : moved_by u u' k;
  st_buf : fu_buf u' = fu_buf u;
  st_bytes : ∀ n, fbyte s' (sv_i v') n =
    if decide (Z.to_nat (fu_offset u) ≤ n < Z.to_nat (fu_offset u) + k)%nat
    then fu_buf u !! (fu_pos u + (n - Z.to_nat (fu_offset u)))%nat else fbyte s (sv_i v) n
}.

(** The outcome of a write. *)
Definition write_outcome (sv : loc) (s : state) (v : sfs_vnode) (u : fuio) (r : Z * fuio) (s' : state) : Prop :=
  ∃ v' k, stored sv s v u s' v' r.2 k ∧
    (r.1 = 0 ∧ Z.of_nat k = fu_resid u ∨
     Z.of_nat k < fu_resid u ∧ (r.1 = EFBIG ∧ 143 * 512 < fu_offset u + fu_resid u ∨ r.1 = ENOSPC)).

(** How many bytes a read gives. *)
Definition available (v : sfs_vnode) (u : fuio) : Z := Z.max 0 (Z.min (fu_resid u) (sfi_size (sv_i v) - fu_offset u)).

(** The part of the request before the end of the file, and back. *)
Lemma request_less r u : request u → 0 ≤ r ≤ fu_resid u → request (set_resid r u).
Proof. intros [] Hr. split; simpl; done || lia. Qed.

Lemma got_less s v u r s' u' k :
  request u → 0 ≤ r ≤ fu_resid u → Z.of_nat k ≤ r → got s v (set_resid r u) s' u' k →
  got s v u s' (set_resid (fu_resid u - Z.of_nat k) u') k.
Proof.
  intros [] Hr Hk [Hread [] [] Hb Hrest]. simpl in *. split; [done | | | exact Hb | exact Hrest].
  - split; simpl; done || lia.
  - split; simpl; done || lia.
Qed.

Section rw.
Context `{!Hardware} (sv : loc).

Lemma load_open s v (Q : sfs_vnode → state → Prop) : file_open sv s v → Q v s → wp (load_sv sv) Q s.
Proof. intros Ho. apply wp_deref. rw (fo_live _ _ _ Ho). apply Ho. Qed.

Lemma io_read s v u :
  file_open sv s v → ready (5 * (Z.to_nat (fu_resid u / 512) + 2)) s → fu_rw u = UIO_READ → request u →
  sb_nblocks s ≤ 2 ^ 23 → 0 < fu_resid u → 0 ≤ sfi_size (sv_i v) ≤ 143 * 512 →
  wp (sfs_io sv u) (λ r s', r.1 = 0 ∧ got s v u s' r.2 (Z.to_nat (available v u))) s.
Proof.
  intros Ho Hrd Hrw Hq Hnb H0 Hsize. pose proof (q_offset _ Hq) as Hoff. pose proof (q_end _ Hq) as Hend.
  rw /sfs_io. wp_step. apply (load_open s v); [done|]. rw Hrw (bool_decide_eq_true_2 (UIO_READ = UIO_READ)) //=.
  rw s64_small; [|lia]. bd_case (fu_offset u >= sfi_size (sv_i v)) as Heof.
  { apply wp_ret. split; [done|]. replace (Z.to_nat (available v u)) with 0%nat by (unfold available; lia). apply got_refl; [apply Ho|done]. }
  set (extra := if bool_decide (fu_offset u + fu_resid u > sfi_size (sv_i v)) then u32 (fu_offset u + fu_resid u - sfi_size (sv_i v)) else 0).
  assert (extra = fu_resid u - available v u) as Hextra.
  { rw /extra /available. case_bool_decide; [rw u32_small; lia | lia]. }
  assert (0 < available v u ≤ fu_resid u ∧ fu_offset u + available v u ≤ sfi_size (sv_i v)) as Hav by (unfold available; lia).
  wp_step. apply (wp_mono _ (λ _ s1, s1 = s)).
  { case_bool_decide; [apply wp_kassert; [apply bool_decide_eq_true_2; lia|done] | by apply wp_ret]. }
  intros _ _ ->. rw u32_small; [|lia]. replace (fu_resid u - extra) with (available v u) by lia.
  wp_step. eapply wp_mono.
  { apply (region_read sv s v); [done | | done | apply request_less; [done|lia] | done | simpl; lia | simpl; lia].
    apply (ready_le (5 * (Z.to_nat (fu_resid u / 512) + 2))); [|done]. simpl. zlia. }
  intros [r u1] s1 (Hr & Hg). simpl in Hr, Hg. subst r.
  pose proof (file_open_read sv _ _ _ Ho (t_read _ _ _ _ _ _ Hg)) as Ho1.
  destruct (t_moved _ _ _ _ _ _ Hg) as [_ _ Er Erw _]. simpl in Er, Erw.
  rw /io_out. wp_step. apply (load_open s1 v); [done|]. rw bool_decide_eq_false_2; [|by rw Erw Hrw; intros (_ & ? & _)].
  wp_step. apply wp_ret. apply wp_ret. split; [done|]. rw u32_small; [|lia].
  replace (fu_resid u1 + extra) with (fu_resid u - Z.of_nat (Z.to_nat (available v u))) by lia.
  apply (got_less s v u (available v u)); [done | lia | lia | done].
Qed.

Lemma io_write s v u :
  file_open sv s v → ready (5 * (Z.to_nat (fu_resid u / 512) + 2)) s → fu_rw u = UIO_WRITE → request u →
  sb_nblocks s ≤ 2 ^ 23 → 0 < fu_resid u →
  wp (sfs_io sv u) (write_outcome sv s v u) s.
Proof.
  intros Ho Hrd Hrw Hq Hnb H0. pose proof (q_offset _ Hq) as Hoff. pose proof (q_end _ Hq) as Hend.
  rw /sfs_io. wp_step. apply (load_open s v); [done|]. rw Hrw (bool_decide_eq_false_2 (UIO_WRITE = UIO_READ)) //=.
  rw Z.sub_0_r u32_small; [|lia]. assert (set_resid (fu_resid u) u = u) as -> by (by destruct u).
  wp_step. apply wp_ret. wp_step. eapply wp_mono; [by apply (region_write sv s v)|].
  intros [r u1] s1 (v1 & k & Hp & Hk & Hcase). simpl in Hp, Hcase.
  pose proof (p_rewrites _ _ _ _ _ _ _ _ Hp) as Hw1. pose proof (file_open_rewrites _ _ _ _ _ Ho Hw1) as Ho1.
  pose proof (p_size _ _ _ _ _ _ _ _ Hp) as Hs1. destruct (p_moved _ _ _ _ _ _ _ _ Hp) as [Eo Ep Er Erw El].
  rw /io_out. wp_step. apply (load_open s1 v1); [done|]. wp_step.
  apply (wp_mono _ (λ _ s2, ∃ v2, rewrites sv s1 v1 s2 v2 ∧ same_contents s1 (sv_i v1) s2 (sv_i v2) ∧
    sfi_size (sv_i v2) = new_size (sfi_size (sv_i v)) (fu_offset u) k)).
  { rw /new_size -Hs1. case_decide as Hk0.
    - rw bool_decide_eq_false_2; [|intros (? & _); lia]. apply wp_ret. exists v1. destruct (rewrites_refl sv s1 v1); [apply Ho1..|]. done.
    - assert (bool_decide (fu_resid u1 ≠ fu_resid u ∧ fu_rw u1 = UIO_WRITE ∧ fu_offset u1 > sfi_size (sv_i v1)) =
        bool_decide (fu_offset u1 > sfi_size (sv_i v1))) as -> by (apply bool_decide_ext; rw Erw Hrw; split; [tauto|]; intros; split_and!; done || lia).
      apply (extend_size sv s1 v1); [apply Ho1.. | lia |]. intros s2 v2 Hw2 Hc2 Hs2 _. exists v2. rw Hs2 Eo. done. }
  intros _ s2 (v2 & Hw2 & Hc2 & Hs2). apply wp_ret. exists v2, k. split.
  - split; [by eapply rewrites_trans | done | | by rw /= (p_buf _ _ _ _ _ _ _ _ Hp) |].
    + split; simpl; try done. rw Z.add_0_r u32_small; lia.
    + intros n. rw (fbyte_same _ _ _ _ _ Hc2). apply (p_bytes _ _ _ _ _ _ _ _ Hp).
  - simpl. destruct Hcase as [(? & -> & _)|[? [[? ?]|?]]]; [left | right..]; (split; [done || lia|]); [lia | left; split; [done|lia] | by right].
Qed.

(** ** Under the VFS lock *)

(** What [vfs_biglock_release] leaves of [s2]. *)
Definition unlocked (s s2 : state) : state := set_depth (vfs_biglock_depth s) (with_base (sys (fm s)) s2).

Lemma unlocked_env s s2 : biglock_ok s → same_env (locked s) s2 → same_env s (unlocked s s2).
Proof.
  intros Hok (He1 & He2 & He3 & _ & He5 & He6 & He7). destruct (locked_same _ Hok) as (Hmp & _ & _ & Hf & Hn & Hd & _ & Hlk).
  rw Hd in He6. repeat split; simpl; congruence.
Qed.

Lemma unlocked_volume s s2 : biglock_ok s → same_env (locked s) s2 → volume s2 → volume (unlocked s s2).
Proof.
  intros Hok (_ & _ & _ & _ & He5 & _). destruct (locked_same _ Hok) as (_ & _ & Hl & _).
  apply volume_relock; try done. by rw /= He5.
Qed.

Lemma locked_blocks s i : biglock_ok s → mapping (locked s) i = mapping s i.
Proof. intros Hok. destruct (locked_same _ Hok) as (_ & _ & _ & _ & _ & Hd & _). by rw /mapping Hd. Qed.

Lemma locked_fbyte s i n : biglock_ok s → fbyte (locked s) i n = fbyte s i n.
Proof.
  intros Hok. destruct (locked_same _ Hok) as (_ & _ & _ & _ & _ & Hd & _).
  by rw /fbyte /fblock /mapping Hd.
Qed.

Lemma rewrites_unlock s v s2 v' : biglock_ok s → rewrites sv (locked s) v s2 v' → rewrites sv s v (unlocked s s2) v'.
Proof.
  intros Hok []. pose proof (locked_marked _ Hok) as Hm. pose proof (locked_blocks s) as Hb.
  destruct (locked_same _ Hok) as (_ & _ & _ & _ & _ & Hd & Hs & _). split; try done.
  - by rw /= w_svs Hs.
  - by apply unlocked_volume.
  - by apply unlocked_env.
  - destruct w_file as [Hdir Ho]. split; [exact Hdir|]. by eapply (owns_mono s2); [exact Ho|..].
  - intros b Hin H0. destruct (w_blocks b Hin H0) as [Hin'|Hin']; [left | right; by rw -Hm].
    move: Hin'. by rw /blocks Hb.
  - intros j Hj. rw -Hm. by apply w_marked.
  - intros b Hb0. rw -Hm -Hd. intros Hmk Hin. apply w_others; [done..|]. by rw /blocks Hb.
Qed.

Lemma only_read_unlock s s2 : biglock_ok s → only_read (locked s) s2 → only_read s (unlocked s s2).
Proof.
  intros Hok (d & -> & Hd & Hv & He). destruct (locked_same _ Hok) as (_ & _ & _ & _ & _ & Hdev & _).
  exists d. split; [|split; [by rw Hd Hdev | split; [by apply unlocked_volume | by apply unlocked_env]]].
  rw /unlocked /locked. case_bool_decide; [|by destruct s, fm]. rw /acquired.
  destruct (vfs_biglock s) as [l|]; [|by destruct s, fm]. by destruct (lks (base_of s) !! l), s, fm.
Qed.

(** A file of a mounted volume, for a thread that may hold the VFS lock. *)
Record file_at (s : state) (v : sfs_vnode) : Prop := {
  fa_lock : biglock_ok s;
  fa_volume : volume s;
  fa_live : is_live sv s = true;
  fa_vnode : svs s !! sv = Some v;
  fa_file : file_ok s (sv_i v)
}.

Lemma file_at_locked s v : file_at s v → file_open sv (locked s) v.
Proof.
  intros [Hok]. destruct (locked_same _ Hok) as (_ & _ & Hl & _ & _ & Hd & Hs & _). split.
  - by apply locked_held.
  - by apply locked_volume.
  - by rw /is_live /= Hl.
  - by rw Hs.
  - split; [apply fa_file0|]. rw locked_blocks //. apply (owns_mono s); [apply fa_file0 | by apply locked_same |].
    intros. by rw locked_marked.
Qed.

(** The body of an operation between [vfs_biglock_acquire] and
    [vfs_biglock_release]. *)
Lemma under_lock {A} (m : M state A) (P : A → state → Prop) (Q : A → state → Prop) s :
  biglock_ok s → wp m (λ r s2, P r s2 ∧ same_env (locked s) s2) (locked s) →
  (∀ r s2, same_env (locked s) s2 → P r s2 → Q r (unlocked s s2)) →
  wp (vfs_biglock_acquire;; r ← m; vfs_biglock_release;; mret r) Q s.
Proof.
  intros Hok Hm HQ. wp_step. eapply wp_Ok; [by apply biglock_acquire_ok|]. wp_step. eapply wp_mono; [exact Hm|].
  intros r s2 [HP He]. wp_step. apply (biglock_release_spec s Hok); [done|]. apply wp_ret. by apply HQ.
Qed.

Lemma read_spec s v u :
  file_at s v → ready (5 * (Z.to_nat (fu_resid u / 512) + 2)) s → fu_rw u = UIO_READ → request u →
  sb_nblocks s ≤ 2 ^ 23 → 0 < fu_resid u → 0 ≤ sfi_size (sv_i v) ≤ 143 * 512 →
  wp (sfs_read sv u) (λ r s', r.1 = 0 ∧ got s v u s' r.2 (Z.to_nat (available v u))) s.
Proof.
  intros Ha Hrd Hrw Hq Hnb H0 Hsize. pose proof (fa_lock _ _ Ha) as Hok.
  destruct (locked_same _ Hok) as (_ & _ & _ & _ & Hn & Hd & _).
  rw /sfs_read. wp_step. apply wp_kassert; [by apply bool_decide_eq_true_2|].
  apply (under_lock _ (λ r s2, r.1 = 0 ∧ got (locked s) v u s2 r.2 (Z.to_nat (available v u)))); [done | |].
  - eapply wp_mono; [apply (io_read (locked s) v u); try done; [by apply file_at_locked | by rw /ready Hd | by rw Hn]|].
    intros r s2 [Hr Hg]. split; [done|]. by destruct (t_read _ _ _ _ _ _ Hg) as (d & _ & _ & _ & He).
  - intros r s2 He [Hr []]. split; [done|]. split; try done; [by apply only_read_unlock|].
    intros j Hj. rw t_bytes // locked_fbyte //.
Qed.

Lemma write_spec s v u :
  file_at s v → ready (5 * (Z.to_nat (fu_resid u / 512) + 2)) s → fu_rw u = UIO_WRITE → request u →
  sb_nblocks s ≤ 2 ^ 23 → 0 < fu_resid u →
  wp (sfs_write sv u) (write_outcome sv s v u) s.
Proof.
  intros Ha Hrd Hrw Hq Hnb H0. pose proof (fa_lock _ _ Ha) as Hok.
  destruct (locked_same _ Hok) as (_ & _ & _ & _ & Hn & Hd & _).
  rw /sfs_write. wp_step. apply wp_kassert; [by apply bool_decide_eq_true_2|].
  apply (under_lock _ (write_outcome sv (locked s) v u)); [done | |].
  - eapply wp_mono; [apply (io_write (locked s) v u); try done; [by apply file_at_locked | by rw /ready Hd | by rw Hn]|].
    intros r s2 Hw. split; [done|]. destruct Hw as (v' & k & Hw & _). apply (w_env _ _ _ _ _ (st_rewrites _ _ _ _ _ _ _ _ Hw)).
  - intros r s2 He (v' & k & [Hrew Hsize Hmoved Hbuf Hbytes] & Hcase). exists v', k. split; [|done]. split; try done; [by apply rewrites_unlock|].
    intros n. by rw -(locked_fbyte s) // -Hbytes.
Qed.
End rw.

(** ** The theorem *)

(** C11: a file of a mounted volume is an array of bytes. Assumed: the volume
    has at most 2^23 blocks, its disk answers every operation needed (five for
    each block of the request and ten), the VFS lock is free or the caller's,
    the file's inode is in memory and its size is no more than the largest
    file's, 143 blocks, and the request asks for at least one byte, fits the
    buffer and ends below 2^32. [sfs_read] puts the bytes from the offset on
    into the buffer, up to the end of the request or of the file, and advances
    the [uio] by as many; the volume does not change. [sfs_write] stores the
    buffer at the offset, allocating blocks: either all of it, or it stops with
    [ENOSPC] or, for a request that goes past the largest file, [EFBIG], and
    what the [uio] says has been moved is stored. The bytes elsewhere in the
    file stay, so do the sectors of other files, and the size becomes the end of
    what is stored, if that is larger. The lock is as before and no panic is
    reached. *)
Theorem sfs_file_is_byte_array `{!Hardware} sv s v u :
  file_at sv s v → ready (5 * (Z.to_nat (fu_resid u / 512) + 2)) s → request u →
  sb_nblocks s ≤ 2 ^ 23 → 0 < fu_resid u → 0 ≤ sfi_size (sv_i v) ≤ 143 * 512 →
  (fu_rw u = UIO_READ → wp (sfs_read sv u) (λ r s', r.1 = 0 ∧ got s v u s' r.2 (Z.to_nat (available v u))) s) ∧
  (fu_rw u = UIO_WRITE → wp (sfs_write sv u) (write_outcome sv s v u) s).
Proof. intros. split; intros; [by apply read_spec | by apply write_spec]. Qed.

(** ** A file of 510 bytes in one block *)
#[local] Instance keeps_old : Hardware := λ old _, old.

Definition text_inode : sfs_dinode := Dinode 510 1 1 (4 :: replicate 14 0) 0 (replicate 110 0).

Definition text_vnode : sfs_vnode := SfsVnode text_inode 3 false.

Definition text_volume : state := volume_with (dir_disk (replicate 20 LHD_OK)) text_inode 3 None 0.

Definition text_write : fuio := Fuio [65; 66; 67; 68] 0 510 4 UIO_WRITE.

Definition text_read : fuio := Fuio (replicate 8 0) 0 506 8 UIO_READ.

Lemma text_at : file_at 6%positive text_volume text_vnode.
Proof.
  split; [ | by apply volume_with_ok; [apply dir_disk_rest|] | by_decide | done |].
  - left. split; [|done]. exists 3%positive, (Lockst 4 5 None)%positive. split; [done|]. split; [by_decide|done].
  - split; [done|]. apply owns_check_sound. by vm_compute.
Qed.

Lemma text_request u : u ∈ [text_write; text_read] → request u ∧ 0 < fu_resid u ∧ fu_resid u < 512.
Proof.
  intros Hu. apply elem_of_cons in Hu as [->|Hu]; [|apply list_elem_of_singleton in Hu as ->];
    (split; [split|]; simpl; try lia; rw /byte; by_decide).
Qed.

Lemma text_ready u : u ∈ [text_write; text_read] → ready (5 * (Z.to_nat (fu_resid u / 512) + 2)) text_volume.
Proof.
  intros Hu. destruct (text_request u Hu) as (_ & ? & ?). rw Z.div_small; [|lia].
  apply (ready_le 20); [simpl; lia|]. by apply irqs_ready.
Qed.

(** Four bytes are read before the end of the file; four are written across the
    end of the block, into a new block, and read back. *)
Lemma sfs_file_is_byte_array_witness :
  wp (sfs_read 6%positive text_read) (λ r s', r.1 = 0 ∧
    got text_volume text_vnode text_read s' r.2 (Z.to_nat (available text_vnode text_read))) text_volume ∧
  wp (sfs_write 6%positive text_write) (write_outcome 6%positive text_volume text_vnode text_write) text_volume ∧
  (λ o, match o with
        | Ok r _ => r = ((0, Fuio [65; 66; 67; 68] 4 514 0 UIO_WRITE), (0, Fuio [0; 0; 0; 0; 65; 66; 67; 68] 8 514 0 UIO_READ))
        | _ => False
        end)
    ((w ← sfs_write 6%positive text_write; r ← sfs_read 6%positive text_read; mret (w, r)) text_volume).
Proof.
  assert (text_write ∈ [text_write; text_read]) as Hw by (apply elem_of_cons; by left).
  assert (text_read ∈ [text_write; text_read]) as Hr by (apply elem_of_cons; right; by apply list_elem_of_singleton).
  assert (sb_nblocks text_volume ≤ 2 ^ 23) as Hn by (change (12 ≤ 2 ^ 23); lia).
  assert (0 ≤ sfi_size (sv_i text_vnode) ≤ 143 * 512) as Hs by (change (0 ≤ 510 ≤ 143 * 512); lia).
  split; [|split].
  - apply (sfs_file_is_byte_array 6%positive text_volume text_vnode text_read text_at (text_ready _ Hr)
      (proj1 (text_request _ Hr)) Hn ltac:(reflexivity) Hs). reflexivity.
  - apply (sfs_file_is_byte_array 6%positive text_volume text_vnode text_write text_at (text_ready _ Hw)
      (proj1 (text_request _ Hw)) Hn ltac:(reflexivity) Hs). reflexivity.
  - vm_compute. reflexivity.
Defined.
