(* ===== verification/SfsVnode.v ===== *)
(** * SFS inodes in memory and the vnode operations

    kern/fs/sfs/sfs_inode.c and sfs_vnops.c, with the reference counts of
    kern/vfs/vnode.c and the failing operations of kern/vfs/vfsfail.c.  A
    [struct sfs_vnode] and the [struct vnode] in it are one block of the heap:
    its address stands for both, [svs] has the inode and [vnodes] the rest.  One
    thread is running, so [vn_countlock] is always free. *)

From stdpp Require Import base tactics list gmap option numbers ssreflect.
From S2P Require Import Prelude Kern.
From S2P Require Import Uio Lhd Bitmap Array Sfs SfsDir SfsNames SfsIo.

Open Scope Z_scope.

(** ** Data and state *)

Definition SFS_TYPE_INVAL : Z := 0.
Definition SFS_TYPE_FILE : Z := 1.
Definition SFS_ROOTDIR_INO : Z := 1.

(** The two tables of vnode operations. *)
Inductive vnode_ops := sfs_fileops | sfs_dirops.

#[export] Instance vnode_ops_eq_dec : EqDecision vnode_ops.
Proof. solve_decision. Defined.

(** [struct vnode]; [vn_ops] is NULL after [vnode_cleanup]. *)
Record vnode := Vnode { vn_refcount : Z; vn_ops : option vnode_ops }.

(** [struct sfs_fs] with the table of the vnodes in memory. *)
Record state := State {
  fs : Sfs.state;
  arrays : gmap loc Array.array;
  vecs : gmap loc (list (option ptr));
  sfs_vnodes : loc;
  vnodes : gmap loc vnode
}.

Definition set_fs f s := State f (arrays s) (vecs s) (sfs_vnodes s) (vnodes s).
Definition set_vnodes (f : gmap loc vnode → gmap loc vnode) s :=
  State (fs s) (arrays s) (vecs s) (sfs_vnodes s) (f (vnodes s)).

#[export, refine] Instance state_base : HasBase state := {|
  base_of s := base_of (fs s);
  with_base b s := set_fs (with_base b (fs s)) s
|}.
Proof.
  - intros b s. apply (base_with b (fs s)).
  - intros b b' s. rw /set_fs /=. f_equal.
  - intros s. rw (with_base_same (fs s)). by destruct s.
Defined.

(** The array of vnodes on the common heap. *)
Definition table (s : state) : Array.state := Array.State (base_of s) (arrays s) (vecs s).
Definition set_table (t : Array.state) s :=
  State (with_base (Array.sys t) (fs s)) (Array.arrays t) (Array.vecs t) (sfs_vnodes s) (vnodes s).

Definition on_fs {A} (m : M Sfs.state A) : M state A := λ s,
  match m (fs s) with
  | Ok a f => Ok a (set_fs f s)
  | Stop e f => Stop e (set_fs f s)
  end.

Definition on_vnodes {A} (m : loc → M Array.state A) : M state A := λ s,
  match m (sfs_vnodes s) (table s) with
  | Ok a t => Ok a (set_table t s)
  | Stop e t => Stop e (set_table t s)
  end.

(** ** Vnodes *)

(** [*v] *)
Definition load_vn (v : loc) : M state vnode :=
  deref (λ s, if is_live v s then vnodes s !! v else None).
Definition store_vn (v : loc) (x : vnode) : M state unit := modify (set_vnodes <[v := x]>).

Definition vnode_init (v : loc) (ops : vnode_ops) : M state unit := store_vn v (Vnode 1 (Some ops)).

Definition vnode_cleanup (v : loc) : M state unit :=
  x ← load_vn v;
  kassert (bool_decide (vn_refcount x = 1));;
  store_vn v (Vnode 0 None).

Definition vnode_incref (v : loc) : M state unit :=
  x ← load_vn v;
  store_vn v (Vnode (s32 (vn_refcount x + 1)) (vn_ops x)).

(** The check before every operation; the operations. *)
Definition vnode_check (v : loc) : M state vnode_ops :=
  x ← load_vn v;
  match vn_ops x with
  | None => stops Panic
  | Some ops => if bool_decide (vn_refcount x <= 0) then stops Panic else mret ops
  end.

(** ** Inodes *)

(** The inode in the 128 words of a block. *)
Definition words_dinode (ws : list Z) : sfs_dinode :=
  Dinode (nth 0 ws 0) (nth 1 ws 0 / 2 ^ 16) (nth 1 ws 0 mod 2 ^ 16)
    (take SFS_NDIRECT (drop 2 ws)) (nth 17 ws 0) (drop 18 ws).

Definition set_type n i := Dinode (sfi_size i) n (sfi_linkcount i) (sfi_direct i) (sfi_indirect i) (sfi_waste i).
Definition set_linkcount n i := Dinode (sfi_size i) (sfi_type i) n (sfi_direct i) (sfi_indirect i) (sfi_waste i).

(** The choice of the table. *)
Definition ops_of (type : Z) : option vnode_ops :=
  if bool_decide (type = SFS_TYPE_FILE) then Some sfs_fileops
  else if bool_decide (type = SFS_TYPE_DIR) then Some sfs_dirops
  else None.

(** [vnodearray_get] *)
Definition vnodearray_get (i : Z) : M state loc :=
  c ← on_vnodes (λ a, array_get a i);
  p ← deref (λ _, c);
  nonnull p.

Section hw.
Context `{!Hardware}.

(** One round of the search for a vnode in memory. *)
Definition look_in_table (ino forcetype num i : Z) : M state (Z + option loc) :=
  if bool_decide (i < num) then
    v ← vnodearray_get i;
    sv ← on_fs (load_sv v);
    used ← on_fs (sfs_bused (sv_ino sv));
    if negb used then stops Panic
    else if bool_decide (sv_ino sv = ino) then
      kassert (bool_decide (forcetype = SFS_TYPE_INVAL));;
      vnode_incref v;;
      mret (inr (Some v))
    else mret (inl (i + 1))
  else mret (inr None).

(** A new vnode for the inode read from the disk. *)
Definition load_inode (ino forcetype : Z) (sv : loc) : M state (Z + loc) :=
  used ← on_fs (sfs_bused ino);
  if negb used then stops Panic
  else
    r ← on_fs (sfs_readblock ino);
    let '(result, ws) := r in
    if bool_decide (result ≠ 0) then kfree (Some sv);; mret (inl result)
    else
      let i := words_dinode ws in
      r ← (if bool_decide (forcetype ≠ SFS_TYPE_INVAL) then
             kassert (bool_decide (sfi_type i = SFS_TYPE_INVAL));;
             mret (set_type (u16 forcetype) i, true)
           else mret (i, false));
      let '(i, dirty) := r in
      match ops_of (sfi_type i) with
      | None => stops Panic
      | Some ops =>
          vnode_init sv ops;;
          on_fs (modify (set_svs <[sv := SfsVnode i ino dirty]>));;
          r ← on_vnodes (λ a, array_add a (Some sv));
          match r with
          | inl result => vnode_cleanup sv;; kfree (Some sv);; mret (inl result)
          | inr _ => mret (inr sv)
          end
      end.

Definition sfs_loadvnode (ino forcetype : Z) : M state (Z + loc) :=
  num ← on_vnodes array_num;
  found ← while (S (Z.to_nat num)) 0 (look_in_table ino forcetype num);
  match found with
  | Some v => mret (inr v)
  | None =>
      sv ← kmalloc;
      match sv with
      | None => mret (inl ENOMEM)
      | Some sv => load_inode ino forcetype sv
      end
  end.

(** ** Reclaiming *)

(** The index of [sv] in the table, or [num]. *)
Definition find_in_table (sv : loc) (num : Z) : M state Z :=
  while (S (Z.to_nat num)) 0 (λ i,
    if bool_decide (i < num) then
      v2 ← vnodearray_get i;
      load_vn v2;;
      if bool_decide (v2 = sv) then mret (inr i) else mret (inl (i + 1))
    else mret (inr num)).

(** [sfs_reclaim] after the file has been erased, if it had to be. *)
Definition discard (sv : loc) : M state Z :=
  result ← on_fs (sfs_sync_inode sv);
  if bool_decide (result ≠ 0) then on_fs vfs_biglock_release;; mret result
  else
    v ← on_fs (load_sv sv);
    (if bool_decide (sfi_linkcount (sv_i v) = 0) then on_fs (sfs_bfree (sv_ino v)) else mret tt);;
    num ← on_vnodes array_num;
    ix ← find_in_table sv num;
    if bool_decide (ix = num) then stops Panic
    else
      on_vnodes (λ a, array_remove a ix);;
      vnode_cleanup sv;;
      on_fs vfs_biglock_release;;
      kfree (Some sv);;
      mret 0.

Definition sfs_reclaim (v : loc) : M state Z :=
  on_fs vfs_biglock_acquire;;
  x ← load_vn v;
  if bool_decide (vn_refcount x ≠ 1) then
    kassert (bool_decide (vn_refcount x > 1));;
    store_vn v (Vnode (vn_refcount x - 1) (vn_ops x));;
    on_fs vfs_biglock_release;;
    mret EBUSY
  else
    sv ← on_fs (load_sv v);
    result ← (if bool_decide (sfi_linkcount (sv_i sv) = 0) then on_fs (sfs_itrunc v 0) else mret 0);
    if bool_decide (result ≠ 0) then on_fs vfs_biglock_release;; mret result
    else discard v.

(** A failure of [VOP_RECLAIM] is only reported on the console. *)
Definition vnode_decref (v : loc) : M state unit :=
  x ← load_vn v;
  kassert (bool_decide (vn_refcount x > 0));;
  if bool_decide (vn_refcount x > 1) then store_vn v (Vnode (vn_refcount x - 1) (vn_ops x))
  else vnode_check v;; sfs_reclaim v;; mret tt.

(** ** New objects and the root *)

Definition sfs_makeobj (type : Z) : M state (Z + loc) :=
  r ← on_fs sfs_balloc;
  match r with
  | inl result => mret (inl result)
  | inr ino =>
      r ← sfs_loadvnode ino type;
      match r with
      | inl result => on_fs (sfs_bfree ino);; mret (inl result)
      | inr sv => mret (inr sv)
      end
  end.

Definition sfs_getroot : M state (Z + loc) :=
  on_fs vfs_biglock_acquire;;
  r ← sfs_loadvnode SFS_ROOTDIR_INO SFS_TYPE_INVAL;
  match r with
  | inl result => on_fs vfs_biglock_release;; mret (inl result)
  | inr sv =>
      v ← on_fs (load_sv sv);
      if bool_decide (sfi_type (sv_i v) ≠ SFS_TYPE_DIR) then on_fs vfs_biglock_release;; mret (inl EINVAL)
      else on_fs vfs_biglock_release;; mret (inr sv)
  end.
End hw.
