(* ===== verification/SfsVops.v ===== *)
(** * The vnode operations of SFS: kern/fs/sfs/sfs_vnops.c

    Each [VOP_] is the choice between the two tables: an operation of the file
    system, or one of the failing ones of kern/vfs/vfsfail.c.  [sfs_read],
    [sfs_write] are in SfsIo.v.  There is one volume, so the vnodes of a call
    are on the same file system. *)

From stdpp Require Import base tactics list gmap option numbers ssreflect.
From S2P Require Import Prelude Kern.
From S2P Require Import Uio Lhd Bitmap Array Sfs SfsDir SfsIo SfsVnode.

Open Scope Z_scope.

Section hw.
Context `{!Hardware}.

(** The lock released and a value returned. *)
Definition return_unlocked {A} (a : A) : M state A := on_fs vfs_biglock_release;; mret a.

(** ** Directories *)

(** [sfs_lookonce] of sfs_dir.c: the vnode and the slot. *)
Definition sfs_lookonce (sv : loc) (name : list Z) : M state (Z + loc * Z) :=
  r ← on_fs (sfs_dir_findname sv name);
  let '(result, f) := r in
  if bool_decide (result ≠ 0) then mret (inl result)
  else
    ino ← deref (λ _, f_ino f);
    slot ← deref (λ _, f_slot f);
    r ← sfs_loadvnode ino SFS_TYPE_INVAL;
    match r with
    | inl result => mret (inl result)
    | inr ret =>
        v ← on_fs (load_sv ret);
        if bool_decide (sfi_linkcount (sv_i v) = 0) then stops Panic else mret (inr (ret, slot))
    end.

(** [sv->sv_i.sfi_linkcount] changed and the inode marked dirty. *)
Definition add_link (sv : loc) : M state unit :=
  v ← on_fs (load_sv sv);
  on_fs (upd_inode sv (set_linkcount (u16 (sfi_linkcount (sv_i v) + 1)))).

Definition drop_link (sv : loc) : M state unit :=
  v ← on_fs (load_sv sv);
  kassert (bool_decide (sfi_linkcount (sv_i v) > 0));;
  on_fs (upd_inode sv (set_linkcount (u16 (sfi_linkcount (sv_i v) - 1)))).

Definition sfs_creat (sv : loc) (name : list Z) (excl : bool) : M state (Z + loc) :=
  on_fs vfs_biglock_acquire;;
  r ← on_fs (sfs_dir_findname sv name);
  let '(result, f) := r in
  if bool_decide (result ≠ 0 ∧ result ≠ ENOENT) then return_unlocked (inl result)
  else if bool_decide (result = 0) && excl then return_unlocked (inl EEXIST)
  else if bool_decide (result = 0) then
    ino ← deref (λ _, f_ino f);
    r ← sfs_loadvnode ino SFS_TYPE_INVAL;
    match r with
    | inl result => return_unlocked (inl result)
    | inr newguy => return_unlocked (inr newguy)
    end
  else
    r ← sfs_makeobj SFS_TYPE_FILE;
    match r with
    | inl result => return_unlocked (inl result)
    | inr newguy =>
        n ← on_fs (load_sv newguy);
        r ← on_fs (sfs_dir_link sv name (sv_ino n));
        let '(result, _) := r in
        if bool_decide (result ≠ 0) then vnode_decref newguy;; return_unlocked (inl result)
        else add_link newguy;; return_unlocked (inr newguy)
    end.

Definition sfs_link (sv : loc) (name : list Z) (f : loc) : M state Z :=
  on_fs vfs_biglock_acquire;;
  v ← on_fs (load_sv f);
  if bool_decide (sfi_type (sv_i v) = SFS_TYPE_DIR) then return_unlocked EINVAL
  else
    r ← on_fs (sfs_dir_link sv name (sv_ino v));
    let '(result, _) := r in
    if bool_decide (result ≠ 0) then return_unlocked result
    else add_link f;; return_unlocked 0.

Definition sfs_remove (sv : loc) (name : list Z) : M state Z :=
  on_fs vfs_biglock_acquire;;
  r ← sfs_lookonce sv name;
  match r with
  | inl result => return_unlocked result
  | inr (victim, slot) =>
      result ← on_fs (sfs_dir_unlink sv slot);
      (if bool_decide (result = 0) then drop_link victim else mret tt);;
      vnode_decref victim;;
      return_unlocked result
  end.

(** [sfs_rename] once the new name is in the directory: the old one goes; if that
    fails, the new one goes again. *)
Definition rename_unlink (sv g1 : loc) (slot1 slot2 : Z) : M state Z :=
  result ← on_fs (sfs_dir_unlink sv slot1);
  if bool_decide (result ≠ 0) then
    result2 ← on_fs (sfs_dir_unlink sv slot2);
    if bool_decide (result2 ≠ 0) then stops Panic
    else
      v ← on_fs (load_sv g1);
      on_fs (upd_sv g1 (on_inode (set_linkcount (u16 (sfi_linkcount (sv_i v) - 1)))));;
      vnode_decref g1;;
      return_unlocked result
  else
    drop_link g1;;
    vnode_decref g1;;
    return_unlocked 0.

Definition sfs_rename (d1 : loc) (n1 : list Z) (d2 : loc) (n2 : list Z) : M state Z :=
  on_fs vfs_biglock_acquire;;
  kassert (bool_decide (d1 = d2));;
  v ← on_fs (load_sv d1);
  kassert (bool_decide (sv_ino v = SFS_ROOTDIR_INO));;
  r ← sfs_lookonce d1 n1;
  match r with
  | inl result => return_unlocked result
  | inr (g1, slot1) =>
      v1 ← on_fs (load_sv g1);
      kassert (bool_decide (sfi_type (sv_i v1) = SFS_TYPE_FILE));;
      r ← on_fs (sfs_dir_link d1 n2 (sv_ino v1));
      let '(result, slot2) := r in
      if bool_decide (result ≠ 0) then vnode_decref g1;; return_unlocked result
      else
        slot2 ← deref (λ _, slot2);
        add_link g1;;
        rename_unlink d1 g1 slot1 slot2
  end.

(** The directory and the last component of the path. *)
Definition sfs_lookparent (v : loc) (path : list Z) (buflen : nat) : M state (Z + loc * list Z) :=
  on_fs vfs_biglock_acquire;;
  sv ← on_fs (load_sv v);
  if bool_decide (sfi_type (sv_i sv) ≠ SFS_TYPE_DIR) then return_unlocked (inl ENOTDIR)
  else if bool_decide (buflen < length path + 1)%nat then return_unlocked (inl ENAMETOOLONG)
  else
    vnode_incref v;;
    return_unlocked (inr (v, path)).

Definition sfs_lookup (v : loc) (path : list Z) : M state (Z + loc) :=
  on_fs vfs_biglock_acquire;;
  sv ← on_fs (load_sv v);
  if bool_decide (sfi_type (sv_i sv) ≠ SFS_TYPE_DIR) then return_unlocked (inl ENOTDIR)
  else
    r ← sfs_lookonce v path;
    match r with
    | inl result => return_unlocked (inl result)
    | inr (final, _) => return_unlocked (inr final)
    end.

(** ** Files *)

Definition sfs_eachopen (openflags : Z) : Z := 0.

Definition sfs_eachopendir (openflags : Z) : Z :=
  if bool_decide (Z.land openflags O_ACCMODE ≠ O_RDONLY) then EISDIR
  else if bool_decide (Z.land openflags O_APPEND ≠ 0) then EISDIR
  else 0.

Definition sfs_ioctl : Z := EINVAL.

Definition sfs_gettype (v : loc) : M state Z :=
  sv ← on_fs (load_sv v);
  on_fs vfs_biglock_acquire;;
  if bool_decide (sfi_type (sv_i sv) = SFS_TYPE_FILE) then return_unlocked S_IFREG
  else if bool_decide (sfi_type (sv_i sv) = SFS_TYPE_DIR) then return_unlocked S_IFDIR
  else stops Panic.

(** The fields of [struct stat] that are not 0. *)
Record stat := Stat { st_mode : Z; st_size : Z; st_nlink : Z }.

Definition sfs_stat (v : loc) : M state stat :=
  vnode_check v;;
  mode ← sfs_gettype v;
  sv ← on_fs (load_sv v);
  mret (Stat mode (sfi_size (sv_i sv)) (sfi_linkcount (sv_i sv))).

Definition sfs_isseekable : bool := true.

Definition sfs_fsync (v : loc) : M state Z :=
  on_fs vfs_biglock_acquire;;
  result ← on_fs (sfs_sync_inode v);
  return_unlocked result.

Definition sfs_mmap : Z := ENOSYS.

Definition sfs_truncate (v : loc) (len : Z) : M state Z := on_fs (sfs_itrunc v len).

Definition sfs_namefile (v : loc) : M state Z :=
  sv ← on_fs (load_sv v);
  kassert (bool_decide (sv_ino sv = SFS_ROOTDIR_INO));;
  mret 0.

(** ** The tables *)

(** [VOP_]: the check, then the entry of the vnode's table. *)
Definition vop {A} (v : loc) (fileop dirop : M state A) : M state A :=
  ops ← vnode_check v;
  match ops with sfs_fileops => fileop | sfs_dirops => dirop end.

Definition vop_eachopen v flags : M state Z := vop v (mret (sfs_eachopen flags)) (mret (sfs_eachopendir flags)).
Definition vop_reclaim v : M state Z := vop v (sfs_reclaim v) (sfs_reclaim v).
Definition vop_read v (u : fuio) : M state (Z * fuio) := vop v (on_fs (sfs_read v u)) (mret (EISDIR, u)).
Definition vop_readlink v (u : fuio) : M state (Z * fuio) := vop v (mret (ENOTDIR, u)) (mret (EINVAL, u)).
Definition vop_getdirentry v (u : fuio) : M state (Z * fuio) := vop v (mret (ENOTDIR, u)) (mret (ENOSYS, u)).
Definition vop_write v (u : fuio) : M state (Z * fuio) := vop v (on_fs (sfs_write v u)) (mret (EISDIR, u)).
Definition vop_ioctl v : M state Z := vop v (mret sfs_ioctl) (mret sfs_ioctl).
Definition vop_stat v : M state stat := vop v (sfs_stat v) (sfs_stat v).
Definition vop_gettype v : M state Z := vop v (sfs_gettype v) (sfs_gettype v).
Definition vop_isseekable v : M state bool := vop v (mret sfs_isseekable) (mret sfs_isseekable).
Definition vop_fsync v : M state Z := vop v (sfs_fsync v) (sfs_fsync v).
Definition vop_mmap v : M state Z := vop v (mret sfs_mmap) (mret EISDIR).
Definition vop_truncate v len : M state Z := vop v (sfs_truncate v len) (mret EISDIR).
Definition vop_namefile v : M state Z := vop v (mret ENOTDIR) (sfs_namefile v).

Definition vop_creat v name excl : M state (Z + loc) := vop v (mret (inl ENOTDIR)) (sfs_creat v name excl).
Definition vop_symlink v : M state Z := vop v (mret ENOTDIR) (mret ENOSYS).
Definition vop_mkdir v : M state Z := vop v (mret ENOTDIR) (mret ENOSYS).
Definition vop_link v name file : M state Z := vop v (mret ENOTDIR) (sfs_link v name file).
Definition vop_remove v name : M state Z := vop v (mret ENOTDIR) (sfs_remove v name).
Definition vop_rmdir v : M state Z := vop v (mret ENOTDIR) (mret ENOSYS).
Definition vop_rename d1 n1 d2 n2 : M state Z := vop d1 (mret ENOTDIR) (sfs_rename d1 n1 d2 n2).
Definition vop_lookup v path : M state (Z + loc) := vop v (mret (inl ENOTDIR)) (sfs_lookup v path).
Definition vop_lookparent v path buflen : M state (Z + loc * list Z) :=
  vop v (mret (inl ENOTDIR)) (sfs_lookparent v path buflen).
End hw.
