(* ===== verification/SfsCore.v ===== *)
(** * The invariant of an SFS volume with inodes in memory

    The files of a volume are a finite map from inode numbers to inodes; some of
    them are in memory.  [files_ok]: each file has blocks of its own;
    [table_ok]: what is in memory agrees with the map and with the disk. *)

From stdpp Require Import base tactics list gmap option numbers ssreflect.
From S2P Require Import Prelude Kern.
From S2P Require Import Uio Lhd Bitmap Array Sfs SfsFacts SfsTrunc SfsThms SfsDir SfsNames SfsDirThms SfsVnode.

Open Scope Z_scope.

(** ** Lifting *)

Lemma wp_on_fs {A} (m : M Sfs.state A) (Q : A → state → Prop) s :
  wp m (λ a f, Q a (set_fs f s)) (fs s) → wp (on_fs m) Q s.
Proof. rw /wp /on_fs. by destruct (m (fs s)). Qed.

Lemma wp_on_vnodes {A} (m : loc → M Array.state A) (Q : A → state → Prop) s :
  wp (m (sfs_vnodes s)) (λ a t, Q a (set_table t s)) (table s) → wp (on_vnodes m) Q s.
Proof. rw /wp /on_vnodes. by destruct (m (sfs_vnodes s) (table s)). Qed.

Lemma set_fs_same s : set_fs (fs s) s = s.
Proof. by destruct s. Qed.

Lemma set_table_same s : set_table (table s) s = s.
Proof.
  transitivity (set_fs (with_base (base_of (fs s)) (fs s)) s); [done|]. by rw with_base_same set_fs_same.
Qed.

(** ** Inodes on disk *)

Record dinode_ok (i : sfs_dinode) : Prop := {
  di_type : sfi_type i = SFS_TYPE_FILE ∨ sfi_type i = SFS_TYPE_DIR;
  di_links : 0 ≤ sfi_linkcount i < 2 ^ 16;
  di_waste : length (sfi_waste i) = 110%nat
}.

Lemma dinode_words_length i : length (sfi_direct i) = SFS_NDIRECT → dinode_ok i → length (dinode_words i) = 128%nat.
Proof. intros Hd [_ _ Hw]. by rw /dinode_words !length_app /= Hd Hw. Qed.

Lemma words_dinode_words i : length (sfi_direct i) = SFS_NDIRECT → dinode_ok i → words_dinode (dinode_words i) = i.
Proof.
  intros Hd [Ht Hl Hw]. destruct i as [sz ty lc D ind W]. simpl in *.
  rw /words_dinode /dinode_words /=. f_equal; [zlia | zlia | by rw take_app_length' | |].
  - do 15 (destruct D as [|? D]; [done|]). by destruct D.
  - do 15 (destruct D as [|? D]; [done|]). by destruct D.
Qed.

(** ** The files of the volume *)

(** The blocks of the freemap. *)
Definition meta (n b : Z) : Prop := 2 ≤ b < 2 + (n + 4095) / 4096.

Record files_ok (f : Sfs.state) (I : gmap Z sfs_dinode) : Prop := {
  fi_volume : volume f;
  fi_inode : ∀ ino i, I !! ino = Some i → 0 < ino < sb_nblocks f ∧ marked f ino = true ∧ file_ok f i ∧ dinode_ok i;
  fi_apart : ∀ ino i ino' i' b, I !! ino = Some i → I !! ino' = Some i' → ino ≠ ino' → b ≠ 0 →
    b ∈ blocks f i → b ∉ blocks f i';
  fi_blocks : ∀ ino i ino', I !! ino = Some i → is_Some (I !! ino') → ino' ∉ blocks f i;
  fi_meta : ∀ b, meta (sb_nblocks f) b → b < sb_nblocks f ∧ marked f b = true ∧ I !! b = None ∧
    ∀ ino i, I !! ino = Some i → b ∉ blocks f i
}.

(** The file [i] has become [i']: blocks have been taken or given up, and only its
    own sectors written. *)
Record touches (f : Sfs.state) (i : sfs_dinode) (f' : Sfs.state) (i' : sfs_dinode) : Prop := {
  to_volume : volume f';
  to_nblocks : sb_nblocks f' = sb_nblocks f;
  to_file : file_ok f' i';
  to_blocks : ∀ b, b ∈ blocks f' i' → b ≠ 0 → b ∈ blocks f i ∨ marked f b = false;
  to_marked : ∀ b, 0 ≤ b → marked f b = true → b ∉ blocks f i → marked f' b = true;
  to_sectors : ∀ b, 0 < b → marked f b = true → b ∉ blocks f i →
    sectors (sfs_device f') !! b = sectors (sfs_device f) !! b
}.

(** A file that is not touched. *)
Record untouched (f : Sfs.state) (i : sfs_dinode) (f' : Sfs.state) : Prop := {
  un_blocks : blocks f' i = blocks f i;
  un_file : file_ok f' i;
  un_contents : same_contents f i f' i
}.

Lemma blocks_used f i b : file_ok f i → b ∈ blocks f i → b ≠ 0 → 0 < b < sb_nblocks f ∧ marked f b = true.
Proof. intros Hf [k Hk]%list_elem_of_lookup Hb. by apply (own_used _ _ (f_owns _ _ Hf) k). Qed.

(** Sectors and marks that stay, for the blocks of a file. *)
Lemma untouched_when f i f' :
  file_ok f i → sb_nblocks f' = sb_nblocks f →
  (∀ b, b ∈ blocks f i → b ≠ 0 → marked f' b = true ∧ sectors (sfs_device f') !! b = sectors (sfs_device f) !! b) →
  untouched f i f'.
Proof.
  intros Hf Hn Hb.
  assert (mapping f' i = mapping f i) as Hm.
  { rw /mapping. case_bool_decide as H0; [done|]. destruct (Hb (sfi_indirect i)) as [_ ->]; [by left | done..]. }
  split.
  - by rw /blocks Hm.
  - split; [apply Hf|]. rw Hm. destruct (f_owns _ _ Hf) as [Hu Ho]. split; [|exact Ho].
    intros k b Hk H0. rw Hn. split; [by eapply Hu|]. apply Hb; [by eapply list_elem_of_lookup_2|done].
  - intros fb. rw /fblock Hm. destruct (mapping f i !! fb) as [b|] eqn:Hk; [|done]. case_bool_decide as H0; [done|].
    destruct (Hb b) as [_ ->]; [right; by eapply list_elem_of_lookup_2 | done..].
Qed.

Lemma touches_others f I ino i f' i' ino2 i2 :
  files_ok f I → I !! ino = Some i → touches f i f' i' → I !! ino2 = Some i2 → ino2 ≠ ino →
  untouched f i2 f' ∧ marked f' ino2 = true ∧ sectors (sfs_device f') !! ino2 = sectors (sfs_device f) !! ino2.
Proof.
  intros HI Hi Ht Hi2 Hne. destruct (fi_inode _ _ HI _ _ Hi2) as (Hr & Hm & Hf & _).
  pose proof (fi_blocks _ _ HI ino i ino2 Hi ltac:(by eexists)) as Hout. split; [|split].
  - apply untouched_when; [done | apply Ht |]. intros b Hb H0. destruct (blocks_used _ _ _ Hf Hb H0) as [Hrb Hmb].
    pose proof (fi_apart _ _ HI ino2 i2 ino i b Hi2 Hi Hne H0 Hb).
    split; [apply Ht; try done; lia | apply Ht; try done; lia].
  - apply Ht; try done. lia.
  - apply Ht; try done. lia.
Qed.

Lemma files_touch f I ino i f' i' :
  files_ok f I → I !! ino = Some i → touches f i f' i' → dinode_ok i' → files_ok f' (<[ino := i']> I).
Proof.
  intros HI Hi Ht Hd. pose proof (touches_others f I ino i f' i') as Hoth.
  assert (∀ b ino2 i2, I !! ino2 = Some i2 → ino2 ≠ ino → b ≠ 0 → b ∈ blocks f' i' → b ∉ blocks f i2 ∧ b ≠ ino2) as Hnew.
  { intros b ino2 i2 Hi2 Hne H0 Hb. destruct (fi_inode _ _ HI _ _ Hi2) as (Hr & Hm & Hf & _).
    destruct (to_blocks _ _ _ _ Ht b Hb H0) as [Hin|Hfree].
    - split; [by apply (fi_apart _ _ HI ino i ino2 i2)|]. intros ->. by apply (fi_blocks _ _ HI ino i ino2).
    - split; [|congruence]. intros Hin. destruct (blocks_used _ _ _ Hf Hin H0). congruence. }
  destruct (fi_inode _ _ HI _ _ Hi) as (Hri & Hmi & _ & _).
  pose proof (fi_blocks _ _ HI ino i ino Hi ltac:(by eexists)) as Hself.
  split.
  - apply Ht.
  - intros ino2 i2. rw (to_nblocks _ _ _ _ Ht). intros [[<- <-]|[Hne Hi2]]%lookup_insert_Some.
    + split; [done|]. split; [apply Ht; try done; lia|]. split; [apply Ht | done].
    + destruct (fi_inode _ _ HI _ _ Hi2) as (Hr & Hm & Hf & Hd2).
      destruct (Hoth ino2 i2 HI Hi Ht Hi2 ltac:(done)) as (Hun & Hm2 & _). split; [done|]. split; [done|].
      split; [apply Hun | done].
  - intros ino1 i1 ino2 i2 b [[<- <-]|[Hn1 H1]]%lookup_insert_Some [[<- <-]|[Hn2 H2]]%lookup_insert_Some Hne H0; try done.
    + intros Hb. destruct (Hoth ino2 i2 HI Hi Ht H2 ltac:(done)) as (Hun & _). rw (un_blocks _ _ _ Hun). by eapply Hnew.
    + destruct (Hoth ino1 i1 HI Hi Ht H1 ltac:(done)) as (Hun & _). rw (un_blocks _ _ _ Hun).
      intros Hb Hb'. by destruct (Hnew b ino1 i1 H1 ltac:(done) H0 Hb').
    + destruct (Hoth ino1 i1 HI Hi Ht H1 ltac:(done)) as (Hun1 & _). destruct (Hoth ino2 i2 HI Hi Ht H2 ltac:(done)) as (Hun2 & _).
      rw (un_blocks _ _ _ Hun1) (un_blocks _ _ _ Hun2). by apply (fi_apart _ _ HI ino1 i1 ino2 i2).
  - intros ino1 i1 ino2 Hl1 Hl2.
    assert (is_Some (I !! ino2)) as [i2 Hi2].
    { destruct Hl2 as [i2 Hl2]. apply lookup_insert_Some in Hl2 as [[<- _]|[_ ?]]; [by eexists | by eexists]. }
    destruct (fi_inode _ _ HI _ _ Hi2) as (Hr2 & Hm2 & _).
    apply lookup_insert_Some in Hl1 as [[<- <-]|[Hn1 H1]].
    + intros Hb. destruct (decide (ino2 = ino)) as [->|Hne].
      * destruct (to_blocks _ _ _ _ Ht ino Hb ltac:(lia)); [done|congruence].
      * by destruct (Hnew ino2 ino2 i2 Hi2 Hne ltac:(lia) Hb).
    + destruct (Hoth ino1 i1 HI Hi Ht H1 ltac:(done)) as (Hun & _). rw (un_blocks _ _ _ Hun). by apply (fi_blocks _ _ HI ino1 i1).
  - intros b. rw (to_nblocks _ _ _ _ Ht). intros Hb. destruct (fi_meta _ _ HI b Hb) as (Hbn & Hmb & Hnone & Hout).
    rw /meta in Hb. assert (b ∉ blocks f i) as Hbi by (by apply (Hout ino)).
    split; [done|]. split; [apply Ht; try done; lia|]. split; [rw lookup_insert_ne //; congruence|].
    intros ino2 i2 [[<- <-]|[Hne Hi2]]%lookup_insert_Some Hin.
    + destruct (to_blocks _ _ _ _ Ht b Hin ltac:(lia)); [done|congruence].
    + destruct (Hoth ino2 i2 HI Hi Ht Hi2 ltac:(done)) as (Hun & _). rw (un_blocks _ _ _ Hun) in Hin. by apply (Hout ino2 i2).
Qed.

(** What the operations on one file do. *)
Lemma rewrites_touches sv f v f' v' : rewrites sv f v f' v' → touches f (sv_i v) f' (sv_i v').
Proof.
  intros Hw. split; try apply Hw. intros b Hb Hm _. by apply Hw.
Qed.

Lemma blocks_in f i f' i' b : cut f (blocks f i) f' (blocks f' i') → b ≠ 0 → b ∈ blocks f' i' → b ∈ blocks f i.
Proof. intros Hc Hb. by apply zeroed_in, Hb; apply Hc. Qed.

Lemma truncated_touches sv f v len f' v' :
  volume f → file_ok f (sv_i v) → truncated sv f v len f' v' → touches f (sv_i v) f' (sv_i v').
Proof.
  intros Hv Hf Ht. pose proof (tr_cut _ _ _ _ _ _ Ht) as Hc. split.
  - apply Hc.
  - apply (c_env _ _ _ _ Hc).
  - apply Ht.
  - intros b Hb H0. left. by apply (blocks_in _ _ _ _ _ Hc).
  - intros b Hb Hm Hn. apply (c_marked _ _ _ _ Hc); [done|]. split; [done|]. intros Hin. by destruct Hn.
  - intros b Hb Hm Hn. apply Ht. intros ->. apply Hn. by left.
Qed.

Lemma file_ok_same f i f' i' :
  file_ok f i → sfi_direct i' = sfi_direct i → sfi_indirect i' = sfi_indirect i → sfs_device f' = sfs_device f →
  sb_nblocks f' = sb_nblocks f → (∀ b, 0 ≤ b → marked f b = true → marked f' b = true) →
  file_ok f' i' ∧ blocks f' i' = blocks f i ∧ same_contents f i f' i'.
Proof.
  intros Hf Hd Hi Hdev Hn Hm.
  assert (mapping f' i' = mapping f i) as Hmap by (by rw /mapping Hd Hi Hdev).
  split; [|split].
  - split; [rw Hd; apply Hf|]. rw Hmap Hi. by apply (owns_mono f); [apply Hf|..].
  - by rw /blocks Hmap Hi.
  - intros fb. by rw /fblock Hmap Hdev.
Qed.

(** The inode is changed where its blocks are not concerned, in the state [f'] of
    the same disk. *)
Lemma relabel_touches f i f' i' :
  volume f' → file_ok f i → sfi_direct i' = sfi_direct i → sfi_indirect i' = sfi_indirect i → sfs_device f' = sfs_device f →
  sb_nblocks f' = sb_nblocks f → (∀ b, 0 ≤ b → marked f b = true → marked f' b = true) → touches f i f' i'.
Proof.
  intros Hv Hf Hd Hi Hdev Hn Hm. destruct (file_ok_same f i f' i') as (Hf' & Hb & _); [done..|]. split; try done.
  - intros b. rw Hb. by left.
  - intros b Hb0 Hmk _. by apply Hm.
  - intros b _ _ _. by rw Hdev.
Qed.

(** Nothing has happened to the blocks of the files. *)
Lemma files_kept f I f' :
  files_ok f I → volume f' → sb_nblocks f' = sb_nblocks f → (∀ b, marked f' b = marked f b) →
  (∀ ino i b, I !! ino = Some i → b ∈ blocks f i → b ≠ 0 → sectors (sfs_device f') !! b = sectors (sfs_device f) !! b) →
  files_ok f' I ∧ ∀ ino i, I !! ino = Some i → untouched f i f'.
Proof.
  intros HI Hv Hn Hm Hs.
  assert (∀ ino i, I !! ino = Some i → untouched f i f') as Hun.
  { intros ino i Hi. destruct (fi_inode _ _ HI _ _ Hi) as (_ & _ & Hf & _). apply untouched_when; [done..|].
    intros b Hb H0. destruct (blocks_used _ _ _ Hf Hb H0). rw Hm (Hs ino i) //. }
  split; [|done]. split; [done| | | |].
  - intros ino i Hi. destruct (fi_inode _ _ HI _ _ Hi) as (Hr & Hmk & _ & Hd). rw Hn Hm. split; [done|]. split; [done|].
    split; [apply (Hun ino i Hi) | done].
  - intros ino1 i1 ino2 i2 b H1 H2. rw (un_blocks _ _ _ (Hun _ _ H1)) (un_blocks _ _ _ (Hun _ _ H2)).
    by apply (fi_apart _ _ HI ino1 i1 ino2 i2).
  - intros ino1 i1 ino2 H1 H2. rw (un_blocks _ _ _ (Hun _ _ H1)). by apply (fi_blocks _ _ HI ino1 i1).
  - intros b. rw Hn Hm. intros Hb. destruct (fi_meta _ _ HI b Hb) as (? & ? & ? & Hout). do 3 (split; [done|]).
    intros ino1 i1 Hi1. rw (un_blocks _ _ _ (Hun _ _ Hi1)). by apply (Hout ino1).
Qed.

(** Only what does not concern files has changed: locks, inodes in memory, the heap. *)
Lemma files_same f I f' :
  files_ok f I → volume f' → sb_nblocks f' = sb_nblocks f → (∀ b, marked f' b = marked f b) →
  (∀ b, 0 < b → marked f b = true → sectors (sfs_device f') !! b = sectors (sfs_device f) !! b) → files_ok f' I.
Proof.
  intros HI Hv Hn Hm Hs. apply (files_kept f); [done..|]. intros ino i b Hi Hb H0.
  destruct (fi_inode _ _ HI _ _ Hi) as (_ & _ & Hf & _). destruct (blocks_used _ _ _ Hf Hb H0). apply Hs; [lia|done].
Qed.

(** ** Files appear and go *)

(** An inode without blocks. *)
Definition empty_inode (i : sfs_dinode) : Prop := sfi_direct i = replicate SFS_NDIRECT 0 ∧ sfi_indirect i = 0.

Lemma empty_blocks f i b : empty_inode i → b ∈ blocks f i → b = 0.
Proof.
  intros [Hd Hi]. rw /blocks /mapping Hi Hd bool_decide_eq_true_2 //. rw /zeros elem_of_cons elem_of_app.
  intros [->|[[? _]%elem_of_replicate|[? _]%elem_of_replicate]]; done.
Qed.

Lemma empty_file f i : empty_inode i → file_ok f i.
Proof.
  intros He. split; [by rw (proj1 He) length_replicate|]. split.
  - intros k b Hk Hb. destruct Hb. apply (empty_blocks f i); [done|]. by eapply list_elem_of_lookup_2.
  - intros j k b Hj _ Hb. destruct Hb. apply (empty_blocks f i); [done|]. by eapply list_elem_of_lookup_2.
Qed.

Lemma files_new f I f' ino i :
  files_ok f I → taken f f' ino → empty_inode i → dinode_ok i → files_ok f' (<[ino := i]> I) ∧ I !! ino = None ∧
    (∀ ino2 i2, I !! ino2 = Some i2 → untouched f i2 f').
Proof.
  intros HI Ht He Hd. pose proof Ht as [Hr Hfree Hv Henv _ Hm Hs].
  assert (sb_nblocks f' = sb_nblocks f) as Hn by apply Henv.
  assert (I !! ino = None) as Hnone.
  { destruct (I !! ino) as [i2|] eqn:Hi2; [|done]. destruct (fi_inode _ _ HI _ _ Hi2) as (_ & ? & _). congruence. }
  assert (∀ ino2 i2, I !! ino2 = Some i2 → untouched f i2 f') as Hun.
  { intros ino2 i2 Hi2. destruct (fi_inode _ _ HI _ _ Hi2) as (_ & _ & Hf & _). apply untouched_when; [done..|].
    intros b Hb H0. destruct (blocks_used _ _ _ Hf Hb H0) as [? Hmb]. rw Hm; [|lia]. rw Hmb orb_true_r. split; [done|].
    rw Hs lookup_insert_ne //. congruence. }
  split; [|done]. split; [done| | | |].
  - intros ino2 i2. rw Hn. intros [[<- <-]|[Hne Hi2]]%lookup_insert_Some.
    + split; [done|]. rw Hm; [|lia]. rw bool_decide_eq_true_2 //. split; [done|]. split; [by apply empty_file | done].
    + destruct (fi_inode _ _ HI _ _ Hi2) as (Hr2 & Hm2 & _ & Hd2). split; [done|]. rw Hm; [|lia]. rw Hm2 orb_true_r.
      split; [done|]. split; [by eapply un_file, Hun | done].
  - intros ino1 i1 ino2 i2 b [[<- <-]|[Hn1 H1]]%lookup_insert_Some [[<- <-]|[Hn2 H2]]%lookup_insert_Some Hne H0; try done.
    + intros Hb. by apply empty_blocks in Hb.
    + intros _ Hb. by apply empty_blocks in Hb.
    + rw (un_blocks _ _ _ (Hun _ _ H1)) (un_blocks _ _ _ (Hun _ _ H2)). by apply (fi_apart _ _ HI ino1 i1 ino2 i2).
  - intros ino1 i1 ino2 [[<- <-]|[Hn1 H1]]%lookup_insert_Some [i2 Hi2] Hb.
    + apply empty_blocks in Hb as ->; [|done]. apply lookup_insert_Some in Hi2 as [[-> _]|[_ Hi2]]; [lia|].
      destruct (fi_inode _ _ HI _ _ Hi2). lia.
    + rw (un_blocks _ _ _ (Hun _ _ H1)) in Hb. apply lookup_insert_Some in Hi2 as [[<- _]|[_ Hi2]].
      * destruct (fi_inode _ _ HI _ _ H1) as (_ & _ & Hf & _). destruct (blocks_used _ _ _ Hf Hb); [lia|congruence].
      * by apply (fi_blocks _ _ HI ino1 i1 ino2 H1 ltac:(by eexists)).
  - intros b. rw Hn. intros Hb. destruct (fi_meta _ _ HI b Hb) as (Hbn & Hmb & Hb0 & Hout). rw /meta in Hb.
    split; [done|]. rw Hm; [|lia]. rw Hmb orb_true_r. split; [done|]. split; [rw lookup_insert_ne //; congruence|].
    intros ino2 i2 [[<- <-]|[Hne Hi2]]%lookup_insert_Some Hin; [apply empty_blocks in Hin; [lia|done]|].
    rw (un_blocks _ _ _ (Hun _ _ Hi2)) in Hin. by apply (Hout ino2 i2).
Qed.

(** The inode itself is given up. *)
Lemma files_delete f I f' ino i :
  files_ok f I → I !! ino = Some i → volume f' → sb_nblocks f' = sb_nblocks f → sfs_device f' = sfs_device f →
  (∀ j, 0 ≤ j → marked f' j = negb (bool_decide (ino = j)) && marked f j) →
  files_ok f' (delete ino I) ∧ (∀ ino2 i2, I !! ino2 = Some i2 → ino2 ≠ ino → untouched f i2 f').
Proof.
  intros HI Hi Hv Hn Hdev Hm.
  assert (∀ ino2 i2, I !! ino2 = Some i2 → ino2 ≠ ino → untouched f i2 f') as Hun.
  { intros ino2 i2 Hi2 Hne. destruct (fi_inode _ _ HI _ _ Hi2) as (_ & _ & Hf & _). apply untouched_when; [done..|].
    intros b Hb H0. destruct (blocks_used _ _ _ Hf Hb H0) as [? Hmb]. rw Hm; [|lia]. rw Hmb Hdev. split; [|done].
    rw bool_decide_eq_false_2 //. intros <-. by apply (fi_blocks _ _ HI ino2 i2 ino Hi2 ltac:(by eexists)). }
  split; [|done]. split; [done| | | |].
  - intros ino2 i2 [Hne Hi2]%lookup_delete_Some. destruct (fi_inode _ _ HI _ _ Hi2) as (Hr2 & Hm2 & _ & Hd2).
    rw Hn Hm; [|lia]. rw Hm2 bool_decide_eq_false_2 //. split; [done|]. split; [done|].
    split; [by eapply un_file, Hun | done].
  - intros ino1 i1 ino2 i2 b [Hn1 H1]%lookup_delete_Some [Hn2 H2]%lookup_delete_Some.
    rw (un_blocks _ _ _ (Hun _ _ H1 ltac:(done))) (un_blocks _ _ _ (Hun _ _ H2 ltac:(done))). by apply (fi_apart _ _ HI ino1 i1 ino2 i2).
  - intros ino1 i1 ino2 [Hn1 H1]%lookup_delete_Some [i2 [_ Hi2]%lookup_delete_Some]. rw (un_blocks _ _ _ (Hun _ _ H1 ltac:(done))).
    apply (fi_blocks _ _ HI ino1 i1 ino2 H1). by eexists.
  - intros b. rw Hn. intros Hb. destruct (fi_meta _ _ HI b Hb) as (Hbn & Hmb & Hnone & Hout). rw /meta in Hb.
    split; [done|]. rw Hm; [|lia]. rw Hmb bool_decide_eq_false_2; [|congruence]. split; [done|].
    split; [apply lookup_delete_None; by right|]. intros ino2 i2 [Hne Hi2]%lookup_delete_Some.
    rw (un_blocks _ _ _ (Hun _ _ Hi2 ltac:(done))). by apply (Hout ino2).
Qed.

(** ** Inodes in memory agree with the volume

    [sfs_ok s I L]: the volume has the files [I], and the table of vnodes is [L].
    The lemmas say that it is kept when one file changes, when an inode is written
    back, when the heap changes and when the VFS lock is taken or released. *)

(** ** The invariant *)

(** The blocks of the heap the volume depends on: the lock, the freemap and its
    bits, the array of vnodes and its cells. *)
Definition anchors (s : state) : list loc :=
  option_list (vfs_biglock (fs s)) ++ sfs_freemap (fs s) :: sfs_vnodes s ::
  option_list (v <$> maps (fm (fs s)) !! sfs_freemap (fs s)) ++ option_list (arrays s !! sfs_vnodes s ≫= vec).

Record heap_ok (s : state) (L : list loc) : Prop := {
  hp_once : NoDup (anchors s ++ L);
  hp_live : ∀ l, l ∈ anchors s ++ L → l ∈ live (base_of s)
}.

(** The vnode at [l] is the inode [v] with [x]. *)
Record in_core (s : state) (I : gmap Z sfs_dinode) (l : loc) (v : sfs_vnode) (x : vnode) : Prop := {
  ic_sv : svs (fs s) !! l = Some v;
  ic_vn : vnodes s !! l = Some x;
  ic_ops : vn_ops x = ops_of (sfi_type (sv_i v));
  ic_ref : 1 ≤ vn_refcount x < 2 ^ 31;
  ic_inode : I !! sv_ino v = Some (sv_i v);
  ic_clean : sv_dirty v = false → sectors (sfs_device (fs s)) !! sv_ino v = Some (dinode_words (sv_i v))
}.

Record table_ok (s : state) (I : gmap Z sfs_dinode) (L : list loc) : Prop := {
  tb_array : ∃ x, repr (table s) (sfs_vnodes s) x (Some <$> L);
  tb_heap : heap_ok s L;
  tb_core : ∀ l, l ∈ L → ∃ v x, in_core s I l v x;
  tb_once : ∀ l l' v v', l ∈ L → l' ∈ L → svs (fs s) !! l = Some v → svs (fs s) !! l' = Some v' →
    sv_ino v = sv_ino v' → l = l';
  tb_disk : ∀ ino i, I !! ino = Some i →
    (∃ l v, l ∈ L ∧ svs (fs s) !! l = Some v ∧ sv_ino v = ino) ∨ sectors (sfs_device (fs s)) !! ino = Some (dinode_words i)
}.

Record sfs_ok (s : state) (I : gmap Z sfs_dinode) (L : list loc) : Prop := {
  so_files : files_ok (fs s) I;
  so_table : table_ok s I L;
  so_small : sb_nblocks (fs s) ≤ 2 ^ 23;
  so_lock : is_Some (vfs_biglock (fs s))
}.

(** The vnode of inode [ino] is at [l]. *)
Definition loaded (s : state) (L : list loc) (l : loc) (ino : Z) : Prop :=
  l ∈ L ∧ ∃ v, svs (fs s) !! l = Some v ∧ sv_ino v = ino.

(** ** Consequences *)

Lemma ok_core s I L l v : sfs_ok s I L → l ∈ L → svs (fs s) !! l = Some v → ∃ x, in_core s I l v x.
Proof.
  intros Hok Hl Hv. destruct (tb_core _ _ _ (so_table _ _ _ Hok) l Hl) as (v' & x & Hc).
  exists x. pose proof (ic_sv _ _ _ _ _ Hc). by replace v with v' by congruence.
Qed.

Lemma ok_live s I L l : sfs_ok s I L → l ∈ L → is_live l s = true.
Proof.
  intros Hok Hl. apply is_live_true. apply (hp_live _ _ (tb_heap _ _ _ (so_table _ _ _ Hok))). rw elem_of_app. by right.
Qed.

Lemma ok_live_fs s I L l : sfs_ok s I L → l ∈ L → is_live l (fs s) = true.
Proof. intros Hok Hl. exact (ok_live _ _ _ _ Hok Hl). Qed.

(** There are no more vnodes than blocks. *)
Lemma ok_length s I L : sfs_ok s I L → Z.of_nat (length L) ≤ 2 ^ 23.
Proof.
  intros Hok. pose proof (so_table _ _ _ Hok) as Ht.
  assert (∀ l, l ∈ L → ∃ v, svs (fs s) !! l = Some v ∧ 0 < sv_ino v < sb_nblocks (fs s)) as Hin.
  { intros l Hl. destruct (tb_core _ _ _ Ht l Hl) as (v & x & Hc). exists v. split; [apply Hc|].
    apply (fi_inode _ _ (so_files _ _ _ Hok) _ _ (ic_inode _ _ _ _ _ Hc)). }
  set (ino := λ l, default 0 (sv_ino <$> svs (fs s) !! l)).
  assert (NoDup (ino <$> L)) as Hnd.
  { apply NoDup_fmap_2_strong.
    - intros l l' Hl Hl'. destruct (Hin l Hl) as (v & Hv & _). destruct (Hin l' Hl') as (v' & Hv' & _).
      rw /ino Hv Hv' /=. by apply (tb_once _ _ _ Ht).
    - pose proof (hp_once _ _ (tb_heap _ _ _ Ht)) as Hnd. by apply NoDup_app in Hnd as (_ & _ & ?). }
  assert (length (ino <$> L) ≤ length (seqZ 0 (sb_nblocks (fs s))))%nat as Hle.
  { apply submseteq_length, NoDup_submseteq; [done|]. intros n (l & -> & Hl)%list_elem_of_fmap.
    destruct (Hin l Hl) as (v & Hv & Hr). rw /ino Hv elem_of_seqZ /=. lia. }
  rw length_fmap length_seqZ in Hle. pose proof (so_small _ _ _ Hok). lia.
Qed.

Lemma ok_array s I L : sfs_ok s I L → ∃ x, repr (table s) (sfs_vnodes s) x (Some <$> L).
Proof. intros Hok. apply Hok. Qed.

(** ** What the environment keeps *)

(** The lock and the parameters of the volume. *)
Record venv (s s' : state) : Prop := {
  ve_lock : vfs_biglock (fs s') = vfs_biglock (fs s);
  ve_depth : vfs_biglock_depth (fs s') = vfs_biglock_depth (fs s);
  ve_lks : lks (base_of s') = lks (base_of s);
  ve_me : me (base_of s') = me (base_of s);
  ve_freemap : sfs_freemap (fs s') = sfs_freemap (fs s);
  ve_nblocks : sb_nblocks (fs s') = sb_nblocks (fs s);
  ve_table : sfs_vnodes s' = sfs_vnodes s
}.

#[export] Instance venv_preorder : PreOrder venv.
Proof.
  split; [by intros s|]. intros s1 s2 s3 [] []. split; congruence.
Qed.

Lemma venv_fs s f : same_env (fs s) f → venv s (set_fs f s).
Proof.
  intros (? & ? & ? & ? & Hs & _). split; try done; simpl; by rw /base_of /= Hs.
Qed.

Lemma venv_held s s' I L : venv s s' → sfs_ok s' I L → held (fs s) → held (fs s').
Proof.
  intros Hv Hok (l & k & Hp & _ & Hk & Hn). pose proof (ve_lock _ _ Hv) as Hlk. rw Hp in Hlk. exists l, k.
  pose proof (ve_lks _ _ Hv) as Hlks. pose proof (ve_me _ _ Hv) as Hme. rw /base_of /= in Hlks, Hme.
  split; [done|]. split; [|by rw /base_of /= Hlks Hme].
  apply (hp_live _ _ (tb_heap _ _ _ (so_table _ _ _ Hok))). rw /anchors Hlk. by left.
Qed.

(** ** Changes that do not concern the files *)

Lemma volume_kept f f' :
  volume f → maps (fm f') = maps (fm f) → bytes (fm f') = bytes (fm f) → sfs_freemap f' = sfs_freemap f →
  sb_nblocks f' = sb_nblocks f → sfs_device f' = sfs_device f → sfs_freemap f ∈ live (Bitmap.sys (fm f')) →
  (∀ m, maps (fm f) !! sfs_freemap f = Some m → v m ∈ live (Bitmap.sys (fm f'))) → volume f' ∧ ∀ b, marked f' b = marked f b.
Proof.
  intros [(m & ws & [] & ? & ?) Hs ? ?] Hmaps Hbytes Hf Hn Hd Hl Hl'.
  assert (∀ b, marked f' b = marked f b) as Hm by (intros b; by rw /marked Hf Hmaps Hbytes).
  split; [|exact Hm]. split.
  - exists m, ws. rw Hf Hn. split; [|done]. split; rw ?Hmaps ?Hbytes //. by apply Hl'.
  - by rw Hm.
  - by rw Hn Hd.
  - by rw Hd.
Qed.

Lemma repr_frame t t' a x xs :
  repr t a x xs → Array.arrays t' !! a = Array.arrays t !! a → Array.vecs t' = Array.vecs t →
  a ∈ live (Array.sys t') → (∀ l, vec x = Some l → l ∈ live (Array.sys t')) → repr t' a x xs.
Proof.
  intros [Hl Hx Hnum Hmax Hcap Hvec (cs & Hcs & Hlen & Htake)] Ha Hv Hla Hlv. split; try done.
  - by rw Ha.
  - exists cs. split; [|done]. destruct (vec x) as [l|] eqn:E; [|done]. simpl in Hcs |- *.
    assert (is_live l t' = true) as -> by (apply is_live_true; by apply Hlv).
    rw Hv. by destruct (is_live l t).
Qed.

(** The array's header and its cells are among the anchors. *)
Lemma anchor_array s L x xs :
  repr (table s) (sfs_vnodes s) x xs → heap_ok s L → (∀ l, vec x = Some l → l ∈ anchors s) ∧ sfs_vnodes s ∈ anchors s.
Proof.
  intros [_ Hx _ _ _ _ _] Hh. simpl in Hx. rw /anchors Hx /=. split; [|set_solver].
  intros l ->. rw /= !elem_of_app !elem_of_cons !elem_of_app. right. right. right. right. set_solver.
Qed.

(** The vnodes, the files and the array stay; the heap keeps what is needed. *)
Record same_core (s s' : state) (L : list loc) : Prop := {
  sc_volume : volume (fs s');
  sc_nblocks : sb_nblocks (fs s') = sb_nblocks (fs s);
  sc_marked : ∀ b, marked (fs s') b = marked (fs s) b;
  sc_sectors : sectors (sfs_device (fs s')) = sectors (sfs_device (fs s));
  sc_svs : ∀ l, l ∈ L → svs (fs s') !! l = svs (fs s) !! l;
  sc_vnodes : ∀ l, l ∈ L → vnodes s' !! l = vnodes s !! l;
  sc_arrays : arrays s' = arrays s ∧ vecs s' = vecs s ∧ sfs_vnodes s' = sfs_vnodes s;
  sc_anchors : anchors s' = anchors s;
  sc_live : ∀ l, l ∈ anchors s ++ L → l ∈ live (base_of s');
  sc_lock : vfs_biglock (fs s') = vfs_biglock (fs s)
}.

Lemma in_core_same s s' I l v x :
  in_core s I l v x → svs (fs s') !! l = svs (fs s) !! l → vnodes s' !! l = vnodes s !! l →
  sectors (sfs_device (fs s')) = sectors (sfs_device (fs s)) → in_core s' I l v x.
Proof. intros [] Hs Hv Hd. split; rw ?Hs ?Hv ?Hd //. Qed.

Lemma table_same s s' I L : table_ok s I L → same_core s s' L → table_ok s' I L.
Proof.
  intros [(x & Hx) Hh Hc Ho Hd] [_ _ _ Hsec Hsvs Hvn (Ha & Hv & Ht) Hanc Hlive _].
  destruct (anchor_array _ _ _ _ Hx Hh) as [Hvec Hhdr]. split.
  - exists x. rw Ht. apply (repr_frame (table s)); [done | by rw /= Ha | done | |].
    + apply Hlive, elem_of_app. by left.
    + intros l Hl. apply Hlive, elem_of_app. left. by apply Hvec.
  - split; rw Hanc; [apply Hh | done].
  - intros l Hl. destruct (Hc l Hl) as (v & y & Hi). exists v, y. apply (in_core_same s); auto.
  - intros l l' v v' Hl Hl'. rw Hsvs // Hsvs //. by apply Ho.
  - intros ino i Hi. rw Hsec. destruct (Hd ino i Hi) as [(l & v & Hl & Hv' & Hn)|]; [left | by right].
    exists l, v. by rw Hsvs.
Qed.

Lemma so_same s s' I L : sfs_ok s I L → same_core s s' L → sfs_ok s' I L.
Proof.
  intros Hok Hs. pose proof Hs as [Hvol Hn Hm Hsec _ _ _ _ _ Hlk]. split.
  - apply (files_same (fs s)); [apply Hok | done..|]. intros. by rw Hsec.
  - eapply table_same; [apply Hok | done].
  - rw Hn. apply Hok.
  - rw Hlk. apply Hok.
Qed.

(** ** One file changes *)

Lemma table_fs s f : Bitmap.sys (fm f) = Bitmap.sys (fm (fs s)) → table (set_fs f s) = table s.
Proof. intros Hs. by rw /table /base_of /= Hs. Qed.

Lemma anchors_fs s f : same_env (fs s) f → anchors (set_fs f s) = anchors s.
Proof. intros (Hf & _ & Hl & _ & _ & _ & Hm). by rw /anchors /= Hf Hl Hm. Qed.

Lemma heap_fs s f L : same_env (fs s) f → heap_ok s L → heap_ok (set_fs f s) L.
Proof.
  intros He [Hn Hl]. split; rw anchors_fs //. intros l Hin. destruct He as (_ & _ & _ & _ & Hs & _).
  rw /base_of /= Hs. by apply Hl.
Qed.

Lemma dinode_ok_same i i' :
  dinode_ok i → sfi_type i' = sfi_type i → sfi_linkcount i' = sfi_linkcount i → sfi_waste i' = sfi_waste i → dinode_ok i'.
Proof. intros [] Ht Hl Hw. split; by rw ?Ht ?Hl ?Hw. Qed.

(** The inode [v] at [l] becomes [v'], and is written back later. *)
Record changes (s : state) (l : loc) (v : sfs_vnode) (f' : Sfs.state) (v' : sfs_vnode) : Prop := {
  ch_env : same_env (fs s) f';
  ch_svs : svs f' = <[l := v']> (svs (fs s));
  ch_touch : touches (fs s) (sv_i v) f' (sv_i v');
  ch_ino : sv_ino v' = sv_ino v;
  ch_type : sfi_type (sv_i v') = sfi_type (sv_i v);
  ch_ok : dinode_ok (sv_i v');
  ch_dirty : v' = v ∨ sv_dirty v' = true
}.

Lemma so_change s I L l v f' v' :
  sfs_ok s I L → l ∈ L → svs (fs s) !! l = Some v → changes s l v f' v' → sfs_ok (set_fs f' s) (<[sv_ino v := sv_i v']> I) L.
Proof.
  intros Hok Hl Hv [He Hsvs Ht Hino Hty Hd Hdirty]. destruct (ok_core _ _ _ _ _ Hok Hl Hv) as (x & Hc).
  pose proof (so_files _ _ _ Hok) as HI. pose proof (so_table _ _ _ Hok) as Htb. pose proof (ic_inode _ _ _ _ _ Hc) as Hi.
  destruct (fi_inode _ _ HI _ _ Hi) as (Hr & Hm & _). pose proof (fi_blocks _ _ HI _ _ _ Hi (ltac:(by eexists))) as Hself.
  assert (∀ ino2 i2, I !! ino2 = Some i2 → sectors (sfs_device f') !! ino2 = sectors (sfs_device (fs s)) !! ino2) as Hsec.
  { intros ino2 i2 Hi2. destruct (decide (ino2 = sv_ino v)) as [->|Hne]; [apply Ht; [lia|done..]|].
    by eapply (touches_others _ I (sv_ino v)). }
  assert (∀ l' v', l' ∈ L → svs (fs s) !! l' = Some v' → sv_ino v' = sv_ino v → l' = l) as Honce.
  { intros l' v2 Hl' Hv2 Heq. by apply (tb_once _ _ _ Htb l' l v2 v). }
  split; [by apply (files_touch (fs s) _ _ (sv_i v)) | split | simpl; rw (to_nblocks _ _ _ _ Ht); apply Hok |
    simpl; rw (proj1 (proj2 (proj2 He))); apply Hok].
  - rw table_fs; [apply Htb | apply He].
  - apply heap_fs; [done | apply Htb].
  - intros l' Hl'. destruct (decide (l' = l)) as [->|Hne].
    + exists v', x. split; simpl; [by rw Hsvs lookup_insert_eq | apply Hc | rw Hty; apply Hc | apply Hc | by rw Hino lookup_insert_eq |].
      intros Hcl. rw Hino (Hsec _ _ Hi). destruct Hdirty as [->|?]; [by apply Hc | congruence].
    + destruct (tb_core _ _ _ Htb l' Hl') as (v2 & x2 & Hc2). exists v2, x2.
      assert (sv_ino v2 ≠ sv_ino v) as Hne2 by (intros Heq; apply Hne, (Honce l' v2); [done | apply Hc2 | done]).
      pose proof (ic_inode _ _ _ _ _ Hc2) as Hi2.
      split; simpl; [rw Hsvs lookup_insert_ne //; apply Hc2 | apply Hc2.. | by rw lookup_insert_ne | rw (Hsec _ _ Hi2); apply Hc2].
  - intros l1 l2 v1 v2 Hl1 Hl2. simpl. rw Hsvs.
    intros [[<- <-]|[? Hv1]]%lookup_insert_Some [[<- <-]|[? Hv2]]%lookup_insert_Some Heq; [done | | | by apply (tb_once _ _ _ Htb l1 l2 v1 v2)].
    + symmetry. apply (Honce l2 v2); [done..|congruence].
    + apply (Honce l1 v1); [done..|congruence].
  - intros ino2 i2. simpl. intros [[<- <-]|[Hne Hi2]]%lookup_insert_Some.
    + left. exists l, v'. by rw Hsvs lookup_insert_eq.
    + rw (Hsec _ _ Hi2). destruct (tb_disk _ _ _ Htb _ _ Hi2) as [(l2 & v2 & Hl2 & Hv2 & Hn2)|]; [left | by right].
      exists l2, v2. rw Hsvs lookup_insert_ne //. intros ->. rw Hv in Hv2. by injection Hv2 as ->.
Qed.

Lemma so_changes_untouched s I L l v f' v' ino i :
  sfs_ok s I L → l ∈ L → svs (fs s) !! l = Some v → changes s l v f' v' → I !! ino = Some i → ino ≠ sv_ino v → untouched (fs s) i f'.
Proof.
  intros Hok Hl Hv Hch Hi Hne. destruct (ok_core _ _ _ _ _ Hok Hl Hv) as (x & Hc).
  by eapply (touches_others _ I (sv_ino v)); [apply Hok | apply Hc | apply Hch | ..].
Qed.

Lemma changes_rewrites s I L l v f' v' :
  sfs_ok s I L → l ∈ L → svs (fs s) !! l = Some v → rewrites l (fs s) v f' v' → changes s l v f' v'.
Proof.
  intros Hok Hl Hv Hw. destruct (ok_core _ _ _ _ _ Hok Hl Hv) as (x & Hc).
  destruct (fi_inode _ _ (so_files _ _ _ Hok) _ _ (ic_inode _ _ _ _ _ Hc)) as (_ & _ & _ & Hd).
  split; try apply Hw; [by eapply rewrites_touches | eapply dinode_ok_same; [exact Hd | apply Hw..]].
Qed.

Lemma changes_truncated s I L l v f' v' len :
  sfs_ok s I L → l ∈ L → svs (fs s) !! l = Some v → truncated l (fs s) v len f' v' → changes s l v f' v'.
Proof.
  intros Hok Hl Hv Ht. destruct (ok_core _ _ _ _ _ Hok Hl Hv) as (x & Hc).
  destruct (fi_inode _ _ (so_files _ _ _ Hok) _ _ (ic_inode _ _ _ _ _ Hc)) as (_ & _ & Hf & Hd).
  pose proof (tr_rest _ _ _ _ _ _ Ht) as (Hty & Hlk & Hw). split.
  - apply (c_env _ _ _ _ (tr_cut _ _ _ _ _ _ Ht)).
  - apply Ht.
  - apply (truncated_touches l _ _ len); [apply Hok | done | done].
  - apply Ht.
  - done.
  - by eapply dinode_ok_same.
  - right. apply Ht.
Qed.

(** Another link count. *)
Lemma changes_links s I L l v n :
  sfs_ok s I L → l ∈ L → svs (fs s) !! l = Some v → 0 ≤ n < 2 ^ 16 →
  let v' := SfsVnode (set_linkcount n (sv_i v)) (sv_ino v) true in
  changes s l v (set_svs <[l := v']> (fs s)) v'.
Proof.
  intros Hok Hl Hv Hn v'. destruct (ok_core _ _ _ _ _ Hok Hl Hv) as (x & Hc).
  destruct (fi_inode _ _ (so_files _ _ _ Hok) _ _ (ic_inode _ _ _ _ _ Hc)) as (_ & _ & Hf & []).
  split.
  - by repeat split.
  - done.
  - apply relabel_touches; try done. apply volume_svs, Hok.
  - done.
  - done.
  - by split.
  - by right.
Qed.

(** ** The heap changes *)

Lemma volume_base f b :
  volume f → sfs_freemap f ∈ live b → (∀ m, maps (fm f) !! sfs_freemap f = Some m → v m ∈ live b) →
  volume (with_base b f) ∧ ∀ n, marked (with_base b f) n = marked f n.
Proof. intros Hv Hl Hm. by apply volume_kept. Qed.

Lemma so_base s I L b :
  sfs_ok s I L → (∀ l, l ∈ anchors s ++ L → l ∈ live b) → sfs_ok (with_base b s) I L.
Proof.
  intros Hok Hb. destruct (volume_base (fs s) b) as [Hv Hm].
  - apply (fi_volume _ _ (so_files _ _ _ Hok)).
  - apply Hb, elem_of_app. left. rw /anchors elem_of_app. right. by left.
  - intros m Hm. apply Hb, elem_of_app. left. rw /anchors Hm elem_of_app. right. right. right. by left.
  - apply (so_same s); [done|]. by split.
Qed.

(** A block that is not one of the volume's. *)
Definition spare (s : state) (L : list loc) (l : loc) : Prop := l ∈ live (base_of s) ∧ l ∉ anchors s ++ L.

Lemma so_alloc s I L l o :
  sfs_ok s I L → l ∉ live (base_of s) →
  let s' := upd_base (λ b, set_live ({[l]} ∪ live b) (set_oracle o b)) s in sfs_ok s' I L ∧ spare s' L l.
Proof.
  intros Hok Hl s'. pose proof (hp_live _ _ (tb_heap _ _ _ (so_table _ _ _ Hok))) as Hlive. split.
  - apply so_base; [done|]. intros l' Hl'%Hlive. simpl. set_solver.
  - split; [rw /s' /upd_base base_with /=; set_solver|]. intros Hin. by apply Hl, Hlive.
Qed.

Lemma so_oracle s I L o : sfs_ok s I L → sfs_ok (upd_base (set_oracle o) s) I L.
Proof.
  intros Hok. apply so_base; [done|]. apply (hp_live _ _ (tb_heap _ _ _ (so_table _ _ _ Hok))).
Qed.

Lemma so_free s I L l :
  sfs_ok s I L → spare s L l → sfs_ok (upd_base (λ b, set_live (live b ∖ {[l]}) b) s) I L.
Proof.
  intros Hok [_ Hl]. apply so_base; [done|]. intros l' Hl'. simpl.
  pose proof (hp_live _ _ (tb_heap _ _ _ (so_table _ _ _ Hok)) l' Hl'). apply elem_of_difference. split; [done|].
  rw elem_of_singleton. congruence.
Qed.

(** ** The VFS lock *)

Definition vlocked (s : state) : state := set_fs (locked (fs s)) s.
Definition vunlocked (s s2 : state) : state := set_fs (relocked (fs s) (fs s2)) s2.

(** The lock can be taken [S n] more times. *)
Definition lock_ok (n : Z) (f : Sfs.state) : Prop := biglock_ok f ∧ vfs_biglock_depth f < 2 ^ 32 - 1 - n.

Lemma locked_depth f : biglock_ok f → vfs_biglock_depth (locked f) = vfs_biglock_depth f + 1.
Proof. intros [[_ H0]|[_ Hd]]; rw /locked; case_bool_decide; simpl; lia. Qed.

Lemma biglock_depth f : biglock_ok f → 0 ≤ vfs_biglock_depth f.
Proof. intros [[_ ?]|[_ ?]]; lia. Qed.

Lemma lock_ok_locked n f : 0 ≤ n → lock_ok (n + 1) f → lock_ok n (locked f) ∧ held (locked f).
Proof.
  intros Hn [Hok Hd]. pose proof (locked_held _ Hok) as Hh. split; [|done]. pose proof (locked_depth _ Hok).
  pose proof (biglock_depth _ Hok). split; [right; split; [done|lia] | lia].
Qed.

Lemma so_locked s I L : biglock_ok (fs s) → sfs_ok s I L → sfs_ok (vlocked s) I L.
Proof.
  intros Hok Hs. destruct (locked_same _ Hok) as (Hm & Hb & Hl & Hf & Hn & Hd & Hsv & Hlk).
  destruct (volume_kept (fs s) (locked (fs s))) as [Hv Hmk]; try done.
  - apply (fi_volume _ _ (so_files _ _ _ Hs)).
  - rw Hl. apply (hp_live _ _ (tb_heap _ _ _ (so_table _ _ _ Hs))), elem_of_app. left. rw /anchors elem_of_app. right. by left.
  - intros m Hm'. rw Hl. apply (hp_live _ _ (tb_heap _ _ _ (so_table _ _ _ Hs))), elem_of_app. left.
    rw /anchors Hm' elem_of_app. right. right. right. by left.
  - apply (so_same s); [done|]. split; try done; simpl.
    + by rw Hd.
    + intros. by rw Hsv.
    + by rw /anchors /= Hlk Hf Hm.
    + rw /base_of /= Hl. apply (tb_heap _ _ _ (so_table _ _ _ Hs)).
Qed.

Lemma venv_locked s s2 : biglock_ok (fs s) → venv (vlocked s) s2 → venv s (vunlocked s s2).
Proof.
  intros Hok [Hl Hd Hk Hm Hf Hn Ht]. destruct (locked_same _ Hok) as (_ & _ & _ & Hf0 & Hn0 & _ & _ & Hlk0).
  destruct (locked_base _ Hok) as [Hme _]. rw /base_of /= Hme in Hm. simpl in Hl, Hf, Hn, Ht.
  split; simpl; try done; congruence.
Qed.

Lemma so_unlocked s s2 I L : sfs_ok s2 I L → sfs_ok (vunlocked s s2) I L.
Proof.
  intros Hok. pose proof (hp_live _ _ (tb_heap _ _ _ (so_table _ _ _ Hok))) as Hl.
  destruct (volume_kept (fs s2) (relocked (fs s) (fs s2))) as [Hv Hmk]; try done.
  - apply (fi_volume _ _ (so_files _ _ _ Hok)).
  - apply Hl, elem_of_app. left. rw /anchors elem_of_app. right. by left.
  - intros m Hm. apply Hl, elem_of_app. left. rw /anchors Hm elem_of_app. right. right. right. by left.
  - apply (so_same s2); [done|]. by split.
Qed.

Lemma wp_vfs_acquire s (Q : unit → state → Prop) :
  biglock_ok (fs s) → Q tt (vlocked s) → wp (on_fs vfs_biglock_acquire) Q s.
Proof. intros Hok HQ. apply wp_on_fs. eapply wp_Ok; [by apply biglock_acquire_ok | done]. Qed.

Lemma wp_vfs_release s s2 I L (Q : unit → state → Prop) :
  biglock_ok (fs s) → venv (vlocked s) s2 → sfs_ok s2 I L → Q tt (vunlocked s s2) → wp (on_fs vfs_biglock_release) Q s2.
Proof.
  intros Hok [Hl Hd Hk Hm Hf Hn Ht] Hs HQ. apply wp_on_fs. destruct (locked_same _ Hok) as (_ & _ & _ & _ & _ & _ & _ & Hlk).
  destruct (locked_base _ Hok) as [Hme _]. simpl in Hl.
  apply (biglock_release_any _ Hok); [congruence | done | done | by rw -Hme | | done].
  intros l Hl'. apply (hp_live _ _ (tb_heap _ _ _ (so_table _ _ _ Hs))), elem_of_app. left. rw /anchors Hl Hlk Hl'. by left.
Qed.

(** The lock stays usable. *)
Lemma lock_ok_venv n s s2 I L : lock_ok n (fs s) → held (fs s) → venv s s2 → sfs_ok s2 I L → lock_ok n (fs s2) ∧ held (fs s2).
Proof.
  intros [Hok Hd] Hh Hv Hs. pose proof (venv_held _ _ _ _ Hv Hs Hh) as Hh2. split; [|done]. rw /lock_ok (ve_depth _ _ Hv).
  split; [|done]. right. split; [done|]. rw (ve_depth _ _ Hv). destruct Hok as [[Hf H0]|[_ ?]]; [|done].
  destruct Hf as (l & k & Hp & _ & Hk & Hn). destruct Hh as (l' & k' & Hp' & _ & Hk' & Hn'). simplify_eq.
Qed.
