(* ===== verification/SfsLoad.v ===== *)
(** * Finding and loading inodes

    [sfs_loadvnode] and [sfs_makeobj] of kern/fs/sfs/sfs_inode.c keep the
    invariant of SfsCore.v. *)

From stdpp Require Import base tactics list gmap option numbers ssreflect.
From S2P Require Import Prelude Kern.
From S2P Require Import Uio Lhd Bitmap Array Sfs SfsFacts SfsTrunc SfsThms SfsDir SfsNames SfsDirThms SfsVnode SfsCore.

Open Scope Z_scope.

(** ** Reference counts *)

Definition set_ref (l : loc) (n : Z) (x : vnode) (s : state) : state := set_vnodes <[l := Vnode n (vn_ops x)]> s.

Lemma wp_load_vn s I L l v x (Q : vnode → state → Prop) :
  sfs_ok s I L → l ∈ L → in_core s I l v x → Q x s → wp (load_vn l) Q s.
Proof.
  intros Hok Hl Hc HQ. eapply wp_deref; [|exact HQ]. rw (ok_live _ _ _ _ Hok Hl). apply Hc.
Qed.

Lemma so_ref s I L l v x n :
  sfs_ok s I L → in_core s I l v x → 1 ≤ n < 2 ^ 31 → sfs_ok (set_ref l n x s) I L.
Proof.
  intros [Hfi [Ha Hh Hc Ho Hd] Hs Hlk] Hx Hn. split; [done | split | done | done]; try done.
  - destruct Hh. by split.
  - intros l' Hl'. destruct (decide (l' = l)) as [->|Hne].
    + exists v, (Vnode n (vn_ops x)). destruct Hx. split; try done. simpl. apply lookup_insert_eq.
    + destruct (Hc l' Hl') as (v' & x' & [])  . exists v', x'. split; try done. by rw /= lookup_insert_ne.
Qed.

(** The vnodes of [L] with their inodes stay what they are. *)
Record kept (s s' : state) (L : list loc) : Prop := {
  kp_svs : ∀ l, l ∈ L → svs (fs s') !! l = svs (fs s) !! l;
  kp_vnodes : ∀ l, l ∈ L → vnodes s' !! l = vnodes s !! l
}.

(** Nothing has happened to the files or to the vnodes of [L]. *)
Record quiet (s s' : state) (L : list loc) : Prop := {
  q_env : venv s s';
  q_kept : kept s s' L;
  q_sectors : sectors (sfs_device (fs s')) = sectors (sfs_device (fs s));
  q_marked : ∀ b, marked (fs s') b = marked (fs s) b
}.

Lemma quiet_refl s L : quiet s s L.
Proof. by split. Qed.

Lemma quiet_trans s1 s2 s3 L : quiet s1 s2 L → quiet s2 s3 L → quiet s1 s3 L.
Proof.
  intros [E1 [A1 B1] C1 D1] [E2 [A2 B2] C2 D2]. split; [by etrans | split | congruence | intros b; by rw D2].
  - intros l Hl. by rw A2 // A1.
  - intros l Hl. by rw B2 // B1.
Qed.

Lemma quiet_base s b L :
  lks b = lks (base_of s) → me b = me (base_of s) → quiet s (with_base b s) L.
Proof. by split. Qed.

(** References can still be counted. *)
Definition refs_small (s : state) (L : list loc) : Prop :=
  ∀ l x, l ∈ L → vnodes s !! l = Some x → vn_refcount x < 2 ^ 31 - 1.

(** ** The array grows *)

(** The anchors apart from the cells of the array. *)
Definition fixed (s : state) : list loc :=
  option_list (vfs_biglock (fs s)) ++ sfs_freemap (fs s) :: sfs_vnodes s ::
  option_list (v <$> maps (fm (fs s)) !! sfs_freemap (fs s)).

Lemma anchors_fixed s : anchors s = fixed s ++ option_list (arrays s !! sfs_vnodes s ≫= vec).
Proof. by rw /anchors /fixed -app_assoc. Qed.

Lemma heap_resized (F L : list loc) p l b p' b' :
  NoDup (F ++ option_list p ++ L) → (∀ q, q ∈ F ++ option_list p ++ L → q ∈ live b) →
  l ∈ live b → l ∉ F ++ option_list p ++ L → resized b p b' p' →
  NoDup (F ++ option_list p' ++ L ++ [l]) ∧ ∀ q, q ∈ F ++ option_list p' ++ L ++ [l] → q ∈ live b'.
Proof.
  intros Hnd Hlive Hl Hout Hres.
  apply NoDup_app in Hnd as (HF & HFr & Hr). apply NoDup_app in Hr as (Hp & HpL & HL).
  assert (NoDup (L ++ [l])) as HLl.
  { apply NoDup_app. split; [done|]. split; [|apply NoDup_singleton]. set_solver. }
  destruct Hres as [[-> ->]|(q & o & Hq & -> & ->)].
  - split; [|set_solver]. apply NoDup_app. split; [done|]. split; [set_solver|]. apply NoDup_app.
    split; [done|]. split; [set_solver|done].
  - assert (∀ x, x ∈ F ++ option_list p ++ L → x ≠ q) as Hne by (intros x Hx%Hlive ->; done).
    assert (l ≠ q) as Hlq by (intros ->; done).
    split.
    + apply NoDup_app. split; [done|]. split; [set_solver|]. simpl. apply NoDup_cons. split; [set_solver|done].
    + intros x Hx. assert (x = q ∨ x = l ∨ x ∈ F ∨ x ∈ L) as Hcases by set_solver.
      assert (∀ y, p = Some y → x ≠ y) as Hy by (intros y -> ->; set_solver).
      assert (x ∈ {[q]} ∪ live b) as Hin by set_solver.
      destruct p as [y|]; simpl; [|done]. apply elem_of_difference. split; [done|]. rw elem_of_singleton. by apply Hy.
Qed.

Section ops.
Context `{!Hardware}.

Lemma load_sv_ok s I L l v (Q : sfs_vnode → state → Prop) :
  sfs_ok s I L → l ∈ L → svs (fs s) !! l = Some v → Q v s → wp (on_fs (load_sv l)) Q s.
Proof.
  intros Hok Hl Hv HQ. apply wp_on_fs. eapply wp_deref; [by rw (ok_live_fs _ _ _ _ Hok Hl)|]. by rw set_fs_same.
Qed.

Lemma bused_ok s I L b (Q : bool → state → Prop) :
  sfs_ok s I L → 0 ≤ b < sb_nblocks (fs s) → Q (marked (fs s) b) s → wp (on_fs (sfs_bused b)) Q s.
Proof.
  intros Hok Hb HQ. apply wp_on_fs. apply bused_spec; [apply Hok | done |]. by rw set_fs_same.
Qed.

Definition in_table (s : state) (L : list loc) : Prop := ∃ x, repr (table s) (sfs_vnodes s) x (Some <$> L).

Lemma table_num s L (Q : Z → state → Prop) :
  in_table s L → Q (Z.of_nat (length L)) s → wp (on_vnodes array_num) Q s.
Proof.
  intros [x Hx] HQ. apply wp_on_vnodes. eapply num_spec; [done|].
  rw length_fmap set_table_same. exact HQ.
Qed.

Lemma table_get s L i l (Q : loc → state → Prop) :
  in_table s L → L !! i = Some l → Q l s → wp (vnodearray_get (Z.of_nat i)) Q s.
Proof.
  intros [x Hx] Hl HQ. rw /vnodearray_get. wp_step. apply wp_on_vnodes.
  eapply wp_mono; [apply (get_spec _ _ _ _ _ (Some l) Hx); [lia|]|].
  { by rw Nat2Z.id list_lookup_fmap Hl. }
  intros r t [-> ->]. rw set_table_same. wp_step. eapply wp_deref; [done|]. by apply (wp_nonnull _ l).
Qed.

(** ** The search of the table *)

Lemma table_search_spec s I L ino ft (Q : option loc → state → Prop) :
  sfs_ok s I L → refs_small s L →
  (∀ l v x, l ∈ L → in_core s I l v x → sv_ino v = ino → ft = SFS_TYPE_INVAL ∧ Q (Some l) (set_ref l (vn_refcount x + 1) x s)) →
  ((∀ l v, l ∈ L → svs (fs s) !! l = Some v → sv_ino v ≠ ino) → Q None s) →
  wp (while (S (Z.to_nat (Z.of_nat (length L)))) 0 (look_in_table ino ft (Z.of_nat (length L)))) Q s.
Proof.
  intros Hok Hrefs Hfound Hnone. rw Nat2Z.id.
  apply (wp_while (λ m z s', ∃ i, z = Z.of_nat i ∧ (i + m)%nat = length L ∧ s' = s ∧
    ∀ l v, l ∈ take i L → svs (fs s) !! l = Some v → sv_ino v ≠ ino) _ _ (length L)); [|lia|].
  { exists 0%nat. split_and!; [done..|]. intros l v Hl. rw take_0 in Hl. by apply elem_of_nil in Hl. }
  intros m z s' (i & -> & Hi & -> & Hno). rw /look_in_table. bd_case (Z.of_nat i < Z.of_nat (length L)) as Hlt.
  - destruct m as [|m]; [lia|]. destruct (lookup_lt_is_Some_2 L i) as [l Hl]; [lia|].
    pose proof (list_elem_of_lookup_2 _ _ _ Hl) as HlL. destruct (tb_core _ _ _ (so_table _ _ _ Hok) l HlL) as (v & x & Hc).
    destruct (fi_inode _ _ (so_files _ _ _ Hok) _ _ (ic_inode _ _ _ _ _ Hc)) as (Hr & Hm & _).
    wp_step. eapply table_get; [by eapply ok_array | done |]. wp_step. eapply load_sv_ok; [done | done | apply Hc |].
    wp_step. eapply bused_ok; [done | lia |]. rw Hm /=. bd_case (sv_ino v = ino) as Heq.
    + destruct (Hfound l v x HlL Hc Heq) as [-> HQ]. wp_step. apply wp_kassert; [done|]. wp_step. rw /vnode_incref. wp_step.
      eapply wp_load_vn; [done..|]. pose proof (Hrefs l x HlL (ic_vn _ _ _ _ _ Hc)). pose proof (ic_ref _ _ _ _ _ Hc).
      rw s32_small; [|lia]. apply wp_modify. by apply wp_ret.
    + apply wp_ret. exists m. split; [lia|]. exists (S i). split_and!; [lia | lia | done |].
      intros l' v' Hl' Hv'. rw (take_S_r _ _ _ Hl) elem_of_app list_elem_of_singleton in Hl'. destruct Hl' as [Hl'| ->]; [by apply (Hno l')|].
      rw (ic_sv _ _ _ _ _ Hc) in Hv'. by injection Hv' as <-.
  - apply wp_ret. apply Hnone. intros l v Hl. apply Hno. rw take_ge //. lia.
Qed.

(** ** A new vnode *)

(** The vnode is in memory and not in the table yet. *)
Lemma so_init s I L l y x :
  sfs_ok s I L → spare s L l →
  let s' := set_fs (set_svs <[l := y]> (fs s)) (set_vnodes <[l := x]> s) in sfs_ok s' I L ∧ spare s' L l ∧ kept s s' L.
Proof.
  intros Hok Hsp s'. pose proof Hsp as [_ Hout].
  assert (∀ l', l' ∈ L → l' ≠ l) as Hne by (intros l' Hl' ->; apply Hout, elem_of_app; by right).
  split; [|split; [exact Hsp|]].
  - apply (so_same s); [done|]. split; try done.
    + by apply volume_svs, Hok.
    + intros l' Hl'%Hne. by rw /= lookup_insert_ne.
    + intros l' Hl'%Hne. by rw /= lookup_insert_ne.
    + apply (tb_heap _ _ _ (so_table _ _ _ Hok)).
  - split; intros l' Hl'%Hne; by rw /= lookup_insert_ne.
Qed.

(** The vnode enters the table. *)
Lemma so_enter s I L l y x t x' ino i :
  sfs_ok s I L → spare s L l → repr (table s) (sfs_vnodes s) x (Some <$> L) →
  repr t (sfs_vnodes s) x' ((Some <$> L) ++ [Some l]) → resized (base_of s) (vec x) (Array.sys t) (vec x') →
  svs (fs s) !! l = Some y → vnodes s !! l = Some (Vnode 1 (ops_of (sfi_type i))) → sv_i y = i → sv_ino y = ino →
  files_ok (fs s) (<[ino := i]> I) → (I !! ino = None ∨ I !! ino = Some i) →
  (sv_dirty y = false → sectors (sfs_device (fs s)) !! ino = Some (dinode_words i)) →
  (∀ l v, l ∈ L → svs (fs s) !! l = Some v → sv_ino v ≠ ino) →
  sfs_ok (set_table t s) (<[ino := i]> I) (L ++ [l]).
Proof.
  intros Hok [Hlive Hout] Hx Hx' Hres Hy Hvn Hyi Hyn Hfi HI Hcl Hno.
  pose proof (so_table _ _ _ Hok) as [_ [Hnd Hlv] Hc Ho Hd].
  pose proof (repr_array _ _ _ _ Hx) as Hxa. simpl in Hxa. pose proof (repr_array _ _ _ _ Hx') as Hxa'.
  rw anchors_fixed Hxa -app_assoc in Hnd. rw anchors_fixed Hxa -app_assoc in Hout.
  assert (∀ q, q ∈ fixed s ++ option_list (vec x) ++ L → q ∈ live (base_of s)) as Hlv'.
  { intros q Hq. apply Hlv. by rw anchors_fixed Hxa -app_assoc. }
  destruct (heap_resized _ _ _ _ _ _ _ Hnd Hlv' Hlive Hout Hres) as [Hnd2 Hlv2].
  assert (heap_ok (set_table t s) (L ++ [l])) as Hheap.
  { split; rw anchors_fixed /= Hxa' -app_assoc //. }
  assert (∀ p, p ∈ anchors (set_table t s) → p ∈ live (Array.sys t)) as Hlv3.
  { intros p Hp. apply Hheap, elem_of_app. by left. }
  destruct (volume_base (fs s) (Array.sys t)) as [Hvol Hmk].
  { apply Hok. }
  { apply Hlv3. rw /anchors elem_of_app. right. by left. }
  { intros m Hm. apply Hlv3. rw /anchors Hm elem_of_app. right. right. right. by left. }
  split; [by apply (files_same (fs s)) | split | apply Hok | apply Hok].
  - exists x'. rw fmap_app. apply (repr_frame t); [done..| |].
    + apply Hx'.
    + intros q Hq. apply Hlv3. rw anchors_fixed /= Hxa' /= Hq elem_of_app. right. by left.
  - done.
  - intros l' [Hl'| ->%list_elem_of_singleton]%elem_of_app.
    + destruct (Hc l' Hl') as (v' & y' & Hc'). exists v', y'. destruct Hc'. split; try done. rw lookup_insert_ne //.
      intros ->. by eapply Hno.
    + exists y, (Vnode 1 (ops_of (sfi_type i))). split; try done; [by rw Hyi | by rw Hyn Hyi lookup_insert_eq |].
      rw Hyn Hyi. exact Hcl.
  - assert (∀ l1 v1, l1 ∈ L → svs (fs s) !! l1 = Some v1 → svs (fs s) !! l = Some y → sv_ino v1 ≠ sv_ino y) as Hd1.
    { intros l1 v1 Hl1 Hv1 _ Heq. apply (Hno l1 v1 Hl1 Hv1). by rw Heq. }
    intros l1 l2 v1 v2 [Hl1| ->%list_elem_of_singleton]%elem_of_app [Hl2| ->%list_elem_of_singleton]%elem_of_app Hv1 Hv2 Heq;
      simpl in Hv1, Hv2; try done.
    + by apply (Ho l1 l2 v1 v2).
    + rw Hy in Hv2. injection Hv2 as <-. by destruct (Hd1 l1 v1 Hl1 Hv1 Hy).
    + rw Hy in Hv1. injection Hv1 as <-. by destruct (Hd1 l2 v2 Hl2 Hv2 Hy).
  - intros n j. simpl. intros [[<- <-]|[Hne Hj]]%lookup_insert_Some.
    + left. exists l, y. split; [apply elem_of_app; right; by apply list_elem_of_singleton|]. done.
    + destruct (Hd n j Hj) as [(l1 & v1 & Hl1 & Hv1 & Hn1)|]; [left | by right]. exists l1, v1.
      split; [apply elem_of_app; by left | done].
Qed.

Lemma so_read s I L f : sfs_ok s I L → only_read (fs s) f → sfs_ok (set_fs f s) I L ∧ quiet s (set_fs f s) L.
Proof.
  intros Hok (d & -> & Hd & Hv & He). split.
  - apply (so_same s); [done|]. split; try done. apply (tb_heap _ _ _ (so_table _ _ _ Hok)).
  - by split; try apply venv_fs.
Qed.

Lemma readblock_only k f b (Q : Z * list Z → Sfs.state → Prop) :
  held f → volume f → 0 ≤ b < sb_nblocks f → ready (S k) f →
  (∀ f' data, only_read f f' → ready k f' → sectors (sfs_device f) !! b = Some data → Q (0, data) f') →
  wp (sfs_readblock b) Q f.
Proof.
  intros Hh Hv Hb Hrd HQ. apply (readblock_ok k); [done..|]. intros d data Hv' Hr He Hs Hdata _.
  apply HQ; [by exists d | done..].
Qed.

(** The outcome of making a vnode of inode [ino]. *)
Definition made (k : nat) (s : state) (I : gmap Z sfs_dinode) (L : list loc) (ino : Z) (i : sfs_dinode)
    (r : Z + loc) (s' : state) : Prop :=
  quiet s s' L ∧ ready k (fs s') ∧
  match r with
  | inl e => e = ENOMEM ∧ sfs_ok s' I L
  | inr l => l ∉ L ∧ sfs_ok s' (<[ino := i]> I) (L ++ [l]) ∧
      (∃ d, svs (fs s') !! l = Some (SfsVnode i ino d)) ∧ vnodes s' !! l = Some (Vnode 1 (ops_of (sfi_type i)))
  end.

(** Entering the vnode into the table. *)
Lemma enter_spec k s I L l y ino i :
  sfs_ok s I L → spare s L l → ready k (fs s) →
  svs (fs s) !! l = Some y → vnodes s !! l = Some (Vnode 1 (ops_of (sfi_type i))) → sv_i y = i → sv_ino y = ino →
  files_ok (fs s) (<[ino := i]> I) → (I !! ino = None ∨ I !! ino = Some i) →
  (sv_dirty y = false → sectors (sfs_device (fs s)) !! ino = Some (dinode_words i)) →
  (∀ l v, l ∈ L → svs (fs s) !! l = Some v → sv_ino v ≠ ino) →
  wp (r ← on_vnodes (λ a, array_add a (Some l));
      match r with
      | inl result => vnode_cleanup l;; kfree (Some l);; mret (inl result)
      | inr _ => mret (inr l)
      end) (made k s I L ino i) s.
Proof.
  intros Hok Hsp Hrd Hy Hvn Hyi Hyn Hfi HI Hcl Hno. destruct (ok_array _ _ _ Hok) as [x Hx].
  pose proof (ok_length _ _ _ Hok) as Hlen. pose proof Hsp as [Hlive Hout].
  assert (l ∉ L) as HlL by (intros Hl; apply Hout, elem_of_app; by right).
  wp_step. apply wp_on_vnodes. eapply wp_mono; [apply (add_any _ _ _ _ (Some l) Hx); rw length_fmap; lia|].
  intros r t [[-> (o & ->)]|[-> (x' & Hx' & Hres)]].
  - set (s1 := set_table _ s). assert (s1 = upd_base (set_oracle o) s) as -> by done.
    pose proof (so_oracle _ _ _ o Hok) as Hok1. cbn beta iota. wp_step. rw /vnode_cleanup. wp_step.
    eapply wp_deref; [|].
    { assert (is_live l (upd_base (set_oracle o) s) = true) as -> by (apply is_live_true; rw /upd_base base_with; exact Hlive).
      exact Hvn. }
    wp_step. apply wp_kassert; [done|]. apply wp_modify. wp_step. set (s2 := set_vnodes _ _).
    assert (sfs_ok s2 I L ∧ spare s2 L l ∧ kept s s2 L) as (Hok2 & Hsp2 & Hk2).
    { pose proof (so_init _ _ _ _ y (Vnode 0 None) Hok1 Hsp) as (H1 & H2 & H3).
      assert (set_fs (set_svs <[l := y]> (fs (upd_base (set_oracle o) s))) (set_vnodes <[l := Vnode 0 None]> (upd_base (set_oracle o) s)) = s2) as Heq.
      { rw /s2 /set_vnodes /set_fs /=. f_equal. rw /set_svs /=. rw insert_id //. }
      rw Heq in H1, H2, H3. split; [done|]. split; [done|]. split; [apply H3 | apply H3]. }
    apply wp_kfree; [apply Hsp2|]. wp_step. split.
    { eapply (quiet_trans _ s2); [|by apply quiet_base]. split; try done. }
    split; [exact Hrd|]. split; [done|]. by apply so_free.
  - cbn beta iota. wp_step. pose proof (so_enter s I L l y x t x' ino i Hok Hsp Hx Hx' Hres Hy Hvn Hyi Hyn Hfi HI Hcl Hno) as Hok2.
    assert (lks (Array.sys t) = lks (base_of s) ∧ me (Array.sys t) = me (base_of s)) as [Hlks Hme].
    { destruct Hres as [[-> _]|(q & o & _ & _ & ->)]; [done|]. by destruct (vec x). }
    split; [by split|]. split; [exact Hrd|]. split; [done|]. split; [done|]. split; [|done].
    exists (sv_dirty y). rw /= Hy. destruct y. simpl in *. by subst.
Qed.

Lemma made_after k s s1 I L ino i r s' : quiet s s1 L → made k s1 I L ino i r s' → made k s I L ino i r s'.
Proof. intros Hq (Hq' & Hrd & Hr). split; [by eapply quiet_trans | done]. Qed.

Lemma ops_of_ok i : dinode_ok i → ∃ ops, ops_of (sfi_type i) = Some ops.
Proof. intros [[->| ->] _ _]; by eexists. Qed.

Lemma load_inode_spec k s I L l ino ft i :
  sfs_ok s I L → held (fs s) → ready (S k) (fs s) → spare s L l → 0 ≤ ino < sb_nblocks (fs s) → marked (fs s) ino = true →
  (∀ ws, sectors (sfs_device (fs s)) !! ino = Some ws →
    ft = SFS_TYPE_INVAL ∧ words_dinode ws = i ∧ ws = dinode_words i ∨
    ft = SFS_TYPE_FILE ∧ sfi_type (words_dinode ws) = SFS_TYPE_INVAL ∧ set_type SFS_TYPE_FILE (words_dinode ws) = i) →
  files_ok (fs s) (<[ino := i]> I) → (I !! ino = None ∨ I !! ino = Some i) →
  (∀ l v, l ∈ L → svs (fs s) !! l = Some v → sv_ino v ≠ ino) →
  wp (load_inode ino ft l) (made k s I L ino i) s.
Proof.
  intros Hok Hh Hrd Hsp Hr Hm Hws Hfi HI Hno. rw /load_inode. wp_step. eapply bused_ok; [done..|]. rw Hm /=.
  wp_step. apply wp_on_fs. apply (readblock_only k); [done | apply Hok | done | done |].
  intros f ws Hread Hrd1 Hsec. rw bool_decide_eq_false_2; [|by intros []].
  destruct (so_read _ _ _ _ Hok Hread) as [Hok1 Hq1]. set (s1 := set_fs f s) in *.
  assert (spare s1 L l) as Hsp1.
  { destruct Hread as (d & -> & _ & _ & He). rw /spare /s1 anchors_fs //. }
  destruct (fi_inode _ _ Hfi ino i (lookup_insert_eq _ _ _)) as (_ & _ & _ & Hdi). destruct (ops_of_ok _ Hdi) as [ops Hops].
  wp_step. apply (wp_mono _ (λ r s2, s2 = s1 ∧ r.1 = i ∧ (r.2 = false → ws = dinode_words i))).
  { destruct (Hws ws Hsec) as [(-> & Hi & Hw)|(-> & Ht & Hi)].
    - rw bool_decide_eq_false_2; [|by intros []]. by apply wp_ret.
    - rw bool_decide_eq_true_2; [|done]. wp_step. apply wp_kassert; [by apply bool_decide_eq_true_2|]. by apply wp_ret. }
  intros [i' dirty] s2 (-> & Hi & Hd). simpl in Hi, Hd. subst i'. rw Hops. wp_step. rw /vnode_init. apply wp_modify.
  wp_step. apply wp_on_fs. apply wp_modify.
  destruct (so_init s1 I L l (SfsVnode i ino dirty) (Vnode 1 (Some ops)) Hok1 Hsp1) as (Hok3 & Hsp3 & Hk3).
  set (s3 := set_fs _ _) in Hok3, Hsp3, Hk3.
  change (set_fs _ _) with s3.
  eapply wp_mono; [apply (enter_spec k s3 I L l (SfsVnode i ino dirty) ino i)|].
  - done.
  - done.
  - exact Hrd1.
  - apply lookup_insert_eq.
  - rw Hops. apply lookup_insert_eq.
  - done.
  - done.
  - apply (files_same (fs s)); try done.
    + apply Hok3.
    + by destruct Hread as (d & -> & _).
    + by destruct Hread as (d & -> & _).
    + intros b _ _. destruct Hread as (d & -> & Hds & _). by rw /s3 /= Hds.
  - done.
  - intros Hdirty. rw /s3 /=. destruct Hread as (d & -> & Hds & _). rw /= Hds Hsec. f_equal. by apply Hd.
  - intros l' v Hl'. rw (kp_svs _ _ _ Hk3) // (kp_svs _ _ _ (q_kept _ _ _ Hq1)) //. by apply Hno.
  - intros r s' Hmade. eapply made_after, Hmade. eapply quiet_trans; [exact Hq1|]. by split.
Qed.

(** Two lists of vnodes. *)
Lemma so_disk s I L ino i :
  sfs_ok s I L → I !! ino = Some i → (∀ l v, l ∈ L → svs (fs s) !! l = Some v → sv_ino v ≠ ino) →
  sectors (sfs_device (fs s)) !! ino = Some (dinode_words i).
Proof.
  intros Hok Hi Hno. destruct (tb_disk _ _ _ (so_table _ _ _ Hok) _ _ Hi) as [(l & v & Hl & Hv & Hn)|]; [|done].
  by destruct (Hno l v Hl Hv).
Qed.

(** The outcome of [sfs_loadvnode] for an inode [i] of the volume. *)
Definition found_vnode (k : nat) (s : state) (I : gmap Z sfs_dinode) (L : list loc) (ino : Z) (i : sfs_dinode)
    (r : Z + loc) (s' : state) : Prop :=
  (∃ l v x, r = inr l ∧ l ∈ L ∧ in_core s I l v x ∧ sv_ino v = ino ∧ ready k (fs s') ∧
     s' = set_ref l (vn_refcount x + 1) x s) ∨
  (∀ l v, l ∈ L → svs (fs s) !! l = Some v → sv_ino v ≠ ino) ∧ made k s I L ino i r s'.

Lemma loadvnode_spec k s I L ino i :
  sfs_ok s I L → refs_small s L → held (fs s) → ready (S k) (fs s) → I !! ino = Some i →
  wp (sfs_loadvnode ino SFS_TYPE_INVAL) (found_vnode k s I L ino i) s.
Proof.
  intros Hok Hrefs Hh Hrd Hi. rw /sfs_loadvnode. wp_step. eapply table_num; [by eapply ok_array|]. wp_step.
  apply (table_search_spec s I L); [done..| |].
  - intros l v x Hl Hc Hn. split; [done|]. apply wp_ret. left. exists l, v, x. split_and!; try done.
    by apply (ready_le (S k)); [lia|].
  - intros Hno. wp_step. destruct (fi_inode _ _ (so_files _ _ _ Hok) _ _ Hi) as (Hr & Hm & Hf & Hd). apply wp_kmalloc_any.
    + intros o. apply wp_ret. right. split; [done|]. split; [by apply quiet_base|]. split; [by apply (ready_le (S k)); [lia|]|].
      split; [done|]. by apply so_oracle.
    + intros l o Hl. destruct (so_alloc _ _ _ _ o Hok Hl) as [Hok1 Hsp1]. set (s1 := upd_base _ s) in *.
      eapply wp_mono; [apply (load_inode_spec k s1 I L l ino _ i)|]; try done.
      * apply (venv_held s s1 I L); [by apply (quiet_base s _ L) | done | done].
      * change (0 ≤ ino < sb_nblocks (fs s)). lia.
      * intros ws Hws. left. rw (so_disk s I L ino i) // in Hws. injection Hws as <-. split; [done|]. split; [|done].
        by apply words_dinode_words; [apply Hf|].
      * rw insert_id //. apply Hok1.
      * by right.
      * intros r s' Hmade. right. split; [done|]. eapply made_after, Hmade. by apply quiet_base.
Qed.

(** ** A new file *)

(** Inodes and contents stay, apart from the inodes in [X]. *)
Definition keeps (X : gset Z) (s : state) (I : gmap Z sfs_dinode) (s' : state) (I' : gmap Z sfs_dinode) : Prop :=
  ∀ n i, n ∉ X → I !! n = Some i → ∃ i', I' !! n = Some i' ∧ sfi_size i' = sfi_size i ∧ sfi_type i' = sfi_type i ∧
    same_contents (fs s) i (fs s') i'.

Lemma keeps_trans X s1 I1 s2 I2 s3 I3 : keeps X s1 I1 s2 I2 → keeps X s2 I2 s3 I3 → keeps X s1 I1 s3 I3.
Proof.
  intros A B n i Hn Hi. destruct (A n i Hn Hi) as (i2 & Hi2 & Hs2 & Ht2 & Hc2).
  destruct (B n i2 Hn Hi2) as (i3 & Hi3 & Hs3 & Ht3 & Hc3). exists i3. split; [done|].
  split; [congruence|]. split; [congruence|]. intros fb. by rw Hc3.
Qed.

Lemma keeps_sectors X s I s' I' :
  sectors (sfs_device (fs s')) = sectors (sfs_device (fs s)) → (∀ n i, n ∉ X → I !! n = Some i → I' !! n = Some i) →
  keeps X s I s' I'.
Proof.
  intros Hs HI n i Hn Hi. exists i. split; [by apply HI|]. split; [done|]. split; [done|].
  intros fb. by rw /fblock /mapping Hs.
Qed.

Lemma keeps_untouched X s I s' I' :
  (∀ n i, n ∉ X → I !! n = Some i → I' !! n = Some i ∧ untouched (fs s) i (fs s')) → keeps X s I s' I'.
Proof.
  intros Hun n i Hn Hi. destruct (Hun n i Hn Hi) as [Hi' Hu]. exists i. do 3 (split; [done|]). apply Hu.
Qed.

Lemma files_subset f I I' : files_ok f I' → I ⊆ I' → files_ok f I.
Proof.
  intros [Hv Hi Ha Hb Hmeta] Hsub. assert (∀ n i, I !! n = Some i → I' !! n = Some i) as Hs by (intros; by eapply lookup_weaken).
  split; [done | | | |].
  - intros n i Hn%Hs. by apply Hi.
  - intros n i n' i' b Hn%Hs Hn'%Hs. by apply (Ha n i n' i').
  - intros n i n' Hn%Hs [i' Hn'%Hs]. apply (Hb n i n' Hn). by eexists.
  - intros b Hm%Hmeta. destruct Hm as (? & ? & Hnone & Hout). do 2 (split; [done|]). split; [by eapply lookup_weaken_None|].
    intros n i Hn%Hs. by apply (Hout n).
Qed.

(** Marks and sectors that belong to no file have changed. *)
Lemma so_marks s I L f :
  sfs_ok s I L → same_env (fs s) f → svs f = svs (fs s) → files_ok f I →
  (∀ n i, I !! n = Some i → sectors (sfs_device f) !! n = sectors (sfs_device (fs s)) !! n) →
  sfs_ok (set_fs f s) I L ∧ venv s (set_fs f s) ∧ kept s (set_fs f s) L.
Proof.
  intros Hok He Hs Hfi Hsec. pose proof (so_table _ _ _ Hok) as [Ha Hh Hc Ho Hd]. split; [|split].
  - split; [done | split | simpl; rw (proj1 (proj2 He)); apply Hok | simpl; rw (proj1 (proj2 (proj2 He))); apply Hok].
    + rw table_fs; [done | apply He].
    + by apply heap_fs.
    + intros l Hl. destruct (Hc l Hl) as (v & x & Hi). pose proof (ic_inode _ _ _ _ _ Hi) as Hn. exists v, x.
      destruct Hi. split; rw /= ?Hs ?(Hsec _ _ Hn) //.
    + intros l l' v v'. rw /= Hs. by apply Ho.
    + intros n i Hi. rw /= Hs (Hsec _ _ Hi). by apply Hd.
  - by apply venv_fs.
  - split; [|done]. intros l _. by rw /= Hs.
Qed.

Definition new_inode : sfs_dinode := set_type SFS_TYPE_FILE (words_dinode zeros).

Lemma new_inode_ok : empty_inode new_inode ∧ dinode_ok new_inode.
Proof. split; [done|]. split; [by left | done | done]. Qed.

(** The outcome of [sfs_makeobj]. *)
Definition made_object (k : nat) (s : state) (I : gmap Z sfs_dinode) (L : list loc) (r : Z + loc) (s' : state) : Prop :=
  venv s s' ∧ kept s s' L ∧ ready k (fs s') ∧
  match r with
  | inl e => (e = ENOSPC ∨ e = ENOMEM) ∧ sfs_ok s' I L ∧ keeps ∅ s I s' I
  | inr l => ∃ ino d, I !! ino = None ∧ l ∉ L ∧ sfs_ok s' (<[ino := new_inode]> I) (L ++ [l]) ∧
      svs (fs s') !! l = Some (SfsVnode new_inode ino d) ∧ vnodes s' !! l = Some (Vnode 1 (Some sfs_fileops)) ∧
      keeps ∅ s I s' (<[ino := new_inode]> I)
  end.

(** A block taken, in the whole state. *)
Lemma so_taken s I L f ino :
  sfs_ok s I L → taken (fs s) f ino →
  sfs_ok (set_fs f s) I L ∧ venv s (set_fs f s) ∧ kept s (set_fs f s) L ∧ keeps ∅ s I (set_fs f s) I ∧
  I !! ino = None ∧ files_ok f (<[ino := new_inode]> I).
Proof.
  intros Hok Ht. destruct new_inode_ok as [He Hd].
  destruct (files_new (fs s) I f ino new_inode (so_files _ _ _ Hok) Ht He Hd) as (Hfi & Hnone & Hun).
  assert (files_ok f I) as HfI by (eapply files_subset; [exact Hfi | by apply insert_subseteq]).
  destruct (so_marks s I L f Hok (tk_env _ _ _ Ht) (tk_svs _ _ _ Ht) HfI) as (Hok' & Hv & Hk).
  { intros n i Hi. rw (tk_sectors _ _ _ Ht) lookup_insert_ne //. intros ->. congruence. }
  split_and!; try done. apply keeps_untouched. intros n i _ Hi. split; [done|]. by eapply Hun.
Qed.

(** The block of an inode that could not be loaded is given back. *)
Lemma bfree_unused s I L ino (Q : unit → state → Prop) :
  sfs_ok s I L → I !! ino = None → files_ok (fs s) (<[ino := new_inode]> I) →
  (∀ s', sfs_ok s' I L → venv s s' → kept s s' L → sfs_device (fs s') = sfs_device (fs s) → Q tt s') →
  wp (on_fs (sfs_bfree ino)) Q s.
Proof.
  intros Hok Hnone Hfi HQ. destruct (fi_inode _ _ Hfi ino new_inode (lookup_insert_eq _ _ _)) as (Hr & Hm & _).
  apply wp_on_fs. apply bfree_spec; [apply Hok | done | done |]. intros f0 f Hv He Hmk.
  destruct (files_delete (fs s) _ f ino new_inode Hfi (lookup_insert_eq _ _ _) Hv eq_refl eq_refl Hmk) as [Hfi' _].
  rw delete_insert_id // in Hfi'.
  destruct (so_marks s I L f Hok He eq_refl Hfi') as (Hok' & Hv' & Hk'); [done|]. by apply HQ.
Qed.

Lemma makeobj_spec k s I L :
  sfs_ok s I L → refs_small s L → held (fs s) → ready (2 + k) (fs s) →
  wp (sfs_makeobj SFS_TYPE_FILE) (made_object k s I L) s.
Proof.
  intros Hok Hrefs Hh Hrd. rw /sfs_makeobj. wp_step. apply wp_on_fs.
  apply (balloc_spec (1 + k)); [done | apply Hok | done | |].
  { intros _. rw set_fs_same. apply wp_ret. split; [done|]. split; [done|]. split; [by apply (ready_le (2 + k)); [lia|]|].
    split; [by left|]. split; [done|]. by apply keeps_sectors. }
  intros ino f Ht Hrd1. destruct (so_taken _ _ _ _ _ Hok Ht) as (Hok1 & Hv1 & Hk1 & Hkeep1 & Hnone & Hfi1).
  set (s1 := set_fs f s) in *.
  assert (∀ l v, l ∈ L → svs (fs s1) !! l = Some v → sv_ino v ≠ ino) as Hno.
  { intros l v Hl Hv Heq. destruct (ok_core _ _ _ _ _ Hok1 Hl Hv) as (x & Hc). pose proof (ic_inode _ _ _ _ _ Hc). congruence. }
  assert (refs_small s1 L) as Hrefs1 by (intros l x Hl; rw (kp_vnodes _ _ _ Hk1) //; by apply Hrefs).
  wp_step. apply (wp_mono _ (made k s1 I L ino new_inode)).
  { rw /sfs_loadvnode. wp_step. eapply table_num; [by eapply ok_array|]. wp_step. apply (table_search_spec s1 I L); [done..| |].
    - intros l v x Hl Hc Hn. by destruct (Hno l v Hl (ic_sv _ _ _ _ _ Hc)).
    - intros _. wp_step. apply wp_kmalloc_any.
      + intros o. apply wp_ret. split; [by apply quiet_base|]. split; [by apply (ready_le (1 + k)); [lia|]|].
        split; [done|]. by apply so_oracle.
      + intros l o Hl. destruct (so_alloc _ _ _ _ o Hok1 Hl) as [Hok2 Hsp2]. set (s2 := upd_base _ s1) in *.
        assert (quiet s1 s2 L) as Hq2 by (by apply quiet_base).
        eapply wp_mono; [apply (load_inode_spec k s2 I L l ino _ new_inode)|]; try done.
        * apply (venv_held s s2 I L); [etrans; [exact Hv1 | apply Hq2] | done | done].
        * pose proof (tk_range _ _ _ Ht) as Hr. pose proof (proj1 (proj2 (tk_env _ _ _ Ht))) as Hn.
          change (0 ≤ ino < sb_nblocks f). lia.
        * destruct (fi_inode _ _ Hfi1 ino new_inode (lookup_insert_eq _ _ _)) as (_ & Hm & _). exact Hm.
        * intros ws Hws. right. change (sectors (sfs_device f) !! ino = Some ws) in Hws.
          rw (tk_sectors _ _ _ Ht) lookup_insert_eq in Hws. by injection Hws as <-.
        * apply (files_same f); try done. apply Hok2.
        * by left.
        * intros r s' Hmade. by eapply made_after, Hmade. }
  intros r s2 (Hq & Hrd2 & Hr). destruct r as [e|l].
  - destruct Hr as [-> Hok2]. wp_step. apply (bfree_unused s2 I L); [done | done | |].
    { apply (files_same f); [done | apply Hok2 | apply (ve_nblocks _ _ (q_env _ _ _ Hq)) | apply (q_marked _ _ _ Hq) |].
      intros b _ _. by rw (q_sectors _ _ _ Hq). }
    intros s3 Hok3 Hv3 Hk3 Hd3. wp_step. split; [etrans; [exact Hv1|]; etrans; [apply Hq | exact Hv3]|]. split.
    { split; intros l' Hl'.
      - by rw (kp_svs _ _ _ Hk3) // (kp_svs _ _ _ (q_kept _ _ _ Hq)) // (kp_svs _ _ _ Hk1).
      - by rw (kp_vnodes _ _ _ Hk3) // (kp_vnodes _ _ _ (q_kept _ _ _ Hq)) // (kp_vnodes _ _ _ Hk1). }
    split; [by rw /ready Hd3|]. split; [by right|]. split; [done|].
    eapply keeps_trans; [exact Hkeep1|]. apply keeps_sectors; [|done]. rw Hd3. apply Hq.
  - destruct Hr as (Hl & Hok2 & (d & Hsv) & Hvn). wp_step. split; [etrans; [exact Hv1 | apply Hq]|]. split.
    { split; intros l' Hl'.
      - by rw (kp_svs _ _ _ (q_kept _ _ _ Hq)) // (kp_svs _ _ _ Hk1).
      - by rw (kp_vnodes _ _ _ (q_kept _ _ _ Hq)) // (kp_vnodes _ _ _ Hk1). }
    split; [done|]. exists ino, d. do 5 (split; [done|]). eapply keeps_trans; [exact Hkeep1|].
    apply keeps_sectors; [apply Hq|]. intros n i _ Hi. rw lookup_insert_ne //. congruence.
Qed.
End ops.
