(* ===== verification/SfsReclaim.v ===== *)
(** * Reclaiming inodes

    [sfs_sync_inode], [sfs_reclaim] and [vnode_decref] keep the invariant of
    SfsCore.v; a file with no link and no reference goes. *)

From stdpp Require Import base tactics list gmap option numbers ssreflect.
From S2P Require Import Prelude Kern.
From S2P Require Import Uio Lhd Bitmap Array Sfs SfsFacts SfsTrunc SfsThms SfsDir SfsNames SfsDirThms SfsVnode SfsCore SfsLoad.

Open Scope Z_scope.

(** ** Writing an inode back *)

Definition cleaned (v : sfs_vnode) : sfs_vnode := SfsVnode (sv_i v) (sv_ino v) false.

(** The freemap is what it was. *)
Definition freemap_same (f f' : Sfs.state) : Prop :=
  bytes (fm f') = bytes (fm f) ∧ maps (fm f') = maps (fm f) ∧ sfs_freemap f' = sfs_freemap f ∧
  sfs_freemapdirty f' = sfs_freemapdirty f.

Section ops.
Context `{!Hardware}.

Lemma sync_fs k f l v (Q : Z → Sfs.state → Prop) :
  held f → volume f → ready (S k) f → is_live l f = true → svs f !! l = Some v → 0 ≤ sv_ino v < sb_nblocks f →
  length (dinode_words (sv_i v)) = 128%nat → (sv_dirty v = false → sectors (sfs_device f) !! sv_ino v = Some (dinode_words (sv_i v))) →
  (∀ f', volume f' → ready k f' → same_env f f' → freemap_same f f' → (∀ b, marked f' b = marked f b) → svs f' = <[l := cleaned v]> (svs f) →
     sectors (sfs_device f') = <[sv_ino v := dinode_words (sv_i v)]> (sectors (sfs_device f)) → Q 0 f') →
  wp (sfs_sync_inode l) Q f.
Proof.
  intros Hh Hv Hrd Hl Hsv Hr Hlen Hcl HQ. rw /sfs_sync_inode. wp_step. eapply wp_deref; [by rw Hl|].
  destruct (sv_dirty v) eqn:Hd.
  - wp_step. apply (writeblock_ready k); [done..|]. intros d Hv' Hrd' He Hs. rw bool_decide_eq_false_2; [|by intros []].
    wp_step. rw /upd_sv. wp_step. eapply wp_deref; [by rw (same_env_live _ _ _ He) Hl|]. apply wp_modify. apply wp_ret.
    assert (alter (set_dirty false) l (svs f) = <[l := cleaned v]> (svs f)) as Halt.
    { apply map_eq. intros l'. destruct (decide (l' = l)) as [->|].
      - by rw lookup_alter_eq lookup_insert_eq Hsv.
      - by rw lookup_alter_ne // lookup_insert_ne. }
    apply HQ; try done; by apply volume_svs.
  - apply wp_ret. apply HQ; try done; [by apply (ready_le (S k)); [lia|] | | by rw insert_id // (Hcl eq_refl)].
    rw insert_id // Hsv. destruct v. simpl in Hd. by rw Hd.
Qed.

Lemma so_sync s I L l v x f :
  sfs_ok s I L → l ∈ L → in_core s I l v x → volume f → same_env (fs s) f → (∀ b, marked f b = marked (fs s) b) →
  svs f = <[l := cleaned v]> (svs (fs s)) →
  sectors (sfs_device f) = <[sv_ino v := dinode_words (sv_i v)]> (sectors (sfs_device (fs s))) →
  sfs_ok (set_fs f s) I L ∧ keeps ∅ s I (set_fs f s) I.
Proof.
  intros Hok Hl Hx Hv He Hm Hs Hsec. pose proof (so_table _ _ _ Hok) as [Ha Hh Hc Ho Hd].
  pose proof (ic_inode _ _ _ _ _ Hx) as Hi. pose proof (ic_sv _ _ _ _ _ Hx) as Hsv.
  assert (∀ n i b, I !! n = Some i → b ∈ blocks (fs s) i → b ≠ 0 → sectors (sfs_device f) !! b = sectors (sfs_device (fs s)) !! b) as Hblk.
  { intros n i b Hn Hb H0. rw Hsec lookup_insert_ne //. intros <-.
    by apply (fi_blocks _ _ (so_files _ _ _ Hok) n i (sv_ino v) Hn ltac:(by eexists)). }
  destruct (files_kept (fs s) I f (so_files _ _ _ Hok) Hv (proj1 (proj2 He)) Hm Hblk) as [Hfi Hun].
  assert (∀ l' v', l' ∈ L → svs f !! l' = Some v' → ∃ v0, svs (fs s) !! l' = Some v0 ∧ sv_ino v' = sv_ino v0 ∧ sv_i v' = sv_i v0) as Hback.
  { intros l' v' Hl'. rw Hs. intros [[<- <-]|[Hne Hv']]%lookup_insert_Some; [by exists v | by exists v']. }
  split; [split; [done | split | |]|].
  - rw table_fs; [done | apply He].
  - by apply heap_fs.
  - intros l' Hl'. destruct (decide (l' = l)) as [->|Hne].
    + exists (cleaned v), x. destruct Hx. split; try done; simpl; [by rw Hs lookup_insert_eq | intros _; by rw Hsec lookup_insert_eq].
    + destruct (Hc l' Hl') as (v' & x' & Hc'). exists v', x'.
      assert (sv_ino v ≠ sv_ino v') as Hn by (intros Heq; by apply Hne, (Ho l' l v' v); [..| apply Hc' | |]).
      destruct Hc'. split; try done; simpl; [by rw Hs lookup_insert_ne | by rw Hsec lookup_insert_ne].
  - intros l1 l2 v1 v2 Hl1 Hl2 Hv1 Hv2 Heq. destruct (Hback l1 v1 Hl1 Hv1) as (w1 & Hw1 & Hn1 & _).
    destruct (Hback l2 v2 Hl2 Hv2) as (w2 & Hw2 & Hn2 & _). apply (Ho l1 l2 w1 w2); [done..|congruence].
  - intros n i Hn. simpl. destruct (decide (n = sv_ino v)) as [->|Hne].
    + right. rw Hsec lookup_insert_eq. congruence.
    + rw Hsec lookup_insert_ne //. destruct (Hd n i Hn) as [(l2 & v2 & Hl2 & Hv2 & Hn2)|]; [left | by right].
      exists l2, v2. rw Hs lookup_insert_ne //. intros <-. rw Hsv in Hv2. by injection Hv2 as <-.
  - simpl. rw (proj1 (proj2 He)). apply Hok.
  - simpl. rw (proj1 (proj2 (proj2 He))). apply Hok.
  - apply keeps_untouched. intros n i _ Hn. split; [done|]. by eapply Hun.
Qed.

Lemma sync_spec k s I L l v x (Q : Z → state → Prop) :
  sfs_ok s I L → held (fs s) → ready (S k) (fs s) → l ∈ L → in_core s I l v x →
  (∀ f, sfs_ok (set_fs f s) I L → same_env (fs s) f → svs f = <[l := cleaned v]> (svs (fs s)) → ready k f →
     keeps ∅ s I (set_fs f s) I → freemap_same (fs s) f →
     sectors (sfs_device f) = <[sv_ino v := dinode_words (sv_i v)]> (sectors (sfs_device (fs s))) → Q 0 (set_fs f s)) →
  wp (on_fs (sfs_sync_inode l)) Q s.
Proof.
  intros Hok Hh Hrd Hl Hx HQ. destruct (fi_inode _ _ (so_files _ _ _ Hok) _ _ (ic_inode _ _ _ _ _ Hx)) as (Hr & Hm & Hf & Hd).
  apply wp_on_fs. apply (sync_fs k (fs s) l v); try done.
  - apply Hok.
  - by eapply ok_live_fs.
  - apply Hx.
  - lia.
  - apply dinode_words_length; [apply Hf | done].
  - apply Hx.
  - intros f Hv Hrd' He Hfs Hmk Hs Hsec. destruct (so_sync s I L l v x f) as [Hok' Hkeep]; try done. by apply HQ.
Qed.

(** ** Leaving the table *)

Lemma find_spec s L ix l (Q : Z → state → Prop) :
  in_table s L → NoDup L → (∀ l', l' ∈ L → is_live l' s = true ∧ is_Some (vnodes s !! l')) → L !! ix = Some l →
  Q (Z.of_nat ix) s → wp (find_in_table l (Z.of_nat (length L))) Q s.
Proof.
  intros Ht Hnd Hlive Hix HQ. rw /find_in_table Nat2Z.id. pose proof (lookup_lt_Some _ _ _ Hix) as Hlt.
  apply (wp_while (λ m z s', ∃ i, z = Z.of_nat i ∧ (i + m)%nat = length L ∧ s' = s ∧ (i ≤ ix)%nat) _ _ (length L)); [|lia|].
  { exists 0%nat. split_and!; [done | lia | done | lia]. }
  intros m z s' (i & -> & Hi & -> & Hle). rw bool_decide_eq_true_2; [|lia].
  destruct (lookup_lt_is_Some_2 L i) as [l' Hl']; [lia|]. destruct (Hlive l' (list_elem_of_lookup_2 _ _ _ Hl')) as [Hl'' [x Hx]].
  wp_step. eapply table_get; [done..|]. wp_step. eapply wp_deref; [by rw Hl''|]. bd_case (l' = l) as Heq.
  - apply wp_ret. subst l'. by rw (NoDup_lookup _ _ _ _ Hnd Hl' Hix).
  - apply wp_ret. exists (m - 1)%nat. assert (i ≠ ix) by congruence. split; [lia|]. exists (S i). split_and!; [lia | lia | done | lia].
Qed.

Lemma delete_in L ix (l : loc) l' : NoDup L → L !! ix = Some l → l' ∈ delete ix L ↔ l' ∈ L ∧ l' ≠ l.
Proof.
  intros Hnd Hix. pose proof (take_drop_middle _ _ _ Hix) as HL. rw delete_take_drop.
  rw -HL in Hnd. rw -{3}HL. apply NoDup_app in Hnd as (_ & Hd & Hnd%NoDup_cons). set_solver.
Qed.

Lemma set_table_base t s :
  Array.sys t = base_of s → set_table t s = State (fs s) (Array.arrays t) (Array.vecs t) (sfs_vnodes s) (vnodes s).
Proof.
  intros Hs. rw /set_table Hs. f_equal. apply (with_base_same (fs s)).
Qed.

(** The vnode at [l], whose inode is on the disk, leaves the table; its file stays
    or goes. *)
Lemma so_leave s I L l ix v f t x x' y I' :
  sfs_ok s I L → L !! ix = Some l → svs (fs s) !! l = Some v →
  sectors (sfs_device (fs s)) !! sv_ino v = Some (dinode_words (sv_i v)) →
  same_env (fs s) f → svs f = svs (fs s) → sfs_device f = sfs_device (fs s) →
  files_ok f I' → (I' = I ∨ I' = delete (sv_ino v) I) →
  repr (table s) (sfs_vnodes s) x (Some <$> L) → repr t (sfs_vnodes s) x' (delete ix (Some <$> L)) → vec x' = vec x →
  Array.sys t = base_of s →
  let s' := set_vnodes <[l := y]> (set_table t (set_fs f s)) in
  sfs_ok s' I' (delete ix L) ∧ spare s' (delete ix L) l ∧ venv s s' ∧ kept s s' (delete ix L).
Proof.
  intros Hok Hix Hsv Hsync He Hs Hdev Hfi HI' Hx Hx' Hvec Hsys s'.
  pose proof He as (Hfm & Hnb & Hlk & Hdep & Hb & _ & Hmaps).
  assert (s' = State f (Array.arrays t) (Array.vecs t) (sfs_vnodes s) (<[l := y]> (vnodes s))) as Hs'.
  { rw /s' set_table_base //. by rw Hsys /base_of /= Hb. }
  assert (base_of s' = base_of s) as Hbase by (by rw Hs' /base_of /=).
  pose proof (so_table _ _ _ Hok) as [_ [Hnd Hlive] Hc Ho Hd].
  pose proof (repr_array _ _ _ _ Hx) as Hxa. pose proof (repr_array _ _ _ _ Hx') as Hxa'. simpl in Hxa.
  assert (anchors s' = anchors s) as Hanc by (by rw Hs' /anchors /= Hlk Hfm Hmaps Hxa Hxa' /= Hvec).
  pose proof Hnd as (_ & HaL & HndL)%NoDup_app. pose proof (delete_in L ix l) as Hin.
  assert (∀ l', l' ∈ delete ix L → l' ∈ L ∧ l' ≠ l) as Hin' by (intros l'; by apply Hin).
  pose proof (list_elem_of_lookup_2 _ _ _ Hix) as HlL.
  assert (∀ l' v', l' ∈ delete ix L → svs (fs s) !! l' = Some v' → sv_ino v' ≠ sv_ino v) as Hne.
  { intros l' v' [Hl' Hn]%Hin' Hv' Heq. by apply Hn, (Ho l' l v' v). }
  assert (∀ n i, I' !! n = Some i → I !! n = Some i) as Hsub.
  { intros n i. destruct HI' as [->| ->]; [done|]. by intros [_ ?]%lookup_delete_Some. }
  assert (∀ n i, n ≠ sv_ino v → I !! n = Some i → I' !! n = Some i) as Hsup.
  { intros n i Hn. destruct HI' as [->| ->]; [done|]. by rw lookup_delete_ne. }
  split; [split; [by rw Hs' | split | |] | split; [|split]].
  - exists x'. rw -list_fmap_delete in Hx'. eapply repr_frame; [by rw Hs'; exact Hx' | by rw Hs' | by rw Hs' | |].
    + change (sfs_vnodes s' ∈ live (base_of s')). rw Hbase -Hsys Hs'. apply Hx'.
    + intros q Hq. change (q ∈ live (base_of s')). rw Hbase. apply Hlive, elem_of_app. left. rw anchors_fixed Hxa /= -Hvec Hq elem_of_app. right. by left.
  - split; rw Hanc ?Hbase.
    + apply NoDup_app in Hnd as (HA & _ & _). apply NoDup_app. split; [done|]. split.
      * intros a Ha [Ha' _]%Hin'. by apply (HaL a).
      * eapply sublist_NoDup; [exact HndL | apply sublist_delete].
    + intros a [Ha|[Ha _]%Hin']%elem_of_app; apply Hlive, elem_of_app; [by left | by right].
  - intros l' Hl'. destruct (Hin' l' Hl') as [HlL' Hn]. destruct (Hc l' HlL') as (v' & z & Hc'). exists v', z.
    pose proof (Hne l' v' Hl' (ic_sv _ _ _ _ _ Hc')) as Hnv. rw Hs'.
    destruct Hc'. split; rw /= ?Hs ?Hdev //; [by rw lookup_insert_ne | by apply Hsup].
  - intros l1 l2 v1 v2 [Hl1 _]%Hin' [Hl2 _]%Hin'. rw Hs' /= Hs. by apply Ho.
  - intros n i Hi. rw Hs' /= Hs Hdev. destruct (Hd n i (Hsub _ _ Hi)) as [(l1 & v1 & Hl1 & Hv1 & Hn1)|]; [|by right].
    destruct (decide (l1 = l)) as [->|Hn].
    + right. rw Hsv in Hv1. injection Hv1 as <-. subst n. rw Hsync. f_equal. f_equal.
      destruct (ok_core _ _ _ _ _ Hok HlL Hsv) as (z & Hz). pose proof (ic_inode _ _ _ _ _ Hz). apply Hsub in Hi. congruence.
    + left. exists l1, v1. split; [by apply Hin|done].
  - rw Hs' /= Hnb. apply Hok.
  - rw Hs' /= Hlk. apply Hok.
  - split; [rw Hbase; apply Hlive, elem_of_app; by right|]. rw Hanc. intros [Ha|[_ []]%Hin']%elem_of_app; [by apply (HaL l)|done].
  - split; rw ?Hbase ?Hs' //.
  - split; intros l' [_ Hn]%Hin'; rw Hs' /=; [by rw Hs | by rw lookup_insert_ne].
Qed.

(** ** Reclaiming *)

(** The files once nobody uses [v]: without a link its file goes. *)
Definition without (v : sfs_vnode) (I : gmap Z sfs_dinode) : gmap Z sfs_dinode :=
  if bool_decide (sfi_linkcount (sv_i v) = 0) then delete (sv_ino v) I else I.
Definition unlinked (v : sfs_vnode) : gset Z := if bool_decide (sfi_linkcount (sv_i v) = 0) then {[sv_ino v]} else ∅.

(** The vnode at [l] has gone. *)
Definition gone (s : state) (I : gmap Z sfs_dinode) (L : list loc) (l : loc) (v : sfs_vnode) (s' : state) : Prop :=
  ∃ L', (∀ l', l' ∈ L' ↔ l' ∈ L ∧ l' ≠ l) ∧ sfs_ok s' (without v I) L' ∧ kept s s' L' ∧ keeps (unlinked v) s I s' (without v I).

(** The block of an inode without links is given back. *)
Lemma bfree_unlinked s I L l v x (Q : unit → state → Prop) :
  sfs_ok s I L → l ∈ L → in_core s I l v x →
  (∀ f, same_env (fs s) f → svs f = svs (fs s) → sfs_device f = sfs_device (fs s) → files_ok f (without v I) →
     keeps (unlinked v) s I (set_fs f s) (without v I) → Q tt (set_fs f s)) →
  wp (if bool_decide (sfi_linkcount (sv_i v) = 0) then on_fs (sfs_bfree (sv_ino v)) else mret tt) Q s.
Proof.
  intros Hok Hl Hc HQ. pose proof (ic_inode _ _ _ _ _ Hc) as Hi. rw /without /unlinked in HQ. case_bool_decide as Hn.
  - destruct (fi_inode _ _ (so_files _ _ _ Hok) _ _ Hi) as (Hr & Hm & _). apply wp_on_fs.
    apply bfree_spec; [apply Hok | done | done |]. intros f0 f Hv He Hmk.
    destruct (files_delete (fs s) I f (sv_ino v) (sv_i v) (so_files _ _ _ Hok) Hi Hv eq_refl eq_refl Hmk) as [Hfi Hun].
    apply HQ; try done. apply keeps_untouched. intros n i Hne Hni. rw elem_of_singleton in Hne.
    split; [by rw lookup_delete_ne | by eapply Hun].
  - apply wp_ret. rw -(set_fs_same s). apply HQ; try done; [apply Hok|]. by apply keeps_sectors.
Qed.

Lemma discard_spec k s0 s I L l v x :
  biglock_ok (fs s0) → venv (vlocked s0) s → sfs_ok s I L → held (fs s) → ready (S k) (fs s) →
  l ∈ L → in_core s I l v x → vn_refcount x = 1 →
  wp (discard l) (λ r s', r = 0 ∧ venv s0 s' ∧ ready k (fs s') ∧ gone s I L l v s') s.
Proof.
  intros Hlk Hv0 Hok Hh Hrd Hl Hc Hx1. rw /discard. wp_step. apply (sync_spec k s I L l v x); [done..|].
  intros f Hok1 He1 Hs1 Hrd1 Hk1 _ _. set (s1 := set_fs f s) in *. rw bool_decide_eq_false_2; [|by intros []].
  assert (svs (fs s1) !! l = Some (cleaned v)) as Hsv1 by (by rw /s1 /= Hs1 lookup_insert_eq).
  assert (kept s s1 (filter (.≠ l) L)) as Hkept1.
  { split; [|done]. intros l' [Hl' _]%list_elem_of_filter. by rw /s1 /= Hs1 lookup_insert_ne. }
  destruct (ok_core _ _ _ _ _ Hok1 Hl Hsv1) as (x1 & Hc1).
  assert (x1 = x) as -> by (pose proof (ic_vn _ _ _ _ _ Hc1) as H1; pose proof (ic_vn _ _ _ _ _ Hc) as H2; simpl in H1; congruence).
  wp_step. eapply load_sv_ok; [done..|]. wp_step. apply (bfree_unlinked s1 I L l (cleaned v) x); [done..|].
  intros f2 He2 Hs2 Hd2 Hfi2 Hk2. set (s2 := set_fs f2 s1) in *. destruct (ok_array _ _ _ Hok1) as [a Ha].
  assert (table s2 = table s1) as Ht2 by (apply table_fs, He2).
  assert (in_table s2 L) as Hin2 by (exists a; rw Ht2; exact Ha).
  pose proof (hp_once _ _ (tb_heap _ _ _ (so_table _ _ _ Hok1))) as (_ & _ & Hnd)%NoDup_app.
  apply list_elem_of_lookup in Hl as Hix. destruct Hix as [ix Hix]. pose proof (lookup_lt_Some _ _ _ Hix) as Hlt.
  wp_step. apply (table_num s2 L); [done|]. wp_step. apply (find_spec s2 L ix); [done..| |done|].
  { intros l' Hl'. destruct (tb_core _ _ _ (so_table _ _ _ Hok1) l' Hl') as (v' & x' & Hc'). split; [|by eexists; apply Hc'].
    rw -(ok_live s1 I L l') // /is_live /base_of /s2 /=. by destruct He2 as (_ & _ & _ & _ & -> & _). }
  rw bool_decide_eq_false_2; [|lia]. wp_step. apply wp_on_vnodes. rw Ht2.
  eapply wp_mono; [apply (array_remove_spec _ _ _ _ (Z.of_nat ix) Ha); rw length_fmap; lia|].
  intros _ t (x' & Hx' & Hvec & Hsys). rw Nat2Z.id in Hx'.
  destruct (so_leave s1 I L l ix (cleaned v) f2 t a x' (Vnode 0 None) (without v I)) as (Hok4 & Hsp4 & Hv4 & Hk4); try done.
  { by apply Hc1. }
  { rw /without. case_bool_decide; [by right | by left]. }
  set (s3 := set_table t s2). change (set_table t (set_fs f2 s1)) with s3 in Hok4, Hsp4, Hv4, Hk4.
  set (s4 := set_vnodes _ s3) in *. wp_step. rw /vnode_cleanup. wp_step. eapply (wp_deref _ x).
  { assert (is_live l s3 = true) as -> by (apply is_live_true; exact (proj1 Hsp4)). apply Hc. }
  wp_step. apply wp_kassert; [by apply bool_decide_eq_true_2|]. apply wp_modify. change (set_vnodes _ s3) with s4.
  wp_step. eapply (wp_vfs_release s0); [done | | exact Hok4 |].
  { etrans; [exact Hv0|]. etrans; [by apply venv_fs|]. exact Hv4. }
  pose proof (so_unlocked s0 s4 _ _ Hok4) as Hok5. wp_step. apply wp_kfree; [apply Hsp4|]. wp_step.
  split; [done|]. split; [|split; [by rw /ready /= Hd2|]].
  { etrans; [apply (venv_locked s0 s4); [done|]|done]. etrans; [exact Hv0|]. etrans; [by apply venv_fs|]. exact Hv4. }
  exists (delete ix L). split; [intros l'; by apply delete_in|]. split; [by apply so_free|]. split.
  - pose proof (delete_in L ix l) as Hin. split; intros l' Hl'.
    + etrans; [apply (kp_svs _ _ _ Hk4 l' Hl')|]. apply Hkept1, list_elem_of_filter. by apply and_comm, Hin.
    + etrans; [apply (kp_vnodes _ _ _ Hk4 l' Hl')|]. apply Hkept1, list_elem_of_filter. by apply and_comm, Hin.
  - eapply (keeps_trans _ s I s1 I); [|exact Hk2]. intros n i _. by apply Hk1.
Qed.

(** One file has changed: what the others keep. *)
Lemma keeps_change s I L l v f' v' :
  sfs_ok s I L → l ∈ L → svs (fs s) !! l = Some v → changes s l v f' v' →
  keeps {[sv_ino v]} s I (set_fs f' s) (<[sv_ino v := sv_i v']> I) ∧ ∀ L', l ∉ L' → kept s (set_fs f' s) L'.
Proof.
  intros Hok Hl Hv Hch. split.
  - apply keeps_untouched. intros n i Hne Hi. rw elem_of_singleton in Hne. split; [by rw lookup_insert_ne|].
    by eapply (so_changes_untouched s I L l v).
  - intros L' HL'. split; [|done]. intros l' Hl'. rw /= (ch_svs _ _ _ _ _ Hch) lookup_insert_ne //. congruence.
Qed.

Lemma gone_from s I L l v s1 I1 v1 s' :
  gone s1 I1 L l v1 s' → (∀ L', l ∉ L' → kept s s1 L') → keeps (unlinked v) s I s1 I1 →
  unlinked v1 = unlinked v → without v1 I1 = without v I → gone s I L l v s'.
Proof.
  intros (L' & Hin & Hok & Hk & Hkeep) Hk1 Hkeep1 Hu Hw. rw Hu Hw in Hkeep. rw Hw in Hok. exists L'. split; [done|].
  assert (kept s s1 L') as [Ha Hb] by (apply Hk1; intros [_ []]%Hin; done).
  split; [done|]. split; [|by eapply keeps_trans].
  destruct Hk as [Hc Hd]. split; intros l' Hl'; [by rw Hc // Ha | by rw Hd // Hb].
Qed.

Lemma reclaim_spec k s I L l v x :
  sfs_ok s I L → lock_ok 1 (fs s) → ready (3 + k) (fs s) → l ∈ L → in_core s I l v x → vn_refcount x = 1 →
  wp (sfs_reclaim l) (λ r s', r = 0 ∧ venv s s' ∧ ready k (fs s') ∧ gone s I L l v s') s.
Proof.
  intros Hok Hlk Hrd Hl Hc Hx1. pose proof (proj1 Hlk) as Hb. rw /sfs_reclaim. wp_step. apply wp_vfs_acquire; [done|].
  destruct (lock_ok_locked 0 (fs s) ltac:(done) Hlk) as [Hlk1 Hh1]. pose proof (so_locked s I L Hb Hok) as Hok1.
  destruct (locked_same _ Hb) as (_ & _ & _ & _ & _ & Hdev & Hsvs & _). set (s1 := vlocked s) in *.
  assert (in_core s1 I l v x) as Hc1 by (by apply (in_core_same s); [..| rw /s1 /= Hdev]; rw /s1 /= ?Hsvs).
  assert (ready (3 + k) (fs s1)) as Hrd1 by (by rw /ready /s1 /= Hdev).
  assert (∀ L', kept s s1 L') as Hk1 by (split; intros; by rw /s1 /= ?Hsvs).
  assert (keeps (unlinked v) s I s1 I) as Hkeep1 by (apply keeps_sectors; [by rw /s1 /= Hdev | done]).
  wp_step. eapply (wp_load_vn s1 I L l v x); [done..|]. rw bool_decide_eq_false_2; [|by intros []].
  wp_step. apply (load_sv_ok s1 I L l v); [done | done | apply Hc1 |]. wp_step. bd_case (sfi_linkcount (sv_i v) = 0) as Hn.
  - apply wp_on_fs. destruct (fi_inode _ _ (so_files _ _ _ Hok1) _ _ (ic_inode _ _ _ _ _ Hc1)) as (_ & _ & Hf & _).
    eapply wp_mono; [apply (itrunc_spec (S k) l (fs s1) v 0); try done|].
    { apply Hlk1. }
    { apply Hok1. }
    { by eapply ok_live_fs. }
    { apply Hc1. }
    intros r f (-> & Hrd2 & v' & Ht). rw bool_decide_eq_false_2; [|by intros []].
    pose proof (changes_truncated s1 I L l v f v' 0 Hok1 Hl (ic_sv _ _ _ _ _ Hc1) Ht) as Hch.
    pose proof (so_change s1 I L l v f v' Hok1 Hl (ic_sv _ _ _ _ _ Hc1) Hch) as Hok2.
    destruct (keeps_change s1 I L l v f v' Hok1 Hl (ic_sv _ _ _ _ _ Hc1) Hch) as [Hkeep2 Hk2].
    assert (svs (fs (set_fs f s1)) !! l = Some v') as Hsv2 by (by rw /= (ch_svs _ _ _ _ _ Hch) lookup_insert_eq).
    assert (venv s1 (set_fs f s1)) as Hv2 by (apply venv_fs, Hch). set (s2 := set_fs f s1) in *.
    destruct (ok_core _ _ _ _ _ Hok2 Hl Hsv2) as (x2 & Hc2).
    assert (x2 = x) as -> by (pose proof (ic_vn _ _ _ _ _ Hc1) as H1; pose proof (ic_vn _ _ _ _ _ Hc2) as H2; simpl in H1, H2; congruence).
    pose proof (tr_rest _ _ _ _ _ _ Ht) as (_ & Hln & _). pose proof (ch_ino _ _ _ _ _ Hch) as Hino.
    eapply wp_mono; [apply (discard_spec k s s2 (<[sv_ino v := sv_i v']> I) L l v' x); try done|].
    { by eapply venv_held. }
    intros r s' (-> & Hv3 & Hrd3 & Hg). do 3 (split; [done|]). eapply gone_from; [exact Hg | | | |].
    + intros L' HL'. destruct (Hk1 L') as [Ha Hb']. destruct (Hk2 L' HL') as [Hc' Hd'].
      split; intros l' Hl'; [by rw Hc' // Ha | by rw Hd' // Hb'].
    + eapply keeps_trans; [exact Hkeep1|]. rw /unlinked bool_decide_eq_true_2 //.
    + by rw /unlinked Hln Hino.
    + rw /without Hln Hino bool_decide_eq_true_2 //. apply delete_insert_eq.
  - apply wp_ret. rw bool_decide_eq_false_2; [|by intros []].
    eapply wp_mono; [apply (discard_spec k s s1 I L l v x); try done; by apply (ready_le (3 + k)); [lia|]|].
    intros r s' (-> & Hv3 & Hrd3 & Hg). do 3 (split; [done|]). by eapply gone_from.
Qed.

(** What becomes of a vnode when one reference goes. *)
Definition dropped (s : state) (I : gmap Z sfs_dinode) (L : list loc) (l : loc) (v : sfs_vnode) (x : vnode) (s' : state) : Prop :=
  1 < vn_refcount x ∧ s' = set_ref l (vn_refcount x - 1) x s ∨ vn_refcount x = 1 ∧ gone s I L l v s'.

Lemma decref_spec k s I L l v x :
  sfs_ok s I L → lock_ok 1 (fs s) → ready (3 + k) (fs s) → l ∈ L → in_core s I l v x →
  wp (vnode_decref l) (λ _ s', venv s s' ∧ ready k (fs s') ∧ dropped s I L l v x s') s.
Proof.
  intros Hok Hlk Hrd Hl Hc. pose proof (ic_ref _ _ _ _ _ Hc) as Hr. rw /vnode_decref. wp_step.
  eapply wp_load_vn; [done..|]. wp_step. apply wp_kassert; [apply bool_decide_eq_true_2; lia|].
  bd_case (vn_refcount x > 1) as Hx.
  - apply wp_modify. split; [done|]. split; [by apply (ready_le (3 + k)); [lia|]|]. left. split; [lia|done].
  - destruct (fi_inode _ _ (so_files _ _ _ Hok) _ _ (ic_inode _ _ _ _ _ Hc)) as (_ & _ & _ & Hd).
    destruct (ops_of_ok _ Hd) as [ops Hops]. wp_step. rw /vnode_check. wp_step. eapply wp_load_vn; [done..|].
    rw (ic_ops _ _ _ _ _ Hc) Hops bool_decide_eq_false_2; [|lia]. wp_step. wp_step.
    eapply wp_mono; [apply (reclaim_spec k s I L l v x); [done..|lia]|].
    intros r s' (-> & Hv & Hrd' & Hg). wp_step. do 2 (split; [done|]). right. split; [lia|done].
Qed.
End ops.
