(* ===== verification/SfsSpace.v ===== *)
(** * An abstract file system, and what the pieces of SFS do to it

    A file system is a map from names to inode numbers, the bytes of the files
    with these numbers, and the vnodes somebody refers to.  [implements] says that
    the state of a mounted volume stands for one, with the link counts [C]; the
    lemmas say what each of the steps the operations on names are made of does. *)

From stdpp Require Import base tactics list gmap option numbers ssreflect.
From S2P Require Import Prelude Kern.
From S2P Require Import Uio Lhd Bitmap Array Sfs SfsFacts SfsTrunc SfsThms SfsDir SfsNames SfsDirThms SfsVnode SfsVops SfsCore SfsLoad SfsReclaim.

Open Scope Z_scope.

(** ** The abstract file system *)

(** The files with a number, and for each vnode the number and the references. *)
Record fsys := Fsys {
  fnames : gmap (list Z) Z;
  files : gmap Z (list Z);
  opened : gmap loc (Z * Z)
}.

Definition set_fnames f V := Fsys (f (fnames V)) (files V) (opened V).
Definition set_files f V := Fsys (fnames V) (f (files V)) (opened V).
Definition set_opened f V := Fsys (fnames V) (files V) (f (opened V)).

(** How many names a file has. *)
Definition nlinks (D : gmap (list Z) Z) (n : Z) : Z := Z.of_nat (size (filter (λ p, p.2 = n) D)).

(** No vnode is there for [n]. *)
Definition closed (V : fsys) (n : Z) : Prop := ∀ l r, opened V !! l ≠ Some (n, r).

(** One more reference to file [n], through the vnode [l]. *)
Definition hold (V : fsys) (n : Z) (l : loc) (V' : fsys) : Prop :=
  (∃ r, opened V !! l = Some (n, r) ∧ V' = set_opened <[l := (n, r + 1)]> V) ∨
  (closed V n ∧ opened V !! l = None ∧ V' = set_opened <[l := (n, 1)]> V).

(** One reference less; [c] says whether the file has a link. *)
Definition drop (c : Z) (V : fsys) (n : Z) (l : loc) (V' : fsys) : Prop :=
  ∃ r, opened V !! l = Some (n, r) ∧
    (1 < r ∧ V' = set_opened <[l := (n, r - 1)]> V ∨
     r = 1 ∧ V' = set_opened (delete l) (if bool_decide (c = 0) then set_files (delete n) V else V)).

(** ** The correspondence *)

(** The bytes of a file. *)
Definition file_bytes (f : Sfs.state) (i : sfs_dinode) : list Z :=
  take (Z.to_nat (sfi_size i)) (seq 0 143 ≫= λ fb, unpack (fblock f i fb)).

Definition regular (f : Sfs.state) (i : sfs_dinode) : option (list Z) :=
  if bool_decide (sfi_type i = SFS_TYPE_FILE) then Some (file_bytes f i) else None.

Definition handle (s : state) (L : list loc) (l : loc) : option (Z * Z) :=
  if decide (l ∈ L) then v ← svs (fs s) !! l; x ← vnodes s !! l; Some (sv_ino v, vn_refcount x) else None.

(** The vnode of the root directory is at [d]. *)
Record root_at (s : state) (L : list loc) (d : loc) (D : gmap (list Z) Z) (v : sfs_vnode) : Prop := {
  ra_in : d ∈ L;
  ra_vnode : svs (fs s) !! d = Some v;
  ra_ino : sv_ino v = SFS_ROOTDIR_INO;
  ra_dir : directory (fs s) v D
}.

Record implements (d : loc) (C : Z → Z) (s : state) (I : gmap Z sfs_dinode) (L : list loc) (V : fsys) : Prop := {
  im_ok : sfs_ok s I L;
  im_root : ∃ v, root_at s L d (fnames V) v;
  im_files : ∀ n, files V !! n = I !! n ≫= regular (fs s);
  im_dirs : ∀ n i, I !! n = Some i → sfi_type i ≠ SFS_TYPE_FILE → n = SFS_ROOTDIR_INO;
  im_names : ∀ name n, fnames V !! name = Some n → is_Some (files V !! n);
  im_links : ∀ n i, I !! n = Some i → n ≠ SFS_ROOTDIR_INO → sfi_linkcount i = C n;
  im_opened : ∀ l, opened V !! l = handle s L l
}.

Lemma file_bytes_same f i f' i' : same_contents f i f' i' → sfi_size i' = sfi_size i → file_bytes f' i' = file_bytes f i.
Proof.
  intros Hc Hs. rw /file_bytes Hs. f_equal. induction (seq 0 143) as [|fb l IH]; [done|]. by rw !bind_cons IH Hc.
Qed.

Lemma regular_same f i f' i' :
  same_contents f i f' i' → sfi_size i' = sfi_size i → sfi_type i' = sfi_type i → regular f' i' = regular f i.
Proof. intros Hc Hs Ht. by rw /regular Ht (file_bytes_same f i). Qed.

(** Counting links. *)
Lemma nlinks_insert D name n n' :
  D !! name = None → nlinks (<[name := n]> D) n' = nlinks D n' + if bool_decide (n' = n) then 1 else 0.
Proof.
  intros HD. rw /nlinks. case_bool_decide as Hn.
  - subst n'. rw map_filter_insert_True // map_size_insert_None; [lia|]. apply map_lookup_filter_None. by left.
  - rw map_filter_insert_not'; [lia | simpl; congruence |]. intros y Hy. congruence.
Qed.

Lemma nlinks_delete D name n n' :
  D !! name = Some n → nlinks (delete name D) n' = nlinks D n' - if bool_decide (n' = n) then 1 else 0.
Proof.
  intros HD. rw -{2}(insert_delete_id _ _ _ HD) nlinks_insert; [lia|]. apply lookup_delete_eq.
Qed.

Lemma nlinks_pos D name n : D !! name = Some n → 0 < nlinks D n.
Proof.
  intros HD. rw -(insert_delete_id _ _ _ HD) nlinks_insert; [|apply lookup_delete_eq]. rw bool_decide_eq_true_2 // /nlinks. lia.
Qed.

Lemma nlinks_nonneg D n : 0 ≤ nlinks D n.
Proof. rw /nlinks. lia. Qed.

Lemma nlinks_none D n : (∀ name, D !! name ≠ Some n) → nlinks D n = 0.
Proof.
  intros HD. rw /nlinks. assert (filter (λ p, p.2 = n) D = ∅) as ->; [|done].
  apply map_empty. intros name. apply map_lookup_filter_None. right. intros m Hm Heq. simpl in Heq. apply (HD name). congruence.
Qed.

(** There are not more names than slots. *)
Lemma nlinks_bound f v D n : directory f v D → 0 ≤ nlinks D n ≤ 1144.
Proof.
  intros Hd. pose proof (nslots_bound _ _ _ Hd) as Hb. destruct (d_names _ _ _ Hd) as [Hm _].
  assert (size D ≤ length (slots f (sv_i v)))%nat as Hs.
  { assert (size D = length (map_to_list D).*1) as -> by (by rw length_fmap length_map_to_list).
    rw -(length_fmap entry_name (slots f (sv_i v))). apply submseteq_length, NoDup_submseteq; [apply NoDup_fst_map_to_list|].
    intros name ([nm m] & -> & Hin)%list_elem_of_fmap. apply elem_of_map_to_list in Hin. apply Hm in Hin as (k & e & Hk & _ & _ & He).
    apply list_elem_of_fmap. exists e. split; [done|]. by eapply list_elem_of_lookup_2. }
  pose proof (map_size_filter (λ p, p.2 = n) D) as Hf. rw /slots length_fmap length_seq in Hs. rw /nlinks. lia.
Qed.

(** ** Consequences *)

Lemma handle_in s I L l v x : l ∈ L → in_core s I l v x → handle s L l = Some (sv_ino v, vn_refcount x).
Proof. intros Hl Hc. by rw /handle decide_True // (ic_sv _ _ _ _ _ Hc) /= (ic_vn _ _ _ _ _ Hc). Qed.

Lemma handle_kept s s' L L' l :
  (l ∈ L ↔ l ∈ L') → svs (fs s') !! l = svs (fs s) !! l → vnodes s' !! l = vnodes s !! l → handle s' L' l = handle s L l.
Proof.
  intros HL Hs Hv. rw /handle Hs Hv. destruct (decide (l ∈ L)); [rw decide_True //; tauto | rw decide_False //; tauto].
Qed.

(** The vnodes somebody refers to. *)
Lemma im_open d C s I L V l n r :
  implements d C s I L V → opened V !! l = Some (n, r) →
  l ∈ L ∧ ∃ v x, in_core s I l v x ∧ sv_ino v = n ∧ vn_refcount x = r.
Proof.
  intros Him. rw (im_opened _ _ _ _ _ _ Him) /handle. case_decide as Hl; [|done]. intros Ho. split; [done|].
  destruct (tb_core _ _ _ (so_table _ _ _ (im_ok _ _ _ _ _ _ Him)) l Hl) as (v & x & Hc). exists v, x.
  rw (ic_sv _ _ _ _ _ Hc) /= (ic_vn _ _ _ _ _ Hc) /= in Ho. by simplify_eq.
Qed.

Lemma im_handle d C s I L V l v x :
  implements d C s I L V → l ∈ L → in_core s I l v x → opened V !! l = Some (sv_ino v, vn_refcount x).
Proof. intros Him Hl Hc. rw (im_opened _ _ _ _ _ _ Him). by eapply handle_in. Qed.

Lemma im_file d C s I L V n b :
  implements d C s I L V → files V !! n = Some b →
  ∃ i, I !! n = Some i ∧ sfi_type i = SFS_TYPE_FILE ∧ file_bytes (fs s) i = b ∧ n ≠ SFS_ROOTDIR_INO.
Proof.
  intros Him. rw (im_files _ _ _ _ _ _ Him). intros (i & Hi & Hr)%bind_Some. rw /regular in Hr.
  case_bool_decide as Ht; [|done]. injection Hr as <-. exists i. do 3 (split; [done|]). intros ->.
  destruct (im_root _ _ _ _ _ _ Him) as (v & [Hd Hv Hn [Hdir _ _]]).
  destruct (ok_core _ _ _ _ _ (im_ok _ _ _ _ _ _ Him) Hd Hv) as (x & Hc). pose proof (ic_inode _ _ _ _ _ Hc) as Hi'.
  rw Hn Hi in Hi'. injection Hi' as ->. by rw Hdir in Ht.
Qed.

Lemma counts_bound d C s I L V n : implements d C s I L V → 0 ≤ nlinks (fnames V) n ≤ 1144.
Proof. intros Him. destruct (im_root _ _ _ _ _ _ Him) as (v & [_ _ _ Hd]). by eapply nlinks_bound. Qed.

(** The root directory is open for the operations on entries. *)
Lemma im_dir d C s I L V :
  implements d C s I L V → held (fs s) → ∃ v, root_at s L d (fnames V) v ∧ file_open d (fs s) v ∧ sfi_type (sv_i v) = SFS_TYPE_DIR.
Proof.
  intros Him Hh. pose proof (im_ok _ _ _ _ _ _ Him) as Hok. destruct (im_root _ _ _ _ _ _ Him) as (v & Hr).
  exists v. split; [done|]. pose proof Hr as [Hd Hv _ Hdir]. split; [|apply Hdir].
  destruct (ok_core _ _ _ _ _ Hok Hd Hv) as (x & Hc). destruct (fi_inode _ _ (so_files _ _ _ Hok) _ _ (ic_inode _ _ _ _ _ Hc)) as (_ & _ & Hf & _).
  split; [done | apply Hok | by eapply ok_live_fs | done | done].
Qed.

Lemma same_sectors f f' i : sectors (sfs_device f') = sectors (sfs_device f) → same_contents f i f' i.
Proof. intros Hs fb. by rw /fblock /mapping Hs. Qed.

Lemma directory_contents f v f' v' D :
  directory f v D → same_contents f (sv_i v) f' (sv_i v') → sfi_size (sv_i v') = sfi_size (sv_i v) →
  sfi_type (sv_i v') = sfi_type (sv_i v) → directory f' v' D.
Proof. intros [] Hc Hs Ht. split; [by rw Ht | by rw Hs | by rw (slots_same f (sv_i v))]. Qed.

(** ** Steps that change nothing *)

Lemma im_keeps d C s I L V s' :
  implements d C s I L V → sfs_ok s' I L → kept s s' L →
  (∀ n i, I !! n = Some i → same_contents (fs s) i (fs s') i) → implements d C s' I L V.
Proof.
  intros [Hok (v & [Hd Hv Hn Hdir]) Hf Hdirs Hnm Hln Ho] Hok' [Hs Hvn] Hsame. split; try done.
  - exists v. split; [done | by rw Hs | done |]. destruct (ok_core _ _ _ _ _ Hok Hd Hv) as (x & Hc).
    eapply directory_contents; [done | exact (Hsame _ _ (ic_inode _ _ _ _ _ Hc)) | done..].
  - intros n. rw Hf. destruct (I !! n) as [i|] eqn:Hi; [|done]. simpl. symmetry. apply regular_same; [by eapply Hsame|done..].
  - intros l. rw Ho. symmetry. rw /handle. case_decide as Hl; [|done]. by rw Hs // Hvn.
Qed.

Lemma im_calm d C s I L V s' :
  implements d C s I L V → sfs_ok s' I L → kept s s' L → sectors (sfs_device (fs s')) = sectors (sfs_device (fs s)) →
  implements d C s' I L V.
Proof. intros Him Hok Hk Hs. eapply im_keeps; [done..|]. intros. by apply same_sectors. Qed.

Lemma im_quiet d C s I L V s' : implements d C s I L V → sfs_ok s' I L → quiet s s' L → implements d C s' I L V.
Proof. intros Him Hok Hq. eapply im_calm; [done | done | apply Hq | apply Hq]. Qed.

(** ** References *)

Lemma im_ref d C s I L V l v x n :
  implements d C s I L V → l ∈ L → in_core s I l v x → 1 ≤ n < 2 ^ 31 →
  implements d C (set_ref l n x s) I L (set_opened <[l := (sv_ino v, n)]> V).
Proof.
  intros [Hok (w & [Hd Hv Hn Hdir]) Hf Hdirs Hnm Hln Ho] Hl Hc Hb. split; try done.
  - by apply (so_ref s I L l v).
  - by exists w.
  - intros l'. simpl. destruct (decide (l' = l)) as [->|Hne].
    + by rw lookup_insert_eq /handle decide_True //= (ic_sv _ _ _ _ _ Hc) /= lookup_insert_eq.
    + rw lookup_insert_ne // Ho. rw /handle /= lookup_insert_ne //.
Qed.

(** A vnode has been found or made. *)
Definition held_by (d : loc) (C : Z → Z) (k : nat) (s : state) (V : fsys) (n : Z) (r : Z + loc) (s' : state) : Prop :=
  venv s s' ∧ ready k (fs s') ∧ svs (fs s') !! d = svs (fs s) !! d ∧ sectors (sfs_device (fs s')) = sectors (sfs_device (fs s)) ∧
  match r with
  | inl e => e = ENOMEM ∧ ∃ I L, implements d C s' I L V
  | inr l => ∃ I L V', hold V n l V' ∧ implements d C s' I L V'
  end.

Lemma im_hold d C k s I L V n i r s' :
  implements d C s I L V → refs_small s L → I !! n = Some i → found_vnode k s I L n i r s' → held_by d C k s V n r s'.
Proof.
  intros Him Hrefs Hi [(l & v & x & -> & Hl & Hc & Hn & Hrd & ->)|(Hno & Hq & Hrd & Hr)].
  - do 4 (split; [done|]). exists I, L. pose proof (ic_ref _ _ _ _ _ Hc). pose proof (Hrefs l x Hl (ic_vn _ _ _ _ _ Hc)).
    exists (set_opened <[l := (sv_ino v, vn_refcount x + 1)]> V). split; [|apply im_ref; [done..|lia]].
    left. exists (vn_refcount x). rw (im_handle _ _ _ _ _ _ _ _ _ Him Hl Hc). by subst n.
  - destruct (im_root _ _ _ _ _ _ Him) as (w & [Hd Hv Hw Hdir]).
    split; [apply Hq|]. split; [done|]. split; [by apply (kp_svs _ _ _ (q_kept _ _ _ Hq))|]. split; [apply Hq|].
    destruct r as [e|l].
    { destruct Hr as [-> Hok]. split; [done|]. exists I, L. by eapply im_quiet. }
    destruct Hr as (Hl & Hok & (dt & Hsv) & Hvn). rw insert_id // in Hok. exists I, (L ++ [l]).
    assert (opened V !! l = None) as Hlo by (by rw (im_opened _ _ _ _ _ _ Him) /handle decide_False).
    exists (set_opened <[l := (n, 1)]> V). split.
    { right. split; [|done]. intros l' r' Ho. destruct (im_open _ _ _ _ _ _ _ _ _ Him Ho) as (Hl' & v & x & Hc & Hn & _).
      by apply (Hno l' v Hl' (ic_sv _ _ _ _ _ Hc)). }
    pose proof (q_kept _ _ _ Hq) as [Hks Hkv]. destruct Him as [_ _ Hf Hdirs Hnm Hln Ho]. split; try done.
    + exists w. split; [apply elem_of_app; by left | by rw Hks | done |].
      eapply directory_contents; [done | apply same_sectors, Hq | done..].
    + intros n'. rw /= Hf. destruct (I !! n') as [i'|]; [|done]. simpl. symmetry. apply regular_same; [apply same_sectors, Hq|done..].
    + intros l'. simpl. destruct (decide (l' = l)) as [->|Hne].
      * rw lookup_insert_eq /handle decide_True ?Hsv ?Hvn //. apply elem_of_app. right. by apply list_elem_of_singleton.
      * rw lookup_insert_ne // Ho /handle. destruct (decide (l' ∈ L)) as [Hin|Hin].
        -- rw decide_True; [by rw Hks // Hkv|]. apply elem_of_app. by left.
        -- rw decide_False // not_elem_of_app list_elem_of_singleton. by split.
Qed.

(** A reference has been given up. *)
Lemma im_drop d C s I L V l v x s' :
  implements d C s I L V → l ∈ L → in_core s I l v x → sv_ino v ≠ SFS_ROOTDIR_INO → dropped s I L l v x s' →
  (C (sv_ino v) = 0 → ∀ name, fnames V !! name ≠ Some (sv_ino v)) →
  ∃ I' L' V', drop (C (sv_ino v)) V (sv_ino v) l V' ∧ implements d C s' I' L' V'.
Proof.
  intros Him Hl Hc Hne Hdr Hnames. pose proof (im_handle _ _ _ _ _ _ _ _ _ Him Hl Hc) as Hop.
  pose proof (ic_ref _ _ _ _ _ Hc) as Hr. pose proof (im_links _ _ _ _ _ _ Him _ _ (ic_inode _ _ _ _ _ Hc) Hne) as HC.
  destruct Hdr as [[Hx ->]|(Hx & L' & HL' & Hok' & Hk & Hkeep)].
  { exists I, L. eexists. split; [|apply im_ref; [done..|lia]]. exists (vn_refcount x). split; [done|]. by left. }
  exists (without v I), L'. eexists. split.
  { exists (vn_refcount x). split; [done|]. by right. }
  assert (∀ n, without v I !! n = if decide (n = sv_ino v ∧ C (sv_ino v) = 0) then None else I !! n) as HI.
  { intros n. rw /without HC. case_bool_decide as H0; [|by rw decide_False; [|by intros [_ ?]]].
    destruct (decide (n = sv_ino v)) as [->|Hn]; [by rw lookup_delete_eq decide_True|].
    rw lookup_delete_ne // decide_False //. by intros [? _]. }
  set (V1 := if bool_decide (C (sv_ino v) = 0) then set_files (delete (sv_ino v)) V else V).
  assert (∀ n, files V1 !! n = if decide (n = sv_ino v ∧ C (sv_ino v) = 0) then None else files V !! n) as HF.
  { intros n. rw /V1. case_bool_decide as H0; [|by rw decide_False; [|by intros [_ ?]]]. simpl.
    destruct (decide (n = sv_ino v)) as [->|Hn]; [by rw lookup_delete_eq decide_True|].
    rw lookup_delete_ne // decide_False //. by intros [? _]. }
  assert (fnames V1 = fnames V ∧ opened V1 = opened V) as [HN HO] by (rw /V1; by case_bool_decide).
  assert (∀ n i, without v I !! n = Some i → I !! n = Some i) as Hsub by (intros n i; rw HI; by destruct (decide (n = sv_ino v ∧ C (sv_ino v) = 0)) as [Hgo|Hgo]).
  assert (∀ n i, without v I !! n = Some i → same_contents (fs s) i (fs s') i) as Hcont.
  { intros n i Hi. destruct (Hkeep n i) as (i' & Hi' & _ & _ & Hsame); [|by apply Hsub|].
    - rw /unlinked HC. case_bool_decide as H0; [|done]. rw elem_of_singleton. intros ->. rw HI decide_True // in Hi.
    - by rw Hi in Hi'; injection Hi' as <-. }
  destruct Him as [Hok (w & [Hd Hv Hw Hdir]) Hf Hdirs Hnm Hln Ho]. split; rw /= ?HN; try done.
  - assert (d ∈ L') as HdL'. { apply HL'. split; [done|]. intros ->. rw (ic_sv _ _ _ _ _ Hc) in Hv. congruence. }
    assert (svs (fs s') !! d = Some w) as Hv' by (by rw (kp_svs _ _ _ Hk)).
    exists w. split; try done. destruct (ok_core _ _ _ _ _ Hok' HdL' Hv') as (xw & Hcw).
    eapply directory_contents; [done | exact (Hcont _ _ (ic_inode _ _ _ _ _ Hcw)) | done..].
  - intros n. rw HF Hf. destruct (without v I !! n) as [i|] eqn:Hi.
    + pose proof Hi as Hi'. rw HI in Hi'. destruct (decide (n = sv_ino v ∧ C (sv_ino v) = 0)) as [Hgo|Hgo]; [done|]. rw Hi' /=. symmetry. apply regular_same; [by eapply Hcont|done..].
    + rw HI in Hi. destruct (decide (n = sv_ino v ∧ C (sv_ino v) = 0)) as [Hgo|Hgo]; [done|]. by rw Hi.
  - intros n i Hi%Hsub. by apply Hdirs.
  - intros name n Hn. rw HF. rw decide_False; [by eapply Hnm|]. intros [-> H0]. by apply (Hnames H0 name).
  - intros n i Hi%Hsub. by apply Hln.
  - intros l'. rw HO. destruct (decide (l' = l)) as [->|Hn].
    + rw lookup_delete_eq /handle decide_False //. by intros [_ ?]%HL'.
    + rw lookup_delete_ne // Ho. rw /handle. destruct (decide (l' ∈ L)) as [Hin|Hin].
      * assert (l' ∈ L') as Hin' by (by apply HL'). by rw decide_True // (kp_svs _ _ _ Hk) // (kp_vnodes _ _ _ Hk).
      * rw decide_False //. by intros [? _]%HL'.
Qed.

(** ** One file changes *)

Lemma im_change d C s I L V l v f' v' D' C' :
  implements d C s I L V → l ∈ L → svs (fs s) !! l = Some v → changes s l v f' v' →
  (∃ w, root_at (set_fs f' s) L d D' w) → (∀ name n, D' !! name = Some n → is_Some (files V !! n)) →
  files V !! sv_ino v = regular f' (sv_i v') → (∀ n, n ≠ sv_ino v → C' n = C n) →
  (sv_ino v ≠ SFS_ROOTDIR_INO → sfi_linkcount (sv_i v') = C' (sv_ino v)) →
  implements d C' (set_fs f' s) (<[sv_ino v := sv_i v']> I) L (set_fnames (λ _, D') V).
Proof.
  intros [Hok _ Hf Hdirs Hnm Hln Ho] Hl Hv Hch Hroot HD' Hreg HC HC'.
  destruct (ok_core _ _ _ _ _ Hok Hl Hv) as (x & Hc). pose proof (ic_inode _ _ _ _ _ Hc) as Hi. split; try done.
  - by apply (so_change s I L l v).
  - intros n. simpl. destruct (decide (n = sv_ino v)) as [->|Hne]; [by rw lookup_insert_eq Hreg|].
    rw lookup_insert_ne // Hf. destruct (I !! n) as [i|] eqn:Hin; [|done]. simpl. symmetry.
    pose proof (so_changes_untouched s I L l v f' v' n i Hok Hl Hv Hch Hin Hne) as Hun.
    by apply regular_same; [apply Hun|..].
  - intros n i [[<- <-]|[Hne Hin]]%lookup_insert_Some; [|by apply Hdirs]. rw (ch_type _ _ _ _ _ Hch). by apply Hdirs.
  - intros n i [[<- <-]|[Hne Hin]]%lookup_insert_Some; [done|]. rw HC //. by apply Hln.
  - intros l'. rw /= Ho. rw /handle /= (ch_svs _ _ _ _ _ Hch). destruct (decide (l' = l)) as [->|Hne].
    + by rw lookup_insert_eq Hv /= (ch_ino _ _ _ _ _ Hch).
    + by rw lookup_insert_ne.
Qed.

(** Another set of names in the root directory. *)
Lemma im_rename d C s I L V v f' v' D' :
  implements d C s I L V → root_at s L d (fnames V) v → rewrites d (fs s) v f' v' → directory f' v' D' →
  (∀ name n, D' !! name = Some n → is_Some (files V !! n)) →
  ∃ I', implements d C (set_fs f' s) I' L (set_fnames (λ _, D') V).
Proof.
  intros Him [Hd Hv Hn Hdir] Hw Hdir' HD'. pose proof (im_ok _ _ _ _ _ _ Him) as Hok.
  pose proof (changes_rewrites s I L d v f' v' Hok Hd Hv Hw) as Hch. eexists. eapply im_change; try done.
  - exists v'. split; [done | by rw /= (w_svs _ _ _ _ _ Hw) lookup_insert_eq | by rw (w_ino _ _ _ _ _ Hw) | done].
  - rw /regular (w_type _ _ _ _ _ Hw) (d_type _ _ _ Hdir) bool_decide_eq_false_2 //.
    destruct (ok_core _ _ _ _ _ Hok Hd Hv) as (x & Hc).
    by rw (im_files _ _ _ _ _ _ Him) (ic_inode _ _ _ _ _ Hc) /= /regular (d_type _ _ _ Hdir) bool_decide_eq_false_2.
Qed.

(** Another link count of a file. *)
Definition recount (n c : Z) (C : Z → Z) : Z → Z := λ m, if decide (m = n) then c else C m.

Lemma im_relink d C s I L V l v c :
  implements d C s I L V → l ∈ L → svs (fs s) !! l = Some v → sv_ino v ≠ SFS_ROOTDIR_INO → 0 ≤ c < 2 ^ 16 →
  ∃ I', implements d (recount (sv_ino v) c C)
    (set_fs (set_svs <[l := SfsVnode (set_linkcount c (sv_i v)) (sv_ino v) true]> (fs s)) s) I' L V.
Proof.
  intros Him Hl Hv Hne Hc. pose proof (im_ok _ _ _ _ _ _ Him) as Hok. destruct (im_root _ _ _ _ _ _ Him) as (w & [Hd Hw Hn Hdir]).
  assert (V = set_fnames (λ _, fnames V) V) as HV by (by destruct V). rw HV. eexists. apply (im_change d C s I L V l v); try done.
  - by apply (changes_links s I L).
  - exists w. split; [done | | done | by eapply directory_contents]. rw /= lookup_insert_ne //. intros ->. congruence.
  - apply Him.
  - destruct (ok_core _ _ _ _ _ Hok Hl Hv) as (x & Hx). rw (im_files _ _ _ _ _ _ Him) (ic_inode _ _ _ _ _ Hx) /=. symmetry. by apply regular_same.
  - intros n Hn'. by rw /recount decide_False.
  - intros _. by rw /recount decide_True.
Qed.

(** A new file without a name. *)
Definition fresh (V : fsys) (n : Z) (l : loc) : fsys := set_files <[n := []]> (set_opened <[l := (n, 1)]> V).

Lemma im_new d C k s I L V l s' :
  implements d C s I L V → made_object k s I L (inr l) s' → (∀ n, (∀ name, fnames V !! name ≠ Some n) → C n = 0) →
  ∃ n I' L', files V !! n = None ∧ opened V !! l = None ∧ n ≠ SFS_ROOTDIR_INO ∧ implements d C s' I' L' (fresh V n l) ∧ l ∈ L' ∧
    svs (fs s') !! d = svs (fs s) !! d ∧ (∃ v, svs (fs s') !! l = Some v ∧ sv_ino v = n ∧ sfi_linkcount (sv_i v) = 0).
Proof.
  intros Him (Hv & Hk & Hrd & n & dt & Hnone & Hl & Hok' & Hsv & Hvn & Hkeep) HC.
  destruct Him as [Hok (w & [Hd Hw Hn Hdir]) Hf Hdirs Hnm Hln Ho]. exists n, (<[n := new_inode]> I), (L ++ [l]).
  destruct (ok_core _ _ _ _ _ Hok Hd Hw) as (xw & Hcw). pose proof (ic_inode _ _ _ _ _ Hcw) as Hroot.
  assert (n ≠ SFS_ROOTDIR_INO) as Hn1 by (intros ->; congruence).
  assert (files V !! n = None) as HVn by (by rw Hf Hnone).
  assert (∀ m i, I !! m = Some i → same_contents (fs s) i (fs s') i) as Hsame.
  { intros m i Hi. destruct (Hkeep m i ltac:(done) Hi) as (i' & Hi' & _ & _ & Hs).
    rw lookup_insert_ne in Hi'; [by rw Hi in Hi'; injection Hi' as <- | congruence]. }
  assert (opened V !! l = None) as HVl by (by rw Ho /handle decide_False).
  assert (l ∈ L ++ [l]) as HlL by (apply elem_of_app; right; by apply list_elem_of_singleton).
  assert (svs (fs s') !! d = svs (fs s) !! d) as Hdd by (by apply (kp_svs _ _ _ Hk)).
  do 3 (split; [done|]). split; [|split; [done|split; [done|by exists (SfsVnode new_inode n dt)]]]. split; try done.
  - exists w. split; [apply elem_of_app; by left | by rw Hdd | done|]. eapply directory_contents; [done | by eapply Hsame | done..].
  - intros m. simpl. destruct (decide (m = n)) as [->|Hne]; [by rw !lookup_insert_eq|].
    rw !lookup_insert_ne // Hf. destruct (I !! m) as [i|] eqn:Hm; [|done]. simpl. symmetry. apply regular_same; [by eapply Hsame|done..].
  - intros m i [[<- <-]|[Hne Hi]]%lookup_insert_Some; [done|by apply Hdirs].
  - intros name m Hm. simpl. rw lookup_insert_ne; [by eapply Hnm|]. intros ->. apply Hnm in Hm. rw HVn in Hm. by destruct Hm.
  - intros m i [[<- <-]|[Hne Hi]]%lookup_insert_Some Hm; [|by apply Hln]. rw HC //. intros name Hname%Hnm. rw HVn in Hname. by destruct Hname.
  - intros l'. simpl. destruct (decide (l' = l)) as [->|Hne].
    + by rw lookup_insert_eq /handle decide_True // Hsv Hvn.
    + rw lookup_insert_ne // Ho. symmetry. destruct (decide (l' ∈ L)) as [Hin|Hin].
      * apply handle_kept; [rw elem_of_app; tauto | by apply (kp_svs _ _ _ Hk) | by apply (kp_vnodes _ _ _ Hk)].
      * rw /handle !decide_False // elem_of_app list_elem_of_singleton. by intros [?|?].
Qed.
