(* ===== verification/SfsNamespace.v ===== *)
(** * The operations on names of SFS, under the VFS lock

    What [sfs_lookonce], [sfs_creat], [sfs_link], [sfs_remove] and [sfs_rename]
    of kern/fs/sfs do to the abstract file system of SfsSpace.v. *)

From stdpp Require Import base tactics list gmap option numbers ssreflect.
From S2P Require Import Prelude Kern.
From S2P Require Import Uio Lhd Bitmap Array Sfs SfsFacts SfsTrunc SfsThms SfsDir SfsNames SfsDirThms SfsVnode SfsVops SfsCore SfsLoad SfsReclaim SfsSpace.

Open Scope Z_scope.

(** ** Running under the lock *)

(** The link counts that agree with the names. *)
Notation counts V := (nlinks (fnames V)).

(** The operation that started in [s0] has the lock and the volume stands for [V]. *)
Record running (d : loc) (C : Z → Z) (k : nat) (s0 s : state) (V : fsys) : Prop := {
  rn_im : ∃ I L, implements d C s I L V;
  rn_env : venv (vlocked s0) s;
  rn_ready : ready k (fs s)
}.

(** References can still be counted. *)
Definition refs_ok (V : fsys) : Prop := ∀ l n r, opened V !! l = Some (n, r) → r < 2 ^ 31 - 1.

(** The entry for [name] is in slot [j]. *)
Definition slot_at (d : loc) (s : state) (j : nat) (name : list Z) (n : Z) : Prop :=
  ∃ w e, svs (fs s) !! d = Some w ∧ slots (fs s) (sv_i w) !! j = Some e ∧ holds_name e name n.

(** The most disk operations a search of the directory takes. *)
Definition search : nat := Z.to_nat 4576.

Lemma lock_ok_same n s s' I L : lock_ok n (fs s) → venv s s' → sfs_ok s' I L → lock_ok n (fs s').
Proof.
  intros [[[(l & q & Hp & _ & Hq & Hn) H0]|[Hh Hd]] Hn'] Hv Hs; pose proof Hv as [Hl Hdep Hlks Hme _ _ _].
  - split; [|by rw Hdep]. left. split; [|by rw Hdep]. exists l, q. split; [by rw Hl|]. rw /base_of /= in Hlks, Hq |- *.
    split; [|by rw Hlks]. apply (hp_live _ _ (tb_heap _ _ _ (so_table _ _ _ Hs))). rw /anchors Hl Hp. by left.
  - split; [|by rw Hdep]. right. split; [by eapply venv_held | by rw Hdep].
Qed.

Lemma ready_slots k f v D : directory f v D → ready (search + k) f → ready (4 * nslots (sv_i v) + k) f.
Proof.
  intros Hd. pose proof (nslots_bound _ _ _ Hd). apply ready_le. rw /search. lia.
Qed.

Section names.
Context `{!Hardware} (d : loc) (s0 : state) (Hlk : lock_ok 2 (fs s0)).

Lemma running_lock C k s V : running d C k s0 s V → held (fs s) ∧ lock_ok 1 (fs s).
Proof.
  intros [(I & L & Him) Hv _]. destruct (lock_ok_locked 1 (fs s0) ltac:(done) Hlk) as [Hlk1 Hh1].
  pose proof (lock_ok_venv 1 (vlocked s0) s I L Hlk1 Hh1 Hv (im_ok _ _ _ _ _ _ Him)). tauto.
Qed.

Lemma running_le C k k' s V : (k' ≤ k)%nat → running d C k s0 s V → running d C k' s0 s V.
Proof. intros Hk [Him Hv Hrd]. split; [done..|]. by eapply ready_le. Qed.

Lemma refs_ok_small C s I L V : implements d C s I L V → refs_ok V → refs_small s L.
Proof.
  intros Him Hr l x Hl Hx. destruct (tb_core _ _ _ (so_table _ _ _ (im_ok _ _ _ _ _ _ Him)) l Hl) as (v & x' & Hc).
  pose proof (ic_vn _ _ _ _ _ Hc). simplify_eq. apply (Hr l (sv_ino v)). by eapply im_handle.
Qed.

(** A reference to a file. *)
Lemma load_step k s V n b (Q : Z + loc → state → Prop) :
  running d (counts V) (S k) s0 s V → refs_ok V → files V !! n = Some b →
  (∀ s', running d (counts V) k s0 s' V → Q (inl ENOMEM) s') →
  (∀ l V' s', hold V n l V' → running d (counts V) k s0 s' V' → svs (fs s') !! d = svs (fs s) !! d →
     sectors (sfs_device (fs s')) = sectors (sfs_device (fs s)) → Q (inr l) s') →
  wp (sfs_loadvnode n SFS_TYPE_INVAL) Q s.
Proof.
  intros Hrun Hrefs Hn HE HQ. destruct (running_lock _ _ _ _ Hrun) as [Hh _]. destruct Hrun as [(I & L & Him) Hv Hrd].
  destruct (im_file _ _ _ _ _ _ _ _ Him Hn) as (i & Hi & _). pose proof (refs_ok_small _ _ _ _ _ Him Hrefs) as Hsm.
  eapply wp_mono; [by apply (loadvnode_spec k s I L n i); [apply Him|..]|]. intros r s' Hf.
  destruct (im_hold _ _ _ _ _ _ _ _ _ _ _ Him Hsm Hi Hf) as (Hv' & Hrd' & Hd & Hsec & Hr). destruct r as [e|l].
  - destruct Hr as [-> HIL]. apply HE. split; [done | by etrans | done].
  - destruct Hr as (I' & L' & V' & Hhold & Him'). apply (HQ l V'); try done. split; [by exists I', L' | by etrans | done].
Qed.

(** The search of the directory. *)
Lemma find_step k s V name (Q : Z * found_name → state → Prop) :
  running d (counts V) (search + k) s0 s V →
  (∀ r s', running d (counts V) k s0 s' V →
    match fnames V !! name with
    | Some n => r.1 = 0 ∧ f_ino r.2 = Some n ∧ ∃ j, f_slot r.2 = Some (Z.of_nat j) ∧ slot_at d s' j name n
    | None => r.1 = ENOENT
    end → Q r s') →
  wp (on_fs (sfs_dir_findname d name)) Q s.
Proof.
  intros Hrun HQ. destruct (running_lock _ _ _ _ Hrun) as [Hh _]. destruct Hrun as [(I & L & Him) Hv Hrd].
  destruct (im_dir _ _ _ _ _ _ Him Hh) as (v & Hr & Ho & Ht). apply wp_on_fs.
  eapply wp_mono; [apply (findname_spec d k (fs s) v (fnames V)); [done | apply Hr | by eapply ready_slots; [apply Hr|]]|].
  intros r f ([Hres _] & Hread & Hrd'). destruct (so_read s I L f (im_ok _ _ _ _ _ _ Him) Hread) as [Hok Hq].
  apply HQ.
  - split; [exists I, L; by eapply im_quiet | etrans; [exact Hv | apply Hq] | done].
  - destruct (fnames V !! name) as [n|]; [|done]. destruct Hres as (? & ? & j & e & ? & Hj & He). split; [done|]. split; [done|].
    exists j. split; [done|]. exists v, e. split; [by rw (kp_svs _ _ _ (q_kept _ _ _ Hq)) ; apply Hr|].
    split; [|done]. rw -Hj. f_equal. apply (slots_same (fs s)); [|done]. apply same_sectors, Hq.
Qed.

Lemma slot_kept s s' j name n :
  slot_at d s j name n → svs (fs s') !! d = svs (fs s) !! d → sectors (sfs_device (fs s')) = sectors (sfs_device (fs s)) →
  slot_at d s' j name n.
Proof.
  intros (w & e & Hw & Hj & He) Hd Hs. exists w, e. split; [by rw Hd|]. split; [|done]. rw -Hj. f_equal.
  apply (slots_same (fs s)); [|done]. by apply same_sectors.
Qed.

(** Reading the inode of an open vnode. *)
Lemma load_open_step C k s V l n r (Q : sfs_vnode → state → Prop) :
  running d C k s0 s V → opened V !! l = Some (n, r) →
  (∀ v, svs (fs s) !! l = Some v → sv_ino v = n → (∃ I L x, implements d C s I L V ∧ l ∈ L ∧ in_core s I l v x ∧ vn_refcount x = r) → Q v s) →
  wp (on_fs (load_sv l)) Q s.
Proof.
  intros [(I & L & Him) _ _] Ho HQ. destruct (im_open _ _ _ _ _ _ _ _ _ Him Ho) as (Hl & v & x & Hc & Hn & Hr).
  eapply load_sv_ok; [apply Him | done | apply Hc |]. apply HQ; [apply Hc | done|]. by exists I, L, x.
Qed.

Lemma hold_opened V n l V' : hold V n l V' → ∃ r, opened V' !! l = Some (n, r).
Proof. intros [(r & _ & ->)|(_ & _ & ->)]; eexists; apply lookup_insert_eq. Qed.

Lemma hold_same V n l V' : hold V n l V' → fnames V' = fnames V ∧ files V' = files V.
Proof. by intros [(r & _ & ->)|(_ & _ & ->)]. Qed.

Lemma drop_same c V n l V' : drop c V n l V' → fnames V' = fnames V.
Proof. intros (r & _ & [[_ ->]|[_ ->]]); [done|]. simpl. by case_bool_decide. Qed.

(** The outcome of looking a name up. *)
Definition looked_up (V : fsys) (name : list Z) (r : Z + loc) (V' : fsys) : Prop :=
  match fnames V !! name with
  | None => r = inl ENOENT ∧ V' = V
  | Some n => r = inl ENOMEM ∧ V' = V ∨ ∃ l, r = inr l ∧ hold V n l V'
  end.

Lemma lookonce_step k s V name (Q : Z + loc * Z → state → Prop) :
  running d (counts V) (search + S k) s0 s V → refs_ok V →
  (∀ e s', running d (counts V) k s0 s' V → looked_up V name (inl e) V → Q (inl e) s') →
  (∀ l n j s' V', running d (counts V) k s0 s' V' → fnames V !! name = Some n → hold V n l V' → slot_at d s' j name n →
    Q (inr (l, Z.of_nat j)) s') →
  wp (sfs_lookonce d name) Q s.
Proof.
  intros Hrun Hrefs HE HQ. rw /sfs_lookonce. wp_step. apply (find_step (S k) s V name); [done|].
  intros [res f] s1 Hrun1 Hres. simpl in Hres. rw /looked_up in HE. destruct (fnames V !! name) as [n|] eqn:HD.
  - destruct Hres as (-> & Hino & j & Hslot & Hat). rw bool_decide_eq_false_2; [|by intros []].
    wp_step. eapply wp_deref; [done|]. wp_step. eapply wp_deref; [done|].
    pose proof Hrun1 as [(I & L & Him) Hv1 _]. destruct (im_names _ _ _ _ _ _ Him name n HD) as [b Hb].
    wp_step. apply (load_step k s1 V n b); [done..| |].
    + intros s2 Hrun2. wp_step. apply HE; [done | by left].
    + intros l V2 s2 Hhold Hrun2 Hdd Hsec. destruct (hold_opened _ _ _ _ Hhold) as [r Ho].
      wp_step. eapply (load_open_step _ k s2 V2 l n r); [done..|]. intros v Hv Hn (I3 & L3 & x & Him3 & Hl & Hc & _).
      rw bool_decide_eq_false_2; [|].
      * apply wp_ret. eapply (HQ l n j s2 V2); [done..|]. by eapply slot_kept.
      * destruct (im_file _ _ _ _ _ _ _ _ Him Hb) as (_ & _ & _ & _ & Hne).
        rw (im_links _ _ _ _ _ _ Him3 _ _ (ic_inode _ _ _ _ _ Hc)); [|congruence].
        pose proof (nlinks_pos (fnames V) name n HD). rw Hn. lia.
  - subst res. rw bool_decide_eq_true_2; [|done]. wp_step. apply HE; [|done]. by eapply running_le; [|done]; lia.
Qed.

(** A new file. *)
Lemma make_step k s V (Q : Z + loc → state → Prop) :
  running d (counts V) (2 + k) s0 s V → refs_ok V →
  (∀ e s', e = ENOSPC ∨ e = ENOMEM → running d (counts V) k s0 s' V → Q (inl e) s') →
  (∀ l n s', files V !! n = None → opened V !! l = None → n ≠ SFS_ROOTDIR_INO → counts V n = 0 →
     running d (counts V) k s0 s' (fresh V n l) → Q (inr l) s') →
  wp (sfs_makeobj SFS_TYPE_FILE) Q s.
Proof.
  intros Hrun Hrefs HE HQ. destruct (running_lock _ _ _ _ Hrun) as [Hh _]. destruct Hrun as [(I & L & Him) Hv Hrd].
  pose proof (refs_ok_small _ _ _ _ _ Him Hrefs) as Hsm.
  eapply wp_mono; [by apply (makeobj_spec k s I L); [apply Him|..]|]. intros r s' Hmade. destruct r as [e|l].
  - destruct Hmade as (Hv' & Hk & Hrd' & He & Hok & Hkeep). apply HE; [done|]. split; [|by etrans|done].
    exists I, L. eapply im_keeps; [done..|]. intros n i Hi. destruct (Hkeep n i ltac:(done) Hi) as (i' & Hi' & _ & _ & Hs).
    rw Hi in Hi'. by injection Hi' as <-.
  - destruct (im_new d (counts V) k s I L V l s' Him Hmade) as (n & I' & L' & Hn & Hl & Hne & Him' & _).
    { intros n. apply nlinks_none. }
    apply (HQ l n); try done; [|split; [by exists I', L' | etrans; [exact Hv | apply Hmade] | apply Hmade]].
    apply nlinks_none. intros name Hname. destruct (im_names _ _ _ _ _ _ Him name n Hname). congruence.
Qed.

(** ** Beginning and end *)

Lemma begin_step C k V (Q : unit → state → Prop) :
  (∃ I L, implements d C s0 I L V) → ready k (fs s0) → (running d C k s0 (vlocked s0) V → Q tt (vlocked s0)) →
  wp (on_fs vfs_biglock_acquire) Q s0.
Proof.
  intros (I & L & Him) Hrd HQ. pose proof (proj1 Hlk) as Hb. apply wp_vfs_acquire; [done|]. apply HQ.
  destruct (locked_same _ Hb) as (_ & _ & _ & _ & _ & Hdev & Hsvs & _). split; [|done | by rw /ready /= Hdev].
  exists I, L. eapply im_calm; [done | by apply so_locked; [|apply Him] | split; intros; by rw /= ?Hsvs | by rw /= Hdev].
Qed.

(** The operation has come back: it did what it did to [V], and the lock is as before. *)
Record back (k : nat) (s' : state) (V : fsys) : Prop := {
  bk_im : ∃ I L, implements d (counts V) s' I L V;
  bk_env : venv s0 s';
  bk_ready : ready k (fs s')
}.

Lemma end_step {A} (a : A) k s V (Q : A → state → Prop) :
  running d (counts V) k s0 s V → (∀ s', back k s' V → Q a s') → wp (return_unlocked a) Q s.
Proof.
  intros [(I & L & Him) Hv Hrd] HQ. pose proof (proj1 Hlk) as Hb. pose proof (im_ok _ _ _ _ _ _ Him) as Hok.
  rw /return_unlocked. wp_step. eapply (wp_vfs_release s0); [done | done | exact Hok |]. wp_step. apply HQ.
  split; [|by apply venv_locked|done]. exists I, L. by eapply im_calm; [| apply so_unlocked | |].
Qed.

(** ** Changes of the directory *)

Definition link_error (V : fsys) (name : list Z) (e : Z) : Prop :=
  e = EEXIST ∧ is_Some (fnames V !! name) ∨
  fnames V !! name = None ∧ (e = ENAMETOOLONG ∧ (SFS_NAMELEN ≤ length name)%nat ∨ e = ENOSPC ∨ e = EFBIG).

Lemma link_step C k s V name n b (Q : Z * option Z → state → Prop) :
  running d C (search + (5 + k)) s0 s V → name_ok name → files V !! n = Some b →
  (∀ e o s', running d C k s0 s' V → link_error V name e → Q (e, o) s') →
  (∀ z s', running d C k s0 s' (set_fnames <[name := n]> V) → fnames V !! name = None → (length name < SFS_NAMELEN)%nat →
     (∀ j nm m, slot_at d s j nm m → slot_at d s' j nm m) → Q (0, Some z) s') →
  wp (on_fs (sfs_dir_link d name n)) Q s.
Proof.
  intros Hrun Hn Hb HE HQ. destruct (running_lock _ _ _ _ Hrun) as [Hh _]. destruct Hrun as [(I & L & Him) Hv Hrd].
  destruct (im_dir _ _ _ _ _ _ Him Hh) as (v & Hr & Ho & Ht). destruct (im_file _ _ _ _ _ _ _ _ Him Hb) as (i & Hi & _ & _ & _).
  destruct (fi_inode _ _ (so_files _ _ _ (im_ok _ _ _ _ _ _ Him)) _ _ Hi) as ([Hpos _] & _). apply wp_on_fs.
  eapply wp_mono; [apply (dir_link_spec d k (fs s) v (fnames V) name n); [done | apply Hr | by eapply ready_slots; [apply Hr|] | done..]|].
  intros [e o] f [[(He & [z Hz] & HD & Hlen & v' & Hw & Hd' & Hsl)|((v' & Hw & Hd') & He)] Hrd']; simpl in *.
  - subst e o. destruct (im_rename _ _ _ _ _ _ _ _ _ _ Him Hr Hw Hd') as [I' Him'].
    { intros nm m. rw lookup_insert_Some. intros [[_ <-]|[_ Hm]]; [by eexists | by eapply im_names]. }
    apply HQ; [|done|done|].
    + split; [by exists I', L | etrans; [exact Hv | apply venv_fs, Hw] | done].
    + intros j nm m (w & e & Hw' & Hj & Hhn). assert (w = v) as -> by (pose proof (ra_vnode _ _ _ _ _ Hr); congruence).
      exists v', e. split; [by rw /= (w_svs _ _ _ _ _ Hw) lookup_insert_eq|]. split; [|done]. apply Hsl; [done|].
      destruct Hhn as (-> & ? & _). done.
  - destruct (im_rename _ _ _ _ _ _ _ _ _ _ Him Hr Hw Hd') as [I' Him']; [by apply Him|].
    apply HE.
    + split; [exists I', L; by destruct V | etrans; [exact Hv | apply venv_fs, Hw] | done].
    + destruct He as [?|[? [?|[?|[? _]]]]]; [by left | right; tauto..].
Qed.

Lemma unlink_step C k s V name n j (Q : Z → state → Prop) :
  running d C (5 + k) s0 s V → slot_at d s j name n →
  (∀ s', running d C k s0 s' (set_fnames (delete name) V) → Q 0 s') →
  wp (on_fs (sfs_dir_unlink d (Z.of_nat j))) Q s.
Proof.
  intros Hrun (w & e & Hw & Hj & He) HQ. destruct (running_lock _ _ _ _ Hrun) as [Hh _]. destruct Hrun as [(I & L & Him) Hv Hrd].
  destruct (im_dir _ _ _ _ _ _ Him Hh) as (v & Hr & Ho & Ht).
  assert (w = v) as -> by (pose proof (ra_vnode _ _ _ _ _ Hr); congruence). apply wp_on_fs.
  eapply wp_mono; [apply (dir_unlink_spec d k (fs s) v (fnames V) name n j e); [done | apply Hr | done..]|].
  intros r f (-> & (v' & Hw' & Hd') & Hrd'). destruct (im_rename _ _ _ _ _ _ _ _ _ _ Him Hr Hw' Hd') as [I' Him'].
  { intros nm m [_ Hm]%lookup_delete_Some. by eapply im_names. }
  apply HQ. split; [by exists I', L | etrans; [exact Hv | apply venv_fs, Hw'] | done].
Qed.

(** ** Link counts and references *)

Lemma running_ext C C' k s V : running d C k s0 s V → (∀ n, C' n = C n) → running d C' k s0 s V.
Proof.
  intros [(I & L & []) Hv Hrd] HC. split; [|done..]. exists I, L. split; try done. intros n i. rw HC. auto.
Qed.

(** The inode of an open file gets another link count. *)
Lemma relink_step C k s V l n r c v (Q : unit → state → Prop) :
  running d C k s0 s V → opened V !! l = Some (n, r) → n ≠ SFS_ROOTDIR_INO → svs (fs s) !! l = Some v → 0 ≤ c < 2 ^ 16 →
  (∀ s', running d (recount n c C) k s0 s' V → (∀ j nm m, slot_at d s j nm m → slot_at d s' j nm m) → Q tt s') →
  wp (on_fs (upd_inode l (set_linkcount c))) Q s.
Proof.
  intros [(I & L & Him) Hv Hrd] Ho Hn Hsv Hc HQ. destruct (im_open _ _ _ _ _ _ _ _ _ Him Ho) as (Hl & v' & x & Hcore & Hn' & Hr).
  assert (v' = v) as -> by (pose proof (ic_sv _ _ _ _ _ Hcore); congruence). subst n.
  destruct (im_relink d C s I L V l v c Him Hl Hsv) as [I' Him']; [done..|].
  apply wp_on_fs. apply (wp_upd_inode _ _ v); [by eapply ok_live_fs; [apply Him|] | done |].
  apply HQ; [split; [by exists I', L | by etrans; [exact Hv | apply venv_fs] | done]|].
  intros j nm m Hat. apply (slot_kept s); [done| |done]. rw /= lookup_insert_ne //. intros ->.
  destruct (im_root _ _ _ _ _ _ Him) as (w & [_ Hw Hroot _]). congruence.
Qed.

(** The link count of an open file. *)
Lemma open_links C k s V l n r v :
  running d C k s0 s V → opened V !! l = Some (n, r) → n ≠ SFS_ROOTDIR_INO → svs (fs s) !! l = Some v → sfi_linkcount (sv_i v) = C n.
Proof.
  intros [(I & L & Him) _ _] Ho Hn Hsv. destruct (im_open _ _ _ _ _ _ _ _ _ Him Ho) as (Hl & v' & x & Hc & <- & _).
  assert (v' = v) as -> by (pose proof (ic_sv _ _ _ _ _ Hc); congruence).
  by apply (im_links _ _ _ _ _ _ Him _ _ (ic_inode _ _ _ _ _ Hc)).
Qed.

Lemma add_link_step C k s V l n r (Q : unit → state → Prop) :
  running d C k s0 s V → opened V !! l = Some (n, r) → n ≠ SFS_ROOTDIR_INO → 0 ≤ C n < 2 ^ 16 - 1 →
  (∀ s', running d (recount n (C n + 1) C) k s0 s' V → (∀ j nm m, slot_at d s j nm m → slot_at d s' j nm m) → Q tt s') →
  wp (add_link l) Q s.
Proof.
  intros Hrun Ho Hn Hc HQ. rw /add_link. wp_step. eapply load_open_step; [done..|]. intros v Hv _ _.
  rw (open_links _ _ _ _ _ _ _ _ Hrun Ho Hn Hv) u16_small; [|lia]. by eapply relink_step; [..|lia|].
Qed.

Lemma drop_link_step C k s V l n r (Q : unit → state → Prop) :
  running d C k s0 s V → opened V !! l = Some (n, r) → n ≠ SFS_ROOTDIR_INO → 0 < C n < 2 ^ 16 →
  (∀ s', running d (recount n (C n - 1) C) k s0 s' V → Q tt s') → wp (drop_link l) Q s.
Proof.
  intros Hrun Ho Hn Hc HQ. rw /drop_link. wp_step. eapply load_open_step; [done..|]. intros v Hv _ _.
  rw (open_links _ _ _ _ _ _ _ _ Hrun Ho Hn Hv). wp_step. apply wp_kassert; [apply bool_decide_eq_true_2; lia|].
  rw u16_small; [|lia]. eapply relink_step; [done..|lia|]. auto.
Qed.

Lemma drop_step C k s V l n r (Q : unit → state → Prop) :
  running d C (3 + k) s0 s V → opened V !! l = Some (n, r) → n ≠ SFS_ROOTDIR_INO →
  (C n = 0 → ∀ name, fnames V !! name ≠ Some n) →
  (∀ s' V', running d C k s0 s' V' → drop (C n) V n l V' → Q tt s') →
  wp (vnode_decref l) Q s.
Proof.
  intros Hrun Ho Hn HC HQ. destruct (running_lock _ _ _ _ Hrun) as [_ Hl1]. destruct Hrun as [(I & L & Him) Hv Hrd].
  destruct (im_open _ _ _ _ _ _ _ _ _ Him Ho) as (Hl & v & x & Hc & Hn' & Hr). subst n.
  eapply wp_mono; [apply (decref_spec k s I L l v x); [apply Him | done..]|].
  intros [] s' (Hv' & Hrd' & Hdr). destruct (im_drop d C s I L V l v x s' Him Hl Hc Hn Hdr HC) as (I' & L' & V' & Hd & Him').
  apply (HQ s' V'); [|done]. split; [by exists I', L' | by etrans | done].
Qed.
End names.
