(* ===== verification/SfsFlat.v ===== *)
(** * SFS is a flat file system

    The operations on names, from the vnode operation to the release of the VFS
    lock, refine operations on the abstract file system of SfsSpace.v. *)

From stdpp Require Import base tactics list gmap option numbers ssreflect.
From S2P Require Import Prelude Kern.
From S2P Require Import Uio Lhd Bitmap Array Sfs SfsFacts SfsTrunc SfsThms SfsDir SfsNames SfsDirThms SfsVnode SfsVops SfsCore SfsLoad SfsReclaim SfsSpace SfsNamespace.

Open Scope Z_scope.

(** ** The abstract operations *)

(** A file without a name is open. *)
Definition no_orphans (V : fsys) : Prop := ∀ n b, files V !! n = Some b → counts V n = 0 → ¬ closed V n.

(** A file without a name that nobody has open goes. *)
Definition forgotten (V : fsys) (n : Z) (V' : fsys) : Prop :=
  counts V n = 0 ∧ closed V n ∧ V' = set_files (delete n) V ∨ (counts V n ≠ 0 ∨ ¬ closed V n) ∧ V' = V.

Definition created (V : fsys) (name : list Z) (excl : bool) (r : Z + loc) (V' : fsys) : Prop :=
  match fnames V !! name with
  | Some n =>
      if excl then r = inl EEXIST ∧ V' = V
      else r = inl ENOMEM ∧ V' = V ∨ ∃ l, r = inr l ∧ hold V n l V'
  | None =>
      (∃ e, r = inl e ∧ V' = V ∧ (e = ENOMEM ∨ e = ENOSPC ∨ e = EFBIG ∨ e = ENAMETOOLONG ∧ (SFS_NAMELEN ≤ length name)%nat)) ∨
      ∃ n l, r = inr l ∧ (length name < SFS_NAMELEN)%nat ∧ files V !! n = None ∧ opened V !! l = None ∧
        V' = set_fnames <[name := n]> (fresh V n l)
  end.

(** [n] gets another name. *)
Definition named_too (V : fsys) (name : list Z) (n : Z) (r : Z) (V' : fsys) : Prop :=
  link_error V name r ∧ V' = V ∨
  r = 0 ∧ fnames V !! name = None ∧ (length name < SFS_NAMELEN)%nat ∧ V' = set_fnames <[name := n]> V.

Definition removed (V : fsys) (name : list Z) (r : Z) (V' : fsys) : Prop :=
  match fnames V !! name with
  | None => r = ENOENT ∧ V' = V
  | Some n => r = ENOMEM ∧ V' = V ∨ r = 0 ∧ forgotten (set_fnames (delete name) V) n V'
  end.

Definition renamed (V : fsys) (n1 n2 : list Z) (r : Z) (V' : fsys) : Prop :=
  match fnames V !! n1 with
  | None => r = ENOENT ∧ V' = V
  | Some n =>
      (r = ENOMEM ∨ link_error V n2 r) ∧ V' = V ∨
      r = 0 ∧ fnames V !! n2 = None ∧ (length n2 < SFS_NAMELEN)%nat ∧ V' = set_fnames (λ D, delete n1 (<[n2 := n]> D)) V
  end.

(** ** References taken and given up *)

Definition refs_pos (V : fsys) : Prop := ∀ l n r, opened V !! l = Some (n, r) → 1 ≤ r.

Lemma hold_names V n l V' f : hold V n l V' → hold (set_fnames f V) n l (set_fnames f V').
Proof. intros [(r & Hr & ->)|(Hc & Hl & ->)]; [left; by exists r | right; done]. Qed.

Lemma hold_drop V n l V1 c V2 :
  refs_pos V → hold V n l V1 → drop c V1 n l V2 →
  c = 0 ∧ closed V n ∧ V2 = set_files (delete n) V ∨ (c ≠ 0 ∨ ¬ closed V n) ∧ V2 = V.
Proof.
  intros Hpos [(r & Hr & ->)|(Hcl & Hl & ->)] (r' & Hr' & Hd); rw /= lookup_insert_eq in Hr'; injection Hr' as <-.
  - right. pose proof (Hpos _ _ _ Hr). destruct Hd as [[_ ->]|[? _]]; [|lia]. split; [right; by intros Hcl; apply (Hcl l r)|].
    rw /set_opened /= insert_insert_eq. replace (r + 1 - 1) with r by lia. rw insert_id //. by destruct V.
  - destruct Hd as [[? _]|[_ ->]]; [lia|]. case_bool_decide as H0.
    + left. split; [done|]. split; [done|]. by rw /set_opened /set_files /= delete_insert_id.
    + right. split; [by left|]. rw /set_opened /= delete_insert_id //. by destruct V.
Qed.

Lemma hold_no_orphans V n l V' : no_orphans V → hold V n l V' → no_orphans V'.
Proof.
  intros Hno Hh m b. destruct (hold_same _ _ _ _ Hh) as [-> ->]. intros Hm H0 Hcl. apply (Hno m b Hm H0). intros l' r' Hl'.
  destruct Hh as [(r & Hr & ->)|(_ & Hl & ->)].
  - destruct (decide (l' = l)) as [->|Hne].
    + rw Hr in Hl'. injection Hl' as <- <-. eapply (Hcl l). apply lookup_insert_eq.
    + apply (Hcl l' r'). by rw /= lookup_insert_ne.
  - apply (Hcl l' r'). rw /= lookup_insert_ne //. congruence.
Qed.

Lemma drop_no_orphans V n l V' : no_orphans V → drop (counts V n) V n l V' → no_orphans V'.
Proof.
  intros Hno (r & Hr & Hd) m b.
  assert (∀ V1, fnames V1 = fnames V → opened V1 = opened V → files V1 !! m = Some b → files V !! m = Some b →
    counts V1 m = 0 → m ≠ n → ¬ closed (set_opened (delete l) V1) m) as Hother.
  { intros V1 HN HO Hm Hm' H0 Hne Hcl. rw HN in H0. apply (Hno m b Hm' H0). intros l' r' Hl'.
    apply (Hcl l' r'). rw /= HO lookup_delete_ne //. intros <-. congruence. }
  destruct Hd as [[Hr1 ->]|[-> ->]].
  - intros Hm H0 Hcl. apply (Hno m b Hm H0). intros l' r' Hl'. destruct (decide (l' = l)) as [->|Hne].
    + rw Hr in Hl'. injection Hl' as <- <-. eapply (Hcl l). apply lookup_insert_eq.
    + apply (Hcl l' r'). by rw /= lookup_insert_ne.
  - case_bool_decide as Hc; simpl.
    + intros [Hne Hm]%lookup_delete_Some H0. apply (Hother (set_files (delete n) V)); try done. by rw /= lookup_delete_ne.
    + intros Hm H0. apply (Hother V); try done. congruence.
Qed.

(** More names, and the same files and vnodes. *)
Lemma names_no_orphans V D :
  no_orphans V → (∀ n, nlinks D n = 0 → counts V n = 0) → no_orphans (set_fnames (λ _, D) V).
Proof. intros Hno HD n b Hn H0. apply (Hno n b Hn). by apply HD. Qed.

Lemma insert_no_orphans V name n :
  no_orphans V → fnames V !! name = None → no_orphans (set_fnames <[name := n]> V).
Proof.
  intros Hno HD. apply (names_no_orphans V (<[name := n]> (fnames V))); [done|]. intros m. rw nlinks_insert //.
  pose proof (nlinks_nonneg (fnames V) m). case_bool_decide; lia.
Qed.

Lemma forgotten_no_orphans V name n V' :
  no_orphans V → fnames V !! name = Some n → forgotten (set_fnames (delete name) V) n V' → no_orphans V'.
Proof.
  intros Hno HD Hf m b.
  assert (∀ m, m ≠ n → nlinks (delete name (fnames V)) m = counts V m) as Hsame.
  { intros m' Hne. rw (nlinks_delete _ _ n) // bool_decide_eq_false_2 //. lia. }
  destruct Hf as [(H0 & Hcl & ->)|[Hor ->]]; simpl in *.
  - intros [Hne Hm]%lookup_delete_Some. rw Hsame; [|congruence]. by apply (Hno m b).
  - intros Hm H0 Hcl. destruct (decide (m = n)) as [->|Hne]; [by destruct Hor as [?|[]]|].
    rw Hsame // in H0. by apply (Hno m b).
Qed.

Lemma renamed_counts D n1 n2 n m :
  D !! n1 = Some n → D !! n2 = None → nlinks (delete n1 (<[n2 := n]> D)) m = nlinks D m.
Proof.
  intros H1 H2. rw (nlinks_delete _ _ n); [rw nlinks_insert //; lia|]. rw lookup_insert_ne //. congruence.
Qed.

Lemma created_no_orphans V name n l :
  no_orphans V → fnames V !! name = None → opened V !! l = None → no_orphans (set_fnames <[name := n]> (fresh V n l)).
Proof.
  intros Hno HD Hl m b. simpl. rw nlinks_insert //. pose proof (nlinks_nonneg (fnames V) m).
  intros [[<- _]|[Hne Hm]]%lookup_insert_Some; [rw bool_decide_eq_true_2 //; lia|]. rw bool_decide_eq_false_2 // Z.add_0_r.
  intros H0 Hcl. apply (Hno m b Hm H0). intros l' r' Hl'. apply (Hcl l' r'). rw /= lookup_insert_ne //. congruence.
Qed.

(** ** The operations *)

(** The volume is mounted, [d] is the vnode of the root directory, nobody else
    runs and the volume stands for [V]. *)
Record mounted (d : loc) (s : state) (V : fsys) : Prop := {
  mt_im : ∃ I L, implements d (counts V) s I L V;
  mt_lock : lock_ok 2 (fs s);
  mt_orphans : no_orphans V
}.

(** What an operation has done. *)
Definition done_to (d : loc) (k : nat) (s s' : state) (V : fsys) : Prop := mounted d s' V ∧ venv s s' ∧ ready k (fs s').

Section ops.
Context `{!Hardware} (d : loc) (s : state) (V : fsys) (k : nat) (Hmt : mounted d s V).

Lemma back_done s' V' : back d s k s' V' → no_orphans V' → done_to d k s s' V'.
Proof.
  intros [(I & L & Him) Hv Hrd] Hno. split; [|done]. split; [by exists I, L | | done].
  eapply lock_ok_same; [apply Hmt | done | apply Him].
Qed.

Lemma mounted_refs : refs_pos V.
Proof.
  intros l n r Ho. destruct (mt_im _ _ _ Hmt) as (I & L & Him). destruct (im_open _ _ _ _ _ _ _ _ _ Him Ho) as (_ & v & x & Hc & _ & <-).
  apply (ic_ref _ _ _ _ _ Hc).
Qed.

Lemma named_file name n : fnames V !! name = Some n → n ≠ SFS_ROOTDIR_INO ∧ is_Some (files V !! n).
Proof.
  intros HD. destruct (mt_im _ _ _ Hmt) as (I & L & Him). destruct (im_names _ _ _ _ _ _ Him name n HD) as [b Hb].
  destruct (im_file _ _ _ _ _ _ _ _ Him Hb) as (_ & _ & _ & _ & Hne). split; [done|by exists b].
Qed.

Lemma counts_small n : 0 ≤ counts V n ≤ 1144.
Proof. destruct (mt_im _ _ _ Hmt) as (I & L & Him). by eapply counts_bound. Qed.

(** The check before a vnode operation on the root. *)
Lemma vop_step {A} (fileop dirop : M state A) (Q : A → state → Prop) : wp dirop Q s → wp (vop d fileop dirop) Q s.
Proof.
  intros HQ. destruct (mt_im _ _ _ Hmt) as (I & L & Him). destruct (im_root _ _ _ _ _ _ Him) as (v & [Hd Hv _ Hdir]).
  destruct (ok_core _ _ _ _ _ (im_ok _ _ _ _ _ _ Him) Hd Hv) as (x & Hc). pose proof (ic_ref _ _ _ _ _ Hc).
  rw /vop. wp_step. rw /vnode_check. wp_step. eapply (wp_load_vn s I L d v x); [apply Him | done | done |].
  rw (ic_ops _ _ _ _ _ Hc) (d_type _ _ _ Hdir) /= bool_decide_eq_false_2; [|lia]. by apply wp_ret.
Qed.

Lemma lookup_ok name :
  refs_ok V → ready (search + S k) (fs s) →
  wp (vop_lookup d name) (λ r s', ∃ V', looked_up V name r V' ∧ done_to d k s s' V') s.
Proof.
  intros Hrefs Hrd. apply vop_step. pose proof (mt_lock _ _ _ Hmt) as Hlk. rw /sfs_lookup. wp_step.
  eapply (begin_step d s Hlk); [apply Hmt | exact Hrd |]. intros Hrun. pose proof Hrun as [(I & L & Him) _ _].
  destruct (im_root _ _ _ _ _ _ Him) as (v & [Hd Hv Hn Hdir]). wp_step. eapply load_sv_ok; [apply Him | done | done |].
  rw (d_type _ _ _ Hdir) bool_decide_eq_false_2; [|by intros []]. wp_step.
  eapply (lookonce_step d s Hlk); [done | done | |].
  - intros e s1 Hrun1 Hres. eapply (end_step d s Hlk); [exact Hrun1|]. intros s' Hb. exists V.
    split; [done|]. apply back_done; [done|apply Hmt].
  - intros l n j s1 V1 Hrun1 HD Hh _. destruct (hold_same _ _ _ _ Hh) as [HN HF]. rw -HN in Hrun1.
    eapply (end_step d s Hlk); [exact Hrun1|]. intros s' Hb. exists V1.
    split; [rw /looked_up HD; right; by exists l|]. apply back_done; [done|]. by eapply hold_no_orphans; [apply Hmt|].
Qed.

Lemma remove_ok name :
  refs_ok V → ready (search + (9 + k)) (fs s) →
  wp (vop_remove d name) (λ r s', ∃ V', removed V name r V' ∧ done_to d k s s' V') s.
Proof.
  intros Hrefs Hrd. apply vop_step. pose proof (mt_lock _ _ _ Hmt) as Hlk. rw /sfs_remove. wp_step.
  eapply (begin_step d s Hlk); [apply Hmt | exact Hrd |]. intros Hrun. wp_step.
  eapply (lookonce_step d s Hlk); [exact Hrun | done | |].
  - intros e s1 Hrun1 Hres. eapply (end_step d s Hlk _ k); [by apply (running_le _ _ _ (8 + k)); [lia|]|]. intros s' Hb. exists V.
    split; [|by apply back_done; [|apply Hmt]]. rw /removed. rw /looked_up in Hres. destruct (fnames V !! name).
    + destruct Hres as [[[= ->] _]|(l & [=] & _)]. by left.
    + by destruct Hres as [[= ->] _].
  - intros l n j s1 V1 Hrun1 HD Hh Hat. destruct (hold_same _ _ _ _ Hh) as [HN HF]. destruct (hold_opened _ _ _ _ Hh) as [r Ho].
    wp_step. eapply (unlink_step d s Hlk _ (3 + k)); [exact Hrun1 | exact Hat |]. intros s2 Hrun2. wp_step.
    set (V2 := set_fnames (delete name) V1) in *. set (D' := delete name (fnames V)).
    destruct (named_file name n HD) as [Hne _]. pose proof (nlinks_pos _ _ _ HD) as Hpos. pose proof (counts_small n) as Hsmall.
    pose proof (nlinks_delete _ _ _ n HD) as Hcn. rw bool_decide_eq_true_2 // in Hcn.
    rw bool_decide_eq_true_2 //. eapply (drop_link_step d s _ _ _ V2 l n r); [exact Hrun2 | exact Ho | done | lia |].
    intros s3 Hrun3. apply (running_ext d s _ (nlinks D')) in Hrun3.
    2: { intros m. rw /recount. destruct (decide (m = n)) as [->|Hm]; [by rw /D' Hcn|].
         rw /D' (nlinks_delete _ _ n) // bool_decide_eq_false_2 //. lia. }
    wp_step. eapply (drop_step d s Hlk _ k); [exact Hrun3 | exact Ho | done | |].
    { intros H0 nm Hnm. apply nlinks_pos in Hnm. rw /V2 /= HN -/D' in Hnm. lia. }
    intros s4 V4 Hrun4 Hdrop. pose proof (drop_same _ _ _ _ _ Hdrop) as HN4. rw /V2 /= HN -/D' in HN4. rw -HN4 in Hrun4.
    eapply (end_step d s Hlk); [exact Hrun4|]. intros s' Hback. exists V4.
    assert (forgotten (set_fnames (delete name) V) n V4) as Hfg.
    { by apply (hold_drop (set_fnames (delete name) V) n l V2); [apply mounted_refs | apply hold_names | exact Hdrop]. }
    split; [rw /removed HD; by right|]. apply back_done; [done|]. eapply forgotten_no_orphans; [apply Hmt | done | done].
Qed.

(** The new file goes again. *)
Lemma fresh_drop n l V' : files V !! n = None → opened V !! l = None → drop 0 (fresh V n l) n l V' → V' = V.
Proof.
  intros Hn Hl (r & Hr & Hd). rw /= lookup_insert_eq in Hr. injection Hr as <-. destruct Hd as [[? _]|[_ ->]]; [lia|].
  rw /set_opened /set_files /= !delete_insert_id //. by destruct V.
Qed.

Lemma creat_ok name excl :
  refs_ok V → name_ok name → ready (search + (search + (10 + k))) (fs s) →
  wp (vop_creat d name excl) (λ r s', ∃ V', created V name excl r V' ∧ done_to d k s s' V') s.
Proof.
  intros Hrefs Hnm Hrd. apply vop_step. pose proof (mt_lock _ _ _ Hmt) as Hlk. rw /sfs_creat. wp_step.
  eapply (begin_step d s Hlk); [apply Hmt | exact Hrd |]. intros Hrun. wp_step.
  apply (find_step d s Hlk (search + (10 + k)) _ V name); [done|]. intros [res f] s1 Hrun1 Hres. simpl in Hres. rw /created.
  pose proof (mt_orphans _ _ _ Hmt) as Hno. destruct (fnames V !! name) as [n|] eqn:HD.
  - destruct Hres as (-> & Hino & _). rw bool_decide_eq_false_2; [|by intros [[] _]]. rw bool_decide_eq_true_2 //. destruct excl; simpl.
    { eapply (end_step d s Hlk _ k); [by apply (running_le _ _ _ (search + (10 + k))); [lia|]|]. intros s' Hb. exists V.
      split; [done|]. by apply back_done. }
    wp_step. eapply wp_deref; [done|]. destruct (named_file name n HD) as [_ [b Hb]].
    wp_step. apply (load_step d s Hlk k s1 V n b); [by apply (running_le _ _ _ (search + (10 + k))); [lia|] | done | done | |].
    + intros s2 Hrun2. eapply (end_step d s Hlk); [exact Hrun2|]. intros s' Hbk. exists V. split; [by left|]. by apply back_done.
    + intros l V2 s2 Hh Hrun2 _ _. destruct (hold_same _ _ _ _ Hh) as [HN HF]. rw -HN in Hrun2.
      eapply (end_step d s Hlk); [exact Hrun2|]. intros s' Hbk. exists V2. split; [right; by exists l|].
      apply back_done; [done|]. by eapply hold_no_orphans.
  - subst res. rw bool_decide_eq_false_2; [|by intros [_ []]]. rw bool_decide_eq_false_2 //=.
    wp_step. apply (make_step d s Hlk (search + (5 + (3 + k))) s1 V); [by apply (running_le _ _ _ (search + (10 + k))); [lia|] | done | |].
    { intros e s2 He Hrun2. eapply (end_step d s Hlk _ k); [by eapply running_le; [|exact Hrun2]; lia|]. intros s' Hbk. exists V.
      split; [left; exists e; tauto|]. by apply back_done. }
    intros l n s2 Hn Hl Hne H0 Hrun2.
    assert (opened (fresh V n l) !! l = Some (n, 1)) as Ho by apply lookup_insert_eq.
    wp_step. eapply (load_open_step d s); [exact Hrun2 | exact Ho |]. intros v Hv -> _. wp_step.
    apply (link_step d s Hlk (counts V) (3 + k) s2 (fresh V n l) name n []); [exact Hrun2 | done | apply lookup_insert_eq | |].
    + intros e o s3 Hrun3 He. rw bool_decide_eq_true_2; [|by destruct He as [[-> _]|(_ & [[-> _]|[->| ->]])]].
      wp_step. eapply (drop_step d s Hlk _ k); [exact Hrun3 | exact Ho | done | |].
      { intros _ nm Hm. destruct (named_file nm n Hm) as [_ [b Hb]]. congruence. }
      intros s4 V4 Hrun4 Hdrop. rw H0 in Hdrop. apply fresh_drop in Hdrop as ->; [|done..].
      eapply (end_step d s Hlk); [exact Hrun4|]. intros s' Hbk. exists V. split; [|by apply back_done].
      left. exists e. do 2 (split; [done|]). destruct He as [[_ [? He]]|[_ He]]; [simpl in He; congruence | tauto].
    + intros z s3 Hrun3 _ Hlen _. rw bool_decide_eq_false_2; [|by intros []].
      wp_step. eapply (add_link_step d s); [exact Hrun3 | exact Ho | done | lia |]. intros s4 Hrun4 _. rw H0 in Hrun4.
      apply (running_ext d s _ (counts (set_fnames <[name := n]> (fresh V n l)))) in Hrun4.
      2: { intros m. rw /= nlinks_insert // /recount. destruct (decide (m = n)) as [->|Hm].
           - rw bool_decide_eq_true_2 //. lia.
           - rw bool_decide_eq_false_2 //. lia. }
      eapply (end_step d s Hlk _ k); [by eapply running_le; [|exact Hrun4]; lia|]. intros s' Hbk.
      exists (set_fnames <[name := n]> (fresh V n l)). split; [right; by exists n, l|]. apply back_done; [done|].
      by apply created_no_orphans.
Qed.

Lemma link_codes (U : fsys) name e : link_error U name e → e ≠ 0.
Proof. by intros [[-> _]|(_ & [[-> _]|[->| ->]])]. Qed.

(** One more name: the counts agree again once the link is counted. *)
Lemma recount_insert (U : fsys) name n m :
  fnames U !! name = None → counts (set_fnames <[name := n]> U) m = recount n (counts U n + 1) (counts U) m.
Proof.
  intros HD. rw /= nlinks_insert // /recount. destruct (decide (m = n)) as [->|Hm].
  - by rw bool_decide_eq_true_2.
  - rw bool_decide_eq_false_2 //. lia.
Qed.

Lemma link_ok name l n r :
  opened V !! l = Some (n, r) → n ≠ SFS_ROOTDIR_INO → name_ok name → ready (search + (5 + k)) (fs s) →
  wp (vop_link d name l) (λ e s', ∃ V', named_too V name n e V' ∧ done_to d k s s' V') s.
Proof.
  intros Ho Hne Hnm Hrd. apply vop_step. pose proof (mt_lock _ _ _ Hmt) as Hlk. rw /sfs_link. wp_step.
  eapply (begin_step d s Hlk); [apply Hmt | exact Hrd |]. intros Hrun.
  wp_step. eapply (load_open_step d s); [exact Hrun | exact Ho |]. intros v Hv Hn (I & L & x & Him & Hl & Hc & _).
  pose proof (ic_inode _ _ _ _ _ Hc) as Hi. rw Hn in Hi.
  assert (sfi_type (sv_i v) = SFS_TYPE_FILE) as Hty.
  { destruct (decide (sfi_type (sv_i v) = SFS_TYPE_FILE)) as [|Ht]; [done|]. by apply (im_dirs _ _ _ _ _ _ Him _ _ Hi) in Ht. }
  rw Hty bool_decide_eq_false_2; [|done].
  assert (files V !! n = Some (file_bytes (fs (vlocked s)) (sv_i v))) as Hb.
  { by rw (im_files _ _ _ _ _ _ Him) Hi /= /regular Hty. }
  pose proof (mt_orphans _ _ _ Hmt) as Hno. wp_step. rw Hn.
  apply (link_step d s Hlk (counts V) k _ V name n _ _ Hrun Hnm Hb).
  - intros e o s1 Hrun1 He. rw bool_decide_eq_true_2; [|by eapply link_codes].
    eapply (end_step d s Hlk); [exact Hrun1|]. intros s' Hbk. exists V. split; [by left|]. by apply back_done.
  - intros z s1 Hrun1 HD Hlen _. rw bool_decide_eq_false_2; [|by intros []]. pose proof (counts_small n).
    wp_step. eapply (add_link_step d s); [exact Hrun1 | exact Ho | done | lia |]. intros s2 Hrun2 _.
    apply (running_ext d s _ (counts (set_fnames <[name := n]> V))) in Hrun2; [|intros m; by apply recount_insert].
    eapply (end_step d s Hlk); [exact Hrun2|]. intros s' Hbk. eexists. split; [by right|].
    apply back_done; [done|]. by apply insert_no_orphans.
Qed.

Lemma rename_ok n1 n2 :
  refs_ok V → name_ok n2 → ready (search + (search + (20 + k))) (fs s) →
  wp (vop_rename d n1 d n2) (λ e s', ∃ V', renamed V n1 n2 e V' ∧ done_to d k s s' V') s.
Proof.
  intros Hrefs Hnm Hrd. apply vop_step. pose proof (mt_lock _ _ _ Hmt) as Hlk. rw /sfs_rename. wp_step.
  eapply (begin_step d s Hlk); [apply Hmt | exact Hrd |]. intros Hrun. pose proof Hrun as [(I & L & Him) _ _].
  destruct (im_root _ _ _ _ _ _ Him) as (vd & [Hd Hvd Hnd _]). pose proof (mt_orphans _ _ _ Hmt) as Hno.
  wp_step. apply wp_kassert; [by apply bool_decide_eq_true_2|]. wp_step. eapply load_sv_ok; [apply Him | done | done |].
  wp_step. apply wp_kassert; [by apply bool_decide_eq_true_2|]. wp_step.
  apply (lookonce_step d s Hlk (search + (19 + k)) _ V); [by eapply running_le; [|exact Hrun]; lia | done | |].
  - intros e s1 Hrun1 Hres. eapply (end_step d s Hlk _ k); [by eapply running_le; [|exact Hrun1]; lia|]. intros s' Hbk. exists V.
    split; [|by apply back_done]. rw /renamed. rw /looked_up in Hres. destruct (fnames V !! n1).
    + destruct Hres as [[[= ->] _]|(l & [=] & _)]. left. split; [by left|done].
    + by destruct Hres as [[= ->] _].
  - intros l n j s1 V1 Hrun1 HD Hh Hat. destruct (hold_same _ _ _ _ Hh) as [HN HF]. destruct (hold_opened _ _ _ _ Hh) as [r Ho].
    destruct (named_file n1 n HD) as [Hne [b Hb]]. pose proof (nlinks_pos _ _ _ HD) as Hpos. pose proof (counts_small n) as Hsmall.
    wp_step. eapply (load_open_step d s); [exact Hrun1 | exact Ho |]. intros v Hv Hn (I1 & L1 & x & Him1 & Hl & Hc & _).
    pose proof (ic_inode _ _ _ _ _ Hc) as Hi. rw Hn in Hi. wp_step. apply wp_kassert.
    { apply bool_decide_eq_true_2. destruct (decide (sfi_type (sv_i v) = SFS_TYPE_FILE)) as [|Ht]; [done|].
      by apply (im_dirs _ _ _ _ _ _ Him1 _ _ Hi) in Ht. }
    rw -HF in Hb. rw /renamed HD. wp_step. rw Hn.
    apply (link_step d s Hlk (counts V) (14 + k) s1 V1 n2 n b _ Hrun1 Hnm Hb).
    + intros e o s2 Hrun2 He. rw bool_decide_eq_true_2; [|by eapply link_codes]. wp_step.
      eapply (drop_step d s Hlk _ k); [by eapply running_le; [|exact Hrun2]; lia | exact Ho | done | lia |].
      intros s3 V3 Hrun3 Hdrop. apply (hold_drop V n l V1 _ V3 mounted_refs Hh) in Hdrop as [[? _]|[_ ->]]; [lia|].
      eapply (end_step d s Hlk); [exact Hrun3|]. intros s' Hbk. exists V. split; [|by apply back_done].
      left. split; [|done]. right. by rw /link_error -HN.
    + intros z s2 Hrun2 HD2 Hlen Hslots. rw bool_decide_eq_false_2; [|by intros []]. wp_step. eapply wp_deref; [done|]. rw HN in HD2.
      set (V2 := set_fnames <[n2 := n]> V1) in *.
      wp_step. eapply (add_link_step d s _ _ _ V2 l n r); [exact Hrun2 | exact Ho | done | lia |]. intros s3 Hrun3 Hslots3.
      rw /rename_unlink. wp_step. eapply (unlink_step d s Hlk _ (9 + k)); [exact Hrun3 | by apply Hslots3, Hslots |].
      intros s4 Hrun4. rw bool_decide_eq_false_2; [|by intros []]. set (V4 := set_fnames (delete n1) V2) in *. wp_step.
      eapply (drop_link_step d s _ _ _ V4 l n r); [exact Hrun4 | exact Ho | done | rw /recount decide_True //; lia |]. intros s5 Hrun5.
      assert (∀ m, counts V4 m = counts V m) as Hcounts.
      { intros m. rw /V4 /V2 /= HN. by apply renamed_counts. }
      apply (running_ext d s _ (counts V4)) in Hrun5.
      2: { intros m. rw Hcounts /recount. destruct (decide (m = n)) as [->|]; [rw decide_True //; lia|done]. }
      wp_step. eapply (drop_step d s Hlk _ k); [by eapply running_le; [|exact Hrun5]; lia | exact Ho | done | rw Hcounts; lia |].
      intros s6 V6 Hrun6 Hdrop. set (f := λ D : gmap (list Z) Z, delete n1 (<[n2 := n]> D)).
      destruct (hold_drop (set_fnames f V) n l V4 _ V6 mounted_refs (hold_names _ _ _ _ f Hh) Hdrop) as [[Hz _]|[_ Heq]]; [rw Hcounts in Hz; lia|]. subst V6.
      eapply (end_step d s Hlk); [by eapply running_ext; [exact Hrun6|]; intros m; by rw Hcounts /= /f renamed_counts|].
      intros s' Hbk. exists (set_fnames f V). split; [by right|]. apply back_done; [done|].
      apply (names_no_orphans V (f (fnames V))); [done|]. intros m. by rw /f (renamed_counts _ _ _ n).
Qed.

Lemma decref_ok l n r :
  opened V !! l = Some (n, r) → n ≠ SFS_ROOTDIR_INO → ready (3 + k) (fs s) →
  wp (vnode_decref l) (λ _ s', ∃ V', drop (counts V n) V n l V' ∧ done_to d k s s' V') s.
Proof.
  intros Ho Hne Hrd. destruct (mt_im _ _ _ Hmt) as (I & L & Him). destruct (im_open _ _ _ _ _ _ _ _ _ Him Ho) as (Hl & v & x & Hc & Hn & Hr).
  pose proof (mt_lock _ _ _ Hmt) as Hlk. subst n.
  eapply wp_mono; [apply (decref_spec k s I L l v x); [apply Him | | done..]|].
  { split; [apply Hlk|]. destruct Hlk as [_ ?]. lia. }
  intros [] s' (Hv' & Hrd' & Hdr).
  destruct (im_drop d (counts V) s I L V l v x s' Him Hl Hc Hne Hdr) as (I' & L' & V' & Hd & Him').
  { intros H0 nm Hnm%nlinks_pos. lia. }
  exists V'. split; [done|]. split; [|done]. pose proof (drop_same _ _ _ _ _ Hd) as HN. split.
  - exists I', L'. by rw HN.
  - by eapply lock_ok_same; [| |apply Him'].
  - eapply drop_no_orphans; [apply Hmt | done].
Qed.
End ops.
