(* ===== verification/SfsFlatThms.v ===== *)
(** * SFS refines a flat file system: the theorem *)

From stdpp Require Import base tactics list gmap option numbers ssreflect.
From S2P Require Import Prelude Kern.
From S2P Require Import Uio Lhd Bitmap Array Sfs SfsFacts SfsTrunc SfsThms SfsDir SfsNames SfsDirThms SfsVnode SfsVops SfsCore SfsLoad SfsReclaim SfsSpace SfsNamespace SfsFlat.

Open Scope Z_scope.


(** ** A volume with one file

    The root directory in block 4 has the name "a" for the empty file 3; its vnode
    is in memory. *)
#[local] Instance keeps_old : Hardware := λ old _, old.

Definition file_inode : sfs_dinode := Dinode 0 SFS_TYPE_FILE 1 (replicate 15 0) 0 (replicate 110 0).

Definition flat_disk (l : list Z) : lhd :=
  Lhd 12 1 0 0 0 0 zeros
    (<[1 := dinode_words dir_inode]> (<[3 := dinode_words file_inode]> (<[4 := dir_block]>
      (list_to_map ((λ b, (b, zeros)) <$> seqZ 0 12))))) l.

Definition flat_inodes : gmap Z sfs_dinode := <[1 := dir_inode]> {[3 := file_inode]}.

(** Blocks 0 to 7 are in use, and what is behind the end. *)
Definition flat_freemap : list Z := [255; 240] ++ replicate 510 255.

Definition flat_state (l : list Z) : state :=
  State
    (Sfs.State
      (Bitmap.State
        (Base {[1; 2; 3; 4; 5; 6; 7; 8]}%positive [Some 9; Some 10; Some 11]%positive {[3%positive := Lockst 4%positive 5%positive None]} 100)
        {[1%positive := Bitmap.Bitmap 4096 2%positive]} {[2%positive := flat_freemap]})
      1%positive false 12 (flat_disk l) (Some 3%positive) 0 {[6%positive := dir_vnode]})
    {[7%positive := Array.Array 1 4 (Some 8%positive)]}
    {[8%positive := [Some (Some 6%positive); None; None; None]]}
    7%positive {[6%positive := Vnode 1 (Some sfs_dirops)]}.

Definition flat_fsys : fsys := Fsys {[ [97] := 3 ]} {[3 := []]} {[6%positive := (1, 1)]}.

Lemma flat_disk_rest l : at_rest (flat_disk l).
Proof.
  split; [done | done | done | done |]. intros b Hb. change (0 ≤ b < 12) in Hb.
  assert (Forall (λ b, (length <$> sectors (flat_disk l) !! b) = Some 128%nat) (seqZ 0 12)) as Hall by by_decide.
  rw Forall_forall in Hall. pose proof (Hall b ltac:(apply elem_of_seqZ; lia)) as Hb'.
  apply fmap_Some in Hb' as (l' & -> & Hl'). by exists l'.
Qed.

Lemma flat_lookup n i : flat_inodes !! n = Some i → n = 1 ∧ i = dir_inode ∨ n = 3 ∧ i = file_inode.
Proof. rw /flat_inodes. intros [[<- <-]|[_ [<- <-]%lookup_singleton_Some]]%lookup_insert_Some; [by left | by right]. Qed.

Lemma flat_volume l : volume (fs (flat_state l)).
Proof.
  split; [|done | done | by apply flat_disk_rest].
  exists (Bitmap.Bitmap 4096 2%positive), flat_freemap. split.
  - split; [by_decide | done | by_decide | done | done | done | |].
    + rw /byte. by_decide.
    + intros i Hi. change (4096 ≤ i < 4096) in Hi. lia.
  - split; [done|]. intros i Hi. change (12 ≤ i < 4096) in Hi.
    assert (Forall (λ i, bit flat_freemap i = true) (seqZ 12 4084)) as Hall by by_decide.
    rw Forall_forall in Hall. apply Hall, elem_of_seqZ. lia.
Qed.

Lemma flat_blocks l : blocks (fs (flat_state l)) dir_inode = 0 :: 4 :: replicate 142 0 ∧
  blocks (fs (flat_state l)) file_inode = replicate 144 0.
Proof. split; by vm_compute. Qed.

Lemma flat_in_blocks l n i b : flat_inodes !! n = Some i → b ∈ blocks (fs (flat_state l)) i → b = 0 ∨ b = 4 ∧ n = 1.
Proof.
  destruct (flat_blocks l) as [Hd Hf]. intros [[-> ->]|[-> ->]]%flat_lookup; rw ?Hd ?Hf.
  - intros [->|[->|[-> _]%elem_of_replicate]%elem_of_cons]%elem_of_cons; tauto.
  - intros [-> _]%elem_of_replicate. by left.
Qed.

Lemma flat_files l : files_ok (fs (flat_state l)) flat_inodes.
Proof.
  split.
  - apply flat_volume.
  - intros n i [[-> ->]|[-> ->]]%flat_lookup; (split; [done|]; split; [by vm_compute|]; split; [split; [done|]|]).
    + apply owns_check_sound. by vm_compute.
    + split; [by right | done | done].
    + apply owns_check_sound. by vm_compute.
    + split; [by left | done | done].
  - intros n i n' i' b Hi Hi' Hne Hb Hin Hin'. destruct (flat_in_blocks l n i b Hi Hin) as [?|[_ ->]]; [done|].
    destruct (flat_in_blocks l n' i' b Hi' Hin') as [?|[_ ->]]; done.
  - intros n i n' Hi [i' Hi'] Hin. destruct (flat_in_blocks l n i n' Hi Hin) as [->|[-> _]]; by apply flat_lookup in Hi' as [[? _]|[? _]].
  - intros b Hb. change (2 ≤ b < 3) in Hb. assert (b = 2) as -> by lia. split; [done|]. split; [by vm_compute|]. split; [done|].
    intros n i Hi Hin. by destruct (flat_in_blocks l n i 2 Hi Hin) as [?|[? _]].
Qed.

Lemma flat_table l : table_ok (flat_state l) flat_inodes [6%positive].
Proof.
  split.
  - exists (Array.Array 1 4 (Some 8%positive)). split; [by_decide | done | done | done | by right; exists 2 | by intros l' [= <-] |].
    exists [Some (Some 6%positive); None; None; None]. by vm_compute.
  - split; [by_decide|]. intros l' Hl'.
    assert (Forall (λ l', l' ∈ live (base_of (flat_state l))) (anchors (flat_state l) ++ [6%positive])) as Hall by by_decide.
    rw Forall_forall in Hall. by apply Hall.
  - intros l' ->%list_elem_of_singleton. exists dir_vnode, (Vnode 1 (Some sfs_dirops)). by split.
  - by intros l1 l2 v v' ->%list_elem_of_singleton ->%list_elem_of_singleton.
  - intros n i [[-> ->]|[-> ->]]%flat_lookup; [left | by right].
    exists 6%positive, dir_vnode. split; [by apply list_elem_of_singleton | done].
Qed.

Lemma flat_directory l : directory (fs (flat_state l)) dir_vnode {[ [97] := 3 ]}.
Proof.
  eapply (directory_contents dir_volume); [exact dir_stands_for | | done..].
  change (sv_i dir_vnode) with dir_inode. intros fb. rw /fblock. assert (mapping (fs (flat_state l)) dir_inode = mapping dir_volume dir_inode) as -> by done.
  assert (mapping dir_volume dir_inode = 4 :: replicate 142 0) as -> by by vm_compute.
  destruct fb as [|fb]; [by vm_compute|]. change ((4 :: replicate 142 0) !! S fb) with (replicate 142 0 !! fb).
  destruct (replicate 142 0 !! fb) as [b|] eqn:Hb; [|done]. by apply lookup_replicate in Hb as [-> _].
Qed.

Lemma flat_opened l l' : opened flat_fsys !! l' = handle (flat_state l) [6%positive] l'.
Proof.
  rw /handle /=. destruct (decide (l' = 6%positive)) as [->|Hne]; [done|].
  rw lookup_singleton_ne // decide_False // list_elem_of_singleton //.
Qed.

Lemma flat_mounted l : mounted 6%positive (flat_state l) flat_fsys.
Proof.
  split.
  - exists flat_inodes, [6%positive]. split.
    + split; [apply flat_files | apply flat_table | done | by eexists].
    + exists dir_vnode. split; [by left | done | done | apply flat_directory].
    + intros n. rw /flat_inodes. destruct (decide (n = 3)) as [->|H3]; [by vm_compute|]. rw /= lookup_singleton_ne //.
      destruct (decide (n = 1)) as [->|H1]; [done|]. rw lookup_insert_ne // lookup_singleton_ne //.
    + by intros n i [[-> ->]|[-> ->]]%flat_lookup.
    + intros name n Hn. change (({[ [97] := 3 ]} : gmap (list Z) Z) !! name = Some n) in Hn.
      apply lookup_singleton_Some in Hn as [_ <-]. by eexists.
    + intros n i [[-> ->]|[-> ->]]%flat_lookup; [done|]. intros _. by vm_compute.
    + apply flat_opened.
  - split; [|done]. left. split; [|done]. exists 3%positive, (Lockst 4 5 None)%positive. split; [done|]. split; [by_decide|done].
  - intros n b Hn H0. change (({[3 := []]} : gmap Z (list Z)) !! n = Some b) in Hn.
    apply lookup_singleton_Some in Hn as [<- _]. by vm_compute in H0.
Qed.

Lemma flat_refs : refs_ok flat_fsys.
Proof.
  intros l n r Ho. change (({[6%positive := (1, 1)]} : gmap loc (Z * Z)) !! l = Some (n, r)) in Ho.
  apply lookup_singleton_Some in Ho as [_ [= _ <-]]. lia.
Qed.

Lemma flat_ready n : ready n (fs (flat_state (replicate n LHD_OK))).
Proof. by apply irqs_ready. Qed.

