(* ===== verification/SfsFsops.v ===== *)
(** * Mounting, syncing and unmounting SFS: kern/fs/sfs/sfs_fsops.c

    [struct sfs_fs] with what SfsVnode.v leaves out: the address of the structure,
    the superblock and whether there is a device and a freemap.  [sb_nblocks] is
    the field of Sfs.v.  The device is the disk of Lhd.v; its block size is an
    argument of [sfs_domount].  Messages on the console are left out. *)

From stdpp Require Import base tactics list gmap option numbers ssreflect.
From S2P Require Import Prelude Kern.
From S2P Require Import Uio Lhd Bitmap Array Sfs SfsDir SfsIo SfsVnode SfsVops.

Open Scope Z_scope.

(** ** Data and state *)

Definition ENXIO : Z := 26.
Definition SFS_MAGIC : Z := 0xabadf001.
Definition SFS_SUPER_BLOCK : Z := 0.
Definition SFS_FREEMAP_START : Z := 2.
Definition SFS_BITSPERBLOCK : Z := 4096.
Definition SFS_ROUNDUP (a b : Z) : Z := u32 (u32 (a + b - 1) / b * b).
Definition SFS_FREEMAPBITS (nblocks : Z) : Z := SFS_ROUNDUP nblocks SFS_BITSPERBLOCK.
Definition SFS_FREEMAPBLOCKS (nblocks : Z) : Z := SFS_FREEMAPBITS nblocks / SFS_BITSPERBLOCK.

(** [struct sfs_superblock] without [sb_nblocks], and in the words of a block. *)
Record sfs_superblock := Superblock { sb_magic : Z; sb_volname : list Z; sb_reserved : list Z }.

Definition super_words (nblocks : Z) (sb : sfs_superblock) : list Z :=
  sb_magic sb :: nblocks :: pack (sb_volname sb) ++ sb_reserved sb.
Definition words_super (ws : list Z) : sfs_superblock :=
  Superblock (nth 0 ws 0) (unpack (take 8 (drop 2 ws))) (drop 10 ws).

Record state := State {
  vol : SfsVnode.state;
  sfs_at : loc;
  sfs_sb : sfs_superblock;
  sfs_superdirty : bool;
  has_device : bool;
  has_freemap : bool
}.

Definition set_vol v s := State v (sfs_at s) (sfs_sb s) (sfs_superdirty s) (has_device s) (has_freemap s).
Definition set_sb b s := State (vol s) (sfs_at s) b (sfs_superdirty s) (has_device s) (has_freemap s).
Definition set_superdirty b s := State (vol s) (sfs_at s) (sfs_sb s) b (has_device s) (has_freemap s).
Definition set_has_device b s := State (vol s) (sfs_at s) (sfs_sb s) (sfs_superdirty s) b (has_freemap s).
Definition set_has_freemap b s := State (vol s) (sfs_at s) (sfs_sb s) (sfs_superdirty s) (has_device s) b.
Definition set_at l s := State (vol s) l (sfs_sb s) (sfs_superdirty s) (has_device s) (has_freemap s).

#[export, refine] Instance state_base : HasBase state := {|
  base_of s := base_of (vol s);
  with_base b s := set_vol (with_base b (vol s)) s
|}.
Proof.
  - intros b s. apply (base_with b (vol s)).
  - intros b b' s. rw /set_vol /=. f_equal.
  - intros s. rw (with_base_same (vol s)). by destruct s.
Defined.

Definition on_vol {A} (m : M SfsVnode.state A) : M state A := λ s,
  match m (vol s) with
  | Ok a v => Ok a (set_vol v s)
  | Stop e v => Stop e (set_vol v s)
  end.

Definition on_sfs {A} (m : M Sfs.state A) : M state A := on_vol (on_fs m).

(** An operation on bitmaps, or on arrays, that is given no address. *)
Definition on_bits {A} (m : M Bitmap.state A) : M Sfs.state A := on_freemap (λ _, m).
Definition on_arrays {A} (m : M Array.state A) : M SfsVnode.state A := on_vnodes (λ _, m).

Definition set_freemap (l : loc) (f : Sfs.state) : Sfs.state :=
  Sfs.State (fm f) l (sfs_freemapdirty f) (sb_nblocks f) (sfs_device f) (vfs_biglock f) (vfs_biglock_depth f) (svs f).
Definition set_nblocks (n : Z) (f : Sfs.state) : Sfs.state :=
  Sfs.State (fm f) (sfs_freemap f) (sfs_freemapdirty f) n (sfs_device f) (vfs_biglock f) (vfs_biglock_depth f) (svs f).
Definition set_sfs_vnodes (l : loc) (s : SfsVnode.state) : SfsVnode.state :=
  SfsVnode.State (fs s) (arrays s) (vecs s) l (vnodes s).

(** ** The freemap on disk *)

(** The 512 bytes from [freemapdata + j*SFS_BLOCKSIZE] on. *)
Definition freemap_chunk (l : loc) (j : nat) : M Bitmap.state (list Z) :=
  deref (λ s,
    ws ← (if is_live l s then bytes s !! l else None);
    if bool_decide (512 * j + 512 ≤ length ws)%nat then Some (take 512 (drop (512 * j) ws)) else None).

Definition set_freemap_chunk (l : loc) (j : nat) (data : list Z) : M Bitmap.state unit :=
  freemap_chunk l j;;
  modify (set_bytes (alter (λ ws, take (512 * j) ws ++ data ++ drop (512 * j + 512) ws) l)).

Section hw.
Context `{!Hardware}.

Definition sfs_freemapio (rw : uio_rw) : M state Z :=
  nblocks ← gets (λ s, sb_nblocks (fs (vol s)));
  freemapdata ← on_sfs (on_freemap bitmap_getdata);
  ptr ← nonnull freemapdata;
  r ← for_up 0 (Z.to_nat (SFS_FREEMAPBLOCKS nblocks)) (λ j,
    result ← (match rw with
      | UIO_READ =>
          r ← on_sfs (sfs_readblock (u32 (SFS_FREEMAP_START + Z.of_nat j)));
          on_sfs (on_bits (set_freemap_chunk ptr j (unpack r.2)));;
          mret r.1
      | UIO_WRITE =>
          data ← on_sfs (on_bits (freemap_chunk ptr j));
          on_sfs (sfs_writeblock (u32 (SFS_FREEMAP_START + Z.of_nat j)) (pack data))
      end);
    if bool_decide (result ≠ 0) then mret (Some result) else mret None);
  mret (default 0 r).

(** ** Syncing *)

(** The result of [VOP_FSYNC] is not looked at. *)
Definition sfs_sync_vnodes : M state Z :=
  num ← on_vol (on_vnodes array_num);
  for_up 0 (Z.to_nat num) (λ i,
    v ← on_vol (vnodearray_get (Z.of_nat i));
    on_vol (vop_fsync v);;
    mret (@None unit));;
  mret 0.

Definition sfs_sync_freemap : M state Z :=
  dirty ← gets (λ s, sfs_freemapdirty (fs (vol s)));
  if dirty : bool then
    result ← sfs_freemapio UIO_WRITE;
    if bool_decide (result ≠ 0) then mret result
    else on_sfs (modify (set_freemapdirty false));; mret 0
  else mret 0.

Definition sfs_sync_superblock : M state Z :=
  s ← gets id;
  if sfs_superdirty s then
    result ← on_sfs (sfs_writeblock SFS_SUPER_BLOCK (super_words (sb_nblocks (fs (vol s))) (sfs_sb s)));
    if bool_decide (result ≠ 0) then mret result
    else modify (set_superdirty false);; mret 0
  else mret 0.

Definition sfs_sync : M state Z :=
  on_sfs vfs_biglock_acquire;;
  result ← sfs_sync_vnodes;
  if bool_decide (result ≠ 0) then on_sfs vfs_biglock_release;; mret result
  else
    result ← sfs_sync_freemap;
    if bool_decide (result ≠ 0) then on_sfs vfs_biglock_release;; mret result
    else
      result ← sfs_sync_superblock;
      if bool_decide (result ≠ 0) then on_sfs vfs_biglock_release;; mret result
      else on_sfs vfs_biglock_release;; mret 0.

Definition sfs_getvolname : M state (list Z) :=
  on_sfs vfs_biglock_acquire;;
  ret ← gets (λ s, sb_volname (sfs_sb s));
  on_sfs vfs_biglock_release;;
  mret (c_string ret).

(** ** Creating and destroying the structure *)

Definition sfs_fs_destroy : M state unit :=
  some ← gets has_freemap;
  (if some : bool then on_sfs (on_freemap bitmap_destroy) else mret tt);;
  on_vol (on_vnodes array_destroy);;
  device ← gets has_device;
  kassert (negb device);;
  sfs ← gets sfs_at;
  kfree (Some sfs).

Definition sfs_unmount : M state Z :=
  on_sfs vfs_biglock_acquire;;
  num ← on_vol (on_vnodes array_num);
  if bool_decide (num > 0) then on_sfs vfs_biglock_release;; mret EBUSY
  else
    dirty ← gets sfs_superdirty;
    kassert (negb dirty);;
    dirty ← gets (λ s, sfs_freemapdirty (fs (vol s)));
    kassert (negb dirty);;
    modify (set_has_device false);;
    sfs_fs_destroy;;
    on_sfs vfs_biglock_release;;
    mret 0.

Definition sfs_fs_create : M state ptr :=
  sfs ← kmalloc;
  match sfs with
  | None => mret None
  | Some l =>
      modify (λ s, set_has_device false (set_superdirty false (set_at l s)));;
      vnodes ← on_vol (on_arrays array_create);
      match vnodes with
      | None => kfree sfs;; mret None
      | Some a =>
          on_vol (modify (set_sfs_vnodes a));;
          modify (set_has_freemap false);;
          on_sfs (modify (set_freemapdirty false));;
          mret sfs
      end
  end.

(** ** Mounting *)

(** The structure goes again after an error. *)
Definition mount_fails {A} (result : A) : M state (A + loc) :=
  modify (set_has_device false);;
  sfs_fs_destroy;;
  on_sfs vfs_biglock_release;;
  mret (inl result).

(** The superblock is in memory. *)
Definition mount_freemap (sfs : loc) : M state (Z + loc) :=
  nblocks ← gets (λ s, sb_nblocks (fs (vol s)));
  freemap ← on_sfs (on_bits (bitmap_create (SFS_FREEMAPBITS nblocks)));
  match freemap with
  | None => mount_fails ENOMEM
  | Some l =>
      on_sfs (modify (set_freemap l));;
      modify (set_has_freemap true);;
      result ← sfs_freemapio UIO_READ;
      if bool_decide (result ≠ 0) then mount_fails result
      else on_sfs vfs_biglock_release;; mret (inr sfs)
  end.

Definition sfs_domount (d_blocksize : Z) : M state (Z + loc) :=
  on_sfs vfs_biglock_acquire;;
  if bool_decide (d_blocksize ≠ SFS_BLOCKSIZE) then on_sfs vfs_biglock_release;; mret (inl ENXIO)
  else
    sfs ← sfs_fs_create;
    match sfs with
    | None => on_sfs vfs_biglock_release;; mret (inl ENOMEM)
    | Some sfs =>
        modify (set_has_device true);;
        r ← on_sfs (sfs_readblock SFS_SUPER_BLOCK);
        let '(result, ws) := r in
        modify (set_sb (words_super ws));;
        on_sfs (modify (set_nblocks (nth 1 ws 0)));;
        if bool_decide (result ≠ 0) then mount_fails result
        else if bool_decide (sb_magic (words_super ws) ≠ SFS_MAGIC) then mount_fails EINVAL
        else
          let sb := words_super ws in
          modify (set_sb (Superblock (sb_magic sb) (<[31%nat := 0]> (sb_volname sb)) (sb_reserved sb)));;
          mount_freemap sfs
    end.
End hw.
