(* ===== verification/SfsSync.v ===== *)
(** * Syncing a volume

    [sfs_sync] of kern/fs/sfs/sfs_fsops.c writes the inodes in memory, the freemap
    and the superblock to the disk and leaves the files what they are. *)

From stdpp Require Import base tactics list gmap option numbers ssreflect.
From S2P Require Import Prelude Kern.
From S2P Require Import Uio Lhd Bitmap Array Sfs SfsFacts SfsTrunc SfsThms SfsDir SfsNames SfsDirThms SfsVnode SfsVops SfsCore SfsLoad SfsReclaim SfsFsops.

Open Scope Z_scope.

(** ** Lifting *)

Lemma wp_on_vol {A} (m : M SfsVnode.state A) (Q : A → state → Prop) s :
  wp m (λ a v, Q a (set_vol v s)) (vol s) → wp (on_vol m) Q s.
Proof. rw /wp /on_vol. by destruct (m (vol s)). Qed.

(** ** The inodes in memory *)

(** Inodes have been written; nothing else has happened. *)
Record flushed (s : SfsVnode.state) (I : gmap Z sfs_dinode) (L : list loc) (s' : SfsVnode.state) : Prop := {
  fl_ok : sfs_ok s' I L;
  fl_env : venv s s';
  fl_freemap : freemap_same (fs s) (fs s');
  fl_keeps : keeps ∅ s I s' I;
  fl_sectors : ∀ b, I !! b = None → sectors (sfs_device (fs s')) !! b = sectors (sfs_device (fs s)) !! b
}.

Lemma flushed_refl s I L : sfs_ok s I L → flushed s I L s.
Proof. intros Hok. split; try done. by apply keeps_sectors. Qed.

Lemma flushed_trans s1 s2 s3 I L : flushed s1 I L s2 → flushed s2 I L s3 → flushed s1 I L s3.
Proof.
  intros [_ E1 (A1 & B1 & C1 & D1) K1 S1] [O2 E2 (A2 & B2 & C2 & D2) K2 S2]. split; [done | by etrans | | by eapply keeps_trans |].
  - split_and!; congruence.
  - intros b Hb. by rw S2 // S1.
Qed.

Lemma locked_dirty f : sfs_freemapdirty (locked f) = sfs_freemapdirty f.
Proof. rw /locked. case_bool_decide; [|done]. rw /= /acquired. destruct (vfs_biglock f) as [l|]; [|done]. by destruct (_ !! l). Qed.

(** Around the VFS lock. *)
Lemma flushed_locked s I L s2 :
  biglock_ok (fs s) → flushed (vlocked s) I L s2 → flushed s I L (vunlocked s s2).
Proof.
  intros Hb [Hok Hv (A & B & C & D) Hk Hs]. destruct (locked_same _ Hb) as (Hm & Hby & _ & Hf & _ & Hd & _).
  simpl in A, B, C, D. split.
  - by apply so_unlocked.
  - by apply venv_locked.
  - split_and!; simpl; [congruence | congruence | congruence | by rw D locked_dirty].
  - intros n i Hn Hi. destruct (Hk n i Hn Hi) as (i' & Hi' & ? & ? & Hc). exists i'. do 3 (split; [done|]).
    intros fb. etrans; [apply (Hc fb)|]. by rw /fblock /mapping /= Hd.
  - intros b Hb'. rw /= Hs //= Hd //.
Qed.

Definition clean (s : SfsVnode.state) (l : loc) : Prop := ∃ v, svs (fs s) !! l = Some v ∧ sv_dirty v = false.

Section sync.
Context `{!Hardware}.

Lemma fsync_spec k s I L l :
  sfs_ok s I L → lock_ok 0 (fs s) → ready (S k) (fs s) → l ∈ L →
  wp (vop_fsync l) (λ r s', flushed s I L s' ∧ ready k (fs s') ∧ clean s' l ∧ ∀ l', clean s l' → clean s' l') s.
Proof.
  intros Hok Hlk Hrd Hl. pose proof (proj1 Hlk) as Hb. destruct (tb_core _ _ _ (so_table _ _ _ Hok) l Hl) as (v & x & Hc).
  destruct (fi_inode _ _ (so_files _ _ _ Hok) _ _ (ic_inode _ _ _ _ _ Hc)) as (_ & _ & _ & Hdi). destruct (ops_of_ok _ Hdi) as [ops Hops].
  pose proof (ic_ref _ _ _ _ _ Hc). rw /vop_fsync /vop. wp_step. rw /vnode_check. wp_step. eapply wp_load_vn; [done..|].
  rw (ic_ops _ _ _ _ _ Hc) Hops bool_decide_eq_false_2; [|lia]. wp_step.
  enough (wp (sfs_fsync l) (λ r s', flushed s I L s' ∧ ready k (fs s') ∧ clean s' l ∧ ∀ l', clean s l' → clean s' l') s) by (by destruct ops).
  rw /sfs_fsync. wp_step. apply wp_vfs_acquire; [done|]. pose proof (so_locked s I L Hb Hok) as Hok1.
  destruct (locked_same _ Hb) as (_ & _ & _ & _ & _ & Hdev & Hsvs & _). set (s1 := vlocked s) in *.
  assert (in_core s1 I l v x) as Hc1 by (by apply (in_core_same s); [..| rw /s1 /= Hdev]; rw /s1 /= ?Hsvs).
  wp_step. apply (sync_spec k s1 I L l v x); try done; [by apply locked_held | by rw /ready /s1 /= Hdev |].
  intros f Hok2 He Hs Hrd2 Hk Hfs Hsec. assert (venv s1 (set_fs f s1)) as Hv by (by apply venv_fs). rw /return_unlocked. wp_step.
  eapply (wp_vfs_release s); [done | exact Hv | exact Hok2 |]. wp_step. split; [|split; [exact Hrd2|split]].
  - apply flushed_locked; [done|]. split; try done. intros b Hnone. rw /= Hsec lookup_insert_ne //.
    intros Heq. rw -Heq in Hnone. pose proof (ic_inode _ _ _ _ _ Hc1). congruence.
  - exists (cleaned v). rw /= Hs lookup_insert_eq. done.
  - intros l' (v' & Hv' & Hd'). destruct (decide (l' = l)) as [->|Hne]; [exists (cleaned v); by rw /= Hs lookup_insert_eq|].
    exists v'. by rw /= Hs lookup_insert_ne // /s1 /= Hsvs.
Qed.

(** Everything in memory is on the disk. *)
Definition inodes_saved (f : Sfs.state) (I : gmap Z sfs_dinode) : Prop :=
  ∀ n i, I !! n = Some i → sectors (sfs_device f) !! n = Some (dinode_words i).

Lemma clean_saved s I L : sfs_ok s I L → (∀ l, l ∈ L → clean s l) → inodes_saved (fs s) I.
Proof.
  intros Hok Hcl n i Hi. destruct (tb_disk _ _ _ (so_table _ _ _ Hok) n i Hi) as [(l & v & Hl & Hv & <-)|]; [|done].
  destruct (ok_core _ _ _ _ _ Hok Hl Hv) as (x & Hc). destruct (Hcl l Hl) as (v' & Hv' & Hd). simplify_eq.
  rw (ic_clean _ _ _ _ _ Hc Hd). pose proof (ic_inode _ _ _ _ _ Hc). congruence.
Qed.

Lemma sync_vnodes_spec k s I L :
  sfs_ok (vol s) I L → lock_ok 0 (fs (vol s)) → held (fs (vol s)) → ready (length L + k) (fs (vol s)) →
  wp sfs_sync_vnodes (λ r s', r = 0 ∧ ∃ v, s' = set_vol v s ∧ flushed (vol s) I L v ∧ ready k (fs v) ∧ inodes_saved (fs v) I) s.
Proof.
  intros Hok Hlk Hh Hrd. rw /sfs_sync_vnodes. wp_step. apply wp_on_vol. eapply table_num; [by eapply ok_array|]. rw Nat2Z.id.
  set (Inv := λ i s', ∃ v, s' = set_vol v s ∧ flushed (vol s) I L v ∧ ready (length L - i + k) (fs v) ∧ ∀ l, l ∈ take i L → clean v l).
  wp_step. apply (wp_for_up Inv).
  - exists (vol s). split; [done|]. split; [by apply flushed_refl|]. rw Nat.sub_0_r. split; [done|]. intros l Hl.
    rw take_0 in Hl. by apply elem_of_nil in Hl.
  - intros i s' Hi (v & -> & Hfl & Hrdv & Hcl). destruct (lookup_lt_is_Some_2 L i) as [l Hl]; [lia|].
    destruct (lock_ok_venv 0 (vol s) v I L Hlk Hh (fl_env _ _ _ _ Hfl) (fl_ok _ _ _ _ Hfl)) as [Hlkv _].
    wp_step. apply wp_on_vol. eapply table_get; [by eapply ok_array, Hfl | done |]. wp_step. apply wp_on_vol.
    eapply wp_mono; [apply (fsync_spec (length L - S i + k) v I L l); [apply Hfl | done | | by eapply list_elem_of_lookup_2]|].
    { by replace (S (length L - S i + k)) with (length L - i + k)%nat by lia. }
    intros r v' (Hfl' & Hrd' & Hcl' & Hold). wp_step. exists v'. split; [done|]. split; [by eapply flushed_trans|]. split; [done|].
    intros l' Hl'. rw (take_S_r _ _ _ Hl) elem_of_app list_elem_of_singleton in Hl'. destruct Hl' as [Hl'| ->]; [by apply Hold, Hcl|done].
  - intros s' (v & -> & Hfl & Hrdv & Hcl). rw Nat.sub_diag in Hrdv. wp_step. split; [done|]. exists v. do 3 (split; [done|]).
    eapply clean_saved; [apply Hfl|]. intros l Hl. apply Hcl. by rw take_ge.
Qed.

(** ** The freemap and the superblock *)

(** Bytes of the freemap in block [j]. *)
Definition chunk (ws : list Z) (j : nat) : list Z := take 512 (drop (512 * j) ws).

(** The freemap in memory: a bit for each bit of its blocks. *)
Definition freemap_is (f : Sfs.state) (l : loc) (ws : list Z) : Prop :=
  ∃ m, Bitmap.repr (fm f) (sfs_freemap f) m ws ∧ v m = l ∧ nbits m = SFS_FREEMAPBITS (sb_nblocks f).

(** Its blocks on the disk, the first [n] of them. *)
Definition freemap_saved (f : Sfs.state) (ws : list Z) (n : nat) : Prop :=
  ∀ j, (j < n)%nat → sectors (sfs_device f) !! (2 + Z.of_nat j) = Some (pack (chunk ws j)).

Lemma freemap_blocks n : 0 < n ≤ 2 ^ 23 →
  SFS_FREEMAPBITS n = 4096 * ((n + 4095) / 4096) ∧ SFS_FREEMAPBLOCKS n = (n + 4095) / 4096.
Proof.
  intros Hn. rw /SFS_FREEMAPBLOCKS /SFS_FREEMAPBITS /SFS_ROUNDUP /SFS_BITSPERBLOCK.
  replace (n + 4096 - 1) with (n + 4095) by lia. rw (u32_small (n + 4095)); [|lia]. rw u32_small; [|zlia]. split; zlia.
Qed.

Lemma freemap_length f l ws :
  freemap_is f l ws → 0 < sb_nblocks f ≤ 2 ^ 23 → length ws = (512 * Z.to_nat (SFS_FREEMAPBLOCKS (sb_nblocks f)))%nat ∧ Forall byte ws.
Proof.
  intros (m & Hr & _ & Hb) Hn. destruct (freemap_blocks _ Hn) as [H1 H2]. split; [|apply Hr].
  rw (Bitmap.repr_length _ _ _ _ Hr) Hb H1 H2. zlia.
Qed.

Lemma chunk_length ws n j : length ws = (512 * n)%nat → (j < n)%nat → length (chunk ws j) = 512%nat.
Proof. intros Hl Hj. rw /chunk length_take length_drop. lia. Qed.

Lemma set_fm_same f : set_fm (fm f) f = f.
Proof. by destruct f. Qed.

(** Sectors that belong to no file have changed. *)
Lemma so_sectors s I L fd d :
  sfs_ok s I L → volume (set_device d (fs s)) → same_env (fs s) (set_device d (fs s)) →
  (∀ b, 0 < b → ¬ meta (sb_nblocks (fs s)) b → sectors d !! b = sectors (sfs_device (fs s)) !! b) →
  let s' := set_fs (set_freemapdirty fd (set_device d (fs s))) s in
  sfs_ok s' I L ∧ venv s s' ∧ keeps ∅ s I s' I ∧ (inodes_saved (fs s) I → inodes_saved (fs s') I).
Proof.
  intros Hok Hv He Hs s'. pose proof (so_files _ _ _ Hok) as HI. set (f' := set_freemapdirty fd (set_device d (fs s))).
  assert (∀ n i, I !! n = Some i → sectors d !! n = sectors (sfs_device (fs s)) !! n) as Hino.
  { intros n i Hi. apply Hs; [destruct (fi_inode _ _ HI _ _ Hi); lia|]. intros Hm.
    destruct (fi_meta _ _ HI n Hm) as (_ & _ & Hnone & _). congruence. }
  assert (volume f') as Hv' by (destruct Hv; by split).
  destruct (files_kept (fs s) I f') as [Hfi Hun]; try done.
  { intros n i b Hi Hb H0. destruct (fi_inode _ _ HI _ _ Hi) as (_ & _ & Hf & _). destruct (blocks_used _ _ _ Hf Hb H0).
    apply Hs; [lia|]. intros Hm. destruct (fi_meta _ _ HI b Hm) as (_ & _ & _ & Hout). by apply (Hout n i). }
  destruct (so_marks s I L f' Hok He eq_refl Hfi) as (Hok' & Hve & _); [done|].
  split; [done|]. split; [done|]. split.
  - apply keeps_untouched. intros n i _ Hi. split; [done|]. by eapply Hun.
  - intros Hsv n i Hi. rw /= (Hino n i Hi). by apply Hsv.
Qed.

(** Only these sectors have been written. *)
Record wrote_meta (f : Sfs.state) (d : lhd) : Prop := {
  wm_volume : volume (set_device d f);
  wm_env : same_env f (set_device d f);
  wm_sectors : ∀ b, 0 < b → ¬ meta (sb_nblocks f) b → sectors d !! b = sectors (sfs_device f) !! b
}.

Lemma chunk_spec b l ws j (Q : list Z → Bitmap.state → Prop) :
  l ∈ live (Bitmap.sys b) → bytes b !! l = Some ws → (512 * j + 512 ≤ length ws)%nat → Q (chunk ws j) b → wp (freemap_chunk l j) Q b.
Proof.
  intros Hl Hws Hj HQ. rw /freemap_chunk. eapply wp_deref; [|exact HQ].
  assert (is_live l b = true) as -> by (by apply is_live_true). by rw Hws /= bool_decide_eq_true_2.
Qed.

Lemma write_freemap_spec k s I L l ws :
  sfs_ok (vol s) I L → held (fs (vol s)) → freemap_is (fs (vol s)) l ws →
  ready (Z.to_nat (SFS_FREEMAPBLOCKS (sb_nblocks (fs (vol s)))) + k) (fs (vol s)) →
  wp (sfs_freemapio UIO_WRITE) (λ r s', r = 0 ∧ ∃ d, s' = set_vol (set_fs (set_device d (fs (vol s))) (vol s)) s ∧
    wrote_meta (fs (vol s)) d ∧ sectors d !! 0 = sectors (sfs_device (fs (vol s))) !! 0 ∧
    freemap_saved (set_device d (fs (vol s))) ws (Z.to_nat (SFS_FREEMAPBLOCKS (sb_nblocks (fs (vol s))))) ∧
    ready k (set_device d (fs (vol s)))) s.
Proof.
  intros Hok Hh Hfm Hrd. set (f := fs (vol s)) in *. pose proof (so_small _ _ _ Hok) as Hsmall.
  pose proof (fi_volume _ _ (so_files _ _ _ Hok)) as Hvol. pose proof (vol_blocks _ Hvol) as Hnb. fold f in Hsmall, Hnb.
  destruct (freemap_length _ _ _ Hfm) as [Hlen Hbytes]; [lia|].
  destruct (freemap_blocks (sb_nblocks f)) as [_ Hblk]; [lia|].
  set (nb := Z.to_nat (SFS_FREEMAPBLOCKS (sb_nblocks f))) in *. destruct Hfm as (m & Hrepr & Hvm & Hbits).
  rw /sfs_freemapio. wp_step. apply wp_gets. wp_step. apply wp_on_vol, wp_on_fs, wp_on_freemap. rw /bitmap_getdata. wp_step.
  eapply Bitmap.wp_load_map; [exact Hrepr|]. wp_step. wp_step. eapply wp_nonnull; [done|]. rw -/f set_fm_same set_fs_same.
  assert (set_vol (vol s) s = s) as -> by (by destruct s). rw -/f -/nb Hvm.
  set (after := λ d, set_vol (set_fs (set_device d f) (vol s)) s).
  set (Inv := λ j s', ∃ d, s' = after d ∧ wrote_meta f d ∧ sectors d !! 0 = sectors (sfs_device f) !! 0 ∧
    freemap_saved (set_device d f) ws j ∧ ready (nb - j + k) (set_device d f)).
  wp_step. apply (wp_for_up Inv).
  - exists (sfs_device f). rw /after same_device /f set_fs_same. split; [by destruct s|].
    split; [by split; rw ?same_device|]. split; [done|]. split; [intros j Hj; lia|]. by rw Nat.sub_0_r.
  - intros j s' Hj (d & -> & Hw & H0 & Hsv & Hrd'). wp_step. wp_step. apply wp_on_vol, wp_on_fs, wp_on_freemap.
    apply (chunk_spec _ _ ws); [rw -Hvm; apply Hrepr | rw -Hvm; apply Hrepr | lia |].
    destruct (fi_meta _ _ (so_files _ _ _ Hok) (2 + Z.of_nat j)) as (Hb & _); [rw /meta -/f; lia|]. fold f in Hb.
    rw u32_small /SFS_FREEMAP_START; [|lia]. apply wp_on_vol, wp_on_fs.
    apply (writeblock_ready (nb - S j + k)); [exact Hh | apply Hw | simpl; lia | | |].
    { simpl. by replace (S (nb - S j + k)) with (nb - j + k)%nat by lia. }
    { apply (pack_length 128). apply (chunk_length ws nb); [done|lia]. }
    intros d' Hv' Hrd2 He' Hs'. rw bool_decide_eq_false_2; [|by intros []]. apply wp_ret. exists d'. split; [done|].
    simpl in Hs'. split; [split; [done | by etrans; [apply Hw | exact He'] |]|split; [|split; [|exact Hrd2]]].
    + intros b Hb0 Hnm. rw Hs' lookup_insert_ne; [by apply Hw|]. intros <-. apply Hnm. rw /meta. lia.
    + rw Hs' lookup_insert_ne //. lia.
    + intros j' Hj'. rw /= Hs'. destruct (decide (j' = j)) as [->|Hne]; [by rw lookup_insert_eq|].
      rw lookup_insert_ne; [apply Hsv; lia | lia].
  - intros s' (d & -> & Hw & H0 & Hsv & Hrd'). rw Nat.add_0_l Nat.sub_diag in Hsv Hrd'. wp_step. split; [done|]. by exists d.
Qed.

(** The structure of a mounted volume. *)
Record fs_ok (s : state) (I : gmap Z sfs_dinode) (L : list loc) (ws : list Z) : Prop := {
  so_vol : sfs_ok (vol s) I L;
  so_bits : ∃ l, freemap_is (fs (vol s)) l ws;
  so_saved : sfs_freemapdirty (fs (vol s)) = false →
    freemap_saved (fs (vol s)) ws (Z.to_nat (SFS_FREEMAPBLOCKS (sb_nblocks (fs (vol s)))));
  so_super : sfs_superdirty s = false →
    sectors (sfs_device (fs (vol s))) !! 0 = Some (super_words (sb_nblocks (fs (vol s))) (sfs_sb s));
  so_magic : sb_magic (sfs_sb s) = SFS_MAGIC;
  so_name : length (sb_volname (sfs_sb s)) = 32%nat ∧ Forall byte (sb_volname (sfs_sb s)) ∧ sb_volname (sfs_sb s) !! 31%nat = Some 0;
  so_reserved : length (sb_reserved (sfs_sb s)) = 118%nat
}.

(** *** The parts of [sfs_sync] after the inodes *)

(** The number of blocks of the freemap. *)
Definition nfree (s : state) : nat := Z.to_nat (SFS_FREEMAPBLOCKS (sb_nblocks (fs (vol s)))).

(** What a step of syncing keeps. *)
Record stays (s : state) (I : gmap Z sfs_dinode) (L : list loc) (ws : list Z) (s' : state) : Prop := {
  kp_ok : fs_ok s' I L ws;
  kp_env : venv (vol s) (vol s');
  kp_keeps : keeps ∅ (vol s) I (vol s') I;
  kp_freemap : sfs_freemapdirty (fs (vol s)) = false → sfs_freemapdirty (fs (vol s')) = false;
  kp_super : sfs_superdirty s = false → sfs_superdirty s' = false;
  kp_sb : sfs_sb s' = sfs_sb s
}.

Lemma stays_refl s I L ws : fs_ok s I L ws → stays s I L ws s.
Proof. intros Hok. split; try done. by apply keeps_sectors. Qed.

Lemma stays_trans s1 s2 s3 I L ws : stays s1 I L ws s2 → stays s2 I L ws s3 → stays s1 I L ws s3.
Proof.
  intros [_ E1 K1 B1 C1 D1] [O2 E2 K2 B2 C2 D2]. split; [done | by etrans | by eapply keeps_trans | tauto.. | congruence].
Qed.

(** Sectors of the freemap and of the superblock are no inodes. *)
Lemma meta_no_inode s I L j :
  sfs_ok s I L → (j < Z.to_nat (SFS_FREEMAPBLOCKS (sb_nblocks (fs s))))%nat →
  meta (sb_nblocks (fs s)) (2 + Z.of_nat j) ∧ I !! (2 + Z.of_nat j) = None.
Proof.
  intros Hok Hj. pose proof (vol_blocks _ (fi_volume _ _ (so_files _ _ _ Hok))) as Hn. pose proof (so_small _ _ _ Hok).
  destruct (freemap_blocks (sb_nblocks (fs s))) as [_ Hb]; [lia|].
  assert (meta (sb_nblocks (fs s)) (2 + Z.of_nat j)) as Hm by (rw /meta; lia). split; [done|]. by apply (fi_meta _ _ (so_files _ _ _ Hok)).
Qed.

Lemma super_no_inode s I L : sfs_ok s I L → I !! 0 = None.
Proof.
  intros Hok. destruct (I !! 0) as [i|] eqn:Hi; [|done]. destruct (fi_inode _ _ (so_files _ _ _ Hok) _ _ Hi). lia.
Qed.

(** A freemap that has not moved. *)
Lemma freemap_is_same f f' l ws :
  freemap_is f l ws → bytes (fm f') = bytes (fm f) → maps (fm f') = maps (fm f) → sfs_freemap f' = sfs_freemap f → sb_nblocks f' = sb_nblocks f →
  (∀ m, maps (fm f) !! sfs_freemap f = Some m → sfs_freemap f ∈ live (base_of f') ∧ v m ∈ live (base_of f')) → freemap_is f' l ws.
Proof.
  intros (m & [] & Hv & Hb) Hby Hm Hf Hn Hl. destruct (Hl m) as [H1 H2]; [done|]. exists m. rw Hf Hn. split; [|done].
  by split; rw ?Hm ?Hby.
Qed.

Lemma ok_freemap_live s I L :
  sfs_ok s I L → ∀ m, maps (fm (fs s)) !! sfs_freemap (fs s) = Some m →
  sfs_freemap (fs s) ∈ live (base_of (fs s)) ∧ v m ∈ live (base_of (fs s)).
Proof.
  intros Hok m Hm. pose proof (hp_live _ _ (tb_heap _ _ _ (so_table _ _ _ Hok))) as Hl. split; apply Hl, elem_of_app; left; rw /anchors elem_of_app; right.
  - by left.
  - rw Hm. right. right. by left.
Qed.

Lemma flushed_stays s I L ws v : fs_ok s I L ws → flushed (vol s) I L v → stays s I L ws (set_vol v s).
Proof.
  intros [Hok [l Hbits] Hsaved Hsuper Hmagic Hname Hres] [Hok' He Hfs Hk Hsec]. pose proof He as [_ _ _ _ Hf Hn _].
  split; try done; [|by intros ?; rw /= (proj2 (proj2 (proj2 Hfs)))]. split; try done.
  - exists l. apply (freemap_is_same _ _ _ _ Hbits (proj1 Hfs) (proj1 (proj2 Hfs)) Hf Hn). intros m Hm.
    pose proof (ok_freemap_live _ _ _ Hok' m) as Hl. destruct Hfs as (_ & Hmaps & _). rw Hmaps Hf in Hl. by apply Hl.
  - rw /= (proj2 (proj2 (proj2 Hfs))) Hn. intros Hd j Hj. destruct (meta_no_inode _ _ _ _ Hok Hj) as [_ Hnone].
    rw /= Hsec //. by apply Hsaved.
  - rw /= Hn. intros Hd. rw Hsec; [by apply Hsuper | by eapply super_no_inode].
Qed.

(** Sectors written, and the flags. *)
Lemma wrote_stays s I L ws d fd sd :
  fs_ok s I L ws → wrote_meta (fs (vol s)) d →
  (fd = sfs_freemapdirty (fs (vol s)) ∨ fd = false) → (sd = sfs_superdirty s ∨ sd = false) →
  (fd = false → freemap_saved (set_device d (fs (vol s))) ws (nfree s)) →
  (sd = false → sectors d !! 0 = Some (super_words (sb_nblocks (fs (vol s))) (sfs_sb s))) →
  let s' := set_superdirty sd (set_vol (set_fs (set_freemapdirty fd (set_device d (fs (vol s)))) (vol s)) s) in
  stays s I L ws s' ∧ (inodes_saved (fs (vol s)) I → inodes_saved (fs (vol s')) I).
Proof.
  intros [Hok [l Hbits] Hsaved Hsuper Hmagic Hname Hres] [Hv He Hs] Hfd Hsd Hfm Hsb s'.
  destruct (so_sectors (vol s) I L fd d) as (Hok' & He' & Hk & Hi); [done..|]. split; [|exact Hi].
  split; try done; [|intros ?; rw /=; destruct Hfd; congruence | intros ?; rw /=; destruct Hsd; congruence].
  split; try done. exists l. apply (freemap_is_same (fs (vol s))); try done. exact (ok_freemap_live _ I L Hok).
Qed.

Lemma sync_freemap_spec k s I L ws :
  fs_ok s I L ws → held (fs (vol s)) → ready (nfree s + k) (fs (vol s)) → inodes_saved (fs (vol s)) I →
  wp sfs_sync_freemap (λ r s', r = 0 ∧ stays s I L ws s' ∧ ready k (fs (vol s')) ∧ inodes_saved (fs (vol s')) I ∧
    sfs_freemapdirty (fs (vol s')) = false) s.
Proof.
  intros Hok Hh Hrd Hi. rw /sfs_sync_freemap. wp_step. apply wp_gets. destruct (sfs_freemapdirty (fs (vol s))) eqn:Hd.
  - destruct (so_bits _ _ _ _ Hok) as [l Hbits]. wp_step. eapply wp_mono; [by apply (write_freemap_spec k s I L l ws); [apply Hok| | |]|].
    intros r s' (-> & d & -> & Hw & H0 & Hsv & Hrd'). rw bool_decide_eq_false_2; [|by intros []]. wp_step.
    apply wp_on_vol, wp_on_fs, wp_modify. apply wp_ret. split; [done|].
    destruct (wrote_stays s I L ws d false (sfs_superdirty s) Hok Hw) as [Hst Hi']; [by right | by left | done | |].
    { rw H0. apply Hok. }
    split; [exact Hst|]. split; [exact Hrd'|]. split; [by apply Hi' | done].
  - apply wp_ret. split; [done|]. split; [by apply stays_refl|]. split; [|done]. by apply (ready_le (nfree s + k)); [lia|].
Qed.

Lemma super_words_length n sb : length (sb_volname sb) = 32%nat → length (sb_reserved sb) = 118%nat → length (super_words n sb) = 128%nat.
Proof. intros Hv Hr. by rw /super_words /= length_app Hr (pack_length 8). Qed.

Lemma sync_super_spec k s I L ws :
  fs_ok s I L ws → held (fs (vol s)) → ready (S k) (fs (vol s)) → inodes_saved (fs (vol s)) I →
  wp sfs_sync_superblock (λ r s', r = 0 ∧ stays s I L ws s' ∧ ready k (fs (vol s')) ∧ inodes_saved (fs (vol s')) I ∧
    sfs_superdirty s' = false) s.
Proof.
  intros Hok Hh Hrd Hi. rw /sfs_sync_superblock. wp_step. apply wp_gets. destruct (sfs_superdirty s) eqn:Hd; simpl; rw Hd.
  - pose proof (fi_volume _ _ (so_files _ _ _ (so_vol _ _ _ _ Hok))) as Hvol. pose proof (vol_blocks _ Hvol).
    wp_step. apply wp_on_vol, wp_on_fs, (writeblock_ready k); try done; [rw /SFS_SUPER_BLOCK; lia | apply super_words_length; apply Hok |].
    intros d Hv Hrd' He Hs. rw bool_decide_eq_false_2; [|by intros []]. wp_step. apply wp_modify, wp_ret. split; [done|].
    assert (wrote_meta (fs (vol s)) d) as Hw.
    { split; [done..|]. intros b Hb _. simpl in Hs. rw Hs lookup_insert_ne //. rw /SFS_SUPER_BLOCK. lia. }
    destruct (wrote_stays s I L ws d (sfs_freemapdirty (fs (vol s))) false Hok Hw) as [Hst Hi']; [by left | by right | | |].
    { intros Hclean j Hj. simpl in Hs. rw /= Hs lookup_insert_ne; [by apply Hok | rw /SFS_SUPER_BLOCK; lia]. }
    { simpl in Hs. by rw Hs lookup_insert_eq. }
    assert (set_freemapdirty (sfs_freemapdirty (fs (vol s))) (set_device d (fs (vol s))) = set_device d (fs (vol s))) as Heq by done.
    rw Heq in Hst Hi'. split; [exact Hst|]. split; [exact Hrd'|]. split; [by apply Hi' | done].
  - apply wp_ret. split; [done|]. split; [by apply stays_refl|]. split; [|done]. by apply (ready_le (S k)); [lia|].
Qed.

(** *** [sfs_sync] *)

(** The lock does not matter. *)
Lemma fs_ok_relock s I L ws v :
  fs_ok s I L ws → sfs_ok v I L → freemap_same (fs (vol s)) (fs v) → sb_nblocks (fs v) = sb_nblocks (fs (vol s)) →
  sfs_device (fs v) = sfs_device (fs (vol s)) → fs_ok (set_vol v s) I L ws.
Proof.
  intros [Hok [l Hbits] Hsaved Hsuper Hmagic Hname Hres] Hv (Hby & Hm & Hf & Hd) Hn Hdev. split; try done.
  - exists l. apply (freemap_is_same _ _ _ _ Hbits Hby Hm Hf Hn). intros m Hm'.
    pose proof (ok_freemap_live _ _ _ Hv m) as Hl. rw Hm Hf in Hl. by apply Hl.
  - rw /freemap_saved /= Hd Hn Hdev. exact Hsaved.
  - rw /= Hn Hdev. exact Hsuper.
Qed.

(** Everything is on the disk. *)
Record saved (s : state) (I : gmap Z sfs_dinode) : Prop := {
  sd_inodes : inodes_saved (fs (vol s)) I;
  sd_freemap : sfs_freemapdirty (fs (vol s)) = false;
  sd_super : sfs_superdirty s = false
}.

Lemma stays_locked s I L ws s2 :
  biglock_ok (fs (vol s)) → stays (set_vol (vlocked (vol s)) s) I L ws s2 →
  stays s I L ws (set_vol (vunlocked (vol s) (vol s2)) s2).
Proof.
  intros Hb [Hok He Hk Hf Hs Hsb]. destruct (locked_same _ Hb) as (_ & _ & _ & _ & _ & Hd & _). split; try done.
  - apply fs_ok_relock; try done. apply so_unlocked, Hok.
  - by apply venv_locked.
  - intros n i Hn Hi. destruct (Hk n i Hn Hi) as (i' & Hi' & ? & ? & Hc). exists i'. do 3 (split; [done|]).
    intros fb. etrans; [apply (Hc fb)|]. by rw /fblock /mapping /= Hd.
  - simpl in Hf. by rw locked_dirty in Hf.
Qed.

Lemma sync_ok k s I L ws :
  fs_ok s I L ws → lock_ok 1 (fs (vol s)) → ready (length L + (nfree s + S k)) (fs (vol s)) →
  wp sfs_sync (λ r s', r = 0 ∧ stays s I L ws s' ∧ saved s' I ∧ ready k (fs (vol s'))) s.
Proof.
  intros Hok Hlk Hrd. pose proof (proj1 Hlk) as Hb. destruct (locked_same _ Hb) as (Hmp & Hby & _ & Hfm & Hn & Hdev & _).
  rw /sfs_sync. wp_step. apply wp_on_vol, wp_vfs_acquire; [done|]. set (s1 := set_vol (vlocked (vol s)) s).
  assert (fs_ok s1 I L ws) as Hok1.
  { apply fs_ok_relock; try done; [apply so_locked; [done | apply Hok]|]. split_and!; try done. apply locked_dirty. }
  destruct (lock_ok_locked 0 _ ltac:(lia) Hlk) as [Hlk1 Hh1].
  assert (nfree s1 = nfree s) as Hnf by (by rw /nfree /= Hn).
  wp_step. eapply wp_mono; [apply (sync_vnodes_spec (nfree s1 + S k) s1 I L); [apply Hok1 | done | done |]|].
  { rw Hnf /ready /= Hdev. exact Hrd. }
  intros r s2' (-> & v & -> & Hfl & Hrd2 & Hi2). rw bool_decide_eq_false_2; [|by intros []].
  pose proof (flushed_stays s1 I L ws v Hok1 Hfl) as Hst2. set (s2 := set_vol v s1) in *.
  assert (nfree s2 = nfree s1) as Hnf2 by (by rw /nfree /s2 /= (ve_nblocks _ _ (fl_env _ _ _ _ Hfl))).
  wp_step. eapply wp_mono; [apply (sync_freemap_spec (S k) s2 I L ws); [apply Hst2 | | by rw Hnf2 | done]|].
  { eapply venv_held; [apply Hst2 | apply Hst2 | done]. }
  intros r s3 (-> & Hst3 & Hrd3 & Hi3 & Hd3). rw bool_decide_eq_false_2; [|by intros []].
  pose proof (stays_trans _ _ _ _ _ _ Hst2 Hst3) as Hst13.
  wp_step. eapply wp_mono; [apply (sync_super_spec k s3 I L ws); [apply Hst3 | | done | done]|].
  { eapply venv_held; [apply Hst13 | apply Hst3 | done]. }
  intros r s4 (-> & Hst4 & Hrd4 & Hi4 & Hsd4). rw bool_decide_eq_false_2; [|by intros []].
  pose proof (stays_trans _ _ _ _ _ _ Hst13 Hst4) as Hst14.
  wp_step. apply wp_on_vol. eapply (wp_vfs_release (vol s)); [done | apply Hst14 | apply Hst4 |]. wp_step. split; [done|].
  split; [by apply stays_locked|]. split; [|done]. split; [done | by apply Hst4 | done].
Qed.
End sync.
