(* ===== verification/SfsMount.v ===== *)
(** * Mounting a volume

    [sfs_domount] of kern/fs/sfs/sfs_fsops.c on the disk of a volume that has been
    synced, in a kernel of which nothing is known but the VFS lock: the files are
    what they were, or memory has run out and the heap is what it was. *)

From stdpp Require Import base tactics list gmap option numbers ssreflect.
From S2P Require Import Prelude Kern.
From S2P Require Import Uio Lhd Bitmap Array Sfs SfsFacts SfsTrunc SfsThms SfsDir SfsNames SfsDirThms SfsVnode SfsVops SfsCore SfsLoad SfsReclaim SfsFsops SfsSync.

Open Scope Z_scope.

(** ** While the volume is being mounted *)

(** The lock and the disk are those of [f0]. *)
Record booted (f0 f : Sfs.state) : Prop := {
  bt_lock : vfs_biglock f = vfs_biglock f0;
  bt_depth : vfs_biglock_depth f = vfs_biglock_depth f0;
  bt_lks : lks (base_of f) = lks (base_of f0);
  bt_me : me (base_of f) = me (base_of f0);
  bt_blocks : d_blocks (sfs_device f) = d_blocks (sfs_device f0);
  bt_sectors : sectors (sfs_device f) = sectors (sfs_device f0);
  bt_rest : at_rest (sfs_device f)
}.

(** The structure is at [l], its array of vnodes at [a]; [X] has been allocated as well. *)
Record mounting (f0 : Sfs.state) (l a : loc) (X : gset loc) (s : state) : Prop := {
  mt_booted : booted f0 (fs (vol s));
  mt_live : live (base_of s) = X ∪ ({[a]} ∪ ({[l]} ∪ live (base_of f0)));
  mt_array : arrays (vol s) !! a = Some (Array.Array 0 0 None);
  mt_table : sfs_vnodes (vol s) = a;
  mt_at : sfs_at s = l;
  mt_super : sfs_superdirty s = false;
  mt_dirty : sfs_freemapdirty (fs (vol s)) = false;
  mt_fresh : l ∉ live (base_of f0) ∧ a ∉ {[l]} ∪ live (base_of f0)
}.

Lemma wp_on_arrays {A} (m : M Array.state A) (Q : A → SfsVnode.state → Prop) s :
  wp m (λ a t, Q a (set_table t s)) (table s) → wp (on_arrays m) Q s.
Proof. rw /wp /on_arrays /on_vnodes. by destruct (m (table s)). Qed.

Lemma wp_on_bits {A} (m : M Bitmap.state A) (Q : A → Sfs.state → Prop) f :
  wp m (λ a b, Q a (set_fm b f)) (fm f) → wp (on_bits m) Q f.
Proof. intros Hm. by apply wp_on_freemap. Qed.

Section mount.
Context `{!Hardware}.

Lemma booted_held f0 f : booted f0 f → held f0 → live (base_of f0) ⊆ live (base_of f) → held f.
Proof.
  intros [Hl _ Hlk Hm _ _ _] (l & k & Hp & Hlv & Hk & Hn) Hsub. exists l, k. rw Hl Hlk Hm. split; [done|]. split; [by apply Hsub | done].
Qed.

(** Nothing but the oracle has changed, or the structure and the array exist. *)
Lemma fs_create_spec f0 s :
  booted f0 (fs (vol s)) → live (base_of s) = live (base_of f0) →
  wp sfs_fs_create (λ r s', match r with
    | None => booted f0 (fs (vol s')) ∧ live (base_of s') = live (base_of f0)
    | Some l => ∃ a, mounting f0 l a ∅ s' ∧ has_freemap s' = false ∧ irqs (sfs_device (fs (vol s'))) = irqs (sfs_device (fs (vol s)))
    end) s.
Proof.
  intros Hb Hl. rw /sfs_fs_create. wp_step. apply wp_kmalloc_any; [intros o; apply wp_ret; split; [by destruct Hb; split | exact Hl]|].
  intros l o Hfresh. wp_step. apply wp_modify. wp_step. apply wp_on_vol, wp_on_arrays. rw /array_create. wp_step.
  apply wp_kmalloc_any.
  - intros o'. apply wp_ret. wp_step. apply wp_kfree; [set_solver|]. apply wp_ret. split; [by destruct Hb; split|].
    rw /= in Hl Hfresh. rw -Hl /=. set_solver.
  - intros a o' Ha. wp_step. apply wp_modify, wp_ret. wp_step. apply wp_on_vol, wp_modify. wp_step. apply wp_modify.
    wp_step. apply wp_on_vol, wp_on_fs, wp_modify, wp_ret. exists a. split; [|done].
    simpl in Hl, Hfresh, Ha. split; try done; [by destruct Hb; split | by rw /= Hl; set_solver | by rw /= lookup_insert_eq | by rw -Hl].
Qed.

(** Allocation fails, or it is known what it will return. *)
Lemma kmalloc_cases (s : Bitmap.state) :
  (∃ o, kmalloc s = Ok None (upd_base (set_oracle o) s)) ∨ ∃ l o, oracle (base_of s) = Some l :: o ∧ l ∉ live (base_of s).
Proof.
  rw /kmalloc. destruct (oracle (base_of s)) as [|[l|] o] eqn:Ho.
  - left. exists []. rw -{1}(upd_base_same (set_oracle []) s) //. destruct (base_of s). simpl in *. by subst.
  - destruct (decide (l ∈ live (base_of s))); [left; by exists o | right; by exists l, o].
  - left. by exists o.
Qed.

Lemma bitmap_create_any nb s :
  0 ≤ nb ≤ 2 ^ 32 - 8 →
  wp (bitmap_create nb) (λ r s', match r with
    | None => ∃ o, s' = upd_base (set_oracle o) s
    | Some b => ∃ vl ws o, b ∉ live (Bitmap.sys s) ∧ vl ∉ {[b]} ∪ live (Bitmap.sys s) ∧
        s' = fresh_bitmap s b vl nb ws o ∧ Bitmap.repr s' b (Bitmap nb vl) ws
    end) s.
Proof.
  intros Hn. destruct (kmalloc_cases s) as [(o & Hk)|(b & o & Ho & Hb)].
  { rw /bitmap_create. wp_step. eapply wp_Ok; [exact Hk|]. apply wp_ret. by exists o. }
  set (s1 := upd_base (λ c, set_live ({[b]} ∪ live c) (set_oracle o c)) s).
  destruct (kmalloc_cases s1) as [(o' & Hk)|(vl & o' & Ho' & Hvl)].
  - rw /bitmap_create. wp_step. eapply wp_kmalloc; [done..|]. wp_step. eapply wp_Ok; [exact Hk|].
    wp_step. apply wp_kfree; [set_solver|]. apply wp_ret. exists o'. simpl in Hb.
    rw /upd_base /s1 /upd_base /=. f_equal. rw /set_live /set_oracle /=. f_equal. set_solver.
  - eapply wp_mono; [apply (create_spec s nb b vl o'); try done|].
    { simpl in Ho, Ho'. by rw Ho Ho'. }
    intros r s' (-> & ws & -> & Hr & _). by exists vl, ws, o'.
Qed.

Lemma wp_booted_release f f2 (Q : unit → Sfs.state → Prop) :
  biglock_ok f → booted (locked f) f2 → live (base_of f) ⊆ live (base_of f2) →
  (booted f (relocked f f2) → Q tt (relocked f f2)) → wp vfs_biglock_release Q f2.
Proof.
  intros Hok [Hl Hd Hk Hm Hn Hs Hr] Hlive HQ. destruct (locked_same _ Hok) as (_ & _ & _ & _ & _ & Hdev & _ & Hlk).
  destruct (locked_base _ Hok) as [Hme _]. apply (biglock_release_any _ Hok); try done; [by rw Hl | by rw -Hme | |].
  - intros p Hp. apply Hlive. destruct Hok as [[(l & k & Hp' & Hl' & _) _]|[(l & k & Hp' & Hl' & _) _]]; by simplify_eq.
  - apply HQ. rw Hdev in Hn, Hs. split; try done; [by rw /= Hl | by rw /= -Hme].
Qed.

Lemma live_locked f : biglock_ok f → live (base_of (locked f)) = live (base_of f).
Proof. intros Hok. by destruct (locked_same _ Hok) as (_ & _ & ? & _). Qed.

Lemma destroy_empty t a (Q : unit → Array.state → Prop) :
  a ∈ live (Array.sys t) → Array.arrays t !! a = Some (Array.Array 0 0 None) →
  Q tt (upd_base (λ b, set_live (live b ∖ {[a]}) b) t) → wp (array_destroy a) Q t.
Proof.
  intros Hl Ha HQ. rw /array_destroy /array_cleanup. wp_step. wp_step. eapply wp_array_load; [done..|].
  wp_step. apply wp_kassert; [done|]. wp_step. apply wp_ret. eapply wp_array_store; [done..|]. apply wp_kfree; [done|].
  by replace (set_arrays <[a := Array.Array 0 0 None]> t) with t by (rw /set_arrays insert_id //; by destruct t).
Qed.

(** A failure before there is a freemap. *)
Lemma mount_fails_spec f l a s (result : Z) :
  biglock_ok f → mounting (locked f) l a ∅ s → has_freemap s = false →
  wp (mount_fails result) (λ r s', r = inl result ∧ booted f (fs (vol s')) ∧ live (base_of s') = live (base_of f)) s.
Proof.
  intros Hok [Hb Hl Ha Ht Hat _ _ [Hfl Hfa]] Hf. rw live_locked // in Hl, Hfl, Hfa.
  rw /mount_fails /sfs_fs_destroy. wp_step. apply wp_modify. wp_step. wp_step. apply wp_gets. rw /= Hf. apply wp_ret. wp_step.
  apply wp_bind, wp_on_vol, wp_on_vnodes. apply destroy_empty; [rw /= /base_of /= in Hl |- *; rw Hl Ht; set_solver | by rw /= Ht Ha |].
  wp_step. apply wp_gets. wp_step. apply wp_kassert; [done|]. wp_step. apply wp_gets. apply wp_kfree.
  { rw /= /base_of /= in Hl |- *. rw Hl Ht Hat. set_solver. }
  wp_step. apply wp_on_vol, wp_on_fs, (wp_booted_release f); [done | by destruct Hb; split | |].
  { rw /= /base_of /= in Hl |- *. rw Hl Ht Hat. set_solver. }
  intros Hb'. apply wp_ret. split; [done|]. split; [exact Hb'|]. rw /= /base_of /= in Hl |- *. rw Hl Ht Hat. set_solver.
Qed.

(** *** Reading the disk *)

(** Only the disk has changed, and holds what it held. *)
Lemma read_any k f0 f b ws (Q : Z * list Z → Sfs.state → Prop) :
  booted f0 f → held f → 0 ≤ b < d_blocks (sfs_device f0) → sectors (sfs_device f0) !! b = Some ws → ready (S k) f →
  (∀ d, booted f0 (set_device d f) → ready k (set_device d f) → Q (0, ws) (set_device d f)) → wp (sfs_readblock b) Q f.
Proof.
  intros [Hl Hdp Hlk Hm Hn Hs Hr] Hh Hb Hws [rest Hrd] HQ. change (S k) with (1 + k)%nat in Hrd. rw replicate_add in Hrd.
  apply arrivals_app in Hrd as (l' & Hrd & Hrd'). apply (readblock_retries 0 b l'); try done; [by rw Hn | lia|].
  intros d Hd Hdn Hds Hdi. rw Hds Hs Hws /=. apply HQ.
  - split; try done; simpl; congruence.
  - exists rest. by rw /= Hdi.
Qed.

(** The bytes [ws] are in block [p]. *)
Definition with_bytes (p : loc) (ws : list Z) (f : Sfs.state) : Sfs.state := set_fm (set_bytes <[p := ws]> (fm f)) f.

Lemma wp_store_chunk p j data w (Q : unit → Bitmap.state → Prop) b :
  p ∈ live (Bitmap.sys b) → bytes b !! p = Some w → (512 * j + 512 ≤ length w)%nat →
  Q tt (set_bytes <[p := take (512 * j) w ++ data ++ drop (512 * j + 512) w]> b) → wp (set_freemap_chunk p j data) Q b.
Proof.
  intros Hp Hw Hl HQ. rw /set_freemap_chunk. wp_step. eapply chunk_spec; [done..|]. apply wp_modify.
  replace (set_bytes (alter _ p) b) with (set_bytes <[p := take (512 * j) w ++ data ++ drop (512 * j + 512) w]> b); [done|].
  rw /set_bytes. f_equal. apply map_eq. intros q. destruct (decide (q = p)) as [->|]; [by rw lookup_insert_eq lookup_alter_eq Hw|].
  by rw lookup_insert_ne // lookup_alter_ne.
Qed.

Lemma chunks_next ws w0 j n :
  length ws = (512 * n)%nat → length w0 = (512 * n)%nat → (j < n)%nat →
  let w := take (512 * j) ws ++ drop (512 * j) w0 in
  take (512 * j) w ++ chunk ws j ++ drop (512 * j + 512) w = take (512 * S j) ws ++ drop (512 * S j) w0.
Proof.
  intros Hl Hl0 Hj w. assert (length (take (512 * j) ws) = (512 * j)%nat) as Ht by (rw length_take; lia).
  rw /w take_app_length' // drop_app_ge Ht; [|lia]. rw drop_drop /chunk app_assoc take_take_drop. f_equal; f_equal; lia.
Qed.

Lemma read_freemap_spec k f0 s m w0 ws :
  let f := fs (vol s) in let n := Z.to_nat (SFS_FREEMAPBLOCKS (sb_nblocks f)) in
  booted f0 f → held f → Bitmap.repr (fm f) (sfs_freemap f) m w0 →
  length w0 = (512 * n)%nat → length ws = (512 * n)%nat → Forall byte ws →
  2 + Z.of_nat n ≤ d_blocks (sfs_device f0) → 2 + Z.of_nat n < 2 ^ 32 →
  (∀ j, (j < n)%nat → sectors (sfs_device f0) !! (2 + Z.of_nat j) = Some (pack (chunk ws j))) → ready (n + k) f →
  wp (sfs_freemapio UIO_READ) (λ r s', r = 0 ∧ ∃ d, s' = set_vol (set_fs (with_bytes (v m) ws (set_device d f)) (vol s)) s ∧
    booted f0 (set_device d f) ∧ ready k (set_device d f)) s.
Proof.
  intros f n Hb Hh Hr Hl0 Hl Hby Hroom Hd32 Hdisk Hrd. rw /sfs_freemapio. wp_step. apply wp_gets. rw -/f -/n.
  wp_step. apply wp_on_vol, wp_on_fs, wp_on_freemap. rw /bitmap_getdata. wp_step. eapply Bitmap.wp_load_map; [exact Hr|].
  wp_step. wp_step. eapply wp_nonnull; [done|]. rw -/f set_fm_same set_fs_same. assert (set_vol (vol s) s = s) as -> by (by destruct s).
  set (after := λ d w, set_vol (set_fs (with_bytes (v m) w (set_device d f)) (vol s)) s).
  set (Inv := λ j s', ∃ d, s' = after d (take (512 * j) ws ++ drop (512 * j) w0) ∧ booted f0 (set_device d f) ∧ ready (n - j + k) (set_device d f)).
  wp_step. apply (wp_for_up Inv).
  - exists (sfs_device f). rw /after same_device take_0 drop_0 /=. split; [|by rw Nat.sub_0_r].
    rw /with_bytes /set_bytes insert_id; [|apply Hr]. rw /f. by destruct s as [[[[]]]].
  - intros j s' Hj (d & -> & Hbd & Hrd'). wp_step. wp_step. apply wp_on_vol, wp_on_fs.
    rw u32_small /SFS_FREEMAP_START; [|lia]. set (w := take (512 * j) ws ++ drop (512 * j) w0) in *.
    apply (read_any (n - S j + k) f0 _ _ (pack (chunk ws j))); [by destruct Hbd; split | exact Hh | lia | apply Hdisk; lia | |].
    { destruct Hrd' as [rest Hrest]. exists rest. by replace (S (n - S j + k)) with (n - j + k)%nat by lia. }
    intros d' Hbd' Hrd2. wp_step. apply wp_on_vol, wp_on_fs, wp_on_bits.
    assert (Forall byte (chunk ws j)) as Hbc by (by apply Forall_take, Forall_drop).
    rw (unpack_pack 128) //; [|by apply (chunk_length ws n); [|lia]].
    eapply (wp_store_chunk _ _ _ w); [apply Hr | by rw /= lookup_insert_eq | rw /w length_app length_take length_drop; lia |].
    apply wp_ret. rw bool_decide_eq_false_2; [|by intros []]. apply wp_ret. exists d'. split; [|by split; [destruct Hbd'; split|]].
    rw -(chunks_next ws w0 j n) //; [|lia]. by rw /after /with_bytes /set_bytes /= insert_insert_eq.
  - intros s' (d & -> & Hbd & Hrd'). rw Nat.add_0_l Nat.sub_diag in Hrd' |- *. wp_step. split; [done|]. exists d.
    split; [|done]. by rw /after take_ge; [rw drop_ge; [rw app_nil_r | lia] | lia].
Qed.

(** *** [sfs_domount] *)

(** A volume of [n] blocks on the disk, with its superblock and its freemap. *)
Record on_disk (d : lhd) (n : Z) (sb : sfs_superblock) (ws : list Z) : Prop := {
  od_blocks : 0 < n ≤ 2 ^ 23;
  od_room : 2 + SFS_FREEMAPBLOCKS n ≤ d_blocks d;
  od_super : sectors d !! 0 = Some (super_words n sb);
  od_length : length ws = (512 * Z.to_nat (SFS_FREEMAPBLOCKS n))%nat;
  od_bytes : Forall byte ws;
  od_freemap : ∀ j, (j < Z.to_nat (SFS_FREEMAPBLOCKS n))%nat → sectors d !! (2 + Z.of_nat j) = Some (pack (chunk ws j));
  od_magic : sb_magic sb = SFS_MAGIC;
  od_name : length (sb_volname sb) = 32%nat ∧ Forall byte (sb_volname sb) ∧ sb_volname sb !! 31%nat = Some 0;
  od_reserved : length (sb_reserved sb) = 118%nat
}.

Lemma words_super_words n sb :
  length (sb_volname sb) = 32%nat → Forall byte (sb_volname sb) → words_super (super_words n sb) = sb.
Proof.
  intros Hl Hb. pose proof (pack_length 8 _ Hl) as Hp. destruct sb as [mg nm rs]. simpl in *. rw /words_super /super_words /=. f_equal.
  - rw drop_0 take_app_length' //. by apply (unpack_pack 8).
  - change (drop 10 (mg :: n :: pack nm ++ rs)) with (drop 8 (pack nm ++ rs)). by rw drop_app_length'.
Qed.

(** What has been mounted, from a kernel with the lock and the disk of [f]. *)
Record fresh_mount (f : Sfs.state) (n : Z) (sb : sfs_superblock) (ws : list Z) (l : loc) (s : state) : Prop := {
  fr_booted : booted f (fs (vol s));
  fr_freemap : ∃ p, freemap_is (fs (vol s)) p ws;
  fr_nblocks : sb_nblocks (fs (vol s)) = n;
  fr_sb : sfs_sb s = sb;
  fr_clean : sfs_freemapdirty (fs (vol s)) = false ∧ sfs_superdirty s = false;
  fr_has : has_device s = true ∧ has_freemap s = true;
  fr_at : sfs_at s = l;
  fr_array : repr (table (vol s)) (sfs_vnodes (vol s)) (Array.Array 0 0 None) [];
  fr_heap : heap_ok (vol s) []
}.

(** The lock is given back. *)
Lemma mounted_fresh f n sb ws l a b vl s :
  biglock_ok f → mounting (locked f) l a ({[vl]} ∪ {[b]}) s → sfs_freemap (fs (vol s)) = b →
  Bitmap.repr (fm (fs (vol s))) b (Bitmap (SFS_FREEMAPBITS n) vl) ws →
  sb_nblocks (fs (vol s)) = n → sfs_sb s = sb → has_device s = true ∧ has_freemap s = true →
  b ∉ {[a]} ∪ ({[l]} ∪ live (base_of f)) → vl ∉ {[b]} ∪ ({[a]} ∪ ({[l]} ∪ live (base_of f))) →
  booted f (relocked f (fs (vol s))) → fresh_mount f n sb ws l (set_vol (set_fs (relocked f (fs (vol s))) (vol s)) s).
Proof.
  intros Hok [_ Hl Ha Ht Hat Hsd Hfd [Hfl Hfa]] Hfm Hr Hn Hsb Hhas Hb Hvl Hboot. rw live_locked // in Hl, Hfl, Hfa.
  assert (∃ p, vfs_biglock f = Some p ∧ p ∈ live (base_of f)) as (p & Hp & Hpl).
  { destruct Hok as [[(q & k & Hq & ? & _) _]|[(q & k & Hq & ? & _) _]]; by exists q. }
  rw /base_of /= in Hl Hfl Hfa Hb Hvl Hpl.
  assert (anchors (set_fs (relocked f (fs (vol s))) (vol s)) ++ [] = [p; b; a; vl]) as Hanch.
  { pose proof (Bitmap.repr_map _ _ _ _ Hr) as Hm. rw /anchors /= (bt_lock _ _ Hboot : vfs_biglock (fs (vol s)) = _) Hp Hfm Hm Ht Ha //. }
  split; try done.
  - exists vl, (Bitmap (SFS_FREEMAPBITS n) vl). rw /= Hfm Hn. split; [|done]. by destruct Hr; split.
  - split; rw ?/table /= ?Ht //=; [rw /base_of /= Hl; set_solver | by left | by exists []].
  - split; rw Hanch.
    + repeat (apply NoDup_cons; split); [set_solver.. | apply NoDup_nil_2].
    + rw /base_of /= Hl. set_solver.
Qed.

Lemma mount_freemap_spec k f n sb ws l a s :
  biglock_ok f → on_disk (sfs_device f) n sb ws → mounting (locked f) l a ∅ s → has_freemap s = false → has_device s = true →
  sfs_sb s = sb → sb_nblocks (fs (vol s)) = n → ready (Z.to_nat (SFS_FREEMAPBLOCKS n) + k) (fs (vol s)) →
  wp (mount_freemap l) (λ r s', match r with
    | inl e => e = ENOMEM ∧ booted f (fs (vol s')) ∧ live (base_of s') = live (base_of f)
    | inr l' => l' = l ∧ fresh_mount f n sb ws l s' ∧ ready k (fs (vol s'))
    end) s.
Proof.
  intros Hok [Hn Hroom _ Hlen Hby Hdisk _ _ _] Hmt Hhf Hhd Hsb Hnb Hrd. destruct (freemap_blocks n Hn) as [Hbits Hblk].
  rw /mount_freemap. wp_step. apply wp_gets. rw Hnb. wp_step. apply wp_on_vol, wp_on_fs, wp_on_bits.
  eapply wp_mono; [apply bitmap_create_any; rw Hbits; zlia|]. intros [b|] t.
  - intros (vl & w0 & o & Hb & Hvl & -> & Hr). wp_step. apply wp_on_vol, wp_on_fs, wp_modify. wp_step. apply wp_modify.
    set (s2 := set_has_freemap true _). pose proof (mt_live _ _ _ _ _ Hmt) as Hl. rw live_locked // /base_of /= (left_id_L ∅) in Hl.
    assert (live (Bitmap.sys (fm (fs (vol s2)))) = {[vl]} ∪ {[b]} ∪ live (Bitmap.sys (fm (fs (vol s))))) as Hl2 by (by rw -(assoc_L (∪))).
    assert (sb_nblocks (fs (vol s2)) = n) as Hnb2 by exact Hnb.
    assert (mounting (locked f) l a ({[vl]} ∪ {[b]}) s2) as Hmt2.
    { destruct Hmt as [[] _ ? ? ? ? ? ?]. split; try done.
      change (live (Bitmap.sys (fm (fs (vol s2)))) = {[vl]} ∪ {[b]} ∪ ({[a]} ∪ ({[l]} ∪ live (base_of (locked f))))).
      by rw Hl2 Hl live_locked. }
    wp_step. eapply wp_mono; [apply (read_freemap_spec k (locked f) s2 (Bitmap (SFS_FREEMAPBITS n) vl) w0 ws); try done|].
    { apply Hmt2. }
    { eapply booted_held; [apply Hmt2 | by apply locked_held | rw (mt_live _ _ _ _ _ Hmt2); do 3 apply union_subseteq_r'; done]. }
    { rw Hnb2 (Bitmap.repr_length _ _ _ _ Hr) Hblk. rw /nbits Hbits. zlia. }
    { by rw Hnb2. }
    { destruct (locked_same _ Hok) as (_ & _ & _ & _ & _ & -> & _). rw Hnb2. rw Hblk in Hroom |- *. zlia. }
    { rw Hnb2 Hblk. zlia. }
    { destruct (locked_same _ Hok) as (_ & _ & _ & _ & _ & -> & _). by rw Hnb2. }
    { by rw Hnb2. }
    intros r s3 (-> & d & -> & Hbd & Hrd3). rw bool_decide_eq_false_2; [|by intros []].
    set (f3 := with_bytes _ _ _). wp_step. apply wp_on_vol, wp_on_fs, (wp_booted_release f); [done | by destruct Hbd; split | |].
    { change (live (base_of f) ⊆ live (Bitmap.sys (fm (fs (vol s2))))). rw Hl2 Hl. do 3 apply union_subseteq_r'; done. }
    intros Hboot. apply wp_ret. split; [done|]. split; [|exact Hrd3].
    apply (mounted_fresh f n sb ws l a b vl (set_vol (set_fs f3 (vol s2)) s2)); try done.
    + destruct Hmt2. destruct Hbd. by split.
    + destruct Hr as [? ? ? ? ? HL ? Hrest]. split; try done; [by rw /= lookup_insert_eq | rw /= Hlen Hbits Hblk; zlia |].
      rw /= Hlen Hbits Hblk. intros i. zlia.
    + by rw -Hl.
    + rw -Hl. exact Hvl.
  - intros (o & ->). eapply wp_mono; [eapply (mount_fails_spec f l a); [done | | done]|by intros r s' (-> & ? & ?)].
    destruct Hmt as [[] ? ? ? ? ? ? ?]. by split.
Qed.

(** Memory runs out and the heap is what it was, or the volume is mounted. *)
Lemma domount_spec k m n sb ws :
  let f := fs (vol m) in
  biglock_ok f → at_rest (sfs_device f) → on_disk (sfs_device f) n sb ws → ready (S (Z.to_nat (SFS_FREEMAPBLOCKS n) + k)) f →
  wp (sfs_domount SFS_BLOCKSIZE) (λ r m', match r with
    | inl e => e = ENOMEM ∧ booted f (fs (vol m')) ∧ live (base_of m') = live (base_of f)
    | inr l => fresh_mount f n sb ws l m' ∧ ready k (fs (vol m'))
    end) m.
Proof.
  intros f Hok Hrest Hdisk Hrd. destruct (locked_same _ Hok) as (_ & _ & _ & _ & _ & Hdev & _).
  rw /sfs_domount. wp_step. apply wp_on_vol, wp_vfs_acquire; [done|]. set (m1 := set_vol (vlocked (vol m)) m).
  rw bool_decide_eq_false_2; [|by intros []]. assert (booted (locked f) (fs (vol m1))) as Hb1 by (split; rw /= ?Hdev //).
  wp_step. eapply wp_mono; [by apply (fs_create_spec (locked f))|]. intros [l|] m2.
  - intros (a & Hmt & Hhf & Hirq). wp_step. apply wp_modify. wp_step.
    apply wp_on_vol, wp_on_fs, (read_any (Z.to_nat (SFS_FREEMAPBLOCKS n) + k) (locked f) _ _ (super_words n sb)).
    { apply Hmt. }
    { eapply booted_held; [apply Hmt | by apply locked_held | rw (mt_live _ _ _ _ _ Hmt); set_solver]. }
    { rw Hdev. pose proof (od_blocks _ _ _ _ Hdisk) as Hn. pose proof (od_room _ _ _ _ Hdisk). destruct (freemap_blocks n Hn). rw /SFS_SUPER_BLOCK. zlia. }
    { rw Hdev. apply Hdisk. }
    { rw /ready /= Hirq /= Hdev. exact Hrd. }
    intros d Hbd Hrd3. wp_step. apply wp_modify. wp_step. apply wp_on_vol, wp_on_fs, wp_modify.
    pose proof (od_name _ _ _ _ Hdisk) as (Hn1 & Hn2 & Hn3).
    rw bool_decide_eq_false_2; [|by intros []]. rw words_super_words // bool_decide_eq_false_2; [|by intros []; apply Hdisk].
    wp_step. apply wp_modify.
    eapply wp_mono; [apply (mount_freemap_spec k f n sb ws l a); try done|].
    + destruct Hmt as [_ ? ? ? ? ? ? ?]. split; try done. by destruct Hbd; split.
    + rw /= list_insert_id //. by destruct sb.
    + by intros [e|l'] m'; [|intros (-> & ? & ?)].
  - intros [Hb Hl]. wp_step. apply wp_on_vol, wp_on_fs, (wp_booted_release f); [done..| |].
    + rw -(live_locked _ Hok) -Hl //.
    + intros Hb'. apply wp_ret. split; [done|]. split; [exact Hb'|]. rw -(live_locked _ Hok) -Hl //.
Qed.

(** *** Memory is lost, the disk is not *)

Lemma marked_bits f l ws b : freemap_is f l ws → marked f b = bit ws b.
Proof. intros (m & Hr & _). by rw /marked (Bitmap.repr_map _ _ _ _ Hr) (Bitmap.repr_words _ _ _ _ Hr). Qed.

Lemma saved_on_disk s I L ws : fs_ok s I L ws → saved s I → on_disk (sfs_device (fs (vol s))) (sb_nblocks (fs (vol s))) (sfs_sb s) ws.
Proof.
  intros [Hok [l Hbits] Hsaved Hsuper Hmagic Hname Hres] [Hi Hfd Hsd]. pose proof (so_small _ _ _ Hok).
  pose proof (vol_blocks _ (fi_volume _ _ (so_files _ _ _ Hok))) as Hn.
  destruct (freemap_blocks (sb_nblocks (fs (vol s)))) as [_ Hb]; [lia|]. destruct (freemap_length _ _ _ Hbits) as [Hlen Hby]; [lia|].
  split; try done; [lia | | by apply Hsuper | by apply Hsaved].
  set (j := Z.to_nat (SFS_FREEMAPBLOCKS (sb_nblocks (fs (vol s))) - 1)).
  destruct (meta_no_inode (vol s) I L j Hok) as [Hm _]; [rw /j Hb; zlia|].
  destruct (fi_meta _ _ (so_files _ _ _ Hok) _ Hm) as [Hlt _]. rw /j Hb in Hlt. rw Hb. zlia.
Qed.

Lemma remounted f s I L ws l m :
  fs_ok s I L ws → saved s I → fresh_mount f (sb_nblocks (fs (vol s))) (sfs_sb s) ws l m → is_Some (vfs_biglock f) →
  sectors (sfs_device f) = sectors (sfs_device (fs (vol s))) → d_blocks (sfs_device f) = d_blocks (sfs_device (fs (vol s))) →
  fs_ok m I [] ws ∧ ∀ n i, I !! n = Some i → same_contents (fs (vol s)) i (fs (vol m)) i.
Proof.
  intros [Hok [p Hbits] Hsaved Hsuper Hmagic Hname Hres] [Hi Hfd Hsd] [[Hl _ _ _ Hdb Hds Hdr] [q Hfm] Hn Hsb [Hfd' Hsd'] Hhas Hat Harr Hheap] Hlk Hsec Hblk.
  pose proof (so_files _ _ _ Hok) as HI. destruct (fi_volume _ _ HI) as [(x & ws' & Hr & Hxn & Hxr) Hs0 Hvb Hvd].
  assert (∀ b, marked (fs (vol m)) b = marked (fs (vol s)) b) as Hmk by (intros b; by rw (marked_bits _ _ _ _ Hfm) (marked_bits _ _ _ _ Hbits)).
  assert (sectors (sfs_device (fs (vol m))) = sectors (sfs_device (fs (vol s)))) as Hdisk by (by rw Hds).
  assert (volume (fs (vol m))) as Hvol.
  { split; [|by rw Hmk | by rw Hn Hdb Hblk | done]. destruct Hfm as (y & Hry & _ & Hny). exists y, ws. split; [done|].
    destruct Hbits as (x' & Hrx & _ & Hnx). pose proof (Bitmap.repr_map _ _ _ _ Hr). pose proof (Bitmap.repr_map _ _ _ _ Hrx).
    assert (x' = x) as -> by congruence. pose proof (Bitmap.repr_words _ _ _ _ Hr). pose proof (Bitmap.repr_words _ _ _ _ Hrx).
    assert (ws' = ws) as -> by congruence. rw Hny Hn -Hnx. done. }
  destruct (files_kept (fs (vol s)) I (fs (vol m)) HI Hvol Hn Hmk) as [HI' Hun]; [by intros; rw Hdisk|].
  split; [|intros n i Hni; by apply (Hun n i)]. split.
  - split; [done | | by rw Hn; apply Hok | by rw Hl]. split; [by exists (Array.Array 0 0 None) | done | | |].
    + intros l' Hl'. by apply elem_of_nil in Hl'.
    + intros l1 l2 v1 v2 Hl1. by apply elem_of_nil in Hl1.
    + intros n i Hni. right. rw Hdisk. by apply Hi.
  - by exists q.
  - intros _. rw Hn /freemap_saved Hdisk. by apply Hsaved.
  - intros _. rw Hn Hdisk Hsb. by apply Hsuper.
  - by rw Hsb.
  - by rw Hsb.
  - by rw Hsb.
Qed.
End mount.
