(* ===== verification/SfsCrash.v ===== *)
(** * Nothing is lost that has been synced: the theorem *)

From stdpp Require Import base tactics list gmap option numbers ssreflect.
From S2P Require Import Prelude Kern.
From S2P Require Import Uio Lhd Bitmap Array Sfs SfsFacts SfsTrunc SfsThms SfsDir SfsNames SfsDirThms SfsVnode SfsVops SfsCore SfsLoad SfsReclaim SfsFlatThms SfsFsops SfsSync SfsMount.

Open Scope Z_scope.

(** A kernel that finds the disk as [f] has left it; of its memory only the VFS
    lock is known. *)
Record reboots (f : Sfs.state) (m : state) : Prop := {
  rb_lock : biglock_ok (fs (vol m));
  rb_rest : at_rest (sfs_device (fs (vol m)));
  rb_sectors : sectors (sfs_device (fs (vol m))) = sectors (sfs_device f);
  rb_blocks : d_blocks (sfs_device (fs (vol m))) = d_blocks (sfs_device f)
}.

(** C8: [sfs_sync] on a mounted volume whose invariants hold and whose disk
    answers every operation needed, with the VFS lock free or the caller's,
    returns 0, with the inodes, the freemap and the superblock on the disk,
    their dirty flags clear, and the files what they were. If the machine then
    stops and memory is lost, [sfs_domount] in any kernel that finds this disk
    at rest and answering, and has its VFS lock free or taken by the caller,
    either returns [ENOMEM] and leaves the heap as it was, or mounts the volume:
    the invariants hold, no vnode is in memory, and the volume has the same
    files, with the same inodes and contents, the same freemap and the same
    superblock. No panic is reached on the way. (What has not been synced may be
    lost: this says nothing of a crash during or before the sync.) *)
Theorem sfs_sync_survives_crash `{!Hardware} j k s I L ws :
  fs_ok s I L ws → lock_ok 1 (fs (vol s)) → ready (length L + (nfree s + S k)) (fs (vol s)) →
  wp sfs_sync (λ r s', r = 0 ∧ stays s I L ws s' ∧ saved s' I ∧ ready k (fs (vol s')) ∧
    ∀ m, reboots (fs (vol s')) m → ready (S (nfree s + j)) (fs (vol m)) →
    wp (sfs_domount SFS_BLOCKSIZE) (λ r m', match r with
      | inl e => e = ENOMEM ∧ booted (fs (vol m)) (fs (vol m')) ∧ live (base_of m') = live (base_of m)
      | inr l => sfs_at m' = l ∧ fs_ok m' I [] ws ∧ booted (fs (vol m)) (fs (vol m')) ∧ ready j (fs (vol m')) ∧
          sfs_sb m' = sfs_sb s ∧ sb_nblocks (fs (vol m')) = sb_nblocks (fs (vol s)) ∧
          ∀ n i, I !! n = Some i → same_contents (fs (vol s)) i (fs (vol m')) i
      end) m) s.
Proof.
  intros Hok Hlk Hrd. eapply wp_mono; [by apply (sync_ok k s I L ws)|]. intros r s' (-> & Hst & Hsv & Hrd').
  do 4 (split; [done|]). intros m [Hb Hrest Hsec Hblk] Hrdm. pose proof (ve_nblocks _ _ (kp_env _ _ _ _ _ Hst)) as Hn.
  pose proof (saved_on_disk s' I L ws (kp_ok _ _ _ _ _ Hst) Hsv) as Hd. rw Hn in Hd.
  eapply wp_mono; [apply (domount_spec j m (sb_nblocks (fs (vol s))) (sfs_sb s') ws); try done|].
  { destruct Hd. split; try done; by rw ?Hblk ?Hsec. }
  intros [e|l] m' Hm'; [done|]. destruct Hm' as [Hfr Hrdm'].
  destruct (remounted (fs (vol m)) s' I L ws l m') as [Hok' Hc]; try done; [apply Hst | by rw Hn | |].
  { destruct Hb as [[(p & x & -> & _) _]|[(p & x & -> & _) _]]; by eexists. }
  split; [apply Hfr|]. split; [done|]. split; [apply Hfr|]. split; [done|].
  split; [by rw (fr_sb _ _ _ _ _ _ Hfr) (kp_sb _ _ _ _ _ Hst)|]. split; [apply Hfr|].
  intros n i Hi fb. destruct (kp_keeps _ _ _ _ _ Hst n i (not_elem_of_empty _) Hi) as (i' & Hi' & _ & _ & Hc').
  simplify_eq. by rw (Hc n i Hi fb) Hc'.
Qed.

(** ** The volume with one file, its freemap and its superblock still to be written *)
#[local] Instance keeps_old : Hardware := λ old _, old.

Definition crash_sb : sfs_superblock := Superblock SFS_MAGIC ([118; 111; 108] ++ replicate 29 0) (replicate 118 0).

Definition crash_state (l : list Z) : state :=
  let v := flat_state l in State (set_fs (set_freemapdirty true (fs v)) v) 5%positive crash_sb true true true.

(** A kernel that has just come up, with a lock and nothing else. *)
Definition booting (d : lhd) (l : list Z) : state :=
  State
    (SfsVnode.State
      (Sfs.State
        (Bitmap.State (Base {[1]}%positive [Some 2; Some 3; Some 4; Some 5; Some 6; Some 7; Some 8; Some 9]%positive
          {[1%positive := Lockst 2%positive 3%positive None]} 100) ∅ ∅)
        1%positive false 0 (Lhd (d_blocks d) 1 0 0 0 0 zeros (sectors d) l) (Some 1%positive) 0 ∅)
      ∅ ∅ 1%positive ∅)
    1%positive (Superblock 0 [] []) false false false.

Lemma crash_ok l : fs_ok (crash_state l) flat_inodes [6%positive] flat_freemap.
Proof.
  destruct (so_sectors (flat_state l) flat_inodes [6%positive] true (sfs_device (fs (flat_state l)))) as [Hok _].
  - split; [apply flat_files | apply flat_table | done | by eexists].
  - apply (flat_volume l).
  - done.
  - done.
  - split; [exact Hok | | done | done | done | | done].
    + exists 2%positive, (Bitmap.Bitmap 4096 2%positive). split; [|done].
      destruct (flat_volume l) as [(m & ws & Hr & _) _ _ _]. pose proof (Bitmap.repr_map _ _ _ _ Hr) as Hm.
      injection Hm as <-. pose proof (Bitmap.repr_words _ _ _ _ Hr) as Hw. injection Hw as <-. exact Hr.
    + split; [done|]. split; [|done]. rw /byte. by_decide.
Qed.

(** In a run, the file "b" is made, the volume synced and the machine rebooted:
    "a" is still the file 3 and "b" the file 8, and block 8 is in use. *)
Lemma sfs_sync_survives_crash_witness :
  let s := crash_state (replicate 3 LHD_OK) in
  wp sfs_sync (λ r s', r = 0 ∧ saved s' flat_inodes ∧ ready 0 (fs (vol s'))) s ∧
  (λ o, match o with
        | Ok (r1, r2) s' =>
            r1 = inr 9%positive ∧ r2 = 0 ∧
            match (mnt ← sfs_domount SFS_BLOCKSIZE; root ← on_vol sfs_getroot;
                   a ← on_vol (vop_lookup 6%positive [97]); b ← on_vol (vop_lookup 6%positive [98]);
                   mret (mnt, root, a, b))
              (booting (sfs_device (fs (vol s'))) (replicate 100 LHD_OK)) with
            | Ok (mnt, root, a, b) s2 =>
                (mnt, root, a, b) = (inr 2, inr 6, inr 8, inr 9)%positive ∧
                sv_ino <$> svs (fs (vol s2)) !! 8%positive = Some 3 ∧ sv_ino <$> svs (fs (vol s2)) !! 9%positive = Some 8 ∧
                take 2 <$> bytes (fm (fs (vol s2))) !! 5%positive = Some [255; 241]
            | _ => False
            end
        | _ => False
        end)
    ((r1 ← on_vol (vop_creat 6%positive [98] false); r2 ← sfs_sync; mret (r1, r2)) (crash_state (replicate 100 LHD_OK))).
Proof.
  intros s. split.
  - eapply wp_mono; [apply (sfs_sync_survives_crash 0 0 s flat_inodes [6%positive] flat_freemap)|].
    + apply crash_ok.
    + split; [|done]. left. split; [|done]. exists 3%positive, (Lockst 4 5 None)%positive. split; [done|]. split; [by_decide|done].
    + by apply irqs_ready.
    + intros r s' (? & _ & ? & ? & _). done.
  - vm_compute. repeat split.
Defined.
